(* ===== verification/_CoqProject ===== *)
-Q . S2P
Prelude.v
Bytesrepr.v
Hashing.v
KeyTypes.v
Trie.v
TrieStore.v
TrieInv.v
TrieRead.v
TrieProof.v
TrieWrite.v
TrieProps.v
TrieKeys.v
TrieSync.v
Values.v
PublicKeys.v
Account.v
Contracts.v
SystemErrors.v
AuctionData.v
StoredValue.v
Transform.v
TrackingCopy.v
TrackingSim.v
GlobalState.v
StateSample.v
RuntimeContext.v
RuntimeConfine.v
Mint.v
SystemCalls.v
Auction.v
MintLedger.v
Claims.v
MintCalls.v
Solvency.v
AuctionSteps.v
AuctionRewards.v
TokenSafety.v
AuctionSafety.v
RuntimeSample.v
AuctionSample.v
Highway.v
HighwaySkip.v
HighwayInv.v
HighwayTally.v
HighwayFork.v
HighwayAdd.v
HighwayLeader.v
HighwayValidate.v
HighwayMerge.v
HighwayVertex.v
HighwayActive.v
HighwayOwn.v
HighwayNode.v
HighwayRun.v
HighwayEvidence.v
HighwayVotes.v
HighwayFinality.v
HighwayHorizon.v
HighwaySummit.v
HighwayDetector.v
HighwayRewards.v
HighwaySafety.v
HighwayEra.v
HighwayMeter.v
HighwaySample.v
