(* ===== verification/Prelude.v ===== *)
(** * A verification development of casper-node

    casper-node is the node software of a proof-of-stake blockchain, written in
    Rust.  Its parts, and how they interact:

    - [types] and [hashing] hold the data of the system, its byte encoding
      ([bytesrepr]) and its digests: BLAKE2b, Merkle trees over chunks and
      indexed Merkle proofs;
    - [execution_engine] keeps the global state, a map from [Key]s to values, in
      a Merkle trie over a key-value store of serialised trie nodes; it runs
      deploys against it and hosts the system contracts (mint, auction,
      handle-payment);
    - [node] runs Highway consensus on blocks of deploys and moves blocks,
      deploys and signatures between peers.

    ** What models what

    - [Prelude] (this file): results of Rust code as values ([Ok], [Err], [Panic]
      and [OutOfFuel]), machine integers, lists, and the tactics the other files use.
    - [Bytesrepr]: types/src/bytesrepr.rs, bytesrepr/bytes.rs and the codec of
      uint.rs.  [ToBytes] and [FromBytes] are the traits; class [Bytesrepr] states
      the laws every codec obeys, and every codec of the development is an instance.
    - [Hashing]: hashing/src.  [Blake2b] and [TreeFold1] are the interfaces to the
      BLAKE2b crate and to [itertools::tree_fold1]; [Digest], [IndexedMerkleProof]
      and [ChunkWithProof] follow the source.
    - [KeyTypes]: types/src/key.rs, uref.rs, access_rights.rs, era_id.rs,
      account/account_hash.rs and the address types of transfer.rs.
    - [Trie]: execution_engine/src/storage/trie/mod.rs, the nodes, their codec
      and hashes.
    - [TrieStore]: storage/store/mod.rs and trie_store/operations/mod.rs.  A
      store is a finite map from digests to node bytes; transactions are the
      store passed along.  [read], [read_with_proof] and [write] are the source's
      functions with their loops as [Fixpoint]s.
    - [TrieInv], [TrieRead], [TrieProof], [TrieWrite]: the abstraction relation
      [rooted s root m] (the trie under [root] in [s] holds exactly the map [m], in
      the one shape the code maintains) and the proofs that the operations respect it.
      [TrieProof] also has the codec of trie/merkle_proof.rs.
    - [TrieProps]: what the trie promises, and a concrete trie on which the
      theorems are exercised.
    - [TrieKeys], [TrieSync]: the rest of trie_store/operations/mod.rs, the keys
      iterator and [missing_trie_keys].

    The values in the global state, and how it changes:

    - [Values]: types/src/cl_type.rs, cl_value.rs and the integer conversions of
      uint.rs.  [PublicKeys]: crypto/asymmetric_key.rs over the interface [KeyCrates] to the
      curve crates.  [Account], [Contracts], [AuctionData], [StoredValue]: account.rs
      and account/, contracts.rs with semver.rs, system/auction/, stored_value.rs with transfer.rs.
      [SystemErrors]: the errors of the engine and of the system contracts.
    - [Transform]: execution_engine/src/shared/transform.rs and additive_map.rs.
      [TrackingCopy]: core/tracking_copy/mod.rs, a cache and a journal over a reader;
      [TrackingSim] is its simulation by a plain map.
    - [GlobalState]: storage/global_state/mod.rs and in_memory.rs, the commit of effects.
      [StateSample]: concrete states, and two runs in which effects are lost.

    Running code and the system contracts:

    - [RuntimeContext]: core/runtime_context/ with address_generator.rs and stack.rs.  The
      state is a [RuntimeState], the [World] that all contexts of an execution share and
      the [Context] of one call; operations are in the state and error monad [RT].
      [RuntimeConfine]: what code can reach through these operations.
    - [Mint]: system/mint.rs with core/runtime/mint_internal.rs.  [SystemCalls]: the calls of
      contracts and of the mint, and the transfers, of core/runtime/mod.rs.
      [MintLedger]: the mint against an abstract [Ledger].  [MintCalls]: calls of the mint
      seen by their caller.  [TokenSafety]: sequences of operations of a deploy.
    - [Auction]: system/auction.rs and auction/detail.rs, core/runtime/auction_internal.rs, the
      calls of the auction in core/runtime/mod.rs and seigniorage_recipient.rs.
      [Claims]: the amounts that bids, delegations and unbonding requests record against purses.
      [Solvency], [AuctionSteps], [AuctionRewards]: the steps and the entry points of the
      auction keep these amounts covered.  [AuctionSafety]: histories of auction calls and
      deploys as a transition relation ([chain_step]).
    - [RuntimeSample], [AuctionSample]: concrete runs, witnesses, and runs in which the auction misbehaves.

    The [Highway] files model node/src/components/consensus/highway_core, the
    consensus protocol, and parts of protocols/highway:

    - [Highway]: state.rs and state/: units, blocks, panoramas, tallies, the protocol
      state, its checks and the addition of units.  Class [ConsensusContext] is the
      trait [Context]; [LeaderRng] and [BinarySearch] are the interfaces to the random
      number generator and to the binary search of slices.
    - [HighwayVertex], [HighwayActive], [HighwayNode]: validators.rs, vertex.rs,
      evidence.rs, endorsement.rs; active_validator.rs; highway.rs.
    - [HighwayFinality]: finality_detector.rs with horizon.rs and rewards.rs, and
      round_success_meter.rs.  [HighwayEra]: the set-up of an era in
      protocols/highway.rs.
    - [HighwaySkip], [HighwayInv]: skip lists, the invariant [wf] of protocol states
      and the order of panoramas.  [HighwayTally], [HighwayFork]: the fork choice
      against the greedy heaviest-subtree rule.  [HighwayAdd], [HighwayValidate]:
      adding and checking units keeps the invariant [inv].  [HighwayLeader]: the
      leader sequence.  [HighwayMerge]: panoramas as a semilattice.  [HighwayOwn]: the
      units of an active validator.
    - [HighwayRun]: an observer as a transition system ([step], [reachable]).
      [HighwayEvidence]: what it stores is signed, and accusations are proved.
    - [HighwayVotes], [HighwayHorizon], [HighwaySummit], [HighwayDetector],
      [HighwayRewards], [HighwaySafety], [HighwayMeter]: votes follow majorities,
      committees and their quorums, the safety of summits, the detector's search,
      rewards, the finality theorems, and the length of rounds.
    - [HighwaySample]: concrete eras on which the theorems are applied, and runs in
      which the code misbehaves.

    ** What the theorems show

    - Codecs ([Bytesrepr]): every codec round-trips, has the length it announces,
      refuses truncated and over-long input and is injective.
    - Merkle proofs ([Hashing]): [IndexedMerkleProof::new] and [ChunkWithProof::new]
      give proofs that verify; two verifying proofs for the same position and root
      agree unless BLAKE2b collides on a string that was hashed.
    - Rights ([KeyTypes]): a runtime context holds exactly the rights it was given
      and not deprived of.
    - Global state ([TrieProps], [TrieProof]): reads refine map lookup, writes
      refine map insertion and keep older roots intact, the root hash is a function
      of the content, Merkle proofs of the trie are complete and unforgeable.
    - Keys and synchronisation ([TrieKeys], [TrieSync]): the keys iterator lists the keys with a
      prefix, each once; a root without missing keys is stored completely.
    - Execution ([TrackingSim], [GlobalState]): a tracking copy behaves like the map it was
      opened on, and committing its effects reaches the one root for the resulting map.
    - Accounts and contexts ([Account], [RuntimeConfine]): an account keeps keys that can manage it;
      code changes only what it has rights to, and gains rights only to addresses it drew.
    - Tokens ([MintLedger], [TokenSafety]): the mint refines a ledger; no deploy creates
      or destroys tokens, takes from a purse it cannot write to, or exceeds its spending limit by
      transfers.
    - Auction ([AuctionSafety], [AuctionRewards]): after every history of auction calls and
      deploys all purses cover the stakes and unbonding amounts recorded against them; the
      rewards of an era add up to what is due.
    - Consensus state ([HighwayRun], [HighwayFork], [HighwayMerge], [HighwayLeader],
      [HighwayOwn], [HighwayEra], [HighwayEvidence]): an era can be set up; no vertex
      makes an observer panic; what nodes serve is accepted by others; the fork choice terminates and follows the greedy rule; every round has a
      leader; merged panoramas are least upper bounds; the confirmations of an honest
      validator are accepted by everybody.
    - Finality ([HighwaySafety], [HighwayMeter]): nodes agree on finalized blocks while
      the faulty weight is below their thresholds; the detector terminates and finds
      every summit; rewards are bounded; round lengths stay within their limits.

    ** Conventions

    Unsigned machine integers are [Z] with their width written out.  Rust's plain
    [+], [-] and [*] panic on overflow in debug builds and wrap in release builds;
    the model takes them as [Panic], so a theorem that excludes [Panic] excludes
    overflow as well.  [checked_], [saturating_] and [wrapping_] operations are what
    they say.  Loops that are not structural take fuel, and the theorems show that
    the fuel their callers pass is enough: the trie walks get one more than the
    bytes of the key, and each step consumes a byte; walks through the protocol state
    get one more than its units or blocks; a committee is pruned at most once per
    member, and the detector tries at most 63 levels.

    The theorems about consensus are for states with fewer than 2^64 - 2 units and
    for eras in which no validator has weight zero; [HighwaySample] shows what happens
    otherwise.  Finality concerns observers: nodes without an active validator.  Units
    that nodes exchange are their messages, and the theorems about two nodes refer to a
    third one that knows the units of both.

    The theorems about tokens and the auction assume that the addresses an execution draws are
    new, that the mint and the auction are installed as at genesis, and that sums of rewards
    and balances fit into [U512]s.  They are about calls that return: an error rolls an
    execution back.  The accounts that bid or delegate pay from main purses that are not bonding
    purses, and deploys hold no write access to bonding purses.

    Hash collisions are never assumed away globally: where a result needs digests to
    differ, its hypothesis names the finite list of strings that must not collide, and
    a witness decides that list for a concrete hash function.

    ** What is not modelled

    The wasm interpreter, the decoding of host function arguments from its memory, and the
    executor and engine state that drive it: what wasm code does is any sequence of the modelled
    operations.  The encoding of arguments and results of system contract calls as CLValues.
    The handle-payment and standard-payment contracts and genesis.  LMDB, networking and TLS, the JSON-RPC, REST and
    event-stream servers, serde encodings and [Display], metrics, the command line, test
    support and the sample contracts.  Of consensus, the message handling of
    protocols/highway.rs, the era supervisor and their timers; of the node, gossiping, block
    proposal and validation, storage and synchronisation. *)

From coqutil Require Export Byte Word.LittleEndianList.
From stdpp Require Export base gmap list countable numbers option fin_maps.

Set Default Goal Selector "!".

(** ** Results of Rust code

    [res E A] is what a Rust function returning [Result<A, E>] can do when
    called: return [Ok], return [Err], or panic ([unwrap] on [None], a failed
    [assert!], an out-of-range index, [unreachable!]).  [OutOfFuel] is not a
    behaviour of the code: it marks a loop model that was given too little
    fuel, and the totality theorems exclude it. *)

Inductive res (E A : Type) : Type :=
| Ok (a : A)
| Err (e : E)
| Panic
| OutOfFuel.
Arguments Ok {E A} _.
Arguments Err {E A} _.
Arguments Panic {E A}.
Arguments OutOfFuel {E A}.

#[export] Instance res_ret E : MRet (res E) := fun A a => Ok a.
#[export] Instance res_bind E : MBind (res E) := fun A B k m =>
  match m with
  | Ok a => k a
  | Err e => Err e
  | Panic => Panic
  | OutOfFuel => OutOfFuel
  end.
#[export] Instance res_eq_dec E A `{EqDecision E} `{EqDecision A} : EqDecision (res E A).
Proof. solve_decision. Defined.
#[export] Instance res_fmap E : FMap (res E) := fun A B f m =>
  match m with
  | Ok a => Ok (f a)
  | Err e => Err e
  | Panic => Panic
  | OutOfFuel => OutOfFuel
  end.

(** [Result::map_err]. *)
Definition map_err {E E' A} (f : E -> E') (m : res E A) : res E' A :=
  match m with
  | Ok a => Ok a
  | Err e => Err (f e)
  | Panic => Panic
  | OutOfFuel => OutOfFuel
  end.

(** [Option::ok_or]. *)
Definition ok_or {E A} (o : option A) (e : E) : res E A :=
  match o with Some a => Ok a | None => Err e end.

(** [Option::expect] / [Option::unwrap]. *)
Definition expect {E A} (o : option A) : res E A :=
  match o with Some a => Ok a | None => Panic end.

(** [assert!]. *)
Definition rassert {E} (b : bool) : res E unit :=
  if b then Ok tt else Panic.

(** An early [return Err(e)] taken when [b] holds. *)
Definition fail_if {E} (b : bool) (e : E) : res E unit :=
  if b then Err e else Ok tt.

Definition is_ok {E A} (m : res E A) : bool :=
  match m with Ok _ => true | _ => false end.

Lemma bind_assoc {E A B C} (m : res E A) (f : A -> res E B) (g : B -> res E C) :
  (b ← (a ← m; f a); g b) = (a ← m; b ← f a; g b).
Proof. by destruct m. Qed.

Lemma bind_ext {E A B} (m : res E A) (f g : A -> res E B) :
  (forall a, f a = g a) -> (a ← m; f a) = (a ← m; g a).
Proof. intros Hfg. destruct m; cbn; [apply Hfg|done..]. Qed.

Lemma bind_Ok {E A B} (k : A -> res E B) (m : res E A) (b : B) :
  m ≫= k = Ok b <-> exists a, m = Ok a /\ k a = Ok b.
Proof. destruct m; cbn; naive_solver. Qed.

Lemma bind_Err {E A B} (k : A -> res E B) (m : res E A) (e : E) :
  m ≫= k = Err e <-> m = Err e \/ exists a, m = Ok a /\ k a = Err e.
Proof. destruct m; cbn; naive_solver. Qed.

#[export] Instance res_bind_proper {E A B} :
  Proper (pointwise_relation A eq ==> eq ==> eq) (@mbind (res E) _ A B).
Proof. intros f g Hfg m _ <-. by destruct m; cbn. Qed.

Lemma fmap_Ok {E A B} (f : A -> B) (m : res E A) (b : B) :
  f <$> m = Ok b <-> exists a, m = Ok a /\ f a = b.
Proof. destruct m; cbn; naive_solver. Qed.

(** A step of a bind without reducing the monad's own definition. *)
Lemma bind_eq {E A B} (m : res E A) (a : A) (f : A -> res E B) : m = Ok a -> m ≫= f = f a.
Proof. by intros ->. Qed.

Lemma map_err_Ok {E E' A} (f : E -> E') (m : res E A) (a : A) :
  map_err f m = Ok a <-> m = Ok a.
Proof. destruct m; cbn; naive_solver. Qed.

Lemma ok_or_Ok {E A} (o : option A) (e : E) (a : A) :
  ok_or o e = Ok a <-> o = Some a.
Proof. destruct o; cbn; naive_solver. Qed.

Lemma expect_Ok {E A} (o : option A) (a : A) :
  expect (E:=E) o = Ok a <-> o = Some a.
Proof. destruct o; cbn; naive_solver. Qed.

Lemma rassert_Ok {E} (b : bool) u : rassert (E:=E) b = Ok u <-> b = true.
Proof. destruct b, u; cbn; naive_solver. Qed.

Lemma fail_if_Ok {E} (b : bool) (e : E) u : fail_if b e = Ok u <-> b = false.
Proof. destruct b, u; cbn; naive_solver. Qed.

(** Decompose hypotheses that say a monadic computation returned [Ok]. *)
Ltac inv_ok_step :=
  match goal with
  | H : _ ≫= _ = Ok _ |- _ => apply bind_Ok in H; destruct H as (? & ? & ?)
  | H : _ <$> _ = Ok _ |- _ => apply fmap_Ok in H; destruct H as (? & ? & ?)
  | H : map_err _ _ = Ok _ |- _ => apply map_err_Ok in H
  | H : ok_or _ _ = Ok _ |- _ => apply ok_or_Ok in H
  | H : expect _ = Ok _ |- _ => apply expect_Ok in H
  | H : rassert _ = Ok _ |- _ => apply rassert_Ok in H
  | H : fail_if _ _ = Ok _ |- _ => apply fail_if_Ok in H
  | H : mret _ = Ok _ |- _ => unfold mret, res_ret in H
  | H : Ok _ = Ok _ |- _ => injection H as H
  | H : Err _ = Ok _ |- _ => discriminate H
  | H : Panic = Ok _ |- _ => discriminate H
  | H : OutOfFuel = Ok _ |- _ => discriminate H
  | H : (let '(_, _) := ?p in _) = Ok _ |- _ => destruct p eqn:?
  | H : (if ?b then _ else _) = Ok _ |- _ => destruct b eqn:?
  | p : (_ * _)%type |- _ => destruct p
  | u : unit |- _ => destruct u
  end.
Ltac inv_ok := repeat (inv_ok_step; simpl in *; simplify_eq).

(** A computation that ends without a panic, with a value or an error. *)
Definition safe {E A} (m : res E A) : Prop :=
  match m with Ok _ | Err _ => True | Panic | OutOfFuel => False end.

Lemma safe_bind {E A B} (m : res E A) (k : A -> res E B) :
  safe m -> (forall a, m = Ok a -> safe (k a)) -> safe (m ≫= k).
Proof. destruct m; cbn; auto. Qed.

Lemma safe_fail_if {E} (b : bool) (e : E) : safe (fail_if b e).
Proof. by destruct b. Qed.

Ltac solve_safe :=
  repeat first
    [ done
    | apply safe_bind; [|let p := fresh in intros p _; try (destruct p as [? ?])]
    | progress cbn beta iota
    | match goal with |- safe (if ?b then _ else _) => destruct b end
    | match goal with |- safe (match ?x with _ => _ end) => destruct x end ].

Lemma safe_map_err {E F A} (f : E -> F) (m : res E A) : safe m -> safe (map_err f m).
Proof. by destruct m. Qed.

Lemma safe_Ok {E A} (m : res E A) a : m = Ok a -> safe m.
Proof. by intros ->. Qed.

(** *** Iterators with fallible closures

    [Iterator::all], [any], [find], [map] and [filter_map] over a closure that may
    panic; as in the source, [all], [any] and [find] stop at the first answer. *)

Fixpoint all_res {E A} (f : A -> res E bool) (l : list A) : res E bool :=
  match l with
  | [] => Ok true
  | x :: l => b ← f x; if b : bool then all_res f l else Ok false
  end.

Fixpoint any_res {E A} (f : A -> res E bool) (l : list A) : res E bool :=
  match l with
  | [] => Ok false
  | x :: l => b ← f x; if b : bool then Ok true else any_res f l
  end.

Fixpoint find_res {E A} (f : A -> res E bool) (l : list A) : res E (option A) :=
  match l with
  | [] => Ok None
  | x :: l => b ← f x; if b : bool then Ok (Some x) else find_res f l
  end.

Fixpoint map_res {E A B} (f : A -> res E B) (l : list A) : res E (list B) :=
  match l with
  | [] => Ok []
  | x :: l => y ← f x; l ← map_res f l; mret (y :: l)
  end.

Fixpoint filter_res {E A} (f : A -> res E bool) (l : list A) : res E (list A) :=
  match l with
  | [] => Ok []
  | x :: l => b ← f x; l ← filter_res f l; mret (if b : bool then x :: l else l)
  end.

Fixpoint omap_res {E A B} (f : A -> res E (option B)) (l : list A) : res E (list B) :=
  match l with
  | [] => Ok []
  | x :: l => y ← f x; l ← omap_res f l; mret (match y with Some y => y :: l | None => l end)
  end.

Fixpoint fold_res {E A B} (f : B -> A -> res E B) (b : B) (l : list A) : res E B :=
  match l with
  | [] => Ok b
  | x :: l => b ← f b x; fold_res f b l
  end.

Section FallibleIterators.
Context {E A : Type}.

Lemma all_res_Ok (f : A -> res E bool) (g : A -> bool) l :
  (forall x, x ∈ l -> f x = Ok (g x)) -> all_res f l = Ok (forallb g l).
Proof.
  induction l as [|x l IH]; intros F; cbn; [done|]. rewrite F by set_solver. cbn.
  destruct (g x); cbn; [apply IH; set_solver|done].
Qed.

Lemma any_res_Ok (f : A -> res E bool) (g : A -> bool) l :
  (forall x, x ∈ l -> f x = Ok (g x)) -> any_res f l = Ok (existsb g l).
Proof.
  induction l as [|x l IH]; intros F; cbn; [done|]. rewrite F by set_solver. cbn.
  destruct (g x); cbn; [done|apply IH; set_solver].
Qed.

Lemma find_res_Ok (f : A -> res E bool) (g : A -> bool) l :
  (forall x, x ∈ l -> f x = Ok (g x)) -> find_res f l = Ok (find g l).
Proof.
  induction l as [|x l IH]; intros F; cbn; [done|]. rewrite F by set_solver. cbn.
  destruct (g x); cbn; [done|apply IH; set_solver].
Qed.

Lemma map_res_Ok {B} (f : A -> res E B) (g : A -> B) l :
  (forall x, x ∈ l -> f x = Ok (g x)) -> map_res f l = Ok (g <$> l).
Proof.
  induction l as [|x l IH]; intros F; cbn; [done|]. rewrite F by set_solver. cbn.
  rewrite IH by set_solver. done.
Qed.

Lemma filter_res_Ok (f : A -> res E bool) (g : A -> bool) l :
  (forall x, x ∈ l -> f x = Ok (g x)) -> filter_res f l = Ok (List.filter g l).
Proof.
  induction l as [|x l IH]; intros F; cbn; [done|]. rewrite F by set_solver. cbn.
  rewrite IH by set_solver. done.
Qed.

Lemma omap_res_Ok {B} (f : A -> res E (option B)) (g : A -> option B) l :
  (forall x, x ∈ l -> f x = Ok (g x)) -> omap_res f l = Ok (omap g l).
Proof.
  induction l as [|x l IH]; intros F; cbn; [done|]. rewrite F by set_solver. cbn.
  rewrite IH by set_solver. by destruct (g x).
Qed.

End FallibleIterators.

(** ** Bytes *)

#[export] Instance byte_eq_dec : EqDecision Byte.byte.
Proof.
  intros x y; destruct (Byte.eqb x y) eqn:E.
  - left. by apply Byte.byte_dec_bl.
  - right. intros ->. by rewrite Byte.byte_dec_lb in E.
Defined.

#[export] Instance byte_countable : Countable Byte.byte.
Proof.
  refine (inj_countable' Byte.to_N (fun n => default Byte.x00 (Byte.of_N n)) _).
  intros b. by rewrite Byte.of_to_N.
Defined.

Abbreviation bytes := (list Byte.byte).

(** A byte as an array index ([usize::from(b)]). *)
Definition b2n (b : Byte.byte) : nat := N.to_nat (Byte.to_N b).
Definition n2b (n : nat) : Byte.byte := byte.of_Z (Z.of_nat n).

Lemma b2n_lt b : b2n b < 256.
Proof.
  unfold b2n. pose proof (byte.unsigned_range b) as H. unfold byte.unsigned in H. lia.
Qed.

Lemma unsigned_b2n b : byte.unsigned b = Z.of_nat (b2n b).
Proof. unfold byte.unsigned, b2n. lia. Qed.

Lemma b2n_n2b n : n < 256 -> b2n (n2b n) = n.
Proof.
  intros ?. apply Nat2Z.inj. rewrite <- unsigned_b2n. unfold n2b.
  rewrite byte.unsigned_of_Z. unfold byte.wrap. rewrite Z.mod_small; lia.
Qed.

Lemma n2b_b2n b : n2b (b2n b) = b.
Proof. unfold n2b. rewrite <- unsigned_b2n. apply byte.of_Z_unsigned. Qed.

#[export] Instance b2n_inj : Inj eq eq b2n.
Proof. intros x y H. rewrite <- (n2b_b2n x), <- (n2b_b2n y). by rewrite H. Qed.

(** ** Machine integers

    Unsigned integers of width [w] are integers of [Z] with their range as an
    explicit predicate; arithmetic is written with the overflow behaviour the
    Rust operation has. *)

Section Uint.
Local Open Scope Z_scope.

Definition uint_max (w : Z) : Z := 2 ^ w - 1.
Definition is_uint (w z : Z) : Prop := 0 <= z < 2 ^ w.
Definition is_uintb (w z : Z) : bool := (0 <=? z) && (z <? 2 ^ w).

Definition checked_add (w a b : Z) : option Z :=
  if a + b <=? uint_max w then Some (a + b) else None.
Definition checked_sub (a b : Z) : option Z :=
  if b <=? a then Some (a - b) else None.
Definition checked_mul (w a b : Z) : option Z :=
  if a * b <=? uint_max w then Some (a * b) else None.
Definition checked_div (a b : Z) : option Z :=
  if b =? 0 then None else Some (a / b).
Definition saturating_add (w a b : Z) : Z := Z.min (a + b) (uint_max w).
Definition saturating_sub (a b : Z) : Z := Z.max (a - b) 0.
Definition saturating_mul (w a b : Z) : Z := Z.min (a * b) (uint_max w).
(** A conversion with [as] to an unsigned integer of width [w]. *)
Definition wrap (w z : Z) : Z := z mod 2 ^ w.
Definition wrapping_add (w a b : Z) : Z := (a + b) mod 2 ^ w.
Definition wrapping_sub (w a b : Z) : Z := (a - b) mod 2 ^ w.

(** The plain operators on [u64] and [u128]: overflow, and a shift by the width
    or more, panic. *)
Definition plain_add {E} (w a b : Z) : res E Z := expect (checked_add w a b).
Definition plain_mul {E} (w a b : Z) : res E Z := expect (checked_mul w a b).
Definition plain_sub {E} (a b : Z) : res E Z := expect (checked_sub a b).
Definition plain_div {E} (a b : Z) : res E Z := expect (checked_div a b).
Definition plain_rem {E} (a b : Z) : res E Z := if b =? 0 then Panic else Ok (a mod b).
Definition u64_add {E} (a b : Z) : res E Z := plain_add 64 a b.
Definition u64_sub {E} (a b : Z) : res E Z := plain_sub a b.
Definition u64_mul {E} (a b : Z) : res E Z := plain_mul 64 a b.
Definition u64_shl {E} (a n : Z) : res E Z :=
  if n <? 64 then Ok (Z.shiftl a n mod 2 ^ 64) else Panic.
Definition u64_shr {E} (a n : Z) : res E Z := if n <? 64 then Ok (Z.shiftr a n) else Panic.

(** [trailing_zeros] of a [u64]. *)
Fixpoint pos_trailing_zeros (p : positive) : Z :=
  match p with xO p => 1 + pos_trailing_zeros p | _ => 0 end.
Definition trailing_zeros (z : Z) : Z :=
  match z with Zpos p => pos_trailing_zeros p | _ => 64 end.

(** [u64::checked_next_power_of_two]. *)
Definition checked_next_power_of_two (z : Z) : option Z :=
  if 2 ^ Z.log2_up z <=? uint_max 64 then Some (2 ^ Z.log2_up z) else None.

Lemma is_uintb_spec w z : is_uintb w z = true <-> is_uint w z.
Proof. unfold is_uintb, is_uint. lia. Qed.

Lemma checked_add_Some w a b c :
  checked_add w a b = Some c <-> c = a + b /\ a + b < 2 ^ w.
Proof.
  unfold checked_add, uint_max. destruct (Z.leb_spec (a + b) (2 ^ w - 1)).
  - split; [intros [= <-]|intros [-> ?]]; [split; lia|done].
  - split; [done|lia].
Qed.

Lemma checked_add_None w a b : checked_add w a b = None <-> 2 ^ w <= a + b.
Proof.
  unfold checked_add, uint_max.
  destruct (Z.leb_spec (a + b) (2 ^ w - 1)); split; (done || lia).
Qed.

Lemma checked_sub_Some a b c : checked_sub a b = Some c <-> c = a - b /\ b <= a.
Proof.
  unfold checked_sub. destruct (Z.leb_spec b a); split; intros H'; simplify_eq; try lia; try done.
  by destruct H' as [-> _].
Qed.

Lemma checked_sub_None a b : checked_sub a b = None <-> a < b.
Proof. unfold checked_sub. destruct (Z.leb_spec b a); split; (done || lia). Qed.

Lemma checked_mul_Some w a b c :
  checked_mul w a b = Some c <-> c = a * b /\ a * b < 2 ^ w.
Proof.
  unfold checked_mul, uint_max. destruct (Z.leb_spec (a * b) (2 ^ w - 1)).
  - split; [intros [= <-]|intros [-> ?]]; [split; lia|done].
  - split; [done|lia].
Qed.

Lemma saturating_add_range w a b :
  is_uint w a -> is_uint w b -> is_uint w (saturating_add w a b).
Proof. unfold is_uint, saturating_add, uint_max. lia. Qed.

Lemma wrapping_range w a : 0 <= w -> is_uint w (a mod 2 ^ w).
Proof. intros ?. apply Z.mod_pos_bound. lia. Qed.

End Uint.

(** ** Total orders, [BTreeMap] and [BTreeSet]

    [Ord] is Rust's trait; [BTreeMap<K, V>] is the association list its
    iterator yields, strictly increasing in the key. *)

Class Ord (A : Type) := ord_cmp : A -> A -> comparison.

Class OrdLaws (A : Type) `{Ord A} : Prop := {
  ord_eq (x y : A) : ord_cmp x y = Eq <-> x = y;
  ord_antisym (x y : A) : ord_cmp y x = CompOpp (ord_cmp x y);
  ord_trans (x y z : A) : ord_cmp x y = Lt -> ord_cmp y z = Lt -> ord_cmp x z = Lt;
}.

Definition ord_lt {A} `{Ord A} (x y : A) : Prop := ord_cmp x y = Lt.

#[export] Instance Z_ord : Ord Z := Z.compare.
#[export] Instance Z_ord_laws : OrdLaws Z.
Proof.
  split; unfold ord_cmp, Z_ord.
  - apply Z.compare_eq_iff.
  - intros x y. apply Z.compare_antisym.
  - intros x y z. rewrite !Z.compare_lt_iff. lia.
Qed.

#[export] Instance byte_ord : Ord Byte.byte := byte.compare.
#[export] Instance byte_ord_laws : OrdLaws Byte.byte.
Proof.
  split; unfold ord_cmp, byte_ord, byte.compare.
  - intros x y. rewrite Z.compare_eq_iff. split; [apply byte.unsigned_inj|by intros ->].
  - intros x y. apply Z.compare_antisym.
  - intros x y z. rewrite !Z.compare_lt_iff. lia.
Qed.

(** Lexicographic order of slices and of derived [Ord] on tuple structs. *)
Fixpoint list_cmp {A} `{Ord A} (l k : list A) : comparison :=
  match l, k with
  | [], [] => Eq
  | [], _ :: _ => Lt
  | _ :: _, [] => Gt
  | x :: l', y :: k' =>
      match ord_cmp x y with Eq => list_cmp l' k' | c => c end
  end.
#[export] Instance list_ord {A} `{Ord A} : Ord (list A) := list_cmp.

#[export] Instance list_ord_laws {A} `{OrdLaws A} : OrdLaws (list A).
Proof.
  split; unfold ord_cmp at 1, list_ord.
  - induction x as [|a x IH]; intros [|b y]; cbn; try (split; congruence).
    destruct (ord_cmp a b) eqn:E; try (split; [done|intros [= -> _]]).
    + apply ord_eq in E as ->. rewrite IH. split; congruence.
    + by rewrite (proj2 (ord_eq b b) eq_refl) in E.
    + by rewrite (proj2 (ord_eq b b) eq_refl) in E.
  - induction x as [|a x IH]; intros [|b y]; cbn; try done.
    rewrite (ord_antisym a b). destruct (ord_cmp a b); cbn; auto.
  - intros x y z; revert x y z. unfold ord_cmp, list_ord.
    induction x as [|a x IH]; intros [|b y] [|c z]; cbn; try done.
    destruct (ord_cmp a b) eqn:E1; try done;
      destruct (ord_cmp b c) eqn:E2; try done.
    + apply ord_eq in E1 as ->. apply ord_eq in E2 as ->.
      rewrite (proj2 (ord_eq c c) eq_refl). apply IH.
    + apply ord_eq in E1 as ->. by rewrite E2.
    + apply ord_eq in E2 as ->. by rewrite E1.
    + by rewrite (ord_trans _ _ _ E1 E2).
Qed.

(** Derived [Ord] on a pair of fields, and orders taken along an injection. *)
Definition pair_cmp {A B} `{Ord A} `{Ord B} (x y : A * B) : comparison :=
  match ord_cmp x.1 y.1 with Eq => ord_cmp x.2 y.2 | c => c end.
#[export] Instance pair_ord {A B} `{Ord A} `{Ord B} : Ord (A * B) := pair_cmp.

#[export] Instance pair_ord_laws {A B} `{OrdLaws A} `{OrdLaws B} : OrdLaws (A * B).
Proof.
  split.
  - intros [a b] [a' b']. change (pair_cmp (a, b) (a', b') = Eq <-> (a, b) = (a', b')). unfold pair_cmp. cbn [fst snd].
    destruct (ord_cmp a a') eqn:E.
    + apply ord_eq in E as ->. rewrite ord_eq. split; congruence.
    + split; [done|]. intros [= -> _]. by rewrite (proj2 (ord_eq a' a') eq_refl) in E.
    + split; [done|]. intros [= -> _]. by rewrite (proj2 (ord_eq a' a') eq_refl) in E.
  - intros [a b] [a' b']. change (pair_cmp (a', b') (a, b) = CompOpp (pair_cmp (a, b) (a', b'))). unfold pair_cmp.
    cbn [fst snd]. rewrite (ord_antisym a a'). destruct (ord_cmp a a'); [apply ord_antisym|done|done].
  - intros [a b] [a' b'] [a'' b'']. change (pair_cmp (a, b) (a', b') = Lt -> pair_cmp (a', b') (a'', b'') = Lt ->
      pair_cmp (a, b) (a'', b'') = Lt). unfold pair_cmp. cbn [fst snd].
    destruct (ord_cmp a a') eqn:E1, (ord_cmp a' a'') eqn:E2; try done.
    + apply ord_eq in E1 as ->. rewrite E2. apply ord_trans.
    + apply ord_eq in E1 as ->. by rewrite E2.
    + apply ord_eq in E2 as <-. by rewrite E1.
    + by rewrite (ord_trans _ _ _ E1 E2).
Qed.

Lemma ord_laws_via {A B} `{OrdLaws B} (f : A -> B) :
  (forall x y, f x = f y -> x = y) -> @OrdLaws A (fun x y => ord_cmp (f x) (f y)).
Proof.
  intros Hf. split.
  - intros x y. change (ord_cmp (f x) (f y) = Eq <-> x = y). rewrite ord_eq. split; [apply Hf|by intros ->].
  - intros x y. exact (ord_antisym (f x) (f y)).
  - intros x y z. exact (ord_trans (f x) (f y) (f z)).
Qed.

Section BTreeMap.
Context {K V : Type} `{OrdLaws K}.
Implicit Types (m : list (K * V)) (k : K) (v : V).

(** [BTreeMap::insert] on the sorted association list. *)
Fixpoint btree_insert k v m : list (K * V) :=
  match m with
  | [] => [(k, v)]
  | (k', v') :: m' =>
      match ord_cmp k k' with
      | Lt => (k, v) :: m
      | Eq => (k, v) :: m'
      | Gt => (k', v') :: btree_insert k v m'
      end
  end.

(** [BTreeMap::get]. *)
Fixpoint btree_get k m : option V :=
  match m with
  | [] => None
  | (k', v') :: m' =>
      match ord_cmp k k' with
      | Lt => None
      | Eq => Some v'
      | Gt => btree_get k m'
      end
  end.

(** [BTreeMap::remove]. *)
Fixpoint btree_remove k m : list (K * V) :=
  match m with
  | [] => []
  | (k', v') :: m' =>
      match ord_cmp k k' with
      | Lt => m
      | Eq => m'
      | Gt => (k', v') :: btree_remove k m'
      end
  end.

Fixpoint btree_sorted m : Prop :=
  match m with
  | [] => True
  | (k, _) :: m' => Forall (fun kv => ord_lt k kv.1) m' /\ btree_sorted m'
  end.

Lemma ord_cmp_refl k : ord_cmp k k = Eq.
Proof. by apply ord_eq. Qed.

Lemma ord_cmp_Gt k k' : ord_cmp k k' = Gt <-> ord_lt k' k.
Proof.
  unfold ord_lt. rewrite (ord_antisym k k'). destruct (ord_cmp k k'); cbn; split; done.
Qed.

Lemma btree_insert_Forall (P : K * V -> Prop) k v m :
  P (k, v) -> Forall P m -> Forall P (btree_insert k v m).
Proof.
  intros Hk Hm. induction Hm as [|[k' v'] m' Hp Hm IH]; cbn; [by repeat constructor|].
  destruct (ord_cmp k k'); repeat (constructor; auto).
Qed.

Lemma btree_insert_sorted k v m : btree_sorted m -> btree_sorted (btree_insert k v m).
Proof.
  induction m as [|[k' v'] m IH]; cbn; [by repeat constructor|].
  intros [Hk Hm]. destruct (ord_cmp k k') eqn:E; cbn.
  - apply ord_eq in E as ->. done.
  - split; [|done]. constructor; [done|].
    eapply Forall_impl; [exact Hk|]. intros [k2 ?] H2; cbn in *. by eapply ord_trans.
  - split; [|by apply IH]. apply btree_insert_Forall; [|done]. by apply ord_cmp_Gt.
Qed.

Lemma btree_insert_length k v m : length (btree_insert k v m) <= S (length m).
Proof. induction m as [|[k' v'] m IH]; cbn; [lia|]. case_match; cbn; lia. Qed.

Lemma ord_cmp_lt_trans (x y z : K) : ord_lt x y -> ord_lt y z -> ord_cmp x z = Lt.
Proof. apply ord_trans. Qed.

Lemma btree_get_insert k k' v m :
  btree_get k (btree_insert k' v m) = match ord_cmp k k' with Eq => Some v | _ => btree_get k m end.
Proof.
  induction m as [|[k1 v1] m IH]; cbn; [by destruct (ord_cmp k k')|].
  destruct (ord_cmp k' k1) eqn:E1; cbn.
  - apply ord_eq in E1 as <-. by destruct (ord_cmp k k').
  - destruct (ord_cmp k k') eqn:E; [done| |done]. by rewrite (ord_trans _ _ _ E E1).
  - rewrite IH. destruct (ord_cmp k k1) eqn:E2; [| |done].
    + apply ord_eq in E2 as ->. rewrite (ord_antisym k' k1), E1. done.
    + apply ord_cmp_Gt in E1. by rewrite (ord_trans _ _ _ E2 E1).
Qed.

Lemma btree_get_elem k v m : btree_sorted m -> btree_get k m = Some v <-> (k, v) ∈ m.
Proof.
  induction m as [|[k1 v1] m IH]; cbn; [intros _; split; [done|set_solver]|]. intros [Hk Hs].
  specialize (IH Hs). rewrite elem_of_cons. rewrite Forall_forall in Hk.
  destruct (ord_cmp k k1) eqn:E.
  - apply ord_eq in E as ->. split; [intros [= ->]; by left|]. intros [[= ->]|Hin]; [done|].
    specialize (Hk _ Hin). cbn in Hk. unfold ord_lt in Hk. by rewrite ord_cmp_refl in Hk.
  - split; [done|]. intros [[= -> ->]|Hin]; [by rewrite ord_cmp_refl in E|].
    specialize (Hk _ Hin). cbn in Hk. unfold ord_lt in Hk. rewrite (ord_antisym k k1), E in Hk. done.
  - rewrite IH. split; [by right|]. intros [[= -> ->]|Hin]; [by rewrite ord_cmp_refl in E|done].
Qed.

(** Inserting past the end appends: what deserialising a sorted map does. *)
Lemma btree_insert_last k v m :
  Forall (fun kv => ord_lt kv.1 k) m -> btree_insert k v m = m ++ [(k, v)].
Proof.
  induction 1 as [|[k' v'] m Hk Hm IH]; cbn; [done|]. cbn in Hk.
  apply ord_cmp_Gt in Hk. by rewrite Hk, IH.
Qed.

Lemma btree_sorted_app m1 m2 :
  btree_sorted (m1 ++ m2) <->
  btree_sorted m1 /\ btree_sorted m2 /\
  Forall (fun a => Forall (fun b => ord_lt a.1 b.1) m2) m1.
Proof.
  induction m1 as [|[k v] m1 IH]; cbn.
  - split; [intros ?; repeat constructor; done|tauto].
  - rewrite IH, Forall_app, Forall_cons. cbn. tauto.
Qed.

Lemma btree_last_max k v m k' v' : btree_sorted m -> last m = Some (k, v) ->
  (k', v') ∈ m -> k' = k \/ ord_lt k' k.
Proof.
  intros Hs Hl Hin. apply last_Some in Hl as [m' ->]. apply btree_sorted_app in Hs as (_ & _ & Hs).
  apply elem_of_app in Hin as [Hin|Hin]; [right|left].
  - rewrite Forall_forall in Hs. specialize (Hs _ Hin). by inversion Hs.
  - apply list_elem_of_singleton in Hin. congruence.
Qed.

End BTreeMap.

(** A [filter_map] that keeps the keys keeps the map sorted. *)
Lemma filter_andb {A} (f g : A -> bool) (l : list A) :
  List.filter f (List.filter g l) = List.filter (fun x => g x && f x) l.
Proof.
  induction l as [|x l IH]; cbn; [done|]. destruct (g x); cbn; [|done]. by rewrite IH.
Qed.

Lemma filter_weaker {A} (f g : A -> bool) (l : list A) : (forall x, f x = true -> g x = true) ->
  List.filter f l = List.filter f (List.filter g l).
Proof.
  intros F. rewrite filter_andb. apply filter_ext. intros x. specialize (F x).
  destruct (f x), (g x); naive_solver.
Qed.

Lemma btree_sorted_filter {K V} `{OrdLaws K} (f : K * V -> bool) (m : list (K * V)) :
  btree_sorted m -> btree_sorted (List.filter f m).
Proof.
  induction m as [|[k v] m IH]; [done|]. intros [Hk Hs]. specialize (IH Hs). cbn.
  destruct (f (k, v)); [|done]. split; [|done]. rewrite Forall_forall in *. intros e He. apply Hk.
  apply list_elem_of_In, filter_In in He as [He _]. by apply list_elem_of_In.
Qed.

Lemma btree_sorted_omap {K V W} `{OrdLaws K} (g : K * V -> option (K * W)) (m : list (K * V)) :
  (forall e e', g e = Some e' -> e'.1 = e.1) -> btree_sorted m -> btree_sorted (omap g m).
Proof.
  intros Hg. induction m as [|[k v] m IH]; [done|]. intros [Hk Hs]. specialize (IH Hs). cbn.
  destruct (g (k, v)) as [[k' w]|] eqn:E; [|done]. split; [|done].
  apply Forall_forall. intros e (e0 & Hin & He)%list_elem_of_omap.
  rewrite (Hg _ _ He). pose proof (Hg _ _ E) as Ek. cbn in Ek. subst k'.
  rewrite Forall_forall in Hk. exact (Hk _ Hin).
Qed.

(** Lists that agree where both are defined. *)
Lemma same_prefix {A} (l1 l2 : list A) : (forall i x y, l1 !! i = Some x -> l2 !! i = Some y -> x = y) ->
  l1 `prefix_of` l2 \/ l2 `prefix_of` l1.
Proof.
  revert l2. induction l1 as [|x l1 IH]; intros [|y l2] H; [left; apply prefix_nil..|right; apply prefix_nil|].
  rewrite (H 0%nat x y eq_refl eq_refl).
  destruct (IH l2) as [P|P]; [intros i; apply (H (S i))|left|right]; by apply prefix_cons.
Qed.
