(* ===== verification/Bytesrepr.v ===== *)
(** * Binary serialisation: [types/src/bytesrepr.rs], [bytesrepr/bytes.rs] and
    the [ToBytes]/[FromBytes] implementations of [uint.rs].

    The traits are type classes with the source's methods; [Bytesrepr] is the
    contract every implementation owes its callers: what was serialised parses
    back and leaves the rest of the stream, [serialized_length] is exact,
    [write_bytes] agrees with [to_bytes], and a value whose length fits a
    32-bit buffer serialises.  The clients (keys, tries, proofs) use only the
    contract. *)

From S2P Require Import Prelude.
Local Open Scope nat_scope.

Inductive Error :=
| EarlyEndOfStream
| Formatting
| LeftOverBytes
| OutOfMemory
| NotRepresentable
| ExceededRecursionDepth.

#[export] Instance Error_eq_dec : EqDecision Error.
Proof. solve_decision. Defined.

Abbreviation bres := (res Error).

Definition UNIT_SERIALIZED_LENGTH : nat := 0.
Definition BOOL_SERIALIZED_LENGTH : nat := 1.
Definition I32_SERIALIZED_LENGTH : nat := 4.
Definition I64_SERIALIZED_LENGTH : nat := 8.
Definition U8_SERIALIZED_LENGTH : nat := 1.
Definition U16_SERIALIZED_LENGTH : nat := 2.
Definition U32_SERIALIZED_LENGTH : nat := 4.
Definition U64_SERIALIZED_LENGTH : nat := 8.
Definition U128_SERIALIZED_LENGTH : nat := 16.
Definition U256_SERIALIZED_LENGTH : nat := U128_SERIALIZED_LENGTH * 2.
Definition U512_SERIALIZED_LENGTH : nat := U256_SERIALIZED_LENGTH * 2.
Definition OPTION_NONE_TAG : Byte.byte := Byte.x00.
Definition OPTION_SOME_TAG : Byte.byte := Byte.x01.
Definition RESULT_ERR_TAG : Byte.byte := Byte.x00.
Definition RESULT_OK_TAG : Byte.byte := Byte.x01.

Definition u32_max : Z := uint_max 32.
Definition isize_max : Z := uint_max 63.

(** ** The traits *)

Class ToBytes (A : Type) := {
  to_bytes : A -> bres bytes;
  into_bytes : A -> bres bytes;
  serialized_length : A -> nat;
  write_bytes : A -> bytes -> bres bytes;
}.

Class FromBytes (A : Type) := {
  from_bytes : bytes -> bres (A * bytes);
  from_vec : bytes -> bres (A * bytes);
}.

(** The values of the model's type that are values of the Rust type (array
    lengths, integer ranges). *)
Class Valid (A : Type) := valid : A -> Prop.

(** The provided method [ToBytes::write_bytes]. *)
Definition default_write_bytes {A} (tb : A -> bres bytes) (a : A) (writer : bytes) : bres bytes :=
  b ← tb a; mret (writer ++ b).

(** ** Free functions *)

Definition allocate_buffer (serialized_len : nat) : bres unit :=
  fail_if (u32_max <? Z.of_nat serialized_len)%Z OutOfMemory.

(** The capacity computation of [try_vec_with_capacity] for one-byte elements;
    the allocator is taken to succeed. *)
Definition try_vec_with_capacity (capacity : nat) : bres unit :=
  fail_if (isize_max <? Z.of_nat capacity)%Z OutOfMemory.

(** [usize -> u32] with [NotRepresentable] on overflow. *)
Definition length_32 (len : nat) : bres Z :=
  if (Z.of_nat len <=? u32_max)%Z then Ok (Z.of_nat len) else Err NotRepresentable.

Definition deserialize {A} `{FromBytes A} (bs : bytes) : bres A :=
  '(t, remainder) ← from_vec bs;
  match remainder with [] => Ok t | _ :: _ => Err LeftOverBytes end.

Definition deserialize_from_slice {A} `{FromBytes A} (bs : bytes) : bres A :=
  '(t, remainder) ← from_bytes bs;
  match remainder with [] => Ok t | _ :: _ => Err LeftOverBytes end.

Definition serialize {A} `{ToBytes A} (t : A) : bres bytes := into_bytes t.

Definition safe_split_at (bs : bytes) (n : nat) : bres (bytes * bytes) :=
  if length bs <? n then Err EarlyEndOfStream else Ok (take n bs, drop n bs).

(** ** Fixed-width integers, [bool], [()] *)

Definition unit_to_bytes (_ : unit) : bres bytes := Ok [].
Definition unit_from_bytes (bs : bytes) : bres (unit * bytes) := Ok (tt, bs).

Definition u8_to_bytes (b : Byte.byte) : bres bytes := Ok [b].
Definition u8_from_bytes (bs : bytes) : bres (Byte.byte * bytes) :=
  match bs with
  | [] => Err EarlyEndOfStream
  | b :: rem => Ok (b, rem)
  end.

Definition bool_to_bytes (b : bool) : bres bytes :=
  u8_to_bytes (if b then Byte.x01 else Byte.x00).
Definition bool_from_bytes (bs : bytes) : bres (bool * bytes) :=
  match bs with
  | [] => Err EarlyEndOfStream
  | b :: rem =>
      if decide (b = Byte.x01) then Ok (true, rem)
      else if decide (b = Byte.x00) then Ok (false, rem)
      else Err Formatting
  end.

(** [to_le_bytes] / [from_le_bytes] of the unsigned and signed integers. *)
Definition int_from_le_bytes (bs : bytes) : Z :=
  let n := (8 * Z.of_nat (length bs))%Z in
  ((le_combine bs + 2 ^ (n - 1)) mod 2 ^ n - 2 ^ (n - 1))%Z.

Definition u16_to_bytes (z : Z) : bres bytes := Ok (le_split U16_SERIALIZED_LENGTH z).
Definition u16_from_bytes (bs : bytes) : bres (Z * bytes) :=
  '(b, rem) ← safe_split_at bs U16_SERIALIZED_LENGTH; mret (le_combine b, rem).

Definition u32_to_bytes (z : Z) : bres bytes := Ok (le_split U32_SERIALIZED_LENGTH z).
Definition u32_from_bytes (bs : bytes) : bres (Z * bytes) :=
  '(b, rem) ← safe_split_at bs U32_SERIALIZED_LENGTH; mret (le_combine b, rem).

Definition u64_to_bytes (z : Z) : bres bytes := Ok (le_split U64_SERIALIZED_LENGTH z).
Definition u64_from_bytes (bs : bytes) : bres (Z * bytes) :=
  '(b, rem) ← safe_split_at bs U64_SERIALIZED_LENGTH; mret (le_combine b, rem).

Definition i32_to_bytes (z : Z) : bres bytes := Ok (le_split I32_SERIALIZED_LENGTH z).
Definition i32_from_bytes (bs : bytes) : bres (Z * bytes) :=
  '(b, rem) ← safe_split_at bs I32_SERIALIZED_LENGTH; mret (int_from_le_bytes b, rem).

Definition i64_to_bytes (z : Z) : bres bytes := Ok (le_split I64_SERIALIZED_LENGTH z).
Definition i64_from_bytes (bs : bytes) : bres (Z * bytes) :=
  '(b, rem) ← safe_split_at bs I64_SERIALIZED_LENGTH; mret (int_from_le_bytes b, rem).

(** ** Byte slices, [Bytes], [String], arrays *)

Definition u8_slice_serialized_length (bs : bytes) : nat :=
  U32_SERIALIZED_LENGTH + length bs.

Definition u8_slice_to_bytes (bs : bytes) : bres bytes :=
  _ ← try_vec_with_capacity (u8_slice_serialized_length bs);
  length_prefix ← length_32 (length bs);
  mret (le_split U32_SERIALIZED_LENGTH length_prefix ++ bs).

Definition write_u8_slice (bs writer : bytes) : bres bytes :=
  len ← length_32 (length bs);
  mret ((writer ++ le_split U32_SERIALIZED_LENGTH len) ++ bs).

(** [struct Bytes(Vec<u8>)]. *)
Record Bytes := MkBytes { inner_bytes : bytes }.

#[export] Instance Bytes_eq_dec : EqDecision Bytes.
Proof. solve_decision. Defined.

Definition Bytes_to_bytes (b : Bytes) : bres bytes := u8_slice_to_bytes (inner_bytes b).
Definition Bytes_from_bytes (bs : bytes) : bres (Bytes * bytes) :=
  '(size, remainder) ← u32_from_bytes bs;
  '(result, remainder) ← safe_split_at remainder (Z.to_nat size);
  mret (MkBytes result, remainder).
Definition Bytes_from_vec (stream : bytes) : bres (Bytes * bytes) :=
  '(size, stream) ← u32_from_bytes stream;
  if length stream <? Z.to_nat size then Err EarlyEndOfStream
  else Ok (MkBytes (take (Z.to_nat size) stream), drop (Z.to_nat size) stream).

(** Well-formed UTF-8, what [String::from_utf8] accepts. *)
Definition in_range (lo hi : Z) (b : Byte.byte) : bool :=
  ((lo <=? byte.unsigned b) && (byte.unsigned b <=? hi))%Z.
Definition cont (b : Byte.byte) : bool := in_range 128 191 b.

Fixpoint utf8_valid (bs : bytes) : bool :=
  match bs with
  | [] => true
  | a :: r1 =>
      if in_range 0 127 a then utf8_valid r1
      else match r1 with
      | [] => false
      | b :: r2 =>
          if in_range 194 223 a then cont b && utf8_valid r2
          else match r2 with
          | [] => false
          | c :: r3 =>
              if in_range 224 239 a then
                (if in_range 224 224 a then in_range 160 191 b
                 else if in_range 237 237 a then in_range 128 159 b else cont b)
                && cont c && utf8_valid r3
              else match r3 with
              | [] => false
              | d :: r4 =>
                  if in_range 240 244 a then
                    (if in_range 240 240 a then in_range 144 191 b
                     else if in_range 244 244 a then in_range 128 143 b else cont b)
                    && cont c && cont d && utf8_valid r4
                  else false
              end
          end
      end
  end.

(** Rust's [String]: a byte vector that is well-formed UTF-8. *)
Record rstring := RString { as_bytes : bytes }.

#[export] Instance rstring_eq_dec : EqDecision rstring.
Proof. solve_decision. Defined.

Definition String_to_bytes (s : rstring) : bres bytes := u8_slice_to_bytes (as_bytes s).
Definition String_from_bytes (bs : bytes) : bres (rstring * bytes) :=
  '(size, remainder) ← u32_from_bytes bs;
  '(str_bytes, remainder) ← safe_split_at remainder (Z.to_nat size);
  if utf8_valid str_bytes then Ok (RString str_bytes, remainder) else Err Formatting.

(** [[u8; COUNT]]. *)
Definition array_to_bytes (a : bytes) : bres bytes := Ok a.
Definition array_from_bytes (COUNT : nat) (bs : bytes) : bres (bytes * bytes) :=
  safe_split_at bs COUNT.

(** ** Containers *)

Section Containers.
Context {A B : Type} `{ToBytes A} `{FromBytes A} `{ToBytes B} `{FromBytes B}.

(** The loops [for item in self.iter() { result.append(&mut item.to_bytes()?) }]
    and [for item in self.iter() { item.write_bytes(writer)? }]. *)
Fixpoint append_all (items : list A) (result : bytes) : bres bytes :=
  match items with
  | [] => Ok result
  | item :: items' => b ← to_bytes item; append_all items' (result ++ b)
  end.
Fixpoint append_all_into (items : list A) (result : bytes) : bres bytes :=
  match items with
  | [] => Ok result
  | item :: items' => b ← into_bytes item; append_all_into items' (result ++ b)
  end.
Fixpoint write_all (items : list A) (writer : bytes) : bres bytes :=
  match items with
  | [] => Ok writer
  | item :: items' => w ← write_bytes item writer; write_all items' w
  end.

Definition iterator_serialized_length (ts : list A) : nat :=
  U32_SERIALIZED_LENGTH + sum_list (serialized_length <$> ts).

Definition Vec_to_bytes (v : list A) : bres bytes :=
  _ ← try_vec_with_capacity (iterator_serialized_length v);
  len ← length_32 (length v);
  b ← u32_to_bytes len;
  append_all v b.

Definition Vec_into_bytes (v : list A) : bres bytes :=
  _ ← allocate_buffer (iterator_serialized_length v);
  len ← length_32 (length v);
  b ← u32_to_bytes len;
  append_all_into v b.

Definition Vec_write_bytes (v : list A) (writer : bytes) : bres bytes :=
  len ← length_32 (length v);
  write_all v (writer ++ le_split U32_SERIALIZED_LENGTH len).

Fixpoint read_n (count : nat) (stream : bytes) : bres (list A * bytes) :=
  match count with
  | 0 => Ok ([], stream)
  | S n =>
      '(value, remainder) ← from_bytes stream;
      '(values, remainder) ← read_n n remainder;
      mret (value :: values, remainder)
  end.

Definition Vec_from_bytes (bs : bytes) : bres (list A * bytes) :=
  '(count, stream) ← u32_from_bytes bs;
  read_n (Z.to_nat count) stream.

Definition Option_to_bytes (o : option A) : bres bytes :=
  match o with
  | None => Ok [OPTION_NONE_TAG]
  | Some v =>
      _ ← allocate_buffer (U8_SERIALIZED_LENGTH + serialized_length v);
      value ← to_bytes v;
      mret (OPTION_SOME_TAG :: value)
  end.
Definition Option_serialized_length (o : option A) : nat :=
  U8_SERIALIZED_LENGTH + match o with Some v => serialized_length v | None => 0 end.
Definition Option_write_bytes (o : option A) (writer : bytes) : bres bytes :=
  match o with
  | None => Ok (writer ++ [OPTION_NONE_TAG])
  | Some v => write_bytes v (writer ++ [OPTION_SOME_TAG])
  end.
Definition Option_from_bytes (bs : bytes) : bres (option A * bytes) :=
  '(tag, rem) ← u8_from_bytes bs;
  if decide (tag = OPTION_NONE_TAG) then Ok (None, rem)
  else if decide (tag = OPTION_SOME_TAG) then
    '(t, rem) ← from_bytes rem; mret (Some t, rem)
  else Err Formatting.

(** [Result<A, B>] as the sum [A + B]. *)
Definition Result_serialized_length (r : A + B) : nat :=
  U8_SERIALIZED_LENGTH +
  match r with inl ok => serialized_length ok | inr error => serialized_length error end.
Definition Result_to_bytes (r : A + B) : bres bytes :=
  _ ← allocate_buffer (Result_serialized_length r);
  '(variant, value) ← match r with
    | inr error => v ← to_bytes error; mret (RESULT_ERR_TAG, v)
    | inl result => v ← to_bytes result; mret (RESULT_OK_TAG, v)
    end;
  mret (variant :: value).
Definition Result_write_bytes (r : A + B) (writer : bytes) : bres bytes :=
  match r with
  | inr error => write_bytes error (writer ++ [RESULT_ERR_TAG])
  | inl result => write_bytes result (writer ++ [RESULT_OK_TAG])
  end.
Definition Result_from_bytes (bs : bytes) : bres ((A + B) * bytes) :=
  '(variant, rem) ← u8_from_bytes bs;
  if decide (variant = RESULT_ERR_TAG) then
    '(value, rem) ← from_bytes rem; mret (inr value, rem)
  else if decide (variant = RESULT_OK_TAG) then
    '(value, rem) ← from_bytes rem; mret (inl value, rem)
  else Err Formatting.

Definition Pair_serialized_length (p : A * B) : nat :=
  serialized_length p.1 + serialized_length p.2.
Definition Pair_to_bytes (p : A * B) : bres bytes :=
  _ ← allocate_buffer (Pair_serialized_length p);
  b1 ← to_bytes p.1;
  b2 ← to_bytes p.2;
  mret (b1 ++ b2).
Definition Pair_from_bytes (bs : bytes) : bres ((A * B) * bytes) :=
  '(t1, remainder) ← from_bytes bs;
  '(t2, remainder) ← from_bytes remainder;
  mret ((t1, t2), remainder).

End Containers.

(** [BTreeMap<K, V>]: its entries in key order. *)
Record btree_map (K V : Type) := BTreeMap { entries : list (K * V) }.
Arguments BTreeMap {K V} _.
Arguments entries {K V} _.

(** [BTreeSet<V>] as a map to [()]. *)
Record btree_set (V : Type) := BTreeSet { elems : list (V * unit) }.
Arguments BTreeSet {V} _.
Arguments elems {V} _.

Section BTree.
Context {K V : Type} `{ToBytes K} `{FromBytes K} `{ToBytes V} `{FromBytes V} `{Ord K}.

Definition BTreeMap_serialized_length (m : btree_map K V) : nat :=
  U32_SERIALIZED_LENGTH +
  sum_list ((fun kv => serialized_length kv.1 + serialized_length kv.2) <$> entries m).

Fixpoint append_entries (kvs : list (K * V)) (result : bytes) : bres bytes :=
  match kvs with
  | [] => Ok result
  | (key, value) :: kvs' =>
      k ← to_bytes key;
      v ← to_bytes value;
      append_entries kvs' ((result ++ k) ++ v)
  end.

Definition BTreeMap_to_bytes (m : btree_map K V) : bres bytes :=
  _ ← allocate_buffer (BTreeMap_serialized_length m);
  num_keys ← length_32 (length (entries m));
  b ← u32_to_bytes num_keys;
  append_entries (entries m) b.

Fixpoint write_entries (kvs : list (K * V)) (writer : bytes) : bres bytes :=
  match kvs with
  | [] => Ok writer
  | (key, value) :: kvs' =>
      w ← write_bytes key writer;
      w ← write_bytes value w;
      write_entries kvs' w
  end.

Definition BTreeMap_write_bytes (m : btree_map K V) (writer : bytes) : bres bytes :=
  len ← length_32 (length (entries m));
  write_entries (entries m) (writer ++ le_split U32_SERIALIZED_LENGTH len).

Fixpoint read_entries (num_keys : nat) (stream : bytes) (result : list (K * V))
  : bres (list (K * V) * bytes) :=
  match num_keys with
  | 0 => Ok (result, stream)
  | S n =>
      '(k, rem) ← from_bytes stream;
      '(v, rem) ← from_bytes rem;
      read_entries n rem (btree_insert k v result)
  end.

Definition BTreeMap_from_bytes (bs : bytes) : bres (btree_map K V * bytes) :=
  '(num_keys, stream) ← u32_from_bytes bs;
  '(result, stream) ← read_entries (Z.to_nat num_keys) stream [];
  mret (BTreeMap result, stream).

Definition BTreeSet_serialized_length (s : btree_set K) : nat :=
  U32_SERIALIZED_LENGTH + sum_list ((fun v => serialized_length v.1) <$> elems s).

Definition BTreeSet_to_bytes (s : btree_set K) : bres bytes :=
  _ ← allocate_buffer (BTreeSet_serialized_length s);
  num_keys ← length_32 (length (elems s));
  b ← u32_to_bytes num_keys;
  append_all (fst <$> elems s) b.

Definition BTreeSet_write_bytes (s : btree_set K) (writer : bytes) : bres bytes :=
  len ← length_32 (length (elems s));
  write_all (fst <$> elems s) (writer ++ le_split U32_SERIALIZED_LENGTH len).

Fixpoint read_elems (num_keys : nat) (stream : bytes) (result : list (K * unit))
  : bres (list (K * unit) * bytes) :=
  match num_keys with
  | 0 => Ok (result, stream)
  | S n =>
      '(v, rem) ← from_bytes stream;
      read_elems n rem (btree_insert v tt result)
  end.

Definition BTreeSet_from_bytes (bs : bytes) : bres (btree_set K * bytes) :=
  '(num_keys, stream) ← u32_from_bytes bs;
  '(result, stream) ← read_elems (Z.to_nat num_keys) stream [];
  mret (BTreeSet result, stream).

End BTree.

(** ** [U128], [U256], [U512] ([uint.rs])

    A big integer of [total] bytes is an integer below [2 ^ (8 * total)]; its
    encoding is the count of significant bytes and those bytes. *)

Fixpoint skip_zeros (rev_bytes : bytes) : bytes :=
  match rev_bytes with
  | [] => []
  | b :: r => if decide (b = Byte.x00) then skip_zeros r else rev_bytes
  end.

Definition biguint_to_bytes (total : nat) (z : Z) : bres bytes :=
  let buf := le_split total z in
  let non_zero_bytes := skip_zeros (reverse buf) in
  let num_bytes := n2b (length non_zero_bytes) in
  Ok (reverse (non_zero_bytes ++ [num_bytes])).

Definition biguint_serialized_length (total : nat) (z : Z) : nat :=
  let buf := le_split total z in
  U8_SERIALIZED_LENGTH + length (skip_zeros (reverse buf)).

Definition biguint_from_bytes (total : nat) (bs : bytes) : bres (Z * bytes) :=
  '(num_bytes, rem) ← u8_from_bytes bs;
  if total <? b2n num_bytes then Err Formatting
  else
    '(value, rem) ← safe_split_at rem (b2n num_bytes);
    mret (le_combine value, rem).

(** ** The contract of an implementation *)

Class Bytesrepr (A : Type) `{ToBytes A} `{FromBytes A} `{Valid A} : Prop := {
  (* what was serialised parses back and leaves the rest of the stream *)
  bytesrepr_roundtrip (a : A) bs rest :
    valid a -> to_bytes a = Ok bs -> from_bytes (bs ++ rest) = Ok (a, rest);
  bytesrepr_length (a : A) bs :
    valid a -> to_bytes a = Ok bs -> length bs = serialized_length a;
  bytesrepr_write (a : A) bs writer :
    valid a -> to_bytes a = Ok bs -> write_bytes a writer = Ok (writer ++ bs);
  (* a value that fits a 32-bit length always serialises *)
  bytesrepr_total (a : A) :
    valid a -> (Z.of_nat (serialized_length a) <= u32_max)%Z ->
    exists bs, to_bytes a = Ok bs /\ into_bytes a = Ok bs;
  (* parsing consumes a prefix of the input and yields values of the type *)
  bytesrepr_sound bs (a : A) rest :
    from_bytes bs = Ok (a, rest) -> valid a /\ exists used, bs = used ++ rest;
  (* what is parsed does not depend on the bytes after it *)
  bytesrepr_extend bs (a : A) rest more :
    from_bytes bs = Ok (a, rest) -> from_bytes (bs ++ more) = Ok (a, rest ++ more);
  bytesrepr_vec bs : from_vec (A:=A) bs = from_bytes bs;
}.

(** Distinct values have encodings that are not prefixes of each other. *)
Lemma to_bytes_prefix_free {A} `{Bytesrepr A} (a b : A) ba bb :
  valid a -> valid b -> to_bytes a = Ok ba -> to_bytes b = Ok bb ->
  ba `prefix_of` bb -> a = b.
Proof.
  intros Va Vb Ha Hb [r ->].
  pose proof (bytesrepr_roundtrip a ba r Va Ha) as R1.
  pose proof (bytesrepr_roundtrip b (ba ++ r) [] Vb Hb) as R2.
  rewrite app_nil_r in R2. congruence.
Qed.

Lemma to_bytes_inj {A} `{Bytesrepr A} (a b : A) bs :
  valid a -> valid b -> to_bytes a = Ok bs -> to_bytes b = Ok bs -> a = b.
Proof. intros. by eapply to_bytes_prefix_free. Qed.

Lemma deserialize_serialize {A} `{Bytesrepr A} (a : A) bs :
  valid a -> to_bytes a = Ok bs ->
  deserialize bs = Ok a /\ deserialize_from_slice bs = Ok a.
Proof.
  intros Va Ha. pose proof (bytesrepr_roundtrip a bs [] Va Ha) as R.
  rewrite app_nil_r in R. unfold deserialize, deserialize_from_slice.
  by rewrite bytesrepr_vec, R.
Qed.

(** ** Lemmas on the primitives *)

Lemma safe_split_at_app (bs rest : bytes) n :
  length bs = n -> safe_split_at (bs ++ rest) n = Ok (bs, rest).
Proof.
  intros <-. unfold safe_split_at. rewrite length_app.
  destruct (Nat.ltb_spec (length bs + length rest) (length bs)); [lia|].
  by rewrite take_app_length, drop_app_length.
Qed.

Lemma safe_split_at_Ok bs n a rest :
  safe_split_at bs n = Ok (a, rest) -> bs = a ++ rest /\ length a = n.
Proof.
  unfold safe_split_at. destruct (Nat.ltb_spec (length bs) n); [done|].
  intros [= <- <-]. rewrite take_drop, length_take. split; [done|lia].
Qed.

Lemma safe_split_at_safe bs n : safe (safe_split_at bs n).
Proof. unfold safe_split_at. by destruct (_ <? _)%nat. Qed.

Lemma u8_from_bytes_safe bs : safe (u8_from_bytes bs).
Proof. by destruct bs. Qed.

#[export] Hint Resolve safe_split_at_safe u8_from_bytes_safe : core.

Lemma safe_split_at_extend bs n a rest more :
  safe_split_at bs n = Ok (a, rest) -> safe_split_at (bs ++ more) n = Ok (a, rest ++ more).
Proof. intros [-> L]%safe_split_at_Ok. rewrite <- app_assoc. by apply safe_split_at_app. Qed.

Lemma u8_from_bytes_extend bs a rest more :
  u8_from_bytes bs = Ok (a, rest) -> u8_from_bytes (bs ++ more) = Ok (a, rest ++ more).
Proof. destruct bs; cbn; [done|]. by intros [= -> ->]. Qed.

Lemma le_combine_split_small n z :
  is_uint (Z.of_nat n * 8) z -> le_combine (le_split n z) = z.
Proof. intros ?. rewrite le_combine_split. by apply Z.mod_small. Qed.

Lemma le_combine_range bs : is_uint (Z.of_nat (length bs) * 8) (le_combine bs).
Proof. unfold is_uint. rewrite Z.mul_comm. apply le_combine_bound. Qed.

(** Little-endian integers of [n] bytes: the common core of the [u16], [u32]
    and [u64] implementations. *)
Lemma le_fixed_roundtrip n z rest :
  is_uint (Z.of_nat n * 8) z ->
  ('(b, rem) ← safe_split_at (le_split n z ++ rest) n; mret (le_combine b, rem)) =
    (Ok (z, rest) : bres _).
Proof.
  intros Hz. rewrite safe_split_at_app by apply length_le_split.
  cbn. by rewrite le_combine_split_small.
Qed.

Lemma le_fixed_sound n bs z rest :
  ('(b, rem) ← safe_split_at bs n; mret (le_combine b, rem)) = (Ok (z, rest) : bres _) ->
  is_uint (Z.of_nat n * 8) z /\ exists used, bs = used ++ rest.
Proof.
  intros H. inv_ok.
  match goal with H : safe_split_at _ _ = _ |- _ => apply safe_split_at_Ok in H as [-> <-] end.
  split; [apply le_combine_range|by eexists].
Qed.

Lemma u32_roundtrip z rest :
  is_uint 32 z -> u32_from_bytes (le_split U32_SERIALIZED_LENGTH z ++ rest) = Ok (z, rest).
Proof. apply (le_fixed_roundtrip 4). Qed.

Lemma u64_roundtrip z rest :
  is_uint 64 z -> u64_from_bytes (le_split U64_SERIALIZED_LENGTH z ++ rest) = Ok (z, rest).
Proof. apply (le_fixed_roundtrip 8). Qed.

Lemma u32_from_bytes_Ok bs z rest :
  u32_from_bytes bs = Ok (z, rest) -> is_uint 32 z /\ exists used, bs = used ++ rest.
Proof. apply (le_fixed_sound 4). Qed.

Lemma u64_from_bytes_Ok bs z rest :
  u64_from_bytes bs = Ok (z, rest) -> is_uint 64 z /\ exists used, bs = used ++ rest.
Proof. apply (le_fixed_sound 8). Qed.

Lemma u32_from_bytes_extend bs z rest more :
  u32_from_bytes bs = Ok (z, rest) -> u32_from_bytes (bs ++ more) = Ok (z, rest ++ more).
Proof.
  unfold u32_from_bytes. intros H. inv_ok. by erewrite safe_split_at_extend.
Qed.

Lemma u64_from_bytes_extend bs z rest more :
  u64_from_bytes bs = Ok (z, rest) -> u64_from_bytes (bs ++ more) = Ok (z, rest ++ more).
Proof.
  unfold u64_from_bytes. intros H. inv_ok. by erewrite safe_split_at_extend.
Qed.

(** Replay a successful parse on an extended stream. *)
Ltac extend_step :=
  match goal with
  | H : safe_split_at ?bs ?n = Ok _ |- context [safe_split_at (?bs ++ ?m) ?n] =>
      rewrite (safe_split_at_extend _ _ _ _ m H)
  | H : u8_from_bytes ?bs = Ok _ |- context [u8_from_bytes (?bs ++ ?m)] =>
      rewrite (u8_from_bytes_extend _ _ _ m H)
  | H : u32_from_bytes ?bs = Ok _ |- context [u32_from_bytes (?bs ++ ?m)] =>
      rewrite (u32_from_bytes_extend _ _ _ m H)
  | H : u64_from_bytes ?bs = Ok _ |- context [u64_from_bytes (?bs ++ ?m)] =>
      rewrite (u64_from_bytes_extend _ _ _ m H)
  | H : from_bytes ?bs = Ok _ |- context [from_bytes (?bs ++ ?m) ≫= _] =>
      rewrite (bind_eq _ _ _ (bytesrepr_extend _ _ _ m H)); cbn beta iota
  | H : from_bytes ?bs = Ok _ |- context [from_bytes (?bs ++ ?m)] =>
      rewrite (bytesrepr_extend _ _ _ m H)
  | H : ?c = _ |- context [if ?c then _ else _] => rewrite H
  end; cbn [mbind res_bind mret res_ret].
Ltac extend_parse := intros; inv_ok; repeat extend_step; try done.

(** Two's complement: [from_le_bytes] inverts [to_le_bytes] on the range. *)
Lemma int_from_le_split n z :
  (0 < n)%nat ->
  (- 2 ^ (8 * Z.of_nat n - 1) <= z < 2 ^ (8 * Z.of_nat n - 1))%Z ->
  int_from_le_bytes (le_split n z) = z.
Proof.
  intros Hn Hz. unfold int_from_le_bytes. rewrite length_le_split, le_combine_split.
  set (h := (2 ^ (8 * Z.of_nat n - 1))%Z) in *.
  assert (2 ^ (Z.of_nat n * 8) = 2 * h)%Z as ->.
  { unfold h. rewrite <- Z.pow_succ_r by lia. f_equal. lia. }
  assert (2 ^ (8 * Z.of_nat n) = 2 * h)%Z as ->.
  { unfold h. rewrite <- Z.pow_succ_r by lia. f_equal. lia. }
  assert (0 < h)%Z by (unfold h; lia).
  rewrite Z.add_mod_idemp_l by lia. rewrite Z.mod_small; lia.
Qed.

Lemma u8_from_bytes_Ok bs b rest :
  u8_from_bytes bs = Ok (b, rest) -> bs = b :: rest.
Proof. destruct bs; cbn; [done|]. by intros [= -> ->]. Qed.

Lemma length_32_Ok len z :
  length_32 len = Ok z <-> z = Z.of_nat len /\ (Z.of_nat len <= u32_max)%Z.
Proof.
  unfold length_32. destruct (Z.leb_spec (Z.of_nat len) u32_max); split; intros H'; simplify_eq; try lia; try done.
  by destruct H' as [-> _].
Qed.

Lemma length_32_uint len z : length_32 len = Ok z -> is_uint 32 z /\ Z.to_nat z = len.
Proof. rewrite length_32_Ok. unfold is_uint, u32_max, uint_max. lia. Qed.

Lemma allocate_buffer_Ok n u :
  allocate_buffer n = Ok u <-> (Z.of_nat n <= u32_max)%Z.
Proof. unfold allocate_buffer. rewrite fail_if_Ok. lia. Qed.

Lemma allocate_buffer_fits n : (Z.of_nat n <= u32_max)%Z -> allocate_buffer n = Ok tt.
Proof. intros ?. by apply allocate_buffer_Ok. Qed.

Lemma try_vec_fits n : (Z.of_nat n <= u32_max)%Z -> try_vec_with_capacity n = Ok tt.
Proof.
  intros H. unfold try_vec_with_capacity. apply fail_if_Ok.
  unfold u32_max, isize_max, uint_max in *. lia.
Qed.

Lemma length_32_fits n : (Z.of_nat n <= u32_max)%Z -> length_32 n = Ok (Z.of_nat n).
Proof. intros ?. by apply length_32_Ok. Qed.

(** Dropping the high zero bytes of a big integer loses nothing. *)
Lemma skip_zeros_app r :
  exists k, r = List.repeat Byte.x00 k ++ skip_zeros r.
Proof.
  induction r as [|b r [k IH]]; [by exists 0|]. cbn.
  destruct (decide (b = Byte.x00)) as [->|]; [|by exists 0].
  exists (S k). cbn. by rewrite <- IH.
Qed.

Lemma skip_zeros_length r : length (skip_zeros r) <= length r.
Proof.
  destruct (skip_zeros_app r) as [k E]. apply (f_equal length) in E.
  rewrite length_app in E. lia.
Qed.

Lemma reverse_repeat (b : Byte.byte) k : reverse (List.repeat b k) = List.repeat b k.
Proof.
  induction k as [|k IH]; [done|].
  change (List.repeat b (S k)) with (b :: List.repeat b k). rewrite reverse_cons, IH.
  clear IH. induction k as [|k IH]; [done|]. cbn. by rewrite IH.
Qed.

Lemma le_combine_skip_zeros buf :
  le_combine (reverse (skip_zeros (reverse buf))) = le_combine buf.
Proof.
  destruct (skip_zeros_app (reverse buf)) as [k E].
  apply (f_equal reverse) in E.
  rewrite reverse_involutive, reverse_app, reverse_repeat in E.
  rewrite E at 2. by rewrite le_combine_app_0.
Qed.

Lemma biguint_bytes_split total z :
  biguint_to_bytes total z =
  Ok (n2b (length (skip_zeros (reverse (le_split total z)))) ::
      reverse (skip_zeros (reverse (le_split total z)))).
Proof. unfold biguint_to_bytes. by rewrite reverse_snoc. Qed.

Lemma biguint_roundtrip total z bs rest :
  total < 256 -> is_uint (Z.of_nat total * 8) z ->
  biguint_to_bytes total z = Ok bs ->
  biguint_from_bytes total (bs ++ rest) = Ok (z, rest).
Proof.
  intros Ht Hz. rewrite biguint_bytes_split. intros [= <-].
  set (nz := skip_zeros (reverse (le_split total z))).
  assert (length nz <= total) as Hl.
  { unfold nz. etrans; [apply skip_zeros_length|]. by rewrite length_reverse, length_le_split. }
  unfold biguint_from_bytes. cbn [u8_from_bytes app mbind res_bind].
  rewrite b2n_n2b by lia. destruct (Nat.ltb_spec total (length nz)); [lia|].
  rewrite safe_split_at_app by apply length_reverse. cbn.
  unfold nz. by rewrite le_combine_skip_zeros, le_combine_split_small.
Qed.

Lemma biguint_sound total bs z rest :
  biguint_from_bytes total bs = Ok (z, rest) ->
  is_uint (Z.of_nat total * 8) z /\ exists used, bs = used ++ rest.
Proof.
  unfold biguint_from_bytes. intros H. inv_ok.
  match goal with H : u8_from_bytes _ = _ |- _ => apply u8_from_bytes_Ok in H as -> end.
  match goal with H : safe_split_at _ _ = _ |- _ => apply safe_split_at_Ok in H as [-> L] end.
  split; [|eexists (_ :: _); reflexivity].
  match goal with H : (_ <? _) = false |- _ => apply Nat.ltb_ge in H end.
  match goal with |- is_uint _ (le_combine ?v) => pose proof (le_combine_range v) as R end.
  unfold is_uint in *. split; [lia|]. eapply Z.lt_le_trans; [apply R|].
  apply Z.pow_le_mono_r; lia.
Qed.

(** ** Implementations for the primitive types *)

Record u32 := U32 { u32_val : Z }.
Record u64 := U64 { u64_val : Z }.
Record i32 := I32 { i32_val : Z }.
Record U512 := MkU512 { U512_val : Z }.

#[export] Instance u32_eq_dec : EqDecision u32.
Proof. solve_decision. Defined.
#[export] Instance u64_eq_dec : EqDecision u64.
Proof. solve_decision. Defined.
#[export] Instance U512_eq_dec : EqDecision U512.
Proof. solve_decision. Defined.

(** Wrap a parser's value in the constructor of its type. *)
Definition parse_map {A B} (f : A -> B) (m : bres (A * bytes)) : bres (B * bytes) :=
  '(a, rem) ← m; mret (f a, rem).

Lemma parse_map_Ok {A B} (f : A -> B) m b rest :
  parse_map f m = Ok (b, rest) <-> exists a, m = Ok (a, rest) /\ b = f a.
Proof.
  unfold parse_map. split; [intros H; inv_ok; eauto|by intros (? & -> & ->)].
Qed.

#[export] Instance unit_ToBytes : ToBytes unit := {|
  to_bytes := unit_to_bytes; into_bytes := unit_to_bytes;
  serialized_length _ := UNIT_SERIALIZED_LENGTH;
  write_bytes := default_write_bytes unit_to_bytes |}.
#[export] Instance unit_FromBytes : FromBytes unit := {|
  from_bytes := unit_from_bytes; from_vec := unit_from_bytes |}.

#[export] Instance bool_ToBytes : ToBytes bool := {|
  to_bytes := bool_to_bytes; into_bytes := bool_to_bytes;
  serialized_length _ := BOOL_SERIALIZED_LENGTH;
  write_bytes b writer := Ok (writer ++ [if b then Byte.x01 else Byte.x00]) |}.
#[export] Instance bool_FromBytes : FromBytes bool := {|
  from_bytes := bool_from_bytes; from_vec := bool_from_bytes |}.

#[export] Instance u8_ToBytes : ToBytes Byte.byte := {|
  to_bytes := u8_to_bytes; into_bytes := u8_to_bytes;
  serialized_length _ := U8_SERIALIZED_LENGTH;
  write_bytes b writer := Ok (writer ++ [b]) |}.
#[export] Instance u8_FromBytes : FromBytes Byte.byte := {|
  from_bytes := u8_from_bytes; from_vec := u8_from_bytes |}.

#[export] Instance u32_ToBytes : ToBytes u32 := {|
  to_bytes z := u32_to_bytes (u32_val z); into_bytes z := u32_to_bytes (u32_val z);
  serialized_length _ := U32_SERIALIZED_LENGTH;
  write_bytes z writer := Ok (writer ++ le_split U32_SERIALIZED_LENGTH (u32_val z)) |}.
#[export] Instance u32_FromBytes : FromBytes u32 := {|
  from_bytes bs := parse_map U32 (u32_from_bytes bs);
  from_vec bs := parse_map U32 (u32_from_bytes bs) |}.

#[export] Instance u64_ToBytes : ToBytes u64 := {|
  to_bytes z := u64_to_bytes (u64_val z); into_bytes z := u64_to_bytes (u64_val z);
  serialized_length _ := U64_SERIALIZED_LENGTH;
  write_bytes z writer := Ok (writer ++ le_split U64_SERIALIZED_LENGTH (u64_val z)) |}.
#[export] Instance u64_FromBytes : FromBytes u64 := {|
  from_bytes bs := parse_map U64 (u64_from_bytes bs);
  from_vec bs := parse_map U64 (u64_from_bytes bs) |}.

#[export] Instance i32_ToBytes : ToBytes i32 := {|
  to_bytes z := i32_to_bytes (i32_val z); into_bytes z := i32_to_bytes (i32_val z);
  serialized_length _ := I32_SERIALIZED_LENGTH;
  write_bytes z writer := Ok (writer ++ le_split I32_SERIALIZED_LENGTH (i32_val z)) |}.
#[export] Instance i32_FromBytes : FromBytes i32 := {|
  from_bytes bs := parse_map I32 (i32_from_bytes bs);
  from_vec bs := parse_map I32 (i32_from_bytes bs) |}.

#[export] Instance Bytes_ToBytes : ToBytes Bytes := {|
  to_bytes := Bytes_to_bytes; into_bytes := Bytes_to_bytes;
  serialized_length b := u8_slice_serialized_length (inner_bytes b);
  write_bytes b := write_u8_slice (inner_bytes b) |}.
#[export] Instance Bytes_FromBytes : FromBytes Bytes := {|
  from_bytes := Bytes_from_bytes; from_vec := Bytes_from_vec |}.

#[export] Instance String_ToBytes : ToBytes rstring := {|
  to_bytes := String_to_bytes; into_bytes := String_to_bytes;
  serialized_length s := u8_slice_serialized_length (as_bytes s);
  write_bytes s := write_u8_slice (as_bytes s) |}.
#[export] Instance String_FromBytes : FromBytes rstring := {|
  from_bytes := String_from_bytes; from_vec := String_from_bytes |}.

#[export] Instance U512_ToBytes : ToBytes U512 := {|
  to_bytes z := biguint_to_bytes U512_SERIALIZED_LENGTH (U512_val z);
  into_bytes z := biguint_to_bytes U512_SERIALIZED_LENGTH (U512_val z);
  serialized_length z := biguint_serialized_length U512_SERIALIZED_LENGTH (U512_val z);
  write_bytes z :=
    default_write_bytes (fun z => biguint_to_bytes U512_SERIALIZED_LENGTH (U512_val z)) z |}.
#[export] Instance U512_FromBytes : FromBytes U512 := {|
  from_bytes bs := parse_map MkU512 (biguint_from_bytes U512_SERIALIZED_LENGTH bs);
  from_vec bs := parse_map MkU512 (biguint_from_bytes U512_SERIALIZED_LENGTH bs) |}.

#[export] Instance unit_Valid : Valid unit := fun _ => True.
#[export] Instance bool_Valid : Valid bool := fun _ => True.
#[export] Instance u8_Valid : Valid Byte.byte := fun _ => True.
#[export] Instance u32_Valid : Valid u32 := fun z => is_uint 32 (u32_val z).
#[export] Instance u64_Valid : Valid u64 := fun z => is_uint 64 (u64_val z).
#[export] Instance i32_Valid : Valid i32 := fun z => (- 2 ^ 31 <= i32_val z < 2 ^ 31)%Z.
#[export] Instance U512_Valid : Valid U512 := fun z => is_uint 512 (U512_val z).
(* a [Vec<u8>] is shorter than [isize::MAX] minus the length prefix *)
#[export] Instance Bytes_Valid : Valid Bytes := fun _ => True.
#[export] Instance String_Valid : Valid rstring := fun s => utf8_valid (as_bytes s) = true.

#[export] Instance unit_Bytesrepr : Bytesrepr unit.
Proof.
  split; cbn; try naive_solver.
  - intros [] ? ? _ [= <-]. done.
  - intros [] ? _ [= <-]. done.
  - intros [] ? ? _ [= <-]. done.
  - intros bs [] rest [= ->]. split; [done|by exists []].
  - intros bs [] rest more [= ->]. done.
Qed.

#[export] Instance u8_Bytesrepr : Bytesrepr Byte.byte.
Proof.
  split; cbn; try (intros ? ? ? _ [= <-]; done); try naive_solver.
  - intros ? ? _ [= <-]. done.
  - intros bs a rest ->%u8_from_bytes_Ok. split; [done|by exists [a]].
  - intros bs a rest more. apply u8_from_bytes_extend.
Qed.

#[export] Instance bool_Bytesrepr : Bytesrepr bool.
Proof.
  split; cbn; try naive_solver.
  - intros [] ? ? _ [= <-]; done.
  - intros [] ? _ [= <-]; done.
  - intros [] ? ? _ [= <-]; done.
  - intros [|b bs] a rest; cbn; [done|].
    intros H. repeat case_decide; simplify_eq; (split; [done|by eexists [_]]).
  - intros [|b bs] a rest more; cbn; [done|].
    intros H. repeat case_decide; simplify_eq; done.
Qed.

#[export] Instance u32_Bytesrepr : Bytesrepr u32.
Proof.
  split; cbn; try naive_solver.
  - intros [z] ? ? Hz [= <-]. cbn. by rewrite u32_roundtrip.
  - intros ? ? _ [= <-]. apply length_le_split.
  - intros ? ? ? _ [= <-]. done.
  - intros bs a rest (z & H & ->)%parse_map_Ok. by apply u32_from_bytes_Ok.
  - intros bs a rest more (z & H & ->)%parse_map_Ok. by extend_step.
Qed.

#[export] Instance u64_Bytesrepr : Bytesrepr u64.
Proof.
  split; cbn; try naive_solver.
  - intros [z] ? ? Hz [= <-]. cbn. by rewrite u64_roundtrip.
  - intros ? ? _ [= <-]. apply length_le_split.
  - intros ? ? ? _ [= <-]. done.
  - intros bs a rest (z & H & ->)%parse_map_Ok. by apply u64_from_bytes_Ok.
  - intros bs a rest more (z & H & ->)%parse_map_Ok. by extend_step.
Qed.

#[export] Instance i32_Bytesrepr : Bytesrepr i32.
Proof.
  split; cbn; try naive_solver.
  - intros [z] ? ? Hz [= <-]. cbn. unfold i32_from_bytes.
    rewrite safe_split_at_app by apply length_le_split. cbn.
    rewrite int_from_le_split; [done|unfold I32_SERIALIZED_LENGTH; lia|exact Hz].
  - intros ? ? _ [= <-]. apply length_le_split.
  - intros ? ? ? _ [= <-]. done.
  - intros bs a rest (z & H & ->)%parse_map_Ok. unfold i32_from_bytes in H. inv_ok.
    match goal with H : safe_split_at _ _ = _ |- _ => apply safe_split_at_Ok in H as [-> L] end.
    split; [|by eexists]. unfold valid, i32_Valid, int_from_le_bytes. cbn [i32_val]. rewrite L.
    change (8 * Z.of_nat I32_SERIALIZED_LENGTH)%Z with 32%Z.
    match goal with |- context [(?x mod ?m)%Z] => pose proof (Z.mod_pos_bound x m ltac:(reflexivity)) end.
    lia.
  - intros bs a rest more (z & H & ->)%parse_map_Ok. unfold i32_from_bytes in *. extend_parse.
Qed.

Lemma biguint_extend total bs z rest more :
  biguint_from_bytes total bs = Ok (z, rest) ->
  biguint_from_bytes total (bs ++ more) = Ok (z, rest ++ more).
Proof. unfold biguint_from_bytes. extend_parse. Qed.

Lemma biguint_length total z bs :
  biguint_to_bytes total z = Ok bs -> length bs = biguint_serialized_length total z.
Proof. rewrite biguint_bytes_split. intros [= <-]. cbn [length]. by rewrite length_reverse. Qed.

#[export] Instance U512_Bytesrepr : Bytesrepr U512.
Proof.
  split.
  - intros [z] bs rest Hz H.
    change (parse_map MkU512 (biguint_from_bytes U512_SERIALIZED_LENGTH (bs ++ rest)) = Ok (MkU512 z, rest)).
    rewrite (biguint_roundtrip U512_SERIALIZED_LENGTH z _ rest ltac:(by apply Nat.ltb_lt) Hz H). done.
  - intros [z] bs _ H. by apply biguint_length in H.
  - intros [z] bs writer _ H. unfold write_bytes, U512_ToBytes, default_write_bytes.
    cbn [to_bytes U512_ToBytes] in H. by rewrite H.
  - intros [z] _ _. pose proof (biguint_bytes_split U512_SERIALIZED_LENGTH z) as E.
    eexists. split; exact E.
  - intros bs a rest (z & H & ->)%parse_map_Ok. by apply biguint_sound in H.
  - intros bs a rest more (z & H & ->)%parse_map_Ok. cbn [from_bytes U512_FromBytes].
    by rewrite (biguint_extend _ _ _ _ more H).
  - done.
Qed.

(** ** Length-prefixed byte strings *)

Lemma u8_slice_to_bytes_Ok bs out :
  u8_slice_to_bytes bs = Ok out ->
  (Z.of_nat (length bs) <= u32_max)%Z /\
  out = le_split U32_SERIALIZED_LENGTH (Z.of_nat (length bs)) ++ bs.
Proof.
  unfold u8_slice_to_bytes. intros H. inv_ok.
  match goal with H : length_32 _ = _ |- _ => apply length_32_Ok in H as [-> ?] end.
  done.
Qed.

Lemma u8_slice_to_bytes_total bs :
  (Z.of_nat (u8_slice_serialized_length bs) <= u32_max)%Z ->
  u8_slice_to_bytes bs = Ok (le_split U32_SERIALIZED_LENGTH (Z.of_nat (length bs)) ++ bs).
Proof.
  intros H. unfold u8_slice_to_bytes. rewrite try_vec_fits by done. cbn [mbind res_bind].
  rewrite length_32_fits; [done|]. unfold u8_slice_serialized_length in H. lia.
Qed.

Lemma u8_slice_length bs out :
  u8_slice_to_bytes bs = Ok out -> length out = u8_slice_serialized_length bs.
Proof. intros [_ ->]%u8_slice_to_bytes_Ok. by rewrite length_app, length_le_split. Qed.

Lemma write_u8_slice_spec bs out writer :
  u8_slice_to_bytes bs = Ok out -> write_u8_slice bs writer = Ok (writer ++ out).
Proof.
  intros [Hl ->]%u8_slice_to_bytes_Ok. unfold write_u8_slice.
  rewrite length_32_fits by done. cbn [mbind res_bind mret res_ret]. by rewrite <- app_assoc.
Qed.

Lemma u8_slice_parse bs out rest :
  u8_slice_to_bytes bs = Ok out ->
  exists size, u32_from_bytes (out ++ rest) = Ok (size, bs ++ rest) /\
  Z.to_nat size = length bs /\ safe_split_at (bs ++ rest) (Z.to_nat size) = Ok (bs, rest).
Proof.
  intros [Hl ->]%u8_slice_to_bytes_Ok. exists (Z.of_nat (length bs)).
  rewrite <- app_assoc, u32_roundtrip, Nat2Z.id, safe_split_at_app; [done|done|].
  unfold is_uint, u32_max, uint_max in *. lia.
Qed.

#[export] Instance Bytes_Bytesrepr : Bytesrepr Bytes.
Proof.
  split; cbn.
  - intros [bs] out rest _ H. cbn in H.
    destruct (u8_slice_parse _ _ rest H) as (size & Hu & _ & Hs).
    unfold Bytes_from_bytes. rewrite Hu. cbn [mbind res_bind]. by rewrite Hs.
  - intros [bs] out _. apply u8_slice_length.
  - intros [bs] out writer _. apply write_u8_slice_spec.
  - intros [bs] _ H. eexists. split; by apply u8_slice_to_bytes_total.
  - intros bs a rest. unfold Bytes_from_bytes. intros H. inv_ok.
    match goal with H : u32_from_bytes _ = _ |- _ => apply u32_from_bytes_Ok in H as [_ [u ->]] end.
    match goal with H : safe_split_at _ _ = _ |- _ => apply safe_split_at_Ok in H as [-> _] end.
    split; [done|]. eexists (_ ++ _). by rewrite <- app_assoc.
  - intros bs a rest more. unfold Bytes_from_bytes. extend_parse.
  - intros bs. unfold Bytes_from_vec, Bytes_from_bytes, safe_split_at.
    destruct (u32_from_bytes bs) as [[z s]| | |]; cbn; try done. by case_match.
Qed.

#[export] Instance String_Bytesrepr : Bytesrepr rstring.
Proof.
  split; cbn.
  - intros [bs] out rest Hv H. cbn in H.
    destruct (u8_slice_parse _ _ rest H) as (size & Hu & _ & Hs).
    unfold String_from_bytes. rewrite Hu. cbn [mbind res_bind]. rewrite Hs.
    cbn [mbind res_bind as_bytes]. change (utf8_valid bs = true) in Hv. by rewrite Hv.
  - intros [bs] out _. apply u8_slice_length.
  - intros [bs] out writer _. apply write_u8_slice_spec.
  - intros [bs] _ H. eexists. split; by apply u8_slice_to_bytes_total.
  - intros bs a rest. unfold String_from_bytes. intros H. inv_ok.
    match goal with H : u32_from_bytes _ = _ |- _ => apply u32_from_bytes_Ok in H as [_ [u ->]] end.
    match goal with H : safe_split_at _ _ = _ |- _ => apply safe_split_at_Ok in H as [-> _] end.
    split; [done|]. eexists (_ ++ _). by rewrite <- app_assoc.
  - intros bs a rest more. unfold String_from_bytes. extend_parse.
  - done.
Qed.

(** ** Containers *)

Section ContainerLaws.
Context {A : Type} `{Bytesrepr A}.
Implicit Types (v : list A) (e : list bytes).

Abbreviation encodes := (Forall2 (fun a b => to_bytes a = Ok b)).

Lemma append_all_Ok v r out :
  append_all v r = Ok out <-> exists e, encodes v e /\ out = r ++ List.concat e.
Proof.
  revert r. induction v as [|a v IH]; intros r; cbn.
  - split.
    + intros [= <-]. exists []. by rewrite app_nil_r.
    + intros (e & He & ->). inversion He; subst. by rewrite app_nil_r.
  - rewrite bind_Ok. split.
    + intros (b & Hb & (e & He & ->)%IH). exists (b :: e). split; [by constructor|].
      cbn. by rewrite app_assoc.
    + intros (e & He & ->). inversion He as [|? b ? e' Hb He']; subst.
      exists b. split; [done|]. apply IH. exists e'. cbn. by rewrite app_assoc.
Qed.

Lemma write_all_Ok v e w :
  Forall valid v -> encodes v e -> write_all v w = Ok (w ++ List.concat e).
Proof.
  intros Hv He. revert w Hv. induction He as [|a b v e Hb He IH]; intros w Hv; cbn.
  - by rewrite app_nil_r.
  - inversion Hv; subst. erewrite bytesrepr_write by done. cbn [mbind res_bind].
    rewrite IH by done. by rewrite app_assoc.
Qed.

Lemma encodes_length v e :
  Forall valid v -> encodes v e -> length (List.concat e) = sum_list (serialized_length <$> v).
Proof.
  intros Hv He. induction He as [|a b v e Hb He IH]; [done|].
  inversion Hv; subst. cbn. rewrite length_app, IH by done.
  by erewrite bytesrepr_length.
Qed.

Lemma encodes_total v :
  Forall valid v -> (Z.of_nat (sum_list (serialized_length <$> v)) <= u32_max)%Z ->
  exists e, encodes v e /\ forall r, append_all_into v r = Ok (r ++ List.concat e).
Proof.
  induction 1 as [|a v Ha Hv IH]; cbn; intros Hs.
  - exists []. split; [done|]. intros r. by rewrite app_nil_r.
  - destruct IH as (e & He & Hi); [lia|].
    destruct (bytesrepr_total a) as (b & Hb & Hb'); [done|lia|].
    exists (b :: e). split; [by constructor|]. intros r. rewrite Hb'. cbn [mbind res_bind].
    rewrite Hi. cbn. by rewrite app_assoc.
Qed.

Lemma read_n_encodes v e rest :
  Forall valid v -> encodes v e -> read_n (length v) (List.concat e ++ rest) = Ok (v, rest).
Proof.
  intros Hv He. induction He as [|a b v e Hb He IH]; [done|].
  inversion Hv; subst. cbn. rewrite <- app_assoc.
  erewrite bytesrepr_roundtrip by done. cbn. by rewrite IH.
Qed.

Lemma read_n_sound n bs v rest :
  read_n n bs = Ok (v, rest) ->
  Forall valid v /\ length v = n /\ exists used, bs = used ++ rest.
Proof.
  revert bs v. induction n as [|n IH]; intros bs v Hr; cbn in Hr.
  - inv_ok. split_and!; [constructor|done|by exists []].
  - inv_ok. match goal with H : read_n _ _ = _ |- _ => apply IH in H as (? & <- & u & ->) end.
    match goal with H : from_bytes _ = _ |- _ => apply bytesrepr_sound in H as (? & u' & ->) end.
    split_and!; [by constructor|done|]. eexists (_ ++ _). by rewrite <- app_assoc.
Qed.

Lemma read_n_extend n bs v rest more :
  read_n n bs = Ok (v, rest) -> read_n n (bs ++ more) = Ok (v, rest ++ more).
Proof.
  revert bs v. induction n as [|n IH]; intros bs v Hr; cbn in *; inv_ok; [done|].
  extend_step. by erewrite IH.
Qed.

#[export] Instance Vec_ToBytes : ToBytes (list A) := {|
  to_bytes := Vec_to_bytes; into_bytes := Vec_into_bytes;
  serialized_length := iterator_serialized_length;
  write_bytes := Vec_write_bytes |}.
#[export] Instance Vec_FromBytes : FromBytes (list A) := {|
  from_bytes := Vec_from_bytes; from_vec := Vec_from_bytes |}.
(* a vector of more than [u32::MAX] elements has no representation *)
#[export] Instance Vec_Valid : Valid (list A) := fun v =>
  Forall valid v /\ (Z.of_nat (length v) <= u32_max)%Z.

Lemma Vec_to_bytes_Ok v out :
  Vec_to_bytes v = Ok out ->
  exists e, encodes v e /\ (Z.of_nat (length v) <= u32_max)%Z /\
    out = le_split U32_SERIALIZED_LENGTH (Z.of_nat (length v)) ++ List.concat e.
Proof.
  unfold Vec_to_bytes. intros Ht. inv_ok.
  match goal with H : length_32 _ = _ |- _ => apply length_32_Ok in H as [-> ?] end.
  match goal with H : append_all _ _ = _ |- _ => apply append_all_Ok in H as (e & He & ->) end.
  by exists e.
Qed.

#[export] Instance Vec_Bytesrepr : Bytesrepr (list A).
Proof.
  split; cbn.
  - intros v out rest [Hv _] (e & He & Hl & ->)%Vec_to_bytes_Ok.
    unfold Vec_from_bytes. rewrite <- app_assoc, u32_roundtrip.
    2: { unfold is_uint, u32_max, uint_max in *. lia. }
    cbn [mbind res_bind]. rewrite Nat2Z.id. by apply read_n_encodes.
  - intros v out [Hv _] (e & He & Hl & ->)%Vec_to_bytes_Ok.
    rewrite length_app, length_le_split. by erewrite encodes_length.
  - intros v out w [Hv _] (e & He & Hl & ->)%Vec_to_bytes_Ok. unfold Vec_write_bytes.
    rewrite length_32_fits by done. cbn [mbind res_bind].
    rewrite (write_all_Ok _ e) by done. by rewrite app_assoc.
  - intros v [Hv Hl] Hs. unfold iterator_serialized_length in Hs.
    destruct (encodes_total v) as (e & He & Hi); [done|lia|].
    exists (le_split U32_SERIALIZED_LENGTH (Z.of_nat (length v)) ++ List.concat e).
    unfold Vec_to_bytes, Vec_into_bytes, iterator_serialized_length.
    rewrite try_vec_fits, allocate_buffer_fits, length_32_fits by done.
    cbn [mbind res_bind u32_to_bytes].
    split; [apply append_all_Ok; by exists e|by rewrite Hi].
  - intros bs v rest. unfold Vec_from_bytes. intros Hr. inv_ok.
    match goal with H : read_n _ _ = _ |- _ => apply read_n_sound in H as (? & Hl & u & ->) end.
    match goal with H : u32_from_bytes _ = _ |- _ => apply u32_from_bytes_Ok in H as [Hz [u' ->]] end.
    split; [split; [done|unfold is_uint, u32_max, uint_max in *; lia]|].
    eexists (_ ++ _). by rewrite <- app_assoc.
  - intros bs v rest more. unfold Vec_from_bytes. extend_parse. by apply read_n_extend.
  - done.
Qed.

End ContainerLaws.

Section SumLaws.
Context {A B : Type} `{Bytesrepr A} `{Bytesrepr B}.

#[export] Instance Option_ToBytes : ToBytes (option A) := {|
  to_bytes := Option_to_bytes; into_bytes := Option_to_bytes;
  serialized_length := Option_serialized_length;
  write_bytes := Option_write_bytes |}.
#[export] Instance Option_FromBytes : FromBytes (option A) := {|
  from_bytes := Option_from_bytes; from_vec := Option_from_bytes |}.
#[export] Instance Option_Valid : Valid (option A) := fun o =>
  match o with Some a => valid a | None => True end.

#[export] Instance Option_Bytesrepr : Bytesrepr (option A).
Proof.
  split; cbn; unfold Option_to_bytes, Option_from_bytes.
  - intros [a|] out rest Hv Ht; inv_ok; [|done].
    cbn. by erewrite bytesrepr_roundtrip.
  - intros [a|] out Hv Ht; inv_ok; [|done]. cbn. f_equal. by eapply bytesrepr_length.
  - intros [a|] out w Hv Ht; inv_ok; [|done].
    erewrite bytesrepr_write by done. by rewrite <- app_assoc.
  - intros [a|] Hv Hs; [|by eexists]. unfold Option_serialized_length in Hs.
    destruct (bytesrepr_total a) as (b & Hb & _); [done|lia|].
    rewrite allocate_buffer_fits, Hb by done. cbn. by eexists.
  - intros bs a rest Hr. apply bind_Ok in Hr as ([tag r] & ->%u8_from_bytes_Ok & Hr).
    repeat case_decide; inv_ok.
    + split; [done|by eexists [_]].
    + match goal with H : from_bytes _ = _ |- _ => apply bytesrepr_sound in H as (? & u & ->) end.
      split; [done|by eexists (_ :: _)].
  - intros bs a rest more Hr. apply bind_Ok in Hr as ([tag r] & Hu & Hr). extend_step.
    repeat case_decide; extend_parse.
  - done.
Qed.

#[export] Instance Result_ToBytes : ToBytes (A + B) := {|
  to_bytes := Result_to_bytes; into_bytes := Result_to_bytes;
  serialized_length := Result_serialized_length;
  write_bytes := Result_write_bytes |}.
#[export] Instance Result_FromBytes : FromBytes (A + B) := {|
  from_bytes := Result_from_bytes; from_vec := Result_from_bytes |}.
#[export] Instance Result_Valid : Valid (A + B) := fun r =>
  match r with inl a => valid a | inr b => valid b end.

#[export] Instance Result_Bytesrepr : Bytesrepr (A + B).
Proof.
  split; cbn; unfold Result_to_bytes, Result_from_bytes.
  - intros [a|a] out rest Hv Ht; inv_ok; cbn; by erewrite bytesrepr_roundtrip.
  - intros [a|a] out Hv Ht; inv_ok; cbn; f_equal; by eapply bytesrepr_length.
  - intros [a|a] out w Hv Ht; inv_ok; erewrite bytesrepr_write by done; by rewrite <- app_assoc.
  - intros [a|a] Hv Hs; rewrite allocate_buffer_fits by done;
      unfold Result_serialized_length in Hs;
      (destruct (bytesrepr_total a) as (b & Hb & _); [done|lia|]);
      rewrite Hb; cbn; by eexists.
  - intros bs a rest Hr. apply bind_Ok in Hr as ([tag r] & ->%u8_from_bytes_Ok & Hr).
    repeat case_decide; inv_ok;
      match goal with H : from_bytes _ = _ |- _ => apply bytesrepr_sound in H as (? & u & ->) end;
      (split; [done|by eexists (_ :: _)]).
  - intros bs a rest more Hr. apply bind_Ok in Hr as ([tag r] & Hu & Hr). extend_step.
    repeat case_decide; extend_parse.
  - done.
Qed.

#[export] Instance Pair_ToBytes : ToBytes (A * B) := {|
  to_bytes := Pair_to_bytes; into_bytes := Pair_to_bytes;
  serialized_length := Pair_serialized_length;
  write_bytes := default_write_bytes Pair_to_bytes |}.
#[export] Instance Pair_FromBytes : FromBytes (A * B) := {|
  from_bytes := Pair_from_bytes; from_vec := Pair_from_bytes |}.
#[export] Instance Pair_Valid : Valid (A * B) := fun p => valid p.1 /\ valid p.2.

#[export] Instance Pair_Bytesrepr : Bytesrepr (A * B).
Proof.
  split; cbn; unfold Pair_to_bytes, Pair_from_bytes.
  - intros [a b] out rest [Hva Hvb] Ht. inv_ok. rewrite <- app_assoc.
    erewrite bytesrepr_roundtrip by done. cbn. by erewrite bytesrepr_roundtrip.
  - intros [a b] out [Hva Hvb] Ht. inv_ok. rewrite length_app.
    unfold Pair_serialized_length. f_equal; by eapply bytesrepr_length.
  - intros [a b] out w [Hva Hvb] Ht. unfold default_write_bytes. by rewrite Ht.
  - intros [a b] [Hva Hvb] Hs. unfold Pair_serialized_length in Hs. cbn in *.
    destruct (bytesrepr_total a) as (ba & Ha & _); [done|lia|].
    destruct (bytesrepr_total b) as (bb & Hb & _); [done|lia|].
    rewrite allocate_buffer_fits by done. cbn [mbind res_bind]. rewrite Ha, Hb. cbn. by eexists.
  - intros bs [a b] rest Hr. inv_ok.
    repeat match goal with H : from_bytes _ = _ |- _ => apply bytesrepr_sound in H as (? & ? & ->) end.
    split; [done|]. eexists (_ ++ _). by rewrite <- app_assoc.
  - intros bs a rest more Hr. extend_parse.
  - done.
Qed.

End SumLaws.

(** ** Ordered maps and sets *)

Section BTreeLaws.
Context {K V : Type} `{Bytesrepr K} `{Bytesrepr V} `{OrdLaws K}.

Abbreviation entries_encode := (Forall2 (fun (kv : K * V) b => exists bk bv,
  to_bytes kv.1 = Ok bk /\ to_bytes kv.2 = Ok bv /\ b = bk ++ bv)).

Lemma append_entries_pairs (kvs : list (K * V)) r out :
  append_entries kvs r = Ok out <->
  exists e, entries_encode kvs e /\ out = r ++ List.concat e.
Proof.
  revert r. induction kvs as [|[k v] kvs IH]; intros r; cbn.
  - split.
    + intros [= <-]. exists []. by rewrite app_nil_r.
    + intros (e & He & ->). inversion He; subst. by rewrite app_nil_r.
  - split.
    + intros Ht. inv_ok.
      match goal with H : append_entries _ _ = _ |- _ => apply IH in H as (e & He & ->) end.
      eexists ((_ ++ _) :: e). split; [constructor; [by do 2 eexists|done]|].
      cbn. by rewrite !app_assoc.
    + intros (e & He & ->). inversion He as [|? ? ? e' (bk & bv & Hk & Hv & ->) He']; subst.
      cbn in *. rewrite Hk, Hv. cbn [mbind res_bind]. apply IH. exists e'. split; [done|].
      cbn. by rewrite !app_assoc.
Qed.

Lemma read_entries_encodes (kvs : list (K * V)) e rest acc :
  Forall (fun kv => valid kv.1 /\ valid kv.2) kvs ->
  entries_encode kvs e ->
  btree_sorted (acc ++ kvs) ->
  read_entries (length kvs) (List.concat e ++ rest) acc = Ok (acc ++ kvs, rest).
Proof.
  intros Hv He. revert acc Hv.
  induction He as [|[k v] b kvs e (bk & bv & Hk & Hvv & ->) He IH]; intros acc Hv Hs; cbn.
  - by rewrite app_nil_r.
  - inversion Hv as [|? ? [Hvk Hvv'] Hv']; subst. cbn in *. rewrite <- !app_assoc.
    erewrite bytesrepr_roundtrip by done. cbn. erewrite bytesrepr_roundtrip by done. cbn.
    assert (acc ++ (k, v) :: kvs = (acc ++ [(k, v)]) ++ kvs) as E by by rewrite <- app_assoc.
    rewrite E in *. rewrite btree_insert_last, IH; [done|done|done|].
    apply btree_sorted_app in Hs as [Hs _]. apply btree_sorted_app in Hs as (_ & _ & Hs).
    eapply Forall_impl; [exact Hs|]. intros [k' v'] Hk'. by apply Forall_cons in Hk' as [? _].
Qed.

Lemma read_entries_sound n bs (acc kvs : list (K * V)) rest :
  read_entries n bs acc = Ok (kvs, rest) ->
  Forall (fun kv => valid kv.1 /\ valid kv.2) acc -> btree_sorted acc ->
  Forall (fun kv => valid kv.1 /\ valid kv.2) kvs /\ btree_sorted kvs /\
  length kvs <= length acc + n /\ exists used, bs = used ++ rest.
Proof.
  revert bs acc. induction n as [|n IH]; intros bs acc Hr Ha Hs; cbn in Hr.
  - inv_ok. split_and!; [done|done|lia|by exists []].
  - inv_ok. match goal with H : read_entries _ _ _ = _ |- _ => apply IH in H end.
    + repeat match goal with H : from_bytes _ = _ |- _ => apply bytesrepr_sound in H as (? & ? & ->) end.
      destruct_and!. match goal with H : exists _, _ |- _ => destruct H as [? ->] end.
      split_and!; [done|done| |].
      * etrans; [eassumption|]. etrans; [apply Nat.add_le_mono_r, btree_insert_length|]. lia.
      * by repeat apply suffix_app_r.
    + repeat match goal with H : from_bytes _ = _ |- _ => apply bytesrepr_sound in H as (? & ? & _) end.
      by apply btree_insert_Forall.
    + by apply btree_insert_sorted.
Qed.

Lemma read_entries_extend n bs (acc kvs : list (K * V)) rest more :
  read_entries n bs acc = Ok (kvs, rest) ->
  read_entries n (bs ++ more) acc = Ok (kvs, rest ++ more).
Proof.
  revert bs acc. induction n as [|n IH]; intros bs acc Hr; cbn in *; inv_ok; [done|].
  do 2 extend_step. by erewrite IH.
Qed.

#[export] Instance BTreeMap_ToBytes : ToBytes (btree_map K V) := {|
  to_bytes := BTreeMap_to_bytes; into_bytes := BTreeMap_to_bytes;
  serialized_length := BTreeMap_serialized_length;
  write_bytes := BTreeMap_write_bytes |}.
#[export] Instance BTreeMap_FromBytes : FromBytes (btree_map K V) := {|
  from_bytes := BTreeMap_from_bytes; from_vec := BTreeMap_from_bytes |}.
#[export] Instance BTreeMap_Valid : Valid (btree_map K V) := fun m =>
  Forall (fun kv => valid kv.1 /\ valid kv.2) (entries m) /\ btree_sorted (entries m) /\
  (Z.of_nat (length (entries m)) <= u32_max)%Z.

Lemma BTreeMap_to_bytes_Ok (m : btree_map K V) out :
  BTreeMap_to_bytes m = Ok out ->
  exists e, entries_encode (entries m) e /\
    (Z.of_nat (length (entries m)) <= u32_max)%Z /\
    out = le_split U32_SERIALIZED_LENGTH (Z.of_nat (length (entries m))) ++ List.concat e.
Proof.
  unfold BTreeMap_to_bytes. intros Ht. inv_ok.
  match goal with H : length_32 _ = _ |- _ => apply length_32_Ok in H as [-> ?] end.
  match goal with H : append_entries _ _ = _ |- _ => apply append_entries_pairs in H as (e & He & ->) end.
  by exists e.
Qed.

Lemma entries_length (kvs : list (K * V)) e :
  Forall (fun kv => valid kv.1 /\ valid kv.2) kvs ->
  entries_encode kvs e ->
  length (List.concat e) =
  sum_list ((fun kv => serialized_length kv.1 + serialized_length kv.2) <$> kvs).
Proof.
  intros Hv He. induction He as [|[k v] b kvs e (bk & bv & Hk & Hvv & ->) He IH]; [done|].
  inversion Hv as [|? ? [Hvk Hvv'] Hv']; subst. cbn in *.
  rewrite !length_app, IH by done. f_equal. f_equal; by eapply bytesrepr_length.
Qed.

Lemma entries_total (kvs : list (K * V)) :
  Forall (fun kv => valid kv.1 /\ valid kv.2) kvs ->
  (Z.of_nat (sum_list ((fun kv => serialized_length kv.1 + serialized_length kv.2)%nat <$> kvs))
    <= u32_max)%Z ->
  exists e, entries_encode kvs e.
Proof.
  induction 1 as [|[k v] kvs [Hk Hv] Hkvs IH]; cbn in *; intros Hs; [by exists []|].
  destruct IH as (e & He); [lia|].
  destruct (bytesrepr_total k) as (bk & Hbk & _); [done|lia|].
  destruct (bytesrepr_total v) as (bv & Hbv & _); [done|lia|].
  exists ((bk ++ bv) :: e). constructor; [by exists bk, bv|done].
Qed.

Lemma write_entries_Ok (kvs : list (K * V)) e w :
  Forall (fun kv => valid kv.1 /\ valid kv.2) kvs ->
  entries_encode kvs e ->
  write_entries kvs w = Ok (w ++ List.concat e).
Proof.
  intros Hv He. revert w Hv.
  induction He as [|[k v] b kvs e (bk & bv & Hk & Hvv & ->) He IH]; intros w Hv; cbn.
  - by rewrite app_nil_r.
  - inversion Hv as [|? ? [Hvk Hvv'] Hv']; subst. cbn in *.
    erewrite bytesrepr_write by done. cbn [mbind res_bind].
    erewrite bytesrepr_write by done. cbn [mbind res_bind].
    rewrite IH by done. by rewrite !app_assoc.
Qed.

#[export] Instance BTreeMap_Bytesrepr : Bytesrepr (btree_map K V).
Proof.
  split; cbn.
  - intros [kvs] out rest (Hv & Hs & _) (e & He & Hl & ->)%BTreeMap_to_bytes_Ok.
    unfold BTreeMap_from_bytes. rewrite <- app_assoc, u32_roundtrip.
    2: { unfold is_uint, u32_max, uint_max in *. lia. }
    cbn [mbind res_bind]. rewrite Nat2Z.id.
    rewrite (read_entries_encodes _ _ _ []) by done. done.
  - intros [kvs] out (Hv & _) (e & He & Hl & ->)%BTreeMap_to_bytes_Ok.
    rewrite length_app, length_le_split. by erewrite entries_length.
  - intros [kvs] out w (Hv & _) (e & He & Hl & ->)%BTreeMap_to_bytes_Ok.
    unfold BTreeMap_write_bytes. rewrite length_32_fits by done. cbn [mbind res_bind].
    rewrite (write_entries_Ok _ e) by done. by rewrite app_assoc.
  - intros [kvs] (Hv & Hso & Hl) Hs. cbn in *.
    destruct (entries_total kvs) as (e & He); [done|unfold BTreeMap_serialized_length in Hs; cbn in *; lia|].
    exists (le_split U32_SERIALIZED_LENGTH (Z.of_nat (length kvs)) ++ List.concat e).
    assert (BTreeMap_to_bytes (BTreeMap kvs) = Ok (le_split U32_SERIALIZED_LENGTH (Z.of_nat (length kvs)) ++ List.concat e)); [|done].
    unfold BTreeMap_to_bytes. rewrite allocate_buffer_fits, length_32_fits by done.
    cbn [mbind res_bind u32_to_bytes entries]. apply append_entries_pairs. by exists e.
  - intros bs [kvs] rest. unfold BTreeMap_from_bytes. intros Hr. inv_ok.
    match goal with H : read_entries _ _ _ = _ |- _ =>
      apply read_entries_sound in H as (? & ? & Hl & u & ->); [|done|done] end.
    match goal with H : u32_from_bytes _ = _ |- _ => apply u32_from_bytes_Ok in H as [Hz [u' ->]] end.
    split; [split_and!; [done|done|unfold is_uint, u32_max, uint_max in *; cbn in *; lia]|].
    eexists (_ ++ _). by rewrite <- app_assoc.
  - intros bs [kvs] rest more. unfold BTreeMap_from_bytes. extend_parse.
    by erewrite read_entries_extend.
  - done.
Qed.

End BTreeLaws.

Section BTreeSetLaws.
Context {K : Type} `{Bytesrepr K} `{OrdLaws K}.

#[export] Instance BTreeSet_ToBytes : ToBytes (btree_set K) := {|
  to_bytes := BTreeSet_to_bytes; into_bytes := BTreeSet_to_bytes;
  serialized_length := BTreeSet_serialized_length;
  write_bytes := BTreeSet_write_bytes |}.
#[export] Instance BTreeSet_FromBytes : FromBytes (btree_set K) := {|
  from_bytes := BTreeSet_from_bytes; from_vec := BTreeSet_from_bytes |}.

(** A set is serialised as the map of its elements to [()]. *)
Definition as_map (s : btree_set K) : btree_map K unit := BTreeMap (elems s).
Definition of_map (m : btree_map K unit) : btree_set K := BTreeSet (entries m).

#[export] Instance BTreeSet_Valid : Valid (btree_set K) := fun s => valid (as_map s).

Lemma append_all_keys (l : list (K * unit)) r :
  append_all (fst <$> l) r = append_entries l r.
Proof.
  revert r. induction l as [|[k []] l IH]; intros r; cbn; [done|].
  destruct (to_bytes k); cbn; try done. by rewrite app_nil_r, IH.
Qed.

Lemma write_all_keys (l : list (K * unit)) r :
  write_all (fst <$> l) r = write_entries l r.
Proof.
  revert r. induction l as [|[k []] l IH]; intros r; cbn; [done|].
  destruct (write_bytes k r); cbn; try done. unfold default_write_bytes. cbn.
  by rewrite app_nil_r, IH.
Qed.

Lemma read_elems_entries n bs (acc : list (K * unit)) :
  read_elems n bs acc = read_entries n bs acc.
Proof.
  revert bs acc. induction n as [|n IH]; intros bs acc; cbn; [done|].
  destruct (from_bytes bs) as [[]| | |]; cbn; [by rewrite IH|done..].
Qed.

Lemma set_length_map (s : btree_set K) :
  serialized_length s = serialized_length (as_map s).
Proof.
  cbn [serialized_length BTreeSet_ToBytes BTreeMap_ToBytes]. unfold BTreeSet_serialized_length, BTreeMap_serialized_length. f_equal. f_equal.
  apply list_fmap_ext. intros _ [k []] _. cbn. unfold UNIT_SERIALIZED_LENGTH. lia.
Qed.

Lemma set_to_bytes_map (s : btree_set K) : to_bytes s = to_bytes (as_map s).
Proof.
  cbn. unfold BTreeSet_to_bytes, BTreeMap_to_bytes.
  change (BTreeSet_serialized_length s) with (serialized_length s). rewrite set_length_map.
  by setoid_rewrite append_all_keys.
Qed.

Lemma set_from_bytes_map bs : from_bytes bs = parse_map of_map (from_bytes bs).
Proof.
  cbn. unfold BTreeSet_from_bytes, BTreeMap_from_bytes, parse_map.
  destruct (u32_from_bytes bs) as [[n stream]| | |]; cbn; try done.
  rewrite read_elems_entries. by destruct (read_entries _ _ _) as [[]| | |].
Qed.

#[export] Instance BTreeSet_Bytesrepr : Bytesrepr (btree_set K).
Proof.
  split.
  - intros [s] out rest Hv Ht. rewrite set_to_bytes_map in Ht. rewrite set_from_bytes_map.
    by rewrite (bytesrepr_roundtrip (as_map _) _ rest Hv Ht).
  - intros s out Hv Ht. rewrite set_to_bytes_map in Ht.
    rewrite set_length_map. exact (bytesrepr_length (as_map s) out Hv Ht).
  - intros s out w Hv Ht. rewrite set_to_bytes_map in Ht.
    rewrite <- (bytesrepr_write (as_map s) out w Hv Ht). cbn.
    unfold BTreeSet_write_bytes, BTreeMap_write_bytes. by setoid_rewrite write_all_keys.
  - intros s Hv Hl. rewrite set_length_map in Hl.
    destruct (bytesrepr_total (as_map s) Hv Hl) as (bs & Hb & _).
    exists bs. by rewrite <- set_to_bytes_map in Hb.
  - intros bs s rest Hr. rewrite set_from_bytes_map in Hr.
    apply parse_map_Ok in Hr as ([m] & Hr & ->). by apply bytesrepr_sound in Hr.
  - intros bs s rest more Hr. rewrite set_from_bytes_map in *.
    apply parse_map_Ok in Hr as (m & Hr & ->). by rewrite (bytesrepr_extend _ _ _ more Hr).
  - done.
Qed.

End BTreeSetLaws.

(** The instances compose. *)
Example nested_instance :
  Bytesrepr (list (option (btree_map Byte.byte (U512 * (rstring + btree_set Byte.byte))))).
Proof. apply _. Qed.

(** ** Codecs of structs

    A struct is serialised field after field; the following lemma and tactics
    prove the laws of such a codec from those of its fields. *)

#[global] Arguments to_bytes : simpl never.
#[global] Arguments into_bytes : simpl never.
#[global] Arguments from_bytes : simpl never.
#[global] Arguments from_vec : simpl never.
#[global] Arguments serialized_length : simpl never.
#[global] Arguments write_bytes : simpl never.
#[global] Arguments valid : simpl never.

(** The trait's provided methods, for the types that do not override them. *)
Definition default_ToBytes {A} (tb : A -> bres bytes) (len : A -> nat) : ToBytes A := {|
  to_bytes := tb; into_bytes := tb; serialized_length := len;
  write_bytes := default_write_bytes tb |}.
Definition default_FromBytes {A} (fb : bytes -> bres (A * bytes)) : FromBytes A := {|
  from_bytes := fb; from_vec := fb |}.

Lemma struct_bytesrepr {A} (tb : A -> bres bytes) len wb (fb : bytes -> bres (A * bytes))
    (v : A -> Prop) :
  (forall a bs rest, v a -> tb a = Ok bs -> fb (bs ++ rest) = Ok (a, rest)) ->
  (forall a bs, v a -> tb a = Ok bs -> length bs = len a) ->
  (forall a bs writer, v a -> tb a = Ok bs -> wb a writer = Ok (writer ++ bs)) ->
  (forall a, v a -> (Z.of_nat (len a) <= u32_max)%Z -> exists bs, tb a = Ok bs) ->
  (forall bs a rest, fb bs = Ok (a, rest) -> v a /\ exists used, bs = used ++ rest) ->
  (forall bs a rest more, fb bs = Ok (a, rest) -> fb (bs ++ more) = Ok (a, rest ++ more)) ->
  @Bytesrepr A {| to_bytes := tb; into_bytes := tb; serialized_length := len; write_bytes := wb |}
    {| from_bytes := fb; from_vec := fb |} v.
Proof.
  intros H1 H2 H3 H4 H5 H6. split; try done.
  intros a Hv Hl. destruct (H4 a Hv Hl) as [bs Hb]. by exists bs.
Qed.

Lemma default_write_ok {A} (tb : A -> bres bytes) a bs writer :
  tb a = Ok bs -> default_write_bytes tb a writer = Ok (writer ++ bs).
Proof. intros H. unfold default_write_bytes. by rewrite H. Qed.

(** A newtype around [[u8; n]]. *)
Lemma array_newtype_bytesrepr {A} n (mk : bytes -> A) (get : A -> bytes) wb :
  (forall a, mk (get a) = a) -> (forall b, get (mk b) = b) ->
  (forall a writer, wb a writer = Ok (writer ++ get a)) ->
  @Bytesrepr A
    {| to_bytes a := array_to_bytes (get a); into_bytes a := array_to_bytes (get a);
       serialized_length _ := n; write_bytes := wb |}
    {| from_bytes bs := '(arr, rem) ← array_from_bytes n bs; mret (mk arr, rem);
       from_vec bs := '(arr, rem) ← array_from_bytes n bs; mret (mk arr, rem) |}
    (fun a => length (get a) = n).
Proof.
  intros Hmk Hget Hw. apply struct_bytesrepr; unfold array_to_bytes, array_from_bytes.
  - intros a bs rest Hv [= <-]. rewrite safe_split_at_app by done. cbn. by rewrite Hmk.
  - by intros a bs Hv [= <-].
  - intros a bs w Hv [= <-]. apply Hw.
  - by eexists.
  - intros bs a rest Hr. inv_ok.
    match goal with H : safe_split_at _ _ = _ |- _ => apply safe_split_at_Ok in H as [-> L] end.
    rewrite Hget. split; [done|by eexists].
  - extend_parse.
Qed.

(** [inv_ok] without simplification: the codecs of the fields stay folded. *)
Lemma Ok_inj {E A} (x y : A) : Ok x = Ok y :> res E A -> x = y.
Proof. by intros [= ->]. Qed.
Ltac codec_inv :=
  repeat (match goal with
  | H : _ ≫= _ = Ok _ |- _ => apply bind_Ok in H; destruct H as (? & ? & ?)
  | H : mret _ = Ok _ |- _ => apply Ok_inj in H
  | H : Ok _ = Ok _ |- _ => apply Ok_inj in H
  | H : (_, _) = (_, _) |- _ => apply pair_eq in H; destruct H
  | H : (let '(_, _) := ?p in _) = Ok _ |- _ => destruct p
  | p : (_ * _)%type |- _ => destruct p
  | u : unit |- _ => destruct u
  end; cbn beta iota in *; subst).

Ltac codec_roundtrip :=
  intros; codec_inv; destruct_and?; cbn [app]; rewrite <- ?app_assoc;
  repeat match goal with
  | H : to_bytes ?a = Ok ?b |- context [from_bytes (?b ++ ?r) ≫= _] =>
      rewrite (bind_eq (from_bytes (b ++ r)) (a, r)) by (apply bytesrepr_roundtrip; assumption); cbn beta iota
  | H : to_bytes ?a = Ok ?b |- context [from_bytes (?b ++ ?r)] =>
      rewrite (bytesrepr_roundtrip a b r) by assumption; cbn [mbind res_bind]
  end; try done.
Ltac codec_length :=
  intros; codec_inv; destruct_and?; rewrite ?length_app;
  repeat match goal with H : to_bytes _ = Ok _ |- _ => apply bytesrepr_length in H; [|assumption] end;
  cbn in *;
  first [lia | repeat match goal with H : length ?x = _ |- context [length ?x] => rewrite H; clear H end;
    first [reflexivity | unfold serialized_length in *; cbn in *; lia] | idtac].
Ltac codec_write :=
  intros; codec_inv; destruct_and?;
  repeat match goal with
  | H : to_bytes ?a = Ok ?b |- context [write_bytes ?a ?w ≫= _] =>
      rewrite (bind_eq (write_bytes a w) (w ++ b)) by (apply bytesrepr_write; assumption); cbn beta iota
  | H : to_bytes ?a = Ok _ |- context [write_bytes ?a ?w] =>
      rewrite (bytesrepr_write a _ w) by eassumption; cbn [mbind res_bind]
  | H : to_bytes _ = Ok _ |- _ => rewrite H; clear H; cbn [mbind res_bind]
  end; by rewrite <- ?app_assoc.
Ltac codec_bound :=
  first [lia | simpl in *; lia | unfold serialized_length in *; cbn in *; lia
        | vm_compute; discriminate].
Ltac codec_total_step :=
  match goal with
  | |- context [allocate_buffer ?n] => rewrite (allocate_buffer_fits n) by codec_bound
  | |- context [to_bytes ?x] =>
      let b := fresh "b" in let Hb := fresh "Hb" in
      destruct (bytesrepr_total x) as (b & Hb & _); [by eauto|codec_bound|rewrite Hb; clear Hb]
  end; cbn [mbind res_bind].
Ltac codec_total := intros; destruct_and?; repeat codec_total_step; try (by eexists).
Ltac codec_sound :=
  intros; codec_inv;
  repeat match goal with H : from_bytes _ = _ |- _ => apply bytesrepr_sound in H as (? & ? & ->) end;
  split; [by split_and?|by repeat apply suffix_app_r].
Ltac codec_extend := intros; codec_inv; repeat extend_step; try done.
Ltac struct_codec_by tac :=
  apply struct_bytesrepr;
  [ intros []; tac; codec_roundtrip
  | intros []; tac; codec_length
  | intros []; first [by intros; apply default_write_ok | tac; codec_write]
  | intros []; tac; codec_total
  | tac; codec_sound
  | tac; codec_extend ].
Ltac struct_codec tb len fb v := struct_codec_by ltac:(unfold tb, len, fb, v).

(** ** Properties *)


(** ** Witness *)

Definition sample_value : btree_map Byte.byte (list (option U512) * rstring) :=
  {| entries := [(Byte.x01, ([None; Some (MkU512 65536)], RString [Byte.x61]));
                 (Byte.x07, ([], RString []))] |}.
Definition sample_bytes : bytes :=
  match to_bytes sample_value with Ok bs => bs | _ => [] end.

