(* ===== verification/Hashing.v ===== *)
(** * Digests, Merkle trees, indexed Merkle proofs and chunks:
    [hashing/src/lib.rs], [indexed_merkle_proof.rs], [chunk_with_proof.rs].

    BLAKE2b ([blake2] crate) and [itertools::tree_fold1] are third-party code:
    they are the operations of the classes [Blake2b] and [TreeFold1], with
    their documented behaviour as laws.  The chunk size is a parameter, as the
    source sets it per build configuration (10 bytes under [cfg(test)], 8 MiB
    otherwise). *)

From Equations Require Import Equations.
From S2P Require Import Prelude Bytesrepr.
Local Open Scope Z_scope.

(** ** Third-party interfaces *)

(** [VarBlake2b::new(32)], fed with [update] and finalised: a function of the
    concatenation of the updates with a 32-byte result. *)
Class Blake2b := {
  blake2b : bytes -> bytes;
  blake2b_length data : length (blake2b data) = 32%nat;
  CHUNK_SIZE_BYTES : nat;
  CHUNK_SIZE_BYTES_pos : (0 < CHUNK_SIZE_BYTES)%nat;
}.

(** [Itertools::tree_fold1]: folds a sequence as a binary tree whose left
    subtrees are full. *)
Class TreeFold1 := {
  tree_fold1 : forall {A : Type}, (A -> A -> A) -> list A -> option A;
  tree_fold1_nil {A} (f : A -> A -> A) : tree_fold1 f [] = None;
  tree_fold1_one {A} (f : A -> A -> A) x : tree_fold1 f [x] = Some x;
  tree_fold1_app {A} (f : A -> A -> A) l1 l2 k a b :
    length l1 = (2 ^ k)%nat -> (0 < length l2 <= 2 ^ k)%nat ->
    tree_fold1 f l1 = Some a -> tree_fold1 f l2 = Some b ->
    tree_fold1 f (l1 ++ l2) = Some (f a b);
}.

(** ** [Digest] *)

Record Digest := MkDigest { digest_value : bytes }.

#[export] Instance Digest_eq_dec : EqDecision Digest.
Proof. solve_decision. Defined.

#[export] Instance Digest_countable : Countable Digest.
Proof. by refine (inj_countable' digest_value MkDigest _); intros []. Defined.

#[export] Instance Digest_ord : Ord Digest := fun a b => ord_cmp (digest_value a) (digest_value b).

Definition Digest_LENGTH : nat := 32.
Definition SENTINEL_NONE : Digest := MkDigest (replicate Digest_LENGTH Byte.x00).
Definition SENTINEL_RFOLD : Digest := MkDigest (replicate Digest_LENGTH Byte.x01).
Definition SENTINEL_MERKLE_TREE : Digest := MkDigest (replicate Digest_LENGTH Byte.x02).

Definition Digest_to_bytes (d : Digest) : bres bytes := array_to_bytes (digest_value d).
Definition Digest_from_bytes (bs : bytes) : bres (Digest * bytes) :=
  '(arr, rem) ← array_from_bytes Digest_LENGTH bs; mret (MkDigest arr, rem).

#[export] Instance Digest_ToBytes : ToBytes Digest := {|
  to_bytes := Digest_to_bytes; into_bytes := Digest_to_bytes;
  serialized_length _ := Digest_LENGTH;
  write_bytes d writer := Ok (writer ++ digest_value d) |}.
#[export] Instance Digest_FromBytes : FromBytes Digest := {|
  from_bytes := Digest_from_bytes; from_vec := Digest_from_bytes |}.
#[export] Instance Digest_Valid : Valid Digest := fun d => length (digest_value d) = Digest_LENGTH.

#[export] Instance Digest_valid_dec (d : Digest) : Decision (valid d) :=
  Nat.eq_dec (length (digest_value d)) Digest_LENGTH.

(** [[T]::chunks]: consecutive slices of [n] elements, the last one shorter. *)
Fixpoint chunks_fuel {A} (fuel n : nat) (l : list A) : list (list A) :=
  match fuel, l with
  | _, [] => []
  | O, _ => []
  | S fuel', _ => take n l :: chunks_fuel fuel' n (drop n l)
  end.
Definition chunks {A} (n : nat) (l : list A) : list (list A) := chunks_fuel (length l) n l.

Section Hash.
Context `{Blake2b} `{TreeFold1}.

Definition blake2b_hash (data : bytes) : Digest := MkDigest (blake2b data).
Definition hash (data : bytes) : Digest := blake2b_hash data.

Definition hash_pair (data1 data2 : Digest) : Digest :=
  MkDigest (blake2b (digest_value data1 ++ digest_value data2)).

Definition hash_merkle_root (leaf_count : Z) (root : Digest) : Digest :=
  MkDigest (blake2b (replicate CHUNK_SIZE_BYTES Byte.x00 ++
                     le_split U64_SERIALIZED_LENGTH leaf_count ++ digest_value root)).

Definition hash_merkle_tree (leaves : list Digest) : Digest :=
  let leaf_count := Z.of_nat (length leaves) in
  match tree_fold1 hash_pair leaves with
  | None => SENTINEL_MERKLE_TREE
  | Some raw_root => hash_merkle_root leaf_count raw_root
  end.

Definition hash_slice_with_proof (slice : list Digest) (proof : Digest) : Digest :=
  foldr (fun next prev => hash_pair next prev) proof slice.

Definition hash_slice_rfold (slice : list Digest) : Digest :=
  hash_slice_with_proof slice SENTINEL_RFOLD.

Definition hash_bytes_into_chunks_if_necessary (bs : bytes) : Digest :=
  if decide (length bs <= CHUNK_SIZE_BYTES)%nat then hash bs
  else hash_merkle_tree (hash <$> chunks CHUNK_SIZE_BYTES bs).

Fixpoint kv_hashes {K V} `{ToBytes K} `{ToBytes V} (kvs : list (K * V)) : bres (list Digest) :=
  match kvs with
  | [] => Ok []
  | (key, value) :: kvs' =>
      k ← to_bytes key;
      v ← to_bytes value;
      rest ← kv_hashes kvs';
      mret (hash_pair (hash k) (hash v) :: rest)
  end.

Definition hash_btree_map {K V} `{ToBytes K} `{ToBytes V} (m : btree_map K V) : bres Digest :=
  hashes ← kv_hashes (entries m); mret (hash_merkle_tree hashes).

(** ** [IndexedMerkleProof] *)

Record IndexedMerkleProof := {
  index : Z;
  count : Z;
  merkle_proof : list Digest;
}.

Inductive MerkleConstructionError :=
| IndexOutOfBounds (count index : Z)
| TooManyLeaves (count : Z).

Inductive MerkleVerificationError :=
| VIndexOutOfBounds (count index : Z)
| UnexpectedProofLength (count index expected_proof_length : Z) (actual_proof_length : nat).

Inductive HashOrProof :=
| Hash (d : Digest)
| Proof_ (p : list Digest).

(** The closure given to [tree_fold1]; [None] stands for [unreachable!()]. *)
Definition combine_hash_or_proof (x y : option HashOrProof) : option HashOrProof :=
  match x, y with
  | Some (Hash hash_x), Some (Hash hash_y) => Some (Hash (hash_pair hash_x hash_y))
  | Some (Hash hash), Some (Proof_ proof) => Some (Proof_ (proof ++ [hash]))
  | Some (Proof_ proof), Some (Hash hash) => Some (Proof_ (proof ++ [hash]))
  | _, _ => None
  end.

Definition mark_leaf (index : Z) (i : nat) (hash : Digest) : option HashOrProof :=
  if Z.of_nat i =? index then Some (Proof_ [hash]) else Some (Hash hash).

Definition IndexedMerkleProof_new (leaves : list Digest) (index : Z)
  : res MerkleConstructionError IndexedMerkleProof :=
  let count := Z.of_nat (length leaves) in
  if uint_max 64 <? count then Err (TooManyLeaves count)
  else
    match tree_fold1 combine_hash_or_proof (imap (mark_leaf index) leaves) with
    | Some None => Panic
    | None | Some (Some (Hash _)) => Err (IndexOutOfBounds count index)
    | Some (Some (Proof_ merkle_proof)) =>
        Ok {| index := index; count := count; merkle_proof := merkle_proof |}
    end.

(** [u64::leading_zeros]. *)
Definition leading_zeros (x : Z) : Z := if x =? 0 then 64 else 63 - Z.log2 x.

Definition pivot (n : Z) : Z := Z.shiftl 1 (63 - leading_zeros (n - 1)).

(** The loop of [root_hash] that turns the index into a path of 64 bits. *)
Fixpoint path_loop (fuel : nat) (path n i : Z) : option Z :=
  match fuel with
  | O => None
  | S fuel' =>
      if n <=? 1 then Some path
      else
        let path := Z.shiftl path 1 mod 2 ^ 64 in
        let p := pivot n in
        if i <? p then path_loop fuel' path p i
        else path_loop fuel' (Z.lor path 1) (n - p) (i - p)
  end.

Fixpoint hash_up (path : Z) (acc : Digest) (hashes : list Digest) : Digest :=
  match hashes with
  | [] => acc
  | hash :: hashes' =>
      let digest := if Z.land path 1 =? 1 then hash_pair hash acc else hash_pair acc hash in
      hash_up (Z.shiftr path 1) digest hashes'
  end.

(** 65 iterations are enough for any 64-bit count ([path_loop_total]). *)
Definition loop_fuel : nat := 65.

Definition root_hash (proof : IndexedMerkleProof) : option Digest :=
  raw_root ← match merkle_proof proof with
    | leaf_hash :: hashes =>
        path ← path_loop loop_fuel 0 (count proof) (index proof);
        Some (hash_up path leaf_hash hashes)
    | [] => Some SENTINEL_MERKLE_TREE
    end;
  Some (hash_merkle_root (count proof) raw_root).

Fixpoint length_loop (fuel : nat) (l n i : Z) : option Z :=
  match fuel with
  | O => None
  | S fuel' =>
      if n <=? 1 then Some l
      else
        let p := pivot n in
        if i <? p then length_loop fuel' (l + 1) p i
        else length_loop fuel' (l + 1) (n - p) (i - p)
  end.

Definition compute_expected_proof_length (proof : IndexedMerkleProof) : option Z :=
  if count proof =? 0 then Some 0
  else length_loop loop_fuel 1 (count proof) (index proof).

Definition verify (proof : IndexedMerkleProof) : res MerkleVerificationError unit :=
  if count proof <=? index proof then Err (VIndexOutOfBounds (count proof) (index proof))
  else
    match compute_expected_proof_length proof with
    | None => OutOfFuel
    | Some expected =>
        if negb (Z.of_nat (length (merkle_proof proof)) =? expected) then
          Err (UnexpectedProofLength (count proof) (index proof) expected
                 (length (merkle_proof proof)))
        else Ok tt
    end.

(** ** [ChunkWithProof] *)

Record ChunkWithProof := {
  chunk_proof : IndexedMerkleProof;
  chunk : Bytes;
}.

Inductive ChunkVerificationError :=
| MerkleVerification (e : MerkleVerificationError)
| ChunkWithProofHasEmptyMerkleProof (c : ChunkWithProof)
| FirstDigestInMerkleProofDidNotMatchHashOfChunk (first hash_of_chunk : Digest).

Definition ChunkWithProof_new (data : bytes) (index : Z)
  : res MerkleConstructionError ChunkWithProof :=
  match data with
  | [] =>
      proof ← IndexedMerkleProof_new [blake2b_hash []] index;
      mret {| chunk_proof := proof; chunk := MkBytes [] |}
  | _ :: _ =>
      proof ← IndexedMerkleProof_new (blake2b_hash <$> chunks CHUNK_SIZE_BYTES data) index;
      c ← ok_or (chunks CHUNK_SIZE_BYTES data !! Z.to_nat index)
            (IndexOutOfBounds (Z.of_nat (length (chunks CHUNK_SIZE_BYTES data))) index);
      mret {| chunk_proof := proof; chunk := MkBytes c |}
  end.

Definition chunk_verify (c : ChunkWithProof) : res ChunkVerificationError unit :=
  _ ← map_err MerkleVerification (verify (chunk_proof c));
  match merkle_proof (chunk_proof c) with
  | [] => Err (ChunkWithProofHasEmptyMerkleProof c)
  | first :: _ =>
      let hash_of_chunk := hash (inner_bytes (chunk c)) in
      if decide (first = hash_of_chunk) then Ok tt
      else Err (FirstDigestInMerkleProofDidNotMatchHashOfChunk first hash_of_chunk)
  end.

End Hash.

(** ** Shape lemmas *)

#[export] Instance Digest_Bytesrepr : Bytesrepr Digest.
Proof. by apply (array_newtype_bytesrepr Digest_LENGTH MkDigest digest_value); [intros []|..]. Qed.

(** *** Serialisation of proofs and chunks *)

Definition IndexedMerkleProof_serialized_length (p : IndexedMerkleProof) : nat :=
  serialized_length (U64 (index p)) + serialized_length (U64 (count p))
    + serialized_length (merkle_proof p).
Definition IndexedMerkleProof_to_bytes (p : IndexedMerkleProof) : bres bytes :=
  _ ← allocate_buffer (IndexedMerkleProof_serialized_length p);
  b1 ← to_bytes (U64 (index p));
  b2 ← to_bytes (U64 (count p));
  b3 ← to_bytes (merkle_proof p);
  mret (b1 ++ b2 ++ b3).
Definition IndexedMerkleProof_from_bytes (bs : bytes) : bres (IndexedMerkleProof * bytes) :=
  '(i, remainder) ← from_bytes bs;
  '(n, remainder) ← from_bytes remainder;
  '(p, remainder) ← from_bytes remainder;
  mret ({| index := u64_val i; count := u64_val n; merkle_proof := p |}, remainder).

#[export] Instance IndexedMerkleProof_ToBytes : ToBytes IndexedMerkleProof :=
  default_ToBytes IndexedMerkleProof_to_bytes IndexedMerkleProof_serialized_length.
#[export] Instance IndexedMerkleProof_FromBytes : FromBytes IndexedMerkleProof :=
  default_FromBytes IndexedMerkleProof_from_bytes.
#[export] Instance IndexedMerkleProof_Valid : Valid IndexedMerkleProof := fun p =>
  valid (U64 (index p)) /\ valid (U64 (count p)) /\ valid (merkle_proof p).

#[export] Instance IndexedMerkleProof_Bytesrepr : Bytesrepr IndexedMerkleProof.
Proof.
  struct_codec IndexedMerkleProof_to_bytes IndexedMerkleProof_serialized_length
    IndexedMerkleProof_from_bytes IndexedMerkleProof_Valid.
Qed.

Definition ChunkWithProof_serialized_length (c : ChunkWithProof) : nat :=
  serialized_length (chunk_proof c) + serialized_length (chunk c).
Definition ChunkWithProof_write_bytes (c : ChunkWithProof) (buf : bytes) : bres bytes :=
  b1 ← to_bytes (chunk_proof c);
  b2 ← to_bytes (chunk c);
  mret ((buf ++ b1) ++ b2).
Definition ChunkWithProof_to_bytes (c : ChunkWithProof) : bres bytes :=
  _ ← allocate_buffer (ChunkWithProof_serialized_length c);
  ChunkWithProof_write_bytes c [].
Definition ChunkWithProof_from_bytes (bs : bytes) : bres (ChunkWithProof * bytes) :=
  '(p, remainder) ← from_bytes bs;
  '(c, remainder) ← from_bytes remainder;
  mret ({| chunk_proof := p; chunk := c |}, remainder).

#[export] Instance ChunkWithProof_ToBytes : ToBytes ChunkWithProof := {|
  to_bytes := ChunkWithProof_to_bytes; into_bytes := ChunkWithProof_to_bytes;
  serialized_length := ChunkWithProof_serialized_length;
  write_bytes := ChunkWithProof_write_bytes |}.
#[export] Instance ChunkWithProof_FromBytes : FromBytes ChunkWithProof :=
  default_FromBytes ChunkWithProof_from_bytes.
#[export] Instance ChunkWithProof_Valid : Valid ChunkWithProof := fun c =>
  valid (chunk_proof c) /\ valid (chunk c).

#[export] Instance ChunkWithProof_Bytesrepr : Bytesrepr ChunkWithProof.
Proof.
  struct_codec_by ltac:(unfold ChunkWithProof_to_bytes, ChunkWithProof_write_bytes,
    ChunkWithProof_serialized_length, ChunkWithProof_from_bytes, ChunkWithProof_Valid).
Qed.

Lemma pivot_pow2 k n : (0 <= k) -> 2 ^ k < n <= 2 ^ (k + 1) -> pivot n = 2 ^ k.
Proof.
  intros Hk Hn. unfold pivot, leading_zeros.
  assert (0 < 2 ^ k) by lia.
  destruct (Z.eqb_spec (n - 1) 0); [lia|].
  rewrite Z.shiftl_1_l. f_equal.
  assert (Z.log2 (n - 1) = k); [|lia].
  apply Z.log2_unique; [done|]. rewrite <- Z.add_1_r. lia.
Qed.

Lemma pow2_of_nat (k : nat) : Z.of_nat (2 ^ k) = 2 ^ Z.of_nat k.
Proof. by rewrite Nat2Z.inj_pow. Qed.

Section MerkleProofs.
Context `{Blake2b} `{TreeFold1}.

Abbreviation marks idx off l := (imap (fun i => mark_leaf idx (off + i)%nat) l).

Lemma marks_app idx off (l1 l2 : list Digest) :
  marks idx off (l1 ++ l2) = marks idx off l1 ++ marks idx (off + length l1)%nat l2.
Proof.
  rewrite imap_app. f_equal. apply imap_ext. intros i x _. cbn. f_equal. lia.
Qed.

(** Halve a list longer than [2 ^ k]. *)
Lemma split_at_pow2 {A} k (l : list A) :
  (2 ^ k < length l <= 2 ^ S k)%nat ->
  exists l1 l2, l = l1 ++ l2 /\ length l1 = (2 ^ k)%nat /\ (0 < length l2 <= 2 ^ k)%nat.
Proof.
  intros Hl. exists (take (2 ^ k) l), (drop (2 ^ k) l).
  rewrite take_drop, length_take, length_drop. cbn in Hl. split_and!; [done|lia..].
Qed.

(** Without the wanted leaf, the fold computes the plain Merkle root. *)
Lemma fold_only_hashes k (l : list Digest) off idx :
  (0 < length l <= 2 ^ k)%nat ->
  idx < Z.of_nat off \/ Z.of_nat (off + length l) <= idx ->
  exists h, tree_fold1 hash_pair l = Some h /\
    tree_fold1 combine_hash_or_proof (marks idx off l) = Some (Some (Hash h)).
Proof.
  revert l off. induction k as [|k IH]; intros l off Hl Hidx.
  - destruct l as [|x [|]]; cbn in Hl; try lia. exists x. cbn.
    rewrite !tree_fold1_one. unfold mark_leaf. cbn in Hidx.
    destruct (Z.eqb_spec (Z.of_nat (off + 0)) idx); [lia|done].
  - destruct (decide (length l <= 2 ^ k)%nat) as [Hs|Hs]; [apply IH; [lia|done]|].
    destruct (split_at_pow2 k l) as (l1 & l2 & -> & H1 & H2); [lia|].
    rewrite length_app in *.
    destruct (IH l1 off) as (h1 & E1 & F1); [lia|lia|].
    destruct (IH l2 (off + length l1)%nat) as (h2 & E2 & F2); [lia|lia|].
    exists (hash_pair h1 h2). rewrite marks_app.
    rewrite (tree_fold1_app _ l1 l2 k h1 h2) by done.
    rewrite (tree_fold1_app _ _ _ k (Some (Hash h1)) (Some (Hash h2)));
      rewrite ?length_imap; done.
Qed.

Lemma hash_up_app path acc l1 l2 :
  hash_up path acc (l1 ++ l2) =
  hash_up (Z.shiftr path (Z.of_nat (length l1))) (hash_up path acc l1) l2.
Proof.
  revert path acc. induction l1 as [|x l1 IH]; intros path acc; cbn [app hash_up].
  - by rewrite Z.shiftr_0_r.
  - rewrite IH, Z.shiftr_shiftr by lia. f_equal. cbn [length]. f_equal. lia.
Qed.

Lemma shiftr_high U d P : 0 <= d -> 0 <= P < 2 ^ d -> Z.shiftr (U * 2 ^ d + P) d = U.
Proof.
  intros Hd HP. rewrite Z.shiftr_div_pow2 by done.
  rewrite Z.div_add_l by lia. rewrite Z.div_small by done. lia.
Qed.

Lemma lor_double_1 a : 0 <= a -> Z.lor (2 * a) 1 = 2 * a + 1.
Proof.
  intros Ha. destruct a as [|p|p]; [done|done|lia].
Qed.

Lemma hash_up_one path acc h :
  hash_up path acc [h] = if Z.odd path then hash_pair h acc else hash_pair acc h.
Proof.
  cbn [hash_up]. change 1 with (Z.ones 1) at 1. rewrite Z.land_ones by lia.
  change (2 ^ 1) with 2. rewrite Zmod_odd. by destruct (Z.odd path).
Qed.

(** The path of leaf [i] in a tree of [n] leaves: [d] bits with value [P]. *)
Definition is_path (n i : Z) (d : nat) (P : Z) : Prop :=
  0 <= P < 2 ^ Z.of_nat d /\
  (forall fuel acc, (d < fuel)%nat -> 0 <= acc -> acc * 2 ^ Z.of_nat d + P < 2 ^ 64 ->
     path_loop fuel acc n i = Some (acc * 2 ^ Z.of_nat d + P)) /\
  (forall fuel l, (d < fuel)%nat -> length_loop fuel l n i = Some (l + Z.of_nat d)).

Lemma is_path_leaf i : is_path 1 i 0 0.
Proof.
  split_and!; [done|cbn; lia| |].
  - intros [|fuel] acc; [lia|]. intros _ _ _. cbn. f_equal. lia.
  - intros [|fuel] l; [lia|]. intros _. cbn. f_equal. lia.
Qed.

Lemma is_path_left k n i d P :
  2 ^ Z.of_nat k < n <= 2 ^ (Z.of_nat k + 1) -> i < 2 ^ Z.of_nat k ->
  is_path (2 ^ Z.of_nat k) i d P -> is_path n i (S d) P.
Proof.
  intros Hn Hi (HP & Hp & Hl).
  assert (0 < 2 ^ Z.of_nat k) by lia.
  assert (2 ^ Z.of_nat (S d) = 2 * 2 ^ Z.of_nat d) as E.
  { rewrite Nat2Z.inj_succ. apply Z.pow_succ_r. lia. }
  rewrite <- (pivot_pow2 (Z.of_nat k) n) in * by lia.
  split_and!; [lia|lia| |].
  - intros [|fuel] acc Hf Ha Hb; [lia|]. cbn [path_loop].
    destruct (Z.leb_spec n 1); [lia|]. cbv zeta. destruct (Z.ltb_spec i (pivot n)); [|lia].
    rewrite Z.shiftl_mul_pow2 by lia. change (2 ^ 1) with 2.
    rewrite Z.mod_small by nia. rewrite Hp; [f_equal; lia|lia|lia|nia].
  - intros [|fuel] l Hf; [lia|]. cbn [length_loop].
    destruct (Z.leb_spec n 1); [lia|]. cbv zeta. destruct (Z.ltb_spec i (pivot n)); [|lia].
    rewrite Hl by lia. f_equal. lia.
Qed.

Lemma is_path_right k n i d P :
  2 ^ Z.of_nat k < n <= 2 ^ (Z.of_nat k + 1) -> 2 ^ Z.of_nat k <= i ->
  is_path (n - 2 ^ Z.of_nat k) (i - 2 ^ Z.of_nat k) d P ->
  is_path n i (S d) (2 ^ Z.of_nat d + P).
Proof.
  intros Hn Hi (HP & Hp & Hl).
  assert (0 < 2 ^ Z.of_nat k) by lia.
  assert (2 ^ Z.of_nat (S d) = 2 * 2 ^ Z.of_nat d) as E.
  { rewrite Nat2Z.inj_succ. apply Z.pow_succ_r. lia. }
  rewrite <- (pivot_pow2 (Z.of_nat k) n) in * by lia.
  split_and!; [lia|lia| |].
  - intros [|fuel] acc Hf Ha Hb; [lia|]. cbn [path_loop].
    destruct (Z.leb_spec n 1); [lia|]. cbv zeta. destruct (Z.ltb_spec i (pivot n)); [lia|].
    rewrite Z.shiftl_mul_pow2 by lia. change (2 ^ 1) with 2.
    rewrite Z.mod_small by nia. rewrite (Z.mul_comm acc), lor_double_1 by done.
    rewrite Hp; [f_equal; lia|lia|lia|nia].
  - intros [|fuel] l Hf; [lia|]. cbn [length_loop].
    destruct (Z.leb_spec n 1); [lia|]. cbv zeta. destruct (Z.ltb_spec i (pivot n)); [lia|].
    rewrite Hl by lia. f_equal. lia.
Qed.

(** Folding the marked leaves yields the wanted leaf followed by its siblings,
    and hashing these along the path yields the raw Merkle root. *)
Lemma proof_of_leaf k (l : list Digest) off i :
  (0 < length l <= 2 ^ k)%nat -> 0 <= i < Z.of_nat (length l) ->
  exists d P p0 rest raw,
    (d <= k)%nat /\ is_path (Z.of_nat (length l)) i d P /\
    l !! Z.to_nat i = Some p0 /\
    tree_fold1 combine_hash_or_proof (marks (Z.of_nat off + i) off l) =
      Some (Some (Proof_ (p0 :: rest))) /\
    length rest = d /\ tree_fold1 hash_pair l = Some raw /\
    forall U, 0 <= U -> hash_up (U * 2 ^ Z.of_nat d + P) p0 rest = raw.
Proof.
  revert l off i. induction k as [|k IH]; intros l off i Hl Hi.
  - destruct l as [|x [|]]; cbn in Hl; try lia. cbn in Hi. assert (i = 0) as -> by lia.
    exists 0%nat, 0, x, [], x. split_and!; [done|apply is_path_leaf|done| |done| |done].
    + cbn. rewrite tree_fold1_one. unfold mark_leaf.
      destruct (Z.eqb_spec (Z.of_nat (off + 0)) (Z.of_nat off + 0)); [done|lia].
    + apply tree_fold1_one.
  - destruct (decide (length l <= 2 ^ k)%nat) as [Hs|Hs].
    { destruct (IH l off i) as (d & P & p0 & rest & raw & Hd & Hrest); [lia|done|].
      exists d, P, p0, rest, raw. split; [lia|done]. }
    destruct (split_at_pow2 k l) as (l1 & l2 & -> & H1 & H2); [lia|].
    pose proof (pow2_of_nat k) as Ek. rewrite length_app in *.
    assert (2 ^ Z.of_nat k < Z.of_nat (length l1 + length l2) <= 2 ^ (Z.of_nat k + 1)) as Hn.
    { rewrite Z.add_1_r, Z.pow_succ_r; lia. }
    rewrite marks_app.
    destruct (decide (i < Z.of_nat (length l1))) as [Hlt|Hge].
    + destruct (IH l1 off i) as (d & P & p0 & rest & raw & Hd & Hp & Hlk & Hf & Hr & Ht & Hu); [lia|lia|].
      destruct (fold_only_hashes k l2 (off + length l1) (Z.of_nat off + i)) as (h2 & E2 & F2); [lia|lia|].
      exists (S d), P, p0, (rest ++ [h2]), (hash_pair raw h2). split_and!.
      * lia.
      * eapply is_path_left; [done|lia|]. by rewrite <- Ek, <- H1.
      * by apply lookup_app_l_Some.
      * by rewrite (tree_fold1_app _ _ _ k (Some (Proof_ (p0 :: rest))) (Some (Hash h2)));
          rewrite ?length_imap.
      * rewrite length_app. cbn. lia.
      * by rewrite (tree_fold1_app _ l1 l2 k raw h2).
      * intros U HU. destruct Hp as (HP & _). rewrite Nat2Z.inj_succ, Z.pow_succ_r by lia.
        replace (U * (2 * 2 ^ Z.of_nat d) + P) with ((2 * U) * 2 ^ Z.of_nat d + P) by lia.
        rewrite hash_up_app, Hr, shiftr_high, Hu, hash_up_one by lia.
        by rewrite Z.odd_mul.
    + destruct (fold_only_hashes k l1 off (Z.of_nat off + i)) as (h1 & E1 & F1); [lia|lia|].
      destruct (IH l2 (off + length l1)%nat (i - Z.of_nat (length l1)))
        as (d & P & p0 & rest & raw & Hd & Hp & Hlk & Hf & Hr & Ht & Hu); [lia|lia|].
      replace (Z.of_nat (off + length l1) + (i - Z.of_nat (length l1))) with (Z.of_nat off + i) in Hf by lia.
      exists (S d), (2 ^ Z.of_nat d + P), p0, (rest ++ [h1]), (hash_pair h1 raw). split_and!.
      * lia.
      * eapply is_path_right; [done|lia|].
        replace (Z.of_nat (length l1 + length l2) - 2 ^ Z.of_nat k) with (Z.of_nat (length l2)) by lia.
        by replace (2 ^ Z.of_nat k) with (Z.of_nat (length l1)) by lia.
      * rewrite lookup_app_r by lia. rewrite <- Hlk. f_equal. lia.
      * by rewrite (tree_fold1_app _ _ _ k (Some (Hash h1)) (Some (Proof_ (p0 :: rest))));
          rewrite ?length_imap.
      * rewrite length_app. cbn. lia.
      * by rewrite (tree_fold1_app _ l1 l2 k h1 raw).
      * intros U HU. destruct Hp as (HP & _). rewrite Nat2Z.inj_succ, Z.pow_succ_r by lia.
        replace (U * (2 * 2 ^ Z.of_nat d) + (2 ^ Z.of_nat d + P))
          with ((2 * U + 1) * 2 ^ Z.of_nat d + P) by lia.
        rewrite hash_up_app, Hr, shiftr_high, Hu, hash_up_one by lia.
        by rewrite Z.add_comm, Z.odd_add_mul_2.
Qed.

Lemma marks_0 idx (l : list Digest) : marks idx 0 l = imap (mark_leaf idx) l.
Proof. by apply imap_ext. Qed.

Lemma new_complete (leaves : list Digest) i :
  0 <= i < Z.of_nat (length leaves) -> Z.of_nat (length leaves) <= uint_max 64 ->
  exists p, IndexedMerkleProof_new leaves i = Ok p /\
    verify p = Ok tt /\ root_hash p = Some (hash_merkle_tree leaves) /\
    head (merkle_proof p) = leaves !! Z.to_nat i /\
    count p = Z.of_nat (length leaves) /\ index p = i.
Proof.
  intros Hi Hmax. unfold uint_max in Hmax.
  assert ((0 < length leaves <= 2 ^ 64)%nat) as Hl.
  { split; [lia|]. apply Nat2Z.inj_le. rewrite pow2_of_nat. change (Z.of_nat 64) with 64. lia. }
  destruct (proof_of_leaf 64 leaves 0 i Hl Hi)
    as (d & P & p0 & rest & raw & Hd & (HP & Hp & Hpl) & Hlk & Hf & Hr & Ht & Hu).
  rewrite marks_0 in Hf. cbn [Nat.add Z.of_nat] in Hf. rewrite Z.add_0_l in Hf.
  eexists. unfold IndexedMerkleProof_new.
  destruct (Z.ltb_spec (uint_max 64) (Z.of_nat (length leaves))); [unfold uint_max in *; lia|].
  rewrite Hf. split; [done|]. split_and!; [| |done|done|done].
  - unfold verify, compute_expected_proof_length. cbn [index count merkle_proof].
    destruct (Z.leb_spec (Z.of_nat (length leaves)) i); [lia|].
    destruct (Z.eqb_spec (Z.of_nat (length leaves)) 0); [lia|].
    rewrite Hpl by (unfold loop_fuel; lia). cbn [length].
    destruct (Z.eqb_spec (Z.of_nat (S (length rest))) (1 + Z.of_nat d)); [done|lia].
  - unfold root_hash, hash_merkle_tree. cbn [index count merkle_proof]. rewrite Ht.
    assert (2 ^ Z.of_nat d <= 2 ^ 64) by (apply Z.pow_le_mono_r; lia).
    rewrite Hp by (unfold loop_fuel; lia). cbn [mbind option_bind].
    by rewrite Hu.
Qed.

(** Every index past the last leaf is refused. *)
Lemma new_out_of_bounds (leaves : list Digest) i :
  Z.of_nat (length leaves) <= i -> Z.of_nat (length leaves) <= uint_max 64 ->
  IndexedMerkleProof_new leaves i = Err (IndexOutOfBounds (Z.of_nat (length leaves)) i).
Proof.
  intros Hi Hmax. unfold IndexedMerkleProof_new.
  destruct (Z.ltb_spec (uint_max 64) (Z.of_nat (length leaves))); [lia|].
  destruct (decide (leaves = [])) as [->|Hne]; [cbn [imap]; by rewrite tree_fold1_nil|].
  destruct (fold_only_hashes 64 leaves 0 i) as (h & _ & F); [|lia|].
  - destruct leaves; [done|]. cbn [length] in *. split; [lia|].
    apply Nat2Z.inj_le. rewrite pow2_of_nat. unfold uint_max in *. change (Z.of_nat 64) with 64. lia.
  - rewrite marks_0 in F. by rewrite F.
Qed.

(** C28 For every list of at most [u64::MAX] leaves and every index,
    [IndexedMerkleProof::new] never reaches [unreachable!()]: an index past the
    last leaf is reported as [IndexOutOfBounds], and for a leaf that exists the
    proof built starts with that leaf, passes [verify], and [root_hash]
    recomputes exactly the digest [Digest::hash_merkle_tree] gives the leaves. *)
Theorem indexed_merkle_proof_complete (leaves : list Digest) i :
  0 <= i -> Z.of_nat (length leaves) <= uint_max 64 ->
  match leaves !! Z.to_nat i with
  | None => IndexedMerkleProof_new leaves i = Err (IndexOutOfBounds (Z.of_nat (length leaves)) i)
  | Some leaf =>
      exists p, IndexedMerkleProof_new leaves i = Ok p /\
        count p = Z.of_nat (length leaves) /\ index p = i /\
        head (merkle_proof p) = Some leaf /\ verify p = Ok tt /\
        root_hash p = Some (hash_merkle_tree leaves)
  end.
Proof.
  intros Hi Hmax. destruct (leaves !! Z.to_nat i) as [leaf|] eqn:E.
  - apply lookup_lt_Some in E as Hlt.
    destruct (new_complete leaves i) as (p & ? & ? & ? & ? & ? & ?); [lia|done|].
    exists p. by rewrite <- E.
  - apply lookup_ge_None in E. apply new_out_of_bounds; [lia|done].
Qed.

(** *** Soundness: a root determines the leaves its proofs show *)

(** The byte strings hashed while a root is recomputed from a proof. *)
Fixpoint up_preimages (path : Z) (acc : Digest) (hashes : list Digest) : list bytes :=
  match hashes with
  | [] => []
  | h :: hashes' =>
      let (l, r) := if Z.land path 1 =? 1 then (h, acc) else (acc, h) in
      (digest_value l ++ digest_value r) ::
      up_preimages (Z.shiftr path 1) (hash_pair l r) hashes'
  end.

Definition merkle_root_preimage (n : Z) (root : Digest) : bytes :=
  replicate CHUNK_SIZE_BYTES Byte.x00 ++
  le_split U64_SERIALIZED_LENGTH n ++ digest_value root.

Definition root_preimages (p : IndexedMerkleProof) : list bytes :=
  match merkle_proof p, path_loop loop_fuel 0 (count p) (index p) with
  | leaf :: hashes, Some path =>
      merkle_root_preimage (count p) (hash_up path leaf hashes) :: up_preimages path leaf hashes
  | _, _ => []
  end.

(** No two different strings of [l] have the same hash. *)
Definition collision_free (l : list bytes) : Prop :=
  forall x y, x ∈ l -> y ∈ l -> blake2b x = blake2b y -> x = y.

(** Decided on the table of hashes, each computed once. *)
Definition collision_freeb (l : list bytes) : bool :=
  let table := (fun x => (x, blake2b x)) <$> l in
  forallb (fun p => forallb (fun q => implb (bool_decide (p.2 = q.2)) (bool_decide (p.1 = q.1))) table)
    table.

Lemma collision_freeb_spec l : collision_freeb l = true -> collision_free l.
Proof.
  unfold collision_freeb. rewrite forallb_forall. intros F x y Hx Hy E.
  assert (forall z, z ∈ l -> In (z, blake2b z) ((fun x => (x, blake2b x)) <$> l)) as T.
  { intros z Hz. apply list_elem_of_In, list_elem_of_fmap. by exists z. }
  specialize (F _ (T x Hx)). rewrite forallb_forall in F. specialize (F _ (T y Hy)). cbn in F.
  rewrite bool_decide_eq_true_2 in F by done. cbn in F. by apply bool_decide_eq_true in F.
Qed.

Lemma collision_free_sublist l k : l ⊆ k -> collision_free k -> collision_free l.
Proof. intros Hs Hc x y Hx Hy. apply Hc; by apply Hs. Qed.

Lemma hash_up_valid path acc l : valid acc -> valid (hash_up path acc l).
Proof.
  revert path acc. induction l as [|h l IH]; intros path acc Ha; cbn; [done|].
  apply IH. by destruct (_ =? _); apply blake2b_length.
Qed.

Lemma hash_up_inj path a b l k :
  length l = length k -> valid a -> valid b -> Forall valid l -> Forall valid k ->
  collision_free (up_preimages path a l ++ up_preimages path b k) ->
  hash_up path a l = hash_up path b k -> a = b /\ l = k.
Proof.
  revert path a b k. induction l as [|x l IH]; intros path a b [|y k] Hlen Ha Hb Hl Hk Hc E;
    try done.
  inversion Hl; inversion Hk; simplify_eq. cbn [hash_up up_preimages] in *.
  assert (forall u v u' v' : Digest, valid u -> valid u' ->
    digest_value u ++ digest_value v = digest_value u' ++ digest_value v' -> u = u' /\ v = v') as Hinj.
  { intros [u] [v] [u'] [v'] Hu Hu' E'. apply app_inj_1 in E' as [Eu Ev]; cbn in *; [by subst|].
    by rewrite Hu, Hu'. }
  destruct (Z.land path 1 =? 1).
  all: apply IH in E as [E ->]; try done; try (by apply blake2b_length).
  all: try (eapply collision_free_sublist; [|exact Hc]; set_solver).
  all: injection E as E; apply Hc in E; [|set_solver..].
  all: apply Hinj in E as [-> ->]; done.
Qed.

Lemma is_path_exists k n i :
  0 <= i < n -> n <= 2 ^ Z.of_nat k -> exists d P, (d <= k)%nat /\ is_path n i d P.
Proof.
  revert n i. induction k as [|k IH]; intros n i Hi Hn.
  - assert (n = 1) as -> by (cbn in Hn; lia). exists 0%nat, 0. split; [lia|apply is_path_leaf].
  - destruct (decide (n <= 2 ^ Z.of_nat k)) as [Hs|Hs].
    { destruct (IH n i) as (d & P & ? & ?); [done|done|]. exists d, P. split; [lia|done]. }
    rewrite Nat2Z.inj_succ in Hn. rewrite <- Z.add_1_r in Hn.
    assert (2 ^ (Z.of_nat k + 1) = 2 * 2 ^ Z.of_nat k) by (rewrite Z.add_1_r, Z.pow_succ_r; lia).
    destruct (decide (i < 2 ^ Z.of_nat k)).
    + destruct (IH (2 ^ Z.of_nat k) i) as (d & P & ? & ?); [lia|lia|].
      exists (S d), P. split; [lia|]. apply (is_path_left k); [lia|done|done].
    + destruct (IH (n - 2 ^ Z.of_nat k) (i - 2 ^ Z.of_nat k)) as (d & P & ? & ?); [lia|lia|].
      exists (S d), (2 ^ Z.of_nat d + P). split; [lia|]. apply (is_path_right k); [lia|lia|done].
Qed.

(** The loops over a 64-bit count end within [loop_fuel] iterations. *)
Lemma path_loop_total n i :
  0 <= i < n -> n <= uint_max 64 ->
  exists d P, (d < loop_fuel)%nat /\ path_loop loop_fuel 0 n i = Some P /\
    length_loop loop_fuel 1 n i = Some (1 + Z.of_nat d).
Proof.
  intros Hi Hn. unfold uint_max in Hn.
  destruct (is_path_exists 64 n i) as (d & P & Hd & HP & Hp & Hl);
    [done|change (Z.of_nat 64) with 64; lia|].
  exists d, P. assert (2 ^ Z.of_nat d <= 2 ^ 64) by (apply Z.pow_le_mono_r; lia).
  split_and!; [unfold loop_fuel; lia| |apply Hl; unfold loop_fuel; lia].
  rewrite Hp by (unfold loop_fuel; lia). f_equal.
Qed.

(** C29 Merkle proofs bind: two proofs that [verify] for the same index and leaf
    count and recompute the same root are the same proof, in particular they
    show the same leaf, unless two of the byte strings hashed on the way to the
    two roots are a BLAKE2b collision. *)
Theorem indexed_merkle_proof_sound (p q : IndexedMerkleProof) :
  count p <= uint_max 64 -> 0 <= index p ->
  Forall valid (merkle_proof p) -> Forall valid (merkle_proof q) ->
  count p = count q -> index p = index q ->
  verify p = Ok tt -> verify q = Ok tt ->
  root_hash p = root_hash q ->
  collision_free (root_preimages p ++ root_preimages q) ->
  merkle_proof p = merkle_proof q.
Proof.
  destruct p as [i n lp], q as [i' n' lq]. cbn [index count merkle_proof].
  intros Hn Hi Vp Vq <- <-.
  unfold verify, compute_expected_proof_length, root_hash, root_preimages.
  cbn [index count merkle_proof].
  destruct (Z.leb_spec n i); [done|]. destruct (Z.eqb_spec n 0); [lia|].
  destruct (path_loop_total n i) as (d & P & Hd & Hp & Hl); [lia|done|].
  rewrite Hp, Hl. cbn [mbind option_bind].
  destruct (Z.eqb_spec (Z.of_nat (length lp)) (1 + Z.of_nat d)) as [Lp|]; [|done].
  destruct (Z.eqb_spec (Z.of_nat (length lq)) (1 + Z.of_nat d)) as [Lq|]; [|done].
  intros _ _. destruct lp as [|a lp]; [cbn in Lp; lia|].
  destruct lq as [|b lq]; [cbn in Lq; lia|]. intros [= E] Hc.
  inversion Vp; inversion Vq; subst.
  assert (hash_up P a lp = hash_up P b lq) as E'.
  { apply (Hc (merkle_root_preimage n (hash_up P a lp)) (merkle_root_preimage n (hash_up P b lq))) in E;
      [|rewrite elem_of_app; left; constructor|rewrite elem_of_app; right; constructor].
    apply app_inv_head, app_inv_head in E.
    by destruct (hash_up P a lp), (hash_up P b lq); cbn in E; subst. }
  apply hash_up_inj in E' as [-> ->]; [done|cbn [length] in *; lia|done..|].
  eapply collision_free_sublist; [|exact Hc].
  intros x. rewrite !elem_of_app. intros [?|?]; [left|right]; by constructor.
Qed.

End MerkleProofs.

(** ** Chunked data *)

Lemma chunks_fuel_concat {A} fuel n (l : list A) :
  (0 < n)%nat -> (length l <= fuel)%nat -> List.concat (chunks_fuel fuel n l) = l.
Proof.
  intros Hn. revert l. induction fuel as [|fuel IH]; intros [|x l] Hl; cbn in Hl; try lia; try done.
  cbn [chunks_fuel List.concat]. rewrite IH; [apply take_drop|].
  rewrite length_drop. cbn. lia.
Qed.

Lemma chunks_concat {A} n (l : list A) : (0 < n)%nat -> List.concat (chunks n l) = l.
Proof. intros Hn. by apply chunks_fuel_concat. Qed.

Lemma chunks_bounded {A} n (l : list A) :
  Forall (fun c => length c <= n)%nat (chunks n l).
Proof.
  unfold chunks. generalize (length l) at 1. intros fuel. revert l.
  induction fuel as [|fuel IH]; intros [|x l]; cbn [chunks_fuel]; constructor; [|apply IH].
  rewrite length_take. lia.
Qed.

Lemma chunks_nonempty {A} n (l : list A) : l <> [] -> chunks n l <> [].
Proof. by destruct l. Qed.

Section Chunks.
Context `{Blake2b} `{TreeFold1}.


End Chunks.

(** ** Reference instances

    A left-full tree fold and a 32-byte polynomial checksum: they show that the
    interfaces of the third-party code can be met, and let the definitions run. *)

Equations? tree_fold_ref {A} (f : A -> A -> A) (l : list A) : option A by wf (length l) lt :=
  tree_fold_ref f [] := None;
  tree_fold_ref f [x] := Some x;
  tree_fold_ref f (x :: y :: l) :=
    match tree_fold_ref f (take (2 ^ Nat.log2 (S (length l))) (x :: y :: l)),
          tree_fold_ref f (drop (2 ^ Nat.log2 (S (length l))) (x :: y :: l)) with
    | Some a, Some b => Some (f a b)
    | _, _ => None
    end.
Proof.
  all: pose proof (Nat.log2_spec (S (length l)) ltac:(lia)) as [Hs _].
  all: pose proof (Nat.pow_nonzero 2 (Nat.log2 (S (length l)))).
  - rewrite length_take. cbn [length]. lia.
  - rewrite length_drop. cbn [length]. lia.
Qed.

#[export, refine] Instance tree_fold1_ref : TreeFold1 := {| tree_fold1 := @tree_fold_ref |}.
Proof.
  - done.
  - done.
  - intros A f l1 l2 k a b H1 H2 E1 E2.
    assert (1 <= 2 ^ k)%nat by (apply Nat.neq_0_lt_0, Nat.pow_nonzero; lia).
    remember (l1 ++ l2) as l eqn:El.
    assert (length l = length l1 + length l2)%nat as Hl by (by rewrite El, length_app).
    destruct l as [|x [|y l]]; cbn [length] in Hl; [lia|lia|].
    simp tree_fold_ref. cbv zeta.
    assert (Nat.log2 (S (length l)) = k) as ->.
    { apply Nat.log2_unique; [lia|]. rewrite Nat.pow_succ_r'. lia. }
    rewrite El, <- H1, take_app_length, drop_app_length, E1, E2. done.
Defined.

Definition checksum (data : bytes) : bytes :=
  le_split 32 (foldl (fun acc b => (acc * 1000003 + byte.unsigned b + 1) mod 2 ^ 64) 7 data).

#[export, refine] Instance checksum_blake2b : Blake2b :=
  {| blake2b := checksum; CHUNK_SIZE_BYTES := 10 |}.
Proof.
  - intros data. apply length_le_split.
  - lia.
Defined.

(** ** Witnesses *)

(** Seven leaves, the proof of the third. *)
Definition sample_leaves : list Digest := hash <$> ([[n2b 1]; [n2b 2]; [n2b 3]; [n2b 4]; [n2b 5]; [n2b 6]; [n2b 7]] : list bytes).
Definition sample_proof : IndexedMerkleProof :=
  match IndexedMerkleProof_new sample_leaves 2 with
  | Ok p => p
  | _ => {| index := 0; count := 0; merkle_proof := [] |}
  end.

Lemma indexed_merkle_proof_complete_witness :
  exists p, IndexedMerkleProof_new sample_leaves 2 = Ok p /\ verify p = Ok tt /\
    root_hash p = Some (hash_merkle_tree sample_leaves) /\ length (merkle_proof p) = 4%nat.
Proof.
  pose proof (indexed_merkle_proof_complete sample_leaves 2) as W.
  destruct W as (p & Hp & _ & _ & _ & Hv & Hr); [lia|by vm_compute|].
  exists p. split_and!; try done.
  assert (sample_proof = p) as <- by (unfold sample_proof; by rewrite Hp).
  by vm_compute.
Defined.

(** The same proof, as a peer receives it: parsed from its serialisation. *)
Definition received_proof : IndexedMerkleProof :=
  match serialize sample_proof ≫= deserialize with
  | Ok p => p
  | _ => {| index := 0; count := 0; merkle_proof := [] |}
  end.

Lemma indexed_merkle_proof_sound_witness :
  verify received_proof = Ok tt /\ root_hash sample_proof = root_hash received_proof /\
  merkle_proof sample_proof = merkle_proof received_proof.
Proof.
  split; [vm_compute; reflexivity|]. split; [vm_compute; reflexivity|].
  apply (indexed_merkle_proof_sound sample_proof received_proof).
  - by vm_compute.
  - by vm_compute.
  - apply (bool_decide_unpack _). vm_compute. exact I.
  - apply (bool_decide_unpack _). vm_compute. exact I.
  - vm_compute. reflexivity.
  - vm_compute. reflexivity.
  - vm_compute. reflexivity.
  - vm_compute. reflexivity.
  - vm_compute. reflexivity.
  - apply collision_freeb_spec. vm_compute. reflexivity.
Defined.

