(* ===== verification/KeyTypes.v ===== *)
(** * Keys of the global state: [types/src/key.rs] with [access_rights.rs],
    [uref.rs], [era_id.rs], [account/account_hash.rs] and the address newtypes
    of [transfer.rs].

    Data types, their bytesrepr codecs and laws, the access-rights lattice, the
    per-context table of rights, and the fact the trie relies on: the
    serialisations of two keys with the same tag have the same length. *)

From S2P Require Import Prelude Bytesrepr Hashing.
Local Open Scope Z_scope.

(** ** Fixed-size arrays and their newtypes *)

(** [[u8; N]]. *)
Record array (N : nat) := MkArray { array_bytes : bytes }.
Arguments MkArray {N} _.
Arguments array_bytes {N} _.

#[export] Instance array_eq_dec N : EqDecision (array N).
Proof. solve_decision. Defined.
#[export] Instance array_countable N : Countable (array N).
Proof. by refine (inj_countable' array_bytes MkArray _); intros []. Defined.
#[export] Instance array_ToBytes N : ToBytes (array N) := {|
  to_bytes a := array_to_bytes (array_bytes a); into_bytes a := array_to_bytes (array_bytes a);
  serialized_length _ := N; write_bytes a writer := Ok (writer ++ array_bytes a) |}.
#[export] Instance array_FromBytes N : FromBytes (array N) := {|
  from_bytes bs := '(arr, rem) ← array_from_bytes N bs; mret (MkArray arr, rem);
  from_vec bs := '(arr, rem) ← array_from_bytes N bs; mret (MkArray arr, rem) |}.
#[export] Instance array_Valid N : Valid (array N) := fun a => length (array_bytes a) = N.
#[export] Instance array_Bytesrepr N : Bytesrepr (array N).
Proof. by apply (array_newtype_bytesrepr N MkArray array_bytes); [intros []|..]. Qed.

Definition KEY_HASH_LENGTH : nat := 32.
Definition UREF_ADDR_LENGTH : nat := 32.
Definition ACCOUNT_HASH_LENGTH : nat := 32.
Definition TRANSFER_ADDR_LENGTH : nat := 32.
Definition DEPLOY_HASH_LENGTH : nat := 32.
Definition KEY_DICTIONARY_LENGTH : nat := 32.

Abbreviation HashAddr := (array KEY_HASH_LENGTH).
Abbreviation URefAddr := (array UREF_ADDR_LENGTH).
Abbreviation DictionaryAddr := (array KEY_DICTIONARY_LENGTH).

Record AccountHash := MkAccountHash { account_hash_value : bytes }.
Record TransferAddr := MkTransferAddr { transfer_addr_value : bytes }.
Record DeployHash := MkDeployHash { deploy_hash_value : bytes }.

Definition AccountHash_to_bytes (a : AccountHash) : bres bytes := array_to_bytes (account_hash_value a).
Definition AccountHash_write_bytes (a : AccountHash) (writer : bytes) : bres bytes :=
  Ok (writer ++ account_hash_value a).
Definition AccountHash_from_bytes (bs : bytes) : bres (AccountHash * bytes) :=
  '(arr, rem) ← array_from_bytes ACCOUNT_HASH_LENGTH bs; mret (MkAccountHash arr, rem).
Definition TransferAddr_to_bytes (a : TransferAddr) : bres bytes := array_to_bytes (transfer_addr_value a).
Definition TransferAddr_write_bytes (a : TransferAddr) (writer : bytes) : bres bytes :=
  Ok (writer ++ transfer_addr_value a).
Definition TransferAddr_from_bytes (bs : bytes) : bres (TransferAddr * bytes) :=
  '(arr, rem) ← array_from_bytes TRANSFER_ADDR_LENGTH bs; mret (MkTransferAddr arr, rem).
Definition DeployHash_to_bytes (a : DeployHash) : bres bytes := array_to_bytes (deploy_hash_value a).
Definition DeployHash_write_bytes (a : DeployHash) (writer : bytes) : bres bytes :=
  Ok (writer ++ deploy_hash_value a).
Definition DeployHash_from_bytes (bs : bytes) : bres (DeployHash * bytes) :=
  '(arr, rem) ← array_from_bytes DEPLOY_HASH_LENGTH bs; mret (MkDeployHash arr, rem).

#[export] Instance AccountHash_eq_dec : EqDecision AccountHash.
Proof. solve_decision. Defined.
#[export] Instance TransferAddr_eq_dec : EqDecision TransferAddr.
Proof. solve_decision. Defined.
#[export] Instance DeployHash_eq_dec : EqDecision DeployHash.
Proof. solve_decision. Defined.
#[export] Instance AccountHash_countable : Countable AccountHash.
Proof. by refine (inj_countable' account_hash_value MkAccountHash _); intros []. Defined.
#[export] Instance TransferAddr_countable : Countable TransferAddr.
Proof. by refine (inj_countable' transfer_addr_value MkTransferAddr _); intros []. Defined.
#[export] Instance DeployHash_countable : Countable DeployHash.
Proof. by refine (inj_countable' deploy_hash_value MkDeployHash _); intros []. Defined.

#[export] Instance AccountHash_ToBytes : ToBytes AccountHash := {|
  to_bytes := AccountHash_to_bytes; into_bytes := AccountHash_to_bytes;
  serialized_length _ := ACCOUNT_HASH_LENGTH; write_bytes := AccountHash_write_bytes |}.
#[export] Instance AccountHash_FromBytes : FromBytes AccountHash :=
  default_FromBytes AccountHash_from_bytes.
#[export] Instance AccountHash_Valid : Valid AccountHash := fun a =>
  length (account_hash_value a) = ACCOUNT_HASH_LENGTH.
#[export] Instance TransferAddr_ToBytes : ToBytes TransferAddr := {|
  to_bytes := TransferAddr_to_bytes; into_bytes := TransferAddr_to_bytes;
  serialized_length _ := TRANSFER_ADDR_LENGTH; write_bytes := TransferAddr_write_bytes |}.
#[export] Instance TransferAddr_FromBytes : FromBytes TransferAddr :=
  default_FromBytes TransferAddr_from_bytes.
#[export] Instance TransferAddr_Valid : Valid TransferAddr := fun a =>
  length (transfer_addr_value a) = TRANSFER_ADDR_LENGTH.
#[export] Instance DeployHash_ToBytes : ToBytes DeployHash := {|
  to_bytes := DeployHash_to_bytes; into_bytes := DeployHash_to_bytes;
  serialized_length _ := DEPLOY_HASH_LENGTH; write_bytes := DeployHash_write_bytes |}.
#[export] Instance DeployHash_FromBytes : FromBytes DeployHash :=
  default_FromBytes DeployHash_from_bytes.
#[export] Instance DeployHash_Valid : Valid DeployHash := fun a =>
  length (deploy_hash_value a) = DEPLOY_HASH_LENGTH.

#[export] Instance AccountHash_Bytesrepr : Bytesrepr AccountHash.
Proof.
  by apply (array_newtype_bytesrepr ACCOUNT_HASH_LENGTH MkAccountHash account_hash_value); [intros []|..].
Qed.
#[export] Instance TransferAddr_Bytesrepr : Bytesrepr TransferAddr.
Proof.
  by apply (array_newtype_bytesrepr TRANSFER_ADDR_LENGTH MkTransferAddr transfer_addr_value); [intros []|..].
Qed.
#[export] Instance DeployHash_Bytesrepr : Bytesrepr DeployHash.
Proof.
  by apply (array_newtype_bytesrepr DEPLOY_HASH_LENGTH MkDeployHash deploy_hash_value); [intros []|..].
Qed.

(** ** [EraId] *)

Record EraId := MkEraId { era_value : Z }.

#[export] Instance EraId_eq_dec : EqDecision EraId.
Proof. solve_decision. Defined.
#[export] Instance EraId_countable : Countable EraId.
Proof. by refine (inj_countable' era_value MkEraId _); intros []. Defined.
#[export] Instance EraId_ord : Ord EraId := fun a b => ord_cmp (era_value a) (era_value b).

Definition EraId_MAX : EraId := MkEraId (uint_max 64).
(** [n .. n + k] as Rust iterates it; the sum overflows as [+] does. *)
Definition EraId_iter {E} (e : EraId) (num_eras : Z) : res E (list EraId) :=
  stop ← u64_add (era_value e) num_eras;
  mret (MkEraId <$> seqZ (era_value e) (stop - era_value e)).
Definition EraId_iter_inclusive {E} (e : EraId) (num_eras : Z) : res E (list EraId) :=
  last ← u64_add (era_value e) num_eras;
  mret (MkEraId <$> seqZ (era_value e) (last + 1 - era_value e)).
Definition EraId_successor (e : EraId) : EraId := MkEraId (saturating_add 64 (era_value e) 1).
Definition EraId_checked_add (e : EraId) (x : Z) : option EraId :=
  MkEraId <$> checked_add 64 (era_value e) x.
Definition EraId_checked_sub (e : EraId) (x : Z) : option EraId :=
  MkEraId <$> checked_sub (era_value e) x.
Definition EraId_saturating_sub (e : EraId) (x : Z) : EraId :=
  MkEraId (saturating_sub (era_value e) x).
Definition EraId_saturating_add (e : EraId) (rhs : Z) : EraId :=
  MkEraId (saturating_add 64 (era_value e) rhs).
Definition EraId_saturating_mul (e : EraId) (x : Z) : EraId :=
  MkEraId (saturating_mul 64 (era_value e) x).
Definition EraId_is_genesis (e : EraId) : bool := era_value e =? 0.
Definition EraId_add {E} (e : EraId) (x : Z) : res E EraId := MkEraId <$> u64_add (era_value e) x.
Definition EraId_sub {E} (e : EraId) (x : Z) : res E EraId := MkEraId <$> u64_sub (era_value e) x.

Definition EraId_to_bytes (e : EraId) : bres bytes := to_bytes (U64 (era_value e)).
Definition EraId_write_bytes (e : EraId) (writer : bytes) : bres bytes :=
  write_bytes (U64 (era_value e)) writer.
Definition EraId_serialized_length (e : EraId) : nat := serialized_length (U64 (era_value e)).
Definition EraId_from_bytes (bs : bytes) : bres (EraId * bytes) :=
  '(id_value, remainder) ← from_bytes bs; mret (MkEraId (u64_val id_value), remainder).

#[export] Instance EraId_ToBytes : ToBytes EraId := {|
  to_bytes := EraId_to_bytes; into_bytes := EraId_to_bytes;
  serialized_length := EraId_serialized_length; write_bytes := EraId_write_bytes |}.
#[export] Instance EraId_FromBytes : FromBytes EraId := default_FromBytes EraId_from_bytes.
#[export] Instance EraId_Valid : Valid EraId := fun e => valid (U64 (era_value e)).
#[export] Instance EraId_Bytesrepr : Bytesrepr EraId.
Proof.
  struct_codec_by ltac:(unfold EraId_to_bytes, EraId_write_bytes, EraId_serialized_length,
    EraId_from_bytes, EraId_Valid).
Qed.

(** ** [AccessRights]: a set of three flags in a byte *)

Record AccessRights := MkAccessRights { bits : Z }.

#[export] Instance AccessRights_eq_dec : EqDecision AccessRights.
Proof. solve_decision. Defined.
#[export] Instance AccessRights_countable : Countable AccessRights.
Proof. by refine (inj_countable' bits MkAccessRights _); intros []. Defined.

Definition NONE : AccessRights := MkAccessRights 0.
Definition READ : AccessRights := MkAccessRights 1.
Definition WRITE : AccessRights := MkAccessRights 2.
Definition ADD : AccessRights := MkAccessRights 4.
Definition READ_ADD : AccessRights := MkAccessRights (Z.lor (bits READ) (bits ADD)).
Definition READ_WRITE : AccessRights := MkAccessRights (Z.lor (bits READ) (bits WRITE)).
Definition ADD_WRITE : AccessRights := MkAccessRights (Z.lor (bits ADD) (bits WRITE)).
Definition READ_ADD_WRITE : AccessRights :=
  MkAccessRights (Z.lor (Z.lor (bits READ) (bits ADD)) (bits WRITE)).

(** The operations the [bitflags!] macro generates. *)
Definition from_bits (b : Z) : option AccessRights :=
  if Z.ldiff b (bits READ_ADD_WRITE) =? 0 then Some (MkAccessRights b) else None.
Definition union (a b : AccessRights) : AccessRights := MkAccessRights (Z.lor (bits a) (bits b)).
Definition intersection (a b : AccessRights) : AccessRights := MkAccessRights (Z.land (bits a) (bits b)).
Definition difference (a b : AccessRights) : AccessRights := MkAccessRights (Z.ldiff (bits a) (bits b)).
Definition contains (a b : AccessRights) : bool := Z.land (bits a) (bits b) =? bits b.

Definition is_readable (a : AccessRights) : bool := bool_decide (intersection a READ = READ).
Definition is_writeable (a : AccessRights) : bool := bool_decide (intersection a WRITE = WRITE).
Definition is_addable (a : AccessRights) : bool := bool_decide (intersection a ADD = ADD).
Definition is_none (a : AccessRights) : bool := bool_decide (a = NONE).

Definition ACCESS_RIGHTS_SERIALIZED_LENGTH : nat := 1.
Definition AccessRights_to_bytes (a : AccessRights) : bres bytes := u8_to_bytes (byte.of_Z (bits a)).
Definition AccessRights_write_bytes (a : AccessRights) (writer : bytes) : bres bytes :=
  Ok (writer ++ [byte.of_Z (bits a)]).
Definition AccessRights_from_bytes (bs : bytes) : bres (AccessRights * bytes) :=
  '(id, rem) ← u8_from_bytes bs;
  match from_bits (byte.unsigned id) with
  | Some rights => Ok (rights, rem)
  | None => Err Formatting
  end.

#[export] Instance AccessRights_ToBytes : ToBytes AccessRights := {|
  to_bytes := AccessRights_to_bytes; into_bytes := AccessRights_to_bytes;
  serialized_length _ := ACCESS_RIGHTS_SERIALIZED_LENGTH; write_bytes := AccessRights_write_bytes |}.
#[export] Instance AccessRights_FromBytes : FromBytes AccessRights :=
  default_FromBytes AccessRights_from_bytes.
(** A value of the type has no bit outside the declared flags. *)
#[export] Instance AccessRights_Valid : Valid AccessRights := fun a => 0 <= bits a < 8.

Lemma from_bits_spec b r :
  0 <= b < 256 -> from_bits b = Some r <-> r = MkAccessRights b /\ 0 <= b < 8.
Proof.
  intros Hb. unfold from_bits.
  assert (Z.ldiff b (bits READ_ADD_WRITE) = 8 * (b / 8)) as ->.
  { change (bits READ_ADD_WRITE) with (Z.ones 3). rewrite Z.ldiff_ones_r by lia.
    rewrite Z.shiftr_div_pow2, Z.shiftl_mul_pow2 by lia. change (2 ^ 3) with 8. lia. }
  pose proof (Z.div_mod b 8). pose proof (Z.mod_pos_bound b 8).
  destruct (Z.eqb_spec (8 * (b / 8)) 0); split.
  - intros [= <-]. split; [done|lia].
  - by intros [-> _].
  - done.
  - intros [_ ?]. rewrite Z.div_small in *; lia.
Qed.

#[export] Instance AccessRights_Bytesrepr : Bytesrepr AccessRights.
Proof.
  apply struct_bytesrepr; unfold AccessRights_to_bytes, AccessRights_from_bytes, u8_to_bytes.
  - intros [b] bs rest Hv [= <-]. cbn. destruct Hv as [? ?]. cbn in *.
    rewrite byte.unsigned_of_Z. unfold byte.wrap. rewrite Z.mod_small by lia.
    destruct (from_bits b) eqn:E.
    + apply from_bits_spec in E as [-> _]; [done|lia].
    + exfalso. assert (from_bits b = Some (MkAccessRights b)) by (apply from_bits_spec; [lia|done]).
      congruence.
  - by intros a bs _ [= <-].
  - by intros a bs w _ [= <-].
  - by eexists.
  - intros bs a rest Hr. apply bind_Ok in Hr as ([id rem] & ->%u8_from_bytes_Ok & Hr).
    pose proof (byte.unsigned_range id).
    destruct (from_bits _) as [r|] eqn:E; [|done]. injection Hr as -> ->.
    apply from_bits_spec in E as [-> ?]; [|lia]. split; [done|by exists [id]].
  - intros bs a rest more Hr. apply bind_Ok in Hr as ([id rem] & Hu & Hr). extend_step.
    destruct (from_bits _); [|done]. by injection Hr as -> ->.
Qed.

(** ** [URef] *)

Record URef := MkURef { addr : URefAddr; access_rights : AccessRights }.

#[export] Instance URef_eq_dec : EqDecision URef.
Proof. solve_decision. Defined.
#[export] Instance URef_countable : Countable URef.
Proof.
  by refine (inj_countable' (fun u => (addr u, access_rights u)) (fun '(a, r) => MkURef a r) _);
    intros [].
Defined.

Definition with_access_rights (u : URef) (r : AccessRights) : URef := MkURef (addr u) r.
Definition remove_access_rights (u : URef) : URef := MkURef (addr u) NONE.
Definition URef_is_readable (u : URef) : bool := is_readable (access_rights u).
Definition URef_is_writeable (u : URef) : bool := is_writeable (access_rights u).
Definition URef_is_addable (u : URef) : bool := is_addable (access_rights u).
Definition into_read (u : URef) : URef := MkURef (addr u) READ.
Definition into_write (u : URef) : URef := MkURef (addr u) WRITE.
Definition into_add (u : URef) : URef := MkURef (addr u) ADD.
Definition into_read_add_write (u : URef) : URef := MkURef (addr u) READ_ADD_WRITE.
Definition into_read_write (u : URef) : URef := MkURef (addr u) READ_WRITE.
Definition disable_access_rights (u : URef) (r : AccessRights) : URef :=
  MkURef (addr u) (difference (access_rights u) r).

Definition UREF_SERIALIZED_LENGTH : nat := UREF_ADDR_LENGTH + ACCESS_RIGHTS_SERIALIZED_LENGTH.
Definition URef_to_bytes (u : URef) : bres bytes :=
  b0 ← to_bytes (addr u);
  b1 ← to_bytes (access_rights u);
  mret (b0 ++ b1).
Definition URef_write_bytes (u : URef) (writer : bytes) : bres bytes :=
  write_bytes (access_rights u) (writer ++ array_bytes (addr u)).
Definition URef_serialized_length (u : URef) : nat := UREF_SERIALIZED_LENGTH.
Definition URef_from_bytes (bs : bytes) : bres (URef * bytes) :=
  '(id, rem) ← from_bytes bs;
  '(access_rights, rem) ← from_bytes rem;
  mret (MkURef id access_rights, rem).

#[export] Instance URef_ToBytes : ToBytes URef := {|
  to_bytes := URef_to_bytes; into_bytes := URef_to_bytes;
  serialized_length := URef_serialized_length; write_bytes := URef_write_bytes |}.
#[export] Instance URef_FromBytes : FromBytes URef := default_FromBytes URef_from_bytes.
#[export] Instance URef_Valid : Valid URef := fun u => valid (addr u) /\ valid (access_rights u).
#[export] Instance URef_Bytesrepr : Bytesrepr URef.
Proof.
  struct_codec_by ltac:(unfold URef_to_bytes, URef_serialized_length, URef_from_bytes, URef_Valid;
    try change (URef_write_bytes ?u ?w) with (w' ← write_bytes (addr u) w; write_bytes (access_rights u) w')).
Qed.

(** ** [Key] *)

Inductive KeyTag :=
| TagAccount | TagHash | TagURef | TagTransfer | TagDeployInfo | TagEraInfo | TagBalance | TagBid
| TagWithdraw | TagDictionary | TagSystemContractRegistry | TagUnbond | TagChainspecRegistry
| TagBlockEffectsRootHash | TagDeployApprovalsRootHash.

Definition KeyTag_u8 (t : KeyTag) : Byte.byte :=
  match t with
  | TagAccount => Byte.x00
  | TagHash => Byte.x01
  | TagURef => Byte.x02
  | TagTransfer => Byte.x03
  | TagDeployInfo => Byte.x04
  | TagEraInfo => Byte.x05
  | TagBalance => Byte.x06
  | TagBid => Byte.x07
  | TagWithdraw => Byte.x08
  | TagDictionary => Byte.x09
  | TagSystemContractRegistry => Byte.x0a
  | TagUnbond => Byte.x0b
  | TagChainspecRegistry => Byte.x0c
  | TagBlockEffectsRootHash => Byte.x0d
  | TagDeployApprovalsRootHash => Byte.x0e
  end.

Inductive Key :=
| Account (account_hash : AccountHash)
| KeyHash (hash : HashAddr)
| KeyURef (uref : URef)
| Transfer (transfer_addr : TransferAddr)
| DeployInfo (deploy_hash : DeployHash)
| EraInfo (era_id : EraId)
| Balance (uref_addr : URefAddr)
| Bid (account_hash : AccountHash)
| Withdraw (account_hash : AccountHash)
| Dictionary (dictionary_addr : DictionaryAddr)
| SystemContractRegistry
| Unbond (account_hash : AccountHash)
| ChainspecRegistry
| BlockEffectsRootHash (block_height : Z)
| DeployApprovalsRootHash (block_height : Z).

#[export] Instance Key_eq_dec : EqDecision Key.
Proof. solve_decision. Defined.

Definition Key_tag (k : Key) : KeyTag :=
  match k with
  | Account _ => TagAccount
  | KeyHash _ => TagHash
  | KeyURef _ => TagURef
  | Transfer _ => TagTransfer
  | DeployInfo _ => TagDeployInfo
  | EraInfo _ => TagEraInfo
  | Balance _ => TagBalance
  | Bid _ => TagBid
  | Withdraw _ => TagWithdraw
  | Unbond _ => TagUnbond
  | Dictionary _ => TagDictionary
  | SystemContractRegistry => TagSystemContractRegistry
  | ChainspecRegistry => TagChainspecRegistry
  | BlockEffectsRootHash _ => TagBlockEffectsRootHash
  | DeployApprovalsRootHash _ => TagDeployApprovalsRootHash
  end.
Definition Key_tag_u8 (k : Key) : Byte.byte := KeyTag_u8 (Key_tag k).

Definition normalize (k : Key) : Key :=
  match k with
  | KeyURef uref => KeyURef (remove_access_rights uref)
  | other => other
  end.
Definition into_account (k : Key) : option AccountHash :=
  match k with Account h => Some h | _ => None end.
Definition into_hash (k : Key) : option HashAddr :=
  match k with KeyHash h => Some h | _ => None end.
Definition as_uref (k : Key) : option URef :=
  match k with KeyURef u => Some u | _ => None end.
Definition as_balance (k : Key) : option URefAddr :=
  match k with Balance a => Some a | _ => None end.
Definition as_dictionary (k : Key) : option DictionaryAddr :=
  match k with Dictionary a => Some a | _ => None end.
Definition uref_to_hash (k : Key) : option Key :=
  uref ← as_uref k; Some (KeyHash (MkArray (array_bytes (addr uref)))).
Definition withdraw_to_unbond (k : Key) : option Key :=
  match k with Withdraw h => Some (Unbond h) | _ => None end.
Definition Key_dictionary `{Blake2b} (seed_uref : URef) (dictionary_item_key : bytes) : Key :=
  Dictionary (MkArray (blake2b (array_bytes (addr seed_uref) ++ dictionary_item_key))).
Definition is_dictionary_key (k : Key) : bool :=
  match k with Dictionary _ => true | _ => false end.

Definition SYSTEM_CONTRACT_REGISTRY_KEY_BYTES : array 32 := MkArray (replicate 32 Byte.x00).
Definition CHAINSPEC_REGISTRY_KEY_BYTES : array 32 := MkArray (replicate 32 Byte.x01).

Definition KEY_ID_SERIALIZED_LENGTH : nat := 1.
Definition KEY_HASH_SERIALIZED_LENGTH : nat := KEY_ID_SERIALIZED_LENGTH + KEY_HASH_LENGTH.
Definition KEY_UREF_SERIALIZED_LENGTH : nat := KEY_ID_SERIALIZED_LENGTH + UREF_SERIALIZED_LENGTH.
Definition KEY_TRANSFER_SERIALIZED_LENGTH : nat := KEY_ID_SERIALIZED_LENGTH + TRANSFER_ADDR_LENGTH.
Definition KEY_DEPLOY_INFO_SERIALIZED_LENGTH : nat := KEY_ID_SERIALIZED_LENGTH + DEPLOY_HASH_LENGTH.
Definition KEY_ERA_INFO_SERIALIZED_LENGTH : nat := KEY_ID_SERIALIZED_LENGTH + U64_SERIALIZED_LENGTH.
Definition KEY_BALANCE_SERIALIZED_LENGTH : nat := KEY_ID_SERIALIZED_LENGTH + UREF_ADDR_LENGTH.
Definition KEY_BID_SERIALIZED_LENGTH : nat := KEY_ID_SERIALIZED_LENGTH + KEY_HASH_LENGTH.
Definition KEY_WITHDRAW_SERIALIZED_LENGTH : nat := KEY_ID_SERIALIZED_LENGTH + KEY_HASH_LENGTH.
Definition KEY_UNBOND_SERIALIZED_LENGTH : nat := KEY_ID_SERIALIZED_LENGTH + KEY_HASH_LENGTH.
Definition KEY_DICTIONARY_SERIALIZED_LENGTH : nat := KEY_ID_SERIALIZED_LENGTH + KEY_DICTIONARY_LENGTH.
Definition KEY_SYSTEM_CONTRACT_REGISTRY_SERIALIZED_LENGTH : nat :=
  KEY_ID_SERIALIZED_LENGTH + length (array_bytes SYSTEM_CONTRACT_REGISTRY_KEY_BYTES).
Definition KEY_CHAINSPEC_REGISTRY_SERIALIZED_LENGTH : nat :=
  KEY_ID_SERIALIZED_LENGTH + length (array_bytes CHAINSPEC_REGISTRY_KEY_BYTES).
Definition KEY_BLOCK_EFFECTS_ROOT_HASH_LENGTH : nat := KEY_ID_SERIALIZED_LENGTH + U64_SERIALIZED_LENGTH.
Definition KEY_DEPLOY_APPROVALS_ROOT_HASH_SERIALIZED_LENGTH : nat :=
  KEY_ID_SERIALIZED_LENGTH + U64_SERIALIZED_LENGTH.

Definition Key_to_bytes (k : Key) : bres bytes :=
  body ← match k with
    | Account account_hash => to_bytes account_hash
    | KeyHash hash => to_bytes hash
    | KeyURef uref => to_bytes uref
    | Transfer addr => to_bytes addr
    | DeployInfo addr => to_bytes addr
    | EraInfo era_id => to_bytes era_id
    | Balance uref_addr => to_bytes uref_addr
    | Bid account_hash => to_bytes account_hash
    | Withdraw account_hash => to_bytes account_hash
    | Unbond account_hash => to_bytes account_hash
    | Dictionary addr => to_bytes addr
    | SystemContractRegistry => to_bytes SYSTEM_CONTRACT_REGISTRY_KEY_BYTES
    | ChainspecRegistry => to_bytes CHAINSPEC_REGISTRY_KEY_BYTES
    | BlockEffectsRootHash block_height => to_bytes (U64 block_height)
    | DeployApprovalsRootHash block_height => to_bytes (U64 block_height)
    end;
  mret (Key_tag_u8 k :: body).

Definition Key_serialized_length (k : Key) : nat :=
  match k with
  | Account account_hash => KEY_ID_SERIALIZED_LENGTH + serialized_length account_hash
  | KeyHash _ => KEY_HASH_SERIALIZED_LENGTH
  | KeyURef _ => KEY_UREF_SERIALIZED_LENGTH
  | Transfer _ => KEY_TRANSFER_SERIALIZED_LENGTH
  | DeployInfo _ => KEY_DEPLOY_INFO_SERIALIZED_LENGTH
  | EraInfo _ => KEY_ERA_INFO_SERIALIZED_LENGTH
  | Balance _ => KEY_BALANCE_SERIALIZED_LENGTH
  | Bid _ => KEY_BID_SERIALIZED_LENGTH
  | Withdraw _ => KEY_WITHDRAW_SERIALIZED_LENGTH
  | Unbond _ => KEY_UNBOND_SERIALIZED_LENGTH
  | Dictionary _ => KEY_DICTIONARY_SERIALIZED_LENGTH
  | SystemContractRegistry => KEY_SYSTEM_CONTRACT_REGISTRY_SERIALIZED_LENGTH
  | ChainspecRegistry => KEY_CHAINSPEC_REGISTRY_SERIALIZED_LENGTH
  | BlockEffectsRootHash _ => KEY_BLOCK_EFFECTS_ROOT_HASH_LENGTH
  | DeployApprovalsRootHash _ => KEY_DEPLOY_APPROVALS_ROOT_HASH_SERIALIZED_LENGTH
  end.
Definition Key_write_bytes (k : Key) (writer : bytes) : bres bytes :=
  let writer := writer ++ [Key_tag_u8 k] in
  match k with
  | Account account_hash => write_bytes account_hash writer
  | KeyHash hash => write_bytes hash writer
  | KeyURef uref => write_bytes uref writer
  | Transfer addr => write_bytes addr writer
  | DeployInfo deploy_hash => write_bytes deploy_hash writer
  | EraInfo era_id => write_bytes era_id writer
  | Balance uref_addr => write_bytes uref_addr writer
  | Bid account_hash => write_bytes account_hash writer
  | Withdraw account_hash => write_bytes account_hash writer
  | Unbond account_hash => write_bytes account_hash writer
  | Dictionary addr => write_bytes addr writer
  | SystemContractRegistry => write_bytes SYSTEM_CONTRACT_REGISTRY_KEY_BYTES writer
  | ChainspecRegistry => write_bytes CHAINSPEC_REGISTRY_KEY_BYTES writer
  | BlockEffectsRootHash block_height => write_bytes (U64 block_height) writer
  | DeployApprovalsRootHash block_height => write_bytes (U64 block_height) writer
  end.

Definition Key_from_bytes (bs : bytes) : bres (Key * bytes) :=
  '(tag, remainder) ← u8_from_bytes bs;
  if Byte.eqb tag (KeyTag_u8 TagAccount) then
    '(account_hash, rem) ← from_bytes remainder; Ok (Account account_hash, rem)
  else if Byte.eqb tag (KeyTag_u8 TagHash) then
    '(hash, rem) ← from_bytes remainder; Ok (KeyHash hash, rem)
  else if Byte.eqb tag (KeyTag_u8 TagURef) then
    '(uref, rem) ← from_bytes remainder; Ok (KeyURef uref, rem)
  else if Byte.eqb tag (KeyTag_u8 TagTransfer) then
    '(transfer_addr, rem) ← from_bytes remainder; Ok (Transfer transfer_addr, rem)
  else if Byte.eqb tag (KeyTag_u8 TagDeployInfo) then
    '(deploy_hash, rem) ← from_bytes remainder; Ok (DeployInfo deploy_hash, rem)
  else if Byte.eqb tag (KeyTag_u8 TagEraInfo) then
    '(era_id, rem) ← from_bytes remainder; Ok (EraInfo era_id, rem)
  else if Byte.eqb tag (KeyTag_u8 TagBalance) then
    '(uref_addr, rem) ← from_bytes remainder; Ok (Balance uref_addr, rem)
  else if Byte.eqb tag (KeyTag_u8 TagBid) then
    '(account_hash, rem) ← from_bytes remainder; Ok (Bid account_hash, rem)
  else if Byte.eqb tag (KeyTag_u8 TagWithdraw) then
    '(account_hash, rem) ← from_bytes remainder; Ok (Withdraw account_hash, rem)
  else if Byte.eqb tag (KeyTag_u8 TagUnbond) then
    '(account_hash, rem) ← from_bytes remainder; Ok (Unbond account_hash, rem)
  else if Byte.eqb tag (KeyTag_u8 TagDictionary) then
    '(addr, rem) ← from_bytes remainder; Ok (Dictionary addr, rem)
  else if Byte.eqb tag (KeyTag_u8 TagSystemContractRegistry) then
    '(_, rem) ← from_bytes (A:=array 32) remainder; Ok (SystemContractRegistry, rem)
  else if Byte.eqb tag (KeyTag_u8 TagChainspecRegistry) then
    '(_, rem) ← from_bytes (A:=array 32) remainder; Ok (ChainspecRegistry, rem)
  else if Byte.eqb tag (KeyTag_u8 TagBlockEffectsRootHash) then
    '(block_height, rem) ← from_bytes remainder; Ok (BlockEffectsRootHash (u64_val block_height), rem)
  else if Byte.eqb tag (KeyTag_u8 TagDeployApprovalsRootHash) then
    '(block_height, rem) ← from_bytes remainder; Ok (DeployApprovalsRootHash (u64_val block_height), rem)
  else Err Formatting.

#[export] Instance Key_ToBytes : ToBytes Key := {|
  to_bytes := Key_to_bytes; into_bytes := Key_to_bytes;
  serialized_length := Key_serialized_length; write_bytes := Key_write_bytes |}.
#[export] Instance Key_FromBytes : FromBytes Key := default_FromBytes Key_from_bytes.
#[export] Instance Key_Valid : Valid Key := fun k =>
  match k with
  | Account h | Bid h | Withdraw h | Unbond h => valid h
  | KeyHash a => valid a
  | KeyURef u => valid u
  | Transfer a => valid a
  | DeployInfo h => valid h
  | EraInfo e => valid e
  | Balance a => valid a
  | Dictionary a => valid a
  | SystemContractRegistry | ChainspecRegistry => True
  | BlockEffectsRootHash n | DeployApprovalsRootHash n => valid (U64 n)
  end.

(** What a key carries is a value of its type; a registry key carries 32 fixed bytes. *)
Lemma SYSTEM_CONTRACT_REGISTRY_KEY_BYTES_valid : valid SYSTEM_CONTRACT_REGISTRY_KEY_BYTES.
Proof. done. Qed.
Lemma CHAINSPEC_REGISTRY_KEY_BYTES_valid : valid CHAINSPEC_REGISTRY_KEY_BYTES.
Proof. done. Qed.

#[local] Hint Resolve SYSTEM_CONTRACT_REGISTRY_KEY_BYTES_valid CHAINSPEC_REGISTRY_KEY_BYTES_valid : core.

Lemma Key_roundtrip k bs rest :
  valid k -> Key_to_bytes k = Ok bs -> Key_from_bytes (bs ++ rest) = Ok (k, rest).
Proof.
  intros Hv Hb. unfold Key_to_bytes in Hb.
  apply bind_Ok in Hb as (body & Hbody & [= <-]). unfold Key_from_bytes.
  destruct k; cbn [app u8_from_bytes mbind res_bind];
    repeat match goal with |- context [Byte.eqb ?a ?b] =>
      let r := eval vm_compute in (Byte.eqb a b) in change (Byte.eqb a b) with r end; cbn iota;
    match type of Hbody with to_bytes ?x = _ => rewrite (bytesrepr_roundtrip x body rest) by auto end;
    done.
Qed.

Lemma Key_length k bs : valid k -> Key_to_bytes k = Ok bs -> length bs = Key_serialized_length k.
Proof.
  intros Hv Hb. unfold Key_to_bytes in Hb.
  apply bind_Ok in Hb as (body & Hbody & [= <-]). cbn [length].
  destruct k; apply bytesrepr_length in Hbody; auto; by rewrite Hbody.
Qed.

Lemma Key_from_bytes_cases bs k rest :
  Key_from_bytes bs = Ok (k, rest) ->
  exists remainder, bs = Key_tag_u8 k :: remainder /\ valid k /\ (exists used, remainder = used ++ rest) /\
    forall more, Key_from_bytes (bs ++ more) = Ok (k, rest ++ more).
Proof.
  unfold Key_from_bytes. intros Hr.
  apply bind_Ok in Hr as ([tag remainder] & ->%u8_from_bytes_Ok & Hr). exists remainder.
  cbn [app u8_from_bytes mbind res_bind].
  repeat match type of Hr with
  | (if ?b then _ else _) = _ =>
      let E := fresh "E" in
      destruct b eqn:E;
      [apply Byte.byte_dec_bl in E; subst tag; clear -Hr; codec_inv;
       match goal with H : from_bytes _ = _ |- _ =>
         pose proof (fun more => bytesrepr_extend _ _ _ more H) as X;
         apply bytesrepr_sound in H as (? & ? & ->); split_and!; [done|done|by eexists|];
         intros more; rewrite X; done end|]
  end; done.
Qed.

#[export] Instance Key_Bytesrepr : Bytesrepr Key.
Proof.
  apply struct_bytesrepr.
  - apply Key_roundtrip.
  - apply Key_length.
  - intros k bs writer Hv Hb. unfold Key_to_bytes in Hb.
    apply bind_Ok in Hb as (body & Hbody & [= <-]). unfold Key_write_bytes.
    destruct k; match type of Hbody with to_bytes ?x = _ =>
      rewrite (bytesrepr_write x body) by auto end; by rewrite <- app_assoc.
  - intros k Hv Hs. unfold Key_to_bytes.
    destruct k; match goal with |- context [to_bytes ?x] =>
      destruct (bytesrepr_total x) as (b & Hb & _); [by auto|by vm_compute|rewrite Hb; by eexists] end.
  - intros bs k rest (rem & -> & ? & (u & ->) & _)%Key_from_bytes_cases.
    split; [done|by exists (Key_tag_u8 k :: u)].
  - intros bs k rest more (rem & _ & _ & _ & X)%Key_from_bytes_cases. apply X.
Qed.

#[export] Instance Key_countable : Countable Key.
Proof.
  refine (inj_countable'
    (fun k => match k with
      | Account h => (0, account_hash_value h, 0)
      | KeyHash a => (1, array_bytes a, 0)
      | KeyURef u => (2, array_bytes (addr u), bits (access_rights u))
      | Transfer a => (3, transfer_addr_value a, 0)
      | DeployInfo h => (4, deploy_hash_value h, 0)
      | EraInfo e => (5, [], era_value e)
      | Balance a => (6, array_bytes a, 0)
      | Bid h => (7, account_hash_value h, 0)
      | Withdraw h => (8, account_hash_value h, 0)
      | Dictionary a => (9, array_bytes a, 0)
      | SystemContractRegistry => (10, [], 0)
      | Unbond h => (11, account_hash_value h, 0)
      | ChainspecRegistry => (12, [], 0)
      | BlockEffectsRootHash n => (13, [], n)
      | DeployApprovalsRootHash n => (14, [], n)
      end)
    (fun '(t, b, z) =>
      if t =? 0 then Account (MkAccountHash b) else if t =? 1 then KeyHash (MkArray b)
      else if t =? 2 then KeyURef (MkURef (MkArray b) (MkAccessRights z))
      else if t =? 3 then Transfer (MkTransferAddr b) else if t =? 4 then DeployInfo (MkDeployHash b)
      else if t =? 5 then EraInfo (MkEraId z) else if t =? 6 then Balance (MkArray b)
      else if t =? 7 then Bid (MkAccountHash b) else if t =? 8 then Withdraw (MkAccountHash b)
      else if t =? 9 then Dictionary (MkArray b) else if t =? 10 then SystemContractRegistry
      else if t =? 11 then Unbond (MkAccountHash b) else if t =? 12 then ChainspecRegistry
      else if t =? 13 then BlockEffectsRootHash z else DeployApprovalsRootHash z) _).
  intros [[]|[]|[[] []]|[]|[]|[]|[]|[]|[]|[]| |[]| |n|n]; done.
Defined.

(** The first byte of a serialised key is its tag, and it determines the length. *)
Lemma Key_same_first_byte k1 k2 b r1 r2 :
  valid k1 -> valid k2 -> to_bytes k1 = Ok (b :: r1) -> to_bytes k2 = Ok (b :: r2) ->
  length r1 = length r2.
Proof.
  intros V1 V2 H1 H2. pose proof (Key_length _ _ V1 H1) as L1. pose proof (Key_length _ _ V2 H2) as L2.
  assert (Key_tag_u8 k1 = Key_tag_u8 k2) as E.
  { unfold to_bytes, Key_ToBytes, Key_to_bytes in H1, H2.
    apply bind_Ok in H1 as (? & _ & [= <- _]). by apply bind_Ok in H2 as (? & _ & [= <- _]). }
  cbn [length] in L1, L2. cut (S (length r1) = S (length r2)); [lia|]. rewrite L1, L2.
  destruct k1, k2; try discriminate E; done.
Qed.

Lemma Key_serialized_bound k : (Key_serialized_length k <= 34)%nat.
Proof. destruct k; by apply Nat.leb_le. Qed.

(** ** [ContextAccessRights] *)

Inductive GrantedAccess :=
| PreExisting
| Granted (uref_addr : URefAddr) (newly_granted_access_rights : AccessRights).

Record ContextAccessRights := {
  context_key : Key;
  rights_table : gmap URefAddr AccessRights;
}.

Definition extend_one (t : gmap URefAddr AccessRights) (uref : URef) : gmap URefAddr AccessRights :=
  match t !! addr uref with
  | Some rights => <[addr uref := union rights (access_rights uref)]> t
  | None => <[addr uref := access_rights uref]> t
  end.
Definition do_extend (c : ContextAccessRights) (urefs : list URef) : ContextAccessRights :=
  {| context_key := context_key c; rights_table := foldl extend_one (rights_table c) urefs |}.
Definition ContextAccessRights_new (k : Key) (urefs : list URef) : ContextAccessRights :=
  do_extend {| context_key := k; rights_table := ∅ |} urefs.
Definition extend (c : ContextAccessRights) (urefs : list URef) : ContextAccessRights :=
  do_extend c urefs.
Definition has_access_rights_to_uref (c : ContextAccessRights) (uref : URef) : bool :=
  match rights_table c !! addr uref with
  | Some known_rights => contains known_rights (access_rights uref)
  | None => false
  end.
Definition grant_access (c : ContextAccessRights) (uref : URef) : ContextAccessRights * GrantedAccess :=
  match rights_table c !! addr uref with
  | Some existing =>
      let newly := difference (access_rights uref) existing in
      ({| context_key := context_key c;
          rights_table := <[addr uref := union existing (access_rights uref)]> (rights_table c) |},
       if is_none newly then PreExisting else Granted (addr uref) newly)
  | None =>
      ({| context_key := context_key c;
          rights_table := <[addr uref := access_rights uref]> (rights_table c) |},
       Granted (addr uref) (access_rights uref))
  end.
Definition remove_access (c : ContextAccessRights) (a : URefAddr) (r : AccessRights) : ContextAccessRights :=
  match rights_table c !! a with
  | Some current =>
      {| context_key := context_key c; rights_table := <[a := difference current r]> (rights_table c) |}
  | None => c
  end.

(** *** Rights as sets of bits *)

Definition has_bit (a : AccessRights) (n : Z) : bool := Z.testbit (bits a) n.

Lemma contains_spec a b : contains a b = true <-> forall n, has_bit b n = true -> has_bit a n = true.
Proof.
  unfold contains, has_bit. rewrite Z.eqb_eq. split.
  - intros E n Hn. rewrite <- E, Z.land_spec in Hn. by apply andb_true_iff in Hn as [? _].
  - intros Hs. apply Z.bits_inj'. intros n _. rewrite Z.land_spec.
    destruct (Z.testbit (bits b) n) eqn:E; [by rewrite Hs|by rewrite andb_false_r].
Qed.

(** The rights a context holds to an address, as bits. *)
Definition holds (t : gmap URefAddr AccessRights) (a : URefAddr) (n : Z) : bool :=
  match t !! a with Some r => has_bit r n | None => false end.

Lemma extend_one_holds t u a n :
  holds (extend_one t u) a n = holds t a n || (bool_decide (addr u = a) && has_bit (access_rights u) n).
Proof.
  unfold holds, extend_one. destruct (decide (addr u = a)) as [<-|Hne].
  - rewrite bool_decide_eq_true_2 by done.
    destruct (t !! addr u) as [r|]; rewrite lookup_insert_eq; [|by rewrite orb_false_l].
    unfold has_bit, union. cbn [bits]. by rewrite Z.lor_spec.
  - rewrite bool_decide_eq_false_2 by done. rewrite andb_false_l, orb_false_r.
    by destruct (t !! addr u); rewrite lookup_insert_ne.
Qed.

Lemma do_extend_holds us c a n :
  holds (rights_table (do_extend c us)) a n =
  holds (rights_table c) a n || existsb (fun u => bool_decide (addr u = a) && has_bit (access_rights u) n) us.
Proof.
  unfold do_extend. cbn [rights_table]. generalize (rights_table c).
  induction us as [|u us IH]; intros t; cbn; [by rewrite orb_false_r|].
  by rewrite IH, extend_one_holds, orb_assoc.
Qed.

(** *** Histories of a context's rights *)

Inductive RightsOp :=
| OpExtend (urefs : list URef)
| OpGrant (uref : URef)
| OpRemove (a : URefAddr) (r : AccessRights).

Definition apply_rights_op (c : ContextAccessRights) (op : RightsOp) : ContextAccessRights :=
  match op with
  | OpExtend urefs => extend c urefs
  | OpGrant uref => (grant_access c uref).1
  | OpRemove a r => remove_access c a r
  end.

Definition gives (op : RightsOp) (a : URefAddr) (n : Z) : bool :=
  match op with
  | OpExtend urefs => existsb (fun u => bool_decide (addr u = a) && has_bit (access_rights u) n) urefs
  | OpGrant u => bool_decide (addr u = a) && has_bit (access_rights u) n
  | OpRemove _ _ => false
  end.
Definition takes (op : RightsOp) (a : URefAddr) (n : Z) : bool :=
  match op with
  | OpRemove a' r => bool_decide (a' = a) && has_bit r n
  | _ => false
  end.

Lemma grant_access_table c u : rights_table (grant_access c u).1 = extend_one (rights_table c) u.
Proof. unfold grant_access, extend_one. by destruct (rights_table c !! addr u). Qed.

Lemma has_bit_difference a b n : 0 <= n -> has_bit (difference a b) n = has_bit a n && negb (has_bit b n).
Proof. intros Hn. unfold has_bit, difference. cbn [bits]. by rewrite Z.ldiff_spec. Qed.

Lemma apply_rights_op_holds c op a n :
  0 <= n ->
  holds (rights_table (apply_rights_op c op)) a n =
  (holds (rights_table c) a n && negb (takes op a n)) || gives op a n.
Proof.
  intros Hn. destruct op as [us|u|a' r]; cbn [apply_rights_op takes gives].
  - unfold extend. by rewrite do_extend_holds, andb_true_r.
  - by rewrite grant_access_table, extend_one_holds, andb_true_r.
  - unfold remove_access, holds. destruct (rights_table c !! a') as [cur|] eqn:E; cbn [rights_table].
    + destruct (decide (a' = a)) as [<-|Hne].
      * rewrite lookup_insert_eq, E, bool_decide_eq_true_2, has_bit_difference by done.
        by rewrite andb_true_l, orb_false_r.
      * rewrite lookup_insert_ne, bool_decide_eq_false_2 by done.
        by rewrite andb_false_l, andb_true_r, orb_false_r.
    + destruct (decide (a' = a)) as [<-|Hne]; [by rewrite E|].
      rewrite bool_decide_eq_false_2 by done. by rewrite andb_false_l, andb_true_r, orb_false_r.
Qed.

Lemma rights_history ops c a n :
  0 <= n ->
  holds (rights_table (foldl apply_rights_op c ops)) a n = true <->
  (holds (rights_table c) a n = true /\ Forall (fun op => takes op a n = false) ops) \/
  exists before op after, ops = before ++ op :: after /\ gives op a n = true /\
    Forall (fun op => takes op a n = false) after.
Proof.
  intros Hn. induction ops as [|op ops IH] using rev_ind.
  { cbn. split; [intros H; left; split; [done|constructor]|].
    intros [[H _]|(b & op & af & E & _)]; [done|by destruct b]. }
  rewrite foldl_app. cbn [foldl]. rewrite apply_rights_op_holds by done.
  rewrite orb_true_iff, andb_true_iff, negb_true_iff, IH. split.
  - intros [[[[H F]|(b & o & af & -> & G & F)] T]|G].
    + left. split; [done|]. apply Forall_app. split; [done|by constructor].
    + right. exists b, o, (af ++ [op]). split; [by rewrite <- app_assoc|]. split; [done|].
      apply Forall_app. split; [done|by constructor].
    + right. exists ops, op, []. by split_and!.
  - intros [[H [F T]%Forall_app]|(b & o & af & E & G & F)].
    + left. split; [by left|by inversion T].
    + destruct af as [|o' af _] using rev_ind.
      * apply app_inj_tail in E as [-> <-]. by right.
      * rewrite app_comm_cons, app_assoc in E. apply app_inj_tail in E as [-> <-].
        apply Forall_app in F as [F T]. left. split; [|by inversion T].
        right. by exists b, o, af.
Qed.

(** *** Properties *)

(** C31 Rights are unforgeable: after any history of [new], [extend],
    [grant_access] and [remove_access], a context may use a [URef] exactly when
    each of the [URef]'s rights was handed to it for that address by some
    operation of the history and not removed since. *)
Theorem context_rights_unforgeable (k : Key) (urefs : list URef) (ops : list RightsOp) (u : URef) :
  has_access_rights_to_uref (foldl apply_rights_op (ContextAccessRights_new k urefs) ops) u = true <->
  addr u ∈ dom (rights_table (foldl apply_rights_op (ContextAccessRights_new k urefs) ops)) /\
  forall n, has_bit (access_rights u) n = true ->
    exists before op after, OpExtend urefs :: ops = before ++ op :: after /\
      gives op (addr u) n = true /\ Forall (fun op => takes op (addr u) n = false) after.
Proof.
  set (c0 := {| context_key := k; rights_table := ∅ |}).
  assert (foldl apply_rights_op (ContextAccessRights_new k urefs) ops =
          foldl apply_rights_op c0 (OpExtend urefs :: ops)) as -> by done.
  set (c := foldl _ _ _). assert (forall n, 0 <= n -> _) as R by exact (rights_history (OpExtend urefs :: ops) c0 (addr u)).
  fold c in R. rewrite elem_of_dom. unfold has_access_rights_to_uref.
  assert (forall n, has_bit (access_rights u) n = true -> 0 <= n) as Hpos.
  { intros n Hb. destruct (Z.le_gt_cases 0 n); [done|]. unfold has_bit in Hb.
    by rewrite Z.testbit_neg_r in Hb. }
  destruct (rights_table c !! addr u) as [r|] eqn:E.
  - rewrite contains_spec. split.
    + intros Hc. split; [done|]. intros n Hb. specialize (Hc n Hb).
      assert (holds (rights_table c) (addr u) n = true) as Hh by (unfold holds; by rewrite E).
      apply R in Hh; [|by apply Hpos]. destruct Hh as [[Hh _]|Hh]; [|done].
      unfold holds, c0 in Hh. cbn [rights_table] in Hh. by rewrite lookup_empty in Hh.
    + intros [_ Hall] n Hb. specialize (Hall n Hb).
      assert (holds (rights_table c) (addr u) n = true) as Hh by (apply R; [by apply Hpos|by right]).
      unfold holds in Hh. by rewrite E in Hh.
  - split; [done|]. by intros [[] _].
Qed.

(** [grant_access] reports exactly what it changes: afterwards the context may
    use the [URef]; [PreExisting] is returned only when it already could; and the
    rights in [Granted] are those of the [URef] the context did not hold before. *)
Theorem grant_access_exact (c : ContextAccessRights) (u : URef) :
  let '(c', granted) := grant_access c u in
  has_access_rights_to_uref c' u = true /\
  match granted with
  | PreExisting => has_access_rights_to_uref c u = true
  | Granted a r =>
      a = addr u /\
      forall n, 0 <= n ->
        has_bit r n = has_bit (access_rights u) n && negb (holds (rights_table c) (addr u) n)
  end.
Proof.
  pose proof (grant_access_table c u) as T. unfold grant_access, extend_one in *.
  destruct (rights_table c !! addr u) as [ex|] eqn:E; cbn in T.
  - split.
    + unfold has_access_rights_to_uref. cbn [rights_table]. rewrite lookup_insert_eq, contains_spec.
      intros n Hb. unfold has_bit, union in *. cbn [bits]. by rewrite Z.lor_spec, Hb, orb_true_r.
    + unfold is_none. case_bool_decide as N.
      * unfold has_access_rights_to_uref. rewrite E, contains_spec. intros n Hb.
        assert (0 <= n).
        { destruct (Z.le_gt_cases 0 n); [done|]. unfold has_bit in Hb. by rewrite Z.testbit_neg_r in Hb. }
        pose proof (has_bit_difference (access_rights u) ex n ltac:(done)) as D. rewrite N, Hb in D.
        unfold has_bit at 1 in D. cbn in D. rewrite Z.bits_0 in D. by destruct (has_bit ex n).
      * split; [done|]. intros n Hn. rewrite has_bit_difference by done. unfold holds. by rewrite E.
  - split.
    + unfold has_access_rights_to_uref. cbn [rights_table]. by rewrite lookup_insert_eq, contains_spec.
    + split; [done|]. intros n Hn. unfold holds. by rewrite E, andb_true_r.
Qed.
