(* ===== verification/Trie.v ===== *)
(** * The Merkle trie's data: [execution_engine/src/storage/trie/mod.rs].

    Pointers, pointer blocks, the three kinds of trie node with their codec and
    hash, and the codec of a trie node or chunk of one. *)

From S2P Require Import Prelude Bytesrepr Hashing.

Definition RADIX : nat := 256.

(** ** [Pointer] *)

Inductive Pointer :=
| LeafPointer (hash : Digest)
| NodePointer (hash : Digest).

#[export] Instance Pointer_eq_dec : EqDecision Pointer.
Proof. solve_decision. Defined.

Definition pointer_hash (p : Pointer) : Digest :=
  match p with LeafPointer h | NodePointer h => h end.
Definition pointer_update (p : Pointer) (hash : Digest) : Pointer :=
  match p with LeafPointer _ => LeafPointer hash | NodePointer _ => NodePointer hash end.
Definition pointer_tag (p : Pointer) : Byte.byte :=
  match p with LeafPointer _ => Byte.x00 | NodePointer _ => Byte.x01 end.

Definition Pointer_write_bytes (p : Pointer) (writer : bytes) : bres bytes :=
  Ok ((writer ++ [pointer_tag p]) ++ digest_value (pointer_hash p)).
Definition Pointer_to_bytes (p : Pointer) : bres bytes := Pointer_write_bytes p [].
Definition Pointer_serialized_length (_ : Pointer) : nat := U8_SERIALIZED_LENGTH + Digest_LENGTH.
Definition Pointer_from_bytes (bs : bytes) : bres (Pointer * bytes) :=
  '(tag, rem) ← u8_from_bytes bs;
  if Byte.eqb tag Byte.x00 then '(hash, rem) ← from_bytes rem; Ok (LeafPointer hash, rem)
  else if Byte.eqb tag Byte.x01 then '(hash, rem) ← from_bytes rem; Ok (NodePointer hash, rem)
  else Err Formatting.

#[export] Instance Pointer_ToBytes : ToBytes Pointer := {|
  to_bytes := Pointer_to_bytes; into_bytes := Pointer_to_bytes;
  serialized_length := Pointer_serialized_length; write_bytes := Pointer_write_bytes |}.
#[export] Instance Pointer_FromBytes : FromBytes Pointer := default_FromBytes Pointer_from_bytes.
#[export] Instance Pointer_Valid : Valid Pointer := fun p => valid (pointer_hash p).

Lemma Digest_roundtrip (d : Digest) rest :
  valid d -> from_bytes (digest_value d ++ rest) = Ok (d, rest).
Proof. intros Hv. by apply (bytesrepr_roundtrip d). Qed.

#[export] Instance Pointer_Bytesrepr : Bytesrepr Pointer.
Proof.
  apply struct_bytesrepr; unfold Pointer_to_bytes, Pointer_write_bytes, Pointer_from_bytes.
  - intros [h|h] bs rest Hv [= <-]; cbn [app u8_from_bytes mbind res_bind pointer_tag pointer_hash];
      cbn [Byte.eqb]; by rewrite Digest_roundtrip.
  - intros p bs Hv [= <-]. cbn [app length]. by rewrite Hv.
  - intros p bs writer Hv [= <-]. by rewrite <- !app_assoc.
  - by eexists.
  - intros bs p rest Hr. apply bind_Ok in Hr as ([tag rem] & ->%u8_from_bytes_Ok & Hr).
    repeat match type of Hr with (if ?b then _ else _) = _ => destruct b; [codec_inv|] end; try done.
    all: match goal with H : from_bytes _ = _ |- _ => apply bytesrepr_sound in H as (? & ? & ->) end.
    all: split; [done|by eexists (_ :: _)].
  - intros bs p rest more Hr. apply bind_Ok in Hr as ([tag rem] & Hu & Hr). extend_step.
    repeat match type of Hr with (if ?b then _ else _) = _ => destruct b; [codec_inv; by extend_step|] end.
    done.
Qed.

(** ** [PointerBlock] *)

Record PointerBlock := MkPointerBlock { pointers : list (option Pointer) }.

#[export] Instance PointerBlock_eq_dec : EqDecision PointerBlock.
Proof. solve_decision. Defined.

Definition PointerBlock_new : PointerBlock := MkPointerBlock (replicate RADIX None).
(** [pointer_block[index]] for a [u8] index: the array has an entry for each. *)
Definition pb_get (pb : PointerBlock) (i : Byte.byte) : option Pointer := mjoin (pointers pb !! b2n i).
Definition pb_set (pb : PointerBlock) (i : Byte.byte) (p : option Pointer) : PointerBlock :=
  MkPointerBlock (<[b2n i := p]> (pointers pb)).
Definition from_indexed_pointers (l : list (Byte.byte * Pointer)) : PointerBlock :=
  foldl (fun ret '(idx, ptr) => pb_set ret idx (Some ptr)) PointerBlock_new l.
Definition as_indexed_pointers (pb : PointerBlock) : list (Byte.byte * Pointer) :=
  omap (fun '(i, mp) => p ← mp; Some (n2b i, p)) (imap pair (pointers pb)).
Definition child_count (pb : PointerBlock) : nat := length (as_indexed_pointers pb).

Definition PointerBlock_serialized_length (pb : PointerBlock) : nat :=
  sum_list (serialized_length <$> pointers pb).
Definition PointerBlock_to_bytes (pb : PointerBlock) : bres bytes :=
  _ ← allocate_buffer (PointerBlock_serialized_length pb);
  append_all (pointers pb) [].
Definition PointerBlock_write_bytes (pb : PointerBlock) (writer : bytes) : bres bytes :=
  write_all (pointers pb) writer.
Definition PointerBlock_from_bytes (bs : bytes) : bres (PointerBlock * bytes) :=
  '(arr, bs) ← read_n RADIX bs; mret (MkPointerBlock arr, bs).

#[export] Instance PointerBlock_ToBytes : ToBytes PointerBlock := {|
  to_bytes := PointerBlock_to_bytes; into_bytes := PointerBlock_to_bytes;
  serialized_length := PointerBlock_serialized_length; write_bytes := PointerBlock_write_bytes |}.
#[export] Instance PointerBlock_FromBytes : FromBytes PointerBlock :=
  default_FromBytes PointerBlock_from_bytes.
#[export] Instance PointerBlock_Valid : Valid PointerBlock := fun pb =>
  length (pointers pb) = RADIX /\ Forall valid (pointers pb).

#[export] Instance PointerBlock_Bytesrepr : Bytesrepr PointerBlock.
Proof.
  apply struct_bytesrepr; unfold PointerBlock_to_bytes, PointerBlock_from_bytes.
  - intros [pb] bs rest [Hl Hv] Ht. cbn [pointers] in *. codec_inv.
    match goal with H : append_all _ _ = _ |- _ => apply append_all_Ok in H as (e & He & ->) end.
    cbn [app]. rewrite <- Hl, read_n_encodes by done. done.
  - intros pb bs [Hl Hv] Ht. codec_inv.
    match goal with H : append_all _ _ = _ |- _ => apply append_all_Ok in H as (e & He & ->) end.
    by apply encodes_length.
  - intros pb bs writer [Hl Hv] Ht. codec_inv.
    match goal with H : append_all _ _ = _ |- _ => apply append_all_Ok in H as (e & He & ->) end.
    unfold PointerBlock_write_bytes. by rewrite (write_all_Ok _ e).
  - intros pb [Hl Hv] Hs. rewrite allocate_buffer_fits by done. cbn [mbind res_bind].
    destruct (encodes_total (pointers pb)) as (e & He & _); [done|done|].
    exists (List.concat e). apply append_all_Ok. by exists e.
  - intros bs pb rest Hr. codec_inv.
    match goal with H : read_n _ _ = _ |- _ => apply read_n_sound in H as (? & ? & u & ->) end.
    split; [done|by exists u].
  - intros bs pb rest more Hr. codec_inv. by erewrite read_n_extend.
Qed.

(** ** [Trie] *)

Inductive Trie (K V : Type) :=
| Leaf (key : K) (value : V)
| Node (pointer_block : PointerBlock)
| Extension (affix : Bytes) (pointer : Pointer).
Arguments Leaf {K V} _ _.
Arguments Node {K V} _.
Arguments Extension {K V} _ _.

#[export] Instance Trie_eq_dec {K V} `{EqDecision K} `{EqDecision V} : EqDecision (Trie K V).
Proof. solve_decision. Defined.

Definition LEAF_TAG : Byte.byte := Byte.x00.
Definition NODE_TAG : Byte.byte := Byte.x01.
Definition EXTENSION_TAG : Byte.byte := Byte.x02.

Section Trie.
Context {K V : Type} `{Bytesrepr K} `{Bytesrepr V}.

Definition trie_tag (t : Trie K V) : Byte.byte :=
  match t with Leaf _ _ => LEAF_TAG | Node _ => NODE_TAG | Extension _ _ => EXTENSION_TAG end.

Definition Trie_leaf (key : K) (value : V) : Trie K V := Leaf key value.
Definition Trie_node (indexed_pointers : list (Byte.byte * Pointer)) : Trie K V :=
  Node (from_indexed_pointers indexed_pointers).
Definition Trie_extension (affix : bytes) (pointer : Pointer) : Trie K V :=
  Extension (MkBytes affix) pointer.
Definition Trie_key (t : Trie K V) : option K :=
  match t with Leaf key _ => Some key | _ => None end.
Definition as_pointer_block (t : Trie K V) : option PointerBlock :=
  match t with Node pb => Some pb | _ => None end.
Definition iter_descendants (t : Trie K V) : list Digest :=
  match t with
  | Leaf _ _ => []
  | Node pb => omap (fun mp => pointer_hash <$> mp) (pointers pb)
  | Extension _ pointer => [pointer_hash pointer]
  end.

Definition Trie_serialized_length (t : Trie K V) : nat :=
  U8_SERIALIZED_LENGTH +
  match t with
  | Leaf key value => serialized_length key + serialized_length value
  | Node pb => serialized_length pb
  | Extension affix pointer => serialized_length affix + serialized_length pointer
  end.
Definition Trie_write_bytes (t : Trie K V) (writer : bytes) : bres bytes :=
  let writer := writer ++ [trie_tag t] in
  match t with
  | Leaf key value => writer ← write_bytes key writer; write_bytes value writer
  | Node pb => write_bytes pb writer
  | Extension affix pointer => writer ← write_bytes affix writer; write_bytes pointer writer
  end.
Definition Trie_to_bytes (t : Trie K V) : bres bytes :=
  _ ← allocate_buffer (Trie_serialized_length t);
  Trie_write_bytes t [].
Definition Trie_from_bytes (bs : bytes) : bres (Trie K V * bytes) :=
  '(tag, rem) ← u8_from_bytes bs;
  if Byte.eqb tag LEAF_TAG then
    '(key, rem) ← from_bytes rem;
    '(value, rem) ← from_bytes rem;
    Ok (Leaf key value, rem)
  else if Byte.eqb tag NODE_TAG then
    '(pb, rem) ← from_bytes rem;
    Ok (Node pb, rem)
  else if Byte.eqb tag EXTENSION_TAG then
    '(affix, rem) ← from_bytes rem;
    '(pointer, rem) ← from_bytes rem;
    Ok (Extension affix pointer, rem)
  else Err Formatting.

#[export] Instance Trie_ToBytes : ToBytes (Trie K V) := {|
  to_bytes := Trie_to_bytes; into_bytes := Trie_to_bytes;
  serialized_length := Trie_serialized_length; write_bytes := Trie_write_bytes |}.
#[export] Instance Trie_FromBytes : FromBytes (Trie K V) := default_FromBytes Trie_from_bytes.
#[export] Instance Trie_Valid : Valid (Trie K V) := fun t =>
  match t with
  | Leaf key value => valid key /\ valid value
  | Node pb => valid pb
  | Extension affix pointer => valid affix /\ valid pointer
  end.

(** What is written is the tag followed by the fields' own serialisations. *)
Definition trie_body (t : Trie K V) : bres bytes :=
  match t with
  | Leaf key value => k ← to_bytes key; v ← to_bytes value; mret (k ++ v)
  | Node pb => to_bytes pb
  | Extension affix pointer => a ← to_bytes affix; p ← to_bytes pointer; mret (a ++ p)
  end.

Lemma trie_body_total t :
  valid t -> (Z.of_nat (Trie_serialized_length t) <= u32_max)%Z -> exists body, trie_body t = Ok body.
Proof.
  unfold Trie_serialized_length. destruct t as [k v|pb|a p]; cbn [trie_body]; intros Hv Hs.
  - destruct Hv. codec_total.
  - codec_total.
  - destruct Hv. codec_total.
Qed.

Lemma Trie_write_bytes_body t body writer :
  valid t -> trie_body t = Ok body ->
  Trie_write_bytes t writer = Ok (writer ++ trie_tag t :: body).
Proof.
  unfold Trie_write_bytes. destruct t as [k v|pb|a p]; cbn [trie_body]; intros Hv Hb; codec_inv.
  - destruct Hv. rewrite (bytesrepr_write k x) by done. cbn [mbind res_bind].
    rewrite (bytesrepr_write v x0) by done. by rewrite <- !app_assoc.
  - rewrite (bytesrepr_write pb body) by done. by rewrite <- app_assoc.
  - destruct Hv. rewrite (bytesrepr_write a x) by done. cbn [mbind res_bind].
    rewrite (bytesrepr_write p x0) by done. by rewrite <- !app_assoc.
Qed.

Lemma Trie_to_bytes_Ok t out :
  valid t ->
  Trie_to_bytes t = Ok out <->
  (Z.of_nat (Trie_serialized_length t) <= u32_max)%Z /\
  exists body, trie_body t = Ok body /\ out = trie_tag t :: body.
Proof.
  intros Hv. unfold Trie_to_bytes. split.
  - intros (u & Ha%allocate_buffer_Ok & Hw)%bind_Ok. split; [done|].
    destruct (trie_body_total t Hv Ha) as [body Hb]. exists body. split; [done|].
    rewrite (Trie_write_bytes_body t body) in Hw by done. by injection Hw as <-.
  - intros [Hs (body & Hb & ->)]. rewrite allocate_buffer_fits by done. cbn [mbind res_bind].
    by rewrite (Trie_write_bytes_body t body).
Qed.

Lemma trie_body_length t body :
  valid t -> trie_body t = Ok body -> S (length body) = Trie_serialized_length t.
Proof.
  unfold Trie_serialized_length, U8_SERIALIZED_LENGTH.
  destruct t as [k v|pb|a p]; cbn [trie_body]; intros Hv Hb; codec_inv;
    try destruct Hv; rewrite ?length_app;
    repeat match goal with H : to_bytes _ = Ok _ |- _ => apply bytesrepr_length in H; [|done] end; lia.
Qed.

Lemma Trie_roundtrip t body rest :
  valid t -> trie_body t = Ok body -> Trie_from_bytes ((trie_tag t :: body) ++ rest) = Ok (t, rest).
Proof.
  unfold Trie_from_bytes. destruct t as [k v|pb|a p]; cbn [trie_body]; intros Hv Hb; codec_inv;
    cbn [app u8_from_bytes mbind res_bind trie_tag]; try destruct Hv; rewrite <- ?app_assoc;
    repeat match goal with |- context [Byte.eqb ?a ?b] =>
      let r := eval vm_compute in (Byte.eqb a b) in change (Byte.eqb a b) with r end; cbn iota.
  - rewrite (bytesrepr_roundtrip k x) by done. cbn [mbind res_bind].
    by rewrite (bytesrepr_roundtrip v x0).
  - by rewrite (bytesrepr_roundtrip pb body).
  - rewrite (bytesrepr_roundtrip a x) by done. cbn [mbind res_bind].
    by rewrite (bytesrepr_roundtrip p x0).
Qed.

#[export] Instance Trie_Bytesrepr : Bytesrepr (Trie K V).
Proof.
  apply struct_bytesrepr.
  - intros t bs rest Hv (_ & body & Hb & ->)%Trie_to_bytes_Ok; [|done]. by apply Trie_roundtrip.
  - intros t bs Hv (_ & body & Hb & ->)%Trie_to_bytes_Ok; [|done]. by apply trie_body_length.
  - intros t bs writer Hv (_ & body & Hb & ->)%Trie_to_bytes_Ok; [|done].
    by apply Trie_write_bytes_body.
  - intros t Hv Hs. destruct (trie_body_total t Hv Hs) as [body Hb].
    exists (trie_tag t :: body). apply Trie_to_bytes_Ok; [done|]. split; [done|by exists body].
  - intros bs t rest Hr. apply bind_Ok in Hr as ([tag rem] & ->%u8_from_bytes_Ok & Hr).
    repeat match type of Hr with (if ?b then _ else _) = _ => destruct b; [codec_inv|] end; try done.
    all: repeat match goal with H : from_bytes _ = _ |- _ => apply bytesrepr_sound in H as (? & ? & ->) end.
    all: split; [done|rewrite ?app_assoc, app_comm_cons; by eexists].
  - intros bs t rest more Hr. unfold Trie_from_bytes in *.
    apply bind_Ok in Hr as ([tag rem] & Hu & Hr). extend_step.
    repeat match type of Hr with
    | (if ?b then _ else _) = _ => destruct b; [codec_inv; by repeat extend_step|] end.
    done.
Qed.

Section Hash.
Context `{Blake2b} `{TreeFold1}.

Definition trie_hash (t : Trie K V) : bres Digest :=
  bs ← to_bytes t; mret (hash_bytes_into_chunks_if_necessary bs).

(** A root hash and root of the empty trie. *)
Definition create_hashed_empty_trie : bres (Digest * Trie K V) :=
  let root := Node PointerBlock_new in
  root_bytes ← to_bytes root;
  mret (hash root_bytes, root).
End Hash.

End Trie.

(** ** [TrieOrChunk] *)

Inductive TrieOrChunk :=
| TrieBytes (trie : Bytes)
| Chunk (chunk : ChunkWithProof).

Definition TRIE_TAG : Byte.byte := Byte.x00.
Definition CHUNK_TAG : Byte.byte := Byte.x01.
Definition TrieOrChunk_tag (t : TrieOrChunk) : Byte.byte :=
  match t with TrieBytes _ => TRIE_TAG | Chunk _ => CHUNK_TAG end.
Definition TrieOrChunk_write_bytes (t : TrieOrChunk) (buf : bytes) : bres bytes :=
  body ← match t with TrieBytes trie => to_bytes trie | Chunk chunk => to_bytes chunk end;
  mret ((buf ++ [TrieOrChunk_tag t]) ++ body).
Definition TrieOrChunk_serialized_length (t : TrieOrChunk) : nat :=
  U8_SERIALIZED_LENGTH +
  match t with TrieBytes trie => serialized_length trie | Chunk chunk => serialized_length chunk end.
Definition TrieOrChunk_to_bytes (t : TrieOrChunk) : bres bytes :=
  _ ← allocate_buffer (TrieOrChunk_serialized_length t);
  TrieOrChunk_write_bytes t [].
Definition TrieOrChunk_from_bytes (bs : bytes) : bres (TrieOrChunk * bytes) :=
  '(tag, rem) ← u8_from_bytes bs;
  if Byte.eqb tag TRIE_TAG then '(trie_bytes, rem) ← from_bytes rem; Ok (TrieBytes trie_bytes, rem)
  else if Byte.eqb tag CHUNK_TAG then '(chunk, rem) ← from_bytes rem; Ok (Chunk chunk, rem)
  else Err Formatting.

#[export] Instance TrieOrChunk_ToBytes : ToBytes TrieOrChunk := {|
  to_bytes := TrieOrChunk_to_bytes; into_bytes := TrieOrChunk_to_bytes;
  serialized_length := TrieOrChunk_serialized_length; write_bytes := TrieOrChunk_write_bytes |}.
#[export] Instance TrieOrChunk_FromBytes : FromBytes TrieOrChunk :=
  default_FromBytes TrieOrChunk_from_bytes.
#[export] Instance TrieOrChunk_Valid : Valid TrieOrChunk := fun t =>
  match t with TrieBytes trie => valid trie | Chunk chunk => valid chunk end.

#[export] Instance TrieOrChunk_Bytesrepr : Bytesrepr TrieOrChunk.
Proof.
  apply struct_bytesrepr;
    unfold TrieOrChunk_to_bytes, TrieOrChunk_write_bytes, TrieOrChunk_serialized_length.
  - unfold TrieOrChunk_from_bytes. intros [b|c] bs rest Hv Ht; codec_inv;
      cbn [app u8_from_bytes mbind res_bind TrieOrChunk_tag];
      repeat match goal with |- context [Byte.eqb ?a ?b] =>
        let r := eval vm_compute in (Byte.eqb a b) in change (Byte.eqb a b) with r end; cbn iota.
    + by rewrite (bytesrepr_roundtrip b x0).
    + by rewrite (bytesrepr_roundtrip c x0).
  - intros [b|c] bs Hv Ht; codec_inv; cbn [app length];
      match goal with H : to_bytes _ = Ok _ |- _ => apply bytesrepr_length in H; [|done] end;
      unfold U8_SERIALIZED_LENGTH; lia.
  - intros [b|c] bs w Hv Ht; codec_inv;
      match goal with H : to_bytes _ = Ok _ |- _ => rewrite H end; cbn [mbind res_bind];
      by rewrite <- app_assoc.
  - intros [b|c] Hv Hs; codec_total.
  - intros bs t rest Hr. apply bind_Ok in Hr as ([tag rem] & ->%u8_from_bytes_Ok & Hr).
    repeat match type of Hr with (if ?b then _ else _) = _ => destruct b; [codec_inv|] end; try done.
    all: match goal with H : from_bytes _ = _ |- _ => apply bytesrepr_sound in H as (? & ? & ->) end.
    all: split; [done|by eexists (_ :: _)].
  - intros bs t rest more Hr. unfold TrieOrChunk_from_bytes in *.
    apply bind_Ok in Hr as ([tag rem] & Hu & Hr). extend_step.
    repeat match type of Hr with
    | (if ?b then _ else _) = _ => destruct b; [codec_inv; by repeat extend_step|] end.
    done.
Qed.
