(* ===== verification/TrieStore.v ===== *)
(** * Operations on the trie store:
    [execution_engine/src/storage/trie_store/operations/mod.rs], with the store
    interface of [storage/store/mod.rs] and the proofs of
    [storage/trie/merkle_proof.rs].

    The store is the table of raw bytes under digests that LMDB or the
    in-memory environment holds within one transaction.  The loops that follow
    a key from the root carry fuel, one more than the length of the key's path:
    every iteration consumes part of the path. *)

From S2P Require Import Prelude Bytesrepr Hashing Trie.

Inductive ReadResult (A : Type) :=
| Found (a : A)
| NotFound
| RootNotFound.
Arguments Found {A} _.
Arguments NotFound {A}.
Arguments RootNotFound {A}.
#[export] Instance ReadResult_eq_dec A `{EqDecision A} : EqDecision (ReadResult A).
Proof. solve_decision. Defined.

Inductive WriteResult :=
| Written (root : Digest)
| AlreadyExists
| WriteRootNotFound.

(** Indexing and slicing panic outside the array. *)
Definition index_at {E A} (l : list A) (i : nat) : res E A := expect (l !! i).
Definition slice {E A} (l : list A) (from to : nat) : res E (list A) :=
  if (from <=? to) && (to <=? length l) then Ok (take (to - from) (drop from l)) else Panic.

Fixpoint common_prefix {A} `{EqDecision A} (ls rs : list A) : list A :=
  match ls, rs with
  | l :: ls', r :: rs' => if decide (l = r) then l :: common_prefix ls' rs' else []
  | _, _ => []
  end.

(** ** The store *)

Abbreviation store := (gmap Digest bytes).

(** ** Proofs *)

Inductive TrieMerkleProofStep :=
| StepNode (hole_index : Byte.byte) (indexed_pointers_with_hole : list (Byte.byte * Pointer))
| StepExtension (affix : Bytes).

Record TrieMerkleProof (K V : Type) := MkTrieMerkleProof {
  proof_key : K;
  proof_value : V;
  proof_steps : list TrieMerkleProofStep;
}.
Arguments MkTrieMerkleProof {K V} _ _ _.
Arguments proof_key {K V} _.
Arguments proof_value {K V} _.
Arguments proof_steps {K V} _.

Section Operations.
Context {K V : Type} `{EqDecision K} `{EqDecision V} `{Bytesrepr K} `{Bytesrepr V}.
Context `{Blake2b} `{TreeFold1}.

Abbreviation trie := (Trie K V).
Abbreviation Parents := (list (Byte.byte * trie)).

Definition get_raw (s : store) (h : Digest) : option bytes := s !! h.
Definition get (s : store) (h : Digest) : bres (option trie) :=
  match get_raw s h with
  | Some bs => value ← deserialize_from_slice bs; mret (Some value)
  | None => Ok None
  end.
Definition put_raw (s : store) (h : Digest) (bs : bytes) : store := <[h := bs]> s.
Definition put (s : store) (h : Digest) (t : trie) : bres store :=
  bs ← to_bytes t; mret (put_raw s h bs).

(** ** Reading *)

Fixpoint read_loop (fuel : nat) (s : store) (key : K) (path : bytes) (depth : nat) (current : trie)
    : bres (ReadResult V) :=
  match fuel with
  | O => OutOfFuel
  | S fuel =>
      match current with
      | Leaf leaf_key leaf_value =>
          Ok (if decide (key = leaf_key) then Found leaf_value else NotFound)
      | Node pointer_block =>
          index ← index_at path depth;
          match pb_get pointer_block index with
          | Some pointer =>
              next ← get s (pointer_hash pointer);
              match next with
              | Some next => read_loop fuel s key path (depth + 1) next
              | None => Ok NotFound
              end
          | None => Ok NotFound
          end
      | Extension affix pointer =>
          sub_path ← slice path depth (depth + length (inner_bytes affix));
          if decide (sub_path = inner_bytes affix) then
            next ← get s (pointer_hash pointer);
            match next with
            | Some next => read_loop fuel s key path (depth + length (inner_bytes affix)) next
            | None => Ok NotFound
            end
          else Ok NotFound
      end
  end.

Definition read (s : store) (root : Digest) (key : K) : bres (ReadResult V) :=
  path ← to_bytes key;
  current ← get s root;
  match current with
  | Some current => read_loop (S (length path)) s key path 0 current
  | None => Ok RootNotFound
  end.

Fixpoint read_with_proof_loop (fuel : nat) (s : store) (key : K) (path : bytes) (depth : nat)
    (current : trie) (steps : list TrieMerkleProofStep) : bres (ReadResult (TrieMerkleProof K V)) :=
  match fuel with
  | O => OutOfFuel
  | S fuel =>
      match current with
      | Leaf leaf_key value =>
          Ok (if decide (key = leaf_key) then Found (MkTrieMerkleProof leaf_key value steps)
              else NotFound)
      | Node pointer_block =>
          hole_index ← index_at path depth;
          match pb_get pointer_block hole_index with
          | None => Ok NotFound
          | Some pointer =>
              let indexed_pointers_with_hole :=
                filter (fun '(index, _) => index <> hole_index) (as_indexed_pointers pointer_block) in
              next ← get s (pointer_hash pointer);
              match next with
              | Some next =>
                  read_with_proof_loop fuel s key path (depth + 1) next
                    (StepNode hole_index indexed_pointers_with_hole :: steps)
              | None => Ok NotFound
              end
          end
      | Extension affix pointer =>
          sub_path ← slice path depth (depth + length (inner_bytes affix));
          if decide (sub_path = inner_bytes affix) then
            next ← get s (pointer_hash pointer);
            match next with
            | Some next =>
                read_with_proof_loop fuel s key path (depth + length (inner_bytes affix)) next
                  (StepExtension affix :: steps)
            | None => Ok NotFound
            end
          else Ok NotFound
      end
  end.

Definition read_with_proof (s : store) (root : Digest) (key : K)
    : bres (ReadResult (TrieMerkleProof K V)) :=
  path ← to_bytes key;
  current ← get s root;
  match current with
  | Some current => read_with_proof_loop (S (length path)) s key path 0 current []
  | None => Ok RootNotFound
  end.

(** *** Checking a proof *)

Definition step_trie (step : TrieMerkleProofStep) (pointer : Pointer) : trie :=
  match step with
  | StepNode hole_index indexed_pointers_with_hole =>
      Trie_node (indexed_pointers_with_hole ++ [(hole_index, pointer)])
  | StepExtension affix => Trie_extension (inner_bytes affix) pointer
  end.

Fixpoint hash_steps (first : bool) (h : Digest) (steps : list TrieMerkleProofStep) : bres Digest :=
  match steps with
  | [] => Ok h
  | step :: steps =>
      let pointer := if first then LeafPointer h else NodePointer h in
      proof_step_bytes ← to_bytes (step_trie step pointer);
      hash_steps false (hash proof_step_bytes) steps
  end.

Definition compute_state_hash (p : TrieMerkleProof K V) : bres Digest :=
  h ← trie_hash (Trie_leaf (proof_key p) (proof_value p));
  hash_steps true h (proof_steps p).

(** ** Writing *)

Fixpoint scan_loop (fuel : nat) (s : store) (path : bytes) (depth : nat) (current : trie) (acc : Parents)
    : bres (option (trie * Parents)) :=
  match fuel with
  | O => OutOfFuel
  | S fuel =>
      match current with
      | Leaf _ _ => Ok (Some (current, acc))
      | Node pointer_block =>
          index ← index_at path depth;
          match pb_get pointer_block index with
          | None => Ok (Some (current, acc))
          | Some pointer =>
              next ← get s (pointer_hash pointer);
              match next with
              | Some next => scan_loop fuel s path (depth + 1) next (acc ++ [(index, current)])
              | None => Ok None
              end
          end
      | Extension affix pointer =>
          sub_path ← slice path depth (depth + length (inner_bytes affix));
          if decide (sub_path = inner_bytes affix) then
            next ← get s (pointer_hash pointer);
            match next with
            | Some next =>
                index ← index_at path depth;
                scan_loop fuel s path (depth + length (inner_bytes affix)) next (acc ++ [(index, current)])
            | None => Ok None
            end
          else Ok (Some (current, acc))
      end
  end.

Definition scan (s : store) (key_bytes : bytes) (root : trie) : bres (option (trie * Parents)) :=
  scan_loop (S (length key_bytes)) s key_bytes 0 root [].

(** One iteration of [rehash]'s loop over the parents. *)
Definition reseat (index : Byte.byte) (parent tip : trie) (tip_hash : Digest) : bres trie :=
  match parent with
  | Leaf _ _ => Panic
  | Node pointer_block =>
      let pointer :=
        match tip with
        | Leaf _ _ => LeafPointer tip_hash
        | Node _ => NodePointer tip_hash
        | Extension _ _ => NodePointer tip_hash
        end in
      Ok (Node (pb_set pointer_block index (Some pointer)))
  | Extension affix pointer => Ok (Extension affix (pointer_update pointer tip_hash))
  end.

Fixpoint rehash_loop (tip : trie) (tip_hash : Digest) (rev_parents : Parents) (ret : list (Digest * trie))
    : bres (list (Digest * trie)) :=
  match rev_parents with
  | [] => Ok ret
  | (index, parent) :: rev_parents =>
      tip ← reseat index parent tip tip_hash;
      tip_hash ← trie_hash tip;
      rehash_loop tip tip_hash rev_parents (ret ++ [(tip_hash, tip)])
  end.

Definition rehash (tip : trie) (parents : Parents) : bres (list (Digest * trie)) :=
  tip_hash ← trie_hash tip;
  rehash_loop tip tip_hash (rev parents) [(tip_hash, tip)].

Definition get_parents_path (parents : Parents) : bytes :=
  parents ≫= fun '(index, element) =>
    match element with
    | Extension affix _ => inner_bytes affix
    | _ => [index]
    end.

Definition add_node_to_parents (path_to_leaf : bytes) (new_parent_node : trie) (parents : Parents)
    : bres Parents :=
  _ ← match new_parent_node with Node _ => Ok tt | _ => Panic end;
  let path_to_node := get_parents_path parents in
  let current_path := common_prefix path_to_leaf path_to_node in
  _ ← rassert (bool_decide (current_path = path_to_node));
  let depth := length path_to_node in
  index ← index_at path_to_leaf depth;
  mret (parents ++ [(index, new_parent_node)]).

Definition reparent_leaf (new_leaf_path existing_leaf_path : bytes) (parents : Parents)
    : bres (trie * Parents) :=
  '(child_index, parent) ← expect (last parents);
  pointer_block ← match parent with Node pb => Ok pb | _ => Panic end;
  let shared_path := common_prefix new_leaf_path existing_leaf_path in
  index ← index_at existing_leaf_path (length shared_path);
  existing_leaf_pointer ← expect (pb_get pointer_block child_index);
  let new_node := Trie_node [(index, existing_leaf_pointer)] in
  let parents_path := get_parents_path parents in
  affix ← slice shared_path (length parents_path) (length shared_path);
  match affix with
  | [] => mret (new_node, parents)
  | _ :: _ =>
      new_node_hash ← trie_hash new_node;
      mret (new_node, parents ++ [(child_index, Trie_extension affix (NodePointer new_node_hash))])
  end.

Record SplitResult := {
  new_node : trie;
  split_parents : Parents;
  maybe_hashed_child_extension : option (Digest * trie);
}.

Definition split_extension (new_leaf_path : bytes) (existing_extension : trie) (parents : Parents)
    : bres SplitResult :=
  '(affix, pointer) ← match existing_extension with
    | Extension affix pointer => Ok (inner_bytes affix, pointer)
    | _ => Panic
    end;
  let parents_path := get_parents_path parents in
  let existing_extension_path := parents_path ++ affix in
  let shared_path := common_prefix new_leaf_path existing_extension_path in
  parent_extension_affix ← slice shared_path (length parents_path) (length shared_path);
  child_extension_affix ← slice affix (length parent_extension_affix + 1) (length affix);
  maybe_child ← match child_extension_affix with
    | [] => mret None
    | _ :: _ =>
        let child_extension := Trie_extension child_extension_affix pointer in
        child_extension_hash ← trie_hash child_extension;
        mret (Some (child_extension_hash, child_extension))
    end;
  index ← index_at existing_extension_path (length shared_path);
  let new_node := Trie_node [(index,
    match maybe_child with Some (hash, _) => NodePointer hash | None => pointer end)] in
  parents ← match parent_extension_affix with
    | [] => mret parents
    | first :: _ =>
        new_node_hash ← trie_hash new_node;
        mret (parents ++ [(first, Trie_extension parent_extension_affix (NodePointer new_node_hash))])
    end;
  mret {| new_node := new_node; split_parents := parents; maybe_hashed_child_extension := maybe_child |}.

(** The trie elements a write adds, from the tip the scan stopped at. *)
Definition new_elements (path : bytes) (key : K) (value : V) (tip : trie) (parents : Parents)
    : bres (list (Digest * trie)) :=
  let new_leaf := Leaf key value in
  match tip with
  | Leaf leaf_key leaf_value =>
      if decide (new_leaf = tip) then Ok []
      else if decide (key = leaf_key /\ value <> leaf_value) then rehash new_leaf parents
      else if decide (key <> leaf_key) then
        existing_leaf_path ← to_bytes leaf_key;
        '(new_node, parents) ← reparent_leaf path existing_leaf_path parents;
        parents ← add_node_to_parents path new_node parents;
        rehash new_leaf parents
      else Panic
  | Node _ =>
      parents ← add_node_to_parents path tip parents;
      rehash new_leaf parents
  | Extension _ _ =>
      split ← split_extension path tip parents;
      parents ← add_node_to_parents path (new_node split) (split_parents split);
      match maybe_hashed_child_extension split with
      | Some hashed_extension =>
          rest ← rehash new_leaf parents;
          mret (hashed_extension :: rest)
      | None => rehash new_leaf parents
      end
  end.

Fixpoint put_all (s : store) (root_hash : Digest) (elements : list (Digest * trie))
    : bres (store * Digest) :=
  match elements with
  | [] => Ok (s, root_hash)
  | (hash, element) :: elements =>
      s ← put s hash element;
      put_all s hash elements
  end.

Definition write (s : store) (root : Digest) (key : K) (value : V) : bres (store * WriteResult) :=
  current ← get s root;
  match current with
  | None => Ok (s, WriteRootNotFound)
  | Some current_root =>
      path ← to_bytes key;
      scanned ← scan s path current_root;
      match scanned with
      | None => Ok (s, WriteRootNotFound)
      | Some (tip, parents) =>
          elements ← new_elements path key value tip parents;
          match elements with
          | [] => Ok (s, AlreadyExists)
          | _ :: _ =>
              '(s, root_hash) ← put_all s root elements;
              mret (s, Written root_hash)
          end
      end
  end.

Definition put_trie (s : store) (trie_bytes : bytes) : store * Digest :=
  let trie_hash := hash_bytes_into_chunks_if_necessary trie_bytes in
  (put_raw s trie_hash trie_bytes, trie_hash).

End Operations.
