(* ===== verification/TrieInv.v ===== *)
(** * The invariant of the trie store.

    [reps s p t m] says that in the store [s] the trie node [t], reached along
    the path [p], holds exactly the entries of the map [m], in the canonical
    shape the operations keep: every node but the root has at least two
    children, an extension has a non-empty affix and leads to a node, a pointer
    tells the kind of what it points to, and every pointer's digest is that of
    the bytes stored under it. *)

From S2P Require Import Prelude Bytesrepr Hashing Trie TrieStore.

(** ** What a key type owes the trie *)

(** The serialisations of keys are non-empty, of bounded length, and two of
    them that start with the same byte have the same length. *)
Class TrieKey (K : Type) `{Bytesrepr K} := {
  trie_key_max : nat;
  trie_key_max_small : (trie_key_max <= 1024)%nat;
  trie_key_bytes (k : K) : valid k ->
    exists b r, to_bytes k = Ok (b :: r) /\ (length (b :: r) <= trie_key_max)%nat;
  trie_key_same_length (k1 k2 : K) b r1 r2 : valid k1 -> valid k2 ->
    to_bytes k1 = Ok (b :: r1) -> to_bytes k2 = Ok (b :: r2) -> length r1 = length r2;
}.

(** ** Pointer blocks as finite functions *)

Lemma pb_get_set pb i j p :
  valid pb -> pb_get (pb_set pb i p) j = if decide (i = j) then p else pb_get pb j.
Proof.
  intros [Hl _]. unfold pb_get, pb_set. cbn [pointers]. case_decide as E.
  - subst j. rewrite list_lookup_insert_eq; [done|]. rewrite Hl. apply b2n_lt.
  - rewrite list_lookup_insert_ne; [done|]. intros E'. by apply b2n_inj in E'.
Qed.

Lemma pb_get_new i : pb_get PointerBlock_new i = None.
Proof. unfold pb_get. cbn [pointers PointerBlock_new]. by destruct (_ !! _) eqn:E; [apply lookup_replicate_1 in E as [-> _]|]. Qed.

Lemma PointerBlock_new_valid : valid PointerBlock_new.
Proof.
  split; [exact (length_replicate _ _)|]. apply (Forall_replicate _ RADIX None). exact I.
Qed.

Lemma pb_set_valid pb i p : valid pb -> valid p -> valid (pb_set pb i p).
Proof.
  intros [Hl Hv] Hp. split; cbn [pointers pb_set]; [by rewrite length_insert|].
  by apply Forall_insert.
Qed.

Lemma pb_get_valid pb i p : valid pb -> pb_get pb i = Some p -> valid (pointer_hash p).
Proof.
  intros [_ Hv]. unfold pb_get. destruct (pointers pb !! b2n i) as [[q|]|] eqn:E; cbn; try done.
  intros [= ->]. rewrite Forall_lookup in Hv. exact (Hv _ _ E).
Qed.

Lemma pb_ext pb1 pb2 : valid pb1 -> valid pb2 -> (forall i, pb_get pb1 i = pb_get pb2 i) -> pb1 = pb2.
Proof.
  intros [L1 _] [L2 _] E. destruct pb1 as [l1], pb2 as [l2]. cbn [pointers] in *. f_equal.
  apply list_eq_same_length with RADIX; [done|done|]. intros n x y Hn X Y.
  specialize (E (n2b n)). unfold pb_get in E. cbn [pointers] in E.
  rewrite b2n_n2b, X, Y in E by exact Hn. exact E.
Qed.

Lemma from_one_pointer_get i p j :
  pb_get (from_indexed_pointers [(i, p)]) j = if decide (i = j) then Some p else None.
Proof.
  cbn [from_indexed_pointers foldl]. rewrite pb_get_set by apply PointerBlock_new_valid.
  case_decide; [done|apply pb_get_new].
Qed.

Lemma from_one_pointer_valid i p : valid (pointer_hash p) -> valid (from_indexed_pointers [(i, p)]).
Proof. intros Hp. apply pb_set_valid; [apply PointerBlock_new_valid|exact Hp]. Qed.

Lemma PointerBlock_length_bound pb :
  valid pb -> (PointerBlock_serialized_length pb <= 34 * RADIX)%nat.
Proof.
  intros [Hl _]. unfold PointerBlock_serialized_length. rewrite <- Hl. clear Hl.
  induction (pointers pb) as [|o l IH]; [cbn; lia|]. rewrite fmap_cons. cbn [sum_list_with length id].
  assert (serialized_length o <= 34)%nat by (destruct o; apply Nat.leb_le; done). lia.
Qed.

(** ** Paths *)

Lemma prefix_snoc_inv {A} (p : list A) i j k :
  p ++ [i] `prefix_of` k -> p ++ [j] `prefix_of` k -> i = j.
Proof.
  intros [u ->] [w E]. rewrite <- !app_assoc in E. apply app_inv_head in E. by injection E.
Qed.

Lemma prefix_extend {A} (p k : list A) :
  p `prefix_of` k -> (length p < length k)%nat -> exists i, k !! length p = Some i /\ p ++ [i] `prefix_of` k.
Proof.
  intros [u ->] Hl. rewrite length_app in Hl. destruct u as [|i u]; [cbn in Hl; lia|].
  exists i. split; [by rewrite lookup_app_r, Nat.sub_diag|]. exists u. by rewrite <- app_assoc.
Qed.

Lemma prefix_snoc_lookup {A} (p : list A) i k : p ++ [i] `prefix_of` k -> k !! length p = Some i.
Proof. intros [u ->]. rewrite <- app_assoc, lookup_app_r by lia. by rewrite Nat.sub_diag. Qed.

Lemma prefix_same_head {A} (p q : list A) k1 k2 :
  p <> [] -> p `prefix_of` k1 -> p `prefix_of` k2 -> exists b r1 r2, k1 = b :: r1 /\ k2 = b :: r2.
Proof. destruct p as [|b p]; [done|]. intros _ [u ->] [w ->]. by eexists _, _, _. Qed.

Section Inv.
Context {K V : Type} `{Countable K} `{EqDecision V} `{Bytesrepr K} `{Bytesrepr V}.
Context `{!TrieKey K} `{Blake2b} `{TreeFold1}.

Abbreviation trie := (Trie K V).
Abbreviation Parents := (list (Byte.byte * trie)).

Definition key_path (k : K) : bytes := match to_bytes k with Ok bs => bs | _ => [] end.

Lemma key_path_to_bytes k : valid k -> to_bytes k = Ok (key_path k).
Proof. intros Hk. unfold key_path. by destruct (trie_key_bytes k Hk) as (b & r & -> & _). Qed.

Lemma key_path_cons k : valid k -> exists b r, key_path k = b :: r.
Proof.
  intros Hk. unfold key_path. destruct (trie_key_bytes k Hk) as (b & r & -> & _). by exists b, r.
Qed.

Lemma key_path_bound k : valid k -> (length (key_path k) <= 1024)%nat.
Proof.
  intros Hk. unfold key_path. destruct (trie_key_bytes k Hk) as (b & r & -> & ?).
  pose proof trie_key_max_small. lia.
Qed.

Lemma key_path_inj k1 k2 :
  valid k1 -> valid k2 -> key_path k1 `prefix_of` key_path k2 -> k1 = k2.
Proof.
  intros V1 V2. apply to_bytes_prefix_free; [done|done| |]; by apply key_path_to_bytes.
Qed.

Lemma key_path_same_length p k1 k2 :
  valid k1 -> valid k2 -> p <> [] -> p `prefix_of` key_path k1 -> p `prefix_of` key_path k2 ->
  length (key_path k1) = length (key_path k2).
Proof.
  intros V1 V2 Hp P1 P2. destruct (prefix_same_head p p _ _ Hp P1 P2) as (b & r1 & r2 & E1 & E2).
  rewrite E1, E2. cbn. f_equal.
  apply (trie_key_same_length k1 k2 b); [done|done| |]; rewrite key_path_to_bytes by done; congruence.
Qed.

(** ** Stored nodes *)

Abbreviation digest := hash_bytes_into_chunks_if_necessary.

Definition stored (s : store) (h : Digest) (t : trie) : Prop :=
  valid t /\ exists bs, to_bytes t = Ok bs /\ h = digest bs /\ s !! h = Some bs.

Lemma stored_get s h t : stored s h t -> get s h = Ok (Some t).
Proof.
  intros (Hv & bs & Hb & -> & Hs). unfold get, get_raw. rewrite Hs.
  by destruct (deserialize_serialize t bs Hv Hb) as [_ ->].
Qed.

Lemma stored_mono s s' h t : s ⊆ s' -> stored s h t -> stored s' h t.
Proof.
  intros Hs (Hv & bs & Hb & Hh & Hl). split; [done|]. exists bs. split_and!; [done|done|].
  by eapply lookup_weaken.
Qed.

Lemma stored_hash s h t : stored s h t -> trie_hash t = Ok h.
Proof. intros (_ & bs & Hb & -> & _). unfold trie_hash. by rewrite Hb. Qed.

(** The pointer a node keeps to a child. *)
Definition points_to (s : store) (ptr : Pointer) (t : trie) : Prop :=
  stored s (pointer_hash ptr) t /\
  match ptr, t with
  | LeafPointer _, Leaf _ _ | NodePointer _, (Node _ | Extension _ _) => True
  | _, _ => False
  end.

Lemma points_to_mono s s' ptr t : s ⊆ s' -> points_to s ptr t -> points_to s' ptr t.
Proof. intros Hs [Hp Hk]. split; [by eapply stored_mono|done]. Qed.

Lemma points_to_unique s1 s2 p1 p2 t : points_to s1 p1 t -> points_to s2 p2 t -> p1 = p2.
Proof.
  intros [S1 K1] [S2 K2]. apply stored_hash in S1, S2. rewrite S1 in S2. injection S2 as E.
  destruct p1, p2, t; cbn in *; try done; by subst.
Qed.

(** ** Representation *)

Inductive reps (s : store) : bytes -> trie -> gmap K V -> Prop :=
| reps_leaf p k v :
    valid k -> valid v -> p `prefix_of` key_path k ->
    reps s p (Leaf k v) {[k := v]}
| reps_node p pb (c : Byte.byte -> trie) (f : Byte.byte -> gmap K V) m :
    valid pb ->
    (p = [] \/ exists i j, i <> j /\ is_Some (pb_get pb i) /\ is_Some (pb_get pb j)) ->
    (forall i ptr, pb_get pb i = Some ptr -> points_to s ptr (c i)) ->
    (forall i ptr, pb_get pb i = Some ptr -> reps s (p ++ [i]) (c i) (f i)) ->
    (forall i, pb_get pb i = None -> f i = ∅) ->
    (forall k v, m !! k = Some v <-> exists i, f i !! k = Some v) ->
    reps s p (Node pb) m
| reps_ext p affix h pb m :
    p <> [] -> inner_bytes affix <> [] -> stored s h (Node pb) ->
    reps s (p ++ inner_bytes affix) (Node pb) m ->
    reps s p (Extension affix (NodePointer h)) m.

Lemma reps_leaf_inv s p k v m :
  reps s p (Leaf k v) m ->
  m = {[k := v]} /\ valid k /\ valid v /\ p `prefix_of` key_path k.
Proof. by inversion 1. Qed.

(** [m] is the content of the trie under [root]. *)
Definition rooted (s : store) (root : Digest) (m : gmap K V) : Prop :=
  exists pb, stored s root (Node pb) /\ reps s [] (Node pb) m.

Lemma reps_mono s s' p t m : s ⊆ s' -> reps s p t m -> reps s' p t m.
Proof.
  intros Hs. induction 1 as [|p pb c f m Hv Hc Hp _ IH He Hm|p a h pb m Hp Ha Hst _ IH].
  - by constructor.
  - apply (reps_node s' p pb c f); try done. intros i ptr Hi. eapply points_to_mono; [done|by eapply Hp].
  - apply (reps_ext s' p a h pb); try done. by eapply stored_mono.
Qed.

Lemma rooted_mono s s' root m : s ⊆ s' -> rooted s root m -> rooted s' root m.
Proof.
  intros Hs (pb & ? & ?). exists pb. split; [by eapply stored_mono|by eapply reps_mono].
Qed.

Lemma reps_keys s p t m k v :
  reps s p t m -> m !! k = Some v -> valid k /\ valid v /\ p `prefix_of` key_path k.
Proof.
  intros R. revert k v.
  induction R as [p k v Hk Hv Hp|p pb c f m Hv Hc Hp _ IH He Hm|p a h pb m Hp Ha Hst _ IH];
    intros k' v' Hl.
  - apply lookup_singleton_Some in Hl as [<- <-]. done.
  - apply Hm in Hl as [i Hi]. destruct (pb_get pb i) as [ptr|] eqn:E.
    + destruct (IH i ptr E _ _ Hi) as (? & ? & Hpre). split_and!; [done|done|].
      etrans; [by apply prefix_app_r|exact Hpre].
    + by rewrite He in Hi.
  - destruct (IH _ _ Hl) as (? & ? & Hpre). split_and!; [done|done|].
    etrans; [by apply prefix_app_r|exact Hpre].
Qed.

(** Below the root every subtree holds an entry. *)
Lemma reps_nonempty s p t m : reps s p t m -> p <> [] -> exists k v, m !! k = Some v.
Proof.
  induction 1 as [p k v Hk Hv Hp|p pb c f m Hv Hc Hp _ IH He Hm|p a h pb m Hp Ha Hst _ IH]; intros Hne.
  - exists k, v. apply lookup_singleton_eq.
  - destruct Hc as [?|(i & j & _ & [ptr Hi] & _)]; [done|].
    destruct (IH i ptr Hi) as (k & v & Hk); [by destruct p|]. exists k, v. apply Hm. by exists i.
  - apply IH. by destruct p.
Qed.

(** The entry of a key lives in the child its next byte selects. *)
Lemma node_child s p pb c (f : Byte.byte -> gmap K V) (m : gmap K V) i k :
  (forall i ptr, pb_get pb i = Some ptr -> reps s (p ++ [i]) (c i) (f i)) ->
  (forall i, pb_get pb i = None -> f i = ∅) ->
  (forall k v, m !! k = Some v <-> exists i, f i !! k = Some v) ->
  p ++ [i] `prefix_of` key_path k ->
  m !! k = f i !! k.
Proof.
  intros Hr He Hm Hp. apply option_eq. intros v. rewrite Hm. split; [|by exists i].
  intros [j Hj]. destruct (pb_get pb j) as [ptr|] eqn:E; [|by rewrite He in Hj].
  destruct (reps_keys _ _ _ _ _ _ (Hr j ptr E) Hj) as (_ & _ & Hpre).
  by rewrite (prefix_snoc_inv p i j (key_path k)).
Qed.

(** Every key that reaches a subtree below the root has bytes left for it. *)
Lemma reps_node_depth s p pb m k :
  reps s p (Node pb) m -> valid k -> p `prefix_of` key_path k -> (length p < length (key_path k))%nat.
Proof.
  intros R Hk Hp. destruct (decide (p = [])) as [->|Hne].
  { destruct (key_path_cons k Hk) as (b & r & ->). cbn. lia. }
  destruct (reps_nonempty _ _ _ _ R Hne) as (k' & v' & Hl).
  destruct (reps_keys _ _ _ _ _ _ R Hl) as (Hk' & _ & Hp').
  rewrite (key_path_same_length p k k') by done.
  inversion R as [|? ? c f ? Hv Hc Hpt Hr He Hm|]; subst.
  apply Hm in Hl as [i Hi]. destruct (pb_get pb i) as [ptr|] eqn:E; [|by rewrite He in Hi].
  destruct (reps_keys _ _ _ _ _ _ (Hr i ptr E) Hi) as (_ & _ & Hpre).
  apply prefix_length in Hpre. rewrite length_app in Hpre. cbn in Hpre. lia.
Qed.

Lemma reps_ext_depth s p a h m k :
  reps s p (Extension a (NodePointer h)) m -> valid k -> p `prefix_of` key_path k ->
  (length p + length (inner_bytes a) < length (key_path k))%nat.
Proof.
  intros R Hk Hp. inversion R as [| |? ? ? pb ? Hne Ha Hst Rn]; subst.
  destruct (reps_nonempty _ _ _ _ R Hne) as (k' & v' & Hl).
  destruct (reps_keys _ _ _ _ _ _ R Hl) as (Hk' & _ & Hp').
  rewrite (key_path_same_length p k k') by done.
  destruct (reps_keys _ _ _ _ _ _ Rn Hl) as (_ & _ & Hpre).
  pose proof (reps_node_depth _ _ _ _ _ Rn Hk' Hpre) as L. rewrite length_app in L. lia.
Qed.

End Inv.
