(* ===== verification/TrieRead.v ===== *)
(** * Reading the trie: [read] refines lookup in the represented map, the root
    hash is a function of the content, and Merkle proofs are complete and sound. *)

From S2P Require Import Prelude Bytesrepr Hashing Trie TrieStore TrieInv.

(** ** Slices *)

Lemma slice_prefix {E} (p a k : bytes) :
  p `prefix_of` k -> (length p + length a <= length k)%nat ->
  exists sub, @slice E _ k (length p) (length p + length a) = Ok sub /\ (sub = a <-> p ++ a `prefix_of` k).
Proof.
  intros [u ->] Hl. rewrite length_app in Hl. unfold slice.
  destruct (Nat.leb_spec (length p) (length p + length a)); [|lia].
  destruct (Nat.leb_spec (length p + length a) (length (p ++ u))); [|rewrite length_app in *; lia].
  eexists. split; [done|]. rewrite drop_app_length.
  replace (length p + length a - length p)%nat with (length a) by lia. split.
  - intros <-. exists (drop (length a) u). by rewrite <- app_assoc, take_drop.
  - intros [w E']. rewrite <- app_assoc in E'. apply app_inv_head in E' as ->. apply take_app_length.
Qed.

Lemma index_at_prefix {E} (p k : bytes) :
  p `prefix_of` k -> (length p < length k)%nat ->
  exists i, @index_at E _ k (length p) = Ok i /\ p ++ [i] `prefix_of` k.
Proof.
  intros Hp Hl. destruct (prefix_extend p k Hp Hl) as (i & Hi & Hpre).
  exists i. split; [unfold index_at; by rewrite Hi|done].
Qed.

Section Read.
Context {K V : Type} `{Countable K} `{EqDecision V} `{Bytesrepr K} `{Bytesrepr V}.
Context `{!TrieKey K} `{Blake2b} `{TreeFold1}.

Definition lookup_result {A} (o : option A) : ReadResult A :=
  match o with Some v => Found v | None => NotFound end.

Lemma read_loop_correct s p (t : Trie K V) m k fuel :
  reps s p t m -> valid k -> p `prefix_of` key_path k ->
  (length (key_path k) < fuel + length p)%nat ->
  read_loop fuel s k (key_path k) (length p) t = Ok (lookup_result (m !! k)).
Proof.
  intros R Hk. revert fuel.
  induction R as [p k' v Hk' Hv Hp|p pb c f m Hv Hc Hp Hr IH He Hm|p a h pb m Hp Ha Hst Rn IH];
    intros fuel Hpre Hf; pose proof (prefix_length _ _ Hpre);
    (destruct fuel as [|fuel]; [lia|]); cbn [read_loop].
  - case_decide as E; [subst k'; by rewrite lookup_singleton_eq|by rewrite lookup_singleton_ne].
  - destruct (index_at_prefix (E:=Error) p (key_path k)) as (i & -> & Hi); [done| |].
    { eapply (reps_node_depth s p pb m k); [by eapply reps_node|done|done]. }
    cbn [mbind res_bind]. rewrite (node_child s p pb c f m i k) by done.
    destruct (pb_get pb i) as [ptr|] eqn:E; [|by rewrite He].
    destruct (Hp i ptr E) as [Hst _]. rewrite (stored_get _ _ _ Hst). cbn [mbind res_bind].
    replace (length p + 1)%nat with (length (p ++ [i])) by (rewrite length_app; cbn; lia).
    apply (IH i ptr E); [done|]. rewrite length_app. cbn. lia.
  - pose proof (reps_ext_depth s p a h m k (reps_ext s p a h pb m Hp Ha Hst Rn) Hk Hpre) as Hd.
    destruct (slice_prefix (E:=Error) p (inner_bytes a) (key_path k)) as (sub & -> & Hsub);
      [done|lia|]. cbn [mbind res_bind]. case_decide as E.
    + rewrite (stored_get _ _ _ Hst : get s (pointer_hash (NodePointer h)) = _). cbn [mbind res_bind].
      rewrite <- length_app. apply IH; [by apply Hsub|]. rewrite length_app.
      destruct (inner_bytes a); [done|]. cbn. lia.
    + destruct (m !! k) as [v|] eqn:El; [|done]. exfalso.
      destruct (reps_keys _ _ _ _ _ _ Rn El) as (_ & _ & Hpre'). tauto.
Qed.

Lemma read_rooted s root (m : gmap K V) k :
  rooted s root m -> valid k -> read (V:=V) s root k = Ok (lookup_result (m !! k)).
Proof.
  intros (pb & Hst & R) Hk. unfold read. rewrite key_path_to_bytes by done. cbn [mbind res_bind].
  rewrite (stored_get _ _ _ Hst). cbn [mbind res_bind].
  apply (read_loop_correct s []); [done|done|apply prefix_nil|cbn; lia].
Qed.

(** ** The shape is canonical *)

(** Below the root, a node has two entries that part at its depth. *)
Lemma reps_node_two s p pb (m : gmap K V) :
  reps s p (Node pb) m -> p <> [] ->
  exists k1 k2 v1 v2 i j, i <> j /\ m !! k1 = Some v1 /\ m !! k2 = Some v2 /\
    p ++ [i] `prefix_of` key_path k1 /\ p ++ [j] `prefix_of` key_path k2.
Proof.
  intros R Hne. inversion R as [|? ? c f ? Hv Hc Hpt Hr He Hm|]; subst.
  destruct Hc as [?|(i & j & Hij & [pi Hi] & [pj Hj])]; [done|].
  destruct (reps_nonempty _ _ _ _ (Hr i pi Hi)) as (k1 & v1 & L1); [by destruct p|].
  destruct (reps_nonempty _ _ _ _ (Hr j pj Hj)) as (k2 & v2 & L2); [by destruct p|].
  exists k1, k2, v1, v2, i, j. split_and!; [done|by apply Hm; exists i|by apply Hm; exists j| |].
  - by apply (reps_keys _ _ _ _ _ _ (Hr i pi Hi)) in L1 as (_ & _ & ?).
  - by apply (reps_keys _ _ _ _ _ _ (Hr j pj Hj)) in L2 as (_ & _ & ?).
Qed.

Lemma leaf_not_node s1 s2 p k v pb (m : gmap K V) :
  reps s1 p (Leaf k v) m -> reps s2 p (Node pb) m -> p <> [] -> False.
Proof.
  intros R1 R2 Hne. inversion R1; subst.
  destruct (reps_node_two _ _ _ _ R2 Hne) as (k1 & k2 & v1 & v2 & i & j & Hij & L1 & L2 & P1 & P2).
  apply lookup_singleton_Some in L1 as [<- _], L2 as [<- _]. by apply Hij, (prefix_snoc_inv p _ _ (key_path k)).
Qed.

(** All entries below an extension share its affix, those below a node do not. *)
Lemma affix_not_node s1 p a q pb (m : gmap K V) :
  reps s1 p (Node pb) m -> p <> [] ->
  (forall k v, m !! k = Some v -> p ++ a :: q `prefix_of` key_path k) -> False.
Proof.
  intros R Hne Hall.
  destruct (reps_node_two _ _ _ _ R Hne) as (k1 & k2 & v1 & v2 & i & j & Hij & L1 & L2 & P1 & P2).
  assert (forall k : K, p ++ a :: q `prefix_of` key_path k -> p ++ [a] `prefix_of` key_path k) as Hcut.
  { intros k [u Hu]. exists (q ++ u). by rewrite Hu, <- !app_assoc. }
  pose proof (Hcut _ (Hall _ _ L1)). pose proof (Hcut _ (Hall _ _ L2)).
  apply Hij. trans a; [by eapply (prefix_snoc_inv p _ _ (key_path k1))|
    by eapply (prefix_snoc_inv p _ _ (key_path k2))].
Qed.

Lemma reps_affix s p a h (m : gmap K V) k v :
  reps s p (Extension a (NodePointer h)) m -> m !! k = Some v -> p ++ inner_bytes a `prefix_of` key_path k.
Proof.
  intros R Hl. inversion R as [| |? ? ? pb ? Hne Ha Hst Rn]; subst.
  by destruct (reps_keys _ _ _ _ _ _ Rn Hl) as (_ & _ & ?).
Qed.

Lemma ext_not_node s1 s2 p a ptr pb (m : gmap K V) :
  reps s1 p (Extension a ptr) m -> reps s2 p (Node pb) m -> False.
Proof.
  intros R1 R2. inversion R1 as [| |? ? h ? ? Hne Ha Hst Rn]; subst.
  destruct (inner_bytes a) as [|b q] eqn:E; [done|].
  apply (affix_not_node s2 p b q pb m R2 Hne). intros k v Hl.
  rewrite <- E. by eapply reps_affix.
Qed.

Lemma reps_canonical s1 s2 p (t1 t2 : Trie K V) m :
  reps s1 p t1 m -> reps s2 p t2 m ->
  p <> [] \/ (exists pb1 pb2, t1 = Node pb1 /\ t2 = Node pb2) -> t1 = t2.
Proof.
  intros R1. revert t2.
  induction R1 as [p k v Hk Hv Hp|p pb c f m Hv Hc Hp Hr IH He Hm|p a h pb m Hp Ha Hst Rn IH];
    intros t2 R2 Hside.
  - assert (p <> []) as Hne by (destruct Hside as [?|(? & ? & ? & ?)]; done).
    assert (reps s1 p (Leaf k v) {[k := v]}) as R1 by by constructor.
    destruct t2 as [k2 v2|pb2|a2 p2].
    + apply reps_leaf_inv in R2 as (E & _). assert (({[k2 := v2]} : gmap K V) !! k = Some v) as L
        by (rewrite <- E; apply lookup_singleton_eq).
      by apply lookup_singleton_Some in L as [-> ->].
    + exfalso. by eapply leaf_not_node.
    + exfalso. inversion R2 as [| |? ? ? pb2 ? _ Ha Hst Rn2]; subst.
      assert (p ++ inner_bytes a2 <> []) as Hq by (destruct p; done).
      eapply (leaf_not_node s1 s2 (p ++ inner_bytes a2) k v); [|done|done].
      constructor; [done|done|]. eapply reps_affix; [done|apply lookup_singleton_eq].
  - destruct t2 as [k2 v2|pb2|a2 p2].
    + exfalso. destruct Hside as [Hne|(? & ? & ? & ?)]; [|done].
      eapply (leaf_not_node s2 s1 p); [done| |done]. by apply (reps_node s1 p pb c f).
    + f_equal. inversion R2 as [|? ? c2 f2 ? Hv2 Hc2 Hp2 Hr2 He2 Hm2|]; subst.
      assert (forall i, f i = f2 i) as Hf.
      { intros i. apply map_eq. intros k.
        destruct (f i !! k) as [v|] eqn:E1, (f2 i !! k) as [v'|] eqn:E2; try done.
        all: try (assert (m !! k = Some v) as M1 by (apply Hm; by exists i)).
        all: try (assert (m !! k = Some v') as M2 by (apply Hm2; by exists i)).
        - congruence.
        - exfalso. destruct (pb_get pb i) eqn:Ei; [|by rewrite He in E1].
          apply (reps_keys _ _ _ _ _ _ (Hr i _ Ei)) in E1 as (_ & _ & Hpre).
          rewrite (node_child s2 p pb2 c2 f2 m i k), E2 in M1 by done. done.
        - exfalso. destruct (pb_get pb2 i) eqn:Ei; [|by rewrite He2 in E2].
          apply (reps_keys _ _ _ _ _ _ (Hr2 i _ Ei)) in E2 as (_ & _ & Hpre).
          rewrite (node_child s1 p pb c f m i k), E1 in M2 by done. done. }
      apply pb_ext; [done|done|]. intros i.
      destruct (pb_get pb i) as [p1|] eqn:E1, (pb_get pb2 i) as [p2|] eqn:E2; [| | |done].
      * f_equal. apply (points_to_unique s1 s2 p1 p2 (c i)); [by apply Hp|].
        rewrite (IH i p1 E1 (c2 i)); [by apply Hp2| |left; by destruct p].
        rewrite Hf. by apply (Hr2 i p2).
      * exfalso. destruct (reps_nonempty _ _ _ _ (Hr i p1 E1)) as (k & v & Hl); [by destruct p|].
        by rewrite Hf, He2 in Hl.
      * exfalso. destruct (reps_nonempty _ _ _ _ (Hr2 i p2 E2)) as (k & v & Hl); [by destruct p|].
        by rewrite <- Hf, He in Hl.
    + exfalso. eapply (ext_not_node s2 s1 p); [done|]. by apply (reps_node s1 p pb c f).
  - assert (reps s1 p (Extension a (NodePointer h)) m) as R1 by by apply (reps_ext s1 p a h pb).
    destruct t2 as [k2 v2|pb2|a2 p2].
    + exfalso. assert (p ++ inner_bytes a <> []) as Hq by (destruct p; done).
      apply reps_leaf_inv in R2 as (-> & ? & ? & ?).
      eapply (leaf_not_node s2 s1 (p ++ inner_bytes a) k2 v2); [|done|done].
      constructor; [done|done|]. eapply reps_affix; [done|apply lookup_singleton_eq].
    + exfalso. by eapply ext_not_node.
    + inversion R2 as [| |? ? h2 pb2 ? _ Ha2 Hst2 Rn2]; subst.
      assert (inner_bytes a = inner_bytes a2) as Ea.
      { destruct (reps_nonempty _ _ _ _ R1 Hp) as (k & v & Hl).
        pose proof (reps_affix _ _ _ _ _ _ _ R1 Hl) as P1. pose proof (reps_affix _ _ _ _ _ _ _ R2 Hl) as P2.
        destruct (prefix_weak_total _ _ _ P1 P2) as [[u E]|[u E]];
          rewrite <- app_assoc in E; apply app_inv_head in E; destruct u as [|b u];
          [by rewrite app_nil_r in E| |by rewrite app_nil_r in E|]; exfalso.
        - apply (affix_not_node s1 (p ++ inner_bytes a) b u pb m Rn); [by destruct p|].
          intros k' v' Hl'. rewrite <- app_assoc, <- E. by eapply (reps_affix s2).
        - apply (affix_not_node s2 (p ++ inner_bytes a2) b u pb2 m Rn2); [by destruct p|].
          intros k' v' Hl'. rewrite <- app_assoc, <- E. by eapply (reps_affix s1). }
      destruct a as [a], a2 as [a2]. cbn in Ea. subst a2.
      assert (Node pb = Node pb2 :> Trie K V) as E by (apply IH; [done|right; by eexists _, _]).
      injection E as <-. apply stored_hash in Hst, Hst2. rewrite Hst in Hst2. by injection Hst2 as ->.
Qed.

End Read.
