(* ===== verification/TrieProof.v ===== *)
(** * Merkle proofs of trie entries: [storage/trie/merkle_proof.rs] and
    [read_with_proof] of the trie store operations.

    The codec of proofs, and that proofs are complete (a proof read from the
    store recomputes the root it was read from) and sound (a proof that
    recomputes the root shows an entry of the trie, unless a string hashed for
    it collides with a stored one). *)

From S2P Require Import Prelude Bytesrepr Hashing Trie TrieStore TrieInv TrieRead.

(** ** [VecDeque] and the codec of proofs *)

Section VecDeque.
Context {A : Type} `{Bytesrepr A}.

Record VecDeque := MkVecDeque { deque : list A }.

Definition VecDeque_serialized_length (d : VecDeque) : nat := iterator_serialized_length (deque d).
Definition VecDeque_to_bytes (d : VecDeque) : bres bytes :=
  _ ← allocate_buffer (VecDeque_serialized_length d);
  len ← length_32 (length (deque d));
  b ← u32_to_bytes len;
  append_all (deque d) b.
Definition VecDeque_into_bytes (d : VecDeque) : bres bytes := to_bytes (deque d).
Definition VecDeque_from_bytes (bs : bytes) : bres (VecDeque * bytes) :=
  '(vec, bs) ← from_bytes (A:=list A) bs; mret (MkVecDeque vec, bs).

#[export] Instance VecDeque_ToBytes : ToBytes VecDeque := {|
  to_bytes := VecDeque_to_bytes; into_bytes := VecDeque_into_bytes;
  serialized_length := VecDeque_serialized_length;
  write_bytes := default_write_bytes VecDeque_to_bytes |}.
#[export] Instance VecDeque_FromBytes : FromBytes VecDeque := default_FromBytes VecDeque_from_bytes.
#[export] Instance VecDeque_Valid : Valid VecDeque := fun d => valid (deque d).

Lemma VecDeque_to_bytes_vec d bs : VecDeque_to_bytes d = Ok bs -> to_bytes (deque d) = Ok bs.
Proof.
  unfold VecDeque_to_bytes. intros (u & Ha%allocate_buffer_Ok & Hr)%bind_Ok.
  unfold to_bytes, Vec_ToBytes, Vec_to_bytes. rewrite try_vec_fits by exact Ha. exact Hr.
Qed.

Lemma VecDeque_serialized_length_vec l : serialized_length (MkVecDeque l) = serialized_length l.
Proof. reflexivity. Qed.

#[export] Instance VecDeque_Bytesrepr : Bytesrepr VecDeque.
Proof.
  split.
  - intros [d] bs rest Hv Hb%VecDeque_to_bytes_vec. unfold from_bytes, VecDeque_FromBytes, default_FromBytes, VecDeque_from_bytes.
    by rewrite (bytesrepr_roundtrip (A:=list A) d bs rest Hv Hb).
  - intros [d] bs Hv Hb%VecDeque_to_bytes_vec. exact (bytesrepr_length (A:=list A) d bs Hv Hb).
  - intros d bs w Hv Hb. by apply default_write_ok.
  - intros [d] Hv Hs. rewrite VecDeque_serialized_length_vec in Hs. destruct (bytesrepr_total (A:=list A) d Hv Hs) as (bs & Hb & _). exists bs.
    split; [|exact Hb]. unfold to_bytes, VecDeque_ToBytes, VecDeque_to_bytes.
    rewrite allocate_buffer_fits by exact Hs. cbn [mbind res_bind deque].
    unfold to_bytes, Vec_ToBytes, Vec_to_bytes in Hb. by rewrite try_vec_fits in Hb.
  - intros bs d rest Hr. unfold from_bytes, VecDeque_FromBytes, default_FromBytes, VecDeque_from_bytes in Hr.
    apply bind_Ok in Hr as ([v r] & Hv & [= <- <-]). by apply bytesrepr_sound in Hv.
  - intros bs d rest more Hr. unfold from_bytes, VecDeque_FromBytes, default_FromBytes, VecDeque_from_bytes in *.
    apply bind_Ok in Hr as ([v r] & Hv & [= <- <-]).
    by rewrite (bytesrepr_extend (A:=list A) bs v r more Hv).
  - done.
Qed.

End VecDeque.
Arguments VecDeque _ : clear implicits.

Definition TRIE_MERKLE_PROOF_STEP_NODE_ID : Byte.byte := Byte.x00.
Definition TRIE_MERKLE_PROOF_STEP_EXTENSION_ID : Byte.byte := Byte.x01.

Definition Step_serialized_length (st : TrieMerkleProofStep) : nat :=
  1 + match st with
      | StepNode hole_index pointers => serialized_length hole_index + serialized_length pointers
      | StepExtension affix => serialized_length affix
      end.
Definition Step_to_bytes (st : TrieMerkleProofStep) : bres bytes :=
  _ ← allocate_buffer (Step_serialized_length st);
  match st with
  | StepNode hole_index pointers =>
      b ← to_bytes pointers;
      mret ([TRIE_MERKLE_PROOF_STEP_NODE_ID; hole_index] ++ b)
  | StepExtension affix =>
      b ← to_bytes affix;
      mret ([TRIE_MERKLE_PROOF_STEP_EXTENSION_ID] ++ b)
  end.
Definition Step_from_bytes (bs : bytes) : bres (TrieMerkleProofStep * bytes) :=
  '(tag, rem) ← u8_from_bytes bs;
  if Byte.eqb tag TRIE_MERKLE_PROOF_STEP_NODE_ID then
    '(hole_index, rem) ← u8_from_bytes rem;
    '(pointers, rem) ← from_bytes rem;
    Ok (StepNode hole_index pointers, rem)
  else if Byte.eqb tag TRIE_MERKLE_PROOF_STEP_EXTENSION_ID then
    '(affix, rem) ← from_bytes rem;
    Ok (StepExtension affix, rem)
  else Err Formatting.

#[export] Instance Step_ToBytes : ToBytes TrieMerkleProofStep :=
  default_ToBytes Step_to_bytes Step_serialized_length.
#[export] Instance Step_FromBytes : FromBytes TrieMerkleProofStep := default_FromBytes Step_from_bytes.
#[export] Instance Step_Valid : Valid TrieMerkleProofStep := fun st =>
  match st with StepNode _ pointers => valid pointers | StepExtension affix => valid affix end.

#[export] Instance Step_Bytesrepr : Bytesrepr TrieMerkleProofStep.
Proof.
  apply struct_bytesrepr.
  - unfold Step_to_bytes, Step_from_bytes. intros [i l|a] bs rest Hv Ht; codec_inv;
      cbn [app u8_from_bytes mbind res_bind];
      repeat match goal with |- context [Byte.eqb ?a ?b] =>
        let r := eval vm_compute in (Byte.eqb a b) in change (Byte.eqb a b) with r end; cbn iota.
    + by rewrite (bytesrepr_roundtrip l x0).
    + by rewrite (bytesrepr_roundtrip a x0).
  - unfold Step_to_bytes, Step_serialized_length. intros [i l|a] bs Hv Ht; codec_inv; cbn [app length];
      match goal with H : to_bytes _ = Ok _ |- _ => apply bytesrepr_length in H; [|done] end; [|lia].
    change (serialized_length i) with 1. lia.
  - intros st bs w Hv Ht. by apply default_write_ok.
  - unfold Step_to_bytes, Step_serialized_length. intros [i l|a] Hv Hs; codec_total.
  - intros bs st rest Hr. apply bind_Ok in Hr as ([tag rem] & ->%u8_from_bytes_Ok & Hr).
    repeat match type of Hr with (if ?b then _ else _) = _ => destruct b; [codec_inv|] end; try done.
    all: try match goal with H : u8_from_bytes _ = _ |- _ => apply u8_from_bytes_Ok in H as -> end.
    all: match goal with H : from_bytes _ = _ |- _ => apply bytesrepr_sound in H as (? & ? & ->) end.
    all: split; [done|rewrite ?app_comm_cons; by eexists].
  - intros bs st rest more Hr. unfold Step_from_bytes in *.
    apply bind_Ok in Hr as ([tag rem] & Hu & Hr). extend_step.
    repeat match type of Hr with
    | (if ?b then _ else _) = _ => destruct b; [codec_inv; by repeat extend_step|] end.
    done.
Qed.

Section ProofCodec.
Context {K V : Type} `{Bytesrepr K} `{Bytesrepr V}.

Definition TrieMerkleProof_serialized_length (p : TrieMerkleProof K V) : nat :=
  serialized_length (proof_key p) + serialized_length (proof_value p)
    + serialized_length (MkVecDeque (proof_steps p)).
Definition TrieMerkleProof_to_bytes (p : TrieMerkleProof K V) : bres bytes :=
  _ ← allocate_buffer (TrieMerkleProof_serialized_length p);
  k ← to_bytes (proof_key p);
  v ← to_bytes (proof_value p);
  st ← to_bytes (MkVecDeque (proof_steps p));
  mret (k ++ v ++ st).
Definition TrieMerkleProof_from_bytes (bs : bytes) : bres (TrieMerkleProof K V * bytes) :=
  '(key, rem) ← from_bytes bs;
  '(value, rem) ← from_bytes rem;
  '(steps, rem) ← from_bytes rem;
  mret (MkTrieMerkleProof key value (deque steps), rem).

#[export] Instance TrieMerkleProof_ToBytes : ToBytes (TrieMerkleProof K V) :=
  default_ToBytes TrieMerkleProof_to_bytes TrieMerkleProof_serialized_length.
#[export] Instance TrieMerkleProof_FromBytes : FromBytes (TrieMerkleProof K V) :=
  default_FromBytes TrieMerkleProof_from_bytes.
#[export] Instance TrieMerkleProof_Valid : Valid (TrieMerkleProof K V) := fun p =>
  valid (proof_key p) /\ valid (proof_value p) /\ valid (MkVecDeque (proof_steps p)).

#[export] Instance TrieMerkleProof_Bytesrepr : Bytesrepr (TrieMerkleProof K V).
Proof.
  struct_codec_by ltac:(unfold TrieMerkleProof_to_bytes, TrieMerkleProof_serialized_length,
    TrieMerkleProof_from_bytes, TrieMerkleProof_Valid).
Qed.

End ProofCodec.

(** ** Pointer blocks rebuilt from indexed pointers *)

Lemma elem_of_as_indexed_pointers pb i p :
  valid pb -> (i, p) ∈ as_indexed_pointers pb <-> pb_get pb i = Some p.
Proof.
  intros [Hl _]. unfold as_indexed_pointers, pb_get. rewrite list_elem_of_omap. split.
  - intros ([n mp] & Hin & Hq). apply elem_of_lookup_imap in Hin as (n' & mp' & [= -> ->] & Hn).
    destruct mp' as [q|]; [|done]. injection Hq as <- <-.
    assert (n' < 256)%nat by (apply lookup_lt_Some in Hn; rewrite Hl in Hn; exact Hn).
    by rewrite b2n_n2b, Hn.
  - intros Hj. destruct (pointers pb !! b2n i) as [mp|] eqn:E; [|done]. cbn in Hj. subst mp.
    exists (b2n i, Some p). split; [|cbn; by rewrite n2b_b2n].
    apply elem_of_lookup_imap. by exists (b2n i), (Some p).
Qed.

Lemma from_indexed_valid l :
  Forall (fun ip => valid (pointer_hash ip.2)) l -> valid (from_indexed_pointers l).
Proof.
  unfold from_indexed_pointers. induction l as [|[i p] l IH] using rev_ind.
  - intros _. apply PointerBlock_new_valid.
  - intros [Hl Hp]%Forall_app. rewrite foldl_app. cbn [foldl].
    apply pb_set_valid; [by apply IH|]. by inversion Hp.
Qed.

Lemma from_indexed_snoc l i p j :
  Forall (fun ip => valid (pointer_hash ip.2)) l ->
  pb_get (from_indexed_pointers (l ++ [(i, p)])) j =
  if decide (i = j) then Some p else pb_get (from_indexed_pointers l) j.
Proof.
  intros Hl. apply from_indexed_valid in Hl. unfold from_indexed_pointers in *.
  rewrite foldl_app. cbn [foldl]. by apply pb_get_set.
Qed.

(** A list of entries of one block gives back those entries. *)
Lemma from_indexed_consistent pb l j p :
  valid pb -> (forall i q, (i, q) ∈ l -> pb_get pb i = Some q) ->
  pb_get (from_indexed_pointers l) j = Some p <-> (j, p) ∈ l.
Proof.
  intros Hv. revert p. induction l as [|[i q] l IH] using rev_ind; intros p Hc.
  { rewrite pb_get_new. split; [done|]. intros H. inversion H. }
  rewrite from_indexed_snoc.
  2: { apply Forall_forall. intros [i' q'] Hin. cbn. apply (pb_get_valid pb i'); [done|].
       apply Hc. rewrite elem_of_app. by left. }
  rewrite elem_of_app, list_elem_of_singleton. case_decide as E.
  - subst j. split; [intros [= ->]; by right|]. intros [Hin|[= ->]]; [|done].
    rewrite <- (Hc i p), <- (Hc i q); [done|rewrite elem_of_app, list_elem_of_singleton; by right|].
    rewrite elem_of_app. by left.
  - rewrite IH; [|intros i' q' Hin; apply Hc; rewrite elem_of_app; by left].
    split; [by left|]. intros [?|[= -> ->]]; done.
Qed.

(** The step of a proof at a node, with the child's pointer put back in the
    hole, is the node. *)
Lemma step_node_refill {K V} pb i ptr :
  valid pb -> pb_get pb i = Some ptr ->
  @step_trie K V (StepNode i (filter (fun '(j, _) => j <> i) (as_indexed_pointers pb))) ptr = Node pb.
Proof.
  intros Hv Hi. cbn [step_trie]. unfold Trie_node. f_equal.
  set (l := filter _ _).
  assert (forall j q, (j, q) ∈ l <-> j <> i /\ pb_get pb j = Some q) as Hin.
  { intros j q. unfold l. by rewrite list_elem_of_filter, elem_of_as_indexed_pointers. }
  assert (Forall (fun ip : Byte.byte * Pointer => valid (pointer_hash ip.2)) l) as Hl.
  { apply Forall_forall. intros [j q] [_ Hq]%Hin. by eapply pb_get_valid. }
  apply pb_ext; [|done|].
  - apply from_indexed_valid, Forall_app. split; [done|]. constructor; [|constructor].
    by eapply pb_get_valid.
  - intros j. rewrite from_indexed_snoc by done. case_decide as E; [by subst|].
    apply option_eq. intros q.
    rewrite (from_indexed_consistent pb) by (done || (intros ? ? [_ ?]%Hin; done)).
    rewrite Hin. split; [by intros [_ ?]|]. intros ?. split; [congruence|done].
Qed.

Section Proofs.
Context {K V : Type} `{Countable K} `{EqDecision V} `{Bytesrepr K} `{Bytesrepr V}.
Context `{!TrieKey K} `{Blake2b} `{TreeFold1}.

Lemma hash_steps_snoc first h l st :
  hash_steps (K:=K) (V:=V) first h (l ++ [st]) =
  (h' ← hash_steps (K:=K) (V:=V) first h l;
   hash_steps (K:=K) (V:=V) (first && match l with [] => true | _ => false end) h' [st]).
Proof.
  revert first h. induction l as [|x l IH]; intros first h; cbn [app hash_steps].
  - by rewrite andb_true_r.
  - rewrite bind_assoc. apply bind_ext. intros b. rewrite IH. by rewrite andb_false_r.
Qed.

(** The largest node fits one chunk, so that [Digest::hash] and
    [Digest::hash_bytes_into_chunks_if_necessary] agree on nodes and extensions. *)
Definition nodes_fit_chunk : Prop := (1 + 34 * RADIX <= CHUNK_SIZE_BYTES)%nat.

Lemma hash_small bs :
  (length bs <= CHUNK_SIZE_BYTES)%nat -> hash bs = hash_bytes_into_chunks_if_necessary bs.
Proof. intros Hl. unfold hash_bytes_into_chunks_if_necessary. by rewrite decide_True. Qed.

Lemma node_bytes_small pb bs :
  valid (Node pb : Trie K V) -> to_bytes (Node pb : Trie K V) = Ok bs -> (length bs <= 1 + 34 * RADIX)%nat.
Proof.
  intros Hv Hb. rewrite (bytesrepr_length _ _ Hv Hb).
  change (1 + PointerBlock_serialized_length pb <= 1 + 34 * RADIX)%nat.
  pose proof (PointerBlock_length_bound pb Hv). lia.
Qed.

Lemma ext_bytes_small a ptr bs :
  valid (Extension a ptr : Trie K V) -> to_bytes (Extension a ptr : Trie K V) = Ok bs ->
  length bs = (38 + length (inner_bytes a))%nat.
Proof.
  intros Hv Hb. rewrite (bytesrepr_length _ _ Hv Hb).
  change (1 + ((4 + length (inner_bytes a)) + 33) = 38 + length (inner_bytes a))%nat. lia.
Qed.

(** One step of a proof: from the digest of the child to that of the node. *)
Lemma hash_step_stored s h (t : Trie K V) st (b : bool) ptr :
  nodes_fit_chunk -> stored s h t -> t = step_trie st ptr ->
  (forall (k : K) (v : V), t <> Leaf k v) ->
  (forall a q, t = Extension a q -> (length (inner_bytes a) <= 1024)%nat) ->
  ptr = (if b then LeafPointer (pointer_hash ptr) else NodePointer (pointer_hash ptr)) ->
  hash_steps (K:=K) (V:=V) b (pointer_hash ptr) [st] = Ok h.
Proof.
  intros Hc (Hv & bs & Hb & -> & Hs) Et Hnl Ha Ep. cbn [hash_steps]. rewrite <- Ep, <- Et, Hb.
  cbn [mbind res_bind]. f_equal. apply hash_small. unfold nodes_fit_chunk, RADIX in Hc.
  destruct t as [k v|pb|a q]; [by destruct (Hnl k v)| |].
  - pose proof (node_bytes_small pb bs Hv Hb) as Hl. unfold RADIX in Hl. lia.
  - rewrite (ext_bytes_small a q bs Hv Hb). specialize (Ha a q eq_refl). lia.
Qed.

Lemma affix_bound s p a h (m : gmap K V) :
  reps s p (Extension a (NodePointer h)) m -> (length (inner_bytes a) <= 1024)%nat.
Proof.
  intros R. inversion R as [| |? ? ? pb ? Hne Ha Hst Rn]; subst.
  destruct (reps_nonempty _ _ _ _ R Hne) as (k & v & Hl).
  destruct (reps_keys _ _ _ _ _ _ Rn Hl) as (Hk & _ & Hp).
  apply prefix_length in Hp. rewrite length_app in Hp. pose proof (key_path_bound k Hk). lia.
Qed.

Definition proves (s : store) (t : Trie K V) (k : K) (v : V) (steps : list TrieMerkleProofStep) : Prop :=
  (forall h, stored s h t -> exists hl, trie_hash (Trie_leaf k v) = Ok hl /\
     hash_steps (K:=K) (V:=V) true hl steps = Ok h) /\
  (steps = [] <-> exists lk lv, t = Leaf lk lv).

(** A proof of the child extends to a proof of its parent. *)
Lemma proves_step s ptr (c t : Trie K V) k v new st :
  nodes_fit_chunk -> points_to s ptr c -> proves s c k v new ->
  t = step_trie st ptr -> (forall (k : K) (v : V), t <> Leaf k v) ->
  (forall a q, t = Extension a q -> (length (inner_bytes a) <= 1024)%nat) ->
  proves s t k v (new ++ [st]).
Proof.
  intros Hc [Hst Hkind] [Hp Hn] Et Hnl Ha. split.
  - intros h Hh. destruct (Hp _ Hst) as (hl & Hl & Hsteps). exists hl. split; [done|].
    rewrite hash_steps_snoc, Hsteps. cbn [mbind res_bind].
    apply (hash_step_stored s h t st _ ptr Hc Hh Et Hnl Ha).
    destruct new as [|x new]; cbn.
    + destruct Hn as [(lk & lv & ->) _]; [done|]. by destruct ptr.
    + destruct ptr, c; try done. destruct Hn as [_ Hn]. by discriminate Hn; eexists _, _.
  - split; [by destruct new|]. intros (lk & lv & E). by destruct (Hnl lk lv).
Qed.

Lemma read_with_proof_loop_correct s p (t : Trie K V) m k fuel steps :
  nodes_fit_chunk -> reps s p t m -> valid k -> p `prefix_of` key_path k ->
  (length (key_path k) < fuel + length p)%nat ->
  match m !! k with
  | None => read_with_proof_loop fuel s k (key_path k) (length p) t steps = Ok NotFound
  | Some v => exists new,
      read_with_proof_loop fuel s k (key_path k) (length p) t steps =
        Ok (Found (MkTrieMerkleProof k v (new ++ steps))) /\ proves s t k v new
  end.
Proof.
  intros Hc R Hk. revert fuel steps.
  induction R as [p k' v Hk' Hv Hp|p pb c f m Hv Hch Hp Hr IH He Hm|p a h pb m Hp Ha Hst Rn IH];
    intros fuel steps Hpre Hf; pose proof (prefix_length _ _ Hpre);
    (destruct fuel as [|fuel]; [lia|]); cbn [read_with_proof_loop].
  - case_decide as E; [subst k'; rewrite lookup_singleton_eq|by rewrite lookup_singleton_ne].
    exists []. split; [done|]. split; [|by split; [intros _; eexists _, _|]].
    intros h Hst. exists h. split; [by apply stored_hash in Hst|done].
  - destruct (index_at_prefix (E:=Error) p (key_path k)) as (i & -> & Hi); [done| |].
    { eapply (reps_node_depth s p pb m k); [by eapply reps_node|done|done]. }
    cbn [mbind res_bind]. rewrite (node_child s p pb c f m i k) by done.
    destruct (pb_get pb i) as [ptr|] eqn:E; [|by rewrite He].
    destruct (Hp i ptr E) as [Hst Hkind]. rewrite (stored_get _ _ _ Hst). cbn [mbind res_bind].
    replace (length p + 1)%nat with (length (p ++ [i])) by (rewrite length_app; cbn; lia).
    set (st := StepNode i _).
    specialize (IH i ptr E fuel (st :: steps) Hi). rewrite length_app in IH. cbn [length] in IH.
    specialize (IH ltac:(lia)). rewrite length_app. cbn [length].
    destruct (f i !! k) as [v|]; [|done]. destruct IH as (new & Hloop & Hpr).
    exists (new ++ [st]). split; [by rewrite <- app_assoc|].
    apply (proves_step s ptr (c i)); try done.
    symmetry. by apply step_node_refill.
  - assert (reps s p (Extension a (NodePointer h)) m) as R by by eapply reps_ext.
    pose proof (reps_ext_depth s p a h m k R Hk Hpre) as Hd.
    destruct (slice_prefix (E:=Error) p (inner_bytes a) (key_path k)) as (sub & -> & Hsub);
      [done|lia|]. cbn [mbind res_bind]. case_decide as E.
    + rewrite (stored_get _ _ _ Hst : get s (pointer_hash (NodePointer h)) = _). cbn [mbind res_bind].
      rewrite <- length_app.
      assert (length (key_path k) < fuel + length (p ++ inner_bytes a))%nat as Hf'.
      { rewrite length_app. destruct (inner_bytes a); [done|]. cbn. lia. }
      specialize (IH fuel (StepExtension a :: steps) (proj1 Hsub E) Hf').
      destruct (m !! k) as [v|]; [|done]. destruct IH as (new & Hloop & Hpr).
      exists (new ++ [StepExtension a]). split; [by rewrite <- app_assoc|].
      apply (proves_step s (NodePointer h) (Node pb)); try done.
      * cbn [step_trie]. by destruct a.
      * intros a' q [= <- <-]. by eapply affix_bound.
    + destruct (m !! k) as [v|] eqn:El; [|done]. exfalso.
      destruct (reps_keys _ _ _ _ _ _ Rn El) as (_ & _ & Hpre'). tauto.
Qed.

Lemma read_with_proof_rooted s root (m : gmap K V) k :
  nodes_fit_chunk -> rooted s root m -> valid k ->
  match m !! k with
  | None => read_with_proof (V:=V) s root k = Ok NotFound
  | Some v => exists proof, read_with_proof (V:=V) s root k = Ok (Found proof) /\
      proof_key proof = k /\ proof_value proof = v /\ compute_state_hash proof = Ok root
  end.
Proof.
  intros Hc (pb & Hst & R) Hk. unfold read_with_proof. rewrite key_path_to_bytes by done.
  cbn [mbind res_bind]. rewrite (stored_get _ _ _ Hst). cbn [mbind res_bind].
  pose proof (read_with_proof_loop_correct s [] _ m k (S (length (key_path k))) [] Hc R Hk
    (prefix_nil _) ltac:(cbn; lia)) as L.
  destruct (m !! k) as [v|]; [|done]. destruct L as (new & L & Hpr & _); cbn [length] in L; rewrite L; clear L. eexists. split; [done|].
  split_and!; [done|done|]. destruct (Hpr _ Hst) as (hl & Hl & Hs).
  unfold compute_state_hash. cbn [proof_key proof_value proof_steps]. rewrite Hl. cbn [mbind res_bind].
  by rewrite app_nil_r.
Qed.

(** *** Soundness *)

Fixpoint step_strings (first : bool) (h : Digest) (steps : list TrieMerkleProofStep) : list bytes :=
  match steps with
  | [] => []
  | st :: steps =>
      let pointer := if first then LeafPointer h else NodePointer h in
      match to_bytes (step_trie st pointer : Trie K V) with
      | Ok b => b :: step_strings false (hash b) steps
      | _ => []
      end
  end.

(** The strings hashed while a proof is checked. *)
Definition proof_strings (p : TrieMerkleProof K V) : list bytes :=
  match to_bytes (Trie_leaf (proof_key p) (proof_value p)) with
  | Ok b => b :: step_strings true (hash_bytes_into_chunks_if_necessary b) (proof_steps p)
  | _ => []
  end.

(** None of the strings has the digest of a different stored string. *)
Definition no_collision_with (s : store) (l : list bytes) : Prop :=
  forall b h bs, b ∈ l -> s !! h = Some bs ->
    h = hash b \/ h = hash_bytes_into_chunks_if_necessary b -> bs = b.

Lemma digest_valid bs : valid (hash_bytes_into_chunks_if_necessary bs).
Proof.
  unfold hash_bytes_into_chunks_if_necessary, hash_merkle_tree.
  case_decide; [apply blake2b_length|]. destruct (tree_fold1 _ _); [apply blake2b_length|done].
Qed.

Lemma hash_steps_valid first h l h' :
  valid h -> hash_steps (K:=K) (V:=V) first h l = Ok h' -> valid h'.
Proof.
  revert first h. induction l as [|st l IH]; intros first h Hv; cbn [hash_steps].
  - by intros [= <-].
  - intros (b & _ & Hl)%bind_Ok. eapply IH; [|exact Hl]. apply blake2b_length.
Qed.

Lemma step_strings_snoc first h l st h' b :
  hash_steps (K:=K) (V:=V) first h l = Ok h' ->
  let first' := first && match l with [] => true | _ => false end in
  to_bytes (step_trie st (if first' then LeafPointer h' else NodePointer h') : Trie K V) = Ok b ->
  step_strings first h (l ++ [st]) = step_strings first h l ++ [b].
Proof.
  revert first h. induction l as [|x l IH]; intros first h; cbn [hash_steps app step_strings].
  - intros [= <-]. rewrite andb_true_r. by intros ->.
  - intros (bx & Hx & Hl)%bind_Ok. rewrite andb_false_r. intros Hb. rewrite Hx. cbn [app]. f_equal.
    apply (IH false); [exact Hl|]. exact Hb.
Qed.

Lemma step_trie_valid (st : TrieMerkleProofStep) (ptr : Pointer) : valid st -> valid ptr -> valid (step_trie st ptr : Trie K V).
Proof.
  intros Hst Hp. destruct st as [i l|a]; cbn [step_trie]; [|done].
  apply from_indexed_valid, Forall_app. split; [|by constructor].
  destruct Hst as [Hl _]. eapply Forall_impl; [exact Hl|]. intros [j q] [_ Hq]. exact Hq.
Qed.

Lemma proof_steps_sound s (k : K) (v : V) hl steps :
  valid k -> valid v -> trie_hash (Trie_leaf k v : Trie K V) = Ok hl -> Forall valid steps ->
  (forall lb, to_bytes (Leaf k v : Trie K V) = Ok lb ->
     no_collision_with s (lb :: step_strings true hl steps)) ->
  forall h t p (m : gmap K V), hash_steps (K:=K) (V:=V) true hl steps = Ok h ->
    stored s h t -> reps s p t m -> m !! k = Some v.
Proof.
  intros Hk Hv Hleaf. unfold trie_hash, Trie_leaf in Hleaf.
  apply bind_Ok in Hleaf as (lb & Hlb & [= <-]).
  induction steps as [|st steps IH] using rev_ind; intros Hsteps Hc h t p m Hh Hst R;
    pose proof (Hc lb Hlb) as Hcl; destruct Hst as (Ht & bs & Hb & -> & Hs).
  - cbn [hash_steps] in Hh. injection Hh as Hh.
    assert (bs = lb) as -> by (eapply Hcl; [constructor|exact Hs|right; done]).
    assert (t = Leaf k v) as -> by (by eapply to_bytes_inj).
    apply reps_leaf_inv in R as (-> & _). apply lookup_singleton_eq.
  - apply Forall_app in Hsteps as [Hsteps Hvst]. rewrite Forall_singleton in Hvst.
    rewrite hash_steps_snoc in Hh. apply bind_Ok in Hh as (h' & Hh' & Hstep).
    cbn [hash_steps] in Hstep. apply bind_Ok in Hstep as (b & Hbst & [= Hd]).
    match type of Hbst with context [step_trie st ?q] => set (ptr := q) in Hbst end.
    assert (pointer_hash ptr = h') as Ep by (unfold ptr; by case_match).
    assert (step_strings true (hash_bytes_into_chunks_if_necessary lb) (steps ++ [st]) =
      step_strings true (hash_bytes_into_chunks_if_necessary lb) steps ++ [b]) as Est
      by (eapply step_strings_snoc; [exact Hh'|exact Hbst]).
    assert (bs = b) as ->.
    { eapply Hcl; [|exact Hs|left; symmetry; exact Hd]. rewrite Est, elem_of_cons, elem_of_app.
      right. right. apply list_elem_of_singleton. done. }
    assert (t = step_trie st ptr) as ->.
    { eapply to_bytes_inj; [done| |exact Hb|exact Hbst]. apply step_trie_valid; [done|].
      red. red. rewrite Ep. eapply hash_steps_valid; [apply digest_valid|exact Hh']. }
    assert (forall lb', to_bytes (Leaf k v : Trie K V) = Ok lb' -> no_collision_with s
      (lb' :: step_strings true (hash_bytes_into_chunks_if_necessary lb) steps)) as Hc'.
    { intros lb' E b' h0 bs' Hin. apply (Hc lb' E b' h0 bs'). rewrite Est.
      rewrite !elem_of_cons, elem_of_app in *. tauto. }
    clearbody ptr. specialize (IH Hsteps Hc' h').
    destruct st as [i l|a]; cbn [step_trie] in R; unfold Trie_node, Trie_extension in R.
    + inversion R as [|? ? c f ? Hvp Hch Hp Hr He Hm|]; subst.
      destruct Hvst as [Hvl _].
      assert (pb_get (from_indexed_pointers (l ++ [(i, ptr)])) i = Some ptr) as Hi.
      { rewrite from_indexed_snoc; [by rewrite decide_True|].
        eapply Forall_impl; [exact Hvl|]. intros [j q] [_ Hq]. exact Hq. }
      destruct (Hp i ptr Hi) as [Hsti _].
      apply Hm. exists i. eapply IH; [exact Hh'|exact Hsti|by eapply Hr].
    + inversion R as [| |? ? h0 pb ? Hne Ha Hst0 Rn]; subst.
      eapply IH; [exact Hh'|exact Hst0|exact Rn].
Qed.

End Proofs.

(** ** Properties *)

Section ProofProperties.
Context {K V : Type} `{Countable K} `{EqDecision V} `{Bytesrepr K} `{Bytesrepr V}.
Context `{!TrieKey K} `{Blake2b} `{TreeFold1}.

(** C22 [read_with_proof] is complete: under a root whose trie holds [m], it never
    panics, finds exactly the keys of [m], and the proof it builds for a key
    carries the key's value and recomputes the root hash with
    [compute_state_hash], when a node fits one chunk of data. *)
Theorem read_with_proof_complete s root (m : gmap K V) k :
  nodes_fit_chunk -> rooted s root m -> valid k ->
  match m !! k with
  | None => read_with_proof (V:=V) s root k = Ok NotFound
  | Some v => exists proof, read_with_proof (V:=V) s root k = Ok (Found proof) /\
      proof_key proof = k /\ proof_value proof = v /\ compute_state_hash proof = Ok root
  end.
Proof. apply read_with_proof_rooted. Qed.

(** C16 A trie proof cannot be forged: if [compute_state_hash] of a proof gives the
    root of a trie in the store, the proof's key and value are an entry of that
    trie, unless one of the strings hashed for the proof has the digest of a
    different string in the store. *)
Theorem trie_proof_sound s root (m : gmap K V) (proof : TrieMerkleProof K V) :
  rooted s root m -> valid proof -> compute_state_hash proof = Ok root ->
  no_collision_with s (proof_strings proof) ->
  m !! proof_key proof = Some (proof_value proof).
Proof.
  intros (pb & Hst & R) (Hk & Hv & [Hsteps _]) Hh Hc. unfold compute_state_hash in Hh.
  apply bind_Ok in Hh as (hl & Hl & Hs).
  eapply (proof_steps_sound s _ _ hl (proof_steps proof)); try done.
  intros lb Hlb. unfold proof_strings, Trie_leaf in Hc. rewrite Hlb in Hc.
  unfold trie_hash, Trie_leaf in Hl. rewrite Hlb in Hl. injection Hl as <-. exact Hc.
Qed.

End ProofProperties.
