(* ===== verification/TrieWrite.v ===== *)
(** * Writing the trie: [write] refines insertion in the represented map.

    The parents a scan collects are a context with a hole ([ctx]); [rehash]
    plugs a new tip into it.  Each branch of [write] prepares a context whose
    hole is where the new leaf goes. *)

From S2P Require Import Prelude Bytesrepr Hashing Trie TrieStore TrieInv TrieRead TrieProof.

(** ** Common prefixes *)

Lemma common_prefix_spec {A} `{EqDecision A} (ls rs : list A) :
  exists l r, ls = common_prefix ls rs ++ l /\ rs = common_prefix ls rs ++ r /\
    forall x y l' r', l = x :: l' -> r = y :: r' -> x <> y.
Proof.
  revert rs. induction ls as [|a ls IH]; intros [|b rs]; cbn.
  - exists [], []. done.
  - exists [], (b :: rs). split_and!; [done|done|]. by intros.
  - exists (a :: ls), []. split_and!; [done|done|]. by intros.
  - case_decide as E; cbn.
    + subst b. destruct (IH rs) as (l & r & E1 & E2 & Hd). exists l, r.
      split_and!; [by rewrite <- E1|by rewrite <- E2|done].
    + exists (a :: ls), (b :: rs). split_and!; [done|done|]. by intros x y l' r' [= -> ->] [= -> ->].
Qed.

Lemma common_prefix_app {A} `{EqDecision A} (p l r : list A) :
  common_prefix (p ++ l) (p ++ r) = p ++ common_prefix l r.
Proof. induction p as [|a p IH]; cbn; [done|]. by rewrite decide_True, IH. Qed.

Lemma common_prefix_prefix {A} `{EqDecision A} (p k : list A) :
  p `prefix_of` k -> common_prefix k p = p.
Proof.
  intros [u ->]. rewrite <- (app_nil_r p) at 2 3. rewrite common_prefix_app.
  by destruct u; cbn; rewrite app_nil_r.
Qed.

Lemma slice_from {E A} (p a : list A) :
  @slice E A (p ++ a) (length p) (length (p ++ a)) = Ok a.
Proof.
  unfold slice. rewrite length_app, Nat.leb_refl, andb_true_r.
  destruct (Nat.leb_spec (length p) (length p + length a)); [|lia].
  rewrite drop_app_length. f_equal. replace (length p + length a - length p)%nat with (length a) by lia.
  apply firstn_all.
Qed.

Lemma index_at_app {E A} (p : list A) x q : @index_at E A (p ++ x :: q) (length p) = Ok x.
Proof. unfold index_at. by rewrite lookup_app_r, Nat.sub_diag. Qed.

Section Write.
Context {K V : Type} `{Countable K} `{EqDecision V} `{Bytesrepr K} `{Bytesrepr V}.
Context `{!TrieKey K} `{Blake2b} `{TreeFold1}.

Abbreviation trie := (Trie K V).
Abbreviation Parents := (list (Byte.byte * trie)).
Abbreviation digest := hash_bytes_into_chunks_if_necessary.

(** ** Contexts *)

Definition is_node (t : trie) : Prop := exists pb, t = Node pb.

(** The hole is right under an extension, which must lead to a node. *)
Definition needs_node (ps : Parents) : Prop :=
  match last ps with Some (_, Extension _ _) => True | _ => False end.

Inductive ctx (s : store) : Parents -> bytes -> gmap K V -> Prop :=
| ctx_nil : ctx s [] [] ∅
| ctx_node ps p mo i pb (c : Byte.byte -> trie) (f : Byte.byte -> gmap K V) mc :
    ctx s ps p mo -> valid pb ->
    (p = [] \/ exists j, j <> i /\ is_Some (pb_get pb j)) ->
    (forall j ptr, j <> i -> pb_get pb j = Some ptr -> points_to s ptr (c j)) ->
    (forall j ptr, j <> i -> pb_get pb j = Some ptr -> reps s (p ++ [j]) (c j) (f j)) ->
    (forall j, j <> i -> pb_get pb j = None -> f j = ∅) ->
    (forall k v, mc !! k = Some v <-> exists j, j <> i /\ f j !! k = Some v) ->
    ctx s (ps ++ [(i, Node pb)]) (p ++ [i]) (mc ∪ mo)
| ctx_ext ps p mo i affix h (k : K) :
    ctx s ps p mo -> p <> [] -> inner_bytes affix <> [] -> ~ needs_node ps ->
    valid k -> p ++ inner_bytes affix `prefix_of` key_path k ->
    ctx s (ps ++ [(i, Extension affix (NodePointer h))]) (p ++ inner_bytes affix) mo.

Lemma needs_node_snoc ps i t :
  needs_node (ps ++ [(i, t)]) <-> exists a ptr, t = Extension a ptr.
Proof.
  unfold needs_node. rewrite last_snoc. destruct t; split; try done; try (by intros (? & ? & ?)).
  by eexists _, _.
Qed.

Lemma get_parents_path_snoc (ps : Parents) i t :
  get_parents_path (ps ++ [(i, t)]) =
  get_parents_path ps ++ match t with Extension a _ => inner_bytes a | _ => [i] end.
Proof. unfold get_parents_path. rewrite bind_app. cbn. by rewrite app_nil_r. Qed.

Lemma ctx_path s ps p mo : ctx s ps p mo -> get_parents_path ps = p.
Proof. by induction 1 as [|ps p mo i pb c f mc _ IH|ps p mo i a h k _ IH]; rewrite ?get_parents_path_snoc, ?IH. Qed.

Lemma ctx_nil_inv s ps p mo : ctx s ps p mo -> p = [] <-> ps = [].
Proof.
  destruct 1 as [|ps p mo i pb c f mc|ps p mo i a h k]; [done|..]; split; intros E.
  - by apply app_nil in E as [_ ?].
  - by apply app_nil in E as [_ ?].
  - by apply app_nil in E as [_ ?].
  - by apply app_nil in E as [_ ?].
Qed.

Lemma ctx_mono s s' ps p mo : s ⊆ s' -> ctx s ps p mo -> ctx s' ps p mo.
Proof.
  intros Hs. induction 1 as [|ps p mo i pb c f mc _ IH Hv Hc Hp Hr He Hm|ps p mo i a h k _ IH].
  - constructor.
  - apply (ctx_node s' ps p mo i pb c f mc); try done; intros j ptr Hj Hptr.
    + eapply points_to_mono; [done|by apply Hp].
    + eapply reps_mono; [done|by eapply Hr].
  - by apply (ctx_ext s' ps p mo i a h k).
Qed.

(** Entries of the context lie off the path to the hole. *)
Lemma ctx_outside s ps p mo k v :
  ctx s ps p mo -> mo !! k = Some v -> ~ p `prefix_of` key_path k.
Proof.
  intros C. revert k v.
  induction C as [|ps p mo i pb c f mc _ IH Hv Hc Hp Hr He Hm|ps p mo i a h k _ IH]; intros k' v' Hl.
  - by rewrite lookup_empty in Hl.
  - apply lookup_union_Some_raw in Hl as [Hl|[_ Hl]].
    + apply Hm in Hl as (j & Hj & Hl). destruct (pb_get pb j) as [ptr|] eqn:E; [|by rewrite He in Hl].
      destruct (reps_keys _ _ _ _ _ _ (Hr j ptr Hj E) Hl) as (_ & _ & Hpre).
      intros Hpre'. by apply Hj, (prefix_snoc_inv p _ _ (key_path k')).
    + intros Hpre. eapply IH; [exact Hl|]. etrans; [by apply prefix_app_r|exact Hpre].
  - intros Hpre. eapply IH; [exact Hl|]. etrans; [by apply prefix_app_r|exact Hpre].
Qed.

(** ** Plugging the hole of a node *)

Lemma plug_node s p i pb (c : Byte.byte -> trie) f (mc mt : gmap K V) tip ptr :
  valid pb ->
  (p = [] \/ exists j, j <> i /\ is_Some (pb_get pb j)) ->
  (forall j ptr, j <> i -> pb_get pb j = Some ptr -> points_to s ptr (c j)) ->
  (forall j ptr, j <> i -> pb_get pb j = Some ptr -> reps s (p ++ [j]) (c j) (f j)) ->
  (forall j, j <> i -> pb_get pb j = None -> f j = ∅) ->
  (forall k v, mc !! k = Some v <-> exists j, j <> i /\ f j !! k = Some v) ->
  points_to s ptr tip -> reps s (p ++ [i]) tip mt ->
  reps s p (Node (pb_set pb i (Some ptr))) (mt ∪ mc).
Proof.
  intros Hv Hc Hp Hr He Hm Hpt Rt.
  assert (valid (pointer_hash ptr)) as Hvp.
  { destruct Hpt as [(_ & bs & _ & -> & _) _]. apply digest_valid. }
  apply (reps_node s p _ (fun j => if decide (i = j) then tip else c j)
    (fun j => if decide (i = j) then mt else f j)).
  - by apply pb_set_valid.
  - destruct Hc as [->|(j & Hj & Hs)]; [by left|]. right. exists i, j.
    rewrite !pb_get_set, decide_True, decide_False by done. by split_and!.
  - intros j q. rewrite pb_get_set by done. case_decide; [by intros [= <-]|]. by apply Hp.
  - intros j q. rewrite pb_get_set by done. case_decide; [subst; by intros [= <-]|]. by apply Hr.
  - intros j. rewrite pb_get_set by done. case_decide; [done|]. by apply He.
  - intros k v. rewrite lookup_union_Some_raw, Hm. split.
    + intros [Hl|[_ (j & Hj & Hl)]]; [exists i; by rewrite decide_True|exists j; by rewrite decide_False].
    + intros [j Hl]. case_decide as E; [by left|]. right. split; [|by exists j].
      destruct (mt !! k) as [v'|] eqn:El; [|done]. exfalso.
      destruct (reps_keys _ _ _ _ _ _ Rt El) as (_ & _ & P1).
      destruct (pb_get pb j) as [q|] eqn:Eq; [|by rewrite He in Hl].
      destruct (reps_keys _ _ _ _ _ _ (Hr j q ltac:(done) Eq) Hl) as (_ & _ & P2).
      by apply E, (prefix_snoc_inv p _ _ (key_path k)).
Qed.

(** ** [rehash] *)

Definition well_hashed (e : Digest * trie) : Prop := valid e.2 /\ trie_hash e.2 = Ok e.1.

Lemma trie_hash_total (t : trie) :
  valid t -> (Z.of_nat (serialized_length t) <= u32_max)%Z -> exists h, trie_hash t = Ok h.
Proof.
  intros Hv Hs. destruct (bytesrepr_total t Hv Hs) as (bs & Hb & _). unfold trie_hash. rewrite Hb.
  by eexists.
Qed.

Lemma trie_hash_valid (t : trie) h : trie_hash t = Ok h -> valid h.
Proof. unfold trie_hash. intros (bs & _ & [= <-])%bind_Ok. apply digest_valid. Qed.

Lemma node_hash_total pb : valid pb -> exists h, trie_hash (Node pb : trie) = Ok h.
Proof.
  intros Hv. apply trie_hash_total; [done|].
  change (serialized_length (Node pb : trie)) with (1 + PointerBlock_serialized_length pb)%nat.
  pose proof (PointerBlock_length_bound pb Hv) as Hl. unfold RADIX in Hl.
  unfold u32_max, uint_max. lia.
Qed.

Lemma ext_hash_total a ptr :
  valid ptr -> (length (inner_bytes a) <= 1024)%nat -> exists h, trie_hash (Extension a ptr : trie) = Ok h.
Proof.
  intros Hv Hl. apply trie_hash_total; [done|].
  change (serialized_length (Extension a ptr : trie))
    with (1 + ((4 + length (inner_bytes a)) + 33))%nat.
  unfold u32_max, uint_max. lia.
Qed.

Definition last_hash (h : Digest) (els : list (Digest * trie)) : Digest := default h (last els.*1).

Lemma last_hash_cons h e els : last_hash h (e :: els) = last_hash e.1 els.
Proof. unfold last_hash. rewrite fmap_cons, last_cons. by destruct (last els.*1). Qed.

Lemma rehash_plug s ps p mo :
  ctx s ps p mo -> forall tip mt tip_hash ret,
  valid tip -> trie_hash tip = Ok tip_hash ->
  (needs_node ps \/ ps = [] -> is_node tip) ->
  exists els, rehash_loop tip tip_hash (rev ps) ret = Ok (ret ++ els) /\ Forall well_hashed els /\
    forall s2, s ⊆ s2 -> stored s2 tip_hash tip -> Forall (fun e => stored s2 e.1 e.2) els ->
      reps s2 p tip mt -> rooted s2 (last_hash tip_hash els) (mt ∪ mo).
Proof.
  induction 1 as [|ps p mo i pb c f mc C IH Hv Hc Hp Hr He Hm|ps p mo i a h k C IH Hne Ha Hnn Hk Hpre];
    intros tip mt tip_hash ret Ht Hh Hside.
  - exists []. cbn. rewrite app_nil_r. split_and!; [done|done|].
    intros s2 Hs Hst _ R. destruct Hside as [pb ->]; [by right|]. rewrite (right_id_L ∅ (∪)). by exists pb.
  - rewrite rev_app_distr. cbn [rev app rehash_loop reseat mbind res_bind].
    set (ptr := match tip with Leaf _ _ => _ | _ => _ end).
    assert (pointer_hash ptr = tip_hash) as Ep by (by destruct tip).
    assert (forall s2, stored s2 tip_hash tip -> points_to s2 ptr tip) as Hpt.
    { intros s2 Hst. split; [by rewrite Ep|by destruct tip]. }
    clearbody ptr.
    assert (valid (pb_set pb i (Some ptr))) as Hv'.
    { apply pb_set_valid; [done|]. unfold valid, Option_Valid, valid, Pointer_Valid. rewrite Ep.
      by eapply trie_hash_valid. }
    destruct (node_hash_total _ Hv') as [h' Hh']. rewrite Hh'. cbn [mbind res_bind].
    destruct (IH (Node (pb_set pb i (Some ptr))) (mt ∪ mc) h' (ret ++ [(h', Node (pb_set pb i (Some ptr)))]))
      as (els & -> & Hw & Hroot); [done|done|by eexists|].
    exists ((h', Node (pb_set pb i (Some ptr))) :: els). rewrite <- app_assoc. split; [done|].
    split; [constructor; [done|done]|].
    intros s2 Hs Hst Hels R. inversion Hels; subst. rewrite last_hash_cons, (assoc_L (∪)).
    apply Hroot; [done|done|done|].
    apply (plug_node s2 p i pb c f mc mt tip ptr); try done.
    + intros j q Hj Hq. eapply points_to_mono; [done|by apply Hp].
    + intros j q Hj Hq. eapply reps_mono; [done|by eapply Hr].
    + by apply Hpt.
  - rewrite rev_app_distr. cbn [rev app rehash_loop reseat mbind res_bind pointer_update].
    destruct Hside as [pb ->]; [left; apply needs_node_snoc; by eexists _, _|].
    assert (valid (NodePointer tip_hash)) as Hvp by (by eapply trie_hash_valid).
    assert (length (inner_bytes a) <= 1024)%nat as Hl.
    { apply prefix_length in Hpre. rewrite length_app in Hpre. pose proof (key_path_bound k Hk). lia. }
    destruct (ext_hash_total a _ Hvp Hl) as [h' Hh']. rewrite Hh'. cbn [mbind res_bind].
    destruct (IH (Extension a (NodePointer tip_hash)) mt h'
      (ret ++ [(h', Extension a (NodePointer tip_hash))])) as (els & -> & Hw & Hroot); [done|done| |].
    { intros [?|E]; [done|]. by apply (ctx_nil_inv s _ _ _ C) in E. }
    exists ((h', Extension a (NodePointer tip_hash)) :: els). rewrite <- app_assoc. split; [done|].
    split; [constructor; [done|done]|].
    intros s2 Hs Hst Hels R. inversion Hels; subst. rewrite last_hash_cons.
    apply Hroot; [done|done|done|]. by apply (reps_ext s2 p a tip_hash pb).
Qed.

(** ** [scan] *)

(** The node right above the hole points to what fills it. *)
Definition above (s : store) (ps : Parents) (t : trie) : Prop :=
  forall i pb, last ps = Some (i, Node pb) -> exists ptr, pb_get pb i = Some ptr /\ points_to s ptr t.

Definition stopped (path q : bytes) (tip : trie) : Prop :=
  match tip with
  | Leaf _ _ => True
  | Node pb => exists i, q ++ [i] `prefix_of` path /\ pb_get pb i = None
  | Extension a _ => ~ q ++ inner_bytes a `prefix_of` path
  end.

(** What a scan for [path] in a trie with content [m] returns. *)
Record scanned (s : store) (path : bytes) (m : gmap K V) (tip : trie) (ps : Parents)
    (q : bytes) (mt mo : gmap K V) : Prop := {
  scan_ctx : ctx s ps q mo;
  scan_tip : reps s q tip mt;
  scan_prefix : q `prefix_of` path;
  scan_split : mt ∪ mo = m;
  scan_side : needs_node ps \/ ps = [] -> is_node tip;
  scan_above : above s ps tip;
  scan_stopped : stopped path q tip;
}.

(** A node splits into the child on the path and the others. *)
Lemma node_split s p pb c (f : Byte.byte -> gmap K V) m i :
  (forall i ptr, pb_get pb i = Some ptr -> reps s (p ++ [i]) (c i) (f i)) ->
  (forall i, pb_get pb i = None -> f i = ∅) ->
  (forall k v, m !! k = Some v <-> exists i, f i !! k = Some v) ->
  f i ⊆ m /\ forall k v, (m ∖ f i) !! k = Some v <-> exists j, j <> i /\ f j !! k = Some v.
Proof.
  intros Hr He Hm. split.
  - apply map_subseteq_spec. intros k v Hl. apply Hm. by exists i.
  - intros k v. rewrite lookup_difference_Some, Hm. split.
    + intros [[j Hj] Hn]. exists j. split; [|done]. intros ->. congruence.
    + intros (j & Hji & Hj). split; [by exists j|].
      destruct (f i !! k) as [v'|] eqn:E; [|done]. exfalso.
      destruct (pb_get pb j) as [q|] eqn:Ej; [|by rewrite He in Hj].
      destruct (pb_get pb i) as [q'|] eqn:Ei; [|by rewrite He in E].
      destruct (reps_keys _ _ _ _ _ _ (Hr j q Ej) Hj) as (_ & _ & P1).
      destruct (reps_keys _ _ _ _ _ _ (Hr i q' Ei) E) as (_ & _ & P2).
      by apply Hji, (prefix_snoc_inv p _ _ (key_path k)).
Qed.

Lemma scan_loop_correct s p (t : trie) (m : gmap K V) (k : K) fuel acc mo :
  reps s p t m -> ctx s acc p mo -> valid k -> p `prefix_of` key_path k ->
  (length (key_path k) < fuel + length p)%nat ->
  (needs_node acc \/ acc = [] -> is_node t) -> above s acc t ->
  exists tip ps q mt mo', scan_loop fuel s (key_path k) (length p) t acc = Ok (Some (tip, ps)) /\
    scanned s (key_path k) (m ∪ mo) tip ps q mt mo'.
Proof.
  intros R C Hk. revert fuel acc mo C.
  induction R as [p k' v Hk' Hv Hp|p pb c f m Hv Hc Hp Hr IH He Hm|p a h pb m Hp Ha Hst Rn IH];
    intros fuel acc mo C Hpre Hf Hside Hab; pose proof (prefix_length _ _ Hpre);
    (destruct fuel as [|fuel]; [lia|]); cbn [scan_loop].
  - exists (Leaf k' v), acc, p, {[k' := v]}, mo. split; [done|]. by split; try done; constructor.
  - assert (reps s p (Node pb) m) as R by by eapply reps_node.
    destruct (index_at_prefix (E:=Error) p (key_path k)) as (i & -> & Hi); [done| |].
    { by eapply (reps_node_depth s p pb m k). }
    cbn [mbind res_bind]. destruct (pb_get pb i) as [ptr|] eqn:E.
    + destruct (Hp i ptr E) as [Hst Hkind]. rewrite (stored_get _ _ _ Hst). cbn [mbind res_bind].
      replace (length p + 1)%nat with (length (p ++ [i])) by (rewrite length_app; cbn; lia).
      destruct (node_split s p pb c f m i Hr He Hm) as [Hsub Hmc].
      assert (m ∪ mo = f i ∪ ((m ∖ f i) ∪ mo)) as ->.
      { by rewrite (assoc_L (∪)), map_difference_union. }
      apply (IH i ptr E).
      * apply (ctx_node s acc p mo i pb c f); try done; try (by intros; eauto).
        destruct Hc as [?|(j1 & j2 & Hj & Hs1 & Hs2)]; [by left|right].
        destruct (decide (j1 = i)) as [->|]; [by exists j2|by exists j1].
      * done.
      * rewrite length_app. cbn. lia.
      * intros [(a & q & ?)%needs_node_snoc|[_ ?]%app_nil]; done.
      * intros i' pb'. rewrite last_snoc. intros [= <- <-]. exists ptr. split; [done|by split].
    + exists (Node pb), acc, p, m, mo. split; [done|]. split; try done. by exists i.
  - assert (reps s p (Extension a (NodePointer h)) m) as R by by eapply reps_ext.
    pose proof (reps_ext_depth s p a h m k R Hk Hpre) as Hd.
    destruct (slice_prefix (E:=Error) p (inner_bytes a) (key_path k)) as (sub & -> & Hsub);
      [done|lia|]. cbn [mbind res_bind]. case_decide as E.
    + rewrite (stored_get _ _ _ Hst : get s (pointer_hash (NodePointer h)) = _). cbn [mbind res_bind].
      destruct (index_at_prefix (E:=Error) p (key_path k)) as (i & -> & Hi); [done|lia|].
      cbn [mbind res_bind]. rewrite <- length_app. apply IH.
      * apply (ctx_ext s acc p mo i a h k); try done; [|by apply Hsub].
        intros Hn. by destruct Hside as [? ?]; [left|].
      * by apply Hsub.
      * rewrite length_app. destruct (inner_bytes a); [done|]. cbn. lia.
      * intros _. by eexists.
      * intros i' pb'. rewrite last_snoc. done.
    + eexists _, acc, p, m, mo. split; [done|]. split; try done. cbn. tauto.
Qed.

(** ** Putting the new elements *)

Definition element_bytes (els : list (Digest * trie)) : list bytes :=
  omap (fun e => match to_bytes e.2 with Ok b => Some b | _ => None end) els.

(** The strings [l] have digests of their own: no two of them share one, and
    none shares one with a different string of the store. *)
Definition digests_apart (s : store) (l : list bytes) : Prop :=
  forall b, b ∈ l ->
    (forall bs, s !! digest b = Some bs -> bs = b) /\
    (forall b', b' ∈ l -> digest b = digest b' -> b = b').

Lemma put_fresh s h (t : trie) l :
  well_hashed (h, t) -> digests_apart s (element_bytes [(h, t)] ++ l) ->
  exists s', put s h t = Ok s' /\ s ⊆ s' /\ stored s' h t /\ digests_apart s' l.
Proof.
  intros [Hv Hh] Hd. cbn in Hv, Hh. unfold trie_hash in Hh. apply bind_Ok in Hh as (b & Hb & [= <-]).
  unfold put. rewrite Hb. cbn [mbind res_bind]. eexists. split; [done|].
  unfold element_bytes in Hd. cbn [omap list_omap snd] in Hd. rewrite Hb in Hd. cbn [app] in Hd.
  destruct (Hd b) as [Hs Hl]; [by constructor|].
  assert (s ⊆ put_raw s (digest b) b) as Hsub.
  { unfold put_raw. destruct (s !! digest b) as [bs|] eqn:E.
    - rewrite (Hs bs eq_refl) in E. by rewrite insert_id.
    - by apply insert_subseteq. }
  split_and!; [done| |].
  - split; [done|]. exists b. split_and!; [done|done|]. apply lookup_insert_eq.
  - intros b' Hb'. destruct (Hd b') as [Hs' Hl']; [by constructor|]. split.
    + intros bs. unfold put_raw. destruct (decide (digest b = digest b')) as [E|E].
      * rewrite E, lookup_insert_eq. intros [= <-]. apply Hl; [by constructor|done].
      * rewrite lookup_insert_ne by done. apply Hs'.
    + intros b2 Hb2. apply Hl'. by constructor.
Qed.

Lemma element_bytes_cons e els : element_bytes (e :: els) = element_bytes [e] ++ element_bytes els.
Proof. unfold element_bytes. cbn. by destruct (to_bytes e.2). Qed.

Lemma put_all_correct els : forall s root,
  Forall well_hashed els -> digests_apart s (element_bytes els) ->
  exists s', put_all s root els = Ok (s', last_hash root els) /\ s ⊆ s' /\
    Forall (fun e => stored s' e.1 e.2) els.
Proof.
  induction els as [|[h t] els IH]; intros s root Hw Hd; cbn [put_all].
  - exists s. done.
  - inversion Hw as [|? ? Hw1 Hw2]; subst. rewrite element_bytes_cons in Hd.
    destruct (put_fresh s h t _ Hw1 Hd) as (s1 & -> & Hs1 & Hst & Hd1). cbn [mbind res_bind].
    destruct (IH s1 h Hw2 Hd1) as (s' & -> & Hs' & Hall). exists s'.
    rewrite last_hash_cons. split_and!; [done|by etrans|]. constructor; [|done].
    cbn. by eapply stored_mono.
Qed.

(** ** Rehashing up from the new leaf *)

Definition shape (e : Byte.byte * trie) : Prop :=
  match e.2 with
  | Leaf _ _ => False
  | Node pb => valid pb
  | Extension a ptr => (length (inner_bytes a) <= 1024)%nat /\ exists h, ptr = NodePointer h
  end.

Lemma ctx_shape s ps p mo : ctx s ps p mo -> Forall shape ps.
Proof.
  induction 1 as [|ps p mo i pb c f mc _ IH Hv|ps p mo i a h k _ IH Hne Ha Hnn Hk Hpre];
    [constructor|apply Forall_app; split; [done|by constructor]..|].
  apply Forall_app; split; [done|]. constructor; [|done]. split; [|by eexists].
  apply prefix_length in Hpre. rewrite length_app in Hpre. pose proof (key_path_bound k Hk). lia.
Qed.

Lemma rehash_shape ps : forall tip h ret,
  Forall shape ps -> trie_hash tip = Ok h ->
  exists els, rehash_loop tip h ps ret = Ok (ret ++ els) /\ Forall well_hashed els.
Proof.
  induction ps as [|[i t] ps IH]; intros tip h ret Hs Hh; cbn [rehash_loop].
  - exists []. by rewrite app_nil_r.
  - inversion Hs as [|? ? Ht Hps]; subst. apply trie_hash_valid in Hh as Hvh.
    assert (exists t', reseat i t tip h = Ok t' /\ valid t' /\ exists h', trie_hash t' = Ok h')
      as (t' & -> & Hv' & h' & Hh').
    { destruct t as [k v|pb|af ptr]; [done| |].
      - eexists. split; [done|]. set (q := match tip with Leaf _ _ => _ | _ => _ end).
        assert (valid (pb_set pb i (Some q))) as Hpb.
        { apply pb_set_valid; [done|]. by destruct tip. }
        split; [done|by apply node_hash_total].
      - destruct Ht as [Hl [h0 ->]]. eexists. split; [done|].
        split; [done|by apply ext_hash_total]. }
    cbn [mbind res_bind]. rewrite Hh'. cbn [mbind res_bind].
    destruct (IH t' h' (ret ++ [(h', t')]) Hps Hh') as (els & -> & Hw).
    exists ((h', t') :: els). rewrite <- app_assoc. split; [done|]. by constructor.
Qed.

Lemma rehash_leaf ps (k : K) (v : V) :
  Forall shape ps -> valid k -> valid v ->
  (Z.of_nat (serialized_length (Leaf k v : trie)) <= u32_max)%Z ->
  exists els, rehash (Leaf k v) ps = Ok els /\ els <> [] /\ Forall well_hashed els /\
    forall s2 q mo root, ctx s2 ps q mo -> ps <> [] -> ~ needs_node ps -> q `prefix_of` key_path k ->
      Forall (fun e => stored s2 e.1 e.2) els -> rooted s2 (last_hash root els) ({[k := v]} ∪ mo).
Proof.
  intros Hs Hk Hv Hl. destruct (trie_hash_total (Leaf k v)) as [h Hh]; [done|done|].
  destruct (rehash_shape (rev ps) (Leaf k v) h [(h, Leaf k v)]) as (els & He & Hw).
  { by apply Forall_rev. } { done. }
  exists ((h, Leaf k v) :: els). unfold rehash. rewrite Hh. cbn [mbind res_bind]. rewrite He.
  split_and!; [done|done|by constructor|].
  intros s2 q mo root C Hne Hnn Hq Hst. inversion Hst as [|? ? Hst1 Hst2]; subst.
  destruct (rehash_plug s2 ps q mo C (Leaf k v) {[k := v]} h [(h, Leaf k v)])
    as (els' & He' & _ & Hroot); [done|done|by intros []|].
  rewrite He in He'. injection He' as <-. rewrite last_hash_cons. apply Hroot; [done|done|done|].
  by constructor.
Qed.

(** ** Preparing the parents of the new leaf *)

Lemma add_node_correct (path q : bytes) i pb (ps : Parents) :
  get_parents_path ps = q -> q ++ [i] `prefix_of` path ->
  add_node_to_parents path (Node pb) ps = Ok (ps ++ [(i, Node pb)]).
Proof.
  intros Hq Hpre. unfold add_node_to_parents. cbn [mbind res_bind]. rewrite Hq.
  assert (q `prefix_of` path) as Hp by (etrans; [by apply prefix_app_r|exact Hpre]).
  rewrite common_prefix_prefix by done. rewrite bool_decide_eq_true_2 by done. cbn [rassert mbind res_bind].
  destruct Hpre as [u ->]. rewrite <- app_assoc. cbn [app]. by rewrite index_at_app.
Qed.

(** The possible extension between the old parents and the new node. *)
Definition with_ext (ps : Parents) (i : Byte.byte) (affix : bytes) (h : Digest) : Parents :=
  match affix with [] => ps | _ :: _ => ps ++ [(i, Trie_extension affix (NodePointer h))] end.

Lemma ctx_with_ext s ps q mo i affix h (k : K) :
  ctx s ps q mo -> q <> [] -> ~ needs_node ps -> valid k -> q ++ affix `prefix_of` key_path k ->
  ctx s (with_ext ps i affix h) (q ++ affix) mo.
Proof.
  intros C Hq Hn Hk Hp. destruct affix as [|b affix]; [by rewrite app_nil_r|].
  by apply (ctx_ext s ps q mo i (MkBytes (b :: affix)) h k).
Qed.

(** A new node over one old child, with the hole at another index. *)
Lemma ctx_fork s ps q mo i b ptr t (mt : gmap K V) :
  ctx s ps q mo -> i <> b -> points_to s ptr t -> reps s (q ++ [b]) t mt ->
  ctx s (ps ++ [(i, Trie_node [(b, ptr)])]) (q ++ [i]) (mt ∪ mo).
Proof.
  intros C Hib Hpt R.
  assert (valid (pointer_hash ptr)) as Hv.
  { destruct Hpt as [(_ & bs & _ & -> & _) _]. apply digest_valid. }
  apply (ctx_node s ps q mo i _ (fun _ => t) (fun j => if decide (b = j) then mt else ∅)); [done|..].
  - by apply from_one_pointer_valid.
  - right. exists b. rewrite from_one_pointer_get, decide_True by done. done.
  - intros j p' Hj. rewrite from_one_pointer_get. case_decide; [by intros [= <-]|done].
  - intros j p' Hj. rewrite from_one_pointer_get. case_decide; [subst; by intros [= <-]|done].
  - intros j Hj. rewrite from_one_pointer_get. by case_decide.
  - intros k v. split.
    + intros Hl. exists b. rewrite decide_True by done. done.
    + intros (j & Hj & Hl). case_decide; [done|]. by rewrite lookup_empty in Hl.
Qed.

(** Two different keys below the same hole part at some byte. *)
Lemma keys_part (k k' : K) q :
  valid k -> valid k' -> k <> k' -> q `prefix_of` key_path k -> q `prefix_of` key_path k' ->
  exists cp x l y r, key_path k = q ++ cp ++ x :: l /\ key_path k' = q ++ cp ++ y :: r /\ x <> y /\
    common_prefix (key_path k) (key_path k') = q ++ cp.
Proof.
  intros Hk Hk' Hne [u Hu] [u' Hu']. rewrite Hu, Hu', common_prefix_app.
  destruct (common_prefix_spec u u') as (l & r & El & Er & Hd).
  set (cp := common_prefix u u') in *. exists cp.
  destruct l as [|x l].
  { exfalso. apply Hne. apply (key_path_inj k k'); [done|done|].
    rewrite Hu, Hu', Er, El, app_nil_r. exists r. by rewrite <- !app_assoc. }
  destruct r as [|y r].
  { exfalso. apply Hne. symmetry. apply (key_path_inj k' k); [done|done|].
    rewrite Hu, Hu', El, Er, app_nil_r. exists (x :: l). by rewrite <- !app_assoc. }
  exists x, l, y, r. rewrite <- El, <- Er. split_and!; [done|done| |done]. by eapply Hd.
Qed.

Lemma slice_of_shared {E} (q cp : bytes) : @slice E _ (q ++ cp) (length q) (length (q ++ cp)) = Ok cp.
Proof. apply slice_from. Qed.

Lemma reparent_leaf_correct (q cp : bytes) x l y r (ps : Parents) i pb ptr :
  get_parents_path ps = q -> last ps = Some (i, Node pb) -> pb_get pb i = Some ptr -> valid ptr ->
  common_prefix (q ++ cp ++ x :: l) (q ++ cp ++ y :: r) = q ++ cp ->
  exists h, reparent_leaf (q ++ cp ++ x :: l) (q ++ cp ++ y :: r) ps =
    Ok (Trie_node [(y, ptr)], with_ext ps i cp h).
Proof.
  intros Hq Hlast Hi Hv Hcp.
  destruct (node_hash_total (from_indexed_pointers [(y, ptr)])) as [h Hh].
  { by apply from_one_pointer_valid. }
  exists h. unfold reparent_leaf. rewrite Hlast. cbn [expect mbind res_bind]. rewrite Hcp.
  rewrite (app_assoc q cp (y :: r)), index_at_app. cbn [mbind res_bind]. rewrite Hi.
  cbn [expect mbind res_bind]. rewrite Hq, slice_of_shared. cbn [mbind res_bind].
  destruct cp as [|b cp]; [done|]. unfold Trie_node. rewrite Hh. done.
Qed.

Definition child_extension (cea : bytes) (ptr : Pointer) (hc : Digest) : option (Digest * trie) :=
  match cea with [] => None | _ :: _ => Some (hc, Trie_extension cea ptr) end.
Definition child_pointer (cea : bytes) (ptr : Pointer) (hc : Digest) : Pointer :=
  match cea with [] => ptr | _ :: _ => NodePointer hc end.

Lemma split_extension_correct (q cp : bytes) x l y cea (ps : Parents) ptr :
  get_parents_path ps = q -> valid ptr -> (length (cp ++ y :: cea) <= 1024)%nat ->
  common_prefix (q ++ cp ++ x :: l) (q ++ cp ++ y :: cea) = q ++ cp ->
  exists hc h i, (cea <> [] -> trie_hash (Trie_extension cea ptr : trie) = Ok hc) /\
    split_extension (q ++ cp ++ x :: l) (Extension (MkBytes (cp ++ y :: cea)) ptr) ps =
    Ok {| new_node := Trie_node [(y, child_pointer cea ptr hc)];
          split_parents := with_ext ps i cp h;
          maybe_hashed_child_extension := child_extension cea ptr hc |}.
Proof.
  intros Hq Hv Hl Hcp.
  destruct (ext_hash_total (MkBytes cea) ptr Hv) as [hc Hhc].
  { cbn. rewrite length_app in Hl. cbn in Hl. lia. }
  destruct (node_hash_total (from_indexed_pointers [(y, child_pointer cea ptr hc)])) as [h Hh].
  { apply from_one_pointer_valid. destruct cea; [done|]. by eapply trie_hash_valid. }
  exists hc, h, (default y (head cp)). split; [done|].
  unfold split_extension. cbn [mbind res_bind inner_bytes]. rewrite Hq, Hcp, slice_of_shared.
  cbn [mbind res_bind].
  assert (slice (E:=Error) (cp ++ y :: cea) (length cp + 1) (length (cp ++ y :: cea)) = Ok cea) as ->.
  { replace (cp ++ y :: cea) with ((cp ++ [y]) ++ cea) by (by rewrite <- app_assoc).
    replace (length cp + 1)%nat with (length (cp ++ [y])) by (by rewrite length_app). apply slice_from. }
  cbn [mbind res_bind]. rewrite (app_assoc q cp (y :: cea)), index_at_app.
  unfold Trie_extension, Trie_node, child_pointer in *.
  destruct cea as [|b cea]; cbn [mbind res_bind mret res_ret].
  - destruct cp as [|b' cp]; [done|]. rewrite Hh. done.
  - rewrite Hhc. cbn [mbind res_bind mret res_ret]. destruct cp as [|b' cp]; [done|]. rewrite Hh. done.
Qed.

(** ** [write] *)

(** What the elements of a write achieve once they are stored. *)
Definition achieves (s : store) (m : gmap K V) (els : list (Digest * trie)) : Prop :=
  els <> [] /\ Forall well_hashed els /\
  forall root s2, s ⊆ s2 -> Forall (fun e => stored s2 e.1 e.2) els -> rooted s2 (last_hash root els) m.

Section NewElements.
Variables (s : store) (m : gmap K V) (k : K) (v : V).
Hypothesis Hk : valid k.
Hypothesis Hv : valid v.
Hypothesis Hfits : (Z.of_nat (serialized_length (Leaf k v : trie)) <= u32_max)%Z.

(** The new leaf hangs from a context that covers everything else. *)
Lemma achieves_leaf ps q mo :
  Forall shape ps -> ps <> [] -> ~ needs_node ps -> q `prefix_of` key_path k ->
  (forall s2, s ⊆ s2 -> ctx s2 ps q mo) ->
  exists els, rehash (Leaf k v) ps = Ok els /\ achieves s (<[k := v]> mo) els.
Proof.
  intros Hs Hne Hnn Hq C. destruct (rehash_leaf ps k v) as (els & -> & He & Hw & Hr); try done.
  exists els. split; [done|]. split_and!; [done|done|]. intros root s2 Hs2 Hst.
  rewrite insert_union_singleton_l. apply (Hr s2 q mo root); try done. by apply C.
Qed.

Lemma snoc_not_nil {A} (l : list A) x : l ++ [x] <> [].
Proof. by destruct l. Qed.

Lemma node_on_top (ps : Parents) i pb : ~ needs_node (ps ++ [(i, Node pb)]).
Proof. intros (? & ? & ?)%needs_node_snoc. done. Qed.

Lemma hole_not_root ps q mo t :
  ctx s ps q mo -> (needs_node ps \/ ps = [] -> is_node t) -> ~ is_node t ->
  q <> [] /\ ~ needs_node ps /\ exists ps0 i pb, ps = ps0 ++ [(i, Node pb)].
Proof.
  intros C Hside Hn. assert (~ needs_node ps) as Hnn by (intros ?; apply Hn, Hside; by left).
  assert (ps <> []) as Hne by (intros ?; apply Hn, Hside; by right).
  split_and!; [by rewrite (ctx_nil_inv s ps q mo C)|done|].
  destruct ps as [|[i t'] ps _] using rev_ind; [done|]. apply ctx_shape in C.
  apply Forall_app in C as [_ C]. rewrite Forall_singleton in C.
  destruct t' as [| |a p]; [done|by eexists _, _, _|]. destruct Hnn. apply needs_node_snoc. by eexists _, _.
Qed.

Lemma new_elements_leaf ps q mt mo k' v' :
  scanned s (key_path k) m (Leaf k' v') ps q mt mo -> k <> k' ->
  exists els, new_elements (key_path k) k v (Leaf k' v') ps = Ok els /\ achieves s (<[k := v]> m) els.
Proof.
  intros [C R Hq <- Hside Hab _] Hne. apply reps_leaf_inv in R as (-> & Hk' & Hv' & Hq').
  destruct (hole_not_root ps q mo (Leaf k' v') C Hside) as (Hq0 & Hnn & ps0 & i & pb & Eps).
  { by intros [? ?]. }
  destruct (Hab i pb) as (ptr & Hi & Hpt); [by rewrite Eps, last_snoc|].
  assert (valid ptr) as Hvp.
  { red. red. destruct Hpt as [(_ & bs & _ & -> & _) _]. apply digest_valid. }
  destruct (keys_part k k' q Hk Hk' Hne Hq Hq') as (cp & x & l & y & r & Ek & Ek' & Hxy & Hcp).
  cbn [new_elements]. rewrite decide_False by congruence. rewrite decide_False by tauto.
  rewrite decide_True by done. rewrite (key_path_to_bytes k') by done. cbn [mbind res_bind].
  rewrite Ek, Ek' in *.
  destruct (reparent_leaf_correct q cp x l y r ps i pb ptr) as [h ->]; try done.
  { by eapply ctx_path. } { by rewrite Eps, last_snoc. }
  cbn [mbind res_bind].
  assert (forall s2, s ⊆ s2 -> ctx s2 (with_ext ps i cp h) (q ++ cp) mo) as C1.
  { intros s2 Hs2. apply (ctx_with_ext s2 ps q mo i cp h k); try done; [by eapply ctx_mono|].
    rewrite Ek. exists (x :: l). by rewrite <- app_assoc. }
  assert (forall s2, s ⊆ s2 ->
    ctx s2 (with_ext ps i cp h ++ [(x, Trie_node [(y, ptr)])]) ((q ++ cp) ++ [x]) ({[k' := v']} ∪ mo)) as C2.
  { intros s2 Hs2. apply (ctx_fork s2 _ _ _ _ _ _ (Leaf k' v')); [by apply C1|done|by eapply points_to_mono|].
    constructor; [done|done|]. rewrite Ek'. exists r. by rewrite <- !app_assoc. }
  unfold Trie_node. rewrite (add_node_correct _ (q ++ cp) x).
  - cbn [mbind res_bind]. eapply achieves_leaf; [by eapply ctx_shape, (C2 s)|apply snoc_not_nil|
      apply node_on_top| |exact C2]. rewrite Ek. exists l. by rewrite <- !app_assoc.
  - eapply ctx_path, (C1 s). done.
  - exists l. by rewrite <- !app_assoc.
Qed.

Lemma new_elements_node ps q mt mo pb :
  scanned s (key_path k) m (Node pb) ps q mt mo ->
  exists els, new_elements (key_path k) k v (Node pb) ps = Ok els /\ achieves s (<[k := v]> m) els.
Proof.
  intros [C R Hq <- Hside Hab (i & Hi & Hnone)]. cbn [new_elements].
  rewrite (add_node_correct _ q i) by (done || by eapply ctx_path). cbn [mbind res_bind].
  assert (forall s2, s ⊆ s2 -> ctx s2 (ps ++ [(i, Node pb)]) (q ++ [i]) (mt ∪ mo)) as C2.
  { intros s2 Hs2. apply (ctx_mono s); [done|].
    inversion R as [|? ? c f ? Hvp Hc Hp Hr He Hm|]; subst.
    apply (ctx_node s ps q mo i pb c f); try done; try (by intros; eauto).
    - destruct Hc as [?|(j1 & j2 & Hj & Hs1 & Hs2')]; [by left|right]. exists j1. split; [|done].
      intros ->. rewrite Hnone in Hs1. by destruct Hs1.
    - intros k' v'. rewrite Hm. split; [|intros (j & _ & ?); by exists j].
      intros [j Hj]. exists j. split; [|done]. intros ->. by rewrite He in Hj. }
  eapply achieves_leaf; [by eapply ctx_shape, (C2 s)|apply snoc_not_nil|apply node_on_top|exact Hi|exact C2].
Qed.

(** The path of the key and the affix of the extension part at some byte. *)
Lemma affix_parts ps q mt mo a h :
  scanned s (key_path k) m (Extension a (NodePointer h)) ps q mt mo ->
  exists cp x l y cea, key_path k = q ++ cp ++ x :: l /\ inner_bytes a = cp ++ y :: cea /\ x <> y /\
    common_prefix (key_path k) (q ++ inner_bytes a) = q ++ cp.
Proof.
  intros [C R Hq _ Hside Hab Hstop]. cbn in Hstop.
  pose proof (reps_ext_depth s q a h mt k R Hk Hq) as Hd.
  destruct Hq as [u Hu]. rewrite Hu, length_app in Hd. rewrite Hu, common_prefix_app.
  destruct (common_prefix_spec u (inner_bytes a)) as (l & r & El & Er & Hp).
  set (cp := common_prefix u (inner_bytes a)) in *. exists cp.
  destruct r as [|y r].
  { exfalso. apply Hstop. rewrite Hu. exists l. rewrite Er, app_nil_r, <- app_assoc, <- El. done. }
  destruct l as [|x l].
  { exfalso. rewrite app_nil_r in El. rewrite Er, El in Hd. rewrite length_app in Hd. cbn in Hd. lia. }
  exists x, l, y, r. rewrite <- El, <- Er. split_and!; [done|done| |done]. by eapply Hp.
Qed.

Lemma new_elements_ext ps q mt mo a h :
  scanned s (key_path k) m (Extension a (NodePointer h)) ps q mt mo ->
  exists els, new_elements (key_path k) k v (Extension a (NodePointer h)) ps = Ok els /\
    achieves s (<[k := v]> m) els.
Proof.
  intros Hsc. destruct (affix_parts ps q mt mo a h Hsc) as (cp & x & l & y & cea & Ek & Ea & Hxy & Hcp).
  destruct Hsc as [C R Hq <- Hside Hab _].
  destruct (hole_not_root ps q mo _ C Hside) as (Hq0 & Hnn & ps0 & i0 & pb0 & Eps).
  { by intros [? ?]. }
  inversion R as [| |? ? ? pb ? _ _ Hst Rn]; subst.
  set (ps := ps0 ++ [(i0, Node pb0)]) in *. clearbody ps.
  pose proof (affix_bound s q a h mt R) as Hlen. destruct a as [a]. cbn [inner_bytes] in *. subst a.
  assert (valid (NodePointer h)) as Hvh.
  { red. red. destruct Hst as (_ & bs & _ & -> & _). apply digest_valid. }
  cbn [new_elements]. rewrite Ek in *.
  destruct (split_extension_correct q cp x l y cea ps (NodePointer h)) as (hc & hn & i & Hhc & ->); try done.
  { by eapply ctx_path. }
  cbn [mbind res_bind new_node split_parents maybe_hashed_child_extension].
  assert (forall s2, s ⊆ s2 -> ctx s2 (with_ext ps i cp hn) (q ++ cp) mo) as C1.
  { intros s2 Hs2. apply (ctx_with_ext s2 ps q mo i cp hn k); try done; [by eapply ctx_mono|].
    rewrite Ek. exists (x :: l). by rewrite <- app_assoc. }
  (* the subtree of the extension, now below the new node *)
  assert (forall s2, s ⊆ s2 -> (cea <> [] -> stored s2 hc (Trie_extension cea (NodePointer h))) ->
    ctx s2 (with_ext ps i cp hn ++ [(x, Trie_node [(y, child_pointer cea (NodePointer h) hc)])])
      ((q ++ cp) ++ [x]) (mt ∪ mo)) as C2.
  { intros s2 Hs2 Hchild. destruct cea as [|b cea].
    - apply (ctx_fork s2 _ _ _ _ _ _ (Node pb)); [by apply C1|done| |].
      + split; [by eapply stored_mono|done].
      + eapply reps_mono; [done|]. by rewrite <- app_assoc.
    - apply (ctx_fork s2 _ _ _ _ _ _ (Trie_extension (b :: cea) (NodePointer h)));
        [by apply C1|done|split; [by apply Hchild|done]|].
      apply (reps_ext s2 _ _ h pb); [apply snoc_not_nil|done|by eapply stored_mono|].
      eapply reps_mono; [done|]. cbn [inner_bytes]. by rewrite <- !app_assoc. }
  assert (Forall shape (with_ext ps i cp hn ++ [(x, Trie_node [(y, child_pointer cea (NodePointer h) hc)])]))
    as Hshape.
  { apply Forall_app. split; [by eapply ctx_shape, (C1 s)|]. constructor; [|done].
    apply from_one_pointer_valid. destruct cea; [done|]. by eapply trie_hash_valid, Hhc. }
  unfold Trie_node at 1. rewrite (add_node_correct _ (q ++ cp) x).
  2: { eapply ctx_path, (C1 s). done. } 2: { exists l. by rewrite <- !app_assoc. }
  cbn [mbind res_bind].
  destruct (rehash_leaf _ k v Hshape Hk Hv Hfits) as (els & Hels & He & Hw & Hr).
  unfold Trie_node in Hels at 1. rewrite Hels.
  assert (forall root s2, s ⊆ s2 -> Forall (fun e => stored s2 e.1 e.2) els ->
    (cea <> [] -> stored s2 hc (Trie_extension cea (NodePointer h))) ->
    rooted s2 (last_hash root els) (<[k := v]> (mt ∪ mo))) as Hroot.
  { intros root s2 Hs2 Hall Hchild. rewrite insert_union_singleton_l.
    apply (Hr s2 ((q ++ cp) ++ [x])); [by apply C2|apply snoc_not_nil|apply node_on_top| |done].
    rewrite Ek. exists l. by rewrite <- !app_assoc. }
  destruct cea as [|b cea]; cbn [child_extension mbind res_bind].
  - exists els. split; [done|]. split_and!; [done|done|]. intros root s2 Hs2 Hall. by apply Hroot.
  - exists ((hc, Trie_extension (b :: cea) (NodePointer h)) :: els). split; [done|].
    split_and!; [done|constructor; [|done]; split; [done|by apply Hhc]|].
    intros root s2 Hs2 Hall. inversion Hall; subst. rewrite last_hash_cons. by apply Hroot.
Qed.

Lemma new_elements_correct tip ps q mt mo :
  scanned s (key_path k) m tip ps q mt mo ->
  if decide (m !! k = Some v) then new_elements (key_path k) k v tip ps = Ok []
  else exists els, new_elements (key_path k) k v tip ps = Ok els /\ achieves s (<[k := v]> m) els.
Proof.
  intros Hsc. assert (m !! k = mt !! k) as Em.
  { destruct Hsc as [C R Hq <- _ _ _]. destruct (mt !! k) as [v0|] eqn:E; [by apply lookup_union_Some_l|].
    rewrite lookup_union_r by done. destruct (mo !! k) as [v0|] eqn:Eo; [|done].
    by destruct (ctx_outside s ps q mo k v0 C Eo). }
  destruct tip as [k' v'|pb|a ptr].
  - pose proof Hsc as [C R Hq _ Hside Hab _]. apply reps_leaf_inv in R as (-> & Hk' & Hv' & Hq').
    destruct (decide (k = k')) as [<-|Hne].
    + rewrite lookup_singleton_eq in Em. rewrite Em. cbn [new_elements].
      destruct (decide (v = v')) as [<-|Hvne].
      { rewrite decide_True by done. by rewrite decide_True. }
      rewrite decide_False by congruence. rewrite (decide_False (P := Leaf k v = Leaf k v')) by congruence.
      rewrite decide_True by done.
      destruct (hole_not_root ps q mo (Leaf k v') C Hside) as (Hq0 & Hnn & ps0 & i & pb & ->).
      { by intros [? ?]. }
      destruct (rehash_leaf (ps0 ++ [(i, Node pb)]) k v) as (els & -> & He & Hw & Hr); try done.
      { by eapply ctx_shape. }
      exists els. split; [done|]. split_and!; [done|done|]. intros root s2 Hs2 Hall.
      assert (<[k := v]> m = {[k := v]} ∪ mo) as ->.
      { destruct Hsc as [_ _ _ <- _ _ _]. rewrite insert_union_l.
        by rewrite insert_singleton_eq. }
      apply (Hr s2 q); [by eapply ctx_mono|apply snoc_not_nil|done|done|done].
    + rewrite lookup_singleton_ne in Em by done. rewrite Em. cbn [decide]. 
      rewrite decide_False by done. by eapply new_elements_leaf.
  - destruct (decide (m !! k = Some v)) as [E|_]; [|by eapply new_elements_node].
    exfalso. destruct Hsc as [C R Hq _ _ _ (i & Hi & Hnone)]. rewrite Em in E.
    inversion R as [|? ? c f ? Hvp Hc Hp Hr He Hm|]; subst.
    by rewrite (node_child s q pb c f mt i k Hr He Hm Hi), He in E.
  - destruct (decide (m !! k = Some v)) as [E|_].
    + exfalso. destruct Hsc as [C R Hq _ _ _ Hstop]. rewrite Em in E.
      inversion R as [| |? ? h pb ? _ _ Hst Rn]; subst. apply Hstop. by eapply (reps_affix s q a h).
    + assert (exists h, ptr = NodePointer h) as [h ->] by (destruct Hsc as [_ R _ _ _ _ _]; inversion R; by eexists).
      by eapply new_elements_ext.
Qed.

End NewElements.
(** The strings a write stores. *)
Definition write_strings (s : store) (root : Digest) (k : K) (v : V) : list bytes :=
  let elements : bres (list (Digest * trie)) :=
    current ← get s root;
    match current with
    | None => Ok []
    | Some current_root =>
        path ← to_bytes k;
        scanned ← scan s path current_root;
        match scanned with
        | None => Ok []
        | Some (tip, parents) => new_elements path k v tip parents
        end
    end in
  match elements with Ok els => element_bytes els | _ => [] end.

Lemma write_rooted s root (m : gmap K V) k v :
  rooted s root m -> valid k -> valid v ->
  (Z.of_nat (serialized_length (Leaf k v : trie)) <= u32_max)%Z ->
  digests_apart s (write_strings s root k v) ->
  if decide (m !! k = Some v) then write s root k v = Ok (s, AlreadyExists)
  else exists s' root', write s root k v = Ok (s', Written root') /\ s ⊆ s' /\
    rooted s' root' (<[k := v]> m).
Proof.
  intros (pb & Hst & R) Hk Hv Hfits Hd. unfold write, write_strings in *.
  rewrite (stored_get _ _ _ Hst), key_path_to_bytes in * by done. cbn [mbind res_bind] in *.
  unfold scan in *.
  destruct (scan_loop_correct s [] (Node pb) m k (S (length (key_path k))) [] ∅ R (ctx_nil s) Hk)
    as (tip & ps & q & mt & mo & Hscan & Hsc).
  { apply prefix_nil. } { cbn. lia. } { intros _. by eexists. } { intros i pb'. done. }
  rewrite (right_id_L ∅ (∪)) in Hsc. cbn [length] in Hscan.
  rewrite Hscan in *. cbn [mbind res_bind] in *.
  pose proof (new_elements_correct s m k v Hk Hv Hfits tip ps q mt mo Hsc) as Hn.
  case_decide; [by rewrite Hn|]. destruct Hn as (els & He & Hne & Hw & Hroot). rewrite He in *.
  cbn [mbind res_bind] in *. destruct els as [|e els]; [done|].
  destruct (put_all_correct (e :: els) s root Hw Hd) as (s' & -> & Hs & Hall).
  cbn [mbind res_bind]. eexists _, _. split; [done|]. split; [done|]. by apply Hroot.
Qed.

(** ** The empty trie *)

Lemma empty_trie_rooted :
  nodes_fit_chunk ->
  exists h bs, create_hashed_empty_trie (K:=K) (V:=V) = Ok (h, Node PointerBlock_new) /\
    to_bytes (Node PointerBlock_new : trie) = Ok bs /\
    rooted ({[h := bs]} : store) h (∅ : gmap K V).
Proof.
  intros Hc. assert (valid (Node PointerBlock_new : trie)) as Hv by apply PointerBlock_new_valid.
  destruct (bytesrepr_total (Node PointerBlock_new : trie) Hv) as (bs & Hb & _).
  { change (Z.of_nat (1 + PointerBlock_serialized_length PointerBlock_new) <= u32_max)%Z.
    pose proof (PointerBlock_length_bound PointerBlock_new PointerBlock_new_valid) as Hl. unfold RADIX in Hl.
    unfold u32_max, uint_max. lia. }
  exists (hash bs), bs. unfold create_hashed_empty_trie. rewrite Hb. split_and!; [done|done|].
  assert (hash bs = digest bs) as Hh.
  { apply hash_small. pose proof (node_bytes_small PointerBlock_new bs Hv Hb) as Hl.
    unfold nodes_fit_chunk in Hc. lia. }
  exists PointerBlock_new. split.
  - split; [done|]. exists bs. split_and!; [done|done|]. apply lookup_singleton_eq.
  - apply (reps_node _ _ _ (fun _ => Node PointerBlock_new) (fun _ => ∅)).
    + apply PointerBlock_new_valid.
    + by left.
    + intros i ptr. by rewrite pb_get_new.
    + intros i ptr. by rewrite pb_get_new.
    + done.
    + intros k v. split; [by rewrite lookup_empty|]. intros [i Hi]. by rewrite lookup_empty in Hi.
Qed.

(** ** Sequences of writes *)

Fixpoint write_list (s : store) (root : Digest) (l : list (K * V)) : bres (store * Digest) :=
  match l with
  | [] => Ok (s, root)
  | (k, v) :: l =>
      '(s, r) ← write s root k v;
      write_list s (match r with Written root => root | _ => root end) l
  end.

(** Along the run, the strings written have digests of their own. *)
Fixpoint writes_apart (s : store) (root : Digest) (l : list (K * V)) : Prop :=
  match l with
  | [] => True
  | (k, v) :: l =>
      digests_apart s (write_strings s root k v) /\
      match write s root k v with
      | Ok (s, Written root) => writes_apart s root l
      | Ok (s, _) => writes_apart s root l
      | _ => True
      end
  end.

Definition entry_ok (kv : K * V) : Prop :=
  valid kv.1 /\ valid kv.2 /\ (Z.of_nat (serialized_length (Leaf kv.1 kv.2 : trie)) <= u32_max)%Z.

Definition insert_list (m : gmap K V) (l : list (K * V)) : gmap K V :=
  foldl (fun m '(k, v) => <[k := v]> m) m l.

Lemma write_list_rooted l : forall s root (m : gmap K V),
  rooted s root m -> Forall entry_ok l -> writes_apart s root l ->
  exists s' root', write_list s root l = Ok (s', root') /\ s ⊆ s' /\ rooted s' root' (insert_list m l).
Proof.
  induction l as [|[k v] l IH]; intros s root m R Hl Ha; cbn [write_list].
  - exists s, root. done.
  - inversion Hl as [|? ? (Hk & Hv & Hf) Hl']; subst. cbn in Ha. destruct Ha as [Hd Ha].
    pose proof (write_rooted s root m k v R Hk Hv Hf Hd) as W. cbn [insert_list foldl].
    case_decide as E.
    + rewrite W in *. cbn [mbind res_bind]. rewrite insert_id by done. by apply IH.
    + destruct W as (s1 & root1 & W & Hs & R1). rewrite W in *. cbn [mbind res_bind].
      destruct (IH s1 root1 _ R1 Hl' Ha) as (s' & root' & -> & Hs' & R').
      exists s', root'. split_and!; [done|by etrans|done].
Qed.

End Write.
