(* ===== verification/TrieProps.v ===== *)
(** * What the trie store promises, for [Key]s of the global state: reads refine
    lookup, writes refine insertion and keep every older root readable, and the
    root hash depends on the content only. *)

From S2P Require Import Prelude Bytesrepr Hashing KeyTypes Trie TrieStore TrieInv TrieRead TrieProof TrieWrite.

(** ** Global-state keys meet the trie's requirements *)

#[export, refine] Instance Key_TrieKey : TrieKey Key := {| trie_key_max := 34 |}.
Proof.
  - lia.
  - intros k Hk. destruct (bytesrepr_total k Hk) as (bs & Hb & _).
    { pose proof (Key_serialized_bound k) as Hl. change (Z.of_nat (Key_serialized_length k) <= u32_max)%Z.
      unfold u32_max, uint_max. lia. }
    pose proof (Key_length k bs Hk Hb) as Hl. pose proof (Key_serialized_bound k).
    unfold to_bytes, Key_ToBytes, Key_to_bytes in Hb.
    apply bind_Ok in Hb as (body & Hbody & [= <-]). exists (Key_tag_u8 k), body.
    split; [|cbn in *; lia]. unfold to_bytes, Key_ToBytes, Key_to_bytes. by rewrite Hbody.
  - apply Key_same_first_byte.
Qed.

Section Properties.
Context {K V : Type} `{Countable K} `{EqDecision V} `{Bytesrepr K} `{Bytesrepr V}.
Context `{!TrieKey K} `{Blake2b} `{TreeFold1}.

(** C12 [read] refines lookup: under a root whose trie holds the map [m], reading
    any key returns [Found] with the value [m] has for it or [NotFound] when it
    has none; it never panics, never runs out of path and never errs. *)
Theorem read_refines_lookup s root (m : gmap K V) (k : K) :
  rooted s root m -> valid k ->
  read (V:=V) s root k = Ok (match m !! k with Some v => Found v | None => NotFound end).
Proof. apply read_rooted. Qed.

(** C2 [write] refines insertion: under a root whose trie holds the map [m],
    writing a value the key already has returns [AlreadyExists] and leaves the
    store alone; any other write returns a new root whose trie holds [m] with the
    key updated, and the new store extends the old one, so that every older root
    keeps its content.  No panic or assertion of [scan], [reparent_leaf],
    [split_extension], [add_node_to_parents] or [rehash] is reachable.  The one
    assumption is that the strings the write stores do not collide with other
    stored strings. *)
Theorem write_refines_insert s root (m : gmap K V) (k : K) (v : V) :
  rooted s root m -> entry_ok (k, v) -> digests_apart s (write_strings s root k v) ->
  if decide (m !! k = Some v) then write s root k v = Ok (s, AlreadyExists)
  else exists s' root',
    write s root k v = Ok (s', Written root') /\ rooted s' root' (<[k := v]> m) /\
    forall root0 (m0 : gmap K V), rooted s root0 m0 -> rooted s' root0 m0.
Proof.
  intros R (Hk & Hv & Hf) Hd. pose proof (write_rooted s root m k v R Hk Hv Hf Hd) as W.
  case_decide; [done|]. destruct W as (s' & root' & Hw & Hs & R'). exists s', root'.
  split_and!; [done|done|]. intros root0 m0 R0. by apply (rooted_mono s).
Qed.

(** Equal contents have equal roots. *)
Lemma rooted_root_unique s1 s2 root1 root2 (m : gmap K V) :
  rooted s1 root1 m -> rooted s2 root2 m -> root1 = root2.
Proof.
  intros (pb1 & S1 & R1) (pb2 & S2 & R2).
  assert (Node pb1 = Node pb2 :> Trie K V) as E
    by (eapply reps_canonical; [exact R1|exact R2|right; by eexists _, _]).
  injection E as <-. apply stored_hash in S1, S2. congruence.
Qed.


(** The order of writes does not matter: starting from the empty trie, two
    sequences of writes that amount to the same map both succeed and reach the
    same root hash, under which every key reads as in the map. *)
Theorem write_order_irrelevant h bs (l1 l2 : list (K * V)) :
  nodes_fit_chunk ->
  create_hashed_empty_trie (K:=K) (V:=V) = Ok (h, Node PointerBlock_new) ->
  to_bytes (Node PointerBlock_new : Trie K V) = Ok bs ->
  Forall entry_ok l1 -> Forall entry_ok l2 ->
  writes_apart {[h := bs]} h l1 -> writes_apart {[h := bs]} h l2 ->
  insert_list ∅ l1 = insert_list ∅ l2 ->
  exists s1 s2 root, write_list {[h := bs]} h l1 = Ok (s1, root) /\
    write_list {[h := bs]} h l2 = Ok (s2, root) /\
    forall k, valid k -> read (V:=V) s1 root k = Ok (lookup_result (insert_list ∅ l1 !! k)).
Proof.
  intros Hc Hh Hb L1 L2 A1 A2 E.
  destruct (empty_trie_rooted (K:=K) (V:=V) Hc) as (h' & bs' & Hh' & Hb' & R).
  rewrite Hh in Hh'. injection Hh' as <-. rewrite Hb in Hb'. injection Hb' as <-.
  destruct (write_list_rooted l1 _ h ∅ R L1 A1) as (s1 & r1 & W1 & _ & R1).
  destruct (write_list_rooted l2 _ h ∅ R L2 A2) as (s2 & r2 & W2 & _ & R2).
  rewrite <- E in R2.
  pose proof (rooted_root_unique _ _ _ _ _ R1 R2) as <-.
  exists s1, s2, r1. split_and!; [done|done|]. intros k Hk. by apply read_rooted.
Qed.

(** *** Deciding that digests are apart *)

Definition digests_apartb (s : store) (l : list bytes) : bool :=
  let table := (fun b => (b, hash_bytes_into_chunks_if_necessary b)) <$> l in
  forallb (fun p =>
    match s !! p.2 with Some bs => bool_decide (bs = p.1) | None => true end &&
    forallb (fun q => implb (bool_decide (p.2 = q.2)) (bool_decide (p.1 = q.1))) table) table.

Lemma digests_apartb_spec s l : digests_apartb s l = true -> digests_apart s l.
Proof.
  unfold digests_apartb. rewrite forallb_forall. intros F b Hb.
  set (d := hash_bytes_into_chunks_if_necessary) in *.
  assert (forall z, z ∈ l -> In (z, d z) ((fun x => (x, d x)) <$> l)) as T.
  { intros z Hz. apply list_elem_of_In, list_elem_of_fmap. by exists z. }
  specialize (F _ (T b Hb)). apply andb_true_iff in F as [F1 F2]. cbn [fst snd] in *. split.
  - intros bs E. rewrite E in F1. by apply bool_decide_eq_true in F1.
  - intros b' Hb' E. rewrite forallb_forall in F2. specialize (F2 _ (T b' Hb')). cbn in F2.
    rewrite bool_decide_eq_true_2 in F2 by done. by apply bool_decide_eq_true in F2.
Qed.

(** [writes_apart], decided along the run. *)
Fixpoint writes_apartb (s : store) (root : Digest) (l : list (K * V)) : bool :=
  match l with
  | [] => true
  | (k, v) :: l =>
      digests_apartb s (write_strings s root k v) &&
      match write s root k v with
      | Ok (s, Written root) => writes_apartb s root l
      | Ok (s, _) => writes_apartb s root l
      | _ => true
      end
  end.

Lemma writes_apartb_spec l : forall s root, writes_apartb s root l = true -> writes_apart s root l.
Proof.
  induction l as [|[k v] l IH]; intros s root; cbn; [done|].
  intros [E Hl]%andb_true_iff. split; [by apply digests_apartb_spec|].
  destruct (write s root k v) as [[s' []]| | |]; auto.
Qed.

Lemma writes_apart_head s root (k : K) (v : V) l :
  writes_apart s root ((k, v) :: l) -> digests_apart s (write_strings s root k v).
Proof. by intros [Ha _]. Qed.

(** [no_collision_with], decided by a walk over the store. *)
Definition no_collision_withb (s : store) (l : list bytes) : bool :=
  forallb (fun b =>
    let h := hash b in let h' := hash_bytes_into_chunks_if_necessary b in
    forallb (fun e => implb (bool_decide (e.1 = h) || bool_decide (e.1 = h')) (bool_decide (e.2 = b)))
      (map_to_list s)) l.

Lemma no_collision_withb_spec s l : no_collision_withb s l = true -> no_collision_with s l.
Proof.
  unfold no_collision_withb. rewrite forallb_forall. intros F b h bs Hb Hs Hh.
  specialize (F b (proj1 (list_elem_of_In _ _) Hb)). rewrite forallb_forall in F.
  specialize (F (h, bs)). rewrite <- list_elem_of_In, elem_of_map_to_list in F.
  specialize (F Hs). cbn [fst snd] in F.
  assert (bool_decide (h = hash b) || bool_decide (h = hash_bytes_into_chunks_if_necessary b) = true) as E.
  { apply orb_true_iff. destruct Hh; [left|right]; by apply bool_decide_eq_true. }
  rewrite E in F. by apply bool_decide_eq_true in F.
Qed.

End Properties.

(** ** Witnesses

    A trie over [Key]s with [U512] values, hashed with the reference checksum
    and a chunk size above that of a node. *)

Definition wide_checksum : Blake2b.
Proof.
  refine {| blake2b := checksum; CHUNK_SIZE_BYTES := Z.to_nat 9000 |}.
  - intros data. apply length_le_split.
  - apply Nat2Z.inj_lt. rewrite Z2Nat.id; lia.
Defined.

(** The value of a call that returns, and a fallback for one that does not. *)
Definition ok_value {E A} (d : A) (m : res E A) : A := match m with Ok a => a | _ => d end.

Lemma ok_value_eq {E A} (d : A) (m : res E A) : is_ok m = true -> m = Ok (ok_value d m).
Proof. by destruct m. Qed.

Module Sample.
#[local] Existing Instance wide_checksum.

Definition key_of (n : Z) : Key := Account (MkAccountHash (le_split 32 n)).
Definition k1 : Key := key_of 1.
Definition k2 : Key := key_of 513.
Definition k3 : Key := EraInfo (MkEraId 7).
Definition v1 : U512 := MkU512 10.
Definition v2 : U512 := MkU512 20.
Definition writes : list (Key * U512) := [(k1, v1); (k2, v2)].
Definition writes' : list (Key * U512) := [(k2, v2); (k1, v1)].

Definition empty_bytes : bytes :=
  match to_bytes (Node PointerBlock_new : Trie Key U512) with Ok b => b | _ => [] end.
Definition empty_root : Digest := hash empty_bytes.
Definition empty_store : store := {[empty_root := empty_bytes]}.

Definition final : store * Digest :=
  ok_value (empty_store, empty_root) (write_list empty_store empty_root writes).
Definition final_map : gmap Key U512 := insert_list ∅ writes.

Lemma nodes_fit : nodes_fit_chunk.
Proof. unfold nodes_fit_chunk. vm_compute. lia. Qed.

Lemma empty_root_eq : create_hashed_empty_trie (K:=Key) (V:=U512) = Ok (empty_root, Node PointerBlock_new).
Proof. vm_compute. reflexivity. Qed.

Lemma empty_bytes_eq : to_bytes (Node PointerBlock_new : Trie Key U512) = Ok empty_bytes.
Proof. vm_compute. reflexivity. Qed.

Lemma empty_rooted : rooted empty_store empty_root (∅ : gmap Key U512).
Proof.
  destruct (empty_trie_rooted (K:=Key) (V:=U512) nodes_fit) as (h & bs & Hh & Hb & R).
  rewrite empty_root_eq in Hh. injection Hh as <-. rewrite empty_bytes_eq in Hb. by injection Hb as <-.
Qed.

Lemma writes_ok : Forall entry_ok writes.
Proof. repeat constructor; vm_compute; (reflexivity || (intros; discriminate)). Qed.

Lemma writes'_ok : Forall entry_ok writes'.
Proof. repeat constructor; vm_compute; (reflexivity || (intros; discriminate)). Qed.

Lemma writes_are_apart : writes_apart empty_store empty_root writes.
Proof. apply writes_apartb_spec. vm_compute. reflexivity. Qed.

Lemma writes'_are_apart : writes_apart empty_store empty_root writes'.
Proof. apply writes_apartb_spec. vm_compute. reflexivity. Qed.

Lemma final_eq : write_list empty_store empty_root writes = Ok final.
Proof. apply ok_value_eq. vm_compute. reflexivity. Qed.

Lemma writes_rooted (f : store * Digest) : write_list empty_store empty_root writes = Ok f -> rooted f.1 f.2 final_map.
Proof.
  destruct (write_list_rooted writes _ _ ∅ empty_rooted writes_ok writes_are_apart) as (s & r & E & _ & R).
  rewrite E. intros Ef. apply Ok_inj in Ef. by subst f.
Qed.

Lemma final_rooted : rooted final.1 final.2 final_map.
Proof. apply writes_rooted, final_eq. Qed.

Lemma same_content : insert_list (∅ : gmap Key U512) writes = insert_list ∅ writes'.
Proof. apply (bool_decide_eq_true_1 _). vm_compute. reflexivity. Qed.

(** The proof [read_with_proof] finds for the second key. *)
Definition a_proof : TrieMerkleProof Key U512 :=
  match read_with_proof (V:=U512) final.1 final.2 k2 with
  | Ok (Found p) => p
  | _ => {| proof_key := k2; proof_value := v2; proof_steps := [] |}
  end.

(** What parses back from its own bytes is valid. *)
Lemma parsed_valid (p : TrieMerkleProof Key U512) :
  (bs ← to_bytes p; from_bytes bs) = Ok (p, []) -> valid p.
Proof.
  intros E. apply bind_Ok in E as (bs & _ & E). apply (bytesrepr_sound bs p [] E).
Qed.

Lemma k2_valid : valid k2.
Proof. vm_compute. reflexivity. Qed.

Lemma read_refines_lookup_witness :
  read (V:=U512) final.1 final.2 k2 = Ok (Found v2).
Proof.
  etrans; [apply (read_refines_lookup final.1 final.2 final_map k2 final_rooted k2_valid)|].
  vm_compute. reflexivity.
Defined.

Lemma write_refines_insert_witness :
  exists s' root', write empty_store empty_root k1 v1 = Ok (s', Written root') /\
    rooted s' root' (<[k1 := v1]> (∅ : gmap Key U512)) /\ rooted s' empty_root (∅ : gmap Key U512).
Proof.
  assert (entry_ok (k1, v1)) as Ho by exact (Forall_inv writes_ok).
  assert (digests_apart empty_store (write_strings empty_store empty_root k1 v1)) as Ha
    by exact (writes_apart_head empty_store empty_root k1 v1 _ writes_are_apart).
  pose proof (write_refines_insert empty_store empty_root ∅ k1 v1 empty_rooted Ho Ha) as W.
  rewrite decide_False in W by (rewrite lookup_empty; discriminate).
  destruct W as (s' & root' & Hw & R & Hold). exists s', root'.
  split; [exact Hw|]. split; [exact R|]. apply Hold, empty_rooted.
Defined.


Lemma write_order_irrelevant_witness :
  exists s1 s2 root, write_list empty_store empty_root writes = Ok (s1, root) /\
    write_list empty_store empty_root writes' = Ok (s2, root) /\
    forall k, valid k -> read (V:=U512) s1 root k = Ok (lookup_result (insert_list ∅ writes !! k)).
Proof.
  exact (write_order_irrelevant empty_root empty_bytes writes writes' nodes_fit empty_root_eq
    empty_bytes_eq writes_ok writes'_ok writes_are_apart writes'_are_apart same_content).
Defined.

Lemma read_with_proof_complete_witness :
  exists proof, read_with_proof (V:=U512) final.1 final.2 k2 = Ok (Found proof) /\
    proof_key proof = k2 /\ proof_value proof = v2 /\ compute_state_hash proof = Ok final.2.
Proof.
  pose proof (read_with_proof_complete final.1 final.2 final_map k2 nodes_fit final_rooted k2_valid) as W.
  assert (final_map !! k2 = Some v2) as E by (vm_compute; reflexivity).
  rewrite E in W. exact W.
Defined.

Lemma trie_proof_sound_witness :
  final_map !! k2 = Some v2.
Proof.
  assert (valid a_proof) as Hv by (apply (parsed_valid a_proof); vm_compute; reflexivity).
  assert (compute_state_hash a_proof = Ok final.2) as Hh by (vm_compute; reflexivity).
  assert (no_collision_with final.1 (proof_strings a_proof)) as Hc
    by (apply no_collision_withb_spec; vm_compute; reflexivity).
  pose proof (trie_proof_sound final.1 final.2 final_map a_proof final_rooted Hv Hh Hc) as W.
  assert (proof_key a_proof = k2) as Ek by (vm_compute; reflexivity).
  assert (proof_value a_proof = v2) as Ev by (vm_compute; reflexivity).
  rewrite Ek, Ev in W. exact W.
Defined.

End Sample.
