(* ===== verification/TrieKeys.v ===== *)
(** * Enumerating keys and finding missing nodes: [KeysIterator],
    [keys_with_prefix] and [missing_trie_keys] of
    [execution_engine/src/storage/trie_store/operations/mod.rs].

    The iterator walks the trie depth first with an explicit stack, after a
    descent along the prefix.  Its loops carry fuel; the theorems give an amount
    that is enough for every trie. *)

From S2P Require Import Prelude Bytesrepr Hashing Trie TrieStore TrieInv TrieRead.
Local Open Scope nat_scope.

Section Keys.
Context {K V : Type} `{Countable K} `{EqDecision V} `{Bytesrepr K} `{Bytesrepr V}.
Context `{!TrieKey K} `{Blake2b} `{TreeFold1}.

Abbreviation trie := (Trie K V).

(** ** The iterator *)

Inductive KeysIteratorState :=
| IterOk
| IterReturnError (e : Error)
| IterFailed.

Record VisitedTrieNode := MkVisited {
  visited_trie : trie;
  maybe_index : option nat;
  visited_path : bytes;
}.

(** [visited] has the top of the stack first. *)
Record KeysIterator := MkKeysIterator {
  initial_descend : bytes;
  visited : list VisitedTrieNode;
  iter_state : KeysIteratorState;
}.

(** The first child at or after [index]; while descending only [index] counts.
    [n] is the number of indices left. *)
Fixpoint next_pointer (n : nat) (pb : PointerBlock) (descending : bool) (index : nat) : option (nat * Pointer) :=
  match n with
  | O => None
  | S n =>
      match mjoin (pointers pb !! index) with
      | Some pointer => Some (index, pointer)
      | None => if descending then None else next_pointer n pb descending (index + 1)
      end
  end.

(** What one iteration of the loop of [next] does: return an item or go on. *)
Inductive Iteration :=
| Return (item : K + Error) (it : KeysIterator)
| Continue (it : KeysIterator).

Definition starts_with (bs prefix : bytes) : bool := bool_decide (prefix `prefix_of` bs).

(** The iteration for the popped node [t], the stack being [rest]. *)
Definition next_iteration (s : store) (descend : bytes) (t : VisitedTrieNode) (rest : list VisitedTrieNode)
    : bres Iteration :=
  let path := visited_path t in
  match visited_trie t with
  | Leaf key _ =>
      match to_bytes key with
      | Ok key_bytes =>
          _ ← rassert (starts_with key_bytes path);
          let it := MkKeysIterator descend rest IterOk in
          Ok (if starts_with key_bytes (path ++ descend) then Return (inl key) it else Continue it)
      | Err e => Ok (Return (inr e) (MkKeysIterator descend rest IterFailed))
      | Panic => Panic
      | OutOfFuel => OutOfFuel
      end
  | Node pointer_block =>
      let index := match descend with b :: _ => b2n b | [] => default 0 (maybe_index t) end in
      match next_pointer (RADIX - index) pointer_block (negb (bool_decide (descend = []))) index with
      | Some (index, pointer) =>
          match get (K:=K) (V:=V) s (pointer_hash pointer) with
          | Ok maybe_next_trie =>
              next_trie ← expect maybe_next_trie;
              let '(descend, rest) :=
                match descend with
                | [] => ([], MkVisited (Node pointer_block) (Some (index + 1)) path :: rest)
                | _ :: descend => (descend, rest)
                end in
              Ok (Continue (MkKeysIterator descend
                (MkVisited next_trie None (path ++ [n2b index]) :: rest) IterOk))
          | Err e => Ok (Return (inr e) (MkKeysIterator descend rest IterFailed))
          | Panic => Panic
          | OutOfFuel => OutOfFuel
          end
      | None => Ok (Continue (MkKeysIterator descend rest IterOk))
      end
  | Extension affix pointer =>
      let descend_len := length descend `min` length (inner_bytes affix) in
      let check_prefix := take descend_len descend in
      let descend := drop descend_len descend in
      if starts_with (inner_bytes affix) check_prefix then
        match get (K:=K) (V:=V) s (pointer_hash pointer) with
        | Ok maybe_next_trie =>
            next_trie ← match maybe_next_trie with Some (Node pb) => Ok (Node pb) | _ => Panic end;
            Ok (Continue (MkKeysIterator descend
              (MkVisited next_trie None (path ++ inner_bytes affix) :: rest) IterOk))
        | Err e => Ok (Return (inr e) (MkKeysIterator descend rest IterFailed))
        | Panic => Panic
        | OutOfFuel => OutOfFuel
        end
      else Ok (Continue (MkKeysIterator descend rest IterOk))
  end.

Fixpoint next_loop (fuel : nat) (s : store) (descend : bytes) (stack : list VisitedTrieNode)
    : bres (option (K + Error) * KeysIterator) :=
  match fuel with
  | O => OutOfFuel
  | S fuel =>
      match stack with
      | [] => Ok (None, MkKeysIterator descend [] IterOk)
      | t :: rest =>
          i ← next_iteration s descend t rest;
          match i with
          | Return item it => Ok (Some item, it)
          | Continue it => next_loop fuel s (initial_descend it) (visited it)
          end
      end
  end.

(** [Iterator::next]. *)
Definition next (fuel : nat) (s : store) (it : KeysIterator) : bres (option (K + Error) * KeysIterator) :=
  match iter_state it with
  | IterOk => next_loop fuel s (initial_descend it) (visited it)
  | IterReturnError e => Ok (Some (inr e), MkKeysIterator (initial_descend it) (visited it) IterFailed)
  | IterFailed => Ok (None, MkKeysIterator (initial_descend it) (visited it) IterOk)
  end.

(** [operations::keys_with_prefix]. *)
Definition keys_iterator (s : store) (root : Digest) (prefix : bytes) : bres KeysIterator :=
  match get (K:=K) (V:=V) s root with
  | Ok None => Ok (MkKeysIterator prefix [] IterOk)
  | Err e => Ok (MkKeysIterator prefix [] (IterReturnError e))
  | Ok (Some current_root) => Ok (MkKeysIterator prefix [MkVisited current_root None []] IterOk)
  | Panic => Panic
  | OutOfFuel => OutOfFuel
  end.

(** The loop of [StateReader::keys_with_prefix] over the iterator. *)
Fixpoint collect_keys (fuel : nat) (s : store) (it : KeysIterator) (ret : list K) : bres (list K) :=
  match fuel with
  | O => OutOfFuel
  | S fuel' =>
      '(item, it) ← next fuel s it;
      match item with
      | Some (inl key) => collect_keys fuel' s it (ret ++ [key])
      | Some (inr e) => Err e
      | None => Ok ret
      end
  end.

Definition keys_with_prefix (fuel : nat) (s : store) (root : Digest) (prefix : bytes) : bres (list K) :=
  it ← keys_iterator s root prefix;
  collect_keys fuel s it [].

(** ** What the iterator yields *)

(** From the first stack the iterator yields the keys [l] and gets to the second. *)
Inductive yields (s : store) : bytes -> list VisitedTrieNode -> list K -> bytes -> list VisitedTrieNode -> Prop :=
| yields_nil d st : yields s d st [] d st
| yields_continue d t rest d1 st1 l d2 st2 :
    next_iteration s d t rest = Ok (Continue (MkKeysIterator d1 st1 IterOk)) ->
    yields s d1 st1 l d2 st2 -> yields s d (t :: rest) l d2 st2
| yields_return d t rest k d1 st1 l d2 st2 :
    next_iteration s d t rest = Ok (Return (inl k) (MkKeysIterator d1 st1 IterOk)) ->
    yields s d1 st1 l d2 st2 -> yields s d (t :: rest) (k :: l) d2 st2.

Lemma yields_app s d st l1 d1 st1 l2 d2 st2 :
  yields s d st l1 d1 st1 -> yields s d1 st1 l2 d2 st2 -> yields s d st (l1 ++ l2) d2 st2.
Proof.
  induction 1; intros Hy; cbn; [done|..]; [eapply yields_continue|eapply yields_return]; eauto.
Qed.

(** The first item of a run, found by [next] with enough fuel. *)
Lemma next_yields s d st l d' : yields s d st l d' [] ->
  match l with
  | [] => exists n, forall fuel, n <= fuel -> exists it, next_loop fuel s d st = Ok (None, it)
  | k :: l => exists n d1 st1, yields s d1 st1 l d' [] /\
      forall fuel, n <= fuel -> next_loop fuel s d st = Ok (Some (inl k), MkKeysIterator d1 st1 IterOk)
  end.
Proof.
  intros Hy. remember [] as last eqn:El.
  induction Hy as [d st|d t rest d1 st1 l d2 st2 E Hy IH|d t rest k d1 st1 l d2 st2 E Hy IH]; subst.
  - exists 1. intros [|fuel] Hf; [lia|]. by eexists.
  - specialize (IH eq_refl). destruct l as [|k l].
    + destruct IH as [n Hn]. exists (S n). intros [|fuel] Hf; [lia|]. cbn. rewrite E. apply Hn. lia.
    + destruct IH as (n & d3 & st3 & Hy' & Hn). exists (S n), d3, st3. split; [done|].
      intros [|fuel] Hf; [lia|]. cbn. rewrite E. apply Hn. lia.
  - exists 1, d1, st1. split; [done|]. intros [|fuel] Hf; [lia|]. cbn. by rewrite E.
Qed.

Lemma collect_yields s l : forall d st d', yields s d st l d' [] ->
  exists n, forall fuel ret, n <= fuel -> collect_keys fuel s (MkKeysIterator d st IterOk) ret = Ok (ret ++ l).
Proof.
  induction l as [|k l IH]; intros d st d' Hy; pose proof (next_yields _ _ _ _ _ Hy) as Hn.
  - destruct Hn as [n Hn]. exists (S n). intros [|fuel] ret Hf; [lia|]. cbn [collect_keys next iter_state].
    cbn [initial_descend visited]. destruct (Hn (S fuel)) as [it ->]; [lia|]. cbn. by rewrite app_nil_r.
  - destruct Hn as (n & d1 & st1 & Hy1 & Hn). destruct (IH _ _ _ Hy1) as [n1 Hn1]. exists (S (n + n1)).
    intros [|fuel] ret Hf; [lia|]. cbn [collect_keys next iter_state initial_descend visited].
    rewrite (Hn (S fuel)) by lia. cbn [mbind res_bind]. rewrite Hn1 by lia. by rewrite <- app_assoc.
Qed.

(** *** The keys below a node *)

(** [l] lists the keys of [m], each once. *)
Definition lists_keys (l : list K) (m : gmap K V) : Prop := NoDup l /\ forall k, k ∈ l <-> is_Some (m !! k).

Lemma next_pointer_None n pb i : next_pointer n pb false i = None ->
  forall j, i <= j -> j < i + n -> mjoin (pointers pb !! j) = None.
Proof.
  revert i. induction n as [|n IH]; intros i; cbn; [lia|].
  destruct (mjoin (pointers pb !! i)) as [q|] eqn:Eq; [done|]. intros E j L1 L2.
  destruct (decide (i = j)) as [<-|Hn]; [done|]. apply (IH (i + 1)); [done|lia|lia].
Qed.

Lemma next_pointer_Some n pb i j ptr : next_pointer n pb false i = Some (j, ptr) ->
  i <= j /\ j < i + n /\ mjoin (pointers pb !! j) = Some ptr /\
  forall j', i <= j' -> j' < j -> mjoin (pointers pb !! j') = None.
Proof.
  revert i. induction n as [|n IH]; intros i; cbn; [done|].
  destruct (mjoin (pointers pb !! i)) as [q|] eqn:Eq.
  - intros [= <- <-]. split_and!; [lia|lia|done|]. intros; lia.
  - intros E. destruct (IH _ E) as (L1 & L2 & L3 & L4). split_and!; [lia|lia|done|].
    intros j' L5 L6. destruct (decide (i = j')) as [<-|Hn]; [done|]. apply L4; lia.
Qed.

Lemma pb_get_n2b pb j : j < RADIX -> pb_get pb (n2b j) = mjoin (pointers pb !! j).
Proof. intros Hj. unfold pb_get. by rewrite b2n_n2b. Qed.

Section NodeWalk.
Context (s : store) (p : bytes) (pb : PointerBlock) (c : Byte.byte -> trie) (f : Byte.byte -> gmap K V).
Hypothesis Hp : forall i ptr, pb_get pb i = Some ptr -> points_to s ptr (c i).
Hypothesis Hr : forall i ptr, pb_get pb i = Some ptr -> reps s (p ++ [i]) (c i) (f i).
Hypothesis He : forall i, pb_get pb i = None -> f i = ∅.
Hypothesis IH : forall i ptr, pb_get pb i = Some ptr -> forall rest, exists l,
  lists_keys l (f i) /\ yields s [] (MkVisited (c i) None (p ++ [i]) :: rest) l [] rest.

(** From index [i] on, the walk yields the keys of the children from [i] on. *)
Lemma node_walk rest n : forall i o, i = default 0 o -> RADIX - i <= n -> exists l, NoDup l /\
  (forall k, k ∈ l <-> exists j, i <= j /\ j < RADIX /\ is_Some (f (n2b j) !! k)) /\
  yields s [] (MkVisited (Node pb) o p :: rest) l [] rest.
Proof.
  induction n as [n IHn] using lt_wf_ind. intros i o Hi Hn.
  destruct (next_pointer (RADIX - i) pb false i) as [[j ptr]|] eqn:En.
  - destruct (next_pointer_Some _ _ _ _ _ En) as (L1 & L2 & L3 & L4).
    assert (j < RADIX) as Hj by lia. rewrite <- pb_get_n2b in L3 by done.
    destruct (IHn (RADIX - (j + 1)) ltac:(lia) (j + 1) (Some (j + 1)) eq_refl ltac:(lia)) as (l2 & N2 & M2 & Y2).
    destruct (IH _ _ L3 (MkVisited (Node pb) (Some (j + 1)) p :: rest)) as (l1 & (N1 & M1) & Y1).
    exists (l1 ++ l2). split_and!.
    + apply NoDup_app. split_and!; [done| |done]. intros k (v1 & E1)%M1 (j' & G1 & G2 & v2 & E2)%M2.
      destruct (pb_get pb (n2b j')) as [ptr'|] eqn:E'; [|by rewrite He in E2].
      destruct (reps_keys _ _ _ _ _ _ (Hr _ _ L3) E1) as (_ & _ & P1).
      destruct (reps_keys _ _ _ _ _ _ (Hr _ _ E') E2) as (_ & _ & P2).
      pose proof (f_equal b2n (prefix_snoc_inv _ _ _ _ P1 P2)) as X. rewrite !b2n_n2b in X by done. lia.
    + intros k. rewrite elem_of_app, M1, M2. split.
      * intros [G|(j' & G1 & G2 & G)]; [exists j|exists j']; (split_and!; [lia|done|done]).
      * intros (j' & G1 & G2 & G). destruct (decide (j' = j)) as [->|Hne]; [by left|].
        destruct (decide (j' < j)) as [Hlt|]; [|right; exists j'; split_and!; [lia|done|done]].
        exfalso. destruct G as [v G]. rewrite He in G; [done|]. rewrite pb_get_n2b by done. by apply L4.
    + eapply yields_app; [|exact Y2]. eapply yields_continue; [|exact Y1].
      cbn -[RADIX]. rewrite <- Hi, En, (stored_get _ _ _ (proj1 (Hp _ _ L3))). done.
  - exists []. split_and!; [constructor| |].
    + intros k. split; [by intros ?%elem_of_nil|]. intros (j & L1 & L2 & v & E).
      rewrite He in E; [done|]. rewrite pb_get_n2b by done. eapply next_pointer_None; [done|lia|lia].
    + eapply yields_continue; [|apply yields_nil]. cbn -[RADIX]. by rewrite <- Hi, En.
Qed.
End NodeWalk.

Lemma starts_with_true bs q : q `prefix_of` bs -> starts_with bs q = true.
Proof. intros Hq. by apply bool_decide_eq_true_2. Qed.

(** Outside the descent, the subtree of a node is enumerated whole. *)
Lemma subtree_yields s p t m : reps s p t m -> forall rest, exists l,
  lists_keys l m /\ yields s [] (MkVisited t None p :: rest) l [] rest.
Proof.
  induction 1 as [p k v Hk Hv Hp|p pb c f m Hv Hc Hp Hr IH He Hm|p a h pb m Hp Ha Hst Rn IH]; intros rest.
  - exists [k]. split.
    + split; [apply NoDup_singleton|]. intros k'. rewrite list_elem_of_singleton, lookup_singleton_is_Some.
      done.
    + eapply yields_return; [|apply yields_nil]. cbn. rewrite key_path_to_bytes by done.
      unfold starts_with. rewrite app_nil_r, bool_decide_eq_true_2 by done. done.
  - destruct (node_walk s p pb c f Hp Hr He IH rest RADIX 0 None) as (l & N & M & Y); [done|lia|].
    exists l. split; [|done]. split; [done|]. intros k. rewrite M. split.
    + intros (j & _ & _ & v & E). exists v. apply Hm. eauto.
    + intros (v & (i & E)%Hm). exists (b2n i). rewrite n2b_b2n. split_and!; [lia|apply b2n_lt|eauto].
  - destruct (IH rest) as (l & M & Y). exists l. split; [done|]. eapply yields_continue; [|exact Y].
    unfold next_iteration. cbn [visited_trie visited_path length Nat.min take drop].
    rewrite starts_with_true by apply prefix_nil. cbn [pointer_hash]. by rewrite (stored_get _ _ _ Hst).
Qed.

(** *** The descent *)

(** After the descent along [d] from [t] at the path [p]. *)
Definition descends (s : store) (p : bytes) (t : trie) (m : gmap K V) (d : bytes) : Prop :=
  exists l d', NoDup l /\ (forall k, k ∈ l <-> is_Some (m !! k) /\ p ++ d `prefix_of` key_path k) /\
    yields s d [MkVisited t None p] l d' [].

Lemma descends_nil s p t m : reps s p t m -> descends s p t m [].
Proof.
  intros R. destruct (subtree_yields s p t m R []) as (l & (N & M) & Y). exists l, [].
  split_and!; [done| |done]. intros k. rewrite M, app_nil_r. split; [|tauto]. intros [v E].
  split; [eauto|]. by destruct (reps_keys _ _ _ _ _ _ R E) as (_ & _ & ?).
Qed.

(** The iteration drops the node: no key below it has the prefix. *)
Lemma descends_empty s p t m d d' :
  next_iteration s d (MkVisited t None p) [] = Ok (Continue (MkKeysIterator d' [] IterOk)) ->
  (forall k v, m !! k = Some v -> ~ p ++ d `prefix_of` key_path k) -> descends s p t m d.
Proof.
  intros E Hno. exists [], d'. split_and!; [constructor| |by eapply yields_continue; [|constructor]].
  intros k. split; [by intros ?%elem_of_nil|]. by intros [[v Hv] ?%(Hno k v)].
Qed.

Lemma descends_continue s p t m d p1 t1 m1 d1 :
  next_iteration s d (MkVisited t None p) [] = Ok (Continue (MkKeysIterator d1 [MkVisited t1 None p1] IterOk)) ->
  descends s p1 t1 m1 d1 ->
  (forall k, is_Some (m !! k) /\ p ++ d `prefix_of` key_path k <-> is_Some (m1 !! k) /\ p1 ++ d1 `prefix_of` key_path k) ->
  descends s p t m d.
Proof.
  intros E (l & d' & N & M & Y) Hk. exists l, d'. split_and!; [done| |by eapply yields_continue].
  intros k. by rewrite M, Hk.
Qed.

Lemma descends_leaf s p k v d : reps s p (Leaf k v) {[k := v]} -> descends s p (Leaf k v) {[k := v]} d.
Proof.
  intros (_ & Hk & _ & Hp)%reps_leaf_inv.
  assert (next_iteration s d (MkVisited (Leaf k v) None p) [] =
    let it := MkKeysIterator d [] IterOk in
    Ok (if starts_with (key_path k) (p ++ d) then Return (inl k) it else Continue it)) as E.
  { unfold next_iteration. cbn [visited_trie visited_path]. rewrite key_path_to_bytes by done.
    by rewrite (starts_with_true (key_path k) p Hp). }
  unfold starts_with in E. case_bool_decide as Hpre.
  - exists [k], d. split_and!; [apply NoDup_singleton| |by eapply yields_return; [|constructor]].
    intros k'. rewrite list_elem_of_singleton, lookup_singleton_is_Some. split; [by intros ->|by intros [-> _]].
  - eapply descends_empty; [exact E|]. by intros k' v' [<- _]%lookup_singleton_Some.
Qed.

Lemma next_pointer_descend pb b : next_pointer (RADIX - b2n b) pb true (b2n b) =
  match pb_get pb b with Some ptr => Some (b2n b, ptr) | None => None end.
Proof.
  pose proof (b2n_lt b) as Hb. unfold RADIX. destruct (256 - b2n b) as [|n] eqn:E; [lia|]. cbn [next_pointer].
  unfold pb_get. by destruct (mjoin _).
Qed.

Lemma descends_node s p pb (c : Byte.byte -> trie) f (m : gmap K V) b d :
  (forall i ptr, pb_get pb i = Some ptr -> points_to s ptr (c i)) ->
  (forall i ptr, pb_get pb i = Some ptr -> reps s (p ++ [i]) (c i) (f i)) ->
  (forall i, pb_get pb i = None -> f i = ∅) ->
  (forall k v, m !! k = Some v <-> exists i, f i !! k = Some v) ->
  (forall ptr, pb_get pb b = Some ptr -> descends s (p ++ [b]) (c b) (f b) d) ->
  descends s p (Node pb) m (b :: d).
Proof.
  intros Hp Hr He Hm IH.
  assert (forall k, p ++ b :: d `prefix_of` key_path k -> m !! k = f b !! k) as Hc.
  { intros k Hk. apply (node_child s p pb c f m b k); try done. etrans; [|exact Hk]. exists d. by rewrite <- app_assoc. }
  destruct (pb_get pb b) as [ptr|] eqn:Eb.
  - apply (descends_continue s p (Node pb) m (b :: d) (p ++ [b]) (c b) (f b) d); [|by eapply IH|].
    + unfold next_iteration. cbn [visited_trie visited_path]. rewrite next_pointer_descend, Eb.
      rewrite (stored_get _ _ _ (proj1 (Hp _ _ Eb))). cbn. by rewrite n2b_b2n.
    + intros k. rewrite <- app_assoc. cbn. split; intros [Hs Hk]; [rewrite <- (Hc k Hk)|rewrite (Hc k Hk)]; done.
  - eapply (descends_empty s p (Node pb) m (b :: d) (b :: d)).
    + unfold next_iteration. cbn [visited_trie visited_path]. by rewrite next_pointer_descend, Eb.
    + intros k v E Hk. rewrite (Hc k Hk), He in E; done.
Qed.

Lemma descends_ext s p a h pb (m : gmap K V) d : stored s h (Node pb : trie) ->
  reps s (p ++ inner_bytes a) (Node pb) m ->
  (forall d, descends s (p ++ inner_bytes a) (Node pb) m d) ->
  descends s p (Extension a (NodePointer h)) m d.
Proof.
  intros Hst Rn IH. set (n := length d `min` length (inner_bytes a)).
  assert (forall k v, m !! k = Some v -> p ++ inner_bytes a `prefix_of` key_path k) as Hall.
  { intros k v E. by destruct (reps_keys _ _ _ _ _ _ Rn E) as (_ & _ & ?). }
  destruct (decide (take n d `prefix_of` inner_bytes a)) as [Hd|Hd].
  - apply (descends_continue s p _ m d (p ++ inner_bytes a) (Node pb) m (drop n d)); [|apply IH|].
    + unfold next_iteration. cbn [visited_trie visited_path]. fold n. rewrite starts_with_true by done.
      cbn [pointer_hash]. by rewrite (stored_get _ _ _ Hst).
    + intros k. destruct (decide (length d <= length (inner_bytes a))) as [Hl|Hl].
      * assert (n = length d) as En by lia. rewrite En, take_ge in Hd by lia.
        rewrite En, drop_ge, app_nil_r by lia. split; intros [[v E] Hk]; (split; [eauto|]).
        -- by eapply Hall.
        -- etrans; [|by eapply Hall]. by apply prefix_app.
      * assert (n = length (inner_bytes a)) as En by lia. rewrite En in Hd |- *.
        assert (take (length (inner_bytes a)) d = inner_bytes a) as Et.
        { apply prefix_length_eq; [done|]. rewrite length_take. lia. }
        rewrite <- app_assoc. rewrite <- Et at 1. by rewrite take_drop.
  - eapply (descends_empty s p _ m d (drop n d)).
    + unfold next_iteration. cbn [visited_trie visited_path]. fold n. unfold starts_with.
      by rewrite bool_decide_eq_false_2 by done.
    + intros k v E Hk. apply Hd. pose proof (Hall k v E) as Ha.
      assert (take n d `prefix_of` d) as Ht by (eexists; by rewrite take_drop).
      destruct (prefix_weak_total (p ++ take n d) (p ++ inner_bytes a) (key_path k)) as [C|C];
        [etrans; [by apply prefix_app|done]|done|by eapply prefix_app_inv|].
      apply prefix_app_inv in C. apply prefix_length_eq in C; [by rewrite C|].
      rewrite length_take. lia.
Qed.

Lemma descent_yields s p t m : reps s p t m -> forall d, descends s p t m d.
Proof.
  induction 1 as [p k v Hk Hv Hp|p pb c f m Hv Hc Hp Hr IH He Hm|p a h pb m Hp Ha Hst Rn IH]; intros d.
  - by apply descends_leaf, reps_leaf.
  - destruct d as [|b d]; [by eapply descends_nil, reps_node|].
    apply (descends_node s p pb c f m b d); try done. intros ptr Hb. by eapply IH.
  - by eapply descends_ext.
Qed.

Lemma keys_enumerated s root (m : gmap K V) (prefix : bytes) : rooted s root m ->
  exists n l, (forall fuel, n <= fuel -> keys_with_prefix fuel s root prefix = Ok l) /\
    NoDup l /\ forall k, k ∈ l <-> is_Some (m !! k) /\ prefix `prefix_of` key_path k.
Proof.
  intros (pb & Hst & R). destruct (descent_yields s [] (Node pb) m R prefix) as (l & d' & N & M & Y).
  destruct (collect_yields _ _ _ _ _ Y) as [n Hn]. exists n, l. split_and!; [|done|done].
  intros fuel Hf. unfold keys_with_prefix, keys_iterator. rewrite (stored_get _ _ _ Hst).
  cbn [mbind res_bind]. by rewrite Hn.
Qed.

(** C19 Enumerating keys is exact: under a root whose trie holds the map [m],
    [keys_with_prefix] returns, for any prefix and any sufficient fuel, a list of
    the keys of [m] whose serialisation starts with the prefix, all of them and
    each once.  No error and no assertion of the iterator is reached. *)
Theorem keys_with_prefix_exact s root (m : gmap K V) (prefix : bytes) :
  rooted s root m ->
  exists n l, (forall fuel, n <= fuel -> keys_with_prefix fuel s root prefix = Ok l) /\
    NoDup l /\ forall k, k ∈ l <-> is_Some (m !! k) /\ prefix `prefix_of` key_path k.
Proof. apply keys_enumerated. Qed.

End Keys.
