(* ===== verification/TrieSync.v ===== *)
(** * Finding what a trie store lacks: [missing_trie_keys] of
    [execution_engine/src/storage/trie_store/operations/mod.rs], by which a node
    that downloads a state knows which nodes to fetch next. *)

From S2P Require Import Prelude Bytesrepr Hashing Trie TrieStore TrieInv TrieProof.
Local Open Scope nat_scope.

Section Sync.
Context {K V : Type} `{Countable K} `{EqDecision V} `{Bytesrepr K} `{Bytesrepr V}.
Context `{!TrieKey K} `{Blake2b} `{TreeFold1}.

Abbreviation trie := (Trie K V).

(** The digests a retrieved node queues, in the order they are pushed. *)
Definition queued (t : trie) : list Digest :=
  match t with
  | Leaf _ _ => []
  | Node pointer_block => (fun '(_, pointer) => pointer_hash pointer) <$> as_indexed_pointers pointer_block
  | Extension _ pointer => [pointer_hash pointer]
  end.

(** [to_visit] has the top of the stack first. *)
Fixpoint missing_loop (fuel : nat) (s : store) (known_complete : gset Digest)
    (to_visit : list Digest) (visited : gset Digest) (missing_descendants : list Digest) : bres (list Digest) :=
  match fuel with
  | O => OutOfFuel
  | S fuel =>
      match to_visit with
      | [] => Ok missing_descendants
      | trie_key :: to_visit =>
          if decide (trie_key ∈ visited) then missing_loop fuel s known_complete to_visit visited missing_descendants
          else
            let visited := {[trie_key]} ∪ visited in
            if decide (trie_key ∈ known_complete) then
              missing_loop fuel s known_complete to_visit visited missing_descendants
            else
              match get_raw s trie_key with
              | None => missing_loop fuel s known_complete to_visit visited (missing_descendants ++ [trie_key])
              | Some retrieved_trie_bytes =>
                  if decide (head retrieved_trie_bytes = Some LEAF_TAG) then
                    missing_loop fuel s known_complete to_visit visited missing_descendants
                  else
                    match deserialize_from_slice (A:=trie) retrieved_trie_bytes with
                    | Ok retrieved_trie =>
                        missing_loop fuel s known_complete (rev (queued retrieved_trie) ++ to_visit) visited
                          missing_descendants
                    | Err _ => missing_loop fuel s known_complete to_visit visited (missing_descendants ++ [trie_key])
                    | Panic => Panic
                    | OutOfFuel => OutOfFuel
                    end
              end
      end
  end.

(** The start keys and the pointers of the store's nodes bound the iterations. *)
Definition missing_trie_keys (s : store) (trie_keys_to_visit : list Digest) (known_complete : gset Digest)
    : bres (list Digest) :=
  missing_loop (S (length trie_keys_to_visit + S RADIX * size s)) s known_complete (rev trie_keys_to_visit) ∅ [].

(** ** What is reachable *)

(** The children of the node stored under a digest, none where it cannot be parsed. *)
Definition children (s : store) (h : Digest) : list Digest :=
  match s !! h with
  | Some bs =>
      if decide (head bs = Some LEAF_TAG) then []
      else match deserialize_from_slice (A:=trie) bs with Ok t => queued t | _ => [] end
  | None => []
  end.

(** Nothing usable is stored under the digest. *)
Definition lacks (s : store) (h : Digest) : Prop :=
  match s !! h with
  | Some bs => head bs <> Some LEAF_TAG /\ is_ok (deserialize_from_slice (A:=trie) bs) = false
  | None => True
  end.

Inductive reachable (s : store) (known_complete : gset Digest) (start : list Digest) : Digest -> Prop :=
| reachable_start h : h ∈ start -> reachable s known_complete start h
| reachable_child h h' : reachable s known_complete start h -> h ∉ known_complete -> h' ∈ children s h ->
    reachable s known_complete start h'.

(** *** Parsing a node does not panic *)

Lemma read_n_safe {A} `{FromBytes A} n : (forall bs, safe (from_bytes (A:=A) bs)) -> forall bs, safe (read_n (A:=A) n bs).
Proof. intros Ha. induction n as [|n IH]; intros bs; cbn [read_n]; solve_safe; auto. Qed.

Lemma Digest_from_bytes_safe bs : safe (from_bytes (A:=Digest) bs).
Proof. apply safe_bind; [apply safe_split_at_safe|by intros [? ?]]. Qed.

Lemma Pointer_from_bytes_safe bs : safe (Pointer_from_bytes bs).
Proof. pose proof Digest_from_bytes_safe. unfold Pointer_from_bytes. solve_safe; auto. Qed.

Lemma Trie_from_bytes_safe bs : head bs <> Some LEAF_TAG -> safe (Trie_from_bytes (K:=K) (V:=V) bs).
Proof.
  intros Hl. destruct bs as [|tag bs]; [done|]. unfold Trie_from_bytes. cbn [u8_from_bytes mbind res_bind].
  destruct (Byte.eqb tag LEAF_TAG) eqn:E.
  { apply Byte.byte_dec_bl in E. by subst. }
  pose proof Pointer_from_bytes_safe as P.
  assert (forall b, safe (Bytes_from_bytes b)) as B.
  { intros b. unfold Bytes_from_bytes, u32_from_bytes. solve_safe; auto. }
  destruct (Byte.eqb tag NODE_TAG); [|destruct (Byte.eqb tag EXTENSION_TAG); [|done]].
  - apply safe_bind; [|by intros [? ?]]. change (safe (PointerBlock_from_bytes bs)).
    apply safe_bind; [|by intros [? ?]]. apply read_n_safe. intros b.
    change (safe (Option_from_bytes (A:=Pointer) b)). unfold Option_from_bytes. solve_safe; auto.
  - apply safe_bind; [apply B|]. intros [? ?] _. apply safe_bind; [apply P|]. by intros [? ?] _.
Qed.

Lemma deserialize_node_safe bs : head bs <> Some LEAF_TAG -> safe (deserialize_from_slice (A:=trie) bs).
Proof.
  intros Hl. apply safe_bind; [by apply Trie_from_bytes_safe|]. intros [t rem] _. solve_safe.
Qed.

Lemma queued_length bs t : deserialize_from_slice (A:=trie) bs = Ok t -> length (queued t) <= RADIX.
Proof.
  intros E. apply bind_Ok in E as ([t' rem] & E & Et). apply bytesrepr_sound in E as (Hv & _).
  assert (t' = t) as -> by (destruct rem; [by apply Ok_inj in Et|done]).
  destruct t as [|pb|]; cbn [queued length]; [unfold RADIX; lia| |unfold RADIX; lia].
  destruct Hv as [Hl _]. rewrite length_fmap. unfold as_indexed_pointers. rewrite <- Hl, <- (length_imap pair (pointers pb)).
  generalize (imap pair (pointers pb)). intros l. induction l as [|[i [p|]] l IH]; cbn in *; lia.
Qed.

(** ** The worklist invariant *)

Section Worklist.
Context (s : store) (kc : gset Digest) (start : list Digest).

Record search_inv (to_visit : list Digest) (visited : gset Digest) (missing : list Digest) : Prop := {
  si_visited h : h ∈ visited -> reachable s kc start h;
  si_to_visit h : h ∈ to_visit -> reachable s kc start h;
  si_start h : h ∈ start -> h ∈ visited \/ h ∈ to_visit;
  si_closed h h' : h ∈ visited -> h ∉ kc -> h' ∈ children s h -> h' ∈ visited \/ h' ∈ to_visit;
  si_nodup : NoDup missing;
  si_missing h : h ∈ missing <-> h ∈ visited /\ h ∉ kc /\ lacks s h;
}.

Lemma search_inv_final visited missing : search_inv [] visited missing ->
  NoDup missing /\ forall h, h ∈ missing <-> reachable s kc start h /\ h ∉ kc /\ lacks s h.
Proof.
  intros [H1' H2' H3' H4' H5' H6']. split; [done|]. intros h. rewrite H6'.
  assert (reachable s kc start h <-> h ∈ visited) as ->; [|done]. split; [|apply H1'].
  induction 1 as [h Hs|h h' _ IH Hk Hc].
  - destruct (H3' h Hs) as [?|?%elem_of_nil]; done.
  - destruct (H4' h h' IH Hk Hc) as [?|?%elem_of_nil]; done.
Qed.

(** A visited key is skipped. *)
Lemma search_inv_skip h to_visit visited missing : search_inv (h :: to_visit) visited missing -> h ∈ visited ->
  search_inv to_visit visited missing.
Proof.
  intros [H1' H2' H3' H4' H5' H6'] Hh. split; try done.
  - intros x Hx. apply H2'. by right.
  - intros x Hx. destruct (H3' x Hx) as [?|[->|?]%elem_of_cons]; auto.
  - intros x x' Hx Hk Hc. destruct (H4' x x' Hx Hk Hc) as [?|[->|?]%elem_of_cons]; auto.
Qed.

(** A key visited for the first time; [b] tells whether it is reported. *)
Lemma search_inv_visit h to_visit new visited missing (b : bool) :
  search_inv (h :: to_visit) visited missing -> h ∉ visited ->
  (forall x, x ∈ new <-> h ∉ kc /\ x ∈ children s h) -> (b = true <-> h ∉ kc /\ lacks s h) ->
  search_inv (new ++ to_visit) ({[h]} ∪ visited) (missing ++ if b then [h] else []).
Proof.
  intros [H1' H2' H3' H4' H5' H6'] Hv Hn Hb.
  assert (h ∉ missing) as Hf by (rewrite H6'; tauto).
  assert (reachable s kc start h) as Hr by (apply H2'; left).
  split.
  - intros x [->%elem_of_singleton|Hx']%elem_of_union; [done|by apply H1'].
  - intros x [[Hk Hc]%Hn|Hx']%elem_of_app; [by eapply reachable_child|apply H2'; by right].
  - intros x Hs. destruct (H3' x Hs) as [?|[->|?]%elem_of_cons]; set_solver.
  - intros x x' [->%elem_of_singleton|Hx']%elem_of_union Hk Hc.
    + right. apply elem_of_app. left. by apply Hn.
    + destruct (H4' x x' Hx' Hk Hc) as [?|[->|?]%elem_of_cons]; set_solver.
  - destruct b; [|by rewrite app_nil_r]. apply NoDup_app. split_and!; [done|set_solver|apply NoDup_singleton].
  - intros x. rewrite elem_of_app, elem_of_union, elem_of_singleton, H6'. destruct b.
    + rewrite list_elem_of_singleton. naive_solver.
    + rewrite elem_of_nil. naive_solver.
Qed.

(** The nodes of the store not visited yet, for the bound on the iterations. *)
Definition unvisited (visited : gset Digest) : nat := size (dom s ∖ visited).

Lemma unvisited_visit h visited bs : s !! h = Some bs -> h ∉ visited ->
  unvisited visited = S (unvisited ({[h]} ∪ visited)).
Proof.
  intros Hs Hv. unfold unvisited.
  assert (dom s ∖ visited = {[h]} ∪ dom s ∖ ({[h]} ∪ visited)) as ->.
  { apply set_eq. intros x. destruct (decide (x = h)) as [->|]; [|set_solver].
    assert (h ∈ dom s) by (apply elem_of_dom; eauto). set_solver. }
  rewrite size_union by set_solver. by rewrite size_singleton.
Qed.

Lemma unvisited_mono h visited : unvisited ({[h]} ∪ visited) <= unvisited visited.
Proof. unfold unvisited. apply subseteq_size. set_solver. Qed.

Lemma missing_loop_ok fuel : forall to_visit visited missing,
  search_inv to_visit visited missing -> length to_visit + S RADIX * unvisited visited < fuel ->
  exists l, missing_loop fuel s kc to_visit visited missing = Ok l /\
    NoDup l /\ forall h, h ∈ l <-> reachable s kc start h /\ h ∉ kc /\ lacks s h.
Proof.
  induction fuel as [|fuel IH]; intros to_visit visited missing Hi Hf; [lia|].
  unfold RADIX in *. cbn [missing_loop].
  destruct to_visit as [|h to_visit]; [exists missing; split; [done|by eapply search_inv_final]|].
  case_decide as Hv; [apply IH; [by eapply search_inv_skip|cbn in Hf; lia]|].
  pose proof (unvisited_mono h visited) as Hu. cbn [length] in Hf.
  pose proof (fun new => search_inv_visit h to_visit new visited missing) as Hvisit.
  assert (forall b, (b = true <-> h ∉ kc /\ lacks s h) -> (forall x, x ∈ children s h -> h ∈ kc) ->
    search_inv to_visit ({[h]} ∪ visited) (missing ++ if b : bool then [h] else [])) as Hstop.
  { intros b Hb Hc. apply (Hvisit [] b); [done|done| |done]. intros x. rewrite elem_of_nil. naive_solver. }
  case_decide as Hk.
  { rewrite <- (app_nil_r missing). apply IH; [apply (Hstop false); [naive_solver|done]|lia]. }
  unfold get_raw, children, lacks in *. destruct (s !! h) as [bs|] eqn:Es; cycle 1.
  { apply IH; [apply (Hstop true); [done|by intros x ?%elem_of_nil]|lia]. }
  case_decide as Hl.
  { rewrite <- (app_nil_r missing). apply IH; [apply (Hstop false); [naive_solver|by intros x ?%elem_of_nil]|lia]. }
  pose proof (deserialize_node_safe bs Hl) as Hsafe.
  destruct (deserialize_from_slice bs) as [t| | |] eqn:Et; [| |done|done].
  - rewrite <- (app_nil_r missing). apply IH.
    + apply (Hvisit (rev (queued t)) false); [done|done| |cbn; naive_solver]. intros x.
      rewrite list_elem_of_In, <- in_rev, <- list_elem_of_In. naive_solver.
    + rewrite length_app, length_rev. pose proof (queued_length bs t Et). unfold RADIX in *.
      rewrite (unvisited_visit h visited bs) in Hf by done. lia.
  - apply IH; [apply (Hstop true); [done|by intros x ?%elem_of_nil]|lia].
Qed.

End Worklist.

Lemma missing_trie_keys_ok s start kc :
  exists l, missing_trie_keys s start kc = Ok l /\
    NoDup l /\ forall h, h ∈ l <-> reachable s kc start h /\ h ∉ kc /\ lacks s h.
Proof.
  apply missing_loop_ok.
  - split; [set_solver| | |set_solver|constructor|set_solver].
    + intros h Hh. apply reachable_start. by rewrite list_elem_of_In, in_rev, <- list_elem_of_In.
    + intros h Hh. right. by rewrite list_elem_of_In, <- in_rev, <- list_elem_of_In.
  - rewrite length_rev. unfold unvisited. rewrite difference_empty_L, size_dom. lia.
Qed.

(** ** A store that lacks nothing *)

(** The stores hold the same string under a digest both have. *)
Definition stores_agree (s s0 : store) : Prop :=
  forall h bs bs0, s !! h = Some bs -> s0 !! h = Some bs0 -> bs = bs0.

Lemma stored_head s h (t : trie) bs : stored s h t -> s !! h = Some bs -> head bs = Some (trie_tag t).
Proof.
  intros (Hv & bs' & Hb & -> & Hs) Hs'. rewrite Hs in Hs'. injection Hs' as <-.
  change (Trie_to_bytes t = Ok bs') in Hb. by apply (Trie_to_bytes_Ok t bs' Hv) in Hb as (_ & body & _ & ->).
Qed.

Lemma stored_children s h (t : trie) : stored s h t -> children s h = queued t.
Proof.
  intros Hst. pose proof Hst as (Hv & bs & Hb & -> & Hs). unfold children. rewrite Hs.
  rewrite (stored_head _ _ _ _ Hst Hs). destruct (deserialize_serialize t bs Hv Hb) as [_ ->].
  destruct t; [by rewrite decide_True|by rewrite decide_False..].
Qed.

Section Complete.
Context (s s0 : store) (root : Digest).
Hypothesis Hagree : stores_agree s s0.
Hypothesis Hall : forall h, reachable s ∅ [root] h -> ~ lacks s h.

Lemma reachable_stored h (t : trie) : stored s0 h t -> reachable s ∅ [root] h -> stored s h t.
Proof.
  intros (Hv & bs & Hb & Hh & Hs) Hr. pose proof (Hall h Hr) as Hl. unfold lacks in Hl.
  destruct (s !! h) as [bs'|] eqn:E; [|done]. pose proof (Hagree _ _ _ E Hs) as ->.
  split; [done|]. by exists bs.
Qed.

Lemma reachable_reps p t (m : gmap K V) : reps s0 p t m -> forall h, stored s h t -> reachable s ∅ [root] h ->
  reps s p t m.
Proof.
  induction 1 as [p k v Hk Hv Hp|p pb c f m Hv Hc Hp Hr IH He Hm|p a hn pb m Hp Ha Hst Rn IH]; intros h Hs Hreach.
  - by constructor.
  - assert (forall i ptr, pb_get pb i = Some ptr -> reachable s ∅ [root] (pointer_hash ptr)) as Hch.
    { intros i ptr Hi. apply (reachable_child _ _ _ h); [done|set_solver|]. rewrite (stored_children _ _ _ Hs).
      apply list_elem_of_fmap. exists (i, ptr). split; [done|]. by apply elem_of_as_indexed_pointers. }
    assert (forall i ptr, pb_get pb i = Some ptr -> points_to s ptr (c i)) as Hp'.
    { intros i ptr Hi. destruct (Hp i ptr Hi) as [Hpt Hkind]. split; [|done]. apply reachable_stored; eauto. }
    apply (reps_node s p pb c f); try done. intros i ptr Hi.
    apply (IH i ptr Hi (pointer_hash ptr)); [by apply Hp'|eauto].
  - assert (reachable s ∅ [root] hn) as Hn.
    { apply (reachable_child _ _ _ h); [done|set_solver|]. rewrite (stored_children _ _ _ Hs). by left. }
    apply (reps_ext s p a hn pb); try done; [by apply reachable_stored|].
    apply (IH hn); [by apply reachable_stored|done].
Qed.
End Complete.

(** [missing_trie_keys] finds exactly what is missing: on any store, for any
    keys to visit and any set of complete ones, it terminates and returns, each
    once, the digests that are reachable from the start without passing a complete
    one, are not known to be complete, and have nothing stored under them or a
    string that is no trie node. *)
Theorem missing_trie_keys_exact s trie_keys_to_visit known_complete :
  exists l, missing_trie_keys s trie_keys_to_visit known_complete = Ok l /\ NoDup l /\
    forall h, h ∈ l <-> reachable s known_complete trie_keys_to_visit h /\ h ∉ known_complete /\ lacks s h.
Proof. apply missing_trie_keys_ok. Qed.

(** C20 A node that misses nothing has the state: when [missing_trie_keys] reports
    no key for a state root, and the store holds what other stores hold under the
    same digests, the trie of that root is complete: it holds the whole map that any
    other store has under this root. *)
Theorem nothing_missing_is_complete s s0 root (m : gmap K V) :
  missing_trie_keys s [root] ∅ = Ok [] -> rooted s0 root m -> stores_agree s s0 -> rooted s root m.
Proof.
  intros E (pb & Hst & R) Ha. destruct (missing_trie_keys_ok s [root] ∅) as (l & E' & _ & Hl).
  rewrite E in E'. apply Ok_inj in E' as <-.
  assert (forall h, reachable s ∅ [root] h -> ~ lacks s h) as Hall.
  { intros h Hr Hk. apply (elem_of_nil h), Hl. set_solver. }
  assert (reachable s ∅ [root] root) as Hroot by (constructor; by left).
  assert (stored s root (Node pb : trie)) as Hs by (by eapply reachable_stored).
  exists pb. split; [done|]. by eapply reachable_reps.
Qed.

End Sync.
