(* ===== verification/Values.v ===== *)
(** * Typed values: [types/src/cl_type.rs], [cl_value.rs] and the integer
    conversions of [uint.rs].

    The integer types and the casts between them, the type descriptions
    [CLType] with their codec, typed values [CLValue] with their conversion from
    and to Rust types, and lemmas for the codecs of structs. *)

From S2P Require Import Prelude Bytesrepr Hashing KeyTypes.
Local Open Scope Z_scope.

(** ** Integer types *)

Inductive IntType := TI32 | TI64 | TU8 | TU32 | TU64 | TU128 | TU256 | TU512.

#[export] Instance IntType_eq_dec : EqDecision IntType.
Proof. solve_decision. Defined.

Definition int_bits (t : IntType) : Z :=
  match t with
  | TI32 | TU32 => 32 | TI64 | TU64 => 64 | TU8 => 8 | TU128 => 128 | TU256 => 256 | TU512 => 512
  end.
Definition int_signed (t : IntType) : bool :=
  match t with TI32 | TI64 => true | _ => false end.
Definition is_big (t : IntType) : bool :=
  match t with TU128 | TU256 | TU512 => true | _ => false end.

(** The value of the type congruent to [z] modulo its width. *)
Definition cast (t : IntType) (z : Z) : Z :=
  if int_signed t then (z + 2 ^ (int_bits t - 1)) mod 2 ^ int_bits t - 2 ^ (int_bits t - 1)
  else wrap (int_bits t) z.

Definition in_int (t : IntType) (z : Z) : Prop :=
  if int_signed t then - 2 ^ (int_bits t - 1) <= z < 2 ^ (int_bits t - 1)
  else is_uint (int_bits t) z.

(** [AsPrimitive::as_]: the casts of [uint.rs] where one of the types is a
    [U128], [U256] or [U512], and the language's [as] elsewhere. *)
Definition as_ (from to : IntType) (z : Z) : Z :=
  if is_big to then
    match from with
    | TI32 | TI64 =>
        if 0 <=? z then wrap (int_bits from) z
        else let abs := wrapping_sub (int_bits from) 0 (wrap (int_bits from) z) in
             wrapping_sub (int_bits to) 0 abs
    | TU8 | TU32 | TU64 => z
    | TU128 | TU256 | TU512 => wrap (Z.min (int_bits from) (int_bits to)) z
    end
  else if is_big from then cast to (wrap 64 z)
  else cast to z.

(** [WrappingAdd::wrapping_add]. *)
Definition int_wrapping_add (t : IntType) (a b : Z) : Z := cast t (a + b).

Lemma cast_range t z : in_int t (cast t z).
Proof.
  unfold in_int, cast, is_uint, wrap.
  assert (0 < int_bits t) by (destruct t; cbn; lia).
  destruct (int_signed t); [|apply Z.mod_pos_bound; lia].
  pose proof (Z.mod_pos_bound (z + 2 ^ (int_bits t - 1)) (2 ^ int_bits t) ltac:(lia)) as B.
  assert (2 ^ int_bits t = 2 * 2 ^ (int_bits t - 1)) as E
    by (rewrite <- Z.pow_succ_r by lia; f_equal; lia). lia.
Qed.

Lemma cast_id t z : in_int t z -> cast t z = z.
Proof.
  unfold in_int, cast, is_uint, wrap.
  assert (0 < int_bits t) by (destruct t; cbn; lia).
  destruct (int_signed t); [|intros ?; by apply Z.mod_small]. intros B.
  assert (2 ^ int_bits t = 2 * 2 ^ (int_bits t - 1)) as E
    by (rewrite <- Z.pow_succ_r by lia; f_equal; lia).
  rewrite Z.mod_small by lia. lia.
Qed.

(** [cast] only depends on the residue. *)
Lemma cast_congr t a b : a mod 2 ^ int_bits t = b mod 2 ^ int_bits t -> cast t a = cast t b.
Proof.
  intros E. unfold cast, wrap. destruct (int_signed t); [|done].
  by rewrite (Z.add_mod a), (Z.add_mod b), E by (destruct t; done).
Qed.

Lemma cast_mod t z : (cast t z) mod 2 ^ int_bits t = z mod 2 ^ int_bits t.
Proof.
  unfold cast, wrap. assert (2 ^ int_bits t <> 0) by (destruct t; done).
  destruct (int_signed t); [|by rewrite Z.mod_mod].
  rewrite Zminus_mod_idemp_l. f_equal. lia.
Qed.

Lemma mod_mod_pow z a b : 0 <= a <= b -> (z mod 2 ^ b) mod 2 ^ a = z mod 2 ^ a.
Proof.
  intros H. symmetry. apply Znumtheory.Zmod_div_mod; [lia|lia|].
  exists (2 ^ (b - a)). rewrite <- Z.pow_add_r by lia. f_equal. lia.
Qed.

Lemma signed_as_big w W z : 0 < w <= W -> - 2 ^ (w - 1) <= z < 2 ^ (w - 1) ->
  (if 0 <=? z then wrap w z else wrapping_sub W 0 (wrapping_sub w 0 (wrap w z))) = wrap W z.
Proof.
  intros Hw Hz. unfold wrap, wrapping_sub.
  assert (2 ^ w = 2 * 2 ^ (w - 1)) as E by (rewrite <- Z.pow_succ_r by lia; f_equal; lia).
  assert (2 ^ w <= 2 ^ W) by (apply Z.pow_le_mono_r; lia).
  destruct (Z.leb_spec 0 z); [by rewrite !Z.mod_small by lia|].
  assert (z mod 2 ^ w = z + 2 ^ w) as -> by (symmetry; apply Z.mod_unique with (q := -1); lia).
  assert ((0 - (z + 2 ^ w)) mod 2 ^ w = - z) as -> by (symmetry; apply Z.mod_unique with (q := -1); lia).
  f_equal. lia.
Qed.

Lemma uint_as_big w W z : 0 <= w -> 0 <= W -> is_uint w z -> wrap (Z.min w W) z = wrap W z.
Proof.
  intros ? ? Hz. unfold wrap, is_uint in *. destruct (Z.le_ge_cases W w).
  - by rewrite Z.min_r.
  - rewrite Z.min_l by done. assert (2 ^ w <= 2 ^ W) by (apply Z.pow_le_mono_r; lia).
    by rewrite !Z.mod_small by lia.
Qed.

Lemma as_cast from to z : in_int from z -> as_ from to z = cast to z.
Proof.
  intros R. unfold as_. destruct (is_big to) eqn:Bt.
  - assert (int_signed to = false) as St by by destruct to.
    assert (64 < int_bits to) as Wt by (destruct to; cbn in *; (done || lia)).
    assert (2 ^ 64 < 2 ^ int_bits to) by (apply Z.pow_lt_mono_r; lia).
    unfold cast. rewrite St.
    destruct from; unfold in_int in R; cbn [int_signed int_bits] in R |- *;
      first [apply signed_as_big; [lia|done] | apply uint_as_big; [done|lia|done]
            | unfold wrap; unfold is_uint in R; symmetry; apply Z.mod_small; lia].
  - destruct (is_big from) eqn:Bf; [|done]. apply cast_congr. unfold wrap.
    apply mod_mod_pow. destruct to; cbn in *; (done || lia).
Qed.

(** A value of an integer type. *)
Record int (t : IntType) := MkInt { int_val : Z }.
Arguments MkInt {t} _.
Arguments int_val {t} _.

Definition int_to_bytes (t : IntType) (z : Z) : bres bytes :=
  match t with
  | TI32 => i32_to_bytes z
  | TI64 => i64_to_bytes z
  | TU8 => u8_to_bytes (byte.of_Z z)
  | TU32 => u32_to_bytes z
  | TU64 => u64_to_bytes z
  | TU128 => biguint_to_bytes U128_SERIALIZED_LENGTH z
  | TU256 => biguint_to_bytes U256_SERIALIZED_LENGTH z
  | TU512 => biguint_to_bytes U512_SERIALIZED_LENGTH z
  end.
Definition int_from_bytes (t : IntType) (bs : bytes) : bres (Z * bytes) :=
  match t with
  | TI32 => i32_from_bytes bs
  | TI64 => i64_from_bytes bs
  | TU8 => parse_map byte.unsigned (u8_from_bytes bs)
  | TU32 => u32_from_bytes bs
  | TU64 => u64_from_bytes bs
  | TU128 => biguint_from_bytes U128_SERIALIZED_LENGTH bs
  | TU256 => biguint_from_bytes U256_SERIALIZED_LENGTH bs
  | TU512 => biguint_from_bytes U512_SERIALIZED_LENGTH bs
  end.
Definition int_serialized_length (t : IntType) (z : Z) : nat :=
  match t with
  | TI32 => I32_SERIALIZED_LENGTH
  | TI64 => I64_SERIALIZED_LENGTH
  | TU8 => U8_SERIALIZED_LENGTH
  | TU32 => U32_SERIALIZED_LENGTH
  | TU64 => U64_SERIALIZED_LENGTH
  | TU128 => biguint_serialized_length U128_SERIALIZED_LENGTH z
  | TU256 => biguint_serialized_length U256_SERIALIZED_LENGTH z
  | TU512 => biguint_serialized_length U512_SERIALIZED_LENGTH z
  end.

Lemma int_roundtrip t z bs rest :
  in_int t z -> int_to_bytes t z = Ok bs -> int_from_bytes t (bs ++ rest) = Ok (z, rest).
Proof.
  unfold in_int. destruct t; cbn [int_signed int_bits int_to_bytes int_from_bytes]; intros Hz E.
  - injection E as <-. unfold i32_from_bytes. rewrite safe_split_at_app by apply length_le_split. cbn.
    rewrite int_from_le_split; [done|unfold I32_SERIALIZED_LENGTH; lia|exact Hz].
  - injection E as <-. unfold i64_from_bytes. rewrite safe_split_at_app by apply length_le_split. cbn.
    rewrite int_from_le_split; [done|unfold I64_SERIALIZED_LENGTH; lia|exact Hz].
  - injection E as <-. cbn. rewrite byte.unsigned_of_Z. unfold byte.wrap.
    by rewrite Z.mod_small by exact Hz.
  - injection E as <-. by apply u32_roundtrip.
  - injection E as <-. by apply u64_roundtrip.
  - by apply (biguint_roundtrip U128_SERIALIZED_LENGTH); [apply Nat.ltb_lt|..].
  - by apply (biguint_roundtrip U256_SERIALIZED_LENGTH); [apply Nat.ltb_lt|..].
  - by apply (biguint_roundtrip U512_SERIALIZED_LENGTH); [apply Nat.ltb_lt|..].
Qed.

(** Two's complement integers of [n] bytes: the common core of [i32] and [i64]. *)
Lemma signed_fixed_sound n bs z rest : (0 < n)%nat ->
  ('(b, rem) ← safe_split_at bs n; mret (int_from_le_bytes b, rem)) = (Ok (z, rest) : bres _) ->
  (- 2 ^ (8 * Z.of_nat n - 1) <= z < 2 ^ (8 * Z.of_nat n - 1)) /\ (exists used, bs = used ++ rest) /\
  forall more, ('(b, rem) ← safe_split_at (bs ++ more) n; mret (int_from_le_bytes b, rem)) =
    (Ok (z, rest ++ more) : bres _).
Proof.
  intros Hn H. inv_ok. match goal with H : safe_split_at _ _ = _ |- _ =>
    pose proof (fun m => safe_split_at_extend _ _ _ _ m H) as X; apply safe_split_at_Ok in H as [-> L] end.
  split_and!; [| |by eexists|intros more; by rewrite X].
  all: unfold int_from_le_bytes; rewrite L;
    match goal with |- context [?x mod ?m] => pose proof (Z.mod_pos_bound x m ltac:(lia)) end;
    assert (2 ^ (8 * Z.of_nat n) = 2 * 2 ^ (8 * Z.of_nat n - 1)) by
      (rewrite <- Z.pow_succ_r by lia; f_equal; lia); lia.
Qed.

Lemma int_sound t bs z rest : int_from_bytes t bs = Ok (z, rest) ->
  in_int t z /\ (exists used, bs = used ++ rest) /\
  forall more, int_from_bytes t (bs ++ more) = Ok (z, rest ++ more).
Proof.
  unfold in_int. destruct t; cbn [int_signed int_bits int_from_bytes].
  - apply (signed_fixed_sound I32_SERIALIZED_LENGTH). apply Nat.ltb_lt. done.
  - apply (signed_fixed_sound I64_SERIALIZED_LENGTH). apply Nat.ltb_lt. done.
  - intros (b & H & ->)%parse_map_Ok. apply u8_from_bytes_Ok in H as ->.
    split; [apply byte.unsigned_range|split; [by exists [b]|done]].
  - intros H. destruct (u32_from_bytes_Ok _ _ _ H) as [V U]. split; [exact V|split; [done|]].
    intros more. by apply u32_from_bytes_extend.
  - intros H. destruct (u64_from_bytes_Ok _ _ _ H) as [V U]. split; [exact V|split; [done|]].
    intros more. by apply u64_from_bytes_extend.
  - intros H. destruct (biguint_sound _ _ _ _ H) as [V U]. split; [exact V|split; [done|]].
    intros more. by apply biguint_extend.
  - intros H. destruct (biguint_sound _ _ _ _ H) as [V U]. split; [exact V|split; [done|]].
    intros more. by apply biguint_extend.
  - intros H. destruct (biguint_sound _ _ _ _ H) as [V U]. split; [exact V|split; [done|]].
    intros more. by apply biguint_extend.
Qed.

#[export] Instance int_ToBytes t : ToBytes (int t) :=
  default_ToBytes (fun i => int_to_bytes t (int_val i)) (fun i => int_serialized_length t (int_val i)).
#[export] Instance int_FromBytes t : FromBytes (int t) :=
  default_FromBytes (fun bs => parse_map MkInt (int_from_bytes t bs)).
#[export] Instance int_Valid t : Valid (int t) := fun i => in_int t (int_val i).

Lemma int_to_bytes_total t z : exists bs, int_to_bytes t z = Ok bs /\ length bs = int_serialized_length t z.
Proof.
  destruct t; cbn [int_to_bytes int_serialized_length];
    first [eexists; split; [reflexivity|apply length_le_split]
          | eexists; split; [apply biguint_bytes_split|]; eapply biguint_length; apply biguint_bytes_split
          | by eexists].
Qed.

#[export] Instance int_Bytesrepr t : Bytesrepr (int t).
Proof.
  apply struct_bytesrepr.
  - intros [z] bs rest V E. by rewrite (int_roundtrip t z bs).
  - intros [z] bs V E. cbn in *. destruct (int_to_bytes_total t z) as (b & Hb & L). congruence.
  - intros [z] bs writer V E. by apply default_write_ok.
  - intros [z] V _. destruct (int_to_bytes_total t z) as (b & Hb & _). eauto.
  - intros bs a rest (z & H & ->)%parse_map_Ok. apply int_sound in H as (? & ? & _). done.
  - intros bs a rest more (z & H & ->)%parse_map_Ok. apply int_sound in H as (_ & _ & X).
    by rewrite X.
Qed.

(** ** [CLType] *)

Module CLType.
Inductive t :=
| Bool | I32 | I64 | U8 | U32 | U64 | U128 | U256 | U512 | Unit | String | Key | URef | PublicKey
| Option (inner : t)
| List (inner : t)
| ByteArray (len : Z)
| Result (ok err : t)
| Map (key value : t)
| Tuple1 (t1 : t)
| Tuple2 (t1 t2 : t)
| Tuple3 (t1 t2 t3 : t)
| Any.
End CLType.
Abbreviation CLType := CLType.t.

#[export] Instance CLType_eq_dec : EqDecision CLType.
Proof. solve_decision. Defined.

Definition CL_TYPE_RECURSION_DEPTH : nat := 50.

(** The constants [CL_TYPE_TAG_*]. *)
Definition CL_TYPE_TAG (c : CLType) : Byte.byte :=
  match c with
  | CLType.Bool => Byte.x00
  | CLType.I32 => Byte.x01
  | CLType.I64 => Byte.x02
  | CLType.U8 => Byte.x03
  | CLType.U32 => Byte.x04
  | CLType.U64 => Byte.x05
  | CLType.U128 => Byte.x06
  | CLType.U256 => Byte.x07
  | CLType.U512 => Byte.x08
  | CLType.Unit => Byte.x09
  | CLType.String => Byte.x0a
  | CLType.Key => Byte.x0b
  | CLType.URef => Byte.x0c
  | CLType.Option _ => Byte.x0d
  | CLType.List _ => Byte.x0e
  | CLType.ByteArray _ => Byte.x0f
  | CLType.Result _ _ => Byte.x10
  | CLType.Map _ _ => Byte.x11
  | CLType.Tuple1 _ => Byte.x12
  | CLType.Tuple2 _ _ => Byte.x13
  | CLType.Tuple3 _ _ _ => Byte.x14
  | CLType.Any => Byte.x15
  | CLType.PublicKey => Byte.x16
  end.

Fixpoint CLType_serialized_length (c : CLType) : nat :=
  1 + match c with
  | CLType.Option inner | CLType.List inner => CLType_serialized_length inner
  | CLType.ByteArray len => U32_SERIALIZED_LENGTH
  | CLType.Result t1 t2 | CLType.Map t1 t2 | CLType.Tuple2 t1 t2 =>
      CLType_serialized_length t1 + CLType_serialized_length t2
  | CLType.Tuple1 t1 => CLType_serialized_length t1
  | CLType.Tuple3 t1 t2 t3 =>
      CLType_serialized_length t1 + (CLType_serialized_length t2 + CLType_serialized_length t3)
  | _ => 0
  end.

Definition named_key_type : CLType := CLType.Tuple2 CLType.String CLType.Key.

Fixpoint append_bytes (c : CLType) (stream : bytes) : bres bytes :=
  let stream := stream ++ [CL_TYPE_TAG c] in
  match c with
  | CLType.Option inner | CLType.List inner => append_bytes inner stream
  | CLType.ByteArray len => b ← u32_to_bytes len; mret (stream ++ b)
  | CLType.Result t1 t2 | CLType.Map t1 t2 | CLType.Tuple2 t1 t2 =>
      stream ← append_bytes t1 stream; append_bytes t2 stream
  | CLType.Tuple1 t1 => append_bytes t1 stream
  | CLType.Tuple3 t1 t2 t3 =>
      stream ← append_bytes t1 stream; stream ← append_bytes t2 stream; append_bytes t3 stream
  | _ => Ok stream
  end.

(** [parse] is [depth_limited_from_bytes] one level down. *)
Fixpoint parse_cl_tuple_types (parse : bytes -> bres (CLType * bytes)) (count : nat) (bs : bytes)
    : bres (list CLType * bytes) :=
  match count with
  | O => Ok ([], bs)
  | S count =>
      '(cl_type, remainder) ← parse bs;
      '(cl_types, bs) ← parse_cl_tuple_types parse count remainder;
      mret (cl_type :: cl_types, bs)
  end.

(** [levels] is [CL_TYPE_RECURSION_DEPTH - depth]. *)
Fixpoint depth_limited_from_bytes (levels : nat) (bs : bytes) : bres (CLType * bytes) :=
  match levels with
  | O => Err ExceededRecursionDepth
  | S levels =>
      '(tag, remainder) ← u8_from_bytes bs;
      match tag with
      | Byte.x00 => Ok (CLType.Bool, remainder)
      | Byte.x01 => Ok (CLType.I32, remainder)
      | Byte.x02 => Ok (CLType.I64, remainder)
      | Byte.x03 => Ok (CLType.U8, remainder)
      | Byte.x04 => Ok (CLType.U32, remainder)
      | Byte.x05 => Ok (CLType.U64, remainder)
      | Byte.x06 => Ok (CLType.U128, remainder)
      | Byte.x07 => Ok (CLType.U256, remainder)
      | Byte.x08 => Ok (CLType.U512, remainder)
      | Byte.x09 => Ok (CLType.Unit, remainder)
      | Byte.x0a => Ok (CLType.String, remainder)
      | Byte.x0b => Ok (CLType.Key, remainder)
      | Byte.x0c => Ok (CLType.URef, remainder)
      | Byte.x16 => Ok (CLType.PublicKey, remainder)
      | Byte.x0d =>
          '(inner, remainder) ← depth_limited_from_bytes levels remainder;
          Ok (CLType.Option inner, remainder)
      | Byte.x0e =>
          '(inner, remainder) ← depth_limited_from_bytes levels remainder;
          Ok (CLType.List inner, remainder)
      | Byte.x0f =>
          '(len, remainder) ← u32_from_bytes remainder;
          Ok (CLType.ByteArray len, remainder)
      | Byte.x10 =>
          '(ok, remainder) ← depth_limited_from_bytes levels remainder;
          '(err, remainder) ← depth_limited_from_bytes levels remainder;
          Ok (CLType.Result ok err, remainder)
      | Byte.x11 =>
          '(key, remainder) ← depth_limited_from_bytes levels remainder;
          '(value, remainder) ← depth_limited_from_bytes levels remainder;
          Ok (CLType.Map key value, remainder)
      | Byte.x12 =>
          '(inner, remainder) ← parse_cl_tuple_types (depth_limited_from_bytes levels) 1 remainder;
          match inner with t1 :: _ => Ok (CLType.Tuple1 t1, remainder) | _ => Panic end
      | Byte.x13 =>
          '(inner, remainder) ← parse_cl_tuple_types (depth_limited_from_bytes levels) 2 remainder;
          match inner with t1 :: t2 :: _ => Ok (CLType.Tuple2 t1 t2, remainder) | _ => Panic end
      | Byte.x14 =>
          '(inner, remainder) ← parse_cl_tuple_types (depth_limited_from_bytes levels) 3 remainder;
          match inner with t1 :: t2 :: t3 :: _ => Ok (CLType.Tuple3 t1 t2 t3, remainder) | _ => Panic end
      | Byte.x15 => Ok (CLType.Any, remainder)
      | _ => Err Formatting
      end
  end.

Definition CLType_from_bytes (bs : bytes) : bres (CLType * bytes) :=
  depth_limited_from_bytes CL_TYPE_RECURSION_DEPTH bs.

(** How deep a type nests, and the ranges of its array lengths. *)
Fixpoint CLType_depth (c : CLType) : nat :=
  1 + match c with
  | CLType.Option inner | CLType.List inner => CLType_depth inner
  | CLType.Result t1 t2 | CLType.Map t1 t2 | CLType.Tuple2 t1 t2 =>
      CLType_depth t1 `max` CLType_depth t2
  | CLType.Tuple1 t1 => CLType_depth t1
  | CLType.Tuple3 t1 t2 t3 => CLType_depth t1 `max` (CLType_depth t2 `max` CLType_depth t3)
  | _ => 0
  end.

Fixpoint CLType_lengths_ok (c : CLType) : Prop :=
  match c with
  | CLType.Option inner | CLType.List inner | CLType.Tuple1 inner => CLType_lengths_ok inner
  | CLType.ByteArray len => is_uint 32 len
  | CLType.Result t1 t2 | CLType.Map t1 t2 | CLType.Tuple2 t1 t2 =>
      CLType_lengths_ok t1 /\ CLType_lengths_ok t2
  | CLType.Tuple3 t1 t2 t3 => CLType_lengths_ok t1 /\ CLType_lengths_ok t2 /\ CLType_lengths_ok t3
  | _ => True
  end.

(** What [append_bytes] appends. *)
Fixpoint type_bytes (c : CLType) : bytes :=
  CL_TYPE_TAG c ::
  match c with
  | CLType.Option inner | CLType.List inner | CLType.Tuple1 inner => type_bytes inner
  | CLType.ByteArray len => le_split U32_SERIALIZED_LENGTH len
  | CLType.Result t1 t2 | CLType.Map t1 t2 | CLType.Tuple2 t1 t2 => type_bytes t1 ++ type_bytes t2
  | CLType.Tuple3 t1 t2 t3 => type_bytes t1 ++ type_bytes t2 ++ type_bytes t3
  | _ => []
  end.

Lemma append_bytes_eq c : forall stream, append_bytes c stream = Ok (stream ++ type_bytes c).
Proof.
  induction c; intros stream; cbn [append_bytes type_bytes CL_TYPE_TAG]; try done;
    repeat match goal with IH : forall _, append_bytes ?c _ = _ |- context [append_bytes ?c _] =>
      rewrite IH; cbn [mbind res_bind] end; cbn [u32_to_bytes mbind res_bind mret res_ret];
    by rewrite <- ?app_assoc.
Qed.

Lemma type_bytes_length c : length (type_bytes c) = CLType_serialized_length c.
Proof.
  induction c; cbn [type_bytes CLType_serialized_length length]; rewrite ?length_app, ?length_le_split; lia.
Qed.

Lemma depth_limited_roundtrip c : forall levels rest,
  (CLType_depth c <= levels)%nat -> CLType_lengths_ok c ->
  depth_limited_from_bytes levels (type_bytes c ++ rest) = Ok (c, rest).
Proof.
  induction c; intros [|levels] rest Hd Hl; cbn [CLType_depth] in Hd; try lia;
    cbn [CLType_lengths_ok] in Hl; destruct_and?;
    cbn [depth_limited_from_bytes type_bytes CL_TYPE_TAG app u8_from_bytes mbind res_bind]; try done;
    rewrite <- ?app_assoc; cbn [parse_cl_tuple_types];
    repeat match goal with IH : forall _ _, _ -> _ -> depth_limited_from_bytes _ (type_bytes ?c ++ _) = _
      |- context [depth_limited_from_bytes _ (type_bytes ?c ++ _)] =>
      rewrite IH by (done || lia); cbn [mbind res_bind mret res_ret] end; try done.
  by rewrite u32_roundtrip.
Qed.

Lemma depth_limited_sound levels : forall bs c rest, depth_limited_from_bytes levels bs = Ok (c, rest) ->
  (CLType_depth c <= levels)%nat /\ CLType_lengths_ok c /\ (exists used, bs = used ++ rest) /\
  forall more, depth_limited_from_bytes levels (bs ++ more) = Ok (c, rest ++ more).
Proof.
  induction levels as [|levels IH]; intros bs c rest; cbn [depth_limited_from_bytes]; [done|].
  intros ([tag rem] & ->%u8_from_bytes_Ok & H)%bind_Ok.
  assert (forall more, u8_from_bytes ((tag :: rem) ++ more) = Ok (tag, rem ++ more)) as U by done.
  destruct tag; try discriminate H; cbn [parse_cl_tuple_types] in H |- *; codec_inv.
  all: repeat match goal with
    | H : depth_limited_from_bytes _ _ = Ok _ |- _ => apply IH in H as (? & ? & (? & ->) & ?)
    | H : u32_from_bytes ?b = Ok _ |- _ =>
        pose proof (fun m => u32_from_bytes_extend _ _ _ m H); apply u32_from_bytes_Ok in H as (? & (? & ->))
    end.
  all: split; [cbn [CLType_depth]; lia|].
  all: split; [cbn [CLType_lengths_ok]; tauto|].
  all: split; [rewrite ?app_assoc; match goal with |- exists used, ?t :: ?l = used ++ ?r =>
    first [by exists [t] | match l with ?u ++ r => by exists (t :: u) end] end|].
  all: intros more; rewrite U; cbn [mbind res_bind];
    repeat match goal with X : forall m, _ = _ |- _ => rewrite X; cbn [mbind res_bind mret res_ret] end; done.
Qed.

(** [append_bytes] is the serialiser of a type; [CLType] has no [ToBytes] of its own. *)
#[export] Instance CLType_ToBytes : ToBytes CLType := {|
  to_bytes c := append_bytes c []; into_bytes c := append_bytes c [];
  serialized_length := CLType_serialized_length; write_bytes := append_bytes |}.
#[export] Instance CLType_FromBytes : FromBytes CLType := default_FromBytes CLType_from_bytes.
#[export] Instance CLType_Valid : Valid CLType := fun c =>
  (CLType_depth c <= CL_TYPE_RECURSION_DEPTH)%nat /\ CLType_lengths_ok c.
Lemma CLType_roundtrip c rest : valid c -> CLType_from_bytes (type_bytes c ++ rest) = Ok (c, rest).
Proof. intros [Hd Hl]. unfold CLType_from_bytes. by apply depth_limited_roundtrip. Qed.

Lemma CLType_sound bs c rest : CLType_from_bytes bs = Ok (c, rest) ->
  valid c /\ (exists used, bs = used ++ rest) /\
  forall more, CLType_from_bytes (bs ++ more) = Ok (c, rest ++ more).
Proof.
  unfold CLType_from_bytes. intros (Hd & Hl & U & X)%depth_limited_sound. split; [by split|by split].
Qed.

#[export] Instance CLType_Bytesrepr : Bytesrepr CLType.
Proof.
  apply struct_bytesrepr.
  - intros c bs rest V E. rewrite append_bytes_eq in E. apply Ok_inj in E as <-. by apply CLType_roundtrip.
  - intros c bs _ E. rewrite append_bytes_eq in E. apply Ok_inj in E as <-. apply type_bytes_length.
  - intros c bs writer _ E. rewrite append_bytes_eq in E |- *. by apply Ok_inj in E as <-.
  - intros c _ _. rewrite append_bytes_eq. by eexists.
  - intros bs c rest (V & U & _)%CLType_sound. by split.
  - intros bs c rest more (_ & _ & X)%CLType_sound. apply X.
Qed.

#[global] Opaque CLType_from_bytes append_bytes CLType_serialized_length.

(** ** [CLValue] *)

Record CLValue := MkCLValue { cl_type : CLType; cl_bytes : Bytes }.

#[export] Instance CLValue_eq_dec : EqDecision CLValue.
Proof. solve_decision. Defined.

Inductive CLValueError :=
| CLSerialization (error : Error)
| CLTypeMismatch (expected found : CLType).

Class CLTyped (A : Type) := cl_type_of : CLType.
Arguments cl_type_of A {_}.

#[export] Instance int_CLTyped t : CLTyped (int t) :=
  match t with
  | TI32 => CLType.I32 | TI64 => CLType.I64 | TU8 => CLType.U8 | TU32 => CLType.U32
  | TU64 => CLType.U64 | TU128 => CLType.U128 | TU256 => CLType.U256 | TU512 => CLType.U512
  end.
#[export] Instance bool_CLTyped : CLTyped bool := CLType.Bool.
#[export] Instance unit_CLTyped : CLTyped unit := CLType.Unit.
#[export] Instance String_CLTyped : CLTyped rstring := CLType.String.
#[export] Instance Key_CLTyped : CLTyped Key := CLType.Key.
#[export] Instance URef_CLTyped : CLTyped URef := CLType.URef.
#[export] Instance Tuple2_CLTyped {A B} `{CLTyped A} `{CLTyped B} : CLTyped (A * B) :=
  CLType.Tuple2 (cl_type_of A) (cl_type_of B).

Section Typed.
Context {A : Type} `{CLTyped A} `{Bytesrepr A}.

Definition from_t (t : A) : res CLValueError CLValue :=
  bs ← map_err CLSerialization (into_bytes t);
  mret (MkCLValue (cl_type_of A) (MkBytes bs)).

Definition into_t (v : CLValue) : res CLValueError A :=
  if decide (cl_type v = cl_type_of A) then
    map_err CLSerialization (deserialize_from_slice (inner_bytes (cl_bytes v)))
  else Err (CLTypeMismatch (cl_type_of A) (cl_type v)).
End Typed.

Definition CLValue_to_bytes (v : CLValue) : bres bytes :=
  result ← to_bytes (cl_bytes v); write_bytes (cl_type v) result.
Definition CLValue_serialized_length (v : CLValue) : nat :=
  serialized_length (cl_bytes v) + serialized_length (cl_type v).
Definition CLValue_write_bytes (v : CLValue) (writer : bytes) : bres bytes :=
  writer ← write_bytes (cl_bytes v) writer; write_bytes (cl_type v) writer.
Definition CLValue_from_bytes (bs : bytes) : bres (CLValue * bytes) :=
  '(b, remainder) ← from_bytes bs;
  '(c, remainder) ← from_bytes remainder;
  mret (MkCLValue c b, remainder).

#[export] Instance CLValue_ToBytes : ToBytes CLValue := {|
  to_bytes := CLValue_to_bytes; into_bytes := CLValue_to_bytes;
  serialized_length := CLValue_serialized_length; write_bytes := CLValue_write_bytes |}.
#[export] Instance CLValue_FromBytes : FromBytes CLValue := default_FromBytes CLValue_from_bytes.
#[export] Instance CLValue_Valid : Valid CLValue := fun v => valid (cl_bytes v) /\ valid (cl_type v).

Lemma CLValue_to_bytes_eq v :
  CLValue_to_bytes v = b ← to_bytes (cl_bytes v); c ← to_bytes (cl_type v); mret (b ++ c).
Proof.
  unfold CLValue_to_bytes. destruct (to_bytes (cl_bytes v)) as [b| | |]; [|done..]. cbn [mbind res_bind].
  change (write_bytes (cl_type v) b) with (append_bytes (cl_type v) b).
  change (to_bytes (cl_type v)) with (append_bytes (cl_type v) []). by rewrite !append_bytes_eq.
Qed.

#[export] Instance CLValue_Bytesrepr : Bytesrepr CLValue.
Proof.
  apply struct_bytesrepr.
  - intros [c b]. rewrite CLValue_to_bytes_eq. unfold CLValue_from_bytes, CLValue_Valid. codec_roundtrip.
  - intros [c b]. rewrite CLValue_to_bytes_eq. unfold CLValue_serialized_length, CLValue_Valid. codec_length.
  - intros [c b]. rewrite CLValue_to_bytes_eq. unfold CLValue_write_bytes, CLValue_Valid. codec_write.
  - intros [c b]. rewrite CLValue_to_bytes_eq. unfold CLValue_serialized_length, CLValue_Valid. codec_total.
  - unfold CLValue_from_bytes, CLValue_Valid. codec_sound.
  - unfold CLValue_from_bytes. codec_extend.
Qed.

(** An integer reads back from its typed value. *)
Lemma from_t_int t z : in_int t z ->
  exists v, from_t (MkInt z : int t) = Ok v /\ valid v /\ cl_type v = cl_type_of (int t) /\
    into_t (A:=int t) v = Ok (MkInt z).
Proof.
  intros Hz. destruct (int_to_bytes_total t z) as (bs & Hb & _).
  exists (MkCLValue (cl_type_of (int t)) (MkBytes bs)). unfold from_t.
  change (into_bytes (MkInt z : int t)) with (int_to_bytes t z). rewrite Hb.
  split; [done|]. split; [|split; [done|]].
  - split; [done|]. split; [by destruct t; apply Nat.leb_le|by destruct t].
  - unfold into_t. cbn [cl_type cl_bytes inner_bytes]. rewrite decide_True by done.
    assert (to_bytes (MkInt z : int t) = Ok bs) as Hb' by exact Hb.
    by rewrite (proj2 (deserialize_serialize (MkInt z : int t) bs Hz Hb')).
Qed.

Lemma into_t_type {A} `{CLTyped A} `{FromBytes A} (v : CLValue) (a : A) :
  into_t v = Ok a -> cl_type v = cl_type_of A.
Proof. unfold into_t. by case_decide. Qed.

(** A value reads back from its typed value. *)
Lemma from_t_into_t {A} `{CLTyped A} `{Bytesrepr A} (a : A) (v : CLValue) :
  into_bytes a = to_bytes a -> valid a -> from_t a = Ok v -> cl_type v = cl_type_of A /\ into_t v = Ok a.
Proof.
  unfold from_t, into_t. intros Ei Va (bs & E%map_err_Ok & [= <-])%bind_Ok. cbn. split; [done|].
  rewrite decide_True by done. rewrite Ei in E. by rewrite (proj2 (deserialize_serialize a bs Va E)).
Qed.

Lemma into_t_valid {A} `{CLTyped A} `{Bytesrepr A} (v : CLValue) (a : A) : into_t v = Ok a -> valid a.
Proof.
  unfold into_t, deserialize_from_slice. case_decide; [|done].
  intros E%map_err_Ok. apply bind_Ok in E as ([a' rem] & Hp & E).
  destruct rem; [|done]. apply Ok_inj in E as <-. by apply bytesrepr_sound in Hp as [? _].
Qed.

(** ** Structs whose [to_bytes] allocates a buffer and writes the fields *)

Lemma written_bytesrepr {A} (wb : A -> bytes -> bres bytes) (body : A -> bres bytes) (len : A -> nat)
    (fb : bytes -> bres (A * bytes)) (v : A -> Prop) :
  (forall a bs rest, v a -> body a = Ok bs -> fb (bs ++ rest) = Ok (a, rest)) ->
  (forall a bs, v a -> body a = Ok bs -> length bs = len a) ->
  (forall a bs writer, v a -> body a = Ok bs -> wb a writer = Ok (writer ++ bs)) ->
  (forall a, v a -> (Z.of_nat (len a) <= u32_max)%Z -> exists bs, body a = Ok bs) ->
  (forall bs a rest, fb bs = Ok (a, rest) -> v a /\ exists used, bs = used ++ rest) ->
  (forall bs a rest more, fb bs = Ok (a, rest) -> fb (bs ++ more) = Ok (a, rest ++ more)) ->
  let tb a := _ ← allocate_buffer (len a); wb a [] in
  @Bytesrepr A {| to_bytes := tb; into_bytes := tb; serialized_length := len; write_bytes := wb |}
    {| from_bytes := fb; from_vec := fb |} v.
Proof.
  intros H1 H2 H3 H4 H5 H6 tb.
  assert (forall a bs, v a -> tb a = Ok bs -> body a = Ok bs) as B.
  { intros a bs Va (u & Ha%allocate_buffer_Ok & Hw)%bind_Ok. destruct (H4 a Va Ha) as [bs' Hb].
    rewrite (H3 a bs' [] Va Hb) in Hw. apply Ok_inj in Hw. by subst bs. }
  apply struct_bytesrepr; eauto.
  intros a Va Hl. destruct (H4 a Va Hl) as [bs Hb]. exists bs. unfold tb.
  rewrite allocate_buffer_fits by done. cbn [mbind res_bind]. by rewrite (H3 a bs [] Va Hb).
Qed.

Ltac written_codec body tac :=
  apply (written_bytesrepr _ body);
  [ intros []; tac; codec_roundtrip
  | intros []; tac; codec_length
  | intros []; tac; codec_write
  | intros []; tac; codec_total
  | tac; codec_sound
  | tac; codec_extend ].

(** ** Equality and orders of field types *)

#[export] Instance btree_map_eq_dec {K V} `{EqDecision K} `{EqDecision V} : EqDecision (btree_map K V).
Proof. solve_decision. Defined.
#[export] Instance btree_set_eq_dec {V} `{EqDecision V} : EqDecision (btree_set V).
Proof. solve_decision. Defined.

#[export] Instance rstring_ord : Ord rstring := fun a b => ord_cmp (as_bytes a) (as_bytes b).
#[export] Instance rstring_ord_laws : OrdLaws rstring.
Proof. apply (ord_laws_via as_bytes). intros [x] [y]. cbn. congruence. Qed.
#[export] Instance AccountHash_ord : Ord AccountHash := fun a b =>
  ord_cmp (account_hash_value a) (account_hash_value b).
#[export] Instance AccountHash_ord_laws : OrdLaws AccountHash.
Proof. apply (ord_laws_via account_hash_value). intros [x] [y]. cbn. congruence. Qed.
