(* ===== verification/PublicKeys.v ===== *)
(** * Public keys: [PublicKey] of [types/src/crypto/asymmetric_key.rs].

    The crates [ed25519_dalek] and [k256] are an interface: their key types with
    parsing from and conversion to the compressed bytes. *)

From S2P Require Import Prelude Bytesrepr Hashing KeyTypes Values.
Local Open Scope nat_scope.

Definition ED25519_LENGTH : nat := 32.
Definition SECP256K1_LENGTH : nat := 33.

(** What the code relies on: a key has bytes of the compressed length and parses
    back from them. *)
Class KeyCrates := {
  ed25519_key : Type;
  ed25519_eq_dec : EqDecision ed25519_key;
  ed25519_from_bytes : bytes -> option ed25519_key;
  ed25519_as_bytes : ed25519_key -> bytes;
  ed25519_length k : length (ed25519_as_bytes k) = ED25519_LENGTH;
  ed25519_parse k : ed25519_from_bytes (ed25519_as_bytes k) = Some k;
  secp256k1_key : Type;
  secp256k1_eq_dec : EqDecision secp256k1_key;
  secp256k1_from_bytes : bytes -> option secp256k1_key;
  secp256k1_to_bytes : secp256k1_key -> bytes;
  secp256k1_length k : length (secp256k1_to_bytes k) = SECP256K1_LENGTH;
  secp256k1_parse k : secp256k1_from_bytes (secp256k1_to_bytes k) = Some k;
}.
#[export] Existing Instances ed25519_eq_dec secp256k1_eq_dec.

Section PublicKey.
Context `{KeyCrates}.

Inductive PublicKey :=
| PkSystem
| PkEd25519 (key : ed25519_key)
| PkSecp256k1 (key : secp256k1_key).

#[export] Instance PublicKey_eq_dec : EqDecision PublicKey.
Proof. solve_decision. Defined.

Definition PublicKey_tag (k : PublicKey) : Byte.byte :=
  match k with PkSystem => Byte.x00 | PkEd25519 _ => Byte.x01 | PkSecp256k1 _ => Byte.x02 end.

(** [From<&PublicKey> for Vec<u8>]. *)
Definition public_key_bytes (k : PublicKey) : bytes :=
  match k with
  | PkSystem => []
  | PkEd25519 key => ed25519_as_bytes key
  | PkSecp256k1 key => secp256k1_to_bytes key
  end.

(** [Ord::cmp]: by tag, then by bytes. *)
#[export] Instance PublicKey_ord : Ord PublicKey := fun a b =>
  ord_cmp (PublicKey_tag a, public_key_bytes a) (PublicKey_tag b, public_key_bytes b).
#[export] Instance PublicKey_ord_laws : OrdLaws PublicKey.
Proof.
  apply (ord_laws_via (fun k => (PublicKey_tag k, public_key_bytes k))).
  intros [|a|a] [|b|b] E; cbn in E; try done; apply pair_eq in E as [_ E]; f_equal.
  - apply Some_inj. by rewrite <- (ed25519_parse a), <- (ed25519_parse b), E.
  - apply Some_inj. by rewrite <- (secp256k1_parse a), <- (secp256k1_parse b), E.
Qed.

Definition PublicKey_serialized_length (k : PublicKey) : nat :=
  U8_SERIALIZED_LENGTH +
  match k with PkSystem => 0 | PkEd25519 _ => ED25519_LENGTH | PkSecp256k1 _ => SECP256K1_LENGTH end.
Definition PublicKey_to_bytes (k : PublicKey) : bres bytes :=
  buffer ← allocate_buffer (PublicKey_serialized_length k);
  match k with
  | PkSystem => Ok [Byte.x00]
  | PkEd25519 public_key => Ok (Byte.x01 :: ed25519_as_bytes public_key)
  | PkSecp256k1 public_key => Ok (Byte.x02 :: secp256k1_to_bytes public_key)
  end.
Definition PublicKey_write_bytes (k : PublicKey) (writer : bytes) : bres bytes :=
  match k with
  | PkSystem => Ok (writer ++ [Byte.x00])
  | PkEd25519 pk => Ok ((writer ++ [Byte.x01]) ++ ed25519_as_bytes pk)
  | PkSecp256k1 pk => Ok ((writer ++ [Byte.x02]) ++ secp256k1_to_bytes pk)
  end.
Definition PublicKey_from_bytes (bs : bytes) : bres (PublicKey * bytes) :=
  '(tag, remainder) ← u8_from_bytes bs;
  if Byte.eqb tag Byte.x00 then Ok (PkSystem, remainder)
  else if Byte.eqb tag Byte.x01 then
    '(raw_bytes, remainder) ← array_from_bytes ED25519_LENGTH remainder;
    public_key ← ok_or (ed25519_from_bytes raw_bytes) Formatting;
    Ok (PkEd25519 public_key, remainder)
  else if Byte.eqb tag Byte.x02 then
    '(raw_bytes, remainder) ← array_from_bytes SECP256K1_LENGTH remainder;
    public_key ← ok_or (secp256k1_from_bytes raw_bytes) Formatting;
    Ok (PkSecp256k1 public_key, remainder)
  else Err Formatting.

#[export] Instance PublicKey_ToBytes : ToBytes PublicKey := {|
  to_bytes := PublicKey_to_bytes; into_bytes := PublicKey_to_bytes;
  serialized_length := PublicKey_serialized_length; write_bytes := PublicKey_write_bytes |}.
#[export] Instance PublicKey_FromBytes : FromBytes PublicKey := default_FromBytes PublicKey_from_bytes.
#[export] Instance PublicKey_Valid : Valid PublicKey := fun _ => True.

Lemma PublicKey_to_bytes_eq k bs : PublicKey_to_bytes k = Ok bs -> bs = PublicKey_tag k :: public_key_bytes k.
Proof. intros (u & _ & E)%bind_Ok. by destruct k; apply Ok_inj in E as <-. Qed.

#[export] Instance PublicKey_Bytesrepr : Bytesrepr PublicKey.
Proof.
  apply struct_bytesrepr.
  - intros k bs rest _ ->%PublicKey_to_bytes_eq. unfold PublicKey_from_bytes, array_from_bytes. destruct k; cbn.
    + done.
    + rewrite safe_split_at_app by apply ed25519_length. cbn. by rewrite ed25519_parse.
    + rewrite safe_split_at_app by apply secp256k1_length. cbn. by rewrite secp256k1_parse.
  - intros k bs _ ->%PublicKey_to_bytes_eq. destruct k; cbn; rewrite ?ed25519_length, ?secp256k1_length; done.
  - intros k bs writer _ ->%PublicKey_to_bytes_eq. by destruct k; cbn; rewrite <- ?app_assoc.
  - intros k _ _. unfold PublicKey_to_bytes. rewrite allocate_buffer_fits; [by destruct k; eexists|].
    by destruct k; vm_compute.
  - intros bs k rest Hr. apply bind_Ok in Hr as ([tag rem] & ->%u8_from_bytes_Ok & Hr). split; [done|].
    repeat case_match; try done.
    + injection Hr as <- <-. by exists [tag].
    + apply bind_Ok in Hr as ([raw rem'] & E & (pk & _ & [= <- <-])%bind_Ok).
      apply safe_split_at_Ok in E as [-> _]. by exists (tag :: raw).
    + apply bind_Ok in Hr as ([raw rem'] & E & (pk & _ & [= <- <-])%bind_Ok).
      apply safe_split_at_Ok in E as [-> _]. by exists (tag :: raw).
  - intros bs k rest more Hr. unfold PublicKey_from_bytes, array_from_bytes in *.
    apply bind_Ok in Hr as ([tag rem] & Hu & Hr). extend_step.
    repeat case_match; try done.
    + by injection Hr as <- <-.
    + apply bind_Ok in Hr as ([raw rem'] & E & (pk & E' & [= <- <-])%bind_Ok). extend_step. by rewrite E'.
    + apply bind_Ok in Hr as ([raw rem'] & E & (pk & E' & [= <- <-])%bind_Ok). extend_step. by rewrite E'.
Qed.

End PublicKey.
