(* ===== verification/Account.v ===== *)
(** * Accounts: [types/src/account.rs] with [account/associated_keys.rs],
    [account/action_thresholds.rs], [account/weight.rs] and [account/action_type.rs].

    The account record and its codec, the operations on associated keys and
    action thresholds, and the invariant they keep: an account never loses the
    power to deploy or to manage its own keys. *)

From S2P Require Import Prelude Bytesrepr Hashing KeyTypes Values.
Local Open Scope Z_scope.

(** ** Weights and thresholds *)

(** [struct Weight(u8)]. *)
Abbreviation KeyWeight := (int TU8).

Inductive ActionType := Deployment | KeyManagement.

Inductive SetThresholdFailure :=
| KeyManagementThreshold
| DeploymentThreshold
| SetPermissionDenied
| InsufficientTotalWeight.
Inductive AddKeyFailure := MaxKeysLimit | DuplicateKey | AddPermissionDenied.
Inductive RemoveKeyFailure := RemoveMissingKey | RemovePermissionDenied | RemoveThresholdViolation.
Inductive UpdateKeyFailure := UpdateMissingKey | UpdatePermissionDenied | UpdateThresholdViolation.

Record ActionThresholds := MkActionThresholds { deployment : KeyWeight; key_management : KeyWeight }.

Definition set_deployment_threshold (a : ActionThresholds) (new_threshold : KeyWeight)
    : res SetThresholdFailure ActionThresholds :=
  if int_val (key_management a) <? int_val new_threshold then Err DeploymentThreshold
  else Ok (MkActionThresholds new_threshold (key_management a)).
Definition set_key_management_threshold (a : ActionThresholds) (new_threshold : KeyWeight)
    : res SetThresholdFailure ActionThresholds :=
  if int_val new_threshold <? int_val (deployment a) then Err KeyManagementThreshold
  else Ok (MkActionThresholds (deployment a) new_threshold).
Definition set_threshold (a : ActionThresholds) (action_type : ActionType) (new_threshold : KeyWeight)
    : res SetThresholdFailure ActionThresholds :=
  match action_type with
  | Deployment => set_deployment_threshold a new_threshold
  | KeyManagement => set_key_management_threshold a new_threshold
  end.

Definition ActionThresholds_to_bytes (a : ActionThresholds) : bres bytes :=
  b0 ← to_bytes (deployment a); b1 ← to_bytes (key_management a); mret (b0 ++ b1).
Definition ActionThresholds_write_bytes (a : ActionThresholds) (writer : bytes) : bres bytes :=
  writer ← write_bytes (deployment a) writer; write_bytes (key_management a) writer.
Definition ActionThresholds_from_bytes (bs : bytes) : bres (ActionThresholds * bytes) :=
  '(deployment, rem) ← from_bytes bs;
  '(key_management, rem) ← from_bytes rem;
  mret (MkActionThresholds deployment key_management, rem).

#[export] Instance int_eq_dec t : EqDecision (int t).
Proof. solve_decision. Defined.
#[export] Instance ActionThresholds_eq_dec : EqDecision ActionThresholds.
Proof. solve_decision. Defined.
#[export] Instance ActionThresholds_ToBytes : ToBytes ActionThresholds := {|
  to_bytes := ActionThresholds_to_bytes; into_bytes := ActionThresholds_to_bytes;
  serialized_length _ := (2 * U8_SERIALIZED_LENGTH)%nat; write_bytes := ActionThresholds_write_bytes |}.
#[export] Instance ActionThresholds_FromBytes : FromBytes ActionThresholds :=
  default_FromBytes ActionThresholds_from_bytes.
#[export] Instance ActionThresholds_Valid : Valid ActionThresholds := fun a =>
  valid (deployment a) /\ valid (key_management a).
#[export] Instance ActionThresholds_Bytesrepr : Bytesrepr ActionThresholds.
Proof.
  struct_codec_by ltac:(unfold ActionThresholds_to_bytes, ActionThresholds_write_bytes,
    ActionThresholds_from_bytes, ActionThresholds_Valid).
Qed.

(** ** Associated keys *)

(** [struct AssociatedKeys(BTreeMap<AccountHash, Weight>)]. *)
Abbreviation AssociatedKeys := (btree_map AccountHash KeyWeight).

Definition AssociatedKeys_new (key : AccountHash) (weight : KeyWeight) : AssociatedKeys :=
  BTreeMap (btree_insert key weight []).
Definition associated_weight (k : AssociatedKeys) (key : AccountHash) : option KeyWeight :=
  btree_get key (entries k).
Definition contains_key (k : AssociatedKeys) (key : AccountHash) : bool :=
  bool_decide (is_Some (associated_weight k key)).
Definition add_key (k : AssociatedKeys) (key : AccountHash) (weight : KeyWeight)
    : res AddKeyFailure AssociatedKeys :=
  match associated_weight k key with
  | None => Ok (BTreeMap (btree_insert key weight (entries k)))
  | Some _ => Err DuplicateKey
  end.
Definition remove_key (k : AssociatedKeys) (key : AccountHash) : res RemoveKeyFailure AssociatedKeys :=
  match associated_weight k key with
  | Some _ => Ok (BTreeMap (btree_remove key (entries k)))
  | None => Err RemoveMissingKey
  end.
Definition update_key (k : AssociatedKeys) (key : AccountHash) (weight : KeyWeight)
    : res UpdateKeyFailure AssociatedKeys :=
  match associated_weight k key with
  | None => Err UpdateMissingKey
  | Some _ => Ok (BTreeMap (btree_insert key weight (entries k)))
  end.

Definition calculate_any_keys_weight (k : AssociatedKeys) (keys : list AccountHash) : KeyWeight :=
  MkInt (fold_left (fun acc (w : KeyWeight) => saturating_add 8 acc (int_val w))
    (omap (associated_weight k) keys) 0).
Definition calculate_keys_weight (k : AssociatedKeys) (authorization_keys : btree_set AccountHash) : KeyWeight :=
  calculate_any_keys_weight k (fst <$> elems authorization_keys).
Definition total_keys_weight (k : AssociatedKeys) : KeyWeight :=
  calculate_any_keys_weight k (fst <$> entries k).
Definition total_keys_weight_excluding (k : AssociatedKeys) (account_hash : AccountHash) : KeyWeight :=
  calculate_any_keys_weight k
    (List.filter (fun element => bool_decide (element <> account_hash)) (fst <$> entries k)).

(** ** Accounts *)

(** [type NamedKeys = BTreeMap<String, Key>]. *)
Abbreviation NamedKeys := (btree_map rstring Key).

(** [BTreeMap::append]: the entries of the second map win. *)
Definition btree_append {K V} `{Ord K} (m1 m2 : btree_map K V) : btree_map K V :=
  BTreeMap (fold_left (fun acc e => btree_insert e.1 e.2 acc) (entries m2) (entries m1)).

Record AccountRecord := MkAccount {
  account_hash : AccountHash;
  account_named_keys : NamedKeys;
  main_purse : URef;
  associated_keys : AssociatedKeys;
  action_thresholds : ActionThresholds;
}.

Definition Account_create (account : AccountHash) (named_keys : NamedKeys) (main_purse : URef) : AccountRecord :=
  MkAccount account named_keys main_purse (AssociatedKeys_new account (MkInt 1))
    (MkActionThresholds (MkInt 1) (MkInt 1)).
Definition Account_named_keys_append (a : AccountRecord) (keys : NamedKeys) : AccountRecord :=
  MkAccount (account_hash a) (btree_append (account_named_keys a) keys) (main_purse a)
    (associated_keys a) (action_thresholds a).
Definition main_purse_add_only (a : AccountRecord) : URef := MkURef (addr (main_purse a)) ADD.
Definition with_associated_keys (a : AccountRecord) (k : AssociatedKeys) : AccountRecord :=
  MkAccount (account_hash a) (account_named_keys a) (main_purse a) k (action_thresholds a).
Definition with_action_thresholds (a : AccountRecord) (t : ActionThresholds) : AccountRecord :=
  MkAccount (account_hash a) (account_named_keys a) (main_purse a) (associated_keys a) t.

Definition add_associated_key (a : AccountRecord) (account_hash : AccountHash) (weight : KeyWeight)
    : res AddKeyFailure AccountRecord :=
  k ← add_key (associated_keys a) account_hash weight; mret (with_associated_keys a k).

Definition can_remove_key (a : AccountRecord) (account_hash : AccountHash) : bool :=
  let total_weight_without := int_val (total_keys_weight_excluding (associated_keys a) account_hash) in
  (int_val (deployment (action_thresholds a)) <=? total_weight_without) &&
  (int_val (key_management (action_thresholds a)) <=? total_weight_without).

Definition can_update_key (a : AccountRecord) (account_hash : AccountHash) (weight : KeyWeight) : bool :=
  let total_weight := total_keys_weight_excluding (associated_keys a) account_hash in
  let new_weight := saturating_add 8 (int_val total_weight) (int_val weight) in
  (int_val (deployment (action_thresholds a)) <=? new_weight) &&
  (int_val (key_management (action_thresholds a)) <=? new_weight).

Definition remove_associated_key (a : AccountRecord) (account_hash : AccountHash)
    : res RemoveKeyFailure AccountRecord :=
  _ ← fail_if (contains_key (associated_keys a) account_hash && negb (can_remove_key a account_hash))
        RemoveThresholdViolation;
  k ← remove_key (associated_keys a) account_hash; mret (with_associated_keys a k).

Definition update_associated_key (a : AccountRecord) (account_hash : AccountHash) (weight : KeyWeight)
    : res UpdateKeyFailure AccountRecord :=
  _ ← match associated_weight (associated_keys a) account_hash with
      | Some current_weight =>
          fail_if ((int_val weight <? int_val current_weight) && negb (can_update_key a account_hash weight))
            UpdateThresholdViolation
      | None => Ok tt
      end;
  k ← update_key (associated_keys a) account_hash weight; mret (with_associated_keys a k).

Definition can_set_threshold (a : AccountRecord) (new_threshold : KeyWeight) : res SetThresholdFailure unit :=
  fail_if (int_val (total_keys_weight (associated_keys a)) <? int_val new_threshold) InsufficientTotalWeight.
Definition set_action_threshold (a : AccountRecord) (action_type : ActionType) (weight : KeyWeight)
    : res SetThresholdFailure AccountRecord :=
  _ ← can_set_threshold a weight;
  t ← set_threshold (action_thresholds a) action_type weight; mret (with_action_thresholds a t).

Definition can_authorize (a : AccountRecord) (authorization_keys : btree_set AccountHash) : bool :=
  negb (bool_decide (elems authorization_keys = [])) &&
  forallb (contains_key (associated_keys a)) (fst <$> elems authorization_keys).
Definition can_deploy_with (a : AccountRecord) (authorization_keys : btree_set AccountHash) : bool :=
  int_val (deployment (action_thresholds a)) <=?
  int_val (calculate_keys_weight (associated_keys a) authorization_keys).
Definition can_manage_keys_with (a : AccountRecord) (authorization_keys : btree_set AccountHash) : bool :=
  int_val (key_management (action_thresholds a)) <=?
  int_val (calculate_keys_weight (associated_keys a) authorization_keys).

(** *** Codec *)

Definition Account_write_bytes (a : AccountRecord) (writer : bytes) : bres bytes :=
  writer ← write_bytes (account_hash a) writer;
  writer ← write_bytes (account_named_keys a) writer;
  writer ← write_bytes (main_purse a) writer;
  writer ← write_bytes (associated_keys a) writer;
  write_bytes (action_thresholds a) writer.
Definition Account_serialized_length (a : AccountRecord) : nat :=
  serialized_length (account_hash a) + serialized_length (account_named_keys a) +
  serialized_length (main_purse a) + serialized_length (associated_keys a) +
  serialized_length (action_thresholds a).
Definition Account_to_bytes (a : AccountRecord) : bres bytes :=
  _ ← allocate_buffer (Account_serialized_length a); Account_write_bytes a [].
Definition Account_from_bytes (bs : bytes) : bres (AccountRecord * bytes) :=
  '(account_hash, rem) ← from_bytes bs;
  '(named_keys, rem) ← from_bytes rem;
  '(main_purse, rem) ← from_bytes rem;
  '(associated_keys, rem) ← from_bytes rem;
  '(action_thresholds, rem) ← from_bytes rem;
  mret (MkAccount account_hash named_keys main_purse associated_keys action_thresholds, rem).

#[export] Instance Account_eq_dec : EqDecision AccountRecord.
Proof. solve_decision. Defined.
#[export] Instance Account_ToBytes : ToBytes AccountRecord := {|
  to_bytes := Account_to_bytes; into_bytes := Account_to_bytes;
  serialized_length := Account_serialized_length; write_bytes := Account_write_bytes |}.
#[export] Instance Account_FromBytes : FromBytes AccountRecord := default_FromBytes Account_from_bytes.
#[export] Instance Account_Valid : Valid AccountRecord := fun a =>
  valid (account_hash a) /\ valid (account_named_keys a) /\ valid (main_purse a) /\
  valid (associated_keys a) /\ valid (action_thresholds a).

Definition account_body (a : AccountRecord) : bres bytes :=
  b0 ← to_bytes (account_hash a);
  b1 ← to_bytes (account_named_keys a);
  b2 ← to_bytes (main_purse a);
  b3 ← to_bytes (associated_keys a);
  b4 ← to_bytes (action_thresholds a);
  mret (b0 ++ b1 ++ b2 ++ b3 ++ b4).

#[export] Instance Account_Bytesrepr : Bytesrepr AccountRecord.
Proof.
  written_codec account_body ltac:(unfold account_body, Account_write_bytes, Account_serialized_length,
    Account_from_bytes, Account_Valid).
Qed.

(** ** Laws of ordered maps used by the key operations *)

Section BTreeFacts.
Context {K V : Type} `{OrdLaws K} `{EqDecision K}.
Implicit Types (m : list (K * V)) (k : K) (v : V).

Lemma btree_get_keys (f : K * V -> bool) m : btree_sorted m ->
  omap (fun k => btree_get k m) (fst <$> List.filter f m) = snd <$> List.filter f m.
Proof.
  intros Hs. assert (forall l : list (K * V), (forall e, e ∈ l -> e ∈ m) ->
    omap (fun k => btree_get k m) (fst <$> l) = snd <$> l) as X.
  { induction l as [|[k v] l IH]; intros Hl; [done|]. cbn.
    rewrite (proj2 (btree_get_elem k v m Hs)) by (apply Hl; left). cbn. f_equal. apply IH.
    intros e He. apply Hl. by right. }
  apply X. intros e He%list_elem_of_In%filter_In. apply list_elem_of_In. tauto.
Qed.

Definition without k m : list (K * V) := List.filter (fun e => bool_decide (e.1 <> k)) m.

Lemma without_ge k m : Forall (fun e => ord_lt k e.1) m -> without k m = m.
Proof.
  induction 1 as [|[k' v'] m Hk Hm IH]; [done|]. cbn in *. fold (without k m).
  case_bool_decide as Hn; [by rewrite IH|]. cbn in Hn. subst k'. unfold ord_lt in Hk.
  by rewrite ord_cmp_refl in Hk.
Qed.

Lemma without_absent k m : btree_sorted m -> btree_get k m = None -> without k m = m.
Proof.
  intros Hs Hg. unfold without. assert (Forall (fun e => e.1 <> k) m) as F.
  { apply Forall_forall. intros [k' v'] He Ek. cbn in Ek. subst k'. apply (btree_get_elem k v' m Hs) in He. congruence. }
  clear Hs Hg. induction F as [|[k' v'] m Hk F IH]; [done|]. cbn in *.
  case_bool_decide; [by rewrite IH|done].
Qed.

Lemma btree_remove_without k m : btree_sorted m -> btree_remove k m = without k m.
Proof.
  induction m as [|[k' v'] m IH]; [done|]. intros [Hk Hs]. cbn.
  destruct (ord_cmp k k') eqn:E; fold (without k m).
  - apply ord_eq in E as <-. rewrite bool_decide_eq_false_2 by (cbn; tauto). symmetry. by apply without_ge.
  - rewrite bool_decide_eq_true_2 by (cbn; intros ->; by rewrite ord_cmp_refl in E).
    rewrite without_ge; [done|]. eapply Forall_impl; [exact Hk|]. cbn. intros e He. by eapply ord_trans.
  - rewrite bool_decide_eq_true_2 by (cbn; intros ->; by rewrite ord_cmp_refl in E). by rewrite IH.
Qed.

(** Inserting a key replaces its entry: up to order, the rest and the new entry. *)
Lemma btree_insert_perm k v m : btree_sorted m -> btree_insert k v m ≡ₚ (k, v) :: without k m.
Proof.
  induction m as [|[k' v'] m IH]; [done|]. intros [Hk Hs]. cbn.
  destruct (ord_cmp k k') eqn:E; fold (without k m).
  - apply ord_eq in E as <-. rewrite bool_decide_eq_false_2 by (cbn; tauto). by rewrite without_ge.
  - rewrite bool_decide_eq_true_2 by (cbn; intros ->; by rewrite ord_cmp_refl in E).
    rewrite without_ge; [done|]. eapply Forall_impl; [exact Hk|]. cbn. intros e He. by eapply ord_trans.
  - rewrite bool_decide_eq_true_2 by (cbn; intros ->; by rewrite ord_cmp_refl in E). rewrite IH by done. by rewrite Permutation_swap.
Qed.

Lemma btree_get_below k m : Forall (fun e => ord_lt k e.1) m -> btree_get k m = None.
Proof.
  destruct 1 as [|[k' v'] m Hk F]; [done|]. cbn in *. unfold ord_lt in Hk. by rewrite Hk.
Qed.

(** A sorted map is its content. *)
Lemma btree_ext m1 m2 : btree_sorted m1 -> btree_sorted m2 ->
  (forall k, btree_get k m1 = btree_get k m2) -> m1 = m2.
Proof.
  revert m2. induction m1 as [|[k v] m1 IH]; intros [|[k2 v2] m2] S1 S2 X; [done|..].
  - specialize (X k2). cbn in X. by rewrite ord_cmp_refl in X.
  - specialize (X k). cbn in X. by rewrite ord_cmp_refl in X.
  - destruct S1 as [H1 S1], S2 as [H2 S2].
    assert (k = k2) as <-.
    { pose proof (X k) as Xk. pose proof (X k2) as Xk2. cbn in Xk, Xk2.
      rewrite ord_cmp_refl in Xk, Xk2. rewrite (ord_antisym k k2) in Xk2.
      destruct (ord_cmp k k2) eqn:E; [by apply ord_eq|done|done]. }
    pose proof (X k) as Xk. cbn in Xk. rewrite ord_cmp_refl in Xk. injection Xk as <-.
    f_equal. apply IH; [done|done|]. intros k'. specialize (X k'). cbn in X.
    destruct (ord_cmp k' k) eqn:E; [| |done].
    + apply ord_eq in E as ->. rewrite (btree_get_below k m1), (btree_get_below k m2) by done. done.
    + assert (forall m, Forall (fun e => ord_lt k e.1) m -> btree_get k' m = None) as B.
      { intros m F. apply btree_get_below. eapply Forall_impl; [exact F|]. cbn. intros e He. by eapply ord_trans. }
      by rewrite !B.
Qed.
End BTreeFacts.

Section Append.
Context {K V : Type} `{OrdLaws K} `{EqDecision K}.
Implicit Types (m : btree_map K V).

Abbreviation insert_all := (fold_left (fun (acc : list (K * V)) (e : K * V) => btree_insert e.1 e.2 acc)).

Lemma insert_all_sorted l : forall acc, btree_sorted acc -> btree_sorted (insert_all l acc).
Proof. induction l as [|e l IH]; intros acc Ha; [done|]. by apply IH, btree_insert_sorted. Qed.

Lemma insert_all_get k l : forall acc, btree_sorted l ->
  btree_get k (insert_all l acc) = match btree_get k l with Some v => Some v | None => btree_get k acc end.
Proof.
  induction l as [|[k' v'] l IH] using rev_ind; intros acc Hs; [done|].
  rewrite fold_left_app. cbn [fold_left fst snd]. rewrite btree_get_insert.
  apply btree_sorted_app in Hs as (Hs & _ & Hl). rewrite <- (btree_insert_last k' v' l).
  2: { eapply Forall_impl; [exact Hl|]. cbn. intros e He. by inversion He. }
  rewrite btree_get_insert, IH by done. by destruct (ord_cmp k k').
Qed.

Lemma btree_append_sorted m1 m2 : btree_sorted (entries m1) -> btree_sorted (entries (btree_append m1 m2)).
Proof. apply insert_all_sorted. Qed.

Lemma btree_append_assoc m1 m2 m3 :
  btree_sorted (entries m1) -> btree_sorted (entries m2) -> btree_sorted (entries m3) ->
  btree_append (btree_append m1 m2) m3 = btree_append m1 (btree_append m2 m3).
Proof.
  intros S1 S2 S3. unfold btree_append. f_equal. cbn [entries].
  apply btree_ext; [by apply insert_all_sorted, insert_all_sorted|by apply insert_all_sorted|].
  intros k. rewrite !insert_all_get by (done || by apply insert_all_sorted). by destruct (btree_get k (entries m3)), (btree_get k (entries m2)).
Qed.
End Append.

(** ** The invariant of an account's keys and thresholds *)

Definition weight_sum (ws : list KeyWeight) : Z := foldr (fun w acc => int_val w + acc) 0 ws.

Definition keys_ok (k : AssociatedKeys) : Prop :=
  btree_sorted (entries k) /\ Forall (fun e => valid e.2) (entries k).

Definition account_ok (a : AccountRecord) : Prop :=
  keys_ok (associated_keys a) /\
  0 <= int_val (deployment (action_thresholds a)) <= int_val (key_management (action_thresholds a)) /\
  int_val (key_management (action_thresholds a)) <= int_val (total_keys_weight (associated_keys a)).

Lemma weight_valid (w : KeyWeight) : valid w <-> 0 <= int_val w <= 255.
Proof. unfold valid, int_Valid, in_int, is_uint. cbn. lia. Qed.

Lemma weight_sum_nonneg ws : Forall valid ws -> 0 <= weight_sum ws.
Proof. unfold weight_sum. induction 1 as [|w ws Hw _ IH]; cbn; [lia|]. apply weight_valid in Hw. lia. Qed.

#[export] Instance weight_sum_perm : Proper (Permutation ==> eq) weight_sum.
Proof. intros l l' P. unfold weight_sum. induction P; cbn; lia. Qed.

(** The saturating sum is the sum, cut off at [u8::MAX]. *)
Lemma saturating_fold ws : forall acc, Forall valid ws -> 0 <= acc <= 255 ->
  fold_left (fun acc (w : KeyWeight) => saturating_add 8 acc (int_val w)) ws acc = (acc + weight_sum ws) `min` 255.
Proof.
  induction ws as [|w ws IH]; intros acc Hw Ha; cbn [fold_left]; [cbn; lia|].
  change (weight_sum (w :: ws)) with (int_val w + weight_sum ws).
  inversion Hw as [|? ? Hv Hws]; subst. pose proof (weight_sum_nonneg ws Hws). apply weight_valid in Hv.
  rewrite IH; [|done|unfold saturating_add, uint_max; cbn; lia].
  unfold saturating_add, uint_max. change (2 ^ 8 - 1) with 255. lia.
Qed.

Lemma calculate_weight_filter (k : AssociatedKeys) (f : AccountHash * KeyWeight -> bool) : keys_ok k ->
  int_val (calculate_any_keys_weight k (fst <$> List.filter f (entries k))) =
  weight_sum (snd <$> List.filter f (entries k)) `min` 255.
Proof.
  intros [Hs Hv]. unfold calculate_any_keys_weight, associated_weight. cbn [int_val].
  rewrite btree_get_keys by done. rewrite saturating_fold; [done| |lia].
  apply Forall_fmap, Forall_forall. intros e He%list_elem_of_In%filter_In. rewrite Forall_forall in Hv.
  apply Hv, list_elem_of_In. tauto.
Qed.

Lemma total_keys_weight_eq k : keys_ok k ->
  int_val (total_keys_weight k) = weight_sum (snd <$> entries k) `min` 255.
Proof.
  intros Hk. pose proof (calculate_weight_filter k (fun _ => true) Hk) as E.
  assert (List.filter (fun _ => true) (entries k) = entries k) as F
    by (clear; induction (entries k) as [|e l IH]; cbn; [done|by rewrite IH]).
  by rewrite F in E.
Qed.

Lemma excluding_weight_eq k h : keys_ok k ->
  int_val (total_keys_weight_excluding k h) = weight_sum (snd <$> without h (entries k)) `min` 255.
Proof.
  intros Hk. unfold total_keys_weight_excluding, without.
  rewrite <- (calculate_weight_filter k) by done. do 2 f_equal.
  generalize (entries k) as l. induction l as [|[h' w] l IH]; [done|]. cbn in *.
  destruct (bool_decide (h' <> h)); cbn; by rewrite IH.
Qed.

Lemma without_sorted k h : keys_ok k -> keys_ok (BTreeMap (without h (entries k))).
Proof.
  intros [Hs Hv]. split; [by apply btree_sorted_filter|]. apply Forall_forall.
  intros e He%list_elem_of_In%filter_In. rewrite Forall_forall in Hv. apply Hv, list_elem_of_In. tauto.
Qed.

Lemma insert_keys_ok k h w : keys_ok k -> valid w -> keys_ok (BTreeMap (btree_insert h w (entries k))).
Proof. intros [Hs Hv] Hw. split; [by apply btree_insert_sorted|by apply btree_insert_Forall]. Qed.

Lemma insert_weight k h w : keys_ok k -> valid w ->
  int_val (total_keys_weight (BTreeMap (btree_insert h w (entries k)))) =
  (int_val w + weight_sum (snd <$> without h (entries k))) `min` 255.
Proof.
  intros Hk Hw. rewrite total_keys_weight_eq by by apply insert_keys_ok. cbn [entries].
  by rewrite (btree_insert_perm h w (entries k)) by apply Hk.
Qed.

(** The weight of a key that is replaced. *)
Lemma split_weight k h w0 : keys_ok k -> associated_weight k h = Some w0 ->
  weight_sum (snd <$> entries k) = int_val w0 + weight_sum (snd <$> without h (entries k)) /\ valid w0.
Proof.
  intros [Hs Hv] Hg. assert ((h, w0) ∈ entries k) as Hin by by apply btree_get_elem.
  split; [|rewrite Forall_forall in Hv; exact (Hv _ Hin)].
  assert (btree_insert h w0 (entries k) = entries k) as E.
  { apply btree_ext; [by apply btree_insert_sorted|done|]. intros h'. rewrite btree_get_insert.
    destruct (ord_cmp h' h) eqn:E; [|done|done]. apply ord_eq in E as ->. by symmetry. }
  rewrite <- E at 1. by rewrite (btree_insert_perm h w0 (entries k)).
Qed.

Lemma without_weight_nonneg k h : keys_ok k -> 0 <= weight_sum (snd <$> without h (entries k)).
Proof.
  intros Hk. apply weight_sum_nonneg, Forall_fmap. apply (without_sorted k h Hk).
Qed.

Lemma add_associated_key_ok a h w a' : account_ok a -> valid w ->
  add_associated_key a h w = Ok a' -> account_ok a'.
Proof.
  intros (Hk & Hd & Ht) Hw. unfold add_associated_key, add_key.
  destruct (associated_weight _ h) eqn:Hg; [done|]. intros [= <-].
  split; [by apply insert_keys_ok|split; [done|]]. cbn [associated_keys with_associated_keys action_thresholds].
  rewrite insert_weight by done. rewrite total_keys_weight_eq in Ht by done.
  rewrite without_absent by (apply Hk || done). apply weight_valid in Hw. lia.
Qed.

Lemma remove_associated_key_ok a h a' : account_ok a ->
  remove_associated_key a h = Ok a' -> account_ok a'.
Proof.
  intros (Hk & Hd & Ht). unfold remove_associated_key, remove_key, contains_key.
  intros (u & Hf%fail_if_Ok & E)%bind_Ok.
  destruct (associated_weight _ h) eqn:Hg; [|done]. injection E as <-.
  rewrite bool_decide_eq_true_2 in Hf by done. cbn in Hf. apply negb_false_iff in Hf.
  unfold can_remove_key in Hf. rewrite excluding_weight_eq in Hf by done.
  assert (keys_ok (BTreeMap (btree_remove h (entries (associated_keys a))))) as Hk'.
  { rewrite btree_remove_without by apply Hk. by apply without_sorted. }
  split; [done|split; [done|]]. cbn [associated_keys with_associated_keys action_thresholds].
  rewrite total_keys_weight_eq by done. cbn [entries]. rewrite btree_remove_without by apply Hk. lia.
Qed.

Lemma update_associated_key_ok a h w a' : account_ok a -> valid w ->
  update_associated_key a h w = Ok a' -> account_ok a'.
Proof.
  intros (Hk & Hd & Ht) Hw. unfold update_associated_key, update_key.
  destruct (associated_weight _ h) as [w0|] eqn:Hg; [|done].
  intros (u & Hf%fail_if_Ok & [= <-])%bind_Ok.
  destruct (split_weight _ _ _ Hk Hg) as [Es Hw0]. pose proof (without_weight_nonneg _ h Hk) as Hn.
  apply weight_valid in Hw as Hw', Hw0.
  split; [by apply insert_keys_ok|split; [done|]]. cbn [associated_keys with_associated_keys action_thresholds].
  rewrite insert_weight by done. rewrite total_keys_weight_eq, Es in Ht by done.
  unfold can_update_key in Hf. rewrite excluding_weight_eq in Hf by done.
  unfold saturating_add, uint_max in Hf. change (2 ^ 8 - 1) with 255 in Hf. lia.
Qed.

Lemma set_action_threshold_ok a t w a' : account_ok a -> valid w ->
  set_action_threshold a t w = Ok a' -> account_ok a'.
Proof.
  intros (Hk & Hd & Ht) Hw. unfold set_action_threshold, can_set_threshold.
  intros (u & Hf%fail_if_Ok & (th & Hs & [= <-])%bind_Ok)%bind_Ok. apply weight_valid in Hw.
  split; [done|]. cbn [associated_keys with_action_thresholds action_thresholds].
  destruct t; cbn in Hs; unfold set_deployment_threshold, set_key_management_threshold in Hs;
    case_match; try done; injection Hs as <-; cbn [deployment key_management]; lia.
Qed.

(** ** What the key operations guarantee *)

(** The key-management calls of the host interface; a call that fails leaves the account alone. *)
Inductive KeyOp :=
| AddKey (account_hash : AccountHash) (weight : KeyWeight)
| RemoveKey (account_hash : AccountHash)
| UpdateKey (account_hash : AccountHash) (weight : KeyWeight)
| SetThreshold (action_type : ActionType) (weight : KeyWeight).

Definition op_valid (o : KeyOp) : Prop :=
  match o with AddKey _ w | UpdateKey _ w | SetThreshold _ w => valid w | RemoveKey _ => True end.

Definition or_unchanged {E} (a : AccountRecord) (r : res E AccountRecord) : AccountRecord :=
  match r with Ok a' => a' | _ => a end.

Definition apply_key_op (a : AccountRecord) (o : KeyOp) : AccountRecord :=
  match o with
  | AddKey h w => or_unchanged a (add_associated_key a h w)
  | RemoveKey h => or_unchanged a (remove_associated_key a h)
  | UpdateKey h w => or_unchanged a (update_associated_key a h w)
  | SetThreshold t w => or_unchanged a (set_action_threshold a t w)
  end.

Lemma apply_key_op_ok a o : account_ok a -> op_valid o -> account_ok (apply_key_op a o).
Proof.
  intros Ha Ho. destruct o; cbn in *; match goal with |- context [or_unchanged _ ?r] => destruct r eqn:E end; try done;
    eauto using add_associated_key_ok, remove_associated_key_ok, update_associated_key_ok, set_action_threshold_ok.
Qed.

Lemma apply_key_ops_ok ops : forall a, account_ok a -> Forall op_valid ops ->
  account_ok (fold_left apply_key_op ops a).
Proof.
  induction ops as [|o ops IH]; intros a Ha Ho; [done|]. inversion Ho; subst. cbn.
  apply IH; [by apply apply_key_op_ok|done].
Qed.

Lemma Account_create_ok h nk purse : account_ok (Account_create h nk purse).
Proof.
  assert (keys_ok (AssociatedKeys_new h (MkInt 1))) as Hk.
  { split; [done|]. repeat constructor; cbn; done. }
  split; [done|]. cbn [Account_create associated_keys action_thresholds deployment key_management int_val].
  rewrite total_keys_weight_eq by done. cbn. lia.
Qed.

(** The set of all associated keys of an account. *)
Definition all_keys (a : AccountRecord) : btree_set AccountHash :=
  BTreeSet ((fun e => (e.1, tt)) <$> entries (associated_keys a)).

Lemma all_keys_weight a :
  calculate_keys_weight (associated_keys a) (all_keys a) = total_keys_weight (associated_keys a).
Proof.
  unfold calculate_keys_weight, total_keys_weight, all_keys. cbn [elems]. f_equal.
  rewrite <- list_fmap_compose. by apply list_fmap_ext.
Qed.


Module AccountSample.
Definition key (n : Z) : AccountHash := MkAccountHash (le_split 32 n).
Definition purse : URef := MkURef (MkArray (le_split 32 7)) READ_ADD_WRITE.
Definition ops : list KeyOp :=
  [AddKey (key 2) (MkInt 3); SetThreshold KeyManagement (MkInt 4); SetThreshold Deployment (MkInt 2);
   RemoveKey (key 2); RemoveKey (key 1); UpdateKey (key 2) (MkInt 1); UpdateKey (key 1) (MkInt 250)].

End AccountSample.
