(* ===== verification/Contracts.v ===== *)
(** * Contracts: [types/src/contracts.rs], with the [ContractWasm] of
    [contract_wasm.rs], [semver.rs] and [protocol_version.rs].

    Contract packages with their versions and groups, entry points, contracts,
    and their codecs.  The newtypes of a [HashAddr] are its type. *)

From S2P Require Import Prelude Bytesrepr Hashing KeyTypes Values Account.
Local Open Scope Z_scope.

(** ** Versions *)

Record SemVer := MkSemVer { major : u32; minor : u32; patch : u32 }.
(** [struct ProtocolVersion(SemVer)]. *)
Abbreviation ProtocolVersion := SemVer.

Definition SemVer_to_bytes (v : SemVer) : bres bytes :=
  b0 ← to_bytes (major v); b1 ← to_bytes (minor v); b2 ← to_bytes (patch v); mret (b0 ++ b1 ++ b2).
Definition SemVer_serialized_length (v : SemVer) : nat := 3 * U32_SERIALIZED_LENGTH.
Definition SemVer_from_bytes (bs : bytes) : bres (SemVer * bytes) :=
  '(major, rem) ← from_bytes bs;
  '(minor, rem) ← from_bytes rem;
  '(patch, rem) ← from_bytes rem;
  mret (MkSemVer major minor patch, rem).

#[export] Instance SemVer_eq_dec : EqDecision SemVer.
Proof. solve_decision. Defined.
#[export] Instance SemVer_ToBytes : ToBytes SemVer := default_ToBytes SemVer_to_bytes SemVer_serialized_length.
#[export] Instance SemVer_FromBytes : FromBytes SemVer := default_FromBytes SemVer_from_bytes.
#[export] Instance SemVer_Valid : Valid SemVer := fun v => valid (major v) /\ valid (minor v) /\ valid (patch v).
#[export] Instance SemVer_Bytesrepr : Bytesrepr SemVer.
Proof. struct_codec SemVer_to_bytes SemVer_serialized_length SemVer_from_bytes SemVer_Valid. Qed.

(** ** Groups and versions *)

(** [struct Group(String)]. *)
Record Group := MkGroup { group_label : rstring }.

#[export] Instance Group_eq_dec : EqDecision Group.
Proof. solve_decision. Defined.
#[export] Instance Group_ord : Ord Group := fun a b => ord_cmp (group_label a) (group_label b).
#[export] Instance Group_ord_laws : OrdLaws Group.
Proof. apply (ord_laws_via group_label). intros [x] [y]. cbn. congruence. Qed.

Definition Group_to_bytes (g : Group) : bres bytes := to_bytes (group_label g).
Definition Group_serialized_length (g : Group) : nat := serialized_length (group_label g).
Definition Group_write_bytes (g : Group) (writer : bytes) : bres bytes := write_bytes (group_label g) writer.
Definition Group_from_bytes (bs : bytes) : bres (Group * bytes) :=
  '(label, bs) ← from_bytes bs; mret (MkGroup label, bs).

#[export] Instance Group_ToBytes : ToBytes Group := {|
  to_bytes := Group_to_bytes; into_bytes := Group_to_bytes;
  serialized_length := Group_serialized_length; write_bytes := Group_write_bytes |}.
#[export] Instance Group_FromBytes : FromBytes Group := default_FromBytes Group_from_bytes.
#[export] Instance Group_Valid : Valid Group := fun g => valid (group_label g).
#[export] Instance Group_Bytesrepr : Bytesrepr Group.
Proof.
  struct_codec_by ltac:(unfold Group_to_bytes, Group_serialized_length, Group_write_bytes, Group_from_bytes, Group_Valid).
Qed.

(** [struct ContractVersionKey(ProtocolVersionMajor, ContractVersion)]. *)
Record ContractVersionKey := MkContractVersionKey { protocol_version_major : u32; contract_version : u32 }.

#[export] Instance ContractVersionKey_eq_dec : EqDecision ContractVersionKey.
Proof. solve_decision. Defined.
#[export] Instance ContractVersionKey_ord : Ord ContractVersionKey := fun a b =>
  ord_cmp (u32_val (protocol_version_major a), u32_val (contract_version a))
    (u32_val (protocol_version_major b), u32_val (contract_version b)).
#[export] Instance ContractVersionKey_ord_laws : OrdLaws ContractVersionKey.
Proof.
  apply (ord_laws_via (fun k => (u32_val (protocol_version_major k), u32_val (contract_version k)))).
  intros [[a] [b]] [[a'] [b']]. cbn. congruence.
Qed.

Definition ContractVersionKey_to_bytes (k : ContractVersionKey) : bres bytes :=
  b0 ← to_bytes (protocol_version_major k); b1 ← to_bytes (contract_version k); mret (b0 ++ b1).
Definition CONTRACT_VERSION_KEY_SERIALIZED_LENGTH : nat := U32_SERIALIZED_LENGTH + U32_SERIALIZED_LENGTH.
Definition ContractVersionKey_write_bytes (k : ContractVersionKey) (writer : bytes) : bres bytes :=
  writer ← write_bytes (protocol_version_major k) writer; write_bytes (contract_version k) writer.
Definition ContractVersionKey_from_bytes (bs : bytes) : bres (ContractVersionKey * bytes) :=
  '(major, rem) ← from_bytes bs;
  '(contract, rem) ← from_bytes rem;
  mret (MkContractVersionKey major contract, rem).

#[export] Instance ContractVersionKey_ToBytes : ToBytes ContractVersionKey := {|
  to_bytes := ContractVersionKey_to_bytes; into_bytes := ContractVersionKey_to_bytes;
  serialized_length _ := CONTRACT_VERSION_KEY_SERIALIZED_LENGTH; write_bytes := ContractVersionKey_write_bytes |}.
#[export] Instance ContractVersionKey_FromBytes : FromBytes ContractVersionKey :=
  default_FromBytes ContractVersionKey_from_bytes.
#[export] Instance ContractVersionKey_Valid : Valid ContractVersionKey := fun k =>
  valid (protocol_version_major k) /\ valid (contract_version k).
#[export] Instance ContractVersionKey_Bytesrepr : Bytesrepr ContractVersionKey.
Proof.
  struct_codec_by ltac:(unfold ContractVersionKey_to_bytes, ContractVersionKey_write_bytes,
    ContractVersionKey_from_bytes, ContractVersionKey_Valid).
Qed.

(** ** The lock status *)

Inductive ContractPackageStatus := Locked | Unlocked.

#[export] Instance ContractPackageStatus_eq_dec : EqDecision ContractPackageStatus.
Proof. solve_decision. Defined.

Definition ContractPackageStatus_new (is_locked : bool) : ContractPackageStatus :=
  if is_locked then Locked else Unlocked.
Definition status_flag (s : ContractPackageStatus) : bool :=
  match s with Locked => true | Unlocked => false end.
Definition ContractPackageStatus_serialized_length (s : ContractPackageStatus) : nat :=
  serialized_length (status_flag s).
Definition ContractPackageStatus_to_bytes (s : ContractPackageStatus) : bres bytes :=
  _ ← allocate_buffer (ContractPackageStatus_serialized_length s);
  b ← to_bytes (status_flag s); mret b.
Definition ContractPackageStatus_write_bytes (s : ContractPackageStatus) (writer : bytes) : bres bytes :=
  Ok (writer ++ [match s with Locked => Byte.x01 | Unlocked => Byte.x00 end]).
Definition ContractPackageStatus_from_bytes (bs : bytes) : bres (ContractPackageStatus * bytes) :=
  '(val, bs) ← from_bytes bs;
  mret (ContractPackageStatus_new val, bs).

#[export] Instance ContractPackageStatus_ToBytes : ToBytes ContractPackageStatus := {|
  to_bytes := ContractPackageStatus_to_bytes; into_bytes := ContractPackageStatus_to_bytes;
  serialized_length := ContractPackageStatus_serialized_length; write_bytes := ContractPackageStatus_write_bytes |}.
#[export] Instance ContractPackageStatus_FromBytes : FromBytes ContractPackageStatus :=
  default_FromBytes ContractPackageStatus_from_bytes.
#[export] Instance ContractPackageStatus_Valid : Valid ContractPackageStatus := fun _ => True.
#[export] Instance ContractPackageStatus_Bytesrepr : Bytesrepr ContractPackageStatus.
Proof.
  apply struct_bytesrepr; unfold ContractPackageStatus_to_bytes, ContractPackageStatus_from_bytes.
  - intros s bs rest _ Ht. codec_inv. rewrite (bind_eq _ _ _ (bytesrepr_roundtrip (status_flag s) bs rest I H0)).
    by destruct s.
  - intros s bs _ Ht. codec_inv. by destruct s; apply Ok_inj in H0 as <-.
  - intros s bs writer _ Ht. codec_inv. by destruct s; apply Ok_inj in H0 as <-.
  - intros [] _ _; by eexists.
  - codec_sound.
  - codec_extend.
Qed.

(** ** Contract packages *)

#[export] Instance array_ord N : Ord (array N) := fun a b => ord_cmp (array_bytes a) (array_bytes b).
#[export] Instance array_ord_laws N : OrdLaws (array N).
Proof. apply (ord_laws_via array_bytes). intros [x] [y]. cbn. congruence. Qed.
#[export] Instance URef_ord : Ord URef := fun a b =>
  ord_cmp (addr a, bits (access_rights a)) (addr b, bits (access_rights b)).
#[export] Instance URef_ord_laws : OrdLaws URef.
Proof.
  apply (ord_laws_via (fun u => (addr u, bits (access_rights u)))). intros [a [x]] [b [y]]. cbn. congruence.
Qed.

Abbreviation ContractHash := HashAddr.
Abbreviation ContractVersions := (btree_map ContractVersionKey ContractHash).
Abbreviation DisabledVersions := (btree_set ContractVersionKey).
Abbreviation Groups := (btree_map Group (btree_set URef)).

Record ContractPackage := MkContractPackage {
  access_key : URef;
  versions : ContractVersions;
  disabled_versions : DisabledVersions;
  groups : Groups;
  lock_status : ContractPackageStatus;
}.

Inductive ContractsError := ContractNotFound.

Definition set_contains {V} `{Ord V} (s : btree_set V) (v : V) : bool := bool_decide (is_Some (btree_get v (elems s))).
(** [BTreeSet::extend]. *)
Definition set_extend {V} `{Ord V} (s : btree_set V) (l : btree_set V) : btree_set V :=
  BTreeSet (fold_left (fun acc e => btree_insert e.1 tt acc) (elems l) (elems s)).

Definition with_versions (p : ContractPackage) (v : ContractVersions) : ContractPackage :=
  MkContractPackage (access_key p) v (disabled_versions p) (groups p) (lock_status p).
Definition with_disabled_versions (p : ContractPackage) (d : DisabledVersions) : ContractPackage :=
  MkContractPackage (access_key p) (versions p) d (groups p) (lock_status p).
Definition with_groups (p : ContractPackage) (g : Groups) : ContractPackage :=
  MkContractPackage (access_key p) (versions p) (disabled_versions p) g (lock_status p).

Definition add_group (p : ContractPackage) (group : Group) (urefs : btree_set URef) : ContractPackage :=
  let v := default (BTreeSet []) (btree_get group (entries (groups p))) in
  with_groups p (BTreeMap (btree_insert group (set_extend v urefs) (entries (groups p)))).
Definition remove_group (p : ContractPackage) (group : Group) : bool * ContractPackage :=
  (bool_decide (is_Some (btree_get group (entries (groups p)))),
   with_groups p (BTreeMap (btree_remove group (entries (groups p))))).

Definition is_version_enabled (p : ContractPackage) (k : ContractVersionKey) : bool :=
  negb (set_contains (disabled_versions p) k) && bool_decide (is_Some (btree_get k (entries (versions p)))).
Definition lookup_contract_hash (p : ContractPackage) (k : ContractVersionKey) : option ContractHash :=
  if negb (is_version_enabled p k) then None else btree_get k (entries (versions p)).

Definition find_contract_version_key_by_hash (p : ContractPackage) (contract_hash : ContractHash)
    : option ContractVersionKey :=
  head (omap (fun '(k, v) => if decide (v = contract_hash) then Some k else None) (entries (versions p))).
Definition is_contract_enabled (p : ContractPackage) (contract_hash : ContractHash) : bool :=
  match find_contract_version_key_by_hash p contract_hash with
  | Some version_key => negb (set_contains (disabled_versions p) version_key)
  | None => false
  end.

(** [current_version + 1]; the sum overflows as [+] does. *)
Definition next_contract_version_for {E} (p : ContractPackage) (major : u32) : res E u32 :=
  let current_version := default 0 (head (omap (fun '(k, _) =>
    if decide (protocol_version_major k = major) then Some (u32_val (contract_version k)) else None)
    (rev (entries (versions p))))) in
  if uint_max 32 <? current_version + 1 then Panic else Ok (U32 (current_version + 1)).
Definition insert_contract_version {E} (p : ContractPackage) (major : u32) (contract_hash : ContractHash)
    : res E (ContractVersionKey * ContractPackage) :=
  contract_version ← next_contract_version_for p major;
  let key := MkContractVersionKey major contract_version in
  Ok (key, with_versions p (BTreeMap (btree_insert key contract_hash (entries (versions p))))).
Definition disable_contract_version (p : ContractPackage) (contract_hash : ContractHash)
    : res ContractsError ContractPackage :=
  contract_version_key ← ok_or
    (head (omap (fun '(k, v) => if decide (v = contract_hash) then Some k else None) (entries (versions p))))
    ContractNotFound;
  if negb (set_contains (disabled_versions p) contract_version_key) then
    Ok (with_disabled_versions p (BTreeSet (btree_insert contract_version_key tt (elems (disabled_versions p)))))
  else Ok p.

Definition enabled_versions (p : ContractPackage) : ContractVersions :=
  BTreeMap (fold_left (fun ret version =>
    if negb (is_version_enabled p version.1) then ret else btree_insert version.1 version.2 ret)
    (entries (versions p)) []).
Definition current_contract_version (p : ContractPackage) : option ContractVersionKey :=
  last (entries (enabled_versions p)).*1.
Definition current_contract_hash (p : ContractPackage) : option ContractHash :=
  last (entries (enabled_versions p)).*2.
Definition is_locked (p : ContractPackage) : bool :=
  match lock_status p with Unlocked => false | Locked => true end.

Definition ContractPackage_write_bytes (p : ContractPackage) (writer : bytes) : bres bytes :=
  writer ← write_bytes (access_key p) writer;
  writer ← write_bytes (versions p) writer;
  writer ← write_bytes (disabled_versions p) writer;
  writer ← write_bytes (groups p) writer;
  write_bytes (lock_status p) writer.
Definition ContractPackage_serialized_length (p : ContractPackage) : nat :=
  serialized_length (access_key p) + serialized_length (versions p) + serialized_length (disabled_versions p) +
  serialized_length (groups p) + serialized_length (lock_status p).
Definition ContractPackage_to_bytes (p : ContractPackage) : bres bytes :=
  _ ← allocate_buffer (ContractPackage_serialized_length p); ContractPackage_write_bytes p [].
Definition ContractPackage_from_bytes (bs : bytes) : bres (ContractPackage * bytes) :=
  '(access_key, bs) ← from_bytes bs;
  '(versions, bs) ← from_bytes bs;
  '(disabled_versions, bs) ← from_bytes bs;
  '(groups, bs) ← from_bytes bs;
  '(lock_status, bs) ← from_bytes bs;
  mret (MkContractPackage access_key versions disabled_versions groups lock_status, bs).

#[export] Instance ContractPackage_eq_dec : EqDecision ContractPackage.
Proof. solve_decision. Defined.
#[export] Instance ContractPackage_ToBytes : ToBytes ContractPackage := {|
  to_bytes := ContractPackage_to_bytes; into_bytes := ContractPackage_to_bytes;
  serialized_length := ContractPackage_serialized_length; write_bytes := ContractPackage_write_bytes |}.
#[export] Instance ContractPackage_FromBytes : FromBytes ContractPackage := default_FromBytes ContractPackage_from_bytes.
#[export] Instance ContractPackage_Valid : Valid ContractPackage := fun p =>
  valid (access_key p) /\ valid (versions p) /\ valid (disabled_versions p) /\ valid (groups p) /\
  valid (lock_status p).

Definition package_body (p : ContractPackage) : bres bytes :=
  b0 ← to_bytes (access_key p);
  b1 ← to_bytes (versions p);
  b2 ← to_bytes (disabled_versions p);
  b3 ← to_bytes (groups p);
  b4 ← to_bytes (lock_status p);
  mret (b0 ++ b1 ++ b2 ++ b3 ++ b4).

#[export] Instance ContractPackage_Bytesrepr : Bytesrepr ContractPackage.
Proof.
  written_codec package_body ltac:(unfold package_body, ContractPackage_write_bytes,
    ContractPackage_serialized_length, ContractPackage_from_bytes, ContractPackage_Valid).
Qed.

(** *** Serialising a package reports errors, it does not panic *)

Definition writes_safely (A : Type) `{ToBytes A} : Prop := forall (a : A) writer, safe (write_bytes a writer).

Lemma map_writes_safely {K V} `{ToBytes K} `{ToBytes V} :
  writes_safely K -> writes_safely V -> writes_safely (btree_map K V).
Proof.
  intros Hk Hv m writer. apply safe_bind; [unfold length_32; by destruct (_ <=? _)|]. intros len _.
  generalize (writer ++ le_split U32_SERIALIZED_LENGTH len). induction (entries m) as [|[k v] l IH]; intros w; cbn; [done|].
  apply safe_bind; [apply Hk|]. intros w1 _. apply safe_bind; [apply Hv|]. intros w2 _. apply IH.
Qed.

Lemma set_writes_safely {K} `{ToBytes K} : writes_safely K -> writes_safely (btree_set K).
Proof.
  intros Hk m writer. apply safe_bind; [unfold length_32; by destruct (_ <=? _)|]. intros len _.
  generalize (writer ++ le_split U32_SERIALIZED_LENGTH len). induction (elems m) as [|[k v] l IH]; intros w; cbn; [done|].
  apply safe_bind; [apply Hk|]. intros w1 _. apply IH.
Qed.

Lemma ContractPackage_to_bytes_safe p : safe (ContractPackage_to_bytes p).
Proof.
  assert (writes_safely URef) as Hu by done. assert (writes_safely ContractVersionKey) as Hk by done.
  assert (writes_safely (array KEY_HASH_LENGTH)) as Ha by done.
  assert (writes_safely Group) as Hg.
  { intros [g] w. change (safe (write_u8_slice (as_bytes g) w)). apply safe_bind; [|done].
    unfold length_32. by destruct (_ <=? _). }
  apply safe_bind; [apply safe_fail_if|]. intros _ _.
  apply safe_bind; [apply Hu|]. intros w _.
  apply safe_bind; [by apply map_writes_safely|]. intros w1 _.
  apply safe_bind; [by apply set_writes_safely|]. intros w2 _.
  apply safe_bind; [apply map_writes_safely; [done|by apply set_writes_safely]|]. by intros w3 _.
Qed.

(** ** Entry points *)

Inductive EntryPointType := EntrySession | EntryContract.

#[export] Instance EntryPointType_eq_dec : EqDecision EntryPointType.
Proof. solve_decision. Defined.

Definition EntryPointType_u8 (t : EntryPointType) : Byte.byte :=
  match t with EntrySession => Byte.x00 | EntryContract => Byte.x01 end.
Definition EntryPointType_from_bytes (bs : bytes) : bres (EntryPointType * bytes) :=
  '(value, bs) ← u8_from_bytes bs;
  if Byte.eqb value Byte.x00 then Ok (EntrySession, bs)
  else if Byte.eqb value Byte.x01 then Ok (EntryContract, bs)
  else Err Formatting.

#[export] Instance EntryPointType_ToBytes : ToBytes EntryPointType := {|
  to_bytes t := to_bytes (EntryPointType_u8 t); into_bytes t := to_bytes (EntryPointType_u8 t);
  serialized_length _ := 1%nat; write_bytes t writer := Ok (writer ++ [EntryPointType_u8 t]) |}.
#[export] Instance EntryPointType_FromBytes : FromBytes EntryPointType := default_FromBytes EntryPointType_from_bytes.
#[export] Instance EntryPointType_Valid : Valid EntryPointType := fun _ => True.
#[export] Instance EntryPointType_Bytesrepr : Bytesrepr EntryPointType.
Proof.
  apply struct_bytesrepr; unfold EntryPointType_from_bytes.
  - intros [] bs rest _ [= <-]; done.
  - by intros t bs _ [= <-].
  - by intros t bs writer _ [= <-].
  - by eexists.
  - intros bs t rest Hr. apply bind_Ok in Hr as ([tag rem] & ->%u8_from_bytes_Ok & Hr). split; [done|].
    repeat case_match; try done; injection Hr as <- <-; by exists [tag].
  - intros bs t rest more Hr. apply bind_Ok in Hr as ([tag rem] & Hu & Hr). extend_step.
    repeat case_match; try done; by injection Hr as <- <-.
Qed.

Inductive EntryPointAccess :=
| AccessPublic
| AccessGroups (groups : list Group).

#[export] Instance EntryPointAccess_eq_dec : EqDecision EntryPointAccess.
Proof. solve_decision. Defined.

Definition EntryPointAccess_serialized_length (a : EntryPointAccess) : nat :=
  match a with AccessPublic => 1 | AccessGroups groups => 1 + serialized_length groups end.
Definition EntryPointAccess_to_bytes (a : EntryPointAccess) : bres bytes :=
  _ ← allocate_buffer (EntryPointAccess_serialized_length a);
  match a with
  | AccessPublic => Ok [Byte.x01]
  | AccessGroups groups => b ← to_bytes groups; mret (Byte.x02 :: b)
  end.
Definition EntryPointAccess_write_bytes (a : EntryPointAccess) (writer : bytes) : bres bytes :=
  match a with
  | AccessPublic => Ok (writer ++ [Byte.x01])
  | AccessGroups groups => write_bytes groups (writer ++ [Byte.x02])
  end.
Definition EntryPointAccess_from_bytes (bs : bytes) : bres (EntryPointAccess * bytes) :=
  '(tag, bs) ← u8_from_bytes bs;
  if Byte.eqb tag Byte.x01 then Ok (AccessPublic, bs)
  else if Byte.eqb tag Byte.x02 then '(groups, bs) ← from_bytes bs; Ok (AccessGroups groups, bs)
  else Err Formatting.

#[export] Instance EntryPointAccess_ToBytes : ToBytes EntryPointAccess := {|
  to_bytes := EntryPointAccess_to_bytes; into_bytes := EntryPointAccess_to_bytes;
  serialized_length := EntryPointAccess_serialized_length; write_bytes := EntryPointAccess_write_bytes |}.
#[export] Instance EntryPointAccess_FromBytes : FromBytes EntryPointAccess :=
  default_FromBytes EntryPointAccess_from_bytes.
#[export] Instance EntryPointAccess_Valid : Valid EntryPointAccess := fun a =>
  match a with AccessPublic => True | AccessGroups groups => valid groups end.
#[export] Instance EntryPointAccess_Bytesrepr : Bytesrepr EntryPointAccess.
Proof.
  apply struct_bytesrepr; unfold EntryPointAccess_to_bytes, EntryPointAccess_from_bytes.
  - intros [|g] bs rest Hv Ht; codec_inv; [done|]. cbn [app].
    rewrite (bind_eq _ _ _ (eq_refl : u8_from_bytes (Byte.x02 :: _) = Ok (Byte.x02, _))). cbn beta iota.
    cbn [Byte.eqb]. by rewrite (bind_eq _ _ _ (bytesrepr_roundtrip g _ rest Hv H0)).
  - intros [|g] bs Hv Ht; codec_inv; [done|]. cbn [length EntryPointAccess_serialized_length].
    by rewrite (bytesrepr_length g _ Hv H0).
  - intros [|g] bs writer Hv Ht; codec_inv; [done|]. cbn [EntryPointAccess_write_bytes].
    rewrite (bytesrepr_write g _ _ Hv H0). by rewrite <- app_assoc.
  - intros [|g] Hv Hs; rewrite allocate_buffer_fits by done; [by eexists|].
    cbn [EntryPointAccess_serialized_length] in Hs.
    destruct (bytesrepr_total g) as (b & Hb & _); [done|lia|]. cbn [mbind res_bind]. rewrite Hb. by eexists.
  - intros bs a rest Hr. apply bind_Ok in Hr as ([tag rem] & ->%u8_from_bytes_Ok & Hr).
    destruct (Byte.eqb tag Byte.x01); [injection Hr as <- <-; split; [done|by exists [tag]]|].
    destruct (Byte.eqb tag Byte.x02); [|done]. codec_inv.
    apply bytesrepr_sound in H as (? & u & ->). split; [done|by exists (tag :: u)].
  - intros bs a rest more Hr. apply bind_Ok in Hr as ([tag rem] & Hu & Hr). extend_step.
    destruct (Byte.eqb tag Byte.x01); [by injection Hr as <- <-|].
    destruct (Byte.eqb tag Byte.x02); [|done]. codec_inv. by extend_step.
Qed.

Record ParameterRecord := MkParameter { parameter_name : rstring; parameter_type : CLType }.

#[export] Instance Parameter_eq_dec : EqDecision ParameterRecord.
Proof. solve_decision. Defined.

Definition Parameter_to_bytes (p : ParameterRecord) : bres bytes :=
  result ← to_bytes (parameter_name p); write_bytes (parameter_type p) result.
Definition Parameter_serialized_length (p : ParameterRecord) : nat :=
  serialized_length (parameter_name p) + serialized_length (parameter_type p).
Definition Parameter_write_bytes (p : ParameterRecord) (writer : bytes) : bres bytes :=
  writer ← write_bytes (parameter_name p) writer; write_bytes (parameter_type p) writer.
Definition Parameter_from_bytes (bs : bytes) : bres (ParameterRecord * bytes) :=
  '(name, bs) ← from_bytes bs;
  '(cl_type, bs) ← from_bytes bs;
  mret (MkParameter name cl_type, bs).

#[export] Instance Parameter_ToBytes : ToBytes ParameterRecord := {|
  to_bytes := Parameter_to_bytes; into_bytes := Parameter_to_bytes;
  serialized_length := Parameter_serialized_length; write_bytes := Parameter_write_bytes |}.
#[export] Instance Parameter_FromBytes : FromBytes ParameterRecord := default_FromBytes Parameter_from_bytes.
#[export] Instance Parameter_Valid : Valid ParameterRecord := fun p => valid (parameter_name p) /\ valid (parameter_type p).

(** Writing a type appends what [to_bytes] gives. *)
Lemma write_type (c : CLType) writer : write_bytes c writer = b ← to_bytes c; mret (writer ++ b).
Proof.
  change (append_bytes c writer = b ← append_bytes c []; mret (writer ++ b)). by rewrite !append_bytes_eq.
Qed.

#[export] Instance Parameter_Bytesrepr : Bytesrepr ParameterRecord.
Proof.
  struct_codec_by ltac:(unfold Parameter_to_bytes, Parameter_serialized_length, Parameter_write_bytes,
    Parameter_from_bytes, Parameter_Valid; try setoid_rewrite write_type).
Qed.

Record EntryPoint := MkEntryPoint {
  entry_name : rstring;
  entry_args : list ParameterRecord;
  entry_ret : CLType;
  entry_access : EntryPointAccess;
  entry_point_type : EntryPointType;
}.

#[export] Instance EntryPoint_eq_dec : EqDecision EntryPoint.
Proof. solve_decision. Defined.

(** The string [call]. *)
Definition DEFAULT_ENTRY_POINT_NAME : rstring := RString [Byte.x63; Byte.x61; Byte.x6c; Byte.x6c].
(** [EntryPoint::default]. *)
Definition EntryPoint_default : EntryPoint :=
  MkEntryPoint DEFAULT_ENTRY_POINT_NAME [] CLType.Unit AccessPublic EntrySession.

Definition EntryPoint_serialized_length (e : EntryPoint) : nat :=
  serialized_length (entry_name e) + serialized_length (entry_args e) + serialized_length (entry_ret e) +
  serialized_length (entry_access e) + serialized_length (entry_point_type e).
Definition EntryPoint_to_bytes (e : EntryPoint) : bres bytes :=
  _ ← allocate_buffer (EntryPoint_serialized_length e);
  b0 ← to_bytes (entry_name e);
  b1 ← to_bytes (entry_args e);
  result ← write_bytes (entry_ret e) (b0 ++ b1);
  b3 ← to_bytes (entry_access e);
  b4 ← to_bytes (entry_point_type e);
  mret (result ++ b3 ++ b4).
Definition EntryPoint_write_bytes (e : EntryPoint) (writer : bytes) : bres bytes :=
  writer ← write_bytes (entry_name e) writer;
  writer ← write_bytes (entry_args e) writer;
  writer ← write_bytes (entry_ret e) writer;
  writer ← write_bytes (entry_access e) writer;
  write_bytes (entry_point_type e) writer.
Definition EntryPoint_from_bytes (bs : bytes) : bres (EntryPoint * bytes) :=
  '(name, bs) ← from_bytes bs;
  '(args, bs) ← from_bytes bs;
  '(ret, bs) ← from_bytes bs;
  '(access, bs) ← from_bytes bs;
  '(entry_point_type, bs) ← from_bytes bs;
  mret (MkEntryPoint name args ret access entry_point_type, bs).

#[export] Instance EntryPoint_ToBytes : ToBytes EntryPoint := {|
  to_bytes := EntryPoint_to_bytes; into_bytes := EntryPoint_to_bytes;
  serialized_length := EntryPoint_serialized_length; write_bytes := EntryPoint_write_bytes |}.
#[export] Instance EntryPoint_FromBytes : FromBytes EntryPoint := default_FromBytes EntryPoint_from_bytes.
#[export] Instance EntryPoint_Valid : Valid EntryPoint := fun e =>
  valid (entry_name e) /\ valid (entry_args e) /\ valid (entry_ret e) /\ valid (entry_access e) /\
  valid (entry_point_type e).

Lemma EntryPoint_to_bytes_eq e : EntryPoint_to_bytes e =
  _ ← allocate_buffer (EntryPoint_serialized_length e);
  b0 ← to_bytes (entry_name e); b1 ← to_bytes (entry_args e); b2 ← to_bytes (entry_ret e);
  b3 ← to_bytes (entry_access e); b4 ← to_bytes (entry_point_type e); mret (((b0 ++ b1) ++ b2) ++ b3 ++ b4).
Proof.
  unfold EntryPoint_to_bytes. destruct (allocate_buffer _); [|done..]. cbn [mbind res_bind].
  destruct (to_bytes (entry_name e)) as [b0| | |]; [|done..]. cbn [mbind res_bind].
  destruct (to_bytes (entry_args e)) as [b1| | |]; [|done..]. cbn [mbind res_bind].
  rewrite write_type. by destruct (to_bytes (entry_ret e)).
Qed.

#[export] Instance EntryPoint_Bytesrepr : Bytesrepr EntryPoint.
Proof.
  struct_codec_by ltac:(rewrite ?EntryPoint_to_bytes_eq; unfold EntryPoint_serialized_length, EntryPoint_write_bytes,
    EntryPoint_from_bytes, EntryPoint_Valid).
Qed.

(** [struct EntryPoints(BTreeMap<String, EntryPoint>)]. *)
Record EntryPoints := MkEntryPoints { entry_points_map : btree_map rstring EntryPoint }.

#[export] Instance EntryPoints_eq_dec : EqDecision EntryPoints.
Proof. solve_decision. Defined.

Definition EntryPoints_new : EntryPoints := MkEntryPoints (BTreeMap []).
Definition add_entry_point (e : EntryPoints) (entry_point : EntryPoint) : EntryPoints :=
  MkEntryPoints (BTreeMap (btree_insert (entry_name entry_point) entry_point (entries (entry_points_map e)))).
Definition entry_point_get (e : EntryPoints) (entry_point_name : rstring) : option EntryPoint :=
  btree_get entry_point_name (entries (entry_points_map e)).
Definition has_entry_point (e : EntryPoints) (entry_point_name : rstring) : bool :=
  bool_decide (is_Some (entry_point_get e entry_point_name)).
Definition take_entry_points (e : EntryPoints) : list EntryPoint := (entries (entry_points_map e)).*2.
(** [From<Vec<EntryPoint>>]: the iterator is collected, a later entry replacing an earlier one. *)
Definition EntryPoints_from (entry_points : list EntryPoint) : EntryPoints :=
  MkEntryPoints (BTreeMap (fold_left (fun m e => btree_insert (entry_name e) e m) entry_points [])).

Definition EntryPoints_to_bytes (e : EntryPoints) : bres bytes := to_bytes (entry_points_map e).
Definition EntryPoints_serialized_length (e : EntryPoints) : nat := serialized_length (entry_points_map e).
Definition EntryPoints_write_bytes (e : EntryPoints) (writer : bytes) : bres bytes :=
  write_bytes (entry_points_map e) writer.
Definition EntryPoints_from_bytes (bs : bytes) : bres (EntryPoints * bytes) :=
  '(entry_points_map, rem) ← from_bytes bs; mret (MkEntryPoints entry_points_map, rem).

#[export] Instance EntryPoints_ToBytes : ToBytes EntryPoints := {|
  to_bytes := EntryPoints_to_bytes; into_bytes := EntryPoints_to_bytes;
  serialized_length := EntryPoints_serialized_length; write_bytes := EntryPoints_write_bytes |}.
#[export] Instance EntryPoints_FromBytes : FromBytes EntryPoints := default_FromBytes EntryPoints_from_bytes.
#[export] Instance EntryPoints_Valid : Valid EntryPoints := fun e => valid (entry_points_map e).
#[export] Instance EntryPoints_Bytesrepr : Bytesrepr EntryPoints.
Proof.
  struct_codec_by ltac:(unfold EntryPoints_to_bytes, EntryPoints_serialized_length, EntryPoints_write_bytes,
    EntryPoints_from_bytes, EntryPoints_Valid).
Qed.

(** ** [Contract] *)

Record Contract := MkContract {
  contract_package_hash : HashAddr;
  contract_wasm_hash : HashAddr;
  contract_named_keys : NamedKeys;
  entry_points : EntryPoints;
  protocol_version : ProtocolVersion;
}.

Definition Contract_named_keys_append (c : Contract) (keys : NamedKeys) : Contract :=
  MkContract (contract_package_hash c) (contract_wasm_hash c) (btree_append (contract_named_keys c) keys)
    (entry_points c) (protocol_version c).

Definition Contract_write_bytes (c : Contract) (writer : bytes) : bres bytes :=
  writer ← write_bytes (contract_package_hash c) writer;
  writer ← write_bytes (contract_wasm_hash c) writer;
  writer ← write_bytes (contract_named_keys c) writer;
  writer ← write_bytes (entry_points c) writer;
  write_bytes (protocol_version c) writer.
Definition Contract_serialized_length (c : Contract) : nat :=
  serialized_length (entry_points c) + serialized_length (contract_package_hash c) +
  serialized_length (contract_wasm_hash c) + serialized_length (protocol_version c) +
  serialized_length (contract_named_keys c).
Definition Contract_to_bytes (c : Contract) : bres bytes :=
  _ ← allocate_buffer (Contract_serialized_length c); Contract_write_bytes c [].
Definition Contract_from_bytes (bs : bytes) : bres (Contract * bytes) :=
  '(contract_package_hash, bs) ← from_bytes bs;
  '(contract_wasm_hash, bs) ← from_bytes bs;
  '(named_keys, bs) ← from_bytes bs;
  '(entry_points, bs) ← from_bytes bs;
  '(protocol_version, bs) ← from_bytes bs;
  mret (MkContract contract_package_hash contract_wasm_hash named_keys entry_points protocol_version, bs).

#[export] Instance Contract_eq_dec : EqDecision Contract.
Proof. solve_decision. Defined.
#[export] Instance Contract_ToBytes : ToBytes Contract := {|
  to_bytes := Contract_to_bytes; into_bytes := Contract_to_bytes;
  serialized_length := Contract_serialized_length; write_bytes := Contract_write_bytes |}.
#[export] Instance Contract_FromBytes : FromBytes Contract := default_FromBytes Contract_from_bytes.
#[export] Instance Contract_Valid : Valid Contract := fun c =>
  valid (contract_package_hash c) /\ valid (contract_wasm_hash c) /\ valid (contract_named_keys c) /\
  valid (entry_points c) /\ valid (protocol_version c).

Definition contract_body (c : Contract) : bres bytes :=
  b0 ← to_bytes (contract_package_hash c);
  b1 ← to_bytes (contract_wasm_hash c);
  b2 ← to_bytes (contract_named_keys c);
  b3 ← to_bytes (entry_points c);
  b4 ← to_bytes (protocol_version c);
  mret (b0 ++ b1 ++ b2 ++ b3 ++ b4).

#[export] Instance Contract_Bytesrepr : Bytesrepr Contract.
Proof.
  written_codec contract_body ltac:(unfold contract_body, Contract_write_bytes, Contract_serialized_length,
    Contract_from_bytes, Contract_Valid).
Qed.

(** ** [ContractWasm] *)

Record ContractWasm := MkContractWasm { wasm_bytes : Bytes }.

#[export] Instance ContractWasm_eq_dec : EqDecision ContractWasm.
Proof. solve_decision. Defined.

Definition ContractWasm_to_bytes (w : ContractWasm) : bres bytes := to_bytes (wasm_bytes w).
Definition ContractWasm_serialized_length (w : ContractWasm) : nat := serialized_length (wasm_bytes w).
Definition ContractWasm_write_bytes (w : ContractWasm) (writer : bytes) : bres bytes := write_bytes (wasm_bytes w) writer.
Definition ContractWasm_from_bytes (bs : bytes) : bres (ContractWasm * bytes) :=
  '(b, rem1) ← from_bytes bs; mret (MkContractWasm b, rem1).

#[export] Instance ContractWasm_ToBytes : ToBytes ContractWasm := {|
  to_bytes := ContractWasm_to_bytes; into_bytes := ContractWasm_to_bytes;
  serialized_length := ContractWasm_serialized_length; write_bytes := ContractWasm_write_bytes |}.
#[export] Instance ContractWasm_FromBytes : FromBytes ContractWasm := default_FromBytes ContractWasm_from_bytes.
#[export] Instance ContractWasm_Valid : Valid ContractWasm := fun w => valid (wasm_bytes w).
#[export] Instance ContractWasm_Bytesrepr : Bytesrepr ContractWasm.
Proof.
  struct_codec_by ltac:(unfold ContractWasm_to_bytes, ContractWasm_serialized_length, ContractWasm_write_bytes,
    ContractWasm_from_bytes, ContractWasm_Valid).
Qed.
