(* ===== verification/SystemErrors.v ===== *)
(** * Errors of the execution engine: [types/src/system/mint/error.rs],
    [types/src/system/auction/error.rs], the part of [types/src/api_error.rs] that
    wraps them, and [execution_engine/src/core/execution/error.rs].

    The error types of the two system contracts share names with each other
    and are kept in modules of their own.  Of the execution errors those are
    listed that the modelled operations return. *)

From S2P Require Import Prelude Bytesrepr KeyTypes Values Account.

Module MintErr.
Inductive t :=
| InsufficientFunds | SourceNotFound | DestNotFound | InvalidURef | InvalidAccessRights
| InvalidNonEmptyPurseCreation | Storage | PurseNotFound | MissingKey | TotalSupplyNotFound
| RecordTransferFailure | InvalidTotalSupplyReductionAttempt | NewURef | PutKey | WriteDictionary
| CLValue | Serialize | EqualSourceAndTarget | ArithmeticOverflow | GasLimit | InvalidContext
| UnapprovedSpendingAmount | Sentinel.
End MintErr.
Abbreviation MintError := MintErr.t.

Module AuctionErr.
Inductive t :=
| MissingKey | InvalidKeyVariant | MissingValue | Serialization | TransferToBidPurse | InvalidAmount
| BidNotFound | ValidatorNotFound | DelegatorNotFound | Storage | Bonding | Unbonding
| ReleaseFounderStake | GetBalance | InvalidContext | ValidatorFundsLocked | InvalidCaller
| InvalidPublicKey | BondNotFound | CreatePurseFailed | UnbondTooLarge | BondTooSmall
| MissingDelegations | MismatchedEraValidators | MintReward | InvalidValidatorSlotsValue
| MintReduceTotalSupply | TransferToDelegatorPurse | ValidatorRewardTransfer | DelegatorRewardTransfer
| WithdrawDelegatorReward | WithdrawValidatorReward | TransferToUnbondingPurse | RecordEraInfo
| CLValue | MissingSeigniorageRecipients | Transfer | DelegationRateTooLarge | DelegatorFundsLocked
| ArithmeticOverflow | GasLimit | RuntimeStackOverflow | MintError | ExceededDelegatorSizeLimit
| GlobalDelegatorCapacityReached | DelegationAmountTooSmall | RuntimeStack.
End AuctionErr.
Abbreviation AuctionError := AuctionErr.t.

Module HandlePaymentErr.
Inductive t :=
| NotBonded | TooManyEventsInQueue | CannotUnbondLastValidator | SpreadTooHigh | MultipleRequests
| BondTooSmall | BondTooLarge | UnbondTooLarge | BondTransferFailed | UnbondTransferFailed
| TimeWentBackwards | StakesNotFound | PaymentPurseNotFound | PaymentPurseKeyUnexpectedType
| PaymentPurseBalanceNotFound | BondingPurseNotFound | BondingPurseKeyUnexpectedType
| RefundPurseKeyUnexpectedType | RewardsPurseNotFound | RewardsPurseKeyUnexpectedType
| StakesKeyDeserializationFailed | StakesDeserializationFailed | SystemFunctionCalledByUserAccount
| InsufficientPaymentForAmountSpent | FailedTransferToRewardsPurse | FailedTransferToAccountPurse
| SetRefundPurseCalledOutsidePayment | GetBalance | PutKey | RemoveKey | Transfer | ArithmeticOverflow
| GasLimit | RefundPurseIsPaymentPurse.
End HandlePaymentErr.
Abbreviation HandlePaymentError := HandlePaymentErr.t.

#[export] Instance MintError_eq_dec : EqDecision MintError.
Proof. solve_decision. Defined.
#[export] Instance AuctionError_eq_dec : EqDecision AuctionError.
Proof. solve_decision. Defined.
#[export] Instance HandlePaymentError_eq_dec : EqDecision HandlePaymentError.
Proof. solve_decision. Defined.

(** [ApiError], the variants of the system contracts. *)
Inductive ApiError :=
| ApiAuctionError (error : AuctionError)
| ApiMint (error : MintError)
| ApiHandlePayment (error : HandlePaymentError)
| ApiTransfer
| ApiInvalidPurse
| ApiMissingSystemContractHash.

#[export] Instance ApiError_eq_dec : EqDecision ApiError.
Proof. solve_decision. Defined.

Inductive ExecError :=
| ExecBytesRepr (error : Error)
| ExecCLValue (error : CLValueError)
| ExecKeyNotFound (key : Key)
| ExecTypeMismatch
| ExecInvalidAccess (required : AccessRights)
| ExecForgedReference (uref : URef)
| ExecFunctionNotFound
| ExecGasLimit
| ExecRevert (error : ApiError)
| ExecAddKeyFailure (error : AddKeyFailure)
| ExecRemoveKeyFailure (error : RemoveKeyFailure)
| ExecUpdateKeyFailure (error : UpdateKeyFailure)
| ExecSetThresholdFailure (error : SetThresholdFailure)
| ExecSystemContract (error : MintError)
| ExecInvalidContext
| ExecUnexpectedStoredValueVariant
| ExecDictionaryItemKeyExceedsLength
| ExecMissingSystemContractRegistry
| ExecMissingSystemContractHash (name : rstring)
| ExecDisabledContract (contract_hash : HashAddr)
| ExecNoSuchMethod (name : rstring)
| ExecMissingArgument (name : rstring)
| ExecIncompatibleProtocolMajorVersion
| ExecRuntimeStackOverflow
| ExecAccountNotFound (key : Key).
