(* ===== verification/AuctionData.v ===== *)
(** * Data of the auction: [types/src/system/auction/]: [bid.rs], [bid/vesting.rs],
    [delegator.rs], [withdraw_purse.rs], [unbonding_purse.rs], [era_info.rs],
    with the [DeployInfo] of [types/src/deploy_info.rs].

    Bids and delegations with their stakes and vesting schedules, unbonding
    requests, the record of an era's rewards, and their codecs. *)

From S2P Require Import Prelude Bytesrepr Hashing KeyTypes Values PublicKeys Account SystemErrors.
Local Open Scope Z_scope.

(** ** [U512] arithmetic *)

Definition U512_checked_add (a b : U512) : option U512 :=
  MkU512 <$> checked_add 512 (U512_val a) (U512_val b).
Definition U512_checked_sub (a b : U512) : option U512 :=
  MkU512 <$> checked_sub (U512_val a) (U512_val b).
Definition U512_lt (a b : U512) : bool := U512_val a <? U512_val b.

(** ** Vesting schedules *)

Definition DAY_MILLIS : Z := 24 * 60 * 60 * 1000.
Definition DAYS_IN_WEEK : Z := 7.
Definition WEEK_MILLIS : Z := DAYS_IN_WEEK * DAY_MILLIS.
Definition VESTING_SCHEDULE_LENGTH_DAYS : Z := 91.
Definition VESTING_SCHEDULE_LENGTH_MILLIS : Z := VESTING_SCHEDULE_LENGTH_DAYS * DAY_MILLIS.
Definition LOCKED_AMOUNTS_LENGTH : nat := Z.to_nat (VESTING_SCHEDULE_LENGTH_DAYS / DAYS_IN_WEEK + 1).

Record VestingSchedule := MkVestingSchedule {
  initial_release_timestamp_millis : u64;
  locked_amounts : option (list U512);
}.

#[export] Instance VestingSchedule_eq_dec : EqDecision VestingSchedule.
Proof. solve_decision. Defined.

Definition VestingSchedule_new (t : u64) : VestingSchedule := MkVestingSchedule t None.

Definition vesting_schedule_period_to_weeks (vesting_schedule_period_millis : Z) : Z :=
  vesting_schedule_period_millis / DAY_MILLIS / DAYS_IN_WEEK.

(** [for _ in 0..n { remaining_locked -= weekly_release; locked_amounts.push(remaining_locked) }];
    the subtraction panics below zero. *)
Fixpoint weekly_amounts {E} (n : nat) (weekly_release remaining_locked : Z) : res E (list U512) :=
  match n with
  | O => Ok []
  | S n =>
      if remaining_locked <? weekly_release then Panic
      else
        let remaining_locked := remaining_locked - weekly_release in
        rest ← weekly_amounts n weekly_release remaining_locked;
        Ok (MkU512 remaining_locked :: rest)
  end.

Definition initialize_with_schedule {E} (v : VestingSchedule) (staked_amount : U512)
    (vesting_schedule_period_millis : Z) : res E (bool * VestingSchedule) :=
  match locked_amounts v with
  | Some _ => Ok (false, v)
  | None =>
      let locked_amounts_length := vesting_schedule_period_to_weeks vesting_schedule_period_millis in
      if (locked_amounts_length =? 0) || (vesting_schedule_period_millis =? 0) then
        Ok (true, MkVestingSchedule (initial_release_timestamp_millis v) (Some [MkU512 0]))
      else
        let release_period := locked_amounts_length + 1 in
        let weekly_release := U512_val staked_amount / release_period in
        amounts ← weekly_amounts (Z.to_nat locked_amounts_length) weekly_release (U512_val staked_amount);
        Ok (true, MkVestingSchedule (initial_release_timestamp_millis v) (Some (amounts ++ [MkU512 0])))
  end.

Definition locked_amount (v : VestingSchedule) (timestamp_millis : Z) : option U512 :=
  amounts ← locked_amounts v;
  index_timestamp ← checked_sub timestamp_millis (u64_val (initial_release_timestamp_millis v));
  let index := Z.to_nat (index_timestamp / WEEK_MILLIS) in
  Some (default (MkU512 0) (amounts !! index)).

Definition is_vesting (v : VestingSchedule) (timestamp_millis vesting_schedule_period_millis : Z) : bool :=
  let vested_period :=
    match locked_amounts v with
    | Some amounts =>
        let vesting_weeks := Z.of_nat (length amounts - 1) in
        let vesting_weeks_millis := saturating_mul 64 vesting_weeks WEEK_MILLIS in
        saturating_add 64 (u64_val (initial_release_timestamp_millis v)) vesting_weeks_millis
    | None => saturating_add 64 (u64_val (initial_release_timestamp_millis v)) vesting_schedule_period_millis
    end in
  timestamp_millis <? vested_period.

Definition VestingSchedule_serialized_length (v : VestingSchedule) : nat :=
  serialized_length (initial_release_timestamp_millis v) + 1 +
  match locked_amounts v with Some amounts => serialized_length amounts | None => 0 end.
Definition VestingSchedule_write_bytes (v : VestingSchedule) (writer : bytes) : bres bytes :=
  writer ← write_bytes (initial_release_timestamp_millis v) writer;
  match locked_amounts v with
  | None => write_bytes Byte.x00 writer
  | Some amounts => writer ← write_bytes Byte.x02 writer; write_bytes amounts writer
  end.
Definition VestingSchedule_to_bytes (v : VestingSchedule) : bres bytes :=
  _ ← allocate_buffer (VestingSchedule_serialized_length v); VestingSchedule_write_bytes v [].
Definition VestingSchedule_from_bytes (bs : bytes) : bres (VestingSchedule * bytes) :=
  '(initial_release_timestamp_millis, bs) ← from_bytes bs;
  '(locked_amounts_tag, bs) ← u8_from_bytes bs;
  if Byte.eqb locked_amounts_tag Byte.x00 then
    Ok (MkVestingSchedule initial_release_timestamp_millis None, bs)
  else if Byte.eqb locked_amounts_tag Byte.x01 then
    '(amounts, bs) ← read_n LOCKED_AMOUNTS_LENGTH bs;
    Ok (MkVestingSchedule initial_release_timestamp_millis (Some amounts), bs)
  else if Byte.eqb locked_amounts_tag Byte.x02 then
    '(amounts, bs) ← from_bytes bs;
    Ok (MkVestingSchedule initial_release_timestamp_millis (Some amounts), bs)
  else Err Formatting.

#[export] Instance VestingSchedule_ToBytes : ToBytes VestingSchedule := {|
  to_bytes := VestingSchedule_to_bytes; into_bytes := VestingSchedule_to_bytes;
  serialized_length := VestingSchedule_serialized_length; write_bytes := VestingSchedule_write_bytes |}.
#[export] Instance VestingSchedule_FromBytes : FromBytes VestingSchedule :=
  default_FromBytes VestingSchedule_from_bytes.
#[export] Instance VestingSchedule_Valid : Valid VestingSchedule := fun v =>
  valid (initial_release_timestamp_millis v) /\
  match locked_amounts v with Some amounts => valid amounts | None => True end.

Definition vesting_body (v : VestingSchedule) : bres bytes :=
  b0 ← to_bytes (initial_release_timestamp_millis v);
  match locked_amounts v with
  | None => mret (b0 ++ [Byte.x00])
  | Some amounts => b1 ← to_bytes amounts; mret (b0 ++ Byte.x02 :: b1)
  end.

Lemma u8_write (b : Byte.byte) writer : write_bytes b writer = Ok (writer ++ [b]).
Proof. done. Qed.

#[export] Instance VestingSchedule_Bytesrepr : Bytesrepr VestingSchedule.
Proof.
  apply (written_bytesrepr _ vesting_body); unfold vesting_body, VestingSchedule_from_bytes.
  - intros [t [l|]] bs rest [Ht Hl] Hb; cbn [locked_amounts initial_release_timestamp_millis] in Hb; codec_inv; rewrite <- app_assoc;
      rewrite (bind_eq _ _ _ (bytesrepr_roundtrip t _ _ Ht H)); cbn beta iota; cbn [app u8_from_bytes mbind res_bind];
      cbn [Byte.eqb]; [|done].
    by rewrite (bind_eq _ _ _ (bytesrepr_roundtrip l _ rest Hl H0)).
  - intros [t [l|]] bs [Ht Hl] Hb; cbn [locked_amounts initial_release_timestamp_millis] in Hb; codec_inv; unfold VestingSchedule_serialized_length; rewrite length_app;
      cbn [length locked_amounts initial_release_timestamp_millis];
      rewrite <- (bytesrepr_length t _ Ht H); [|lia]. rewrite <- (bytesrepr_length l _ Hl H0). lia.
  - intros [t [l|]] bs writer [Ht Hl] Hb; cbn [locked_amounts initial_release_timestamp_millis] in Hb; codec_inv; unfold VestingSchedule_write_bytes;
      cbn [locked_amounts initial_release_timestamp_millis];
      rewrite (bind_eq _ _ _ (bytesrepr_write t _ _ Ht H)); [|by rewrite u8_write, <- app_assoc].
    rewrite u8_write. cbn [mbind res_bind]. rewrite (bytesrepr_write l _ _ Hl H0). by rewrite <- !app_assoc.
  - intros [t [l|]] [Ht Hl] Hs; unfold VestingSchedule_serialized_length in Hs;
      cbn [locked_amounts initial_release_timestamp_millis] in *;
      destruct (bytesrepr_total t) as (b & Hb & _); try done; try lia; rewrite (bind_eq _ _ _ Hb); [|by eexists].
    destruct (bytesrepr_total l) as (b' & Hb' & _); [done|lia|]. rewrite (bind_eq _ _ _ Hb'). by eexists.
  - intros bs v rest Hr. apply bind_Ok in Hr as ([t rem] & (Ht & u & ->)%bytesrepr_sound & Hr).
    apply bind_Ok in Hr as ([tag rem'] & ->%u8_from_bytes_Ok & Hr).
    assert (forall used, rem' = used ++ rest -> exists used', u ++ tag :: rem' = used' ++ rest) as Hsuf.
    { intros used ->. exists (u ++ tag :: used). by rewrite <- app_assoc. }
    repeat match type of Hr with (if ?b then _ else _) = _ => destruct b; [codec_inv|] end; try done.
    + split; [done|]. by apply (Hsuf []).
    + match goal with H : read_n _ _ = _ |- _ => apply read_n_sound in H as (Hf & Hl & used & Hu) end.
      split; [|by apply (Hsuf used)]. split; [done|]. split; [done|]. rewrite Hl. vm_compute. done.
    + match goal with H : from_bytes _ = _ |- _ => apply bytesrepr_sound in H as (Hf & used & Hu) end.
      split; [by split|by apply (Hsuf used)].
  - intros bs v rest more Hr. apply bind_Ok in Hr as ([t rem] & E & Hr). extend_step.
    apply bind_Ok in Hr as ([tag rem'] & Hu & Hr). extend_step.
    repeat match type of Hr with (if ?b then _ else _) = _ => destruct b; [codec_inv|] end; try done.
    + erewrite read_n_extend by eassumption. done.
    + by extend_step.
Qed.

Section Auction.
Context `{KeyCrates}.

(** ** Delegators *)

Record Delegator := MkDelegator {
  delegator_public_key : PublicKey;
  delegator_staked_amount : U512;
  delegator_bonding_purse : URef;
  delegator_validator_public_key : PublicKey;
  delegator_vesting_schedule : option VestingSchedule;
}.

Definition Delegator_unlocked (delegator_public_key : PublicKey) (staked_amount : U512) (bonding_purse : URef)
    (validator_public_key : PublicKey) : Delegator :=
  MkDelegator delegator_public_key staked_amount bonding_purse validator_public_key None.
Definition Delegator_locked (delegator_public_key : PublicKey) (staked_amount : U512) (bonding_purse : URef)
    (validator_public_key : PublicKey) (release_timestamp_millis : u64) : Delegator :=
  MkDelegator delegator_public_key staked_amount bonding_purse validator_public_key
    (Some (VestingSchedule_new release_timestamp_millis)).

Definition with_delegator_stake (d : Delegator) (staked_amount : U512) : Delegator :=
  MkDelegator (delegator_public_key d) staked_amount (delegator_bonding_purse d)
    (delegator_validator_public_key d) (delegator_vesting_schedule d).

Definition Delegator_decrease_stake (d : Delegator) (amount : U512) (era_end_timestamp_millis : Z)
    : res AuctionError (U512 * Delegator) :=
  updated_staked_amount ← ok_or (U512_checked_sub (delegator_staked_amount d) amount) AuctionErr.InvalidAmount;
  match delegator_vesting_schedule d with
  | None => Ok (updated_staked_amount, with_delegator_stake d updated_staked_amount)
  | Some vesting_schedule =>
      match locked_amount vesting_schedule era_end_timestamp_millis with
      | Some locked =>
          if U512_lt updated_staked_amount locked then Err AuctionErr.DelegatorFundsLocked
          else Ok (updated_staked_amount, with_delegator_stake d updated_staked_amount)
      | None => Err AuctionErr.DelegatorFundsLocked
      end
  end.
Definition Delegator_increase_stake (d : Delegator) (amount : U512) : res AuctionError (U512 * Delegator) :=
  updated_staked_amount ← ok_or (U512_checked_add (delegator_staked_amount d) amount) AuctionErr.InvalidAmount;
  Ok (updated_staked_amount, with_delegator_stake d updated_staked_amount).

Definition Delegator_serialized_length (x : Delegator) : nat :=
  serialized_length (delegator_public_key x) + serialized_length (delegator_staked_amount x) + serialized_length (delegator_bonding_purse x) + serialized_length (delegator_validator_public_key x) + serialized_length (delegator_vesting_schedule x).
Definition Delegator_to_bytes (x : Delegator) : bres bytes :=
  _ ← allocate_buffer (Delegator_serialized_length x);
  b0 ← to_bytes (delegator_public_key x);
  b1 ← to_bytes (delegator_staked_amount x);
  b2 ← to_bytes (delegator_bonding_purse x);
  b3 ← to_bytes (delegator_validator_public_key x);
  b4 ← to_bytes (delegator_vesting_schedule x);
  mret (b0 ++ b1 ++ b2 ++ b3 ++ b4).
Definition Delegator_write_bytes (x : Delegator) (writer : bytes) : bres bytes :=
  writer ← write_bytes (delegator_public_key x) writer;
  writer ← write_bytes (delegator_staked_amount x) writer;
  writer ← write_bytes (delegator_bonding_purse x) writer;
  writer ← write_bytes (delegator_validator_public_key x) writer;
  write_bytes (delegator_vesting_schedule x) writer.
Definition Delegator_from_bytes (bs : bytes) : bres (Delegator * bytes) :=
  '(f0, bs) ← from_bytes bs;
  '(f1, bs) ← from_bytes bs;
  '(f2, bs) ← from_bytes bs;
  '(f3, bs) ← from_bytes bs;
  '(f4, bs) ← from_bytes bs;
  mret (MkDelegator f0 f1 f2 f3 f4, bs).

#[export] Instance Delegator_eq_dec : EqDecision Delegator.
Proof. solve_decision. Defined.
#[export] Instance Delegator_ToBytes : ToBytes Delegator := {|
  to_bytes := Delegator_to_bytes; into_bytes := Delegator_to_bytes;
  serialized_length := Delegator_serialized_length; write_bytes := Delegator_write_bytes |}.
#[export] Instance Delegator_FromBytes : FromBytes Delegator := default_FromBytes Delegator_from_bytes.
#[export] Instance Delegator_Valid : Valid Delegator := fun x =>
  valid (delegator_public_key x) /\ valid (delegator_staked_amount x) /\ valid (delegator_bonding_purse x) /\ valid (delegator_validator_public_key x) /\ valid (delegator_vesting_schedule x).
#[export] Instance Delegator_Bytesrepr : Bytesrepr Delegator.
Proof.
  struct_codec_by ltac:(unfold Delegator_to_bytes, Delegator_serialized_length, Delegator_from_bytes, Delegator_Valid, Delegator_write_bytes).
Qed.

(** ** Bids *)

Record Bid := MkBid {
  bid_validator_public_key : PublicKey;
  bid_bonding_purse : URef;
  bid_staked_amount : U512;
  bid_delegation_rate : Byte.byte;
  bid_vesting_schedule : option VestingSchedule;
  bid_delegators : btree_map PublicKey Delegator;
  bid_inactive : bool;
}.

Definition Bid_locked (validator_public_key : PublicKey) (bonding_purse : URef) (staked_amount : U512)
    (delegation_rate : Byte.byte) (release_timestamp_millis : u64) : Bid :=
  MkBid validator_public_key bonding_purse staked_amount delegation_rate
    (Some (VestingSchedule_new release_timestamp_millis)) (BTreeMap []) false.
Definition Bid_unlocked (validator_public_key : PublicKey) (bonding_purse : URef) (staked_amount : U512)
    (delegation_rate : Byte.byte) : Bid :=
  MkBid validator_public_key bonding_purse staked_amount delegation_rate None (BTreeMap []) false.
Definition Bid_empty (validator_public_key : PublicKey) (bonding_purse : URef) : Bid :=
  MkBid validator_public_key bonding_purse (MkU512 0) Byte.x00 None (BTreeMap []) true.

Definition with_bid_stake (b : Bid) (staked_amount : U512) : Bid :=
  MkBid (bid_validator_public_key b) (bid_bonding_purse b) staked_amount (bid_delegation_rate b)
    (bid_vesting_schedule b) (bid_delegators b) (bid_inactive b).
Definition with_delegators (b : Bid) (delegators : btree_map PublicKey Delegator) : Bid :=
  MkBid (bid_validator_public_key b) (bid_bonding_purse b) (bid_staked_amount b) (bid_delegation_rate b)
    (bid_vesting_schedule b) delegators (bid_inactive b).
Definition with_inactive (b : Bid) (inactive : bool) : Bid :=
  MkBid (bid_validator_public_key b) (bid_bonding_purse b) (bid_staked_amount b) (bid_delegation_rate b)
    (bid_vesting_schedule b) (bid_delegators b) inactive.
Definition with_delegation_rate (b : Bid) (delegation_rate : Byte.byte) : Bid :=
  MkBid (bid_validator_public_key b) (bid_bonding_purse b) (bid_staked_amount b) delegation_rate
    (bid_vesting_schedule b) (bid_delegators b) (bid_inactive b).

Definition is_locked_with_vesting_schedule (b : Bid) (timestamp_millis vesting_schedule_period_millis : Z) : bool :=
  match bid_vesting_schedule b with
  | Some vesting_schedule => is_vesting vesting_schedule timestamp_millis vesting_schedule_period_millis
  | None => false
  end.
Definition Bid_is_locked (b : Bid) (timestamp_millis : Z) : bool :=
  is_locked_with_vesting_schedule b timestamp_millis VESTING_SCHEDULE_LENGTH_MILLIS.

Definition Bid_decrease_stake (b : Bid) (amount : U512) (era_end_timestamp_millis : Z)
    : res AuctionError (U512 * Bid) :=
  updated_staked_amount ← ok_or (U512_checked_sub (bid_staked_amount b) amount) AuctionErr.UnbondTooLarge;
  match bid_vesting_schedule b with
  | None => Ok (updated_staked_amount, with_bid_stake b updated_staked_amount)
  | Some vesting_schedule =>
      match locked_amount vesting_schedule era_end_timestamp_millis with
      | Some locked =>
          if U512_lt updated_staked_amount locked then Err AuctionErr.ValidatorFundsLocked
          else Ok (updated_staked_amount, with_bid_stake b updated_staked_amount)
      | None => Err AuctionErr.ValidatorFundsLocked
      end
  end.
Definition Bid_increase_stake (b : Bid) (amount : U512) : res AuctionError (U512 * Bid) :=
  updated_staked_amount ← ok_or (U512_checked_add (bid_staked_amount b) amount) AuctionErr.InvalidAmount;
  Ok (updated_staked_amount, with_bid_stake b updated_staked_amount).

(** One delegator in the loop of [process_with_vesting_schedule]. *)
Definition process_delegator (timestamp_millis vesting_schedule_period_millis : Z) (d : Delegator)
    : res AuctionError (bool * Delegator) :=
  match delegator_vesting_schedule d with
  | Some vesting_schedule =>
      if u64_val (initial_release_timestamp_millis vesting_schedule) <=? timestamp_millis then
        '(done, vesting_schedule) ←
          initialize_with_schedule vesting_schedule (delegator_staked_amount d) vesting_schedule_period_millis;
        Ok (done, MkDelegator (delegator_public_key d) (delegator_staked_amount d) (delegator_bonding_purse d)
          (delegator_validator_public_key d) (Some vesting_schedule))
      else Ok (false, d)
  | None => Ok (false, d)
  end.
Fixpoint process_delegators (timestamp_millis period : Z) (l : list (PublicKey * Delegator))
    : res AuctionError (bool * list (PublicKey * Delegator)) :=
  match l with
  | [] => Ok (false, [])
  | (k, d) :: l =>
      '(b, d) ← process_delegator timestamp_millis period d;
      '(b', l) ← process_delegators timestamp_millis period l;
      Ok (b || b', (k, d) :: l)
  end.
Definition process_with_vesting_schedule (b : Bid) (timestamp_millis vesting_schedule_period_millis : Z)
    : res AuctionError (bool * Bid) :=
  match bid_vesting_schedule b with
  | None => Ok (false, b)
  | Some vesting_schedule =>
      if timestamp_millis <? u64_val (initial_release_timestamp_millis vesting_schedule) then Ok (false, b)
      else
        '(initialized, vesting_schedule) ←
          initialize_with_schedule vesting_schedule (bid_staked_amount b) vesting_schedule_period_millis;
        '(initialized', delegators) ←
          process_delegators timestamp_millis vesting_schedule_period_millis (entries (bid_delegators b));
        Ok (initialized || initialized',
          MkBid (bid_validator_public_key b) (bid_bonding_purse b) (bid_staked_amount b) (bid_delegation_rate b)
            (Some vesting_schedule) (BTreeMap delegators) (bid_inactive b))
  end.
Definition process (b : Bid) (timestamp_millis : Z) : res AuctionError (bool * Bid) :=
  process_with_vesting_schedule b timestamp_millis VESTING_SCHEDULE_LENGTH_MILLIS.

Definition activate (b : Bid) : bool * Bid := (false, with_inactive b false).
Definition deactivate (b : Bid) : bool * Bid := (true, with_inactive b true).

Definition total_staked_amount (b : Bid) : res AuctionError U512 :=
  ok_or
    (delegators_sum ← fold_left (fun maybe_a e => a ← maybe_a; U512_checked_add a (delegator_staked_amount e.2))
      (entries (bid_delegators b)) (Some (MkU512 0));
     U512_checked_add delegators_sum (bid_staked_amount b))
    AuctionErr.InvalidAmount.

Definition Bid_serialized_length (x : Bid) : nat :=
  serialized_length (bid_validator_public_key x) + serialized_length (bid_bonding_purse x) + serialized_length (bid_staked_amount x) + serialized_length (bid_delegation_rate x) + serialized_length (bid_vesting_schedule x) + serialized_length (bid_delegators x) + serialized_length (bid_inactive x).
Definition Bid_write_bytes (x : Bid) (writer : bytes) : bres bytes :=
  writer ← write_bytes (bid_validator_public_key x) writer;
  writer ← write_bytes (bid_bonding_purse x) writer;
  writer ← write_bytes (bid_staked_amount x) writer;
  writer ← write_bytes (bid_delegation_rate x) writer;
  writer ← write_bytes (bid_vesting_schedule x) writer;
  writer ← write_bytes (bid_delegators x) writer;
  write_bytes (bid_inactive x) writer.
Definition Bid_to_bytes (x : Bid) : bres bytes :=
  _ ← allocate_buffer (Bid_serialized_length x); Bid_write_bytes x [].
Definition Bid_from_bytes (bs : bytes) : bres (Bid * bytes) :=
  '(f0, bs) ← from_bytes bs;
  '(f1, bs) ← from_bytes bs;
  '(f2, bs) ← from_bytes bs;
  '(f3, bs) ← from_bytes bs;
  '(f4, bs) ← from_bytes bs;
  '(f5, bs) ← from_bytes bs;
  '(f6, bs) ← from_bytes bs;
  mret (MkBid f0 f1 f2 f3 f4 f5 f6, bs).

#[export] Instance Bid_eq_dec : EqDecision Bid.
Proof. solve_decision. Defined.
#[export] Instance Bid_ToBytes : ToBytes Bid := {|
  to_bytes := Bid_to_bytes; into_bytes := Bid_to_bytes;
  serialized_length := Bid_serialized_length; write_bytes := Bid_write_bytes |}.
#[export] Instance Bid_FromBytes : FromBytes Bid := default_FromBytes Bid_from_bytes.
#[export] Instance Bid_Valid : Valid Bid := fun x =>
  valid (bid_validator_public_key x) /\ valid (bid_bonding_purse x) /\ valid (bid_staked_amount x) /\ valid (bid_delegation_rate x) /\ valid (bid_vesting_schedule x) /\ valid (bid_delegators x) /\ valid (bid_inactive x).

Definition Bid_body (x : Bid) : bres bytes :=
  b0 ← to_bytes (bid_validator_public_key x);
  b1 ← to_bytes (bid_bonding_purse x);
  b2 ← to_bytes (bid_staked_amount x);
  b3 ← to_bytes (bid_delegation_rate x);
  b4 ← to_bytes (bid_vesting_schedule x);
  b5 ← to_bytes (bid_delegators x);
  b6 ← to_bytes (bid_inactive x);
  mret (b0 ++ b1 ++ b2 ++ b3 ++ b4 ++ b5 ++ b6).

#[export] Instance Bid_Bytesrepr : Bytesrepr Bid.
Proof.
  written_codec Bid_body ltac:(unfold Bid_body, Bid_write_bytes, Bid_serialized_length, Bid_from_bytes, Bid_Valid).
Qed.

(** ** Withdrawals and unbonding *)

Record WithdrawPurse := MkWithdrawPurse {
  withdraw_bonding_purse : URef;
  withdraw_validator_public_key : PublicKey;
  withdraw_unbonder_public_key : PublicKey;
  withdraw_era_of_creation : EraId;
  withdraw_amount : U512;
}.

Definition WithdrawPurse_serialized_length (x : WithdrawPurse) : nat :=
  serialized_length (withdraw_bonding_purse x) + serialized_length (withdraw_validator_public_key x) + serialized_length (withdraw_unbonder_public_key x) + serialized_length (withdraw_era_of_creation x) + serialized_length (withdraw_amount x).
Definition WithdrawPurse_to_bytes (x : WithdrawPurse) : bres bytes :=
  _ ← allocate_buffer (WithdrawPurse_serialized_length x);
  b0 ← to_bytes (withdraw_bonding_purse x);
  b1 ← to_bytes (withdraw_validator_public_key x);
  b2 ← to_bytes (withdraw_unbonder_public_key x);
  b3 ← to_bytes (withdraw_era_of_creation x);
  b4 ← to_bytes (withdraw_amount x);
  mret (b0 ++ b1 ++ b2 ++ b3 ++ b4).
Definition WithdrawPurse_from_bytes (bs : bytes) : bres (WithdrawPurse * bytes) :=
  '(f0, bs) ← from_bytes bs;
  '(f1, bs) ← from_bytes bs;
  '(f2, bs) ← from_bytes bs;
  '(f3, bs) ← from_bytes bs;
  '(f4, bs) ← from_bytes bs;
  mret (MkWithdrawPurse f0 f1 f2 f3 f4, bs).

#[export] Instance WithdrawPurse_eq_dec : EqDecision WithdrawPurse.
Proof. solve_decision. Defined.
#[export] Instance WithdrawPurse_ToBytes : ToBytes WithdrawPurse := default_ToBytes WithdrawPurse_to_bytes WithdrawPurse_serialized_length.
#[export] Instance WithdrawPurse_FromBytes : FromBytes WithdrawPurse := default_FromBytes WithdrawPurse_from_bytes.
#[export] Instance WithdrawPurse_Valid : Valid WithdrawPurse := fun x =>
  valid (withdraw_bonding_purse x) /\ valid (withdraw_validator_public_key x) /\ valid (withdraw_unbonder_public_key x) /\ valid (withdraw_era_of_creation x) /\ valid (withdraw_amount x).
#[export] Instance WithdrawPurse_Bytesrepr : Bytesrepr WithdrawPurse.
Proof.
  struct_codec_by ltac:(unfold WithdrawPurse_to_bytes, WithdrawPurse_serialized_length, WithdrawPurse_from_bytes, WithdrawPurse_Valid).
Qed.

Record UnbondingPurse := MkUnbondingPurse {
  unbonding_bonding_purse : URef;
  unbonding_validator_public_key : PublicKey;
  unbonder_public_key : PublicKey;
  era_of_creation : EraId;
  unbonding_amount : U512;
  new_validator : option PublicKey;
}.

Definition UnbondingPurse_is_validator (p : UnbondingPurse) : bool :=
  bool_decide (unbonding_validator_public_key p = unbonder_public_key p).
(** [From<WithdrawPurse>]. *)
Definition UnbondingPurse_from (w : WithdrawPurse) : UnbondingPurse :=
  MkUnbondingPurse (withdraw_bonding_purse w) (withdraw_validator_public_key w) (withdraw_unbonder_public_key w)
    (withdraw_era_of_creation w) (withdraw_amount w) None.

Definition UnbondingPurse_serialized_length (x : UnbondingPurse) : nat :=
  serialized_length (unbonding_bonding_purse x) + serialized_length (unbonding_validator_public_key x) + serialized_length (unbonder_public_key x) + serialized_length (era_of_creation x) + serialized_length (unbonding_amount x) + serialized_length (new_validator x).
Definition UnbondingPurse_to_bytes (x : UnbondingPurse) : bres bytes :=
  _ ← allocate_buffer (UnbondingPurse_serialized_length x);
  b0 ← to_bytes (unbonding_bonding_purse x);
  b1 ← to_bytes (unbonding_validator_public_key x);
  b2 ← to_bytes (unbonder_public_key x);
  b3 ← to_bytes (era_of_creation x);
  b4 ← to_bytes (unbonding_amount x);
  b5 ← to_bytes (new_validator x);
  mret (b0 ++ b1 ++ b2 ++ b3 ++ b4 ++ b5).
Definition UnbondingPurse_write_bytes (x : UnbondingPurse) (writer : bytes) : bres bytes :=
  writer ← write_bytes (unbonding_bonding_purse x) writer;
  writer ← write_bytes (unbonding_validator_public_key x) writer;
  writer ← write_bytes (unbonder_public_key x) writer;
  writer ← write_bytes (era_of_creation x) writer;
  writer ← write_bytes (unbonding_amount x) writer;
  write_bytes (new_validator x) writer.
Definition UnbondingPurse_from_bytes (bs : bytes) : bres (UnbondingPurse * bytes) :=
  '(f0, bs) ← from_bytes bs;
  '(f1, bs) ← from_bytes bs;
  '(f2, bs) ← from_bytes bs;
  '(f3, bs) ← from_bytes bs;
  '(f4, bs) ← from_bytes bs;
  '(f5, bs) ← from_bytes bs;
  mret (MkUnbondingPurse f0 f1 f2 f3 f4 f5, bs).

#[export] Instance UnbondingPurse_eq_dec : EqDecision UnbondingPurse.
Proof. solve_decision. Defined.
#[export] Instance UnbondingPurse_ToBytes : ToBytes UnbondingPurse := {|
  to_bytes := UnbondingPurse_to_bytes; into_bytes := UnbondingPurse_to_bytes;
  serialized_length := UnbondingPurse_serialized_length; write_bytes := UnbondingPurse_write_bytes |}.
#[export] Instance UnbondingPurse_FromBytes : FromBytes UnbondingPurse := default_FromBytes UnbondingPurse_from_bytes.
#[export] Instance UnbondingPurse_Valid : Valid UnbondingPurse := fun x =>
  valid (unbonding_bonding_purse x) /\ valid (unbonding_validator_public_key x) /\ valid (unbonder_public_key x) /\ valid (era_of_creation x) /\ valid (unbonding_amount x) /\ valid (new_validator x).
#[export] Instance UnbondingPurse_Bytesrepr : Bytesrepr UnbondingPurse.
Proof.
  struct_codec_by ltac:(unfold UnbondingPurse_to_bytes, UnbondingPurse_serialized_length, UnbondingPurse_from_bytes, UnbondingPurse_Valid, UnbondingPurse_write_bytes).
Qed.

(** ** The rewards of an era *)

Inductive SeigniorageAllocation :=
| AllocValidator (validator_public_key : PublicKey) (amount : U512)
| AllocDelegator (delegator_public_key validator_public_key : PublicKey) (amount : U512).

#[export] Instance SeigniorageAllocation_eq_dec : EqDecision SeigniorageAllocation.
Proof. solve_decision. Defined.

Definition allocation_amount (a : SeigniorageAllocation) : U512 :=
  match a with AllocValidator _ amount | AllocDelegator _ _ amount => amount end.
Definition allocation_tag (a : SeigniorageAllocation) : Byte.byte :=
  match a with AllocValidator _ _ => Byte.x00 | AllocDelegator _ _ _ => Byte.x01 end.
Definition SeigniorageAllocation_serialized_length (a : SeigniorageAllocation) : nat :=
  1 + match a with
  | AllocValidator validator amount => serialized_length validator + serialized_length amount
  | AllocDelegator delegator validator amount =>
      serialized_length delegator + serialized_length validator + serialized_length amount
  end.
Definition SeigniorageAllocation_write_bytes (a : SeigniorageAllocation) (writer : bytes) : bres bytes :=
  let writer := writer ++ [allocation_tag a] in
  match a with
  | AllocValidator validator amount => writer ← write_bytes validator writer; write_bytes amount writer
  | AllocDelegator delegator validator amount =>
      writer ← write_bytes delegator writer; writer ← write_bytes validator writer; write_bytes amount writer
  end.
Definition SeigniorageAllocation_to_bytes (a : SeigniorageAllocation) : bres bytes :=
  _ ← allocate_buffer (SeigniorageAllocation_serialized_length a); SeigniorageAllocation_write_bytes a [].
Definition SeigniorageAllocation_from_bytes (bs : bytes) : bres (SeigniorageAllocation * bytes) :=
  '(tag, bs) ← u8_from_bytes bs;
  if Byte.eqb tag Byte.x00 then
    '(validator, bs) ← from_bytes bs; '(amount, bs) ← from_bytes bs; Ok (AllocValidator validator amount, bs)
  else if Byte.eqb tag Byte.x01 then
    '(delegator, bs) ← from_bytes bs; '(validator, bs) ← from_bytes bs; '(amount, bs) ← from_bytes bs;
    Ok (AllocDelegator delegator validator amount, bs)
  else Err Formatting.

#[export] Instance SeigniorageAllocation_ToBytes : ToBytes SeigniorageAllocation := {|
  to_bytes := SeigniorageAllocation_to_bytes; into_bytes := SeigniorageAllocation_to_bytes;
  serialized_length := SeigniorageAllocation_serialized_length; write_bytes := SeigniorageAllocation_write_bytes |}.
#[export] Instance SeigniorageAllocation_FromBytes : FromBytes SeigniorageAllocation :=
  default_FromBytes SeigniorageAllocation_from_bytes.
#[export] Instance SeigniorageAllocation_Valid : Valid SeigniorageAllocation := fun a => valid (allocation_amount a).

Definition allocation_body (a : SeigniorageAllocation) : bres bytes :=
  match a with
  | AllocValidator validator amount => b0 ← to_bytes validator; b1 ← to_bytes amount; mret (Byte.x00 :: b0 ++ b1)
  | AllocDelegator delegator validator amount =>
      b0 ← to_bytes delegator; b1 ← to_bytes validator; b2 ← to_bytes amount; mret (Byte.x01 :: b0 ++ b1 ++ b2)
  end.

Lemma public_key_valid (k : PublicKey) : valid k.
Proof. exact I. Qed.

#[export] Instance SeigniorageAllocation_Bytesrepr : Bytesrepr SeigniorageAllocation.
Proof.
  apply (written_bytesrepr _ allocation_body); unfold SeigniorageAllocation_from_bytes.
  - intros [v a|d v a] bs rest Ha Hb; pose proof (public_key_valid v); cbn [allocation_body] in Hb; codec_inv;
      cbn [app]; rewrite <- ?app_assoc; cbn [u8_from_bytes mbind res_bind]; cbn [Byte.eqb];
      change (valid a) in Ha; try pose proof (public_key_valid d); codec_roundtrip.
  - intros [v a|d v a] bs Ha Hb; pose proof (public_key_valid v); cbn [allocation_body] in Hb; codec_inv;
      change (valid a) in Ha; try pose proof (public_key_valid d);
      unfold SeigniorageAllocation_serialized_length; cbn [length]; codec_length.
  - intros [v a|d v a] bs writer Ha Hb; pose proof (public_key_valid v); cbn [allocation_body] in Hb; codec_inv;
      change (valid a) in Ha; try pose proof (public_key_valid d);
      unfold SeigniorageAllocation_write_bytes; cbn [allocation_tag]; codec_write.
  - intros [v a|d v a] Ha Hs; pose proof (public_key_valid v); change (valid a) in Ha;
      try pose proof (public_key_valid d); unfold SeigniorageAllocation_serialized_length in Hs;
      cbn [allocation_body]; codec_total.
  - intros bs a rest Hr. apply bind_Ok in Hr as ([tag rem] & ->%u8_from_bytes_Ok & Hr).
    assert ((exists used, rem = used ++ rest) -> exists used', tag :: rem = used' ++ rest) as Hsuf.
    { intros [u ->]. by exists (tag :: u). }
    repeat match type of Hr with (if ?b then _ else _) = _ => destruct b; [codec_inv|] end; try done;
      repeat match goal with H : from_bytes _ = _ |- _ => apply bytesrepr_sound in H as (? & ? & ->) end;
      (split; [done|apply Hsuf; by repeat apply suffix_app_r]).
  - intros bs a rest more Hr. apply bind_Ok in Hr as ([tag rem] & Hu & Hr). extend_step.
    repeat match type of Hr with (if ?b then _ else _) = _ => destruct b; [codec_inv; by repeat extend_step|] end; done.
Qed.

Record EraInfoRecord := MkEraInfo { seigniorage_allocations : list SeigniorageAllocation }.

(** [EraInfo::select]. *)
Definition EraInfo_select (e : EraInfoRecord) (public_key : PublicKey) : list SeigniorageAllocation :=
  List.filter (fun allocation =>
    match allocation with
    | AllocValidator validator _ => bool_decide (public_key = validator)
    | AllocDelegator delegator _ _ => bool_decide (public_key = delegator)
    end) (seigniorage_allocations e).

Definition EraInfo_serialized_length (x : EraInfoRecord) : nat :=
  serialized_length (seigniorage_allocations x).
Definition EraInfo_write_bytes (x : EraInfoRecord) (writer : bytes) : bres bytes :=
  write_bytes (seigniorage_allocations x) writer.
Definition EraInfo_to_bytes (x : EraInfoRecord) : bres bytes :=
  _ ← allocate_buffer (EraInfo_serialized_length x); EraInfo_write_bytes x [].
Definition EraInfo_from_bytes (bs : bytes) : bres (EraInfoRecord * bytes) :=
  '(f0, bs) ← from_bytes bs;
  mret (MkEraInfo f0, bs).

#[export] Instance EraInfo_eq_dec : EqDecision EraInfoRecord.
Proof. solve_decision. Defined.
#[export] Instance EraInfo_ToBytes : ToBytes EraInfoRecord := {|
  to_bytes := EraInfo_to_bytes; into_bytes := EraInfo_to_bytes;
  serialized_length := EraInfo_serialized_length; write_bytes := EraInfo_write_bytes |}.
#[export] Instance EraInfo_FromBytes : FromBytes EraInfoRecord := default_FromBytes EraInfo_from_bytes.
#[export] Instance EraInfo_Valid : Valid EraInfoRecord := fun x =>
  valid (seigniorage_allocations x).

Definition EraInfo_body (x : EraInfoRecord) : bres bytes :=
  b0 ← to_bytes (seigniorage_allocations x);
  mret (b0).

#[export] Instance EraInfo_Bytesrepr : Bytesrepr EraInfoRecord.
Proof.
  written_codec EraInfo_body ltac:(unfold EraInfo_body, EraInfo_write_bytes, EraInfo_serialized_length, EraInfo_from_bytes, EraInfo_Valid).
Qed.

End Auction.

(** ** Deploy infos *)

Record DeployInfoRecord := MkDeployInfo {
  info_deploy_hash : DeployHash;
  info_transfers : list TransferAddr;
  info_from : AccountHash;
  info_source : URef;
  info_gas : U512;
}.

Definition DeployInfo_serialized_length (x : DeployInfoRecord) : nat :=
  serialized_length (info_deploy_hash x) + serialized_length (info_transfers x) + serialized_length (info_from x) + serialized_length (info_source x) + serialized_length (info_gas x).
Definition DeployInfo_write_bytes (x : DeployInfoRecord) (writer : bytes) : bres bytes :=
  writer ← write_bytes (info_deploy_hash x) writer;
  writer ← write_bytes (info_transfers x) writer;
  writer ← write_bytes (info_from x) writer;
  writer ← write_bytes (info_source x) writer;
  write_bytes (info_gas x) writer.
Definition DeployInfo_to_bytes (x : DeployInfoRecord) : bres bytes :=
  _ ← allocate_buffer (DeployInfo_serialized_length x); DeployInfo_write_bytes x [].
Definition DeployInfo_from_bytes (bs : bytes) : bres (DeployInfoRecord * bytes) :=
  '(f0, bs) ← from_bytes bs;
  '(f1, bs) ← from_bytes bs;
  '(f2, bs) ← from_bytes bs;
  '(f3, bs) ← from_bytes bs;
  '(f4, bs) ← from_bytes bs;
  mret (MkDeployInfo f0 f1 f2 f3 f4, bs).

#[export] Instance DeployInfo_eq_dec : EqDecision DeployInfoRecord.
Proof. solve_decision. Defined.
#[export] Instance DeployInfo_ToBytes : ToBytes DeployInfoRecord := {|
  to_bytes := DeployInfo_to_bytes; into_bytes := DeployInfo_to_bytes;
  serialized_length := DeployInfo_serialized_length; write_bytes := DeployInfo_write_bytes |}.
#[export] Instance DeployInfo_FromBytes : FromBytes DeployInfoRecord := default_FromBytes DeployInfo_from_bytes.
#[export] Instance DeployInfo_Valid : Valid DeployInfoRecord := fun x =>
  valid (info_deploy_hash x) /\ valid (info_transfers x) /\ valid (info_from x) /\ valid (info_source x) /\ valid (info_gas x).

Definition DeployInfo_body (x : DeployInfoRecord) : bres bytes :=
  b0 ← to_bytes (info_deploy_hash x);
  b1 ← to_bytes (info_transfers x);
  b2 ← to_bytes (info_from x);
  b3 ← to_bytes (info_source x);
  b4 ← to_bytes (info_gas x);
  mret (b0 ++ b1 ++ b2 ++ b3 ++ b4).

#[export] Instance DeployInfo_Bytesrepr : Bytesrepr DeployInfoRecord.
Proof.
  written_codec DeployInfo_body ltac:(unfold DeployInfo_body, DeployInfo_write_bytes, DeployInfo_serialized_length, DeployInfo_from_bytes, DeployInfo_Valid).
Qed.
