(* ===== verification/StoredValue.v ===== *)
(** * Stored values: [types/src/stored_value.rs], with the [Transfer] of
    [transfer.rs]. *)

From S2P Require Import Prelude Bytesrepr Hashing KeyTypes Values PublicKeys Account Contracts AuctionData.
Local Open Scope Z_scope.

(** ** Transfers *)

Record TransferRecord := MkTransfer {
  transfer_deploy_hash : DeployHash;
  transfer_from : AccountHash;
  transfer_to : option AccountHash;
  transfer_source : URef;
  transfer_target : URef;
  transfer_amount : U512;
  transfer_gas : U512;
  transfer_id : option u64;
}.

Definition Transfer_write_bytes (t : TransferRecord) (writer : bytes) : bres bytes :=
  writer ← write_bytes (transfer_deploy_hash t) writer;
  writer ← write_bytes (transfer_from t) writer;
  writer ← write_bytes (transfer_to t) writer;
  writer ← write_bytes (transfer_source t) writer;
  writer ← write_bytes (transfer_target t) writer;
  writer ← write_bytes (transfer_amount t) writer;
  writer ← write_bytes (transfer_gas t) writer;
  write_bytes (transfer_id t) writer.
Definition Transfer_serialized_length (t : TransferRecord) : nat :=
  serialized_length (transfer_deploy_hash t) + serialized_length (transfer_from t) +
  serialized_length (transfer_to t) + serialized_length (transfer_source t) +
  serialized_length (transfer_target t) + serialized_length (transfer_amount t) +
  serialized_length (transfer_gas t) + serialized_length (transfer_id t).
Definition Transfer_to_bytes (t : TransferRecord) : bres bytes :=
  _ ← allocate_buffer (Transfer_serialized_length t); Transfer_write_bytes t [].
Definition Transfer_from_bytes (bs : bytes) : bres (TransferRecord * bytes) :=
  '(deploy_hash, rem) ← from_bytes bs;
  '(from, rem) ← from_bytes rem;
  '(to, rem) ← from_bytes rem;
  '(source, rem) ← from_bytes rem;
  '(target, rem) ← from_bytes rem;
  '(amount, rem) ← from_bytes rem;
  '(gas, rem) ← from_bytes rem;
  '(id, rem) ← from_bytes rem;
  mret (MkTransfer deploy_hash from to source target amount gas id, rem).

#[export] Instance Transfer_eq_dec : EqDecision TransferRecord.
Proof. solve_decision. Defined.
#[export] Instance Transfer_ToBytes : ToBytes TransferRecord := {|
  to_bytes := Transfer_to_bytes; into_bytes := Transfer_to_bytes;
  serialized_length := Transfer_serialized_length; write_bytes := Transfer_write_bytes |}.
#[export] Instance Transfer_FromBytes : FromBytes TransferRecord := default_FromBytes Transfer_from_bytes.
#[export] Instance Transfer_Valid : Valid TransferRecord := fun t =>
  valid (transfer_deploy_hash t) /\ valid (transfer_from t) /\ valid (transfer_to t) /\
  valid (transfer_source t) /\ valid (transfer_target t) /\ valid (transfer_amount t) /\
  valid (transfer_gas t) /\ valid (transfer_id t).

Definition transfer_body (t : TransferRecord) : bres bytes :=
  b0 ← to_bytes (transfer_deploy_hash t);
  b1 ← to_bytes (transfer_from t);
  b2 ← to_bytes (transfer_to t);
  b3 ← to_bytes (transfer_source t);
  b4 ← to_bytes (transfer_target t);
  b5 ← to_bytes (transfer_amount t);
  b6 ← to_bytes (transfer_gas t);
  b7 ← to_bytes (transfer_id t);
  mret (b0 ++ b1 ++ b2 ++ b3 ++ b4 ++ b5 ++ b6 ++ b7).

#[export] Instance Transfer_Bytesrepr : Bytesrepr TransferRecord.
Proof.
  written_codec transfer_body ltac:(unfold transfer_body, Transfer_write_bytes, Transfer_serialized_length,
    Transfer_from_bytes, Transfer_Valid).
Qed.

Section StoredValue.
Context `{KeyCrates}.

(** ** Stored values *)

Inductive StoredValue :=
| StoredCLValue (cl_value : CLValue)
| StoredAccount (account : AccountRecord)
| StoredContractWasm (contract_wasm : ContractWasm)
| StoredContract (contract : Contract)
| StoredContractPackage (contract_package : ContractPackage)
| StoredTransfer (transfer : TransferRecord)
| StoredDeployInfo (deploy_info : DeployInfoRecord)
| StoredEraInfo (era_info : EraInfoRecord)
| StoredBid (bid : Bid)
| StoredWithdraw (withdraw_purses : list WithdrawPurse)
| StoredUnbonding (unbonding_purses : list UnbondingPurse).

#[export] Instance StoredValue_eq_dec : EqDecision StoredValue.
Proof. solve_decision. Defined.

Definition StoredValue_tag (v : StoredValue) : Byte.byte :=
  match v with
  | StoredCLValue _ => Byte.x00
  | StoredAccount _ => Byte.x01
  | StoredContractWasm _ => Byte.x02
  | StoredContract _ => Byte.x03
  | StoredContractPackage _ => Byte.x04
  | StoredTransfer _ => Byte.x05
  | StoredDeployInfo _ => Byte.x06
  | StoredEraInfo _ => Byte.x07
  | StoredBid _ => Byte.x08
  | StoredWithdraw _ => Byte.x09
  | StoredUnbonding _ => Byte.x0a
  end.

Definition StoredValue_serialized_length (v : StoredValue) : nat :=
  U8_SERIALIZED_LENGTH +
  match v with
  | StoredCLValue cl_value => serialized_length cl_value
  | StoredAccount account => serialized_length account
  | StoredContractWasm contract_wasm => serialized_length contract_wasm
  | StoredContract contract => serialized_length contract
  | StoredContractPackage contract_package => serialized_length contract_package
  | StoredTransfer transfer => serialized_length transfer
  | StoredDeployInfo deploy_info => serialized_length deploy_info
  | StoredEraInfo era_info => serialized_length era_info
  | StoredBid bid => serialized_length bid
  | StoredWithdraw withdraw_purses => serialized_length withdraw_purses
  | StoredUnbonding unbonding_purses => serialized_length unbonding_purses
  end.

Definition StoredValue_to_bytes (v : StoredValue) : bres bytes :=
  _ ← allocate_buffer (StoredValue_serialized_length v);
  serialized_data ← match v with
    | StoredCLValue cl_value => to_bytes cl_value
    | StoredAccount account => to_bytes account
    | StoredContractWasm contract_wasm => to_bytes contract_wasm
    | StoredContract contract => to_bytes contract
    | StoredContractPackage contract_package => to_bytes contract_package
    | StoredTransfer transfer => to_bytes transfer
    | StoredDeployInfo deploy_info => to_bytes deploy_info
    | StoredEraInfo era_info => to_bytes era_info
    | StoredBid bid => to_bytes bid
    | StoredWithdraw withdraw_purses => to_bytes withdraw_purses
    | StoredUnbonding unbonding_purses => to_bytes unbonding_purses
    end;
  mret (StoredValue_tag v :: serialized_data).

Definition StoredValue_write_bytes (v : StoredValue) (writer : bytes) : bres bytes :=
  let writer := writer ++ [StoredValue_tag v] in
  match v with
  | StoredCLValue cl_value => write_bytes cl_value writer
  | StoredAccount account => write_bytes account writer
  | StoredContractWasm contract_wasm => write_bytes contract_wasm writer
  | StoredContract contract => write_bytes contract writer
  | StoredContractPackage contract_package => write_bytes contract_package writer
  | StoredTransfer transfer => write_bytes transfer writer
  | StoredDeployInfo deploy_info => write_bytes deploy_info writer
  | StoredEraInfo era_info => write_bytes era_info writer
  | StoredBid bid => write_bytes bid writer
  | StoredWithdraw withdraw_purses => write_bytes withdraw_purses writer
  | StoredUnbonding unbonding_purses => write_bytes unbonding_purses writer
  end.

Definition StoredValue_from_bytes (bs : bytes) : bres (StoredValue * bytes) :=
  '(tag, remainder) ← u8_from_bytes bs;
  if Byte.eqb tag Byte.x00 then '(v, remainder) ← from_bytes remainder; Ok (StoredCLValue v, remainder)
  else if Byte.eqb tag Byte.x01 then '(v, remainder) ← from_bytes remainder; Ok (StoredAccount v, remainder)
  else if Byte.eqb tag Byte.x02 then '(v, remainder) ← from_bytes remainder; Ok (StoredContractWasm v, remainder)
  else if Byte.eqb tag Byte.x04 then '(v, remainder) ← from_bytes remainder; Ok (StoredContractPackage v, remainder)
  else if Byte.eqb tag Byte.x03 then '(v, remainder) ← from_bytes remainder; Ok (StoredContract v, remainder)
  else if Byte.eqb tag Byte.x05 then '(v, remainder) ← from_bytes remainder; Ok (StoredTransfer v, remainder)
  else if Byte.eqb tag Byte.x06 then '(v, remainder) ← from_bytes remainder; Ok (StoredDeployInfo v, remainder)
  else if Byte.eqb tag Byte.x07 then '(v, remainder) ← from_bytes remainder; Ok (StoredEraInfo v, remainder)
  else if Byte.eqb tag Byte.x08 then '(v, remainder) ← from_bytes remainder; Ok (StoredBid v, remainder)
  else if Byte.eqb tag Byte.x09 then '(v, remainder) ← from_bytes remainder; Ok (StoredWithdraw v, remainder)
  else if Byte.eqb tag Byte.x0a then '(v, remainder) ← from_bytes remainder; Ok (StoredUnbonding v, remainder)
  else Err Formatting.

#[export] Instance StoredValue_ToBytes : ToBytes StoredValue := {|
  to_bytes := StoredValue_to_bytes; into_bytes := StoredValue_to_bytes;
  serialized_length := StoredValue_serialized_length; write_bytes := StoredValue_write_bytes |}.
#[export] Instance StoredValue_FromBytes : FromBytes StoredValue := default_FromBytes StoredValue_from_bytes.
#[export] Instance StoredValue_Valid : Valid StoredValue := fun v =>
  match v with
  | StoredCLValue v => valid v
  | StoredAccount v => valid v
  | StoredContractWasm v => valid v
  | StoredContract v => valid v
  | StoredContractPackage v => valid v
  | StoredTransfer v => valid v
  | StoredDeployInfo v => valid v
  | StoredEraInfo v => valid v
  | StoredBid v => valid v
  | StoredWithdraw v => valid v
  | StoredUnbonding v => valid v
  end.

Lemma u8_from_bytes_cons b bs : u8_from_bytes (b :: bs) = Ok (b, bs).
Proof. done. Qed.

Lemma StoredValue_from_bytes_cases bs v rest :
  StoredValue_from_bytes bs = Ok (v, rest) ->
  exists remainder, bs = StoredValue_tag v :: remainder /\ valid v /\ (exists used, remainder = used ++ rest) /\
    forall more, StoredValue_from_bytes (bs ++ more) = Ok (v, rest ++ more).
Proof.
  unfold StoredValue_from_bytes. intros Hr.
  apply bind_Ok in Hr as ([tag remainder] & ->%u8_from_bytes_Ok & Hr). exists remainder.
  assert (forall more, u8_from_bytes ((tag :: remainder) ++ more) = Ok (tag, remainder ++ more)) as U by done.
  repeat match type of Hr with
  | (if ?b then _ else _) = _ =>
      let E := fresh "E" in
      destruct b eqn:E;
      [apply Byte.byte_dec_bl in E; subst tag; codec_inv;
       match goal with H : from_bytes _ = _ |- _ =>
         pose proof (fun more => bytesrepr_extend _ _ _ more H) as X;
         apply bytesrepr_sound in H as (? & ? & ->); split_and!; [done|done|by eexists|];
         intros more; rewrite (bind_eq _ _ _ (U more)); cbn beta iota;
         repeat match goal with |- context [Byte.eqb ?a ?b] =>
           let r := eval vm_compute in (Byte.eqb a b) in change (Byte.eqb a b) with r end; cbn iota;
         rewrite (bind_eq _ _ _ (X more)); done end|]
  end; done.
Qed.

Lemma StoredValue_roundtrip v bs rest :
  valid v -> StoredValue_to_bytes v = Ok bs -> StoredValue_from_bytes (bs ++ rest) = Ok (v, rest).
Proof.
  intros Hv Hb. unfold StoredValue_to_bytes in Hb.
  apply bind_Ok in Hb as (u & _ & Hb). apply bind_Ok in Hb as (body & Hbody & [= <-]).
  unfold StoredValue_from_bytes.
  destruct v; cbn [app];
    rewrite (bind_eq _ _ _ (u8_from_bytes_cons _ (body ++ rest))); cbn beta iota;
    repeat match goal with |- context [Byte.eqb ?a ?b] =>
      let r := eval vm_compute in (Byte.eqb a b) in change (Byte.eqb a b) with r end; cbn iota;
    match type of Hbody with to_bytes ?x = _ =>
      rewrite (bind_eq _ _ _ (bytesrepr_roundtrip x body rest Hv Hbody)) end; done.
Qed.

#[export] Instance StoredValue_Bytesrepr : Bytesrepr StoredValue.
Proof.
  apply struct_bytesrepr.
  - apply StoredValue_roundtrip.
  - intros v bs Hv Hb. unfold StoredValue_to_bytes in Hb.
    apply bind_Ok in Hb as (u & _ & Hb). apply bind_Ok in Hb as (body & Hbody & [= <-]). cbn [length].
    unfold StoredValue_serialized_length. destruct v; apply bytesrepr_length in Hbody; auto; by rewrite Hbody.
  - intros v bs writer Hv Hb. unfold StoredValue_to_bytes in Hb.
    apply bind_Ok in Hb as (u & _ & Hb). apply bind_Ok in Hb as (body & Hbody & [= <-]).
    unfold StoredValue_write_bytes. destruct v; match type of Hbody with to_bytes ?x = _ =>
      rewrite (bytesrepr_write x body) by auto end; by rewrite <- app_assoc.
  - intros v Hv Hs. unfold StoredValue_to_bytes. rewrite allocate_buffer_fits by done.
    unfold StoredValue_serialized_length, U8_SERIALIZED_LENGTH in Hs.
    destruct v; match goal with |- context [to_bytes ?x] =>
      destruct (bytesrepr_total x) as (b & Hb & _); [by auto|lia|rewrite Hb; by eexists] end.
  - intros bs v rest (rem & -> & ? & (u & ->) & _)%StoredValue_from_bytes_cases.
    split; [done|by exists (StoredValue_tag v :: u)].
  - intros bs v rest more (rem & _ & _ & _ & X)%StoredValue_from_bytes_cases. apply X.
Qed.

End StoredValue.
