(* ===== verification/Transform.v ===== *)
(** * Transforms: [execution_engine/src/shared/transform.rs], with the map of
    effects of [shared/additive_map.rs] and [core/engine_state/execution_effect.rs].

    A [Transform] records one operation on a key; [apply] executes it on a stored
    value and [transform_add] combines two of them into one.  The file shows when
    the combination does what executing the two in order does.  Type-mismatch
    errors carry no texts. *)

From S2P Require Import Prelude Bytesrepr Hashing KeyTypes Values PublicKeys Account Contracts AuctionData StoredValue.
Local Open Scope Z_scope.

Inductive TransformError :=
| TSerialization (error : Error)
| TTypeMismatch.

#[export] Instance TransformError_eq_dec : EqDecision TransformError.
Proof. solve_decision. Defined.

(** [From<CLValueError>]. *)
Definition of_CLValueError (e : CLValueError) : TransformError :=
  match e with
  | CLSerialization error => TSerialization error
  | CLTypeMismatch _ _ => TTypeMismatch
  end.

Section Transform.
Context `{KeyCrates}.

Inductive Transform :=
| Identity
| Write (new_value : StoredValue)
| AddInt32 (to_add : Z)
| AddUInt64 (to_add : Z)
| AddUInt128 (to_add : Z)
| AddUInt256 (to_add : Z)
| AddUInt512 (to_add : Z)
| AddKeys (keys : NamedKeys)
| Failure (error : TransformError).

#[export] Instance Transform_eq_dec : EqDecision Transform.
Proof. solve_decision. Defined.

(** ** Applying a transform *)

#[local] Instance ContractPackage_CLTyped : CLTyped ContractPackage := CLType.Any.

(** [CLValue::try_from(stored_value)]. *)
Definition CLValue_try_from (stored_value : StoredValue) : res TransformError CLValue :=
  match stored_value with
  | StoredCLValue cl_value => Ok cl_value
  | StoredContractPackage contract_package => map_err (fun _ => TTypeMismatch) (from_t contract_package)
  | _ => Err TTypeMismatch
  end.

(** [X] is the type of the stored integer, [Y] that of the addend. *)
Definition do_wrapping_addition (X Y : IntType) (cl_value : CLValue) (to_add : Z) : res TransformError StoredValue :=
  x ← map_err of_CLValueError (into_t (A:=int X) cl_value);
  let result := int_wrapping_add X (int_val x) (as_ Y X to_add) in
  v ← map_err of_CLValueError (from_t (MkInt result : int X));
  Ok (StoredCLValue v).

Definition wrapping_addition (Y : IntType) (stored_value : StoredValue) (to_add : Z) : res TransformError StoredValue :=
  cl_value ← CLValue_try_from stored_value;
  match cl_type cl_value with
  | CLType.I32 => do_wrapping_addition TI32 Y cl_value to_add
  | CLType.I64 => do_wrapping_addition TI64 Y cl_value to_add
  | CLType.U8 => do_wrapping_addition TU8 Y cl_value to_add
  | CLType.U32 => do_wrapping_addition TU32 Y cl_value to_add
  | CLType.U64 => do_wrapping_addition TU64 Y cl_value to_add
  | CLType.U128 => do_wrapping_addition TU128 Y cl_value to_add
  | CLType.U256 => do_wrapping_addition TU256 Y cl_value to_add
  | CLType.U512 => do_wrapping_addition TU512 Y cl_value to_add
  | _ => Err TTypeMismatch
  end.

Definition apply (t : Transform) (stored_value : StoredValue) : res TransformError StoredValue :=
  match t with
  | Identity => Ok stored_value
  | Write new_value => Ok new_value
  | AddInt32 to_add => wrapping_addition TI32 stored_value to_add
  | AddUInt64 to_add => wrapping_addition TU64 stored_value to_add
  | AddUInt128 to_add => wrapping_addition TU128 stored_value to_add
  | AddUInt256 to_add => wrapping_addition TU256 stored_value to_add
  | AddUInt512 to_add => wrapping_addition TU512 stored_value to_add
  | AddKeys keys =>
      match stored_value with
      | StoredContract contract => Ok (StoredContract (Contract_named_keys_append contract keys))
      | StoredAccount account => Ok (StoredAccount (Account_named_keys_append account keys))
      | _ => Err TTypeMismatch
      end
  | Failure error => Err error
  end.

(** ** Combining transforms *)

(** [From<T> for Transform] and [TryFrom<Transform> for T] for the types that have an addition. *)
Definition of_addend (T : IntType) (z : Z) : Transform :=
  match T with
  | TI32 => AddInt32 z
  | TU64 => AddUInt64 z
  | TU128 => AddUInt128 z
  | TU256 => AddUInt256 z
  | TU512 => AddUInt512 z
  | TI64 | TU8 | TU32 => Failure TTypeMismatch
  end.
Definition addend (t : Transform) : option (IntType * Z) :=
  match t with
  | AddInt32 z => Some (TI32, z)
  | AddUInt64 z => Some (TU64, z)
  | AddUInt128 z => Some (TU128, z)
  | AddUInt256 z => Some (TU256, z)
  | AddUInt512 z => Some (TU512, z)
  | _ => None
  end.

Definition wrapped_transform_addition (T : IntType) (i : Z) (b : Transform) : Transform :=
  match b with
  | AddInt32 j => of_addend T (int_wrapping_add T i (as_ TI32 T j))
  | AddUInt64 j => of_addend T (int_wrapping_add T i j)
  | _ =>
      match addend b with
      | Some (T', j) => if decide (T' = T) then of_addend T (int_wrapping_add T i j) else Failure TTypeMismatch
      | None => Failure TTypeMismatch
      end
  end.

(** [Add for Transform]. *)
Definition transform_add (a b : Transform) : Transform :=
  match a, b with
  | a, Identity => a
  | Identity, b => b
  | Failure e, _ => Failure e
  | _, Failure e => Failure e
  | _, Write v => Write v
  | Write v, b =>
      match apply b v with
      | Ok new_value => Write new_value
      | Err error => Failure error
      | _ => Failure TTypeMismatch
      end
  | AddInt32 i, AddInt32 j => AddInt32 (int_wrapping_add TI32 i j)
  | AddInt32 i, AddUInt64 j => AddUInt64 (int_wrapping_add TU64 j (cast TU64 i))
  | AddInt32 i, AddUInt128 j => AddUInt128 (int_wrapping_add TU128 j (as_ TI32 TU128 i))
  | AddInt32 i, AddUInt256 j => AddUInt256 (int_wrapping_add TU256 j (as_ TI32 TU256 i))
  | AddInt32 i, AddUInt512 j => AddUInt512 (int_wrapping_add TU512 j (as_ TI32 TU512 i))
  | AddInt32 _, _ => Failure TTypeMismatch
  | AddUInt64 i, AddInt32 j => AddInt32 (int_wrapping_add TI32 j (cast TI32 i))
  | AddUInt64 i, AddUInt64 j => AddUInt64 (int_wrapping_add TU64 i j)
  | AddUInt64 i, AddUInt128 j => AddUInt128 (int_wrapping_add TU128 j i)
  | AddUInt64 i, AddUInt256 j => AddUInt256 (int_wrapping_add TU256 j i)
  | AddUInt64 i, AddUInt512 j => AddUInt512 (int_wrapping_add TU512 j i)
  | AddUInt64 _, _ => Failure TTypeMismatch
  | AddUInt128 i, b => wrapped_transform_addition TU128 i b
  | AddUInt256 i, b => wrapped_transform_addition TU256 i b
  | AddUInt512 i, b => wrapped_transform_addition TU512 i b
  | AddKeys ks1, AddKeys ks2 => AddKeys (btree_append ks1 ks2)
  | AddKeys _, _ => Failure TTypeMismatch
  end.

(** ** The effects of a journal *)

(** [AdditiveMap::insert_add] on the map of transforms. *)
Definition insert_add (m : gmap Key Transform) (key : Key) (value_to_add : Transform) : gmap Key Transform :=
  <[key := transform_add (default Identity (m !! key)) value_to_add]> m.

Abbreviation ExecutionJournal := (list (Key * Transform)).

(** [From<ExecutionJournal> for AdditiveMap<Key, Transform>]. *)
Definition journal_effects (journal : ExecutionJournal) : gmap Key Transform :=
  fold_left (fun m e => insert_add m e.1 e.2) journal ∅.

(** ** Integers in stored values *)

Definition int_type_of (c : CLType) : option IntType :=
  match c with
  | CLType.I32 => Some TI32 | CLType.I64 => Some TI64 | CLType.U8 => Some TU8 | CLType.U32 => Some TU32
  | CLType.U64 => Some TU64 | CLType.U128 => Some TU128 | CLType.U256 => Some TU256
  | CLType.U512 => Some TU512 | _ => None
  end.

(** The integer a stored value holds, with its type. *)
Definition int_value (v : StoredValue) : option (IntType * Z) :=
  match v with
  | StoredCLValue cl_value =>
      match int_type_of (cl_type cl_value) with
      | Some X => match into_t (A:=int X) cl_value with Ok x => Some (X, int_val x) | _ => None end
      | None => None
      end
  | _ => None
  end.

Definition stored_int (X : IntType) (z : Z) : StoredValue :=
  StoredCLValue match from_t (MkInt z : int X) with Ok v => v | _ => MkCLValue CLType.Unit (MkBytes []) end.

Lemma int_type_of_int X : int_type_of (cl_type_of (int X)) = Some X.
Proof. by destruct X. Qed.

Lemma stored_int_eq X z : in_int X z -> exists v, from_t (MkInt z : int X) = Ok v /\
  stored_int X z = StoredCLValue v /\ valid v /\ int_value (StoredCLValue v) = Some (X, z).
Proof.
  intros Hz. destruct (from_t_int X z Hz) as (v & E & Hv & Ht & Hi). exists v. unfold stored_int.
  rewrite E. split; [done|split; [done|split; [exact Hv|]]]. unfold int_value. by rewrite Ht, int_type_of_int, Hi.
Qed.

Lemma int_value_stored X z : in_int X z -> int_value (stored_int X z) = Some (X, z).
Proof. intros Hz. by destruct (stored_int_eq X z Hz) as (v & _ & -> & _ & ->). Qed.

Lemma int_value_range v X x : int_value v = Some (X, x) -> in_int X x.
Proof.
  unfold int_value. destruct v; try done. destruct (int_type_of _) as [X'|]; [|done].
  destruct (into_t _) as [i| | |] eqn:E; try done. intros [= <- <-]. by apply into_t_valid in E.
Qed.

Lemma do_wrapping_addition_eq X Y cl x j : in_int Y j -> into_t (A:=int X) cl = Ok x ->
  do_wrapping_addition X Y cl j = Ok (stored_int X (cast X (int_val x + j))).
Proof.
  intros Hj E. unfold do_wrapping_addition. rewrite E. cbn [map_err mbind res_bind].
  rewrite as_cast by done. unfold int_wrapping_add.
  rewrite (cast_congr X (int_val x + cast X j) (int_val x + j)).
  2: { rewrite Z.add_mod, cast_mod, <- Z.add_mod by (destruct X; done). done. }
  destruct (stored_int_eq X (cast X (int_val x + j)) (cast_range _ _)) as (v & E' & -> & _).
  rewrite E'. done.
Qed.

(** Adding to a stored integer works modulo its own width, whatever the type of
    the addend; adding to anything else fails. *)
Lemma wrapping_addition_int Y v X x j : in_int Y j -> int_value v = Some (X, x) ->
  wrapping_addition Y v j = Ok (stored_int X (cast X (x + j))).
Proof.
  intros Hj. unfold int_value, wrapping_addition. destruct v as [cl| | | | | | | | | |]; try done.
  cbn [CLValue_try_from mbind res_bind].
  destruct (cl_type cl) eqn:Et; cbn [int_type_of]; try done;
    match goal with |- context [into_t ?c] => destruct (into_t c) as [i| | |] eqn:E; try done end;
    intros [= <- <-]; by apply do_wrapping_addition_eq.
Qed.

Lemma wrapping_addition_other Y v j : int_value v = None -> is_ok (wrapping_addition Y v j) = false.
Proof.
  unfold int_value, wrapping_addition. destruct v as [cl| | | |p| | | | | |]; try done.
  - cbn [CLValue_try_from mbind res_bind].
    destruct (cl_type cl) eqn:Et; cbn [int_type_of]; try done;
      unfold do_wrapping_addition;
      match goal with |- context [into_t ?c] => destruct (into_t c) as [i| | |] eqn:E; done end.
  - intros _. cbn [CLValue_try_from]. unfold from_t. by destruct (into_bytes p).
Qed.

Lemma wrapping_addition_Ok Y v j v' : in_int Y j -> wrapping_addition Y v j = Ok v' ->
  exists X x, int_value v = Some (X, x) /\ v' = stored_int X (cast X (x + j)).
Proof.
  intros Hj E. destruct (int_value v) as [[X x]|] eqn:Ev.
  - rewrite (wrapping_addition_int _ _ _ _ _ Hj Ev) in E. apply Ok_inj in E. eauto.
  - pose proof (wrapping_addition_other Y v j Ev) as N. by rewrite E in N.
Qed.

(** ** When combining transforms is exact *)

Definition additive (Y : IntType) : Prop := of_addend Y 0 <> Failure TTypeMismatch.

Lemma addend_Some t Y j : addend t = Some (Y, j) -> t = of_addend Y j /\ additive Y.
Proof. unfold additive. by destruct t; intros [= <- <-]. Qed.

Lemma apply_of_addend Y j v : additive Y -> apply (of_addend Y j) v = wrapping_addition Y v j.
Proof. unfold additive. by destruct Y. Qed.

(** The type of the combination of two additions. *)
Definition combined_type (Y1 Y2 : IntType) : option IntType :=
  if is_big Y1 then
    if is_big Y2 then if decide (Y1 = Y2) then Some Y1 else None else Some Y1
  else Some Y2.

Lemma transform_add_addends Y1 Y2 i j : additive Y1 -> additive Y2 -> in_int Y1 i -> in_int Y2 j ->
  transform_add (of_addend Y1 i) (of_addend Y2 j) =
  match combined_type Y1 Y2 with
  | Some Y => of_addend Y (cast Y (i + j))
  | None => Failure TTypeMismatch
  end.
Proof.
  unfold additive. intros A1 A2 Hi Hj.
  assert (forall Y a b, cast Y (a + cast Y b) = cast Y (b + a)) as C1.
  { intros Y a b. apply cast_congr. rewrite Z.add_mod, cast_mod, <- Z.add_mod by (destruct Y; done).
    by rewrite Z.add_comm. }
  assert (forall Y a b, cast Y (a + cast Y b) = cast Y (a + b)) as C2.
  { intros Y a b. rewrite C1. by rewrite Z.add_comm. }
  destruct Y1, Y2; try done;
    cbn [transform_add of_addend wrapped_transform_addition addend combined_type is_big];
    unfold int_wrapping_add; rewrite ?as_cast by done; rewrite ?C1, ?C2; try done;
    first [by rewrite (Z.add_comm j i) | by repeat case_decide].
Qed.

Lemma cast_add_cast X Y a b : int_bits X <= int_bits Y -> cast X (a + cast Y b) = cast X (a + b).
Proof.
  intros Hw. apply cast_congr. assert (0 < int_bits X) by (destruct X; done).
  rewrite (Z.add_mod a (cast Y b)), (Z.add_mod a b) by lia. do 2 f_equal.
  rewrite <- (mod_mod_pow (cast Y b) _ (int_bits Y)), cast_mod, mod_mod_pow by lia. done.
Qed.

(** Named keys of a stored value are sorted, as those of a [BTreeMap] are. *)
Definition keys_sorted (v : StoredValue) : Prop :=
  match v with
  | StoredAccount a => btree_sorted (entries (account_named_keys a))
  | StoredContract c => btree_sorted (entries (contract_named_keys c))
  | _ => True
  end.

(** The values a transform carries are values of their types. *)
Definition transform_ok (t : Transform) : Prop :=
  match t with
  | Write v => keys_sorted v
  | AddKeys ks => btree_sorted (entries ks)
  | _ => match addend t with Some (Y, j) => in_int Y j | None => True end
  end.

(** [t] adds, if it adds a number at all, one of type [Y]. *)
Definition adds_as (Y : IntType) (t : Transform) : Prop :=
  match addend t with Some (Y', _) => Y' = Y | None => True end.

(** The integer of [v], if it is one, is at most as wide as [Y]. *)
Definition fits (Y : IntType) (v : StoredValue) : Prop :=
  match int_value v with Some (X, _) => int_bits X <= int_bits Y | None => True end.

(** One step on the content of a key: what [commit] does with an effect. *)
Definition exec (t : Transform) (o : option StoredValue) : res TransformError (option StoredValue) :=
  match o, t with
  | None, Write v => Ok (Some v)
  | None, _ => Err TTypeMismatch
  | Some v, t => v ← apply t v; Ok (Some v)
  end.

Lemma keys_sorted_apply t v v' : transform_ok t -> keys_sorted v -> apply t v = Ok v' -> keys_sorted v'.
Proof.
  assert (forall Y j v v', wrapping_addition Y v j = Ok v' -> keys_sorted v') as W.
  { clear. intros Y j v v'. unfold wrapping_addition, do_wrapping_addition.
    intros (cl & _ & E)%bind_Ok. destruct (cl_type cl); try done;
      apply bind_Ok in E as (? & _ & E); apply bind_Ok in E as (? & _ & [= <-]); done. }
  destruct t; cbn [apply]; intros Ht Hv E; try exact (W _ _ _ _ E); try done.
  - by injection E as <-.
  - by injection E as <-.
  - destruct v; try done; injection E as <-; by apply btree_append_sorted.
Qed.

Lemma transform_ok_of_addend Y z : in_int Y z -> transform_ok (of_addend Y z).
Proof. by destruct Y. Qed.

Lemma exec_Some t o o' : exec t o = Ok o' -> exists v', o' = Some v' /\
  ((exists v, o = Some v /\ apply t v = Ok v') \/ (o = None /\ t = Write v')).
Proof.
  destruct o as [v|]; cbn.
  - intros (v' & E & [= <-])%bind_Ok. eauto 6.
  - destruct t; try done. intros [= <-]. eauto.
Qed.

(** Combining two additions of the type of the value's discipline. *)
Lemma add_add_exact Y v i j v1 v2 : additive Y -> in_int Y i -> in_int Y j -> fits Y v ->
  wrapping_addition Y v i = Ok v1 -> wrapping_addition Y v1 j = Ok v2 ->
  transform_add (of_addend Y i) (of_addend Y j) = of_addend Y (cast Y (i + j)) /\
  apply (of_addend Y (cast Y (i + j))) v = Ok v2.
Proof.
  intros Ha Hi Hj Hf E1 E2. rewrite transform_add_addends by done.
  assert (combined_type Y Y = Some Y) as ->
    by (unfold combined_type; destruct (is_big Y); [by rewrite decide_True|done]).
  split; [done|]. rewrite apply_of_addend by done.
  destruct (wrapping_addition_Ok _ _ _ _ Hi E1) as (X & x & Ev & ->). unfold fits in Hf. rewrite Ev in Hf.
  rewrite (wrapping_addition_int Y v X x) by (done || apply cast_range).
  rewrite (wrapping_addition_int Y _ X (cast X (x + i))) in E2.
  2: done. 2: apply int_value_stored, cast_range.
  rewrite <- E2. do 2 f_equal. rewrite cast_add_cast by done. symmetry.
  rewrite (Z.add_comm (cast X _) j), cast_add_cast by lia. f_equal. lia.
Qed.

Inductive transform_case : Transform -> Prop :=
| case_identity : transform_case Identity
| case_write v : transform_case (Write v)
| case_addend Y j : additive Y -> transform_case (of_addend Y j)
| case_keys ks : transform_case (AddKeys ks)
| case_failure e : transform_case (Failure e).

Lemma transform_cases t : transform_case t.
Proof.
  assert (forall Y j, additive Y -> of_addend Y j = t -> transform_case t) as A by (intros Y j Ha <-; by constructor).
  destruct t; try constructor.
  - by apply (A TI32 to_add).
  - by apply (A TU64 to_add).
  - by apply (A TU128 to_add).
  - by apply (A TU256 to_add).
  - by apply (A TU512 to_add).
Qed.

Lemma addend_of_addend Y j : additive Y -> addend (of_addend Y j) = Some (Y, j).
Proof. unfold additive. by destruct Y. Qed.

Lemma add_identity_r a : transform_add a Identity = a.
Proof. by destruct a. Qed.

Lemma add_identity_l b : transform_add Identity b = b.
Proof. by destruct b. Qed.

Lemma add_write_r a w : (forall e, a <> Failure e) -> transform_add a (Write w) = Write w.
Proof. destruct a; try done. intros F. by destruct (F error). Qed.

Lemma add_write_l v b v1 : apply b v = Ok v1 -> transform_add (Write v) b = Write v1.
Proof.
  destruct b; cbn [apply transform_add]; intros E; try (by rewrite E); try done.
  - by apply Ok_inj in E as ->.
  - by apply Ok_inj in E as ->.
Qed.

(** Executing [a] and then [b] on a value is executing their combination. *)
Lemma apply_compose Y a b v v1 v2 : transform_ok a -> transform_ok b -> adds_as Y a -> adds_as Y b ->
  fits Y v -> keys_sorted v -> apply a v = Ok v1 -> apply b v1 = Ok v2 ->
  apply (transform_add a b) v = Ok v2 /\ transform_ok (transform_add a b) /\ adds_as Y (transform_add a b).
Proof.
  intros Oa Ob Aa Ab Hf Hs Ea Eb. pose proof (keys_sorted_apply a v v1 Oa Hs Ea) as Hs1.
  destruct (transform_cases b) as [|w|Y' j Hj|ks|e]; [|rewrite add_write_r by (by intros e ->)| | |done].
  { rewrite add_identity_r. apply Ok_inj in Eb as <-. done. }
  { by apply Ok_inj in Eb as <-. }
  - unfold adds_as in Ab. rewrite addend_of_addend in Ab by done. subst Y'.
    assert (in_int Y j) as Rj by (unfold additive in Hj; by destruct Y).
    rewrite apply_of_addend in Eb by done.
    destruct (transform_cases a) as [|w|Y' i Hi|ks|e]; [| | | |done].
    + apply Ok_inj in Ea as <-. rewrite add_identity_l, apply_of_addend by done.
      split_and!; [done|by apply transform_ok_of_addend|]. unfold adds_as. by rewrite addend_of_addend.
    + apply Ok_inj in Ea as <-. rewrite (add_write_l w _ v2) by by rewrite apply_of_addend.
      split_and!; [done| |done]. apply (keys_sorted_apply (of_addend Y j) w v2); [done|done|].
      by rewrite apply_of_addend.
    + unfold adds_as in Aa. rewrite addend_of_addend in Aa by done. subst Y'.
      assert (in_int Y i) as Ri by (unfold additive in Hj; by destruct Y).
      rewrite apply_of_addend in Ea by done.
      destruct (add_add_exact Y v i j v1 v2) as [-> ->]; [done..|].
      split_and!; [done|apply transform_ok_of_addend, cast_range|]. unfold adds_as. by rewrite addend_of_addend.
    + exfalso. assert (int_value v1 = None) as N
        by (cbn in Ea; destruct v; try done; by apply Ok_inj in Ea as <-).
      pose proof (wrapping_addition_other Y v1 j N) as N'. by rewrite Eb in N'.
  - destruct (transform_cases a) as [|w|Y' i Hi|ks1|e]; [| | | |done].
    + apply Ok_inj in Ea as <-. by rewrite add_identity_l.
    + apply Ok_inj in Ea as <-. rewrite (add_write_l w _ v2) by done.
      split_and!; [done| |done]. by apply (keys_sorted_apply (AddKeys ks) w v2).
    + exfalso. rewrite apply_of_addend in Ea by done.
      assert (in_int Y' i) as Ri by (unfold additive in Hi; by destruct Y').
      destruct (wrapping_addition_Ok _ _ _ _ Ri Ea) as (X & x & _ & ->).
      unfold stored_int in Eb. by cbn in Eb.
    + cbn [transform_add]. split_and!; [|by apply btree_append_sorted|done].
      cbn [apply] in *. destruct v; try done; apply Ok_inj in Ea as <-; apply Ok_inj in Eb as <-; cbn in Hs;
        unfold Contract_named_keys_append, Account_named_keys_append; cbn;
        by rewrite btree_append_assoc.
Qed.

(** Combining is exact: executing [a] and then [b] is executing their
    combination, when additions are made with one type as wide as the value. *)
Lemma exec_compose Y a b o o1 o2 : transform_ok a -> transform_ok b -> adds_as Y a -> adds_as Y b ->
  (forall v, o = Some v -> fits Y v /\ keys_sorted v) ->
  exec a o = Ok o1 -> exec b o1 = Ok o2 ->
  exec (transform_add a b) o = Ok o2 /\ transform_ok (transform_add a b) /\ adds_as Y (transform_add a b).
Proof.
  intros Oa Ob Aa Ab Ho Ea Eb.
  destruct (exec_Some _ _ _ Ea) as (v1 & -> & Ha). cbn [exec] in Eb. apply bind_Ok in Eb as (v2 & Eb & [= <-]).
  destruct Ha as [(v & -> & Ha)|(-> & ->)].
  - destruct (Ho v eq_refl) as [Hf Hs].
    destruct (apply_compose Y a b v v1 v2) as (E & O & A); [done..|]. cbn [exec]. by rewrite E.
  - rewrite (add_write_l v1 b v2) by done. split_and!; [done| |done].
    by apply (keys_sorted_apply b v1 v2).
Qed.

End Transform.
