(* ===== verification/TrackingCopy.v ===== *)
(** * The tracking copy: [execution_engine/src/core/tracking_copy/mod.rs] with
    [tracking_copy/meter.rs] and [tracking_copy/byte_size.rs].

    A [TrackingCopy] executes reads, writes and additions on top of a reader of
    the global state, keeps the changed values in a map, the values it has read
    in a size-bounded cache and a journal of all operations.  The crate
    [linked_hash_map] is an interface: a map whose entries are listed from the
    least to the most recently used one.  Cache sizes are sums of sizes of
    values held in memory and do not overflow a [usize]; their subtraction is
    checked. *)

From S2P Require Import Prelude Bytesrepr Hashing KeyTypes Values PublicKeys Account Contracts AuctionData StoredValue Transform.
Local Open Scope nat_scope.

(** ** [linked_hash_map::LinkedHashMap] *)

Fixpoint assoc_get {K V} `{EqDecision K} (k : K) (l : list (K * V)) : option V :=
  match l with
  | [] => None
  | (k', v) :: l => if decide (k' = k) then Some v else assoc_get k l
  end.
Definition assoc_remove {K V} `{EqDecision K} (k : K) (l : list (K * V)) : list (K * V) :=
  List.filter (fun e => bool_decide (e.1 <> k)) l.

(** What the code relies on: [insert] and [get_refresh] move the entry to the
    back, [pop_front] takes the entry at the front. *)
Class LinkedHashMap (K V : Type) `{EqDecision K} := {
  lhm : Type;
  lhm_entries : lhm -> list (K * V);
  lhm_new : lhm;
  lhm_insert : lhm -> K -> V -> lhm;
  lhm_get_refresh : lhm -> K -> option V * lhm;
  lhm_pop_front : lhm -> option (K * V) * lhm;
  lhm_new_spec : lhm_entries lhm_new = [];
  lhm_insert_spec m k v : lhm_entries (lhm_insert m k v) = assoc_remove k (lhm_entries m) ++ [(k, v)];
  lhm_get_refresh_spec m k :
    (lhm_get_refresh m k).1 = assoc_get k (lhm_entries m) /\
    lhm_entries (lhm_get_refresh m k).2 =
      match assoc_get k (lhm_entries m) with
      | Some v => assoc_remove k (lhm_entries m) ++ [(k, v)]
      | None => lhm_entries m
      end;
  lhm_pop_front_spec m :
    match lhm_entries m with
    | [] => (lhm_pop_front m).1 = None /\ lhm_entries (lhm_pop_front m).2 = []
    | e :: l => (lhm_pop_front m).1 = Some e /\ lhm_entries (lhm_pop_front m).2 = l
    end;
}.
Arguments lhm K V {_ _}.

#[export] Instance KeyTag_eq_dec : EqDecision KeyTag.
Proof. solve_decision. Defined.
#[export] Instance KeyTag_countable : Countable KeyTag.
Proof.
  refine (inj_countable KeyTag_u8 (fun b => match b with
    | Byte.x00 => Some TagAccount | Byte.x01 => Some TagHash | Byte.x02 => Some TagURef
    | Byte.x03 => Some TagTransfer | Byte.x04 => Some TagDeployInfo | Byte.x05 => Some TagEraInfo
    | Byte.x06 => Some TagBalance | Byte.x07 => Some TagBid | Byte.x08 => Some TagWithdraw
    | Byte.x09 => Some TagDictionary | Byte.x0a => Some TagSystemContractRegistry
    | Byte.x0b => Some TagUnbond | Byte.x0c => Some TagChainspecRegistry
    | Byte.x0d => Some TagBlockEffectsRootHash | Byte.x0e => Some TagDeployApprovalsRootHash
    | _ => None end) _).
  by intros [].
Defined.

(** [mem::size_of] of the types the meter measures. *)
Class SizeOf := { size_of_Key : nat; size_of_StoredValue : nat }.

Section TrackingCopy.
Context `{KeyCrates} `{SizeOf} {E : Type}.
Context `{!LinkedHashMap Key StoredValue} `{!LinkedHashMap KeyTag (gset Key)}.

(** ** Sizes *)

Definition StoredValue_byte_size (v : StoredValue) : nat :=
  size_of_StoredValue + (StoredValue_serialized_length v - U8_SERIALIZED_LENGTH).
Definition Key_byte_size (k : Key) : nat := size_of_Key + 0.
Definition measure (v : StoredValue) : nat := size_of_StoredValue + StoredValue_byte_size v.
Definition measure_keys (keys : gset Key) : nat := sum_list (Key_byte_size <$> elements keys).

(** ** The cache *)

Record TrackingCopyCache := MkCache {
  max_cache_size : nat;
  current_cache_size : nat;
  reads_cached : lhm Key StoredValue;
  muts_cached : gmap Key StoredValue;
  key_tag_reads_cached : lhm KeyTag (gset Key);
  key_tag_muts_cached : gmap KeyTag (gset Key);
}.

Definition TrackingCopyCache_new (max_cache_size : nat) : TrackingCopyCache :=
  MkCache max_cache_size 0 lhm_new ∅ lhm_new ∅.

Definition with_reads (c : TrackingCopyCache) (size : nat) (reads : lhm Key StoredValue) : TrackingCopyCache :=
  MkCache (max_cache_size c) size reads (muts_cached c) (key_tag_reads_cached c) (key_tag_muts_cached c).

(** The loop that makes room; it removes an entry in every iteration but the last. *)
Fixpoint evict (fuel : nat) (c : TrackingCopyCache) : res E TrackingCopyCache :=
  match fuel with
  | O => OutOfFuel
  | S fuel =>
      if max_cache_size c <? current_cache_size c then
        match lhm_pop_front (reads_cached c) with
        | (Some (k, v), reads) =>
            let element_size := measure v in
            if current_cache_size c <? element_size then Panic
            else evict fuel (with_reads c (current_cache_size c - element_size) reads)
        | (None, reads) => Ok (with_reads c (current_cache_size c) reads)
        end
      else Ok c
  end.

Definition insert_read (c : TrackingCopyCache) (key : Key) (value : StoredValue) : res E TrackingCopyCache :=
  let element_size := measure value in
  let c := with_reads c (current_cache_size c + element_size) (lhm_insert (reads_cached c) key value) in
  evict (S (length (lhm_entries (reads_cached c)))) c.

Definition insert_key_tag_read (c : TrackingCopyCache) (key_tag : KeyTag) (keys : gset Key)
    : res E TrackingCopyCache :=
  let element_size := measure_keys keys in
  let c := MkCache (max_cache_size c) (current_cache_size c + element_size) (reads_cached c) (muts_cached c)
    (lhm_insert (key_tag_reads_cached c) key_tag keys) (key_tag_muts_cached c) in
  evict (S (length (lhm_entries (reads_cached c)))) c.

Definition insert_write (c : TrackingCopyCache) (key : Key) (value : StoredValue) : TrackingCopyCache :=
  MkCache (max_cache_size c) (current_cache_size c) (reads_cached c) (<[key := value]> (muts_cached c))
    (key_tag_reads_cached c)
    (<[Key_tag key := {[key]} ∪ default ∅ (key_tag_muts_cached c !! Key_tag key)]> (key_tag_muts_cached c)).

Definition cache_get (c : TrackingCopyCache) (key : Key) : option StoredValue * TrackingCopyCache :=
  match muts_cached c !! key with
  | Some value => (Some value, c)
  | None =>
      let '(value, reads) := lhm_get_refresh (reads_cached c) key in
      (value, with_reads c (current_cache_size c) reads)
  end.

Definition get_key_tag_muts_cached (c : TrackingCopyCache) (key_tag : KeyTag) : option (gset Key) :=
  key_tag_muts_cached c !! key_tag.
Definition get_key_tag_reads_cached (c : TrackingCopyCache) (key_tag : KeyTag)
    : option (gset Key) * TrackingCopyCache :=
  let '(keys, reads) := lhm_get_refresh (key_tag_reads_cached c) key_tag in
  (keys, MkCache (max_cache_size c) (current_cache_size c) (reads_cached c) (muts_cached c) reads
    (key_tag_muts_cached c)).

(** ** The tracking copy *)

(** The methods of [StateReader] a tracking copy calls. *)
Record StateReader := MkReader {
  reader_read : Key -> res E (option StoredValue);
  reader_keys_with_prefix : bytes -> res E (list Key);
}.

Record TrackingCopy := MkTrackingCopy {
  reader : StateReader;
  cache : TrackingCopyCache;
  journal : list (Key * Transform);
}.

Definition TrackingCopy_new (r : StateReader) : TrackingCopy :=
  MkTrackingCopy r (TrackingCopyCache_new (1024 * 16)) [].

(** [StateReader for &TrackingCopy<R>]. *)
Definition as_reader (tc : TrackingCopy) : StateReader := {|
  reader_read key :=
    match muts_cached (cache tc) !! key with
    | Some value => Ok (Some value)
    | None => reader_read (reader tc) key
    end;
  reader_keys_with_prefix := reader_keys_with_prefix (reader tc);
|}.

Definition fork (tc : TrackingCopy) : TrackingCopy := TrackingCopy_new (as_reader tc).

Definition with_cache (tc : TrackingCopy) (c : TrackingCopyCache) : TrackingCopy :=
  MkTrackingCopy (reader tc) c (journal tc).
Definition push (tc : TrackingCopy) (key : Key) (t : Transform) : TrackingCopy :=
  MkTrackingCopy (reader tc) (cache tc) (journal tc ++ [(key, t)]).

Definition tc_get (tc : TrackingCopy) (key : Key) : res E (option StoredValue * TrackingCopy) :=
  let '(hit, c) := cache_get (cache tc) key in
  let tc := with_cache tc c in
  match hit with
  | Some value => Ok (Some value, tc)
  | None =>
      found ← reader_read (reader tc) key;
      match found with
      | Some value => c ← insert_read (cache tc) key value; Ok (Some value, with_cache tc c)
      | None => Ok (None, tc)
      end
  end.

Definition get_keys (tc : TrackingCopy) (key_tag : KeyTag) : res E (gset Key * TrackingCopy) :=
  let '(hit, c) := get_key_tag_reads_cached (cache tc) key_tag in
  '(ret, c) ← match hit with
    | Some keys => Ok (keys, c)
    | None =>
        keys ← reader_keys_with_prefix (reader tc) [KeyTag_u8 key_tag];
        c ← insert_key_tag_read c key_tag (list_to_set keys);
        Ok (list_to_set keys, c)
    end;
  match get_key_tag_muts_cached c key_tag with
  | Some keys => Ok (ret ∪ keys, with_cache tc c)
  | None => Ok (ret, with_cache tc c)
  end.

Definition tc_read (tc : TrackingCopy) (key : Key) : res E (option StoredValue * TrackingCopy) :=
  let normalized_key := normalize key in
  '(found, tc) ← tc_get tc normalized_key;
  match found with
  | Some value => Ok (Some value, push tc normalized_key Identity)
  | None => Ok (None, tc)
  end.

Definition tc_write (tc : TrackingCopy) (key : Key) (value : StoredValue) : TrackingCopy :=
  let normalized_key := normalize key in
  push (with_cache tc (insert_write (cache tc) normalized_key value)) normalized_key (Write value).

Inductive AddResult :=
| Success
| AddKeyNotFound (key : Key)
| AddTypeMismatch
| AddSerialization (error : Error).

#[export] Instance AddResult_eq_dec : EqDecision AddResult.
Proof. solve_decision. Defined.

Definition of_TransformError (e : TransformError) : AddResult :=
  match e with TSerialization error => AddSerialization error | TTypeMismatch => AddTypeMismatch end.
(** [From<CLValueError> for AddResult]. *)
Definition AddResult_of_CLValueError (e : CLValueError) : AddResult := of_TransformError (of_CLValueError e).

(** The transform that adds [value]. *)
Definition addition_of (value : StoredValue) : res AddResult Transform :=
  match value with
  | StoredCLValue cl_value =>
      match cl_type cl_value with
      | CLType.I32 => i ← map_err AddResult_of_CLValueError (into_t (A:=int TI32) cl_value); Ok (AddInt32 (int_val i))
      | CLType.U64 => i ← map_err AddResult_of_CLValueError (into_t (A:=int TU64) cl_value); Ok (AddUInt64 (int_val i))
      | CLType.U128 => i ← map_err AddResult_of_CLValueError (into_t (A:=int TU128) cl_value); Ok (AddUInt128 (int_val i))
      | CLType.U256 => i ← map_err AddResult_of_CLValueError (into_t (A:=int TU256) cl_value); Ok (AddUInt256 (int_val i))
      | CLType.U512 => i ← map_err AddResult_of_CLValueError (into_t (A:=int TU512) cl_value); Ok (AddUInt512 (int_val i))
      | _ =>
          if decide (cl_type cl_value = named_key_type) then
            '(name, key) ← map_err AddResult_of_CLValueError (into_t (A:=rstring * Key) cl_value);
            Ok (AddKeys (BTreeMap (btree_insert name key [])))
          else Err AddTypeMismatch
      end
  | _ => Err AddTypeMismatch
  end.

Definition tc_add (tc : TrackingCopy) (key : Key) (value : StoredValue) : res E (AddResult * TrackingCopy) :=
  let normalized_key := normalize key in
  '(found, tc) ← tc_get tc normalized_key;
  match found with
  | None => Ok (AddKeyNotFound normalized_key, tc)
  | Some current_value =>
      match addition_of value with
      | Ok transform =>
          match apply transform current_value with
          | Ok new_value =>
              Ok (Success, push (with_cache tc (insert_write (cache tc) normalized_key new_value))
                normalized_key transform)
          | Err e => Ok (of_TransformError e, tc)
          | Panic => Panic
          | OutOfFuel => OutOfFuel
          end
      | Err r => Ok (r, tc)
      | Panic => Panic
      | OutOfFuel => OutOfFuel
      end
  end.

(** The transforms of [ExecutionEffect::from(journal)]. *)
Definition effect (tc : TrackingCopy) : gmap Key Transform := journal_effects (journal tc).

End TrackingCopy.
