(* ===== verification/TrackingSim.v ===== *)
(** * What a tracking copy shows: a simulation with a plain map.

    Reads, writes and additions on a tracking copy over a state [m0] answer as
    they would on a map that starts as [m0]; eviction from the read cache is
    invisible, no size subtraction underflows, and replaying the journal on [m0]
    gives that map. *)

From S2P Require Import Prelude Bytesrepr Hashing KeyTypes Values PublicKeys Account Contracts AuctionData StoredValue Transform TrackingCopy.
Local Open Scope nat_scope.

Section AssocFacts.
Context {K V : Type} `{EqDecision K}.

Lemma assoc_get_elem (k : K) (v : V) l : assoc_get k l = Some v -> (k, v) ∈ l.
Proof.
  induction l as [|[k' v'] l IH]; cbn; [done|]. case_decide; [|intros; right; auto].
  intros [= ->]. subst. left.
Qed.

Lemma assoc_remove_elem (k : K) (e : K * V) l : e ∈ assoc_remove k l -> e ∈ l.
Proof. intros He%list_elem_of_In%filter_In. apply list_elem_of_In. tauto. Qed.
End AssocFacts.

(** ** Parsers and transforms report errors, they do not panic *)

Lemma int_from_bytes_safe t bs : safe (int_from_bytes t bs).
Proof.
  destruct t; cbn [int_from_bytes]; unfold parse_map, i32_from_bytes, i64_from_bytes, u32_from_bytes,
    u64_from_bytes, biguint_from_bytes; solve_safe; auto.
Qed.

Lemma String_from_bytes_safe bs : safe (String_from_bytes bs).
Proof. unfold String_from_bytes, u32_from_bytes. solve_safe; auto. Qed.

Lemma Key_from_bytes_safe bs : safe (Key_from_bytes bs).
Proof.
  assert (forall N b, safe (array_from_bytes N b)) as A by (intros; apply safe_split_at_safe).
  assert (forall b, safe (u64_from_bytes b)) as U by (intros; unfold u64_from_bytes; solve_safe; auto).
  unfold Key_from_bytes. solve_safe; auto.
Qed.

Lemma normalize_valid k : valid k -> valid (normalize k).
Proof. destruct k as [| |u| | | | | | | | | | | |]; try done. intros [Ha _]. split; [done|by split]. Qed.

Section Simulation.
Context `{KeyCrates} `{SizeOf} {E : Type}.
Context `{!LinkedHashMap Key StoredValue} `{!LinkedHashMap KeyTag (gset Key)}.

Abbreviation TC := (TrackingCopy (E:=E)).
Implicit Types (m : gmap Key StoredValue) (c : TrackingCopyCache) (tc : TC).

(** ** The abstract state: a map *)

Definition keys_tagged (m : gmap Key StoredValue) (t : KeyTag) : gset Key := filter (fun k => Key_tag k = t) (dom m).

Inductive TcOp :=
| OpRead (key : Key)
| OpWrite (key : Key) (value : StoredValue)
| OpAdd (key : Key) (value : StoredValue)
| OpKeys (key_tag : KeyTag).

Inductive TcOut :=
| OutRead (value : option StoredValue)
| OutWrite
| OutAdd (result : AddResult)
| OutKeys (keys : gset Key).

#[export] Instance TcOut_eq_dec : EqDecision TcOut.
Proof. solve_decision. Defined.

Definition op_valid (o : TcOp) : Prop :=
  match o with OpRead key | OpWrite key _ | OpAdd key _ => valid key | OpKeys _ => True end.

(** What an operation does to a map and answers. *)
Definition map_step (m : gmap Key StoredValue) (o : TcOp) : res E (TcOut * gmap Key StoredValue) :=
  match o with
  | OpRead key => Ok (OutRead (m !! normalize key), m)
  | OpWrite key value => Ok (OutWrite, <[normalize key := value]> m)
  | OpAdd key value =>
      match m !! normalize key with
      | None => Ok (OutAdd (AddKeyNotFound (normalize key)), m)
      | Some current =>
          match addition_of value with
          | Ok t =>
              match apply t current with
              | Ok new => Ok (OutAdd Success, <[normalize key := new]> m)
              | Err e => Ok (OutAdd (of_TransformError e), m)
              | Panic => Panic
              | OutOfFuel => OutOfFuel
              end
          | Err r => Ok (OutAdd r, m)
          | Panic => Panic
          | OutOfFuel => OutOfFuel
          end
      end
  | OpKeys t => Ok (OutKeys (keys_tagged m t), m)
  end.

Definition tc_step (tc : TC) (o : TcOp) : res E (TcOut * TC) :=
  match o with
  | OpRead key => '(v, tc) ← tc_read tc key; Ok (OutRead v, tc)
  | OpWrite key value => Ok (OutWrite, tc_write tc key value)
  | OpAdd key value => '(r, tc) ← tc_add tc key value; Ok (OutAdd r, tc)
  | OpKeys t => '(ks, tc) ← get_keys tc t; Ok (OutKeys ks, tc)
  end.

Definition run_ops {S} (step : S -> TcOp -> res E (TcOut * S)) : list TcOp -> S -> res E (list TcOut * S) :=
  fix run_ops ops s :=
    match ops with
    | [] => Ok ([], s)
    | o :: ops => '(out, s) ← step s o; '(outs, s) ← run_ops ops s; Ok (out :: outs, s)
    end.

(** ** The relation *)

(** The reader serves the state [m0] to callers with keys of the proper form. *)
Definition serves (r : StateReader (E:=E)) (m0 : gmap Key StoredValue) : Prop :=
  (forall k, valid k -> reader_read r k = Ok (m0 !! k)) /\
  (forall t, exists l, reader_keys_with_prefix r [KeyTag_u8 t] = Ok l /\ list_to_set l = keys_tagged m0 t).

Definition reads_size (l : list (Key * StoredValue)) : nat := sum_list ((fun e => measure e.2) <$> l).

Record cache_ok (m0 m : gmap Key StoredValue) (c : TrackingCopyCache) : Prop := {
  co_muts k v : muts_cached c !! k = Some v -> m !! k = Some v;
  co_base k : muts_cached c !! k = None -> m !! k = m0 !! k;
  co_reads k v : (k, v) ∈ lhm_entries (reads_cached c) -> m0 !! k = Some v;
  co_size : reads_size (lhm_entries (reads_cached c)) <= current_cache_size c;
  co_tag_reads t ks : (t, ks) ∈ lhm_entries (key_tag_reads_cached c) -> ks = keys_tagged m0 t;
  co_tag_muts t : default ∅ (key_tag_muts_cached c !! t) = keys_tagged (muts_cached c) t;
}.

(** The journal, replayed entry by entry. *)
Inductive replays (m0 : gmap Key StoredValue) : list (Key * Transform) -> gmap Key StoredValue -> Prop :=
| replays_nil : replays m0 [] m0
| replays_snoc j m k t v : replays m0 j m -> exec t (m !! k) = Ok (Some v) ->
    replays m0 (j ++ [(k, t)]) (<[k := v]> m).

Record simulates (m0 m : gmap Key StoredValue) (tc : TC) : Prop := {
  sim_reader : serves (reader tc) m0;
  sim_cache : cache_ok m0 m (cache tc);
  sim_journal : replays m0 (journal tc) m;
}.

(** ** The cache *)

Lemma reads_size_app l1 l2 : reads_size (l1 ++ l2) = reads_size l1 + reads_size l2.
Proof. unfold reads_size. induction l1 as [|e l1 IH]; cbn in *; [done|]. rewrite IH. lia. Qed.

Lemma reads_size_remove k l : reads_size (assoc_remove k l) <= reads_size l.
Proof.
  unfold reads_size, assoc_remove. induction l as [|e l IH]; [done|]. cbn.
  case_bool_decide; cbn; lia.
Qed.

Lemma assoc_remove_present k v l : assoc_get k l = Some v ->
  reads_size (assoc_remove k l) + measure v <= reads_size l.
Proof.
  unfold reads_size. induction l as [|[k' v'] l IH]; cbn; [done|]. case_decide as Hk.
  - intros [= ->]. rewrite bool_decide_eq_false_2 by (cbn; tauto).
    pose proof (reads_size_remove k l). unfold reads_size, assoc_remove in *. lia.
  - intros Hg. specialize (IH Hg). rewrite bool_decide_eq_true_2 by done. cbn. unfold assoc_remove in *. lia.
Qed.

(** The read cache may be replaced by any other coherent one. *)
Lemma cache_ok_reads m0 m c size reads : cache_ok m0 m c ->
  (forall k v, (k, v) ∈ lhm_entries reads -> m0 !! k = Some v) -> reads_size (lhm_entries reads) <= size ->
  cache_ok m0 m (with_reads c size reads).
Proof. intros [] Hr Hs. by split. Qed.

Lemma evict_ok m0 m fuel : forall c, cache_ok m0 m c -> length (lhm_entries (reads_cached c)) < fuel ->
  exists c', evict fuel c = (Ok c' : res E _) /\ cache_ok m0 m c'.
Proof.
  induction fuel as [|fuel IH]; intros c Hc Hl; [lia|]. cbn [evict].
  destruct (max_cache_size c <? current_cache_size c); [|eauto].
  pose proof (lhm_pop_front_spec (reads_cached c)) as Hp. pose proof (co_reads _ _ _ Hc) as Hr.
  pose proof (co_size _ _ _ Hc) as Hs.
  destruct (lhm_pop_front _) as [o reads], (lhm_entries (reads_cached c)) as [|[k v] l] eqn:El;
    cbn in Hp; destruct Hp as [-> Hp].
  - eexists. split; [done|]. apply cache_ok_reads; rewrite ?Hp; [done|set_solver|cbn; lia].
  - unfold reads_size in Hs. cbn in Hs, Hl. fold (reads_size l) in Hs.
    destruct (Nat.ltb_spec (current_cache_size c) (measure v)); [lia|]. apply IH.
    + apply cache_ok_reads; rewrite ?Hp; [done| |lia]. intros k' v' Hin. apply Hr. by right.
    + cbn. rewrite Hp. lia.
Qed.

Lemma insert_read_ok m0 m c k v : cache_ok m0 m c -> m0 !! k = Some v ->
  exists c', insert_read c k v = (Ok c' : res E _) /\ cache_ok m0 m c'.
Proof.
  intros Hc Hv. unfold insert_read. apply evict_ok; [|lia]. apply cache_ok_reads; [done|..].
  all: rewrite lhm_insert_spec.
  - intros k' v' [Hin|Hin]%elem_of_app.
    + apply assoc_remove_elem in Hin. by eapply co_reads.
    + apply list_elem_of_singleton in Hin. congruence.
  - rewrite reads_size_app. pose proof (co_size _ _ _ Hc).
    pose proof (reads_size_remove k (lhm_entries (reads_cached c))). unfold reads_size at 2. cbn. lia.
Qed.

Lemma insert_key_tag_read_ok m0 m c t : cache_ok m0 m c ->
  exists c', insert_key_tag_read c t (keys_tagged m0 t) = (Ok c' : res E _) /\ cache_ok m0 m c'.
Proof.
  intros Hc. unfold insert_key_tag_read. apply evict_ok; [|lia].
  destruct Hc as [H1 H2 H3 H4 H5 H6]. split; cbn [muts_cached reads_cached current_cache_size key_tag_reads_cached key_tag_muts_cached]; try done.
  - lia.
  - intros t' ks. rewrite lhm_insert_spec. intros [Hin|Hin]%elem_of_app.
    + apply assoc_remove_elem in Hin. by apply H5.
    + apply list_elem_of_singleton in Hin. congruence.
Qed.

Lemma insert_write_ok m0 m c k v : cache_ok m0 m c -> cache_ok m0 (<[k := v]> m) (insert_write c k v).
Proof.
  intros [H1 H2 H3 H4 H5 H6]. split; cbn [muts_cached reads_cached current_cache_size key_tag_reads_cached key_tag_muts_cached insert_write]; try done.
  - intros k' v'. destruct (decide (k = k')) as [->|Hn]; [by rewrite !lookup_insert_eq|].
    rewrite !lookup_insert_ne by done. apply H1.
  - intros k'. destruct (decide (k = k')) as [->|Hn]; [by rewrite lookup_insert_eq|].
    rewrite !lookup_insert_ne by done. apply H2.
  - intros t. unfold keys_tagged. rewrite dom_insert_L. destruct (decide (Key_tag k = t)) as [<-|Hn].
    + rewrite lookup_insert_eq. cbn. rewrite H6. unfold keys_tagged. set_solver.
    + rewrite lookup_insert_ne by done. rewrite H6. unfold keys_tagged. set_solver.
Qed.

Lemma cache_get_ok m0 m c k : cache_ok m0 m c ->
  cache_ok m0 m (cache_get c k).2 /\
  match (cache_get c k).1 with Some v => m !! k = Some v | None => m !! k = m0 !! k end.
Proof.
  intros Hc. unfold cache_get. destruct (muts_cached c !! k) as [v|] eqn:Em.
  { split; [done|]. by eapply co_muts. }
  pose proof (lhm_get_refresh_spec (reads_cached c) k) as [G1 G2].
  destruct (lhm_get_refresh _ k) as [o reads]. cbn in G1, G2 |- *. subst o.
  pose proof (co_base _ _ _ Hc k Em) as Eb.
  destruct (assoc_get k _) as [v|] eqn:Ev.
  - pose proof (assoc_get_elem _ _ _ Ev) as Hin. split.
    + apply cache_ok_reads; rewrite ?G2; [done| |].
      * intros k' v' [Hin'|Hin']%elem_of_app.
        -- apply assoc_remove_elem in Hin'. by eapply co_reads.
        -- apply list_elem_of_singleton in Hin'. injection Hin' as -> ->. by eapply co_reads.
      * rewrite reads_size_app. pose proof (co_size _ _ _ Hc). pose proof (assoc_remove_present _ _ _ Ev).
        unfold reads_size at 2. cbn. lia.
    + rewrite Eb. by eapply co_reads.
  - split; [|done]. apply cache_ok_reads; rewrite ?G2; [done|by eapply co_reads|by eapply co_size].
Qed.

(** ** The operations *)

Lemma tc_get_ok m0 m tc k : valid k -> simulates m0 m tc ->
  exists tc', tc_get tc k = Ok (m !! k, tc') /\ simulates m0 m tc'.
Proof.
  intros Hk [Hr Hc Hj]. unfold tc_get. destruct (cache_get_ok _ _ _ k Hc) as [Hc' Hv].
  destruct (cache_get (cache tc) k) as [[v|] c]; cbn in Hc', Hv; cbn [with_cache reader].
  - rewrite Hv. eexists. split; [done|]. by split.
  - rewrite (proj1 Hr k Hk). cbn [mbind res_bind]. rewrite Hv. destruct (m0 !! k) as [v|] eqn:Em.
    + destruct (insert_read_ok m0 m c k v) as (c' & E' & Hc''); [done|done|]. cbn [cache with_cache].
      rewrite E'. cbn. eexists. split; [done|]. by split.
    + eexists. split; [done|]. by split.
Qed.

Lemma replays_snoc_same m0 j m k t v : replays m0 j m -> exec t (m !! k) = Ok (Some v) -> m !! k = Some v ->
  replays m0 (j ++ [(k, t)]) m.
Proof. intros Hj He Hm. pose proof (replays_snoc m0 j m k t v Hj He) as X. by rewrite insert_id in X. Qed.

Lemma tc_read_ok m0 m tc k : valid k -> simulates m0 m tc ->
  exists tc', tc_read tc k = Ok (m !! normalize k, tc') /\ simulates m0 m tc'.
Proof.
  intros Hk Hs. unfold tc_read. destruct (tc_get_ok _ _ _ _ (normalize_valid k Hk) Hs) as (tc' & E' & [Hr Hc Hj]).
  rewrite E'. cbn. destruct (m !! normalize k) as [v|] eqn:Em; eexists; (split; [done|]); [|by split].
  split; [done|done|]. cbn. apply (replays_snoc_same _ _ _ _ _ v); [done| |done]. by rewrite Em.
Qed.

Lemma tc_write_ok m0 m tc k v : simulates m0 m tc -> simulates m0 (<[normalize k := v]> m) (tc_write tc k v).
Proof.
  intros [Hr Hc Hj]. split; [done|by apply insert_write_ok|]. cbn. apply replays_snoc; [done|].
  by destruct (m !! normalize k).
Qed.

Lemma get_keys_ok m0 m tc t : simulates m0 m tc ->
  exists tc', get_keys tc t = Ok (keys_tagged m t, tc') /\ simulates m0 m tc'.
Proof.
  intros [Hr Hc Hj]. unfold get_keys, get_key_tag_reads_cached.
  pose proof (lhm_get_refresh_spec (key_tag_reads_cached (cache tc)) t) as [G1 G2].
  destruct (lhm_get_refresh _ t) as [o reads]. cbn in G1, G2. subst o.
  set (c := MkCache _ _ _ _ reads _).
  assert (cache_ok m0 m c) as Hc1.
  { destruct Hc as [H1 H2 H3 H4 H5 H6]. split; try done. cbn. intros t' ks. rewrite G2.
    destruct (assoc_get t _) as [ks'|] eqn:Eg; [|apply H5]. intros [Hin|Hin]%elem_of_app.
    - apply assoc_remove_elem in Hin. by apply H5.
    - apply list_elem_of_singleton in Hin. injection Hin as -> ->. by apply H5, assoc_get_elem. }
  assert (exists c', match assoc_get t (lhm_entries (key_tag_reads_cached (cache tc))) with
    | Some keys => Ok (keys, c)
    | None => keys ← reader_keys_with_prefix (reader tc) [KeyTag_u8 t];
        c ← insert_key_tag_read c t (list_to_set keys); Ok (list_to_set keys, c)
    end = (Ok (keys_tagged m0 t, c') : res E _) /\ cache_ok m0 m c') as (c' & Ec & Hc').
  { destruct (assoc_get t _) as [ks|] eqn:Eg.
    - exists c. split; [|done]. by rewrite <- (co_tag_reads _ _ _ Hc t ks) by by apply assoc_get_elem.
    - destruct (proj2 Hr t) as (l & El & Es). rewrite El. cbn [mbind res_bind]. rewrite Es.
      destruct (insert_key_tag_read_ok m0 m c t Hc1) as (c' & E' & Hc'). rewrite E'. eauto. }
  rewrite Ec. cbn [mbind res_bind]. unfold get_key_tag_muts_cached.
  pose proof (co_tag_muts _ _ _ Hc' t) as Ht.
  assert (keys_tagged m t = keys_tagged m0 t ∪ keys_tagged (muts_cached c') t) as Ek.
  { unfold keys_tagged. apply set_eq. intros k. rewrite elem_of_union, !elem_of_filter, !elem_of_dom.
    destruct (muts_cached c' !! k) as [v|] eqn:Em.
    - rewrite (co_muts _ _ _ Hc' k v Em). split; [intros [? _]; right; eauto|intros [[? _]|[? _]]; eauto].
    - rewrite (co_base _ _ _ Hc' k Em). split; [tauto|]. intros [?|[_ [? ?]]]; done. }
  exists (with_cache tc c'). split; [|by split]. rewrite Ek, <- Ht.
  destruct (key_tag_muts_cached c' !! t) as [ks|]; cbn; [done|]. by rewrite union_empty_r_L.
Qed.

Lemma tc_add_ok m0 m tc k v : valid k -> simulates m0 m tc ->
  match map_step m (OpAdd k v) with
  | Ok (out, m') => exists tc', tc_step tc (OpAdd k v) = Ok (out, tc') /\ simulates m0 m' tc'
  | _ => is_ok (tc_step tc (OpAdd k v)) = false
  end.
Proof.
  intros Hk Hs. cbn [map_step tc_step]. unfold tc_add.
  destruct (tc_get_ok _ _ _ _ (normalize_valid k Hk) Hs) as (tc' & E' & Hs'). rewrite E'. cbn [mbind res_bind].
  destruct (m !! normalize k) as [cur|] eqn:Em; [|cbn; eauto].
  destruct (addition_of v) as [t|r| |]; cbn [mbind res_bind]; [|eauto|done|done].
  destruct (apply t cur) as [new|e| |] eqn:Ea; cbn [mbind res_bind]; [|eauto|done|done].
  eexists. split; [done|]. destruct Hs' as [Hr Hc Hj].
  split; [done|by apply insert_write_ok|]. cbn. apply replays_snoc; [done|]. rewrite Em. cbn. by rewrite Ea.
Qed.

Lemma tc_step_ok m0 m tc o out m' : op_valid o -> simulates m0 m tc -> map_step m o = Ok (out, m') ->
  exists tc', tc_step tc o = Ok (out, tc') /\ simulates m0 m' tc'.
Proof.
  intros Ho Hs Em. destruct o as [k|k v|k v|t].
  - injection Em as <- <-. destruct (tc_read_ok _ _ _ k Ho Hs) as (tc' & E' & Hs'). cbn. rewrite E'. eauto.
  - injection Em as <- <-. eexists. split; [done|]. by apply tc_write_ok.
  - pose proof (tc_add_ok m0 m tc k v Ho Hs) as Ha. by rewrite Em in Ha.
  - injection Em as <- <-. destruct (get_keys_ok _ _ _ t Hs) as (tc' & E' & Hs'). cbn. rewrite E'. eauto.
Qed.

Lemma run_ok m0 ops : Forall op_valid ops -> forall m tc outs m', simulates m0 m tc -> run_ops map_step ops m = Ok (outs, m') ->
  exists tc', run_ops tc_step ops tc = Ok (outs, tc') /\ simulates m0 m' tc'.
Proof.
  induction 1 as [|o ops Ho _ IH]; intros m tc outs m' Hs; cbn.
  - intros [= <- <-]. eauto.
  - intros ([out m1] & E1 & ([outs1 m2] & E2 & [= <- <-])%bind_Ok)%bind_Ok.
    destruct (tc_step_ok _ _ _ _ _ _ Ho Hs E1) as (tc1 & T1 & Hs1). rewrite T1. cbn.
    destruct (IH _ _ _ _ Hs1 E2) as (tc2 & T2 & Hs2). rewrite T2. eauto.
Qed.

Lemma new_simulates m0 r : serves r m0 -> simulates m0 m0 (TrackingCopy_new r).
Proof.
  intros Hr. split; [done| |constructor]. split; cbn; rewrite ?lhm_new_spec; try set_solver.
Qed.

(** ** No operation panics *)

Lemma into_t_int_safe t v : safe (into_t (A:=int t) v).
Proof.
  unfold into_t. case_decide; [|done]. apply safe_map_err. unfold deserialize_from_slice.
  change (from_bytes ?b) with (parse_map (MkInt (t:=t)) (int_from_bytes t b)). unfold parse_map.
  pose proof (int_from_bytes_safe t (inner_bytes (cl_bytes v))) as S.
  destruct (int_from_bytes t _) as [[? []]| | |]; done.
Qed.

Lemma into_t_named_key_safe v : safe (into_t (A:=rstring * Key) v).
Proof.
  unfold into_t. case_decide; [|done]. apply safe_map_err. unfold deserialize_from_slice.
  change (from_bytes ?b) with (Pair_from_bytes (A:=rstring) (B:=Key) b). unfold Pair_from_bytes.
  apply safe_bind.
  - apply safe_bind; [apply String_from_bytes_safe|]. intros [? ?] _. apply safe_bind; [apply Key_from_bytes_safe|].
    by intros [? ?] _.
  - by intros [? []] _.
Qed.

Lemma addition_of_safe v : safe (addition_of v).
Proof.
  pose proof into_t_int_safe as I. pose proof into_t_named_key_safe as N.
  assert (forall (P : Prop) (Q : {P} + {~ P}) (c : CLValue), safe (if Q
    then '(name, key) ← map_err AddResult_of_CLValueError (into_t (A:=rstring * Key) c);
         Ok (AddKeys (BTreeMap (btree_insert name key [])))
    else Err AddTypeMismatch)) as K.
  { intros P [|] c; [|done]. apply safe_bind; [by apply safe_map_err|]. by intros [? ?] _. }
  unfold addition_of. destruct v as [c| | | | | | | | | |]; try done.
  destruct (cl_type c); try apply K; (apply safe_bind; [apply safe_map_err, I|done]).
Qed.

Lemma wrapping_addition_safe Y v j : safe (wrapping_addition Y v j).
Proof.
  unfold wrapping_addition. apply safe_bind.
  - destruct v as [| | | |p| | | | | |]; [done|done|done|done| |done..]. cbn [CLValue_try_from]. apply safe_map_err. unfold from_t.
    apply safe_bind; [|done]. apply safe_map_err, ContractPackage_to_bytes_safe.
  - intros c _. assert (forall X, safe (do_wrapping_addition X Y c j)) as D.
    { intros X. unfold do_wrapping_addition. apply safe_bind; [apply safe_map_err, into_t_int_safe|].
      intros x _. apply safe_bind; [|done]. apply safe_map_err. unfold from_t. apply safe_bind; [|done].
      apply safe_map_err. change (into_bytes ?i) with (int_to_bytes X (int_val i)).
      by destruct (int_to_bytes_total X (int_val (MkInt (t:=X) (int_wrapping_add X (int_val x) (as_ Y X j))))) as (b & -> & _). }
    destruct (cl_type c); done.
Qed.

Lemma apply_safe t v : safe (apply t v).
Proof. destruct t; cbn [apply]; try done; try apply wrapping_addition_safe. by destruct v. Qed.

Lemma map_step_total m o : exists out m', map_step m o = Ok (out, m').
Proof.
  destruct o as [k|k v|k v|t]; cbn [map_step]; [by do 2 eexists..| |by do 2 eexists].
  destruct (m !! normalize k) as [cur|]; [|by do 2 eexists].
  pose proof (addition_of_safe v) as A. destruct (addition_of v) as [t| | |]; [|by do 2 eexists|done|done].
  pose proof (apply_safe t cur) as B. destruct (apply t cur); [by do 2 eexists..|done|done].
Qed.

Lemma run_map_total ops : forall m, exists outs m', run_ops map_step ops m = Ok (outs, m').
Proof.
  induction ops as [|o ops IH]; intros m; cbn; [by do 2 eexists|].
  destruct (map_step_total m o) as (out & m1 & E1). rewrite E1. cbn.
  destruct (IH m1) as (outs & m2 & E2). rewrite E2. by do 2 eexists.
Qed.

(** ** What the journal holds *)

(** The entries an operation may make have the property [P]. *)
Definition op_entries (P : Key -> Transform -> Prop) (o : TcOp) : Prop :=
  match o with
  | OpRead key => P (normalize key) Identity
  | OpWrite key value => P (normalize key) (Write value)
  | OpAdd key value => match addition_of value with Ok t => P (normalize key) t | _ => True end
  | OpKeys _ => True
  end.

Definition journal_all (P : Key -> Transform -> Prop) (j : list (Key * Transform)) : Prop :=
  Forall (fun e => P e.1 e.2) j.

Lemma tc_get_journal tc k v tc' : tc_get tc k = Ok (v, tc') -> journal tc' = journal tc.
Proof.
  unfold tc_get. destruct (cache_get _ k) as [[u|] c]; [by intros [= <- <-]|].
  intros (found & _ & Ef)%bind_Ok. destruct found as [u|]; [|by injection Ef as <- <-].
  by apply bind_Ok in Ef as (c' & _ & [= <- <-]).
Qed.

Lemma tc_step_journal P tc o out tc' : op_entries P o -> journal_all P (journal tc) ->
  tc_step tc o = Ok (out, tc') -> journal_all P (journal tc').
Proof.
  intros Ho Hj. assert (forall tc k t, journal_all P (journal tc) -> P k t -> journal_all P (journal (push tc k t))) as Hpush.
  { intros tc1 k t Hj1 Hp. apply Forall_app. split; [done|]. by apply Forall_singleton. }
  destruct o as [k|k v|k v|t]; cbn [tc_step op_entries] in *.
  - intros ([u tc1] & Er & [= <- <-])%bind_Ok. apply bind_Ok in Er as ([found tc2] & E1 & E2).
    rewrite <- (tc_get_journal _ _ _ _ E1) in Hj. destruct found; injection E2 as <- <-; [by apply Hpush|done].
  - intros [= <- <-]. by apply Hpush.
  - intros ([u tc1] & Er & [= <- <-])%bind_Ok. apply bind_Ok in Er as ([found tc2] & E1 & E2).
    rewrite <- (tc_get_journal _ _ _ _ E1) in Hj. destruct found as [cur|]; [|by injection E2 as <- <-].
    destruct (addition_of v) as [t|r| |]; [|by injection E2 as <- <-|done|done].
    destruct (apply t cur); [|by injection E2 as <- <-|done|done]. injection E2 as <- <-. by apply Hpush.
  - unfold get_keys. destruct (get_key_tag_reads_cached _ t) as [hit c].
    intros ([u tc1] & Er & [= <- <-])%bind_Ok. apply bind_Ok in Er as ([ks c1] & _ & E2).
    by destruct (get_key_tag_muts_cached c1 t); injection E2 as <- <-.
Qed.

Lemma run_journal P ops : Forall (op_entries P) ops -> forall tc outs tc', journal_all P (journal tc) ->
  run_ops tc_step ops tc = Ok (outs, tc') -> journal_all P (journal tc').
Proof.
  induction 1 as [|o ops Ho _ IH]; intros tc outs tc' Hj; cbn.
  - by intros [= <- <-].
  - intros ([out tc1] & E1 & ([outs1 tc2] & E2 & [= <- <-])%bind_Ok)%bind_Ok.
    eapply IH; [|exact E2]. by eapply tc_step_journal.
Qed.

(** The effects of the journal lead from the state to what the tracking copy
    shows, when the additions to a key are made with one type. *)
Lemma effects_replay (T : Key -> IntType) m0 j m : replays m0 j m ->
  journal_all (fun k t => transform_ok t /\ adds_as (T k) t) j ->
  (forall k v, m0 !! k = Some v -> fits (T k) v /\ keys_sorted v) ->
  forall k, match journal_effects j !! k with
    | Some t => exec t (m0 !! k) = Ok (m !! k) /\ transform_ok t /\ adds_as (T k) t
    | None => m !! k = m0 !! k
    end.
Proof.
  intros Hr Hj Hm. induction Hr as [|j m k' t v Hr IH He]; intros k; [by cbn; rewrite lookup_empty|].
  apply Forall_app in Hj as [Hj [Ht Ha]%Forall_singleton]. specialize (IH Hj k). cbn [fst snd] in Ht, Ha.
  unfold journal_effects in *. rewrite fold_left_app. cbn [fold_left fst snd].
  set (eff := fold_left _ j ∅) in *. unfold insert_add.
  destruct (decide (k' = k)) as [->|Hne].
  - rewrite !lookup_insert_eq. destruct (eff !! k) as [a|]; cbn [default].
    + destruct IH as (Ea & Oa & Aa). eapply (exec_compose (T k) a t); try done. intros u Hu. by apply Hm.
    + rewrite add_identity_l, <- IH. done.
  - rewrite !lookup_insert_ne by done. exact IH.
Qed.


End Simulation.
