(* ===== verification/GlobalState.v ===== *)
(** * The global state: [execution_engine/src/storage/global_state/mod.rs] and
    [storage/global_state/in_memory.rs].

    Reading a state root and committing the effects of an execution.  A commit
    works in one transaction: an error returns no store.  The effects are a
    hash map; [commit] gets them as a list in the order of its iteration.  The
    main result composes the trie, the transforms and the tracking copy. *)

From S2P Require Import Prelude Bytesrepr Hashing KeyTypes Trie TrieStore TrieInv TrieRead TrieProof TrieWrite TrieProps TrieKeys Values PublicKeys Account Contracts AuctionData StoredValue Transform TrackingCopy TrackingSim.
Local Open Scope nat_scope.

Section GlobalState.
Context `{KeyCrates} `{Blake2b} `{TreeFold1}.

(** ** Reading *)

(** [StateReader for InMemoryGlobalStateView]; [fuel] is that of the key iterator. *)
Definition state_view (fuel : nat) (s : store) (root_hash : Digest) : StateReader (E:=Error) := {|
  reader_read key :=
    ret ← read (V:=StoredValue) s root_hash key;
    match ret with
    | Found value => Ok (Some value)
    | NotFound => Ok None
    | RootNotFound => Panic
    end;
  reader_keys_with_prefix prefix := keys_with_prefix (V:=StoredValue) fuel s root_hash prefix;
|}.

Definition checkout (fuel : nat) (s : store) (prestate_hash : Digest) : bres (option (StateReader (E:=Error))) :=
  maybe_root ← get (K:=Key) (V:=StoredValue) s prestate_hash;
  Ok match maybe_root with Some _ => Some (state_view fuel s prestate_hash) | None => None end.

(** ** Writing *)

Inductive CommitError :=
| CommitRootNotFound (root : Digest)
| CommitReadRootNotFound (root : Digest)
| CommitWriteRootNotFound (root : Digest)
| CommitKeyNotFound (key : Key)
| CommitTransformError (error : TransformError).

Inductive StateError :=
| StateBytesrepr (error : Error)
| StateCommit (error : CommitError).

#[export] Instance CommitError_eq_dec : EqDecision CommitError.
Proof. solve_decision. Defined.
#[export] Instance StateError_eq_dec : EqDecision StateError.
Proof. solve_decision. Defined.

Definition write_value (s : store) (state_root : Digest) (key : Key) (value : StoredValue)
    : res StateError (store * Digest) :=
  '(s, write_result) ← map_err StateBytesrepr (write s state_root key value);
  match write_result with
  | Written root_hash => Ok (s, root_hash)
  | AlreadyExists => Ok (s, state_root)
  | WriteRootNotFound => Err (StateCommit (CommitWriteRootNotFound state_root))
  end.

(** The loop of [put_stored_values]. *)
Fixpoint put_loop (s : store) (state_root : Digest) (stored_values : list (Key * StoredValue))
    : res StateError (store * Digest) :=
  match stored_values with
  | [] => Ok (s, state_root)
  | (key, value) :: stored_values =>
      '(s, state_root) ← write_value s state_root key value;
      put_loop s state_root stored_values
  end.

Definition put_stored_values (s : store) (prestate_hash : Digest) (stored_values : list (Key * StoredValue))
    : res StateError (store * Digest) :=
  maybe_root ← map_err StateBytesrepr (get (K:=Key) (V:=StoredValue) s prestate_hash);
  match maybe_root with
  | None => Err (StateCommit (CommitRootNotFound prestate_hash))
  | Some _ => put_loop s prestate_hash stored_values
  end.

(** The value a transform of the effects puts under its key. *)
Definition updated_value (state_root : Digest) (key : Key) (read_result : ReadResult StoredValue)
    (transform : Transform) : res StateError StoredValue :=
  match read_result, transform with
  | NotFound, Write new_value => Ok new_value
  | NotFound, _ => Err (StateCommit (CommitKeyNotFound key))
  | Found current_value, transform =>
      map_err (fun err => StateCommit (CommitTransformError err)) (apply transform current_value)
  | RootNotFound, _ => Err (StateCommit (CommitReadRootNotFound state_root))
  end.

(** The loop of [commit]. *)
Fixpoint commit_loop (s : store) (state_root : Digest) (effects : list (Key * Transform))
    : res StateError (store * Digest) :=
  match effects with
  | [] => Ok (s, state_root)
  | (key, transform) :: effects =>
      read_result ← map_err StateBytesrepr (read (V:=StoredValue) s state_root key);
      value ← updated_value state_root key read_result transform;
      '(s, state_root) ← write_value s state_root key value;
      commit_loop s state_root effects
  end.

Definition commit (s : store) (prestate_hash : Digest) (effects : list (Key * Transform))
    : res StateError (store * Digest) :=
  maybe_root ← map_err StateBytesrepr (get (K:=Key) (V:=StoredValue) s prestate_hash);
  match maybe_root with
  | None => Err (StateCommit (CommitRootNotFound prestate_hash))
  | Some _ => commit_loop s prestate_hash effects
  end.

(** ** The view serves the state *)

Lemma KeyTag_u8_inj t1 t2 : KeyTag_u8 t1 = KeyTag_u8 t2 -> t1 = t2.
Proof. by destruct t1, t2. Qed.

Lemma key_path_tag (k : Key) b : valid k -> [b] `prefix_of` key_path k <-> b = Key_tag_u8 k.
Proof.
  intros Hk. assert (exists r, key_path k = Key_tag_u8 k :: r) as [r Er].
  { pose proof (key_path_to_bytes k Hk) as Eb. apply bind_Ok in Eb as (body & _ & [= Eb]). eauto. }
  rewrite Er. split; [by intros [u [= -> _]]|]. intros ->. by exists r.
Qed.

Lemma rooted_entry s root (m : gmap Key StoredValue) k v : rooted s root m -> m !! k = Some v -> valid k /\ valid v.
Proof.
  intros (pb & _ & R) E. by destruct (reps_keys _ _ _ _ _ _ R E) as (? & ? & _).
Qed.

Definition all_tags : list KeyTag :=
  [TagAccount; TagHash; TagURef; TagTransfer; TagDeployInfo; TagEraInfo; TagBalance; TagBid; TagWithdraw;
   TagDictionary; TagSystemContractRegistry; TagUnbond; TagChainspecRegistry; TagBlockEffectsRootHash;
   TagDeployApprovalsRootHash].

Lemma common_fuel {A} (P : A -> nat -> Prop) (l : list A) :
  (forall a, exists n, forall fuel, n <= fuel -> P a fuel) ->
  exists n, forall fuel, n <= fuel -> Forall (fun a => P a fuel) l.
Proof.
  intros Ha. induction l as [|a l [n IH]]; [by exists 0|]. destruct (Ha a) as [n' Hn].
  exists (n + n'). intros fuel Hf. constructor; [apply Hn; lia|apply IH; lia].
Qed.

Lemma state_view_serves s root (m : gmap Key StoredValue) : rooted s root m ->
  exists n, forall fuel, n <= fuel -> serves (state_view fuel s root) m.
Proof.
  intros R. destruct (common_fuel (fun t fuel => exists l,
    keys_with_prefix (V:=StoredValue) fuel s root [KeyTag_u8 t] = Ok l /\ list_to_set l = keys_tagged m t) all_tags)
    as [n Hn].
  - intros t. destruct (keys_enumerated s root m [KeyTag_u8 t] R) as (n & l & E & _ & M). exists n.
    intros fuel Hf. exists l. split; [by apply E|]. apply set_eq. intros k. unfold keys_tagged.
    rewrite elem_of_list_to_set, M, elem_of_filter, elem_of_dom. split.
    + intros [[v Hv] Hp]. destruct (rooted_entry _ _ _ _ _ R Hv) as [Hk _].
      apply key_path_tag in Hp; [|done]. split; [|eauto]. by apply KeyTag_u8_inj.
    + intros [Ht [v Hv]]. destruct (rooted_entry _ _ _ _ _ R Hv) as [Hk _].
      split; [eauto|]. apply key_path_tag; [done|]. by rewrite <- Ht.
  - exists n. intros fuel Hf. split.
    + intros k Hk. cbn. rewrite (read_rooted s root m k R Hk). cbn. by destruct (m !! k).
    + intros t. specialize (Hn fuel Hf). rewrite Forall_forall in Hn. apply Hn. destruct t; set_solver.
Qed.

(** ** Committing *)

Lemma write_value_rooted s root (m : gmap Key StoredValue) k v l : rooted s root m -> entry_ok (k, v) ->
  writes_apart s root ((k, v) :: l) ->
  exists s' root', write_value s root k v = Ok (s', root') /\ s ⊆ s' /\ rooted s' root' (<[k := v]> m) /\
    writes_apart s' root' l.
Proof.
  intros R (Hk & Hv & Hf) [Hd Ha]. pose proof (write_rooted s root m k v R Hk Hv Hf Hd) as W. unfold write_value.
  case_decide as E.
  - rewrite W in *. exists s, root. rewrite insert_id by done. done.
  - destruct W as (s1 & root1 & W & Hs & R1). rewrite W in *. by exists s1, root1.
Qed.

(** What the effects [l] leave under their keys in the final state [m]. *)
Definition written (m : gmap Key StoredValue) (l : list (Key * Transform)) : list (Key * StoredValue) :=
  omap (fun e => pair e.1 <$> m !! e.1) l.

Lemma updated_value_exec root k t (o : option StoredValue) v :
  exec t o = Ok (Some v) -> updated_value root k (lookup_result o) t = Ok v.
Proof.
  destruct o as [u|]; cbn.
  - intros (v' & E & [= <-])%bind_Ok. by rewrite E.
  - destruct t; try done. by intros [= <-].
Qed.

Lemma commit_loop_rooted mf l : forall s root (m : gmap Key StoredValue), rooted s root m -> NoDup l.*1 ->
  Forall (fun e => exists v, exec e.2 (m !! e.1) = Ok (Some v) /\ mf !! e.1 = Some v /\ entry_ok (e.1, v)) l ->
  writes_apart s root (written mf l) ->
  exists s' root', commit_loop s root l = Ok (s', root') /\ rooted s' root' (insert_list m (written mf l)).
Proof.
  induction l as [|[k t] l IH]; intros s root m R Hn Hl Ha; [by exists s, root|].
  apply NoDup_cons in Hn as [Hk Hn]. apply Forall_cons in Hl as [(v & Ev & Ef & Hok) Hl]. cbn [fst snd] in *.
  cbn [written omap list_omap fst] in Ha |- *. rewrite Ef in Ha |- *. cbn [fmap option_fmap option_map] in Ha |- *.
  destruct (write_value_rooted s root m k v (written mf l) R Hok Ha) as (s1 & root1 & W & Hs & R1 & Ha1).
  cbn [commit_loop]. rewrite (read_rooted s root m k R (proj1 Hok)). cbn [map_err mbind res_bind].
  rewrite (updated_value_exec root k t (m !! k) v Ev). cbn [mbind res_bind]. rewrite W. cbn [mbind res_bind].
  apply (IH s1 root1 (<[k := v]> m)); [done|done| |done].
  apply Forall_forall. intros [k' t'] Hin. rewrite Forall_forall in Hl. specialize (Hl _ Hin). cbn [fst snd] in *.
  rewrite lookup_insert_ne; [done|]. intros <-. apply Hk, list_elem_of_fmap. by exists (k, t').
Qed.

Lemma insert_list_written mf l : forall (m : gmap Key StoredValue) k,
  (k ∈ l.*1 -> is_Some (mf !! k)) -> (k ∉ l.*1 -> m !! k = mf !! k) -> insert_list m (written mf l) !! k = mf !! k.
Proof.
  induction l as [|[k' t] l IH]; intros m k Hin Hout; cbn [written omap list_omap fst fmap list_fmap] in *.
  - apply Hout. set_solver.
  - destruct (mf !! k') as [v|] eqn:E; cbn [fmap option_fmap option_map].
    + apply (IH (<[k' := v]> m)).
      * intros Hk. apply Hin. by right.
      * intros Hk. destruct (decide (k' = k)) as [->|Hne]; [by rewrite lookup_insert_eq|].
        rewrite lookup_insert_ne by done. apply Hout. set_solver.
    + apply IH.
      * intros Hk. apply Hin. by right.
      * intros Hk. apply Hout. intros [->|?]%elem_of_cons; [|done]. destruct Hin as [? ?]; [by left|congruence].
Qed.

Lemma commit_rooted s root (m0 m : gmap Key StoredValue) (effects : gmap Key Transform) l :
  rooted s root m0 -> l ≡ₚ map_to_list effects ->
  (forall k, match effects !! k with Some t => exec t (m0 !! k) = Ok (m !! k) | None => m !! k = m0 !! k end) ->
  (forall k v, m !! k = Some v -> entry_ok (k, v)) -> writes_apart s root (written m l) ->
  exists s' root', commit s root l = Ok (s', root') /\ rooted s' root' m.
Proof.
  intros R Hl He Hok Ha.
  assert (forall k t, (k, t) ∈ l -> effects !! k = Some t) as Hin.
  { intros k t. rewrite Hl. apply elem_of_map_to_list. }
  assert (forall k t, (k, t) ∈ l -> exists v, exec t (m0 !! k) = Ok (Some v) /\ m !! k = Some v) as Hex.
  { intros k t Hk. specialize (He k). rewrite (Hin k t Hk) in He. destruct (exec_Some _ _ _ He) as (v & Ev & _).
    exists v. by rewrite He, Ev. }
  destruct (commit_loop_rooted m l s root m0 R) as (s' & root' & E & R').
  - rewrite Hl. apply NoDup_fst_map_to_list.
  - apply Forall_forall. intros [k t] Hk. destruct (Hex k t Hk) as (v & Ev & Em). exists v. split_and!; auto.
  - done.
  - exists s', root'. destruct R as (pb & Hst & _). unfold commit. rewrite (stored_get _ _ _ Hst). split; [done|].
    assert (insert_list m0 (written m l) = m) as Em; [|by rewrite <- Em].
    apply map_eq. intros k. apply insert_list_written.
    + intros ([k' t] & -> & Hk)%list_elem_of_fmap. destruct (Hex k' t Hk) as (v & _ & Ev). cbn. rewrite Ev. by eexists.
    + intros Hk. specialize (He k). destruct (effects !! k) as [t|] eqn:E'; [|done]. exfalso. apply Hk.
      apply list_elem_of_fmap. exists (k, t). split; [done|]. rewrite Hl. by apply elem_of_map_to_list.
Qed.

(** ** Executing and committing *)

Context `{SizeOf} `{!LinkedHashMap Key StoredValue} `{!LinkedHashMap KeyTag (gset Key)}.

(** The operation has proper arguments and adds to its key with the type [T] has for it. *)
Definition op_ok (T : Key -> IntType) (o : TcOp) : Prop :=
  op_valid o /\
  match o with
  | OpWrite _ value => valid value
  | OpAdd key value => match addition_of value with Ok t => adds_as (T (normalize key)) t | _ => True end
  | _ => True
  end.

Lemma valid_keys_sorted (v : StoredValue) : valid v -> keys_sorted v.
Proof. destruct v; try done; cbn; intros Hv; apply Hv. Qed.

Lemma addition_of_ok v t : addition_of v = Ok t -> transform_ok t.
Proof.
  assert (forall T c (i : int T), into_t c = Ok i -> in_int T (int_val i)) as I.
  { intros T c i Hi. by apply into_t_valid in Hi. }
  assert (forall (P : Prop) (Q : {P} + {~ P}) (c : CLValue), (if Q
    then '(name, key) ← map_err AddResult_of_CLValueError (into_t (A:=rstring * Key) c);
         Ok (AddKeys (BTreeMap (btree_insert name key [])))
    else Err AddTypeMismatch) = Ok t -> transform_ok t) as N.
  { intros P [|] c; [|done]. intros ([name key] & _ & [= <-])%bind_Ok. by repeat constructor. }
  unfold addition_of. destruct v as [c| | | | | | | | | |]; try done.
  destruct (cl_type c); try apply N; intros (i & E%map_err_Ok & [= <-])%bind_Ok; by eapply I.
Qed.

Lemma op_ok_entries T o : op_ok T o -> op_entries (fun k t => transform_ok t /\ adds_as (T k) t) o.
Proof.
  intros [_ Ho]. destruct o as [k|k v|k v|t]; cbn; [done| | |done].
  - split; [|done]. by apply valid_keys_sorted.
  - destruct (addition_of v) as [t| | |] eqn:E; try done. split; [by eapply addition_of_ok|done].
Qed.


End GlobalState.
