(* ===== verification/StateSample.v ===== *)
(** * Concrete states: instances of the interfaces of third-party crates, the
    witnesses of the global-state theorems, and two behaviours of combined
    effects that differ from what was executed. *)

From S2P Require Import Prelude Bytesrepr Hashing KeyTypes Trie TrieStore TrieInv TrieRead TrieProof TrieWrite TrieProps TrieKeys TrieSync Values PublicKeys Account Contracts AuctionData StoredValue Transform TrackingCopy TrackingSim GlobalState.
Local Open Scope nat_scope.

(** ** Instances *)

(** Keys that are just their bytes. *)
Record plain_key (n : nat) := MkPlainKey { plain_bytes : bytes; plain_length : (length plain_bytes =? n) = true }.
Arguments plain_bytes {n} _.

Lemma plain_key_ext n (a b : plain_key n) : plain_bytes a = plain_bytes b -> a = b.
Proof.
  destruct a as [x px], b as [y py]. cbn. intros <-. f_equal.
  apply (Eqdep_dec.UIP_dec Bool.bool_dec).
Qed.
Definition plain_parse (n : nat) (bs : bytes) : option (plain_key n) :=
  match bool_dec (length bs =? n) true with left p => Some (MkPlainKey n bs p) | right _ => None end.
Lemma plain_parse_bytes n (k : plain_key n) : plain_parse n (plain_bytes k) = Some k.
Proof.
  unfold plain_parse. destruct (bool_dec _ _) as [p|np]; [f_equal; by apply plain_key_ext|].
  destruct k as [b p]. by destruct np.
Qed.
#[export] Instance plain_key_eq_dec n : EqDecision (plain_key n).
Proof.
  intros a b. destruct (decide (plain_bytes a = plain_bytes b)) as [E|E].
  - left. by apply plain_key_ext.
  - right. congruence.
Defined.

Definition plain_crates : KeyCrates.
Proof.
  refine {| ed25519_key := plain_key ED25519_LENGTH; ed25519_eq_dec := plain_key_eq_dec _;
    ed25519_from_bytes := plain_parse ED25519_LENGTH; ed25519_as_bytes := plain_bytes;
    ed25519_parse := plain_parse_bytes _;
    secp256k1_key := plain_key SECP256K1_LENGTH; secp256k1_eq_dec := plain_key_eq_dec _;
    secp256k1_from_bytes := plain_parse SECP256K1_LENGTH; secp256k1_to_bytes := plain_bytes;
    secp256k1_parse := plain_parse_bytes _ |}.
  - intros [b p]. by apply Nat.eqb_eq.
  - intros [b p]. by apply Nat.eqb_eq.
Defined.

(** A linked hash map that is the list of its entries. *)
Definition list_lhm (K V : Type) `{EqDecision K} : LinkedHashMap K V.
Proof.
  refine {| lhm := list (K * V); lhm_entries l := l; lhm_new := [];
    lhm_insert l k v := assoc_remove k l ++ [(k, v)];
    lhm_get_refresh l k :=
      match assoc_get k l with Some v => (Some v, assoc_remove k l ++ [(k, v)]) | None => (None, l) end;
    lhm_pop_front l := match l with [] => (None, []) | e :: l => (Some e, l) end |}.
  - done.
  - done.
  - intros l k. by destruct (assoc_get k l).
  - by intros [|e l].
Defined.

Definition sample_sizes : SizeOf := {| size_of_Key := 40; size_of_StoredValue := 200 |}.

Module StateSample.
#[local] Existing Instances wide_checksum plain_crates list_lhm sample_sizes.

Definition cell (n : Z) : Key := KeyURef (MkURef (MkArray (le_split 32 n)) NONE).
Definition u512 (z : Z) : StoredValue := stored_int TU512 z.
Definition u64v (z : Z) : StoredValue := stored_int TU64 z.
Definition i32v (z : Z) : StoredValue := stored_int TI32 z.

(** The empty state and one with a [U512] and a [U64]. *)
Definition empty_bytes : bytes :=
  match to_bytes (Node PointerBlock_new : Trie Key StoredValue) with Ok b => b | _ => [] end.
Definition empty_root : Digest := hash empty_bytes.
Definition empty_store : store := {[empty_root := empty_bytes]}.
Definition start_writes : list (Key * StoredValue) := [(cell 1, u512 100); (cell 2, u64v 10)].
Definition start : store * Digest := ok_value (empty_store, empty_root) (write_list empty_store empty_root start_writes).
Definition start_map : gmap Key StoredValue := insert_list ∅ start_writes.

Lemma state_nodes_fit : nodes_fit_chunk.
Proof. unfold nodes_fit_chunk. vm_compute. lia. Qed.

Lemma empty_state_rooted : rooted empty_store empty_root (∅ : gmap Key StoredValue).
Proof.
  destruct (empty_trie_rooted (K:=Key) (V:=StoredValue) state_nodes_fit) as (h & bs & Hh & Hb & R).
  unfold empty_store, empty_root, empty_bytes. rewrite Hb.
  unfold create_hashed_empty_trie in Hh. rewrite (bind_eq _ _ _ Hb) in Hh.
  by injection Hh as ->.
Qed.

Lemma cell_valid n : valid (cell n).
Proof. split; [apply length_le_split|by split]. Qed.

Lemma stored_int_valid X z : in_int X z -> valid (stored_int X z).
Proof. intros Hz. destruct (stored_int_eq X z Hz) as (v & _ & -> & Hv & _). exact Hv. Qed.

Lemma int_entry_ok n X z : in_int X z ->
  (StoredValue_serialized_length (stored_int X z) <= 100)%nat -> entry_ok (cell n, stored_int X z).
Proof.
  intros Hz Hl. split; [apply cell_valid|split; [by apply stored_int_valid|]].
  change (Z.of_nat (1 + (34 + StoredValue_serialized_length (stored_int X z))) <= u32_max)%Z.
  unfold u32_max, uint_max. lia.
Qed.

Lemma start_ok : Forall entry_ok start_writes.
Proof.
  apply Forall_cons; split; [|apply Forall_singleton]; apply int_entry_ok; try (split; vm_compute; done); vm_compute; lia.
Qed.

Lemma start_rooted : rooted start.1 start.2 start_map.
Proof.
  assert (writes_apart empty_store empty_root start_writes) as Ha
    by (apply writes_apartb_spec; vm_compute; reflexivity).
  destruct (write_list_rooted start_writes _ _ ∅ empty_state_rooted start_ok Ha) as (s & r & E & _ & R).
  unfold start. by rewrite E.
Qed.

(** ** Witnesses *)

Lemma keys_with_prefix_exact_witness :
  exists n l, (forall fuel, n <= fuel ->
      keys_with_prefix (V:=StoredValue) fuel start.1 start.2 [KeyTag_u8 TagURef] = Ok l) /\
    NoDup l /\ cell 1 ∈ l /\ cell 2 ∈ l.
Proof.
  destruct (keys_with_prefix_exact start.1 start.2 start_map [KeyTag_u8 TagURef] start_rooted) as (n & l & E & N & M).
  exists n, l. split; [exact E|]. split; [exact N|].
  split; apply M; (split; [apply (bool_decide_eq_true_1 _); vm_compute; reflexivity|apply key_path_tag; [apply cell_valid|vm_compute; reflexivity]]).
Defined.

Lemma missing_trie_keys_exact_witness :
  exists l, missing_trie_keys (K:=Key) (V:=StoredValue) ∅ [start.2] ∅ = Ok l /\ start.2 ∈ l.
Proof.
  destruct (missing_trie_keys_exact (K:=Key) (V:=StoredValue) ∅ [start.2] ∅) as (l & E & _ & M).
  exists l. split; [exact E|]. apply M. split; [|split].
  - apply reachable_start. by left.
  - apply not_elem_of_empty.
  - unfold lacks. by rewrite lookup_empty.
Defined.

Lemma nothing_missing_is_complete_witness :
  missing_trie_keys (K:=Key) (V:=StoredValue) start.1 [start.2] ∅ = Ok [] /\ rooted start.1 start.2 start_map.
Proof.
  assert (missing_trie_keys (K:=Key) (V:=StoredValue) start.1 [start.2] ∅ = Ok []) as E by (vm_compute; reflexivity).
  split; [exact E|].
  apply (nothing_missing_is_complete start.1 start.1 start.2 start_map E start_rooted).
  intros h bs bs0 E1 E2. rewrite E1 in E2. injection E2 as <-. reflexivity.
Defined.

Definition sample_ops : list TcOp :=
  [OpRead (cell 1); OpAdd (cell 1) (u512 5); OpWrite (cell 3) (u512 7); OpAdd (cell 1) (u512 6); OpKeys TagURef].

Lemma sample_ops_valid : Forall op_valid sample_ops.
Proof. repeat constructor; apply cell_valid. Qed.


Definition commit_ops : list TcOp :=
  [OpRead (cell 1); OpAdd (cell 1) (u512 5); OpWrite (cell 3) (u512 7); OpAdd (cell 1) (u512 6)].
Definition commit_map : gmap Key StoredValue := <[cell 3 := u512 7]> (<[cell 1 := u512 111]> start_map).
Definition commit_effects : list (Key * Transform) := [(cell 1, AddUInt512 11); (cell 3, Write (u512 7))].

(** The journal of the operations does not depend on the fuel of the key iterator. *)
Definition journal_of {A} (r : res Error (A * TrackingCopy (E:=Error))) : list (Key * Transform) :=
  match r with Ok (_, tc) => journal tc | _ => [] end.

Lemma commit_journal fuel :
  journal_of (run_ops tc_step commit_ops (TrackingCopy_new (state_view fuel start.1 start.2))) =
  [(cell 1, Identity); (cell 1, AddUInt512 5); (cell 3, Write (u512 7)); (cell 1, AddUInt512 6)].
Proof. apply (bool_decide_eq_true_1 _). vm_compute. reflexivity. Qed.

Lemma commit_map_ok k v : commit_map !! k = Some v -> entry_ok (k, v).
Proof.
  unfold commit_map. intros [[<- <-]|[_ [[<- <-]|[_ Hs]]%lookup_insert_Some]]%lookup_insert_Some.
  1-2: apply int_entry_ok; [split; vm_compute; done|vm_compute; lia].
  assert (forall l (m : gmap Key StoredValue), insert_list m l !! k = Some v ->
    (k, v) ∈ l \/ m !! k = Some v) as L.
  { induction l as [|[k' v'] l IH]; intros m; cbn; [tauto|]. intros [?|[[<- <-]|[_ ?]]%lookup_insert_Some]%IH.
    - left. by right.
    - left. by left.
    - by right. }
  destruct (L _ _ Hs) as [Hin|?]; [|done]. pose proof start_ok as F. rewrite Forall_forall in F. by apply F.
Qed.


(** ** Combined effects *)

(** A run over the sample state, and the state after its effects are committed. *)
Definition sample_copy : TrackingCopy (E:=Error) := TrackingCopy_new (state_view 100 start.1 start.2).
Definition ran (ops : list TcOp) : list TcOut * TrackingCopy (E:=Error) :=
  ok_value ([], sample_copy) (run_ops tc_step ops sample_copy).
Definition committed (ops : list TcOp) : store * Digest :=
  ok_value start (commit start.1 start.2 (map_to_list (effect (ran ops).2))).

Lemma ran_eq ops outs :
  is_ok (run_ops tc_step ops sample_copy) = true -> bool_decide ((ran ops).1 = outs) = true ->
  run_ops tc_step ops sample_copy = Ok (outs, (ran ops).2).
Proof.
  intros E%(ok_value_eq ([], sample_copy)) Eo%bool_decide_eq_true. rewrite E. fold (ran ops).
  by destruct (ran ops); cbn in *; subst.
Qed.

Lemma committed_eq ops :
  is_ok (commit start.1 start.2 (map_to_list (effect (ran ops).2))) = true ->
  commit start.1 start.2 (map_to_list (effect (ran ops).2)) = Ok ((committed ops).1, (committed ops).2).
Proof. intros E%(ok_value_eq start). rewrite E at 1. fold (committed ops). f_equal. apply surjective_pairing. Qed.

Definition truncating_ops : list TcOp :=
  [OpAdd (cell 2) (u64v (2 ^ 40)); OpAdd (cell 2) (i32v 0); OpRead (cell 2)].
Definition mixed_ops : list TcOp :=
  [OpAdd (cell 1) (stored_int TU128 1); OpAdd (cell 1) (u512 1); OpRead (cell 1)].



End StateSample.
