(* ===== verification/RuntimeContext.v ===== *)
(** * The context of an execution: [execution_engine/src/core/runtime_context/mod.rs]
    with [dictionary.rs], [core/execution/address_generator.rs],
    [core/tracking_copy/ext.rs] and [core/runtime/stack.rs].

    What contract code can do to the global state: every access goes through
    the checks of this file, is charged, and reaches the tracking copy.  The
    tracking copy, the address generator and the host-function flag are shared
    between the contexts of one execution ([Rc<RefCell<_>>] in the code): they
    are the [World]; the rest is the [Context] of one call.  The tracking copy is
    represented by the map it refines (see [TrackingSim]): an access is a
    [map_step].  A stateful computation keeps its state on an error, as
    mutations made before an early return stay. *)

From stdpp Require Import strings.
From S2P Require Import Prelude Bytesrepr Hashing KeyTypes Values PublicKeys Account Contracts SystemErrors AuctionData StoredValue Transform TrackingCopy TrackingSim.
Local Open Scope Z_scope.

(** ** Stateful computations with errors *)

Definition RT (S E A : Type) : Type := S -> res E A * S.

#[export] Instance RT_ret S E : MRet (RT S E) := fun A a st => (Ok a, st).
#[export] Instance RT_bind S E : MBind (RT S E) := fun A B k x st =>
  match x st with
  | (Ok a, st) => k a st
  | (Err e, st) => (Err e, st)
  | (Panic, st) => (Panic, st)
  | (OutOfFuel, st) => (OutOfFuel, st)
  end.

Definition lift {S E A} (r : res E A) : RT S E A := fun st => (r, st).
Definition gets {S E A} (f : S -> A) : RT S E A := fun st => (Ok (f st), st).
Definition modify {S E} (f : S -> S) : RT S E unit := fun st => (Ok tt, f st).
Definition throw {S E A} (e : E) : RT S E A := fun st => (Err e, st).
Definition ensure {S E} (b : bool) (e : E) : RT S E unit := if b then mret tt else throw e.
(** [map_err] on the result of a computation. *)
Definition rt_map_err {S E E' A} (f : E -> E') (x : RT S E A) : RT S E' A := fun st =>
  let '(r, st) := x st in (map_err f r, st).
(** The result as a value, for code that looks at it without returning. *)
Definition rt_try {S E E' A} (x : RT S E A) : RT S E' (A + E) := fun st =>
  match x st with
  | (Ok a, st) => (Ok (inl a), st)
  | (Err e, st) => (Ok (inr e), st)
  | (Panic, st) => (Panic, st)
  | (OutOfFuel, st) => (OutOfFuel, st)
  end.
Definition rt_ok_or {S E A} (o : option A) (e : E) : RT S E A := lift (ok_or o e).
(** [for x in xs { .. }] with [?] in the body. *)
Fixpoint rt_for {S E A} (xs : list A) (body : A -> RT S E unit) : RT S E unit :=
  match xs with
  | [] => mret tt
  | x :: xs => _ ← body x; rt_for xs body
  end.

(** ** Addresses *)

(** [ChaChaRng], which fills 32 bytes at a time. *)
Class AddressRng := {
  rng : Type;
  fill_bytes : rng -> array 32 * rng;
}.

(** ** Configuration *)

Record MintCosts := MkMintCosts {
  cost_mint : Z;
  cost_reduce_total_supply : Z;
  cost_create : Z;
  cost_balance : Z;
  cost_transfer : Z;
  cost_read_base_round_reward : Z;
}.

Record HandlePaymentCosts := MkHandlePaymentCosts {
  cost_get_payment_purse : Z;
  cost_set_refund_purse : Z;
  cost_get_refund_purse : Z;
  cost_finalize_payment : Z;
}.

(** The costs of the entry points of the auction that the host dispatches to. *)
Record AuctionCosts := MkAuctionCosts {
  cost_get_era_validators : Z;
  cost_add_bid : Z;
  cost_withdraw_bid : Z;
  cost_delegate : Z;
  cost_undelegate : Z;
  cost_run_auction : Z;
  cost_slash : Z;
  cost_distribute : Z;
  cost_read_era_id : Z;
}.

(** The part of [EngineConfig] the modelled code reads. *)
Class EngineConfig := {
  strict_argument_checking : bool;
  max_runtime_call_stack_height : nat;
  handle_payment_costs : HandlePaymentCosts;
  gas_per_byte : Z;
  max_associated_keys : nat;
  mint_costs : MintCosts;
  auction_costs : AuctionCosts;
  vesting_schedule_period_millis : Z;
  minimum_delegation_amount : Z;
}.

Definition calculate_gas_cost `{EngineConfig} {E} (bytes_count : nat) : res E Z :=
  plain_mul 512 gas_per_byte (Z.of_nat bytes_count).

(** ** State *)

Inductive Phase := PhaseSystem | PhasePayment | PhaseSession | PhaseFinalizePayment.

#[export] Instance Phase_eq_dec : EqDecision Phase.
Proof. solve_decision. Defined.

Inductive CallStackElement :=
| CallSession (account_hash : AccountHash)
| CallStoredSession (account_hash : AccountHash) (contract_package_hash contract_hash : HashAddr)
| CallStoredContract (contract_package_hash contract_hash : HashAddr).

Record Context := MkContext {
  named_keys : NamedKeys;
  rights : ContextAccessRights;
  account : AccountRecord;
  authorization_keys : btree_set AccountHash;
  base_key : Key;
  deploy_hash : DeployHash;
  gas_limit : Z;
  gas_counter : Z;
  phase : Phase;
  entry_point_type : EntryPointType;
  context_protocol_version : ProtocolVersion;
  transfers : list TransferAddr;
  remaining_spending_limit : Z;
  (** frames of the call stack, the current one last *)
  stack : list CallStackElement;
}.

Definition with_named_keys (k : NamedKeys) (c : Context) : Context :=
  MkContext k (rights c) (account c) (authorization_keys c) (base_key c) (deploy_hash c) (gas_limit c)
    (gas_counter c) (phase c) (entry_point_type c) (context_protocol_version c) (transfers c) (remaining_spending_limit c) (stack c).
Definition with_rights (r : ContextAccessRights) (c : Context) : Context :=
  MkContext (named_keys c) r (account c) (authorization_keys c) (base_key c) (deploy_hash c) (gas_limit c)
    (gas_counter c) (phase c) (entry_point_type c) (context_protocol_version c) (transfers c) (remaining_spending_limit c) (stack c).
Definition with_gas_counter (g : Z) (c : Context) : Context :=
  MkContext (named_keys c) (rights c) (account c) (authorization_keys c) (base_key c) (deploy_hash c)
    (gas_limit c) g (phase c) (entry_point_type c) (context_protocol_version c) (transfers c) (remaining_spending_limit c) (stack c).
Definition with_transfers (t : list TransferAddr) (c : Context) : Context :=
  MkContext (named_keys c) (rights c) (account c) (authorization_keys c) (base_key c) (deploy_hash c)
    (gas_limit c) (gas_counter c) (phase c) (entry_point_type c) (context_protocol_version c) t (remaining_spending_limit c) (stack c).
Definition with_spending_limit (l : Z) (c : Context) : Context :=
  MkContext (named_keys c) (rights c) (account c) (authorization_keys c) (base_key c) (deploy_hash c)
    (gas_limit c) (gas_counter c) (phase c) (entry_point_type c) (context_protocol_version c) (transfers c) l (stack c).

(** [AccountHash::from_public_key]. *)
Definition from_public_key `{KeyCrates} `{Blake2b} (public_key : PublicKey) : AccountHash :=
  let algorithm_name :=
    match public_key with
    | PkSystem => "system"
    | PkEd25519 _ => "ed25519"
    | PkSecp256k1 _ => "secp256k1"
    end%string in
  MkAccountHash (blake2b (String.list_byte_of_string algorithm_name ++ Byte.x00 :: public_key_bytes public_key)).

(** ** Dictionary values *)

Record DictionaryValue := MkDictionaryValue {
  dictionary_cl_value : CLValue;
  seed_uref_addr : Bytes;
  dictionary_item_key_bytes : Bytes;
}.

Definition DictionaryValue_serialized_length (d : DictionaryValue) : nat :=
  serialized_length (dictionary_cl_value d) + serialized_length (seed_uref_addr d) +
  serialized_length (dictionary_item_key_bytes d).
Definition DictionaryValue_to_bytes (d : DictionaryValue) : bres bytes :=
  _ ← allocate_buffer (DictionaryValue_serialized_length d);
  b0 ← to_bytes (dictionary_cl_value d); b1 ← to_bytes (seed_uref_addr d);
  b2 ← to_bytes (dictionary_item_key_bytes d); mret (b0 ++ b1 ++ b2).
Definition DictionaryValue_write_bytes (d : DictionaryValue) (writer : bytes) : bres bytes :=
  writer ← write_bytes (dictionary_cl_value d) writer; writer ← write_bytes (seed_uref_addr d) writer;
  write_bytes (dictionary_item_key_bytes d) writer.
Definition DictionaryValue_from_bytes (bs : bytes) : bres (DictionaryValue * bytes) :=
  '(cl_value, remainder) ← from_bytes bs;
  '(uref_addr, remainder) ← from_bytes remainder;
  '(key_bytes, remainder) ← from_bytes remainder;
  mret (MkDictionaryValue cl_value uref_addr key_bytes, remainder).

#[export] Instance DictionaryValue_ToBytes : ToBytes DictionaryValue := {|
  to_bytes := DictionaryValue_to_bytes; into_bytes := DictionaryValue_to_bytes;
  serialized_length := DictionaryValue_serialized_length; write_bytes := DictionaryValue_write_bytes |}.
#[export] Instance DictionaryValue_FromBytes : FromBytes DictionaryValue :=
  default_FromBytes DictionaryValue_from_bytes.
#[export] Instance DictionaryValue_Valid : Valid DictionaryValue := fun d =>
  valid (dictionary_cl_value d) /\ valid (seed_uref_addr d) /\ valid (dictionary_item_key_bytes d).
#[export] Instance DictionaryValue_Bytesrepr : Bytesrepr DictionaryValue.
Proof.
  struct_codec_by ltac:(unfold DictionaryValue_to_bytes, DictionaryValue_serialized_length,
    DictionaryValue_write_bytes, DictionaryValue_from_bytes, DictionaryValue_Valid).
Qed.
#[export] Instance DictionaryValue_CLTyped : CLTyped DictionaryValue := CLType.Any.

#[export] Instance array_CLTyped (N : nat) : CLTyped (array N) := CLType.ByteArray (Z.of_nat N).
#[export] Instance BTreeMap_CLTyped {K V} `{CLTyped K} `{CLTyped V} : CLTyped (btree_map K V) :=
  CLType.Map (cl_type_of K) (cl_type_of V).

Definition DICTIONARY_ITEM_KEY_MAX_LENGTH : nat := 128.

Section RuntimeContext.
Context `{KeyCrates} `{Blake2b} `{AddressRng} `{EngineConfig}.

(** [PublicKey::System.to_account_hash()]. *)
Definition system_account : AccountHash := from_public_key PkSystem.

Record World := MkWorld {
  gs : gmap Key StoredValue;
  address_generator : rng;
  host_function_depth : Z;
}.

Record RuntimeState := MkRuntime { world : World; ctx : Context }.

Abbreviation M := (RT RuntimeState ExecError).

Definition set_ctx {E} (f : Context -> Context) : RT RuntimeState E unit :=
  modify (fun st => MkRuntime (world st) (f (ctx st))).
Definition set_gs (m : gmap Key StoredValue) (st : RuntimeState) : RuntimeState :=
  MkRuntime (MkWorld m (address_generator (world st)) (host_function_depth (world st))) (ctx st).

(** An access to the tracking copy. *)
Definition gs_step {E} (o : TcOp) : RT RuntimeState E TcOut := fun st =>
  match map_step (E:=E) (gs (world st)) o with
  | Ok (out, m) => (Ok out, set_gs m st)
  | Err e => (Err e, st)
  | Panic => (Panic, st)
  | OutOfFuel => (OutOfFuel, st)
  end.
Definition gs_read {E} (key : Key) : RT RuntimeState E (option StoredValue) :=
  out ← gs_step (OpRead key); match out with OutRead v => mret v | _ => lift Panic end.
Definition gs_write {E} (key : Key) (value : StoredValue) : RT RuntimeState E unit :=
  _ ← gs_step (OpWrite key value); mret tt.

(** [AddressGenerator]. *)
Definition create_address {E} : RT RuntimeState E (array 32) := fun st =>
  let '(a, g) := fill_bytes (address_generator (world st)) in
  (Ok a, MkRuntime (MkWorld (gs (world st)) g (host_function_depth (world st))) (ctx st)).

(** *** Reading the registry and contracts: [TrackingCopyExt] *)

Abbreviation SystemContractRegistry := (btree_map rstring ContractHash).

Definition get_system_contracts : M SystemContractRegistry :=
  found ← gs_read KeyTypes.SystemContractRegistry;
  match found with
  | Some (StoredCLValue registry) => rt_map_err ExecCLValue (lift (into_t registry))
  | Some _ => throw ExecTypeMismatch
  | None => throw (ExecKeyNotFound KeyTypes.SystemContractRegistry)
  end.

Definition get_contract (contract_hash : ContractHash) : M Contract :=
  let key := KeyHash contract_hash in
  found ← gs_read key;
  match found with
  | Some (StoredContract contract) => mret contract
  | Some _ => throw ExecTypeMismatch
  | None => throw (ExecKeyNotFound key)
  end.

Definition system_contract_registry : M SystemContractRegistry :=
  rt_map_err (fun _ => ExecMissingSystemContractRegistry) get_system_contracts.

Definition get_system_contract (name : rstring) : M ContractHash :=
  registry ← system_contract_registry;
  rt_ok_or (btree_get name (entries registry)) (ExecMissingSystemContractHash name).

Definition has_contract_hash (registry : SystemContractRegistry) (contract_hash : ContractHash) : bool :=
  existsb (fun e => bool_decide (e.2 = contract_hash)) (entries registry).

Definition is_system_contract (contract_hash : ContractHash) : M bool :=
  registry ← system_contract_registry; mret (has_contract_hash registry contract_hash).

(** [dictionary::handle_stored_value]. *)
Definition handle_stored_value (key : Key) (stored_value : StoredValue) : res CLValueError StoredValue :=
  match key, stored_value with
  | Dictionary _, StoredCLValue cl_value =>
      wrapped_cl_value ← into_t (A:=DictionaryValue) cl_value;
      Ok (StoredCLValue (dictionary_cl_value wrapped_cl_value))
  | _, stored_value => Ok stored_value
  end.

(** *** Checks *)

Definition validate_uref (c : Context) (uref : URef) : res ExecError unit :=
  if has_access_rights_to_uref (rights c) uref then Ok tt else Err (ExecForgedReference uref).
Definition validate_key (c : Context) (key : Key) : res ExecError unit :=
  match key with KeyURef uref => validate_uref c uref | _ => Ok tt end.

Definition rc_is_readable (c : Context) (key : Key) : bool :=
  match key with
  | Account _ => bool_decide (base_key c = key)
  | KeyURef uref => URef_is_readable uref
  | Balance _ => false
  | _ => true
  end.
Definition rc_is_addable (c : Context) (key : Key) : bool :=
  match key with
  | Account _ | KeyHash _ => bool_decide (base_key c = key)
  | KeyURef uref => URef_is_addable uref
  | _ => false
  end.
Definition rc_is_writeable (key : Key) : bool :=
  match key with KeyURef uref => URef_is_writeable uref | _ => false end.

Definition validate_readable (c : Context) (key : Key) : res ExecError unit :=
  if rc_is_readable c key then Ok tt else Err (ExecInvalidAccess READ).
Definition validate_addable (c : Context) (key : Key) : res ExecError unit :=
  if rc_is_addable c key then Ok tt else Err (ExecInvalidAccess ADD).
Definition validate_writeable (c : Context) (key : Key) : res ExecError unit :=
  if rc_is_writeable key then Ok tt else Err (ExecInvalidAccess WRITE).

Definition validate_cl_value (c : Context) (cl_value : CLValue) : res ExecError unit :=
  match cl_type cl_value with
  | CLType.Key => key ← map_err ExecCLValue (into_t (A:=Key) cl_value); validate_key c key
  | CLType.URef => uref ← map_err ExecCLValue (into_t (A:=URef) cl_value); validate_uref c uref
  | CLType.Tuple2 t1 t2 =>
      if decide (CLType.Tuple2 t1 t2 = named_key_type) then
        '(_, key) ← map_err ExecCLValue (into_t (A:=rstring * Key) cl_value); validate_key c key
      else Ok tt
  | _ => Ok tt
  end.

(** [try_for_each]. *)
Fixpoint validate_keys (c : Context) (keys : list Key) : res ExecError unit :=
  match keys with
  | [] => Ok tt
  | key :: keys => _ ← validate_key c key; validate_keys c keys
  end.

Definition validate_value (c : Context) (value : StoredValue) : res ExecError unit :=
  match value with
  | StoredCLValue cl_value => validate_cl_value c cl_value
  | StoredAccount account => validate_keys c (snd <$> entries (account_named_keys account))
  | StoredContract contract_header => validate_keys c (snd <$> entries (contract_named_keys contract_header))
  | _ => Ok tt
  end.

(** A check of the current context. *)
Definition check (f : Context -> res ExecError unit) : M unit := c ← gets ctx; lift (f c).

(** *** Gas *)

Definition charge_gas (amount : Z) : M unit :=
  prev ← gets (fun st => gas_counter (ctx st));
  limit ← gets (fun st => gas_limit (ctx st));
  match checked_add 512 prev amount with
  | None => _ ← set_ctx (with_gas_counter limit); throw ExecGasLimit
  | Some val =>
      if limit <? val then _ ← set_ctx (with_gas_counter limit); throw ExecGasLimit
      else set_ctx (with_gas_counter val)
  end.

Definition charge_gas_storage (bytes_count : nat) : M unit :=
  base ← gets (fun st => base_key (ctx st));
  free ← match into_hash base with
         | Some contract_hash => is_system_contract contract_hash
         | None => mret false
         end;
  if free : bool then mret tt else gas_cost ← lift (calculate_gas_cost bytes_count); charge_gas gas_cost.

(** [RuntimeContext::charge_system_contract_call]. *)
Definition rc_charge_system_contract_call (call_cost : Z) : M unit :=
  a ← gets (fun st => account_hash (account (ctx st)));
  if decide (a = system_account) then mret tt else charge_gas call_cost.

(** *** Reading *)

Definition read_gs (key : Key) : M (option StoredValue) :=
  _ ← check (fun c => validate_readable c key);
  _ ← check (fun c => validate_key c key);
  maybe_stored_value ← gs_read key;
  match maybe_stored_value with
  | Some stored_value => v ← rt_map_err ExecCLValue (lift (handle_stored_value key stored_value)); mret (Some v)
  | None => mret None
  end.

Definition read_gs_direct (key : Key) : M (option StoredValue) := gs_read key.

Definition read_gs_typed {T} (try_from : StoredValue -> option T) (key : Key) : M T :=
  found ← read_gs key;
  match found with
  | None => throw (ExecKeyNotFound key)
  | Some value => rt_ok_or (try_from value) ExecFunctionNotFound
  end.

Definition Account_try_from (v : StoredValue) : option AccountRecord :=
  match v with StoredAccount a => Some a | _ => None end.
Definition Contract_try_from (v : StoredValue) : option Contract :=
  match v with StoredContract c => Some c | _ => None end.
Definition Transfer_try_from (v : StoredValue) : option TransferRecord :=
  match v with StoredTransfer t => Some t | _ => None end.
Definition DeployInfo_try_from (v : StoredValue) : option DeployInfoRecord :=
  match v with StoredDeployInfo d => Some d | _ => None end.
Definition EraInfo_try_from (v : StoredValue) : option EraInfoRecord :=
  match v with StoredEraInfo e => Some e | _ => None end.

Definition rc_get_keys (key_tag : KeyTag) : M (gset Key) :=
  out ← gs_step (OpKeys key_tag); match out with OutKeys ks => mret ks | _ => lift Panic end.

(** [read_account], which panics for other keys. *)
Definition rc_read_account (key : Key) : M (option StoredValue) :=
  match key with
  | Account _ => _ ← check (fun c => validate_key c key); gs_read key
  | _ => lift Panic
  end.

(** *** Writing *)

Definition metered_write_gs_unsafe (key : Key) (stored_value : StoredValue) : M unit :=
  _ ← charge_gas_storage (StoredValue_serialized_length stored_value);
  gs_write key stored_value.

Definition metered_write_gs (key : Key) (stored_value : StoredValue) : M unit :=
  _ ← check (fun c => validate_writeable c key);
  _ ← check (fun c => validate_key c key);
  _ ← check (fun c => validate_value c stored_value);
  metered_write_gs_unsafe key stored_value.

Definition metered_add_gs_unsafe (key : Key) (value : StoredValue) : M unit :=
  _ ← charge_gas_storage (StoredValue_serialized_length value);
  out ← gs_step (OpAdd key value);
  match out with
  | OutAdd Success => mret tt
  | OutAdd (AddKeyNotFound key) => throw (ExecKeyNotFound key)
  | OutAdd AddTypeMismatch => throw ExecTypeMismatch
  | OutAdd (AddSerialization error) => throw (ExecBytesRepr error)
  | _ => lift Panic
  end.

Definition metered_add_gs (key : Key) (value : StoredValue) : M unit :=
  _ ← check (fun c => validate_addable c key);
  _ ← check (fun c => validate_key c key);
  _ ← check (fun c => validate_value c value);
  metered_add_gs_unsafe key value.

Definition insert_uref {E} (uref : URef) : RT RuntimeState E unit :=
  set_ctx (fun c => with_rights (extend (rights c) [uref]) c).

Definition new_uref (value : StoredValue) : M URef :=
  a ← create_address;
  let uref := MkURef a READ_ADD_WRITE in
  _ ← insert_uref uref;
  _ ← metered_write_gs (KeyURef uref) value;
  mret uref.

(** [CLValue::unit()], which is [from_components(CLType::Unit, vec![])]. *)
Definition new_unit_uref : M URef := new_uref (StoredCLValue (MkCLValue CLType.Unit (MkBytes []))).
Definition new_transfer_addr {E} : RT RuntimeState E TransferAddr := a ← create_address; mret (MkTransferAddr (array_bytes a)).
Definition new_hash_address {E} : RT RuntimeState E Digest := a ← create_address; mret (hash (array_bytes a)).

Definition insert_named_key (name : rstring) (key : Key) : M unit :=
  _ ← match key with KeyURef uref => insert_uref uref | _ => mret tt end;
  set_ctx (fun c => with_named_keys (BTreeMap (btree_insert name key (entries (named_keys c)))) c).

Definition put_key (name : rstring) (key : Key) : M unit :=
  v ← rt_map_err ExecCLValue (lift (from_t (name, key)));
  let named_key_value := StoredCLValue v in
  _ ← check (fun c => validate_value c named_key_value);
  base ← gets (fun st => base_key (ctx st));
  _ ← metered_add_gs_unsafe base named_key_value;
  insert_named_key name key.

Definition account_to_validated_value (account : AccountRecord) : M StoredValue :=
  let value := StoredAccount account in
  _ ← check (fun c => validate_value c value); mret value.

(** [write_account], [write_transfer] and [write_era_info] panic for other keys. *)
Definition write_account (key : Key) (account : AccountRecord) : M unit :=
  match key with
  | Account _ =>
      _ ← check (fun c => validate_key c key);
      account_value ← account_to_validated_value account;
      metered_write_gs_unsafe key account_value
  | _ => lift Panic
  end.
Definition write_transfer (key : Key) (value : TransferRecord) : M unit :=
  match key with Transfer _ => gs_write key (StoredTransfer value) | _ => lift Panic end.
Definition write_era_info (key : Key) (value : EraInfoRecord) : M unit :=
  match key with EraInfo _ => gs_write key (StoredEraInfo value) | _ => lift Panic end.

(** *** Named keys *)

Definition remove_named_key {V} (name : rstring) (keys : btree_map rstring V) : btree_map rstring V :=
  BTreeMap (btree_remove name (entries keys)).
Definition Account_remove_named_key (name : rstring) (a : AccountRecord) : AccountRecord :=
  MkAccount (account_hash a) (remove_named_key name (account_named_keys a)) (main_purse a) (associated_keys a)
    (action_thresholds a).
Definition Contract_with_named_keys (c : Contract) (keys : NamedKeys) : Contract :=
  MkContract (contract_package_hash c) (contract_wasm_hash c) keys (entry_points c) (protocol_version c).

Definition remove_key_from_contract (key : Key) (contract : Contract) (name : rstring) : M unit :=
  match btree_get name (entries (contract_named_keys contract)) with
  | None => mret tt
  | Some _ =>
      metered_write_gs_unsafe key
        (StoredContract (Contract_with_named_keys contract (remove_named_key name (contract_named_keys contract))))
  end.

Definition forget_key (name : rstring) : M unit :=
  set_ctx (fun c => with_named_keys (remove_named_key name (named_keys c)) c).

Definition remove_key (name : rstring) : M unit :=
  base ← gets (fun st => base_key (ctx st));
  match base with
  | Account _ =>
      account ← read_gs_typed Account_try_from base;
      let account := Account_remove_named_key name account in
      _ ← forget_key name;
      account_value ← account_to_validated_value account;
      metered_write_gs_unsafe base account_value
  | KeyURef _ =>
      value ← gs_read base;
      value ← rt_ok_or value (ExecKeyNotFound base);
      contract ← rt_ok_or (Contract_try_from value) ExecTypeMismatch;
      _ ← forget_key name;
      remove_key_from_contract base contract name
  | KeyHash _ =>
      contract ← read_gs_typed Contract_try_from base;
      _ ← forget_key name;
      remove_key_from_contract base contract name
  | Transfer _ => _ ← read_gs_typed Transfer_try_from base; forget_key name
  | DeployInfo _ => _ ← read_gs_typed DeployInfo_try_from base; forget_key name
  | EraInfo _ => _ ← read_gs_typed EraInfo_try_from base; forget_key name
  | Balance _ | KeyTypes.Bid _ | Withdraw _ | Unbond _ | Dictionary _ => forget_key name
  | KeyTypes.SystemContractRegistry | ChainspecRegistry | BlockEffectsRootHash _ | DeployApprovalsRootHash _ =>
      throw (ExecRemoveKeyFailure RemovePermissionDenied)
  end.

(** *** Keys of the account *)

Definition is_valid_context (c : Context) : bool := bool_decide (base_key c = Account (account_hash (account c))).

(** The checks before a change of the account's keys, with the error of each operation. *)
Definition may_manage_keys (c : Context) : bool :=
  is_valid_context c && can_manage_keys_with (account c) (authorization_keys c).

(** The account, changed by [f] and written back. *)
Definition update_account (denied : ExecError) (f : AccountRecord -> res ExecError AccountRecord) : M unit :=
  c ← gets ctx;
  _ ← ensure (may_manage_keys c) denied;
  let key := Account (account_hash (account c)) in
  account ← read_gs_typed Account_try_from key;
  account ← lift (f account);
  account_value ← account_to_validated_value account;
  metered_write_gs_unsafe key account_value.

Definition rc_add_associated_key (account_hash : AccountHash) (weight : KeyWeight) : M unit :=
  update_account (ExecAddKeyFailure AddPermissionDenied) (fun account =>
    if (max_associated_keys <=? length (entries (associated_keys account)))%nat
    then Err (ExecAddKeyFailure MaxKeysLimit)
    else map_err ExecAddKeyFailure (add_associated_key account account_hash weight)).
Definition rc_remove_associated_key (account_hash : AccountHash) : M unit :=
  update_account (ExecRemoveKeyFailure RemovePermissionDenied) (fun account =>
    map_err ExecRemoveKeyFailure (remove_associated_key account account_hash)).
Definition rc_update_associated_key (account_hash : AccountHash) (weight : KeyWeight) : M unit :=
  update_account (ExecUpdateKeyFailure UpdatePermissionDenied) (fun account =>
    map_err ExecUpdateKeyFailure (update_associated_key account account_hash weight)).
Definition rc_set_action_threshold (action_type : ActionType) (threshold : KeyWeight) : M unit :=
  update_account (ExecSetThresholdFailure SetPermissionDenied) (fun account =>
    map_err ExecSetThresholdFailure (set_action_threshold account action_type threshold)).

Definition rc_get_main_purse : M URef :=
  c ← gets ctx; _ ← ensure (is_valid_context c) ExecInvalidContext; mret (main_purse (account c)).

Definition ContractPackage_try_from (v : StoredValue) : option ContractPackage :=
  match v with StoredContractPackage p => Some p | _ => None end.

Definition get_validated_contract_package (package_hash : HashAddr) : M ContractPackage :=
  let key := KeyHash package_hash in
  _ ← check (fun c => validate_key c key);
  contract_package ← read_gs_typed ContractPackage_try_from key;
  _ ← check (fun c => validate_uref c (access_key contract_package));
  mret contract_package.

(** *** Dictionaries *)

Definition dictionary_read (dictionary_key : Key) : M (option CLValue) :=
  maybe_stored_value ← gs_read dictionary_key;
  match maybe_stored_value with
  | Some stored_value =>
      v ← rt_map_err ExecCLValue (lift (handle_stored_value dictionary_key stored_value));
      cl_value ← rt_map_err (fun _ => ExecTypeMismatch) (lift (CLValue_try_from v));
      mret (Some cl_value)
  | None => mret None
  end.

Definition dictionary_get (uref : URef) (dictionary_item_key : rstring) : M (option CLValue) :=
  _ ← check (fun c => validate_readable c (KeyURef uref));
  _ ← check (fun c => validate_key c (KeyURef uref));
  _ ← ensure (length (as_bytes dictionary_item_key) <=? DICTIONARY_ITEM_KEY_MAX_LENGTH)%nat
        ExecDictionaryItemKeyExceedsLength;
  dictionary_read (Key_dictionary uref (as_bytes dictionary_item_key)).

Definition dictionary_put (seed_uref : URef) (dictionary_item_key : rstring) (cl_value : CLValue) : M unit :=
  _ ← ensure (length (as_bytes dictionary_item_key) <=? DICTIONARY_ITEM_KEY_MAX_LENGTH)%nat
        ExecDictionaryItemKeyExceedsLength;
  _ ← check (fun c => validate_writeable c (KeyURef seed_uref));
  _ ← check (fun c => validate_uref c seed_uref);
  _ ← check (fun c => validate_cl_value c cl_value);
  wrapped_cl_value ← rt_map_err ExecCLValue (lift (from_t (MkDictionaryValue cl_value
    (MkBytes (array_bytes (addr seed_uref))) (MkBytes (as_bytes dictionary_item_key)))));
  metered_write_gs_unsafe (Key_dictionary seed_uref (as_bytes dictionary_item_key)) (StoredCLValue wrapped_cl_value).

(** *** Groups *)

(** Some group of the entry point has an [URef] that the validator accepts. *)
Definition validate_group_membership (contract_package : ContractPackage) (access : EntryPointAccess)
    (validator : URef -> bool) : res ExecError unit :=
  match access with
  | AccessGroups groups =>
      if bool_decide (groups = []) then Err ExecInvalidContext
      else if existsb (fun g =>
        match btree_get g (entries (Contracts.groups contract_package)) with
        | Some set => existsb validator (elems set).*1
        | None => false
        end) groups then Ok tt
      else Err ExecInvalidContext
  | AccessPublic => Ok tt
  end.

(** *** Spending *)

(** [None] when the limit was exceeded, which leaves it at zero. *)
Definition subtract_amount_spent {E} (amount : Z) : RT RuntimeState E (option Z) :=
  limit ← gets (fun st => remaining_spending_limit (ctx st));
  match checked_sub limit amount with
  | Some res => _ ← set_ctx (with_spending_limit res); mret (Some res)
  | None => _ ← set_ctx (with_spending_limit 0); mret None
  end.

Definition rc_access_rights_extend (urefs : list URef) : M unit :=
  set_ctx (fun c => with_rights (extend (rights c) urefs) c).
Definition rc_grant_access (uref : URef) : M GrantedAccess :=
  c ← gets ctx;
  let '(r, granted) := grant_access (rights c) uref in
  _ ← set_ctx (with_rights r); mret granted.
Definition rc_remove_access (uref_addr : URefAddr) (r : AccessRights) : M unit :=
  set_ctx (fun c => with_rights (remove_access (rights c) uref_addr r) c).

(** *** The call stack: [Runtime::get_immediate_caller], [RuntimeStack::previous_frame] *)

Definition get_immediate_caller (c : Context) : option CallStackElement :=
  nth_error (rev (stack c)) 1.

End RuntimeContext.
