(* ===== verification/RuntimeConfine.v ===== *)
(** * What code in a context can reach

    A contract acts on the global state through the operations of
    [RuntimeContext], in an order and with arguments of its choice.  This file
    shows what no choice gets around: the rights of a context grow only by
    addresses it drew itself, what it changes is what it holds rights to, its own
    account or contract and dictionaries it may write, and its gas counter
    only grows and stays below the limit. *)

From S2P Require Import Prelude Bytesrepr Hashing KeyTypes Values PublicKeys Account Contracts SystemErrors AuctionData StoredValue Transform TrackingCopy TrackingSim RuntimeContext.
Local Open Scope Z_scope.

Abbreviation holds_in c := (holds (rights_table (rights c))).

Section Confine.
Context `{KeyCrates} `{Blake2b} `{AddressRng} `{EngineConfig}.

(** ** The operations *)

(** The operations behind the host functions that act on the context, and the gas counter
    that instrumented code calls. *)
Inductive CtxOp :=
| OpReadGs (key : Key)
| OpReadAccount (account_hash : AccountHash)
| OpGetKeys (key_tag : KeyTag)
| OpWriteGs (key : Key) (value : StoredValue)
| OpAddGs (key : Key) (value : StoredValue)
| OpNewUref (value : StoredValue)
| OpNewUnitUref
| OpRandomBytes
| OpPutKey (name : rstring) (key : Key)
| OpRemoveKey (name : rstring)
| OpAddAssociatedKey (account_hash : AccountHash) (weight : KeyWeight)
| OpRemoveAssociatedKey (account_hash : AccountHash)
| OpUpdateAssociatedKey (account_hash : AccountHash) (weight : KeyWeight)
| OpSetActionThreshold (action_type : ActionType) (threshold : KeyWeight)
| OpGetMainPurse
| OpGetContractPackage (package_hash : HashAddr)
| OpDictionaryGet (uref : URef) (dictionary_item_key : rstring)
| OpDictionaryRead (dictionary_key : Key)
| OpDictionaryPut (seed_uref : URef) (dictionary_item_key : rstring) (cl_value : CLValue)
| OpGas (amount : N).

Abbreviation M := (RT RuntimeState ExecError).

Definition discard {A} (x : M A) : M unit := _ ← x; mret tt.

Definition run_op (o : CtxOp) : M unit :=
  match o with
  | OpReadGs key => discard (read_gs key)
  | OpReadAccount account_hash => discard (rc_read_account (Account account_hash))
  | OpGetKeys key_tag => discard (rc_get_keys key_tag)
  | OpWriteGs key value => metered_write_gs key value
  | OpAddGs key value => metered_add_gs key value
  | OpNewUref value => discard (new_uref value)
  | OpNewUnitUref => discard new_unit_uref
  | OpRandomBytes => discard create_address
  | OpPutKey name key => put_key name key
  | OpRemoveKey name => remove_key name
  | OpAddAssociatedKey account_hash weight => rc_add_associated_key account_hash weight
  | OpRemoveAssociatedKey account_hash => rc_remove_associated_key account_hash
  | OpUpdateAssociatedKey account_hash weight => rc_update_associated_key account_hash weight
  | OpSetActionThreshold action_type threshold => rc_set_action_threshold action_type threshold
  | OpGetMainPurse => discard rc_get_main_purse
  | OpGetContractPackage package_hash => discard (get_validated_contract_package package_hash)
  | OpDictionaryGet uref item => discard (dictionary_get uref item)
  | OpDictionaryRead dictionary_key => discard (dictionary_read dictionary_key)
  | OpDictionaryPut seed_uref item cl_value => dictionary_put seed_uref item cl_value
  | OpGas amount => charge_gas (Z.of_N amount)
  end.

(** A contract goes on after an error that a host function reports to it. *)
Definition run_ctx_ops (ops : list CtxOp) (st : RuntimeState) : RuntimeState :=
  foldl (fun st o => (run_op o st).2) st ops.

(** ** Confinement *)

(** The addresses of the next [n] draws, and the generator after them. *)
Fixpoint draws (n : nat) (g : rng) : list (array 32) * rng :=
  match n with
  | O => ([], g)
  | S n => let '(a, g) := fill_bytes g in let '(l, g) := draws n g in (a :: l, g)
  end.

Definition READ_BIT : Z := 0.
Definition WRITE_BIT : Z := 1.
Definition ADD_BIT : Z := 2.

(** The keys that a context with rights [c] and the addresses [fresh] may change. *)
Inductive reachable (c : Context) (fresh : list (array 32)) : Key -> Prop :=
| reach_own k : k = normalize (base_key c) -> reachable c fresh k
| reach_uref a : a ∈ fresh \/ holds_in c a WRITE_BIT = true \/ holds_in c a ADD_BIT = true ->
    reachable c fresh (KeyURef (MkURef a NONE))
| reach_dictionary u item : addr u ∈ fresh \/ holds_in c (addr u) WRITE_BIT = true ->
    reachable c fresh (Key_dictionary u item).

(** How the account or contract that runs may change itself. *)
Definition own_change (c : Context) (v v' : StoredValue) : Prop :=
  match v with
  | StoredAccount a =>
      exists a', v' = StoredAccount a' /\ account_hash a' = account_hash a /\ main_purse a' = main_purse a /\
      (may_manage_keys c = false ->
       associated_keys a' = associated_keys a /\ action_thresholds a' = action_thresholds a)
  | StoredContract k => exists keys, v' = StoredContract (Contract_with_named_keys k keys)
  | _ => True
  end.

(** A context without its named keys, the rights it holds and its gas counter. *)
Definition fixed_part (c : Context) :=
  (account c, authorization_keys c, base_key c, deploy_hash c, gas_limit c, phase c, entry_point_type c, context_protocol_version c,
   transfers c, remaining_spending_limit c, stack c, context_key (rights c)).

Definition is_uref (k : Key) : bool := match k with KeyURef _ | Dictionary _ => true | _ => false end.

(** What may happen while [n] addresses are drawn. *)
Record confined (n : nat) (st st' : RuntimeState) : Prop := {
  conf_fixed : fixed_part (ctx st') = fixed_part (ctx st);
  conf_gas : gas_counter (ctx st) <= gas_limit (ctx st) ->
    gas_counter (ctx st) <= gas_counter (ctx st') <= gas_limit (ctx st);
  conf_draws : address_generator (world st') = (draws n (address_generator (world st))).2;
  conf_rights a b : holds_in (ctx st') a b = true ->
    a ∈ (draws n (address_generator (world st))).1 \/ holds_in (ctx st) a b = true;
  conf_keys k : gs (world st') !! k <> gs (world st) !! k ->
    reachable (ctx st) (draws n (address_generator (world st))).1 k;
  conf_own : is_uref (base_key (ctx st)) = false -> forall v, gs (world st) !! base_key (ctx st) = Some v ->
    exists v', gs (world st') !! base_key (ctx st) = Some v' /\ own_change (ctx st) v v';
}.

(** *** The relation *)

Lemma draws_add n m g :
  draws (n + m) g = ((draws n g).1 ++ (draws m (draws n g).2).1, (draws m (draws n g).2).2).
Proof.
  revert g. induction n as [|n IH]; intros g; cbn; [by destruct (draws m g)|].
  destruct (fill_bytes g) as [a g1]. rewrite IH. destruct (draws n g1). done.
Qed.

Lemma fixed_part_eq c c' : fixed_part c' = fixed_part c ->
  base_key c' = base_key c /\ gas_limit c' = gas_limit c /\ may_manage_keys c' = may_manage_keys c.
Proof. unfold fixed_part, may_manage_keys, is_valid_context. intros [= -> -> -> _ -> _ _ _ _ _ _ _]. done. Qed.

Lemma own_change_refl c v : own_change c v v.
Proof. destruct v; cbn; try done; [by eexists|].
  match goal with k : Contract |- _ => exists (contract_named_keys k); by destruct k end.
Qed.

Lemma own_change_trans c c' v1 v2 v3 : may_manage_keys c' = may_manage_keys c ->
  own_change c v1 v2 -> own_change c' v2 v3 -> own_change c v1 v3.
Proof.
  intros E. destruct v1; cbn; try done.
  - intros (a2 & -> & ? & ? & K2) (a3 & -> & ? & ? & K3). rewrite E in K3. exists a3.
    split_and!; [done|congruence..|]. intros Hm. destruct (K2 Hm), (K3 Hm). split; congruence.
  - intros (k2 & ->) (k3 & ->). by exists k3.
Qed.

(** The own account or contract is as it was. *)
Lemma own_same c v (m : gmap Key StoredValue) k : m !! k = Some v -> exists v', m !! k = Some v' /\ own_change c v v'.
Proof. eauto using own_change_refl. Qed.

Lemma confined_refl st : confined 0 st st.
Proof. split; [done|lia|done|auto|done|]. intros _ v. apply own_same. Qed.

Lemma reachable_later (c c' : Context) (f f' : list (array 32)) k :
  base_key c' = base_key c ->
  (forall a b, holds_in c' a b = true -> a ∈ f \/ holds_in c a b = true) ->
  reachable c' f' k -> reachable c (f ++ f') k.
Proof.
  intros Eb Hh [k' ->|a Ha|u item Hu].
  - apply reach_own. by rewrite Eb.
  - apply reach_uref. destruct Ha as [?|[?%Hh|?%Hh]]; set_solver.
  - apply reach_dictionary. destruct Hu as [?|?%Hh]; set_solver.
Qed.

Lemma confined_trans n m st1 st2 st3 : confined n st1 st2 -> confined m st2 st3 -> confined (n + m) st1 st3.
Proof.
  intros [F1 G1 N1 R1 K1 O1] [F2 G2 N2 R2 K2 O2].
  destruct (fixed_part_eq _ _ F1) as (Eb & Eg & Em). rewrite Eg in G2. rewrite Eb in O2.
  rewrite N1 in N2, R2, K2. split; rewrite ?draws_add; cbn [fst snd]; [congruence|lia|done| | |].
  - intros a b [?|[?|?]%R1]%R2; set_solver.
  - intros k Hk. destruct (decide (gs (world st3) !! k = gs (world st2) !! k)) as [E|E].
    + rewrite E in Hk. destruct (K1 k Hk) as [k' ->|a Ha|u item Hu]; [by apply reach_own| |].
      * apply reach_uref. set_solver.
      * apply reach_dictionary. set_solver.
    + by apply (reachable_later _ (ctx st2)); [|apply R1|apply K2].
  - intros Hu v Ev. destruct (O1 Hu v Ev) as (v2 & E2 & C2). destruct (O2 Hu v2 E2) as (v3 & E3 & C3).
    exists v3. split; [done|]. by eapply own_change_trans.
Qed.

(** *** Computations that stay confined *)

Definition conf (n : nat) {E A} (x : RT RuntimeState E A) (st : RuntimeState) : Prop := confined n st (x st).2.
(** Computations that change nothing. *)
Definition inert {E A} (x : RT RuntimeState E A) : Prop := forall st, (x st).2 = st.

Lemma inert_conf {E A} (x : RT RuntimeState E A) st : inert x -> conf 0 x st.
Proof. intros I. unfold conf. rewrite I. apply confined_refl. Qed.

Lemma conf_bind n {E A B} (x : RT RuntimeState E A) (k : A -> RT RuntimeState E B) st :
  conf n x st -> (forall a st', x st = (Ok a, st') -> conf 0 (k a) st') -> conf n (x ≫= k) st.
Proof.
  unfold conf, mbind, RT_bind. destruct (x st) as [[a|e| |] st'] eqn:Ex; cbn; [|done..].
  intros Hx Hk. rewrite <- (Nat.add_0_r n). eapply confined_trans; [done|]. by apply Hk.
Qed.

Lemma rt_bind_Ok {E A B} (x : RT RuntimeState E A) (k : A -> RT RuntimeState E B) st b st' :
  (x ≫= k) st = (Ok b, st') -> exists a st1, x st = (Ok a, st1) /\ k a st1 = (Ok b, st').
Proof. unfold mbind, RT_bind. destruct (x st) as [[a|e| |] st1]; try done. eauto. Qed.

Lemma inert_bind {E A B} (x : RT RuntimeState E A) (k : A -> RT RuntimeState E B) :
  inert x -> (forall a, inert (k a)) -> inert (x ≫= k).
Proof.
  unfold inert, mbind, RT_bind. intros Hx Hk st. specialize (Hx st).
  destruct (x st) as [[a|e| |] st'] eqn:Ex; cbn in *; subst; [apply Hk|done..].
Qed.

(** After something inert the state is the one before. *)
Lemma conf_inert_bind {E A B} (x : RT RuntimeState E A) (k : A -> RT RuntimeState E B) st :
  inert x -> (forall a, x st = (Ok a, st) -> conf 0 (k a) st) -> conf 0 (x ≫= k) st.
Proof.
  intros I Hk. apply conf_bind; [by apply inert_conf|]. intros a st' Ex. pose proof (I st) as I'.
  rewrite Ex in I'. cbn in I'. subst. by apply Hk.
Qed.

Lemma inert_ret {E A} (a : A) : inert (mret a : RT RuntimeState E A).
Proof. by intros st. Qed.
Lemma inert_lift {E A} (r : res E A) : inert (lift r).
Proof. by intros st. Qed.
Lemma inert_throw {E A} (e : E) : inert (throw e : RT RuntimeState E A).
Proof. by intros st. Qed.
Lemma inert_gets {E A} (f : RuntimeState -> A) : inert (gets f : RT RuntimeState E A).
Proof. by intros st. Qed.
Lemma inert_ensure {E} b (e : E) : inert (ensure b e : RT RuntimeState E unit).
Proof. by destruct b; intros st. Qed.
Lemma inert_map_err {E E' A} (f : E -> E') (x : RT RuntimeState E A) : inert x -> inert (rt_map_err f x).
Proof. intros I st. specialize (I st). unfold rt_map_err. by destruct (x st). Qed.
Lemma inert_check f : inert (check f).
Proof. by intros st. Qed.

Lemma set_gs_same st : set_gs (gs (world st)) st = st.
Proof. by destruct st as [[] ?]. Qed.
Lemma inert_gs_read {E} k : inert (gs_read k : RT RuntimeState E _).
Proof. intros st. cbv [gs_read gs_step mbind RT_bind]. cbn. apply set_gs_same. Qed.

End Confine.

(** Solves [inert x] by following the code. *)
Ltac inert := repeat first
  [ apply inert_gs_read | apply inert_bind; [|intros ?] | apply inert_ret | apply inert_lift | apply inert_throw | apply inert_gets
  | apply inert_ensure | apply inert_map_err | apply inert_check
  | progress cbv zeta
  | match goal with |- inert (match ?x with _ => _ end) => destruct x end ].

Section Operations.
Context `{KeyCrates} `{Blake2b} `{AddressRng} `{EngineConfig}.

Abbreviation M := (RT RuntimeState ExecError).

Lemma inert_is_system_contract h : inert (is_system_contract h).
Proof. unfold is_system_contract, system_contract_registry, get_system_contracts. inert. Qed.
Lemma inert_read_gs k : inert (read_gs k).
Proof. unfold read_gs. inert. Qed.
Lemma inert_read_gs_typed {T} (f : StoredValue -> option T) k : inert (read_gs_typed f k).
Proof. unfold read_gs_typed, rt_ok_or. inert. Qed.

(** *** Gas *)

(** Only the gas counter changes, upwards and not beyond the limit. *)
Definition gas_step (st st' : RuntimeState) : Prop := exists g,
  st' = MkRuntime (world st) (with_gas_counter g (ctx st)) /\
  (gas_counter (ctx st) <= gas_limit (ctx st) -> gas_counter (ctx st) <= g <= gas_limit (ctx st)).

Lemma gas_step_refl st : gas_step st st.
Proof. exists (gas_counter (ctx st)). split; [by destruct st as [? []]|lia]. Qed.

Lemma confined_gas st st' : gas_step st st' -> confined 0 st st'.
Proof.
  intros (g & -> & Hg). split; cbn; [done|done|done|auto|done|]. intros _ v. apply own_same.
Qed.

Lemma charge_gas_step amount st : 0 <= amount -> gas_step st (charge_gas amount st).2.
Proof.
  intros Ha. unfold charge_gas, checked_add. cbv [mbind RT_bind gets set_ctx modify throw]. cbn beta iota.
  repeat case_match; cbn in *; simplify_eq; eexists; (split; [reflexivity|]); lia.
Qed.

Hypothesis gas_per_byte_nonneg : 0 <= gas_per_byte.

(** After something inert, the rest runs in the same state. *)
Lemma inert_then {E A B} (x : RT RuntimeState E A) (k : A -> RT RuntimeState E B) st :
  inert x -> (exists a, (x ≫= k) st = k a st) \/ ((x ≫= k) st).2 = st.
Proof.
  intros I. specialize (I st). unfold mbind, RT_bind. destruct (x st) as [[a|e| |] st']; cbn in *; subst; eauto.
Qed.

Lemma charge_gas_storage_step n st : gas_step st (charge_gas_storage n st).2.
Proof.
  unfold charge_gas_storage. cbv [gets]. unfold mbind at 1, RT_bind at 1.
  match goal with |- gas_step _ ((?x ≫= ?k) _).2 => destruct (inert_then x k st) as [(free & ->)| ->] end.
  - destruct (into_hash _); [apply inert_is_system_contract|apply inert_ret].
  - destruct free; [apply gas_step_refl|]. unfold mbind, RT_bind, lift.
    unfold calculate_gas_cost, plain_mul, checked_mul. destruct (_ <=? _); cbn; [|apply gas_step_refl].
    apply charge_gas_step. lia.
  - apply gas_step_refl.
Qed.

(** *** Writes *)

Lemma confined_write st k v : reachable (ctx st) [] k ->
  (is_uref (base_key (ctx st)) = false -> k = base_key (ctx st) ->
   forall w, gs (world st) !! k = Some w -> own_change (ctx st) w v) ->
  confined 0 st (set_gs (<[k := v]> (gs (world st))) st).
Proof.
  intros Hk Ho. split; cbn; [done|lia|done|auto| |].
  - intros k' Hk'. destruct (decide (k = k')) as [<-|?]; [done|]. by rewrite lookup_insert_ne in Hk'.
  - intros Hu w Ew. destruct (decide (k = base_key (ctx st))) as [->|?].
    + rewrite lookup_insert_eq. eauto.
    + rewrite lookup_insert_ne by done. by apply own_same.
Qed.

Lemma reachable_gas c g f k : reachable c f k -> reachable (with_gas_counter g c) f k.
Proof. intros [k' ->|a Ha|u item Hu]; [by apply reach_own|by apply reach_uref|by apply reach_dictionary]. Qed.

Lemma own_change_gas c g v v' : own_change c v v' -> own_change (with_gas_counter g c) v v'.
Proof. done. Qed.

Lemma conf_charged {A} n (k : unit -> M A) st :
  (forall g, conf 0 (k tt) (MkRuntime (world st) (with_gas_counter g (ctx st)))) ->
  conf 0 (charge_gas_storage n ≫= k) st.
Proof.
  intros Hk. pose proof (charge_gas_storage_step n st) as Hg.
  apply conf_bind; [by apply confined_gas|]. intros [] st' E. rewrite E in Hg. destruct Hg as (g & E' & _).
  cbn in E'. subst. apply Hk.
Qed.

Lemma conf_metered_write k v st : reachable (ctx st) [] (normalize k) ->
  (is_uref (base_key (ctx st)) = false -> normalize k = base_key (ctx st) ->
   forall w, gs (world st) !! normalize k = Some w -> own_change (ctx st) w v) ->
  conf 0 (metered_write_gs_unsafe k v) st.
Proof.
  intros Hk Ho. apply conf_charged. intros g. apply (confined_write (MkRuntime _ _)); [by apply reachable_gas|done].
Qed.

Lemma addition_kind v t : addition_of v = Ok t ->
  (exists keys, t = AddKeys keys) \/ exists T z, forall w, apply t w = wrapping_addition T w z.
Proof.
  unfold addition_of. intros E. repeat case_match; try done;
    apply bind_Ok in E as (x & _ & E); repeat case_match; simplify_eq; eauto.
Qed.

Lemma addition_own c v t w w' : addition_of v = Ok t -> apply t w = Ok w' -> own_change c w w'.
Proof.
  intros [(keys & ->)|(T & z & Ea)]%addition_kind.
  - cbn. destruct w; try done; intros [= <-]; cbn; by eexists.
  - rewrite Ea. unfold wrapping_addition. by destruct w.
Qed.

Lemma conf_gs_add k v st : reachable (ctx st) [] (normalize k) ->
  conf 0 (gs_step (OpAdd k v) : M TcOut) st.
Proof.
  intros Hk. unfold conf, gs_step, map_step.
  destruct (gs (world st) !! normalize k) as [w|] eqn:Ew; cbn; [|rewrite set_gs_same; apply confined_refl].
  destruct (addition_of v) as [t|r| |] eqn:Et; cbn; [|rewrite ?set_gs_same; apply confined_refl..].
  destruct (apply t w) as [w'|e| |] eqn:Ea; cbn; [|rewrite ?set_gs_same; apply confined_refl..].
  apply confined_write; [done|]. intros _ _ w0. rewrite Ew. intros [= <-]. by eapply addition_own.
Qed.

Lemma conf_metered_add k v st : reachable (ctx st) [] (normalize k) -> conf 0 (metered_add_gs_unsafe k v) st.
Proof.
  intros Hk. apply conf_charged. intros g. apply conf_bind.
  - apply conf_gs_add. by apply reachable_gas.
  - intros out st' _. apply inert_conf. inert.
Qed.

(** *** Checks *)

Lemma check_Ok f st a : check f st = (Ok a, st) -> f (ctx st) = Ok tt.
Proof. unfold check. cbv [mbind RT_bind gets lift]. destruct (f (ctx st)) as [[]| | |]; congruence. Qed.

Lemma conf_check {A} f (k : unit -> M A) st :
  (f (ctx st) = Ok tt -> conf 0 (k tt) st) -> conf 0 (check f ≫= k) st.
Proof. intros Hk. apply conf_inert_bind; [apply inert_check|]. intros [] E%check_Ok. by apply Hk. Qed.

Lemma validate_uref_holds c u : validate_uref c u = Ok tt ->
  forall b, has_bit (access_rights u) b = true -> holds_in c (addr u) b = true.
Proof.
  unfold validate_uref, has_access_rights_to_uref, holds. destruct (rights_table (rights c) !! addr u); [|done].
  case_match eqn:E; [|done]. intros _. by apply contains_spec.
Qed.

Lemma intersection_bit r q b : intersection r q = q -> has_bit q b = true -> has_bit r b = true.
Proof.
  unfold has_bit. intros <-. unfold intersection. cbn [bits]. rewrite Z.land_spec. by intros [? _]%andb_true_iff.
Qed.
Lemma writeable_bit u : URef_is_writeable u = true -> has_bit (access_rights u) WRITE_BIT = true.
Proof. intros E%bool_decide_eq_true. by apply (intersection_bit _ _ _ E). Qed.
Lemma addable_bit u : URef_is_addable u = true -> has_bit (access_rights u) ADD_BIT = true.
Proof. intros E%bool_decide_eq_true. by apply (intersection_bit _ _ _ E). Qed.

Lemma conf_write_gs k v st : conf 0 (metered_write_gs k v) st.
Proof.
  apply conf_check. intros Hw. apply conf_check. intros Hk. apply conf_check. intros _.
  unfold validate_writeable, rc_is_writeable in Hw. destruct k as [| |u| | | | | | | | | | | |]; try done.
  case_match eqn:Eu; [|done]. apply conf_metered_write.
  - apply reach_uref. right. left. cbn in Hk. by apply (validate_uref_holds _ _ Hk), writeable_bit.
  - cbn. intros Hu E. by rewrite <- E in Hu.
Qed.

Lemma conf_add_gs k v st : conf 0 (metered_add_gs k v) st.
Proof.
  apply conf_check. intros Ha. apply conf_check. intros Hk. apply conf_check. intros _. apply conf_metered_add.
  unfold validate_addable, rc_is_addable in Ha. destruct k as [| |u| | | | | | | | | | | |]; try done;
    case_match eqn:Eu; try done.
  - apply bool_decide_eq_true in Eu. apply reach_own. by rewrite Eu.
  - apply bool_decide_eq_true in Eu. apply reach_own. by rewrite Eu.
  - apply reach_uref. right. right. cbn in Hk. by apply (validate_uref_holds _ _ Hk), addable_bit.
Qed.

(** *** Rights *)

Lemma extend_holds c u a b : holds_in (with_rights (extend (rights c) [u]) c) a b = true ->
  holds_in c a b = true \/ a = addr u /\ has_bit (access_rights u) b = true.
Proof.
  cbn [with_rights rights]. unfold extend. rewrite do_extend_holds. cbn [existsb]. rewrite orb_false_r.
  intros [?|[?%bool_decide_eq_true ?]%andb_true_iff]%orb_true_iff; auto.
Qed.

(** One draw of an address. *)
Lemma confined_draw st a st' : create_address (E:=ExecError) st = (Ok a, st') ->
  confined 1 st st' /\ confined 1 st (insert_uref (E:=ExecError) (MkURef a READ_ADD_WRITE) st').2.
Proof.
  unfold create_address. destruct (fill_bytes (address_generator (world st))) as [a' g] eqn:Ef.
  intros [= -> <-]. split; (split; cbn -[extend]; rewrite ?Ef; cbn -[extend];
    [done|lia|done| |done|intros _ v; apply own_same]); [auto|].
  intros b n Hb. destruct (extend_holds (ctx st) _ _ _ Hb) as [?|[-> _]]; [auto|]. left. by left.
Qed.

(** Naming a key that the context may use gives no new rights. *)
Lemma confined_name st name key : validate_key (ctx st) key = Ok tt ->
  confined 0 st (insert_named_key name key st).2.
Proof.
  intros Hk.
  assert (forall r, context_key r = context_key (rights (ctx st)) ->
    (forall a b, holds (rights_table r) a b = true -> holds_in (ctx st) a b = true) ->
    forall keys, confined 0 st (MkRuntime (world st) (with_named_keys keys (with_rights r (ctx st))))) as G.
  { intros r Hc Hr keys. split; cbn; [by unfold fixed_part; cbn; rewrite Hc|lia|done|auto|done|]. intros _ v. apply own_same. }
  unfold insert_named_key. destruct key as [| |u| | | | | | | | | | | |]; try by (apply (G (rights (ctx st))); auto).
  apply (G (extend (rights (ctx st)) [u])); [done|]. intros a b Hb.
  destruct (extend_holds (ctx st) _ _ _ Hb) as [?|[-> ?]]; [done|]. by apply (validate_uref_holds _ _ Hk).
Qed.

Lemma conf_new_uref v st : conf 1 (new_uref v) st.
Proof.
  unfold new_uref, conf. unfold mbind at 1, RT_bind at 1.
  destruct (create_address (E:=ExecError) st) as [r st'] eqn:Ec.
  destruct r as [a| | |]; [|by unfold create_address in Ec; destruct (fill_bytes _)..].
  destruct (confined_draw _ _ _ Ec) as [_ D]. eapply (confined_trans 1 0); [exact D|].
  change (conf 0 (metered_write_gs (KeyURef (MkURef a READ_ADD_WRITE)) v ≫= fun _ => mret (MkURef a READ_ADD_WRITE))
    (insert_uref (E:=ExecError) (MkURef a READ_ADD_WRITE) st').2).
  apply conf_bind; [apply conf_write_gs|]. intros _ st2 _. apply inert_conf, inert_ret.
Qed.

(** *** Named keys and the account's keys *)

Lemma put_key_validated c (name : rstring) (key : Key) v : valid name -> valid key ->
  from_t (name, key) = Ok v -> validate_value c (StoredCLValue v) = Ok tt -> validate_key c key = Ok tt.
Proof.
  intros Hn Hk Hv. destruct (from_t_into_t (name, key) v) as [Et Ei]; [done|by split|done|].
  cbn [validate_value]. unfold validate_cl_value. rewrite Et. cbn [cl_type_of Tuple2_CLTyped].
  change (cl_type_of rstring) with CLType.String. change (cl_type_of Key) with CLType.Key.
  rewrite decide_True by done. by rewrite Ei.
Qed.

Lemma metered_add_ctx k v st a st' : metered_add_gs_unsafe k v st = (Ok a, st') ->
  rights (ctx st') = rights (ctx st).
Proof.
  unfold metered_add_gs_unsafe. pose proof (charge_gas_storage_step (StoredValue_serialized_length v) st) as Hg.
  unfold mbind, RT_bind. destruct (charge_gas_storage _ st) as [[]?] eqn:Ec; try done.
  destruct Hg as (g & Eg & _). cbn in Eg. subst. unfold gs_step.
  destruct (map_step _ _) as [[out m]| | |]; try done. destruct out as [| |[]|]; try done. by intros [= _ <-].
Qed.

Lemma conf_put_key (name : rstring) (key : Key) st : valid name -> valid key -> conf 0 (put_key name key) st.
Proof.
  intros Hn Hk. unfold put_key. apply conf_inert_bind; [inert|]. intros v Ev.
  apply conf_check. intros Hv. apply conf_inert_bind; [inert|]. intros base [= <-].
  apply conf_bind; [by apply conf_metered_add, reach_own|]. intros [] st' Ea. unfold conf.
  apply confined_name. apply metered_add_ctx in Ea.
  assert (from_t (name, key) = Ok v) as Ef by (unfold rt_map_err, lift in Ev; destruct (from_t (name, key)); cbn in Ev; congruence).
  pose proof (put_key_validated _ _ _ _ Hn Hk Ef Hv) as Hv'. unfold validate_key, validate_uref in *. by rewrite Ea.
Qed.

Lemma conf_forget name st : conf 0 (forget_key name) st.
Proof.
  split; cbn; [done|lia|done|auto|done|]. intros _ v. apply own_same.
Qed.

Lemma read_gs_typed_Ok {T} (f : StoredValue -> option T) k t st : is_uref k = false ->
  read_gs_typed f k st = (Ok t, st) -> exists v, gs (world st) !! k = Some v /\ f v = Some t.
Proof.
  intros Hu. assert (normalize k = k) as En by (by destruct k).
  unfold read_gs_typed, read_gs, gs_read, gs_step, check. cbv [mbind RT_bind gets lift]. cbn [map_step].
  destruct (validate_readable _ k); try done. destruct (validate_key _ k); try done.
  rewrite En. cbn. destruct (gs (world st) !! k) as [v|]; [|done].
  assert (handle_stored_value k v = Ok v) as -> by (by destruct k, v). cbn.
  unfold rt_ok_or, lift, ok_or. destruct (f v) as [t'|] eqn:Ef; [|done]. intros [= <- _]. eauto.
Qed.

(** The account or contract that runs writes itself back. *)
Lemma conf_write_own k w v st : is_uref k = false -> k = base_key (ctx st) ->
  gs (world st) !! k = Some w -> own_change (ctx st) w v -> conf 0 (metered_write_gs_unsafe k v) st.
Proof.
  intros Hu Eb Ew Ho. assert (normalize k = k) as En by (by destruct k). apply conf_metered_write.
  - apply reach_own. by rewrite Eb.
  - rewrite En, Ew. by intros _ _ w' [= <-].
Qed.

Lemma conf_update_contract k contract name st : is_uref k = false -> k = base_key (ctx st) ->
  gs (world st) !! k = Some (StoredContract contract) -> conf 0 (remove_key_from_contract k contract name) st.
Proof.
  intros Hu Eb Ew. unfold remove_key_from_contract. destruct (btree_get _ _); [|apply inert_conf, inert_ret].
  apply (conf_write_own k (StoredContract contract)); [done..|]. by eexists.
Qed.

Lemma conf_remove_key name st : conf 0 (remove_key name) st.
Proof.
  unfold remove_key. apply conf_inert_bind; [inert|]. intros base [= <-].
  destruct (base_key (ctx st)) as [h|h|u| | | | | | | | | | | |] eqn:Eb;
    try apply conf_forget; try solve [apply inert_conf; inert];
    try (apply conf_inert_bind; [apply inert_read_gs_typed|by intros ? _; apply conf_forget]).
  - apply conf_inert_bind; [apply inert_read_gs_typed|]. intros a Ea.
    apply read_gs_typed_Ok in Ea as (v & Ev & Ef); [|done]. destruct v; try done. injection Ef as <-.
    apply conf_bind; [apply conf_forget|]. intros [] st' [= <-].
    apply conf_inert_bind; [unfold account_to_validated_value; inert|]. intros v Hv.
    eapply (conf_write_own _ _ _ (MkRuntime _ _)); [done|done|exact Ev|].
    unfold account_to_validated_value in Hv. apply rt_bind_Ok in Hv as (? & ? & _ & [= <- _]). by eexists.
  - apply conf_inert_bind; [apply inert_read_gs_typed|]. intros k Ek.
    apply read_gs_typed_Ok in Ek as (v & Ev & Ef); [|done]. destruct v; try done. injection Ef as <-.
    apply conf_bind; [apply conf_forget|]. intros [] st' [= <-]. by apply conf_update_contract.
  - apply conf_inert_bind; [apply inert_gs_read|]. intros v _. apply conf_inert_bind; [inert|]. intros v' _.
    apply conf_inert_bind; [inert|]. intros k _. apply conf_bind; [apply conf_forget|]. intros [] st' [= <-].
    unfold remove_key_from_contract. destruct (btree_get _ _); [|apply inert_conf, inert_ret].
    apply conf_metered_write; cbn; [apply reach_own; by cbn; rewrite Eb|]. by rewrite Eb.
Qed.

Lemma conf_update_account denied f st :
  (forall a a', f a = Ok a' -> account_hash a' = account_hash a /\ main_purse a' = main_purse a) ->
  conf 0 (update_account denied f) st.
Proof.
  intros Hf. unfold update_account. apply conf_inert_bind; [inert|]. intros c [= <-].
  apply conf_inert_bind; [inert|]. intros [] Hm.
  destruct (may_manage_keys (ctx st)) eqn:Em; [|done]. apply conf_inert_bind; [apply inert_read_gs_typed|].
  intros a Ea. apply read_gs_typed_Ok in Ea as (v & Ev & Ef); [|done]. destruct v; try done. injection Ef as <-.
  apply conf_inert_bind; [inert|]. intros a' [= Ea']. apply Hf in Ea' as [E1 E2].
  apply conf_inert_bind; [unfold account_to_validated_value; inert|]. intros v Hv.
  unfold account_to_validated_value in Hv. apply rt_bind_Ok in Hv as (? & ? & _ & [= <- _]).
  eapply conf_write_own; [done| |exact Ev|].
  - apply andb_true_iff in Em as [Eb%bool_decide_eq_true _]. done.
  - eexists. split_and!; [done..|]. by rewrite Em.
Qed.

Lemma conf_dictionary_put u item v st : conf 0 (dictionary_put u item v) st.
Proof.
  unfold dictionary_put. apply conf_inert_bind; [inert|]. intros [] _. apply conf_check. intros Hw.
  apply conf_check. intros Hu. apply conf_check. intros _. apply conf_inert_bind; [inert|]. intros w _.
  unfold validate_writeable, rc_is_writeable in Hw. case_match eqn:Eu; [|done]. apply conf_metered_write.
  - apply reach_dictionary. right. by apply (validate_uref_holds _ _ Hu), writeable_bit.
  - intros Hb E. by rewrite <- E in Hb.
Qed.

Lemma conf_discard n {A} (x : M A) st : conf n x st -> conf n (discard x) st.
Proof. intros Hx. apply conf_bind; [done|]. intros a st' _. apply inert_conf, inert_ret. Qed.

Definition ctx_op_valid (o : CtxOp) : Prop :=
  match o with OpPutKey name key => valid name /\ valid key | _ => True end.

Lemma conf_draw st : conf 1 (create_address : M (array 32)) st.
Proof.
  unfold conf. destruct (create_address (E:=ExecError) st) as [r st'] eqn:Ec.
  destruct r; [|by unfold create_address in Ec; destruct (fill_bytes _)..]. by apply (confined_draw _ _ _ Ec).
Qed.

(** The addresses an operation draws, at most. *)
Definition op_draws (o : CtxOp) : nat :=
  match o with OpNewUref _ | OpNewUnitUref | OpRandomBytes => 1 | _ => 0 end.

Lemma conf_op o st : ctx_op_valid o -> conf (op_draws o) (run_op o) st.
Proof.
  intros Ho. destruct o; cbn [run_op op_draws]; try apply conf_discard;
    try (apply inert_conf; unfold rc_read_account, dictionary_get, dictionary_read, rc_get_main_purse,
      get_validated_contract_package, read_gs_typed; solve [inert]).
  - apply inert_conf. intros st'. cbv [rc_get_keys gs_step mbind RT_bind]. cbn. apply set_gs_same.
  - apply conf_write_gs.
  - apply conf_add_gs.
  - apply conf_new_uref.
  - apply conf_new_uref.
  - apply conf_draw.
  - destruct Ho. by apply conf_put_key.
  - apply conf_remove_key.
  - apply conf_update_account. intros a a'. case_match; [done|].
    by intros (k & _ & [= <-])%map_err_Ok%bind_Ok.
  - apply conf_update_account. intros a a'. by intros (? & _ & (k & _ & [= <-])%bind_Ok)%map_err_Ok%bind_Ok.
  - apply conf_update_account. intros a a'. by intros (? & _ & (k & _ & [= <-])%bind_Ok)%map_err_Ok%bind_Ok.
  - apply conf_update_account. intros a a'. by intros (? & _ & (k & _ & [= <-])%bind_Ok)%map_err_Ok%bind_Ok.
  - apply conf_dictionary_put.
  - apply confined_gas, charge_gas_step. lia.
Qed.

Definition ops_draws (ops : list CtxOp) : nat := foldr (fun o n => op_draws o + n)%nat 0%nat ops.

Lemma run_ctx_ops_confined ops st : Forall ctx_op_valid ops -> confined (ops_draws ops) st (run_ctx_ops ops st).
Proof.
  intros Ho. revert st. induction Ho as [|o ops Ho _ IH]; intros st; cbn; [apply confined_refl|].
  eapply confined_trans; [by apply (conf_op o)|apply IH].
Qed.

(** C7 Whatever operations code asks its context for, in whatever order and whatever fails on the way: who runs,
    with which limits, stays fixed; the gas counter does not go down and not beyond the limit; every right it
    ends with is one it started with or is to an address it drew; every key of the global state it changed is
    its own account or contract, an address it may write or add to, or an item of a dictionary whose seed it
    may write; its own account keeps its hash and main purse, and its associated keys and thresholds too
    unless the authorization keys carry the key management weight; its own contract changes in its named keys
    only.  So balances, bids, unbonding purses, era infos, transfers, the registries and other accounts are
    beyond reach. *)
Theorem context_confined ops st : Forall ctx_op_valid ops ->
  confined (ops_draws ops) st (run_ctx_ops ops st) /\
  forall k, is_uref k = false -> k <> base_key (ctx st) -> gs (world (run_ctx_ops ops st)) !! k = gs (world st) !! k.
Proof.
  intros Ho. pose proof (run_ctx_ops_confined ops st Ho) as C. split; [done|]. intros k Hu Hk.
  destruct (decide (gs (world (run_ctx_ops ops st)) !! k = gs (world st) !! k)) as [|E]; [done|].
  destruct (conf_keys _ _ _ C k E) as [k' ->| |]; [|done..].
  by destruct (base_key (ctx st)).
Qed.

End Operations.
