(* ===== verification/Mint.v ===== *)
(** * The mint: [execution_engine/src/system/mint.rs] with its providers in
    [core/runtime/mint_internal.rs], and [record_transfer],
    [charge_system_contract_call] and [is_system_immediate_caller] of
    [core/runtime/mod.rs].

    The operations run in the context of the mint contract.  A balance is the
    value under [Key::Balance]; the total supply is the value under the [URef]
    that the mint's named keys hold. *)

From stdpp Require Import strings.
From S2P Require Import Prelude Bytesrepr Hashing KeyTypes Values PublicKeys Account Contracts SystemErrors AuctionData StoredValue Transform TrackingCopy TrackingSim RuntimeContext.
Local Open Scope Z_scope.

Definition str (s : string) : rstring := RString (String.list_byte_of_string s).

(** ** Rational numbers *)

(** [num_rational::Ratio<U512>], a numerator and a denominator. *)
Record Ratio := MkRatio { numer : Z; denom : Z }.

Class RationalCrate := {
  (** [Ratio::new] with a denominator that is not zero, which reduces *)
  ratio_reduce : Z -> Z -> Ratio;
  (** [CheckedMul] and [CheckedSub] *)
  ratio_checked_mul : Ratio -> Ratio -> option Ratio;
  ratio_checked_sub : Ratio -> Ratio -> option Ratio;
  (** [Mul] and [Sub], [None] for a panic *)
  ratio_mul : Ratio -> Ratio -> option Ratio;
  ratio_sub : Ratio -> Ratio -> option Ratio;
}.

(** [Ratio::new], which panics for a zero denominator. *)
Definition Ratio_new `{RationalCrate} {E} (n d : Z) : res E Ratio :=
  if d =? 0 then Panic else Ok (ratio_reduce n d).
Definition Ratio_from (n : Z) : Ratio := MkRatio n 1.
Definition to_integer (r : Ratio) : Z := numer r / denom r.

#[export] Instance Ratio_CLTyped : CLTyped Ratio := cl_type_of (int TU512 * int TU512).
(** [FromBytes for Ratio<T>]. *)
Definition Ratio_from_bytes `{RationalCrate} (bs : bytes) : bres (Ratio * bytes) :=
  '((n, d), rem) ← from_bytes (A:=int TU512 * int TU512) bs;
  if int_val d =? 0 then Err Formatting else Ok (ratio_reduce (int_val n) (int_val d), rem).
#[export] Instance Ratio_FromBytes `{RationalCrate} : FromBytes Ratio := default_FromBytes Ratio_from_bytes.

Definition MINT : rstring := str "mint".
Definition HANDLE_PAYMENT : rstring := str "handle payment".
Definition AUCTION : rstring := str "auction".
Definition TOTAL_SUPPLY_KEY : rstring := str "total_supply".
Definition ROUND_SEIGNIORAGE_RATE_KEY : rstring := str "round_seigniorage_rate".

Section Mint.
Context `{KeyCrates} `{Blake2b} `{AddressRng} `{EngineConfig} `{RationalCrate}.

Abbreviation M := (RT RuntimeState ExecError).
Abbreviation MM := (RT RuntimeState MintError).

(** ** The runtime around the system contracts *)

Definition get_key {E} (name : rstring) : RT RuntimeState E (option Key) :=
  gets (fun st => btree_get name (entries (named_keys (ctx st)))).
Definition get_caller {E} : RT RuntimeState E AccountHash := gets (fun st => account_hash (account (ctx st))).

Definition is_system_immediate_caller : M bool :=
  c ← gets ctx;
  match get_immediate_caller c with
  | None => mret false
  | Some (CallSession account_hash) => mret (bool_decide (account_hash = system_account))
  | Some (CallStoredSession _ _ contract_hash) | Some (CallStoredContract _ contract_hash) =>
      is_system_contract contract_hash
  end.

(** [Runtime::charge_system_contract_call]. *)
Definition charge_system_contract_call (amount : Z) : M unit :=
  depth ← gets (fun st => host_function_depth (world st));
  free ← (if depth =? 0 then is_system_immediate_caller else mret true);
  if free : bool then mret tt else rc_charge_system_contract_call amount.

Definition record_transfer (maybe_to : option AccountHash) (source target : URef) (amount : Z) (id : option u64)
    : M unit :=
  c ← gets ctx;
  mint_hash ← get_system_contract MINT;
  if decide (base_key c = KeyHash mint_hash) then
    if decide (phase c = PhaseSession) then
      transfer_addr ← new_transfer_addr;
      let transfer := MkTransfer (deploy_hash c) (account_hash (account c)) maybe_to source target
                        (MkU512 amount) (MkU512 0) id in
      _ ← set_ctx (fun c => with_transfers (transfers c ++ [transfer_addr]) c);
      write_transfer (Transfer transfer_addr) transfer
    else mret tt
  else throw ExecInvalidContext.

(** ** Providers of the mint *)

(** [<Option<mint::Error>>::from(exec_error).unwrap_or(default)]. *)
Definition mint_error (default : MintError) (exec_error : ExecError) : MintError :=
  match exec_error with ExecGasLimit => MintErr.GasLimit | _ => default end.

Definition mint_cl_value {A} `{CLTyped A} `{ToBytes A} (init : A) : MM CLValue :=
  rt_map_err (fun _ => MintErr.CLValue) (lift (from_t init)).

Definition mint_new_uref (init : unit) : MM URef :=
  cl_value ← mint_cl_value init;
  rt_map_err (mint_error MintErr.NewURef) (new_uref (StoredCLValue cl_value)).

(** The typed value of a value read from the global state. *)
Definition mint_read_value {A} `{CLTyped A} `{FromBytes A} (maybe_value : option StoredValue) : MM (option A) :=
  match maybe_value with
  | Some (StoredCLValue value) => v ← rt_map_err (fun _ => MintErr.CLValue) (lift (into_t value)); mret (Some v)
  | Some _ => throw MintErr.CLValue
  | None => mret None
  end.

Definition mint_read {A} `{CLTyped A} `{FromBytes A} (uref : URef) : MM (option A) :=
  maybe_value ← rt_map_err (mint_error MintErr.Storage) (read_gs (KeyURef uref));
  mint_read_value maybe_value.
Definition mint_write (uref : URef) (value : Z) : MM unit :=
  cl_value ← mint_cl_value (MkInt value : int TU512);
  rt_map_err (mint_error MintErr.Storage) (metered_write_gs (KeyURef uref) (StoredCLValue cl_value)).
Definition mint_add (uref : URef) (value : Z) : MM unit :=
  cl_value ← mint_cl_value (MkInt value : int TU512);
  rt_map_err (mint_error MintErr.Storage) (metered_add_gs (KeyURef uref) (StoredCLValue cl_value)).

Definition read_balance (uref : URef) : MM (option Z) :=
  maybe_value ← rt_map_err (mint_error MintErr.Storage) (read_gs_direct (Balance (addr uref)));
  v ← mint_read_value (A:=int TU512) maybe_value;
  mret (int_val <$> v).
Definition write_balance (uref : URef) (balance : Z) : MM unit :=
  cl_value ← mint_cl_value (MkInt balance : int TU512);
  rt_map_err (mint_error MintErr.Storage)
    (metered_write_gs_unsafe (Balance (addr uref)) (StoredCLValue cl_value)).
Definition add_balance (uref : URef) (value : Z) : MM unit :=
  cl_value ← mint_cl_value (MkInt value : int TU512);
  rt_map_err (mint_error MintErr.Storage)
    (metered_add_gs_unsafe (Balance (addr uref)) (StoredCLValue cl_value)).

(** ** The mint *)

Definition mint (initial_balance : Z) : MM URef :=
  caller ← get_caller;
  let is_empty_purse := initial_balance =? 0 in
  if negb is_empty_purse && bool_decide (caller <> system_account) then throw MintErr.InvalidNonEmptyPurseCreation
  else
    purse_uref ← mint_new_uref tt;
    _ ← write_balance purse_uref initial_balance;
    _ ← (if negb is_empty_purse then
           key ← get_key TOTAL_SUPPLY_KEY;
           match key with
           | None => throw MintErr.TotalSupplyNotFound
           | Some (KeyURef total_supply_uref) => mint_add total_supply_uref initial_balance
           | Some _ => throw MintErr.MissingKey
           end
         else mret tt);
    mret purse_uref.

Definition reduce_total_supply (amount : Z) : MM unit :=
  caller ← get_caller;
  if bool_decide (caller <> system_account) then throw MintErr.InvalidTotalSupplyReductionAttempt
  else if amount =? 0 then mret tt
  else
    key ← get_key TOTAL_SUPPLY_KEY;
    match key with
    | Some (KeyURef total_supply_uref) =>
        found ← mint_read (A:=int TU512) total_supply_uref;
        total_supply ← rt_ok_or found MintErr.TotalSupplyNotFound;
        reduced_total_supply ← rt_ok_or (checked_sub (int_val total_supply) amount) MintErr.ArithmeticOverflow;
        mint_write total_supply_uref reduced_total_supply
    | _ => throw MintErr.MissingKey
    end.

Definition balance (purse : URef) : MM (option Z) :=
  found ← read_balance purse;
  match found with
  | Some b => mret (Some b)
  | None => throw MintErr.PurseNotFound
  end.

Definition transfer (maybe_to : option AccountHash) (source target : URef) (amount : Z) (id : option u64)
    : MM unit :=
  c ← gets ctx;
  match phase c, get_immediate_caller c with
  | PhaseSession, Some (CallStoredSession _ _ _) => throw MintErr.InvalidContext
  | _, _ =>
      if negb (URef_is_readable source) then throw MintErr.InvalidAccessRights
      else if negb (URef_is_writeable source) || negb (URef_is_addable target) then throw MintErr.InvalidAccessRights
      else
        found ← read_balance source;
        match found with
        | None => throw MintErr.SourceNotFound
        | Some source_balance =>
            if source_balance <? amount then throw MintErr.InsufficientFunds
            else
              found ← read_balance target;
              match found with
              | None => throw MintErr.DestNotFound
              | Some _ =>
                  _ ← (if decide (addr (main_purse (account c)) = addr source) then
                         if remaining_spending_limit c <? amount then throw MintErr.UnapprovedSpendingAmount
                         else _ ← subtract_amount_spent amount; mret tt
                       else mret tt);
                  remaining ← lift (plain_sub source_balance amount);
                  _ ← write_balance source remaining;
                  _ ← add_balance target amount;
                  rt_map_err (mint_error MintErr.RecordTransferFailure)
                    (record_transfer maybe_to source target amount id)
              end
        end
  end.

Definition read_base_round_reward : MM Z :=
  key ← get_key TOTAL_SUPPLY_KEY;
  match key with
  | Some (KeyURef total_supply_uref) =>
      found ← mint_read (A:=int TU512) total_supply_uref;
      total_supply ← rt_ok_or found MintErr.TotalSupplyNotFound;
      key ← get_key ROUND_SEIGNIORAGE_RATE_KEY;
      match key with
      | Some (KeyURef round_seigniorage_rate_uref) =>
          found ← mint_read (A:=Ratio) round_seigniorage_rate_uref;
          round_seigniorage_rate ← rt_ok_or found MintErr.TotalSupplyNotFound;
          rt_ok_or (to_integer <$> ratio_checked_mul round_seigniorage_rate (Ratio_from (int_val total_supply)))
            MintErr.ArithmeticOverflow
      | _ => throw MintErr.MissingKey
      end
  | _ => throw MintErr.MissingKey
  end.

Definition mint_into_existing_purse (existing_purse : URef) (amount : Z) : MM unit :=
  caller ← get_caller;
  if bool_decide (caller <> system_account) then throw MintErr.InvalidContext
  else if amount =? 0 then mret tt
  else
    found ← read_balance existing_purse;
    match found with
    | None => throw MintErr.PurseNotFound
    | Some _ =>
        _ ← add_balance existing_purse amount;
        key ← get_key TOTAL_SUPPLY_KEY;
        match key with
        | None => throw MintErr.TotalSupplyNotFound
        | Some (KeyURef total_supply_uref) => mint_add total_supply_uref amount
        | Some _ => throw MintErr.MissingKey
        end
    end.

End Mint.
