(* ===== verification/SystemCalls.v ===== *)
(** * Calls between contracts that end in the mint:
    [execution_engine/src/core/runtime/mod.rs].

    [execute_contract] up to the point where it hands over to the host's mint,
    [call_host_mint], the host functions that call the mint ([create_purse],
    [mint_transfer], the transfers to accounts) and [host_function_flag.rs].

    A call carries typed arguments and has a typed result ([MintCall]): that
    the code encodes them as [CLValue]s in between is not modelled, what it looks at
    on the way is, which are the types of the arguments and the [URef]s in arguments and
    results.  A call that turns out to be for another contract is for the Wasm
    interpreter, a parameter. *)

From stdpp Require Import strings.
From S2P Require Import Prelude Bytesrepr Hashing KeyTypes Values PublicKeys Account Contracts SystemErrors AuctionData StoredValue Transform TrackingCopy TrackingSim RuntimeContext Mint.
Local Open Scope Z_scope.

(** The entry points of the mint, with the type of what they return. *)
Inductive MintCall : Type -> Type :=
| CallMint (amount : Z) : MintCall (URef + MintError)
| CallReduceTotalSupply (amount : Z) : MintCall (unit + MintError)
| CallCreate : MintCall URef
| CallBalance (purse : URef) : MintCall (option Z)
| CallTransfer (maybe_to : option AccountHash) (source target : URef) (amount : Z) (id : option u64)
    : MintCall (unit + MintError)
| CallReadBaseRoundReward : MintCall Z
| CallMintIntoExistingPurse (purse : URef) (amount : Z) : MintCall (unit + MintError).

Definition mint_method {R} (c : MintCall R) : rstring :=
  str match c with
  | CallMint _ => "mint"
  | CallReduceTotalSupply _ => "reduce_total_supply"
  | CallCreate => "create"
  | CallBalance _ => "balance"
  | CallTransfer _ _ _ _ _ => "transfer"
  | CallReadBaseRoundReward => "read_base_round_reward"
  | CallMintIntoExistingPurse _ _ => "mint_into_existing_purse"
  end.

(** Names and types of the arguments, and the [URef]s in them. *)
Record CallArgs := MkCallArgs { arg_types : list (rstring * CLType); arg_urefs : list URef }.

Definition mint_args {R} (c : MintCall R) : CallArgs :=
  match c with
  | CallMint _ | CallReduceTotalSupply _ => MkCallArgs [(str "amount", CLType.U512)] []
  | CallCreate | CallReadBaseRoundReward => MkCallArgs [] []
  | CallBalance purse => MkCallArgs [(str "purse", CLType.URef)] [purse]
  | CallTransfer _ source target _ _ =>
      MkCallArgs [(str "to", CLType.Option (CLType.ByteArray 32)); (str "source", CLType.URef);
                  (str "target", CLType.URef); (str "amount", CLType.U512); (str "id", CLType.Option CLType.U64)]
        [source; target]
  | CallMintIntoExistingPurse purse _ =>
      MkCallArgs [(str "amount", CLType.U512); (str "purse", CLType.URef)] [purse]
  end.

(** [utils::extract_urefs] of the result. *)
Definition ret_urefs {R} (c : MintCall R) : R -> list URef :=
  match c with
  | CallMint _ => fun r => match r with inl uref => [uref] | inr _ => [] end
  | CallCreate => fun uref => [uref]
  | _ => fun _ => []
  end.

(** [Runtime::reverter]. *)
Definition reverter (api_error : ApiError) : ExecError :=
  match api_error with
  | ApiMint MintErr.GasLimit | ApiAuctionError AuctionErr.GasLimit
  | ApiHandlePayment HandlePaymentErr.GasLimit => ExecGasLimit
  | api_error => ExecRevert api_error
  end.

Definition is_option (c : CLType) : bool := match c with CLType.Option _ => true | _ => false end.

Fixpoint collect {V} (l : list (rstring * V)) (m : list (rstring * V)) : list (rstring * V) :=
  match l with [] => m | (k, v) :: l => collect l (btree_insert k v m) end.

(** The check of argument types against those of the entry point. *)
Fixpoint check_args (params : list (rstring * CLType)) (args : list (rstring * CLType)) : res ExecError unit :=
  match params with
  | [] => Ok tt
  | (name, type) :: params =>
      _ ← match btree_get name args with
          | Some found => if decide (type = found) then Ok tt else Err ExecTypeMismatch
          | None => if is_option type then Ok tt else Err (ExecMissingArgument name)
          end;
      check_args params args
  end.

Definition as_uref (k : Key) : option URef := match k with KeyURef u => Some u | _ => None end.
(** [Account::extract_access_rights] and [Contract::extract_access_rights]. *)
Definition Account_extract_access_rights (a : AccountRecord) : ContextAccessRights :=
  ContextAccessRights_new (Account (account_hash a)) (omap as_uref (entries (account_named_keys a)).*2 ++ [main_purse a]).
Definition Contract_extract_access_rights (c : Contract) (contract_hash : ContractHash) : ContextAccessRights :=
  ContextAccessRights_new (KeyHash contract_hash) (omap as_uref (entries (contract_named_keys c)).*2).

Definition is_compatible_protocol_version (c : Contract) (v : ProtocolVersion) : bool :=
  bool_decide (major (protocol_version c) = major v).

(** Contracts that the Wasm interpreter runs. *)
Class WasmCalls `{KeyCrates} `{AddressRng} := {
  wasm_call (R : Type) (context_key : Key) (entry_point_name : rstring) : RT RuntimeState ExecError R;
}.

Section SystemCalls.
Context `{KeyCrates} `{Blake2b} `{AddressRng} `{EngineConfig} `{RationalCrate} `{!WasmCalls}.

Abbreviation M := (RT RuntimeState ExecError).

(** ** Entering a contract *)

(** [Runtime::is_system_contract]. *)
Definition key_is_system_contract (key : Key) : M bool :=
  match into_hash key with Some contract_hash => is_system_contract contract_hash | None => mret false end.

(** [Runtime::is_mint] and its siblings, which answer [false] on errors. *)
Definition is_contract_named (name : rstring) (key : Key) : M bool :=
  found ← rt_try (get_system_contract name);
  match found with
  | inl hash => mret (bool_decide (into_hash key = Some hash))
  | inr _ => mret false
  end.

Definition get_context_key_for_contract_call (contract_hash : ContractHash) (entry_point : EntryPoint) : M Key :=
  c ← gets ctx;
  match entry_point_type c, Contracts.entry_point_type entry_point with
  | EntryContract, EntrySession => throw ExecInvalidContext
  | EntrySession, EntrySession => mret (base_key c)
  | _, EntryContract => mret (KeyHash contract_hash)
  end.

Definition push_frame (frame : CallStackElement) (frames : list CallStackElement)
    : res ExecError (list CallStackElement) :=
  if (length frames <? max_runtime_call_stack_height)%nat then Ok (frames ++ [frame]) else Err ExecRuntimeStackOverflow.

(** What [execute_contract] does for a contract hash before it hands over to a system contract: the key of
    the context, its rights and the call stack.  [None] when the arguments are to be attenuated, which only
    happens for contracts that are not system contracts. *)
Definition enter_contract (contract_hash : ContractHash) (entry_point_name : rstring) (args : CallArgs)
    : M (Key * option (ContextAccessRights * list CallStackElement)) :=
  let contract_key := KeyHash contract_hash in
  contract ← read_gs_typed Contract_try_from contract_key;
  contract_package ← read_gs_typed ContractPackage_try_from (KeyHash (contract_package_hash contract));
  is_calling_system_contract ← key_is_system_contract contract_key;
  _ ← ensure (is_calling_system_contract || is_contract_enabled contract_package contract_hash)
        (ExecDisabledContract contract_hash);
  entry_point ← rt_ok_or (entry_point_get (entry_points contract) entry_point_name)
    (ExecNoSuchMethod entry_point_name);
  _ ← check (fun c => validate_group_membership contract_package (entry_access entry_point)
        (fun uref => is_ok (validate_uref c uref)));
  _ ← (if strict_argument_checking then
         lift (check_args (collect ((fun p => (parameter_name p, parameter_type p)) <$> entry_args entry_point) [])
                 (collect (arg_types args) []))
       else mret tt);
  context_key ← get_context_key_for_contract_call contract_hash entry_point;
  c ← gets ctx;
  _ ← ensure (is_compatible_protocol_version contract (context_protocol_version c))
        ExecIncompatibleProtocolMajorVersion;
  let access_rights :=
    match Contracts.entry_point_type entry_point with
    | EntrySession => Account_extract_access_rights (account c)
    | EntryContract => Contract_extract_access_rights contract contract_hash
    end in
  let frame :=
    match Contracts.entry_point_type entry_point with
    | EntrySession => CallStoredSession (account_hash (account c)) (contract_package_hash contract) contract_hash
    | EntryContract => CallStoredContract (contract_package_hash contract) contract_hash
    end in
  stack ← lift (push_frame frame (stack c));
  let is_system_account := bool_decide (account_hash (account c) = system_account) in
  is_caller_system_contract ← key_is_system_contract (KeyTypes.context_key (rights c));
  is_calling_system_contract ← key_is_system_contract context_key;
  if negb is_system_account && negb is_caller_system_contract && negb is_calling_system_contract then
    mret (context_key, None)
  else
    _ ← (if negb is_caller_system_contract || negb is_calling_system_contract then
           rt_for (arg_urefs args) (fun uref => check (fun c => validate_uref c uref))
         else mret tt);
    mret (context_key, Some (extend access_rights (arg_urefs args), stack)).

(** ** The host's mint *)

(** [new_from_self] and [new_with_stack]: the context of a call from [c]. *)
Definition new_from_self (c : Context) (base_key : Key) (entry_point_type : EntryPointType) (named_keys : NamedKeys)
    (access_rights : ContextAccessRights) (stack : list CallStackElement) : Context :=
  MkContext named_keys access_rights (account c) (authorization_keys c) base_key (deploy_hash c) (gas_limit c)
    (gas_counter c) (phase c) entry_point_type (context_protocol_version c) (transfers c)
    (remaining_spending_limit c) stack.

(** A computation in a context of its own, with its result as a value and the context it ends with. *)
Definition in_context {E E' A} (inner : Context) (x : RT RuntimeState E A)
    : RT RuntimeState E' (res E A * Context) := fun st =>
  match x (MkRuntime (world st) inner) with
  | (Panic, st') => (Panic, MkRuntime (world st') (ctx st))
  | (OutOfFuel, st') => (OutOfFuel, MkRuntime (world st') (ctx st))
  | (r, st') => (Ok (r, ctx st'), MkRuntime (world st') (ctx st))
  end.

(** The closure of each entry point in [call_host_mint]. *)
Definition mint_entry_point {R} (c : MintCall R) : M R :=
  match c in MintCall R return M R with
  | CallMint amount =>
      _ ← charge_system_contract_call (cost_mint mint_costs);
      result ← rt_try (mint amount);
      match result with inr MintErr.GasLimit => throw ExecGasLimit | result => mret result end
  | CallReduceTotalSupply amount =>
      _ ← charge_system_contract_call (cost_reduce_total_supply mint_costs);
      rt_try (reduce_total_supply amount)
  | CallCreate =>
      _ ← charge_system_contract_call (cost_create mint_costs);
      rt_map_err (fun e => reverter (ApiMint e)) (mint 0)
  | CallBalance purse =>
      _ ← charge_system_contract_call (cost_balance mint_costs);
      rt_map_err (fun e => reverter (ApiMint e)) (balance purse)
  | CallTransfer maybe_to source target amount id =>
      _ ← charge_system_contract_call (cost_transfer mint_costs);
      rt_try (transfer maybe_to source target amount id)
  | CallReadBaseRoundReward =>
      _ ← charge_system_contract_call (cost_read_base_round_reward mint_costs);
      rt_map_err (fun e => reverter (ApiMint e)) read_base_round_reward
  | CallMintIntoExistingPurse purse amount =>
      _ ← charge_system_contract_call (cost_mint mint_costs);
      rt_try (mint_into_existing_purse purse amount)
  end.

Definition call_host_mint {R} (c : MintCall R) (access_rights : ContextAccessRights)
    (stack : list CallStackElement) : M R :=
  outer ← gets ctx;
  mint_hash ← get_system_contract MINT;
  mint_contract ← get_contract mint_hash;
  let inner := new_from_self outer (KeyHash mint_hash) EntryContract (contract_named_keys mint_contract)
                 access_rights stack in
  '(result, inner) ← in_context inner (mint_entry_point c);
  _ ← charge_gas (default (gas_counter outer) (checked_sub (gas_counter inner) (gas_counter outer)));
  ret ← lift result;
  _ ← set_ctx (with_spending_limit (remaining_spending_limit inner));
  _ ← rc_access_rights_extend (ret_urefs c ret);
  _ ← set_ctx (with_transfers (transfers inner));
  mret ret.

(** [call_contract] for an entry point of the mint. *)
Definition call_mint {R} (contract_hash : ContractHash) (c : MintCall R) : M R :=
  '(context_key, entered) ← enter_contract contract_hash (mint_method c) (mint_args c);
  match entered with
  | Some (access_rights, stack) =>
      is_mint ← is_contract_named MINT context_key;
      if is_mint : bool then call_host_mint c access_rights stack
      else wasm_call R context_key (mint_method c)
  | None => wasm_call R context_key (mint_method c)
  end.

(** ** Calls of the mint from the host *)

Definition get_mint_contract : M ContractHash := get_system_contract MINT.

(** The call, with the gas counter put back. *)
Definition unmetered {A} (x : M A) : M A :=
  fun st => let '(r, st') := x st in
  (r, MkRuntime (world st') (with_gas_counter (gas_counter (ctx st)) (ctx st'))).

Definition system_error {A} (r : A + MintError) : M A :=
  match r with inl a => mret a | inr e => throw (ExecSystemContract e) end.

Definition mint_read_base_round_reward (mint_contract_hash : ContractHash) : M Z :=
  unmetered (call_mint mint_contract_hash CallReadBaseRoundReward).
Definition mint_mint (mint_contract_hash : ContractHash) (amount : Z) : M URef :=
  result ← unmetered (call_mint mint_contract_hash (CallMint amount)); system_error result.
Definition mint_reduce_total_supply (mint_contract_hash : ContractHash) (amount : Z) : M unit :=
  result ← unmetered (call_mint mint_contract_hash (CallReduceTotalSupply amount)); system_error result.
Definition mint_create (mint_contract_hash : ContractHash) : M URef := call_mint mint_contract_hash CallCreate.

(** [enter_host_function_scope] until the end of the function. *)
Definition host_function_scope {A} (x : M A) : M A :=
  fun st =>
    let w := world st in
    let '(r, st') := x (MkRuntime (MkWorld (gs w) (address_generator w) (saturating_add 64 (host_function_depth w) 1)) (ctx st)) in
    let w' := world st' in
    (r, MkRuntime (MkWorld (gs w') (address_generator w') (Z.max 0 (host_function_depth w' - 1))) (ctx st')).

Definition create_purse : M URef :=
  host_function_scope (mint_contract_hash ← get_mint_contract; mint_create mint_contract_hash).

Definition mint_transfer (mint_contract_hash : ContractHash) (to : option AccountHash) (source target : URef)
    (amount : Z) (id : option u64) : M (unit + MintError) :=
  _ ← check (fun c => validate_uref c source);
  unmetered (call_mint mint_contract_hash (CallTransfer to source target amount id)).

(** [Runtime::get_balance]. *)
Definition get_balance (purse : URef) : M (option Z) :=
  maybe_value ← read_gs_direct (Balance (addr purse));
  match maybe_value with
  | Some (StoredCLValue value) =>
      value ← rt_map_err ExecCLValue (lift (into_t (A:=int TU512) value)); mret (Some (int_val value))
  | Some _ => throw ExecUnexpectedStoredValueVariant
  | None => mret None
  end.

Inductive TransferredTo := ExistingAccount | NewAccount.

Abbreviation TransferResult := (TransferredTo + ApiError)%type.

Definition transfer_to_new_account (source : URef) (target : AccountHash) (amount : Z) (id : option u64)
    : M TransferResult :=
  mint_contract_hash ← get_mint_contract;
  found ← get_balance source;
  if default 0 found <? amount then mret (inr (ApiMint MintErr.InsufficientFunds))
  else
    target_purse ← mint_create mint_contract_hash;
    if decide (source = target_purse) then mret (inr (ApiMint MintErr.EqualSourceAndTarget))
    else
      result ← rt_try (mint_transfer mint_contract_hash (Some target) source (with_access_rights target_purse ADD)
                 amount id);
      _ ← rc_remove_access (addr target_purse) (access_rights target_purse);
      match result with
      | inr e => throw e
      | inl (inr mint_error) => mret (inr (ApiMint mint_error))
      | inl (inl _) =>
          let account := Account_create target (BTreeMap []) target_purse in
          _ ← write_account (Account target) account;
          mret (inl NewAccount)
      end.

Definition transfer_to_existing_account (to : option AccountHash) (source target : URef) (amount : Z)
    (id : option u64) : M TransferResult :=
  mint_contract_key ← get_mint_contract;
  result ← mint_transfer mint_contract_key to source target amount id;
  match result with
  | inl _ => mret (inl ExistingAccount)
  | inr error => mret (inr (ApiMint error))
  end.

Definition transfer_from_purse_to_account (source : URef) (target : AccountHash) (amount : Z) (id : option u64)
    : M TransferResult :=
  host_function_scope (
    found ← rc_read_account (Account target);
    match found with
    | None => transfer_to_new_account source target amount id
    | Some (StoredAccount account) =>
        let target_uref := main_purse_add_only account in
        if decide (with_access_rights source ADD = target_uref) then mret (inl ExistingAccount)
        else
          granted_access ← rc_grant_access target_uref;
          transfer_result ← rt_try (transfer_to_existing_account (Some target) source target_uref amount id);
          _ ← match granted_access with
              | Granted uref_addr newly_granted_access_rights =>
                  rc_remove_access uref_addr newly_granted_access_rights
              | PreExisting => mret tt
              end;
          match transfer_result with inl r => mret r | inr e => throw e end
    | Some _ => throw (ExecAccountNotFound (Account target))
    end).

Definition transfer_to_account (target : AccountHash) (amount : Z) (id : option u64) : M TransferResult :=
  source ← rc_get_main_purse;
  transfer_from_purse_to_account source target amount id.

(** [transfer_from_purse_to_purse] after its arguments are read from memory. *)
Definition transfer_from_purse_to_purse (source target : URef) (amount : Z) (id : option u64)
    : M (unit + MintError) :=
  _ ← check (fun c => validate_uref c source);
  mint_contract_key ← get_mint_contract;
  mint_transfer mint_contract_key None source target amount id.

End SystemCalls.
