(* ===== verification/Auction.v ===== *)
(** * The auction: [execution_engine/src/system/auction.rs] and
    [auction/detail.rs], with the providers of [core/runtime/auction_internal.rs],
    [call_host_auction], [is_allowed_session_caller] and [record_era_info] of
    [core/runtime/mod.rs], and [types/src/system/auction/seigniorage_recipient.rs].

    The operations run in the context of the auction contract and call the
    mint through [SystemCalls].  Bids and unbonding purses are the values under
    [Key::Bid] and [Key::Unbond]; the rest of the auction's state is under the
    [URef]s that its named keys hold. *)

From stdpp Require Import strings.
From S2P Require Import Prelude Bytesrepr Hashing KeyTypes Values PublicKeys Account Contracts SystemErrors AuctionData StoredValue Transform TrackingCopy TrackingSim RuntimeContext Mint SystemCalls.
Local Open Scope Z_scope.

(** ** Data *)

#[export] Instance EraId_CLTyped : CLTyped EraId := CLType.U64.

Abbreviation DelegationRate := Byte.byte.

Section Recipients.
Context `{KeyCrates}.

Record SeigniorageRecipient := MkSeigniorageRecipient {
  recipient_stake : U512;
  recipient_delegation_rate : DelegationRate;
  delegator_stake : btree_map PublicKey U512;
}.

(** [From<&Bid>]. *)
Definition SeigniorageRecipient_from (bid : Bid) : SeigniorageRecipient :=
  MkSeigniorageRecipient (bid_staked_amount bid) (bid_delegation_rate bid)
    (BTreeMap ((fun e => (e.1, delegator_staked_amount e.2)) <$> entries (bid_delegators bid))).

Definition delegator_total_stake (r : SeigniorageRecipient) : option U512 :=
  fold_left (fun total_stake e => t ← total_stake; U512_checked_add t e.2) (entries (delegator_stake r))
    (Some (MkU512 0)).
Definition total_stake (r : SeigniorageRecipient) : option U512 :=
  d ← delegator_total_stake r; U512_checked_add d (recipient_stake r).

Definition SeigniorageRecipient_serialized_length (r : SeigniorageRecipient) : nat :=
  serialized_length (recipient_stake r) + serialized_length (recipient_delegation_rate r) +
  serialized_length (delegator_stake r).
Definition SeigniorageRecipient_to_bytes (r : SeigniorageRecipient) : bres bytes :=
  _ ← allocate_buffer (SeigniorageRecipient_serialized_length r);
  b0 ← to_bytes (recipient_stake r); b1 ← to_bytes (recipient_delegation_rate r);
  b2 ← to_bytes (delegator_stake r); mret (b0 ++ b1 ++ b2).
Definition SeigniorageRecipient_from_bytes (bs : bytes) : bres (SeigniorageRecipient * bytes) :=
  '(stake, bs) ← from_bytes bs;
  '(delegation_rate, bs) ← from_bytes bs;
  '(delegator_stake, bs) ← from_bytes bs;
  mret (MkSeigniorageRecipient stake delegation_rate delegator_stake, bs).

#[export] Instance SeigniorageRecipient_ToBytes : ToBytes SeigniorageRecipient :=
  default_ToBytes SeigniorageRecipient_to_bytes SeigniorageRecipient_serialized_length.
#[export] Instance SeigniorageRecipient_FromBytes : FromBytes SeigniorageRecipient :=
  default_FromBytes SeigniorageRecipient_from_bytes.
#[export] Instance SeigniorageRecipient_Valid : Valid SeigniorageRecipient := fun r =>
  valid (recipient_stake r) /\ valid (recipient_delegation_rate r) /\ valid (delegator_stake r).
#[export] Instance SeigniorageRecipient_Bytesrepr : Bytesrepr SeigniorageRecipient.
Proof.
  struct_codec_by ltac:(unfold SeigniorageRecipient_to_bytes, SeigniorageRecipient_serialized_length,
    SeigniorageRecipient_from_bytes, SeigniorageRecipient_Valid).
Qed.
#[export] Instance SeigniorageRecipient_CLTyped : CLTyped SeigniorageRecipient := CLType.Any.
#[export] Instance PublicKey_CLTyped : CLTyped PublicKey := CLType.PublicKey.
End Recipients.

Definition DELEGATION_RATE_DENOMINATOR : Z := 100.
Definition BLOCK_REWARD : Z := 1000000000000.
Definition ERA_ID_KEY : rstring := str "era_id".
Definition ERA_END_TIMESTAMP_MILLIS_KEY : rstring := str "era_end_timestamp_millis".
Definition SEIGNIORAGE_RECIPIENTS_SNAPSHOT_KEY : rstring := str "seigniorage_recipients_snapshot".
Definition VALIDATOR_SLOTS_KEY : rstring := str "validator_slots".
Definition AUCTION_DELAY_KEY : rstring := str "auction_delay".
Definition UNBONDING_DELAY_KEY : rstring := str "unbonding_delay".

(** The derived order of [Key]: the variant, then the content. *)
Definition key_rank (k : Key) : Z * (bytes * Z) :=
  match k with
  | Account a => (0, (account_hash_value a, 0))
  | KeyHash h => (1, (array_bytes h, 0))
  | KeyURef u => (2, (array_bytes (addr u), bits (access_rights u)))
  | Transfer a => (3, (transfer_addr_value a, 0))
  | DeployInfo h => (4, (deploy_hash_value h, 0))
  | EraInfo e => (5, ([], era_value e))
  | Balance a => (6, (array_bytes a, 0))
  | KeyTypes.Bid a => (7, (account_hash_value a, 0))
  | Withdraw a => (8, (account_hash_value a, 0))
  | Dictionary a => (9, (array_bytes a, 0))
  | KeyTypes.SystemContractRegistry => (10, ([], 0))
  | Unbond a => (11, (account_hash_value a, 0))
  | ChainspecRegistry => (12, ([], 0))
  | BlockEffectsRootHash h => (13, ([], h))
  | DeployApprovalsRootHash h => (14, ([], h))
  end.
#[export] Instance Key_ord : Ord Key := fun a b => ord_cmp (key_rank a) (key_rank b).

(** The set of keys in the order in which a [BTreeSet] iterates. *)
Definition ordered_keys (ks : gset Key) : list Key :=
  (foldr (fun k m => btree_insert k tt m) [] (elements ks)).*1.

(** [sort_by] with the stakes compared in reverse, which is stable. *)
Fixpoint insert_by_stake {K} (x : K * U512) (l : list (K * U512)) : list (K * U512) :=
  match l with
  | [] => [x]
  | y :: l' => if U512_val y.2 <=? U512_val x.2 then x :: l else y :: insert_by_stake x l'
  end.
Definition sort_by_stake {K} (l : list (K * U512)) : list (K * U512) := foldr insert_by_stake [] l.

(** [collect] into a [BTreeMap]. *)
Definition collect_map {K V} `{Ord K} (l : list (K * V)) : list (K * V) :=
  fold_left (fun m e => btree_insert e.1 e.2 m) l [].

Section Auction.
Context `{KeyCrates} `{Blake2b} `{AddressRng} `{EngineConfig} `{RationalCrate} `{!WasmCalls}.

Abbreviation M := (RT RuntimeState ExecError).
Abbreviation AM := (RT RuntimeState AuctionError).
Abbreviation AP := (RT RuntimeState ApiError).

Abbreviation SeigniorageRecipients := (btree_map PublicKey SeigniorageRecipient).
Abbreviation SeigniorageRecipientsSnapshot := (btree_map EraId SeigniorageRecipients).
Abbreviation ValidatorWeights := (btree_map PublicKey U512).
Abbreviation EraValidators := (btree_map EraId ValidatorWeights).

(** [ApiError::from] under [?]. *)
Definition api {A} (x : AM A) : AP A := rt_map_err ApiAuctionError x.

(** ** Providers *)

(** [<Option<auction::Error>>::from(exec_error).unwrap_or(default)]. *)
Definition auction_error (default : AuctionError) (exec_error : ExecError) : AuctionError :=
  match exec_error with ExecGasLimit => AuctionErr.GasLimit | _ => default end.
(** The errors of the reading functions. *)
Definition read_error (exec_error : ExecError) : AuctionError :=
  match exec_error with
  | ExecBytesRepr _ => AuctionErr.Serialization
  | ExecGasLimit => AuctionErr.GasLimit
  | _ => AuctionErr.Storage
  end.

Definition auction_read {A} `{CLTyped A} `{FromBytes A} (uref : URef) : AM (option A) :=
  found ← rt_map_err read_error (read_gs (KeyURef uref));
  match found with
  | Some (StoredCLValue cl_value) =>
      value ← rt_map_err (fun _ => AuctionErr.CLValue) (lift (into_t cl_value)); mret (Some value)
  | Some _ => throw AuctionErr.Storage
  | None => mret None
  end.
Definition auction_write {A} `{CLTyped A} `{ToBytes A} (uref : URef) (value : A) : AM unit :=
  cl_value ← rt_map_err (fun _ => AuctionErr.CLValue) (lift (from_t value));
  rt_map_err (auction_error AuctionErr.Storage) (metered_write_gs (KeyURef uref) (StoredCLValue cl_value)).

Definition read_bid (account_hash : AccountHash) : AM (option Bid) :=
  found ← rt_map_err read_error (read_gs (KeyTypes.Bid account_hash));
  match found with
  | Some (StoredBid bid) => mret (Some bid)
  | Some _ => throw AuctionErr.Storage
  | None => mret None
  end.
Definition write_bid (account_hash : AccountHash) (bid : Bid) : AM unit :=
  rt_map_err (auction_error AuctionErr.Storage)
    (metered_write_gs_unsafe (KeyTypes.Bid account_hash) (StoredBid bid)).
Definition read_unbond (account_hash : AccountHash) : AM (list UnbondingPurse) :=
  found ← rt_map_err read_error (read_gs (Unbond account_hash));
  match found with
  | Some (StoredUnbonding unbonding_purses) => mret unbonding_purses
  | Some _ => throw AuctionErr.Storage
  | None => mret []
  end.
Definition write_unbond (account_hash : AccountHash) (unbonding_purses : list UnbondingPurse) : AM unit :=
  rt_map_err (auction_error AuctionErr.Storage)
    (metered_write_gs_unsafe (Unbond account_hash) (StoredUnbonding unbonding_purses)).

(** [Runtime::record_era_info]. *)
Definition rt_record_era_info (era_id : EraId) (era_info : EraInfoRecord) : M unit :=
  c ← gets ctx;
  auction_hash ← get_system_contract AUCTION;
  if decide (base_key c = KeyHash auction_hash) then
    if decide (phase c = PhaseSession) then write_era_info (EraInfo era_id) era_info else mret tt
  else throw ExecInvalidContext.
Definition record_era_info (era_id : EraId) (era_info : EraInfoRecord) : AM unit :=
  rt_map_err (auction_error AuctionErr.RecordEraInfo) (rt_record_era_info era_id era_info).

(** [Runtime::is_allowed_session_caller]. *)
Definition is_allowed_session_caller (c : Context) (provided_account_hash : AccountHash) : bool :=
  if decide (account_hash (account c) = system_account) then true
  else
    match get_immediate_caller c with
    | Some (CallSession account_hash) => bool_decide (account_hash = provided_account_hash)
    | _ => false
    end.
Definition require_session_caller (public_key : PublicKey) : AM unit :=
  c ← gets ctx; ensure (is_allowed_session_caller c (from_public_key public_key)) AuctionErr.InvalidContext.
Definition require_system : AM unit :=
  caller ← get_caller; ensure (bool_decide (caller = system_account)) AuctionErr.InvalidCaller.

Definition auction_get_keys (key_tag : KeyTag) : AM (list Key) :=
  ks ← rt_map_err (fun _ => AuctionErr.Storage) (rc_get_keys key_tag); mret (ordered_keys ks).

(** *** The mint *)

Definition auction_mint_hash (default : AuctionError) : AM ContractHash :=
  rt_map_err (auction_error default) get_mint_contract.

Definition mint_transfer_direct (to : option AccountHash) (source target : URef) (amount : U512) (id : option u64)
    : AM (unit + MintError) :=
  c ← gets ctx;
  _ ← ensure (bool_decide (addr (main_purse (account c)) = addr source) ||
              bool_decide (account_hash (account c) = system_account)) AuctionErr.InvalidCaller;
  _ ← set_ctx (fun c => with_rights (extend (rights c) [source; into_add target]) c);
  mint_contract_hash ← auction_mint_hash AuctionErr.MissingValue;
  result ← rt_map_err (auction_error AuctionErr.Transfer)
             (call_mint mint_contract_hash (CallTransfer to source target (U512_val amount) id));
  _ ← set_ctx (with_gas_counter (gas_counter c));
  mret result.

Definition unbond (unbonding_purse : UnbondingPurse) : AM unit :=
  let account_hash := from_public_key (unbonder_public_key unbonding_purse) in
  maybe_value ← rt_map_err (auction_error AuctionErr.Storage) (read_gs_direct (Account account_hash));
  match maybe_value with
  | Some (StoredAccount account) =>
      result ← rt_map_err (fun _ => AuctionErr.Transfer)
        (mint_transfer_direct (Some account_hash) (unbonding_bonding_purse unbonding_purse) (main_purse account)
           (unbonding_amount unbonding_purse) None);
      match result with inl _ => mret tt | inr _ => throw AuctionErr.Transfer end
  | Some _ => throw AuctionErr.CLValue
  | None => throw AuctionErr.InvalidPublicKey
  end.

Definition auction_mint_into_existing_purse (amount : U512) (existing_purse : URef) : AM unit :=
  _ ← require_system;
  gas_counter ← gets (fun st => gas_counter (ctx st));
  mint_contract_hash ← auction_mint_hash AuctionErr.MissingValue;
  result ← rt_map_err (auction_error AuctionErr.MintError)
             (call_mint mint_contract_hash (CallMintIntoExistingPurse existing_purse (U512_val amount)));
  _ ← set_ctx (with_gas_counter gas_counter);
  match result with inl _ => mret tt | inr _ => throw AuctionErr.MintError end.

Definition auction_create_purse : AM URef :=
  rt_map_err (auction_error AuctionErr.CreatePurseFailed) create_purse.
Definition auction_get_balance (purse : URef) : AM (option Z) :=
  rt_map_err (auction_error AuctionErr.GetBalance) (get_balance purse).
Definition auction_read_base_round_reward : AM Z :=
  mint_contract ← auction_mint_hash AuctionErr.MissingValue;
  rt_map_err (auction_error AuctionErr.MissingValue) (mint_read_base_round_reward mint_contract).
Definition auction_reduce_total_supply (amount : U512) : AM unit :=
  mint_contract ← auction_mint_hash AuctionErr.MintReward;
  rt_map_err (auction_error AuctionErr.MintReward) (mint_reduce_total_supply mint_contract (U512_val amount)).

(** ** [auction/detail.rs] *)

Definition key_uref (name : rstring) : AM URef :=
  key ← get_key name;
  key ← rt_ok_or key AuctionErr.MissingKey;
  rt_ok_or (as_uref key) AuctionErr.InvalidKeyVariant.
Definition read_from {A} `{CLTyped A} `{FromBytes A} (name : rstring) : AM A :=
  uref ← key_uref name; value ← auction_read uref; rt_ok_or value AuctionErr.MissingValue.
Definition write_to {A} `{CLTyped A} `{ToBytes A} (name : rstring) (value : A) : AM unit :=
  uref ← key_uref name; auction_write uref value.

Fixpoint read_bids (keys : list Key) (ret : list (PublicKey * Bid)) : AM (list (PublicKey * Bid)) :=
  match keys with
  | [] => mret ret
  | key :: keys =>
      account_hash ← match key with KeyTypes.Bid a => mret a | _ => throw AuctionErr.InvalidKeyVariant end;
      found ← read_bid account_hash;
      bid ← rt_ok_or found AuctionErr.ValidatorNotFound;
      read_bids keys (btree_insert (bid_validator_public_key bid) bid ret)
  end.
Definition get_bids : AM (list (PublicKey * Bid)) :=
  bids_keys ← auction_get_keys TagBid; read_bids bids_keys [].
Definition set_bids (validators : list (PublicKey * Bid)) : AM unit :=
  rt_for validators (fun e => write_bid (from_public_key (bid_validator_public_key e.2)) e.2).

Fixpoint read_unbonds (keys : list Key) (ret : list (AccountHash * list UnbondingPurse))
    : AM (list (AccountHash * list UnbondingPurse)) :=
  match keys with
  | [] => mret ret
  | key :: keys =>
      account_hash ← match key with Unbond a => mret a | _ => throw AuctionErr.InvalidKeyVariant end;
      unbonding_purses ← read_unbond account_hash;
      read_unbonds keys (btree_insert account_hash unbonding_purses ret)
  end.
Definition get_unbonding_purses : AM (list (AccountHash * list UnbondingPurse)) :=
  unbond_keys ← auction_get_keys TagUnbond; read_unbonds unbond_keys [].
Definition set_unbonding_purses (unbonding_purses : list (AccountHash * list UnbondingPurse)) : AM unit :=
  rt_for unbonding_purses (fun e => write_unbond e.1 e.2).

Definition get_era_id : AM EraId := read_from ERA_ID_KEY.
Definition set_era_id (era_id : EraId) : AM unit := write_to ERA_ID_KEY era_id.
Definition get_era_end_timestamp_millis : AM Z :=
  t ← read_from (A:=int TU64) ERA_END_TIMESTAMP_MILLIS_KEY; mret (int_val t).
Definition set_era_end_timestamp_millis (era_end_timestamp_millis : Z) : AM unit :=
  write_to (A:=int TU64) ERA_END_TIMESTAMP_MILLIS_KEY (MkInt era_end_timestamp_millis).
Definition get_seigniorage_recipients_snapshot : AM SeigniorageRecipientsSnapshot :=
  read_from SEIGNIORAGE_RECIPIENTS_SNAPSHOT_KEY.
Definition set_seigniorage_recipients_snapshot (snapshot : SeigniorageRecipientsSnapshot) : AM unit :=
  write_to SEIGNIORAGE_RECIPIENTS_SNAPSHOT_KEY snapshot.
(** A [u32] always fits into a [usize]. *)
Definition get_validator_slots : AM nat :=
  validator_slots ← read_from (A:=int TU32) VALIDATOR_SLOTS_KEY; mret (Z.to_nat (int_val validator_slots)).
Definition get_auction_delay : AM Z := d ← read_from (A:=int TU64) AUCTION_DELAY_KEY; mret (int_val d).
Definition get_unbonding_delay : AM Z := d ← read_from (A:=int TU64) UNBONDING_DELAY_KEY; mret (int_val d).

(** A transfer between purses with the errors of the callers of [mint_transfer_direct]. *)
Definition stake_transfer (error : AuctionError) (source target : URef) (amount : U512) : AP unit :=
  result ← rt_map_err (fun _ => ApiAuctionError error)
             (mint_transfer_direct (Some system_account) source target amount None);
  match result with inl _ => mret tt | inr mint_error => throw (ApiMint mint_error) end.

Definition handle_delegation (bid : Bid) (delegator_public_key validator_public_key : PublicKey) (source : URef)
    (amount : U512) : AP U512 :=
  let delegators := entries (bid_delegators bid) in
  '(new_delegation_amount, delegator) ←
    match btree_get delegator_public_key delegators with
    | Some delegator =>
        _ ← stake_transfer AuctionErr.TransferToDelegatorPurse source (delegator_bonding_purse delegator) amount;
        '(_, delegator) ← api (lift (Delegator_increase_stake delegator amount));
        mret (delegator_staked_amount delegator, delegator)
    | None =>
        bonding_purse ← api auction_create_purse;
        _ ← stake_transfer AuctionErr.TransferToDelegatorPurse source bonding_purse amount;
        mret (amount, Delegator_unlocked delegator_public_key amount bonding_purse validator_public_key)
    end;
  _ ← api (write_bid (from_public_key validator_public_key)
             (with_delegators bid (BTreeMap (btree_insert delegator_public_key delegator delegators))));
  mret new_delegation_amount.

Definition read_bid_for_validator (validator_account_hash : AccountHash) : AP Bid :=
  found ← api (read_bid validator_account_hash);
  rt_ok_or found (ApiAuctionError AuctionErr.ValidatorNotFound).

Definition pay_out (unbonding_purse : UnbondingPurse) : AP unit :=
  rt_map_err (fun _ => ApiAuctionError AuctionErr.TransferToUnbondingPurse) (unbond unbonding_purse).

(** An unbonding request whose delay has passed. *)
Definition process_unbond_request (unbonding_purse : UnbondingPurse) : AP unit :=
  match new_validator unbonding_purse with
  | Some new_validator =>
      found ← rt_try (read_bid (from_public_key new_validator));
      match found with
      | inl (Some new_validator_bid) =>
          if U512_val (bid_staked_amount new_validator_bid) =? 0 then pay_out unbonding_purse
          else
            bid ← read_bid_for_validator (from_public_key new_validator);
            _ ← handle_delegation bid (unbonder_public_key unbonding_purse) new_validator
                  (unbonding_bonding_purse unbonding_purse) (unbonding_amount unbonding_purse);
            mret tt
      | inl None | inr _ => pay_out unbonding_purse
      end
  | None => pay_out unbonding_purse
  end.

(** The requests of a validator; those that stay are returned. *)
Fixpoint process_unbonding_list (current_era_id : EraId) (unbonding_delay : Z) (unbonding_list : list UnbondingPurse)
    : AP (list UnbondingPurse) :=
  match unbonding_list with
  | [] => mret []
  | unbonding_purse :: unbonding_list =>
      due ← lift (u64_add (era_value (era_of_creation unbonding_purse)) unbonding_delay);
      if due <=? era_value current_era_id then
        _ ← process_unbond_request unbonding_purse;
        process_unbonding_list current_era_id unbonding_delay unbonding_list
      else
        new_unbonding_list ← process_unbonding_list current_era_id unbonding_delay unbonding_list;
        mret (unbonding_purse :: new_unbonding_list)
  end.
Fixpoint process_unbonding_lists (current_era_id : EraId) (unbonding_delay : Z)
    (unbonding_purses : list (AccountHash * list UnbondingPurse)) : AP (list (AccountHash * list UnbondingPurse)) :=
  match unbonding_purses with
  | [] => mret []
  | (account_hash, unbonding_list) :: unbonding_purses =>
      new_unbonding_list ← process_unbonding_list current_era_id unbonding_delay unbonding_list;
      rest ← process_unbonding_lists current_era_id unbonding_delay unbonding_purses;
      mret ((account_hash, new_unbonding_list) :: rest)
  end.

Definition process_unbond_requests : AP unit :=
  _ ← api require_system;
  unbonding_purses ← api get_unbonding_purses;
  current_era_id ← api get_era_id;
  unbonding_delay ← api get_unbonding_delay;
  unbonding_purses ← process_unbonding_lists current_era_id unbonding_delay unbonding_purses;
  api (set_unbonding_purses unbonding_purses).

Definition create_unbonding_purse (validator_public_key unbonder_public_key : PublicKey) (bonding_purse : URef)
    (amount : U512) (new_validator : option PublicKey) : AM unit :=
  balance ← auction_get_balance bonding_purse;
  _ ← ensure (U512_val amount <=? default 0 balance) AuctionErr.UnbondTooLarge;
  let validator_account_hash := from_public_key validator_public_key in
  unbonding_purses ← read_unbond validator_account_hash;
  era_of_creation ← get_era_id;
  write_unbond validator_account_hash (unbonding_purses ++
    [MkUnbondingPurse bonding_purse validator_public_key unbonder_public_key era_of_creation amount new_validator]).

(** The loop over the rewards, which are computed one by one. *)
Fixpoint reinvest_delegators (validator_public_key : PublicKey) (rewards : list (PublicKey * res AuctionError Ratio))
    (delegators : list (PublicKey * Delegator)) (seigniorage_allocations : list SeigniorageAllocation)
    : AM (list (PublicKey * Delegator) * list (U512 * URef) * list SeigniorageAllocation) :=
  match rewards with
  | [] => mret (delegators, [], seigniorage_allocations)
  | (delegator_key, delegator_reward) :: rewards =>
      delegator_reward ← lift delegator_reward;
      match btree_get delegator_key delegators with
      | None => reinvest_delegators validator_public_key rewards delegators seigniorage_allocations
      | Some delegator =>
          let delegator_reward_trunc := MkU512 (to_integer delegator_reward) in
          '(_, delegator) ← lift (Delegator_increase_stake delegator delegator_reward_trunc);
          '(delegators, payouts, allocations) ←
            reinvest_delegators validator_public_key rewards (btree_insert delegator_key delegator delegators)
              (seigniorage_allocations ++ [AllocDelegator delegator_key validator_public_key delegator_reward_trunc]);
          mret (delegators, (delegator_reward_trunc, delegator_bonding_purse delegator) :: payouts, allocations)
      end
  end.

(** The payouts, without the account hashes that nothing reads, and the allocations. *)
Definition reinvest_delegator_rewards (seigniorage_allocations : list SeigniorageAllocation)
    (validator_public_key : PublicKey) (rewards : list (PublicKey * res AuctionError Ratio))
    : AM (list (U512 * URef) * list SeigniorageAllocation) :=
  let validator_account_hash := from_public_key validator_public_key in
  found ← read_bid validator_account_hash;
  bid ← rt_ok_or found AuctionErr.ValidatorNotFound;
  '(delegators, delegator_payouts, seigniorage_allocations) ←
    reinvest_delegators validator_public_key rewards (entries (bid_delegators bid)) seigniorage_allocations;
  _ ← write_bid validator_account_hash (with_delegators bid (BTreeMap delegators));
  mret (delegator_payouts, seigniorage_allocations).

Definition reinvest_validator_reward (seigniorage_allocations : list SeigniorageAllocation)
    (validator_public_key : PublicKey) (amount : U512) : AM (URef * list SeigniorageAllocation) :=
  let validator_account_hash := from_public_key validator_public_key in
  found ← read_bid validator_account_hash;
  bid ← rt_ok_or found AuctionErr.ValidatorNotFound;
  '(_, bid) ← lift (Bid_increase_stake bid amount);
  _ ← write_bid validator_account_hash bid;
  mret (bid_bonding_purse bid, seigniorage_allocations ++ [AllocValidator validator_public_key amount]).

Definition era_validators_from_snapshot (snapshot : SeigniorageRecipientsSnapshot) : EraValidators :=
  BTreeMap ((fun e =>
    (e.1, BTreeMap (omap (fun r => stake ← total_stake r.2; Some (r.1, stake)) (entries e.2)))) <$> entries snapshot).

(** ** The entry points *)

Definition get_era_validators : AM EraValidators :=
  snapshot ← get_seigniorage_recipients_snapshot; mret (era_validators_from_snapshot snapshot).

Definition read_seigniorage_recipients : AM SeigniorageRecipients :=
  era_index ← get_era_id;
  snapshot ← get_seigniorage_recipients_snapshot;
  rt_ok_or (btree_get era_index (entries snapshot)) AuctionErr.MissingSeigniorageRecipients.

Definition add_bid (public_key : PublicKey) (delegation_rate : DelegationRate) (amount : U512) : AP U512 :=
  _ ← ensure (negb (U512_val amount =? 0)) (ApiAuctionError AuctionErr.BondTooSmall);
  _ ← ensure (Z.of_N (Byte.to_N delegation_rate) <=? DELEGATION_RATE_DENOMINATOR) (ApiAuctionError AuctionErr.DelegationRateTooLarge);
  _ ← api (require_session_caller public_key);
  source ← gets (fun st => main_purse (account (ctx st)));
  let account_hash := from_public_key public_key in
  found ← api (read_bid account_hash);
  match found with
  | Some bid =>
      let bid := if bid_inactive bid then (activate bid).2 else bid in
      _ ← stake_transfer AuctionErr.TransferToBidPurse source (bid_bonding_purse bid) amount;
      '(updated_amount, bid) ← api (lift (Bid_increase_stake (with_delegation_rate bid delegation_rate) amount));
      _ ← api (write_bid account_hash bid);
      mret updated_amount
  | None =>
      bonding_purse ← api auction_create_purse;
      _ ← stake_transfer AuctionErr.TransferToBidPurse source bonding_purse amount;
      _ ← api (write_bid account_hash (Bid_unlocked public_key bonding_purse amount delegation_rate));
      mret amount
  end.

Definition withdraw_bid (public_key : PublicKey) (amount : U512) : AM U512 :=
  _ ← require_session_caller public_key;
  let provided_account_hash := from_public_key public_key in
  found ← read_bid provided_account_hash;
  bid ← rt_ok_or found AuctionErr.ValidatorNotFound;
  era_end_timestamp_millis ← get_era_end_timestamp_millis;
  '(updated_stake, bid) ← lift (Bid_decrease_stake bid amount era_end_timestamp_millis);
  _ ← create_unbonding_purse public_key public_key (bid_bonding_purse bid) amount None;
  if U512_val updated_stake =? 0 then
    _ ← rt_for (entries (bid_delegators bid)) (fun e =>
          create_unbonding_purse public_key e.1 (delegator_bonding_purse e.2) (delegator_staked_amount e.2) None);
    _ ← write_bid provided_account_hash (deactivate (with_delegators bid (BTreeMap []))).2;
    mret updated_stake
  else
    _ ← write_bid provided_account_hash bid; mret updated_stake.

Definition delegate (delegator_public_key validator_public_key : PublicKey) (amount : U512)
    (minimum_delegation_amount : Z) : AP U512 :=
  _ ← ensure (negb (U512_val amount =? 0)) (ApiAuctionError AuctionErr.BondTooSmall);
  _ ← api (require_session_caller delegator_public_key);
  source ← gets (fun st => main_purse (account (ctx st)));
  bid ← read_bid_for_validator (from_public_key validator_public_key);
  _ ← ensure (minimum_delegation_amount <=? U512_val amount) (ApiAuctionError AuctionErr.DelegationAmountTooSmall);
  handle_delegation bid delegator_public_key validator_public_key source amount.

(** The common part of [undelegate] and [redelegate]. *)
Definition decrease_delegation (delegator_public_key validator_public_key : PublicKey) (amount : U512)
    (new_validator : option PublicKey) : AM U512 :=
  let validator_account_hash := from_public_key validator_public_key in
  found ← read_bid validator_account_hash;
  bid ← rt_ok_or found AuctionErr.ValidatorNotFound;
  let delegators := entries (bid_delegators bid) in
  match btree_get delegator_public_key delegators with
  | Some delegator =>
      _ ← create_unbonding_purse validator_public_key delegator_public_key (delegator_bonding_purse delegator) amount
            new_validator;
      era_end_timestamp_millis ← get_era_end_timestamp_millis;
      '(updated_stake, delegator) ← lift (Delegator_decrease_stake delegator amount era_end_timestamp_millis);
      let delegators :=
        if U512_val updated_stake =? 0 then btree_remove delegator_public_key delegators
        else btree_insert delegator_public_key delegator delegators in
      _ ← write_bid validator_account_hash (with_delegators bid (BTreeMap delegators));
      mret updated_stake
  | None => throw AuctionErr.DelegatorNotFound
  end.

Definition undelegate (delegator_public_key validator_public_key : PublicKey) (amount : U512) : AM U512 :=
  _ ← require_session_caller delegator_public_key;
  decrease_delegation delegator_public_key validator_public_key amount None.

Definition redelegate (delegator_public_key validator_public_key : PublicKey) (amount : U512)
    (new_validator : PublicKey) (minimum_delegation_amount : Z) : AM U512 :=
  _ ← require_session_caller delegator_public_key;
  _ ← ensure (minimum_delegation_amount <=? U512_val amount) AuctionErr.DelegationAmountTooSmall;
  decrease_delegation delegator_public_key validator_public_key amount (Some new_validator).

(** [sum] of [U512]s, which panics on an overflow. *)
Fixpoint U512_sum {E} (l : list U512) : res E Z :=
  match l with
  | [] => Ok 0
  | a :: l => s ← U512_sum l; plain_add 512 (U512_val a) s
  end.

Definition slash_bid (bid : Bid) : Bid :=
  let bid := (deactivate (with_bid_stake bid (MkU512 0))).2 in
  with_delegators bid
    (BTreeMap ((fun e => (e.1, with_delegator_stake e.2 (MkU512 0))) <$> entries (bid_delegators bid))).

Fixpoint slash_validators (validator_public_keys : list PublicKey) (burned_amount : Z) : AM Z :=
  match validator_public_keys with
  | [] => mret burned_amount
  | validator_public_key :: validator_public_keys =>
      let validator_account_hash := from_public_key validator_public_key in
      found ← read_bid validator_account_hash;
      burned_amount ←
        match found with
        | Some bid =>
            burned_amount ← lift (plain_add 512 burned_amount (U512_val (bid_staked_amount bid)));
            _ ← write_bid validator_account_hash (slash_bid bid);
            mret burned_amount
        | None => mret burned_amount
        end;
      unbonding_purses ← read_unbond validator_account_hash;
      burned_amount ←
        (if bool_decide (unbonding_purses = []) then mret burned_amount
         else
           sum ← lift (U512_sum (unbonding_amount <$> unbonding_purses));
           burned_amount ← lift (plain_add 512 burned_amount sum);
           _ ← write_unbond validator_account_hash [];
           mret burned_amount);
      slash_validators validator_public_keys burned_amount
  end.

Definition slash (validator_public_keys : list PublicKey) : AM unit :=
  _ ← require_system;
  burned_amount ← slash_validators validator_public_keys 0;
  auction_reduce_total_supply (MkU512 burned_amount).

(** *** Running the auction *)

(** The loop over the bids: vesting schedules and evictions. *)
Fixpoint process_bids (era_end_timestamp_millis : Z) (evicted_validators : list PublicKey)
    (bids : list (PublicKey * Bid)) (bids_modified : bool) : res AuctionError (list (PublicKey * Bid) * bool) :=
  match bids with
  | [] => Ok ([], bids_modified)
  | (validator_public_key, bid) :: bids =>
      '(processed, bid) ← process_with_vesting_schedule bid era_end_timestamp_millis vesting_schedule_period_millis;
      let bids_modified := processed || bids_modified in
      let '(bids_modified, bid) :=
        if bool_decide (validator_public_key ∈ evicted_validators) then deactivate bid else (bids_modified, bid) in
      '(bids, bids_modified) ← process_bids era_end_timestamp_millis evicted_validators bids bids_modified;
      Ok ((validator_public_key, bid) :: bids, bids_modified)
  end.

(** [filter], [map] and [collect] into a [Result]. *)
Fixpoint weights_of (keep : Bid -> bool) (bids : list (PublicKey * Bid)) : res AuctionError (list (PublicKey * U512)) :=
  match bids with
  | [] => Ok []
  | (public_key, bid) :: bids =>
      if keep bid then
        total ← total_staked_amount bid; rest ← weights_of keep bids; Ok ((public_key, total) :: rest)
      else weights_of keep bids
  end.

Definition auction_winners (era_end_timestamp_millis : Z) (validator_slots : nat) (bids : list (PublicKey * Bid))
    : res AuctionError (list (PublicKey * U512)) :=
  let is_locked bid := is_locked_with_vesting_schedule bid era_end_timestamp_millis vesting_schedule_period_millis in
  locked_validators ← weights_of (fun bid => is_locked bid && negb (bid_inactive bid)) bids;
  unlocked_validators ← weights_of (fun bid => negb (is_locked bid) && negb (bid_inactive bid)) bids;
  let remaining_auction_slots := (validator_slots - length locked_validators)%nat in
  Ok (collect_map (locked_validators ++ take remaining_auction_slots (sort_by_stake unlocked_validators))).

Fixpoint winning_recipients (bids : list (PublicKey * Bid)) (winners : list PublicKey)
    : res AuctionError (list (PublicKey * SeigniorageRecipient)) :=
  match winners with
  | [] => Ok []
  | era_validator :: winners =>
      bid ← ok_or (btree_get era_validator bids) AuctionErr.BidNotFound;
      rest ← winning_recipients bids winners;
      Ok ((era_validator, SeigniorageRecipient_from bid) :: rest)
  end.

Definition run_auction (era_end_timestamp_millis : Z) (evicted_validators : list PublicKey) : AP unit :=
  _ ← api require_system;
  validator_slots ← api get_validator_slots;
  auction_delay ← api get_auction_delay;
  snapshot_size ← lift (u64_add auction_delay 1);
  era_id ← api get_era_id;
  bids ← api get_bids;
  _ ← process_unbond_requests;
  '(bids, bids_modified) ← api (lift (process_bids era_end_timestamp_millis evicted_validators bids false));
  winners ← api (lift (auction_winners era_end_timestamp_millis validator_slots bids));
  era_id ← rt_ok_or (EraId_checked_add era_id 1) (ApiAuctionError AuctionErr.ArithmeticOverflow);
  delayed_era ← rt_ok_or (EraId_checked_add era_id auction_delay) (ApiAuctionError AuctionErr.ArithmeticOverflow);
  snapshot ← api get_seigniorage_recipients_snapshot;
  recipients ← api (lift (winning_recipients bids winners.*1));
  _ ← (if bool_decide (is_Some (btree_get delayed_era (entries snapshot))) then lift Panic else mret tt);
  let snapshot := btree_insert delayed_era (BTreeMap (collect_map recipients)) (entries snapshot) in
  _ ← api (set_seigniorage_recipients_snapshot (BTreeMap (collect_map (take (Z.to_nat snapshot_size) (rev snapshot)))));
  _ ← api (set_era_id era_id);
  _ ← api (set_era_end_timestamp_millis era_end_timestamp_millis);
  if bids_modified : bool then api (set_bids bids) else mret tt.

(** *** Rewards *)

Definition ratio_res {E} (o : option Ratio) : res E Ratio := match o with Some r => Ok r | None => Panic end.

(** The rewards of one validator and its delegators, before they are paid. *)
Definition delegators_part (recipient : SeigniorageRecipient) (total_reward : Ratio) (delegator_total_stake total_stake : Z)
    : res AuctionError Ratio :=
  commission_rate ← Ratio_new (Z.of_N (Byte.to_N (recipient_delegation_rate recipient))) DELEGATION_RATE_DENOMINATOR;
  reward_multiplier ← Ratio_new delegator_total_stake total_stake;
  delegator_reward ← ok_or (ratio_checked_mul total_reward reward_multiplier) AuctionErr.ArithmeticOverflow;
  commission ← ok_or (ratio_checked_mul delegator_reward commission_rate) AuctionErr.ArithmeticOverflow;
  ok_or (ratio_checked_sub delegator_reward commission) AuctionErr.ArithmeticOverflow.

Definition delegator_rewards (recipient : SeigniorageRecipient) (delegators_part : Ratio) (delegator_total_stake : Z)
    : list (PublicKey * res AuctionError Ratio) :=
  (fun e => (e.1,
     reward_multiplier ← Ratio_new (U512_val e.2) delegator_total_stake;
     ratio_res (ratio_mul delegators_part reward_multiplier))) <$> entries (delegator_stake recipient).

(** One validator in the loop of [distribute]. *)
Definition distribute_one (recipients : SeigniorageRecipients) (base_round_reward : Z) (public_key : PublicKey)
    (reward_factor : Z) (seigniorage_allocations : list SeigniorageAllocation) : AM (list SeigniorageAllocation) :=
  recipient ← rt_ok_or (btree_get public_key (entries recipients)) AuctionErr.ValidatorNotFound;
  total_stake ← rt_ok_or (total_stake recipient) AuctionErr.ArithmeticOverflow;
  if U512_val total_stake =? 0 then mret seigniorage_allocations
  else
    reward_rate ← lift (Ratio_new reward_factor BLOCK_REWARD);
    total_reward ← rt_ok_or (ratio_checked_mul reward_rate (Ratio_from base_round_reward)) AuctionErr.ArithmeticOverflow;
    delegator_total_stake ← rt_ok_or (delegator_total_stake recipient) AuctionErr.ArithmeticOverflow;
    part ← lift (delegators_part recipient total_reward (U512_val delegator_total_stake) (U512_val total_stake));
    '(delegator_payouts, seigniorage_allocations) ←
      reinvest_delegator_rewards seigniorage_allocations public_key
        (delegator_rewards recipient part (U512_val delegator_total_stake));
    total_delegator_payout ← lift (U512_sum delegator_payouts.*1);
    validators_part ← lift (ratio_res (ratio_sub total_reward (Ratio_from total_delegator_payout)));
    let validator_reward := MkU512 (to_integer validators_part) in
    '(validator_bonding_purse, seigniorage_allocations) ←
      reinvest_validator_reward seigniorage_allocations public_key validator_reward;
    _ ← auction_mint_into_existing_purse validator_reward validator_bonding_purse;
    _ ← rt_for delegator_payouts (fun p => auction_mint_into_existing_purse p.1 p.2);
    mret seigniorage_allocations.

Fixpoint distribute_all (recipients : SeigniorageRecipients) (base_round_reward : Z) (reward_factors : list (PublicKey * u64))
    (seigniorage_allocations : list SeigniorageAllocation) : AM (list SeigniorageAllocation) :=
  match reward_factors with
  | [] => mret seigniorage_allocations
  | (public_key, reward_factor) :: reward_factors =>
      seigniorage_allocations ←
        distribute_one recipients base_round_reward public_key (u64_val reward_factor) seigniorage_allocations;
      distribute_all recipients base_round_reward reward_factors seigniorage_allocations
  end.

Definition distribute (reward_factors : btree_map PublicKey u64) : AM unit :=
  _ ← require_system;
  seigniorage_recipients ← read_seigniorage_recipients;
  base_round_reward ← auction_read_base_round_reward;
  era_id ← get_era_id;
  seigniorage_allocations ← distribute_all seigniorage_recipients base_round_reward (entries reward_factors) [];
  record_era_info era_id (MkEraInfo seigniorage_allocations).

Definition read_era_id : AM EraId := get_era_id.

Definition activate_bid (validator_public_key : PublicKey) : AM unit :=
  _ ← require_session_caller validator_public_key;
  let provided_account_hash := from_public_key validator_public_key in
  found ← read_bid provided_account_hash;
  bid ← rt_ok_or found AuctionErr.ValidatorNotFound;
  write_bid provided_account_hash (activate bid).2.

(** ** Calls of the auction *)

Inductive AuctionCall : Type -> Type :=
| CallGetEraValidators : AuctionCall EraValidators
| CallAddBid (public_key : PublicKey) (delegation_rate : DelegationRate) (amount : U512) : AuctionCall U512
| CallWithdrawBid (public_key : PublicKey) (amount : U512) : AuctionCall U512
| CallDelegate (delegator validator : PublicKey) (amount : U512) : AuctionCall U512
| CallUndelegate (delegator validator : PublicKey) (amount : U512) : AuctionCall U512
| CallRedelegate (delegator validator : PublicKey) (amount : U512) (new_validator : PublicKey) : AuctionCall U512
| CallRunAuction (era_end_timestamp_millis : u64) (evicted_validators : list PublicKey) : AuctionCall unit
| CallSlash (validator_public_keys : list PublicKey) : AuctionCall unit
| CallDistribute (reward_factors : btree_map PublicKey u64) : AuctionCall unit
| CallReadEraId : AuctionCall EraId
| CallActivateBid (validator_public_key : PublicKey) : AuctionCall unit.

Definition auction_method {R} (c : AuctionCall R) : rstring :=
  str match c with
  | CallGetEraValidators => "get_era_validators"
  | CallAddBid _ _ _ => "add_bid"
  | CallWithdrawBid _ _ => "withdraw_bid"
  | CallDelegate _ _ _ => "delegate"
  | CallUndelegate _ _ _ => "undelegate"
  | CallRedelegate _ _ _ _ => "redelegate"
  | CallRunAuction _ _ => "run_auction"
  | CallSlash _ => "slash"
  | CallDistribute _ => "distribute"
  | CallReadEraId => "read_era_id"
  | CallActivateBid _ => "activate_bid"
  end.

(** No argument is or has an [URef]. *)
Definition auction_args {R} (c : AuctionCall R) : CallArgs :=
  MkCallArgs match c with
  | CallGetEraValidators | CallReadEraId => []
  | CallAddBid _ _ _ => [(str "public_key", CLType.PublicKey); (str "delegation_rate", CLType.U8); (str "amount", CLType.U512)]
  | CallWithdrawBid _ _ => [(str "public_key", CLType.PublicKey); (str "amount", CLType.U512)]
  | CallDelegate _ _ _ | CallUndelegate _ _ _ =>
      [(str "delegator", CLType.PublicKey); (str "validator", CLType.PublicKey); (str "amount", CLType.U512)]
  | CallRedelegate _ _ _ _ =>
      [(str "delegator", CLType.PublicKey); (str "validator", CLType.PublicKey); (str "amount", CLType.U512);
       (str "new_validator", CLType.PublicKey)]
  | CallRunAuction _ _ =>
      [(str "era_end_timestamp_millis", CLType.U64); (str "evicted_validators", CLType.List CLType.PublicKey)]
  | CallSlash _ => [(str "validator_public_keys", CLType.List CLType.PublicKey)]
  | CallDistribute _ => [(str "reward_factors", CLType.Map CLType.PublicKey CLType.U64)]
  | CallActivateBid _ => [(str "validator_public_key", CLType.PublicKey)]
  end [].

Definition revert_auction {A} (x : AM A) : M A := rt_map_err (fun e => reverter (ApiAuctionError e)) x.

(** The closure of each entry point in [call_host_auction]. *)
Definition auction_entry_point {R} (c : AuctionCall R) : M R :=
  match c in AuctionCall R return M R with
  | CallGetEraValidators =>
      _ ← charge_system_contract_call (cost_get_era_validators auction_costs); revert_auction get_era_validators
  | CallAddBid public_key delegation_rate amount =>
      _ ← charge_system_contract_call (cost_add_bid auction_costs);
      rt_map_err reverter (add_bid public_key delegation_rate amount)
  | CallWithdrawBid public_key amount =>
      _ ← charge_system_contract_call (cost_withdraw_bid auction_costs); revert_auction (withdraw_bid public_key amount)
  | CallDelegate delegator validator amount =>
      _ ← charge_system_contract_call (cost_delegate auction_costs);
      rt_map_err reverter (delegate delegator validator amount minimum_delegation_amount)
  | CallUndelegate delegator validator amount =>
      _ ← charge_system_contract_call (cost_undelegate auction_costs);
      revert_auction (undelegate delegator validator amount)
  | CallRedelegate delegator validator amount new_validator =>
      _ ← charge_system_contract_call (cost_undelegate auction_costs);
      revert_auction (redelegate delegator validator amount new_validator minimum_delegation_amount)
  | CallRunAuction era_end_timestamp_millis evicted_validators =>
      _ ← charge_system_contract_call (cost_run_auction auction_costs);
      rt_map_err reverter (run_auction (u64_val era_end_timestamp_millis) evicted_validators)
  | CallSlash validator_public_keys =>
      _ ← charge_system_contract_call (cost_slash auction_costs); revert_auction (slash validator_public_keys)
  | CallDistribute reward_factors =>
      _ ← charge_system_contract_call (cost_distribute auction_costs); revert_auction (distribute reward_factors)
  | CallReadEraId =>
      _ ← charge_system_contract_call (cost_read_era_id auction_costs); revert_auction read_era_id
  | CallActivateBid validator_public_key =>
      _ ← charge_system_contract_call (cost_read_era_id auction_costs); revert_auction (activate_bid validator_public_key)
  end.

Definition call_host_auction {R} (c : AuctionCall R) (access_rights : ContextAccessRights)
    (stack : list CallStackElement) : M R :=
  outer ← gets ctx;
  auction_hash ← get_system_contract AUCTION;
  auction_contract ← get_contract auction_hash;
  let inner := new_from_self outer (KeyHash auction_hash) EntryContract (contract_named_keys auction_contract)
                 access_rights stack in
  '(result, inner) ← in_context inner (auction_entry_point c);
  _ ← charge_gas (default (gas_counter outer) (checked_sub (gas_counter inner) (gas_counter outer)));
  ret ← lift result;
  _ ← set_ctx (with_transfers (transfers inner));
  mret ret.

(** [call_contract] for an entry point of the auction. *)
Definition call_auction {R} (contract_hash : ContractHash) (c : AuctionCall R) : M R :=
  '(context_key, entered) ← enter_contract contract_hash (auction_method c) (auction_args c);
  match entered with
  | Some (access_rights, stack) =>
      is_mint ← is_contract_named MINT context_key;
      is_handle_payment ← is_contract_named HANDLE_PAYMENT context_key;
      is_auction ← is_contract_named AUCTION context_key;
      if negb is_mint && negb is_handle_payment && is_auction then call_host_auction c access_rights stack
      else wasm_call R context_key (auction_method c)
  | None => wasm_call R context_key (auction_method c)
  end.

End Auction.
