(* ===== verification/MintLedger.v ===== *)
(** * The mint as a ledger

    What the mint promises: a ledger of balances by purse and a total supply,
    and for each entry point the effect that its result stands for.  The theorem of this
    file is that the entry points of [Mint], which work on typed values in the
    global state, have exactly these effects, and that a call that fails has none. *)

From S2P Require Import Prelude Bytesrepr Hashing KeyTypes Values PublicKeys Account Contracts SystemErrors AuctionData StoredValue Transform TrackingCopy TrackingSim RuntimeContext RuntimeConfine Mint SystemCalls.
Local Open Scope Z_scope.

(** ** Ledgers *)

Record Ledger := MkLedger { balances : gmap URefAddr Z; supply : Z }.

Definition credit (a : URefAddr) (amount : Z) (b : gmap URefAddr Z) : gmap URefAddr Z :=
  match b !! a with Some z => <[a := z + amount]> b | None => b end.

(** The tokens in all purses. *)
Definition total (b : gmap URefAddr Z) : Z := map_fold (fun _ z acc => z + acc) 0 b.

Lemma total_empty : total ∅ = 0.
Proof. apply map_fold_empty. Qed.
Lemma total_insert_new b a z : b !! a = None -> total (<[a := z]> b) = z + total b.
Proof. intros Ha. unfold total. rewrite map_fold_insert_L; [done|intros; lia|done]. Qed.
Lemma total_insert b a z : total (<[a := z]> b) = total b - default 0 (b !! a) + z.
Proof.
  destruct (b !! a) as [z0|] eqn:Ea; cbn; [|rewrite total_insert_new by done; lia].
  rewrite <- (insert_delete_eq b a z), total_insert_new by apply lookup_delete_eq.
  rewrite <- (insert_delete_id b a z0) at 2 by done. rewrite total_insert_new by apply lookup_delete_eq. lia.
Qed.
Lemma total_credit b a amount : is_Some (b !! a) -> total (credit a amount b) = total b + amount.
Proof. intros [z Ea]. unfold credit. rewrite Ea, total_insert, Ea. cbn. lia. Qed.

Lemma total_bound b a z : map_Forall (fun _ z => 0 <= z) b -> b !! a = Some z -> z <= total b.
Proof.
  intros Hb Ea. rewrite <- (insert_delete_id b a z) by done. rewrite total_insert_new by apply lookup_delete_eq.
  assert (0 <= total (delete a b)); [|lia]. apply (map_Forall_delete _ _ a) in Hb. revert Hb.
  generalize (delete a b). intros b'. induction b' as [|i x m Hi IH] using map_ind; intros Hb.
  - by rewrite total_empty.
  - rewrite total_insert_new by done. apply map_Forall_insert in Hb as [? ?%IH]; [|done]. cbn in *. lia.
Qed.

(** The effect of a call, as its result tells. *)
Definition ledger_effect {R} (c : MintCall R) : R -> Ledger -> Ledger :=
  match c with
  | CallMint amount => fun r l =>
      match r with
      | inl uref => MkLedger (<[addr uref := amount]> (balances l)) (supply l + amount)
      | inr _ => l
      end
  | CallReduceTotalSupply amount => fun r l =>
      match r with inl _ => MkLedger (balances l) (supply l - amount) | inr _ => l end
  | CallCreate => fun uref l => MkLedger (<[addr uref := 0]> (balances l)) (supply l)
  | CallTransfer _ source target amount _ => fun r l =>
      match r with
      | inl _ => MkLedger (credit (addr target) amount (credit (addr source) (- amount) (balances l))) (supply l)
      | inr _ => l
      end
  | CallMintIntoExistingPurse purse amount => fun r l =>
      match r with
      | inl _ => MkLedger (credit (addr purse) amount (balances l)) (supply l + amount)
      | inr _ => l
      end
  | CallBalance _ | CallReadBaseRoundReward => fun _ l => l
  end.

(** What a result says about the ledger before the call and about who called: [sys] is whether it is the
    system account, [limit] what the caller may spend from the purse [main]. *)
Definition ledger_guard (sys : bool) (main : URefAddr) (limit : Z) {R} (c : MintCall R) : R -> Ledger -> Prop :=
  match c with
  | CallMint amount => fun r l =>
      match r with inl uref => balances l !! addr uref = None /\ (amount <> 0 -> sys = true) | inr _ => True end
  | CallReduceTotalSupply amount => fun r l =>
      match r with inl _ => sys = true /\ amount <= supply l | inr _ => True end
  | CallCreate => fun uref l => balances l !! addr uref = None
  | CallBalance purse => fun r l => r = balances l !! addr purse /\ is_Some r
  | CallTransfer _ source target amount _ => fun r l =>
      match r with
      | inl _ => (exists z, balances l !! addr source = Some z /\ amount <= z) /\
                 is_Some (balances l !! addr target) /\ URef_is_writeable source = true /\
                 (addr source = main -> amount <= limit)
      | inr _ => True
      end
  | CallReadBaseRoundReward => fun _ _ => True
  | CallMintIntoExistingPurse purse amount => fun r l =>
      match r with
      | inl _ => sys = true /\ (amount <> 0 -> is_Some (balances l !! addr purse))
      | inr _ => True
      end
  end.

(** Tokens that a call creates and that it takes out of the total supply. *)
Definition minted {R} (c : MintCall R) : R -> Z :=
  match c with
  | CallMint amount => fun r => match r with inl _ => amount | inr _ => 0 end
  | CallMintIntoExistingPurse _ amount => fun r => match r with inl _ => amount | inr _ => 0 end
  | _ => fun _ => 0
  end.
Definition burned {R} (c : MintCall R) : R -> Z :=
  match c with
  | CallReduceTotalSupply amount => fun r => match r with inl _ => amount | inr _ => 0 end
  | _ => fun _ => 0
  end.

(** What a call brings into being, at most. *)
Definition call_amount {R} (c : MintCall R) : Z :=
  match c with CallMint amount | CallMintIntoExistingPurse _ amount => amount | _ => 0 end.

Definition arg_amount {R} (c : MintCall R) : Z :=
  match c with
  | CallMint amount | CallReduceTotalSupply amount | CallTransfer _ _ _ amount _
  | CallMintIntoExistingPurse _ amount => amount
  | _ => 0
  end.

Lemma credit_zero a b : credit a 0 b = b.
Proof.
  unfold credit. destruct (b !! a) as [z|] eqn:Ea; [|done]. rewrite Z.add_0_r. by apply insert_id.
Qed.
Lemma credit_lookup_ne a amount b x : x <> a -> credit a amount b !! x = b !! x.
Proof. intros ?. unfold credit. destruct (b !! a); [|done]. by rewrite lookup_insert_ne. Qed.
Lemma credit_lookup a amount b : credit a amount b !! a = (fun z => z + amount) <$> b !! a.
Proof. unfold credit. destruct (b !! a) eqn:Ea; [|by rewrite Ea]. by rewrite lookup_insert_eq. Qed.

(** The books of a call balance. *)
Lemma effect_books {R} (c : MintCall R) r l sys main limit : ledger_guard sys main limit c r l ->
  total (balances (ledger_effect c r l)) = total (balances l) + minted c r /\
  supply (ledger_effect c r l) = supply l + minted c r - burned c r /\
  (minted c r <> 0 \/ burned c r <> 0 -> sys = true).
Proof.
  destruct c; cbn [ledger_effect minted burned ledger_guard]; try (repeat case_match; cbn; intros; lia).
  - destruct r as [u|]; cbn; [|intros; lia]. intros [Hf Hs]. rewrite total_insert_new by done.
    split_and!; [lia..|]. intros [?|?]; [auto|lia].
  - destruct r; cbn; [|intros; lia]. intros [Hs _]. split_and!; [lia|lia|done].
  - cbn. intros Hf. rewrite total_insert_new by done. lia.
  - destruct r; cbn; [|intros; lia]. intros ((z & Es & _) & [zt Et] & _).
    assert (is_Some (credit (addr source) (- amount) (balances l) !! addr target)).
    { destruct (decide (addr target = addr source)) as [->|Hne].
      - rewrite credit_lookup, Es. by eexists.
      - rewrite credit_lookup_ne by done. by eexists. }
    rewrite !total_credit by (done || by eexists). lia.
  - destruct r; cbn; [|intros; lia]. intros [Hs Hp]. split_and!; [|lia|done].
    destruct (Z.eq_dec amount 0) as [->|Hz]; [rewrite credit_zero; lia|]. rewrite total_credit by auto. lia.
Qed.

Section MintLedger.
Context `{KeyCrates} `{Blake2b} `{AddressRng} `{EngineConfig} `{RationalCrate} `{!WasmCalls}.

Abbreviation M := (RT RuntimeState ExecError).
Abbreviation MM := (RT RuntimeState MintError).

(** ** The ledger in the global state *)

Record represents (ts : URefAddr) (m : gmap Key StoredValue) (l : Ledger) : Prop := {
  rep_balances a : int_value <$> m !! Balance a = (fun z => Some (TU512, z)) <$> balances l !! a;
  rep_supply : m !! KeyURef (MkURef ts NONE) ≫= int_value = Some (TU512, supply l);
}.

Definition u512_stored (z : Z) : StoredValue := stored_int TU512 z.

Lemma represents_balance ts m l a z : in_int TU512 z -> represents ts m l ->
  represents ts (<[Balance a := u512_stored z]> m) (MkLedger (<[a := z]> (balances l)) (supply l)).
Proof.
  intros Hz [Rb Rs]. split; cbn [balances supply].
  - intros a'. destruct (decide (a = a')) as [<-|Hne].
    + rewrite !lookup_insert_eq. cbn. f_equal. by apply int_value_stored.
    + rewrite !lookup_insert_ne by congruence. apply Rb.
  - by rewrite lookup_insert_ne.
Qed.

Lemma represents_supply ts m l s : in_int TU512 s -> represents ts m l ->
  represents ts (<[KeyURef (MkURef ts NONE) := u512_stored s]> m) (MkLedger (balances l) s).
Proof.
  intros Hz [Rb Rs]. split; cbn [balances supply].
  - intros a. by rewrite lookup_insert_ne.
  - rewrite lookup_insert_eq. by apply int_value_stored.
Qed.

(** Keys that the ledger does not look at. *)
Lemma represents_other ts m l k v : (forall a, k <> Balance a) -> k <> KeyURef (MkURef ts NONE) ->
  represents ts m l -> represents ts (<[k := v]> m) l.
Proof.
  intros Hb Hu [Rb Rs]. split; [intros a; rewrite lookup_insert_ne by done; apply Rb|by rewrite lookup_insert_ne].
Qed.

Lemma represents_range ts m l : represents ts m l ->
  map_Forall (fun _ z => in_int TU512 z) (balances l) /\ in_int TU512 (supply l).
Proof.
  intros [Rb Rs]. split.
  - intros a z Ea. specialize (Rb a). rewrite Ea in Rb. cbn in Rb. destruct (m !! Balance a) as [v|]; [|done].
    injection Rb as Rb. by apply int_value_range in Rb.
  - apply bind_Some in Rs as (v & _ & Rs). by apply int_value_range in Rs.
Qed.

(** ** Computations step by step *)

Lemma rt_bind_eq {E A B} (x : RT RuntimeState E A) (k : A -> RT RuntimeState E B) st a st' :
  x st = (Ok a, st') -> (x ≫= k) st = k a st'.
Proof. unfold mbind, RT_bind. by intros ->. Qed.
Lemma rt_map_err_eq {E E' A} (f : E -> E') (x : RT RuntimeState E A) st a st' :
  x st = (Ok a, st') -> rt_map_err f x st = (Ok a, st').
Proof. unfold rt_map_err. by intros ->. Qed.
Lemma rt_try_eq {E E' A} (x : RT RuntimeState E A) st a st' :
  x st = (Ok a, st') -> rt_try (E':=E') x st = (Ok (inl a), st').
Proof. unfold rt_try. by intros ->. Qed.

Definition upd (k : Key) (v : StoredValue) (st : RuntimeState) : RuntimeState :=
  set_gs (<[k := v]> (gs (world st))) st.

Lemma gs_read_eq {E} k st : gs_read (E:=E) k st = (Ok (gs (world st) !! normalize k), st).
Proof. unfold gs_read, gs_step. cbv [mbind RT_bind]. cbn. by rewrite set_gs_same. Qed.
Lemma gs_write_eq {E} k v st : gs_write (E:=E) k v st = (Ok tt, upd (normalize k) v st).
Proof. done. Qed.

(** ** Inside the mint *)

(** The registry names [h] as the mint. *)
Definition mint_registered (h : ContractHash) (m : gmap Key StoredValue) : Prop :=
  exists v (r : btree_map rstring ContractHash), m !! KeyTypes.SystemContractRegistry = Some (StoredCLValue v) /\
    into_t v = Ok r /\ btree_get MINT (entries r) = Some h.

Lemma get_system_contracts_eq st v (r : btree_map rstring ContractHash) :
  gs (world st) !! KeyTypes.SystemContractRegistry = Some (StoredCLValue v) -> into_t v = Ok r ->
  get_system_contracts st = (Ok r, st).
Proof.
  intros Ev Er. unfold get_system_contracts. erewrite rt_bind_eq by apply gs_read_eq. cbn [normalize].
  rewrite Ev. apply rt_map_err_eq. unfold lift. by rewrite Er.
Qed.

Lemma get_mint_eq h st : mint_registered h (gs (world st)) -> get_system_contract MINT st = (Ok h, st).
Proof.
  intros (v & r & Ev & Er & Eh). unfold get_system_contract, system_contract_registry.
  erewrite rt_bind_eq by (eapply rt_map_err_eq, get_system_contracts_eq; done).
  unfold rt_ok_or. by rewrite Eh.
Qed.

Lemma btree_get_existsb (r : list (rstring * ContractHash)) name h :
  btree_get name r = Some h -> existsb (fun e => bool_decide (e.2 = h)) r = true.
Proof.
  induction r as [|[k v] r IH]; cbn; [done|]. destruct (ord_cmp name k); [|done|].
  - intros [= ->]. by rewrite bool_decide_eq_true_2.
  - intros E%IH. by rewrite E, orb_true_r.
Qed.

Lemma mint_is_system h st : mint_registered h (gs (world st)) -> is_system_contract h st = (Ok true, st).
Proof.
  intros (v & r & Ev & Er & Eh). unfold is_system_contract, system_contract_registry.
  erewrite rt_bind_eq by (eapply rt_map_err_eq, get_system_contracts_eq; done).
  unfold has_contract_hash. by rewrite (btree_get_existsb _ _ _ Eh).
Qed.

Record in_mint (h : ContractHash) (ts : URef) (st : RuntimeState) : Prop := {
  im_base : base_key (ctx st) = KeyHash h;
  im_registered : mint_registered h (gs (world st));
  im_key : btree_get TOTAL_SUPPLY_KEY (entries (named_keys (ctx st))) = Some (KeyURef ts);
  im_rights : has_access_rights_to_uref (rights (ctx st)) ts = true;
  im_usable : URef_is_readable ts = true /\ URef_is_writeable ts = true /\ URef_is_addable ts = true;
}.

Lemma charge_free h ts n st : in_mint h ts st -> charge_gas_storage n st = (Ok tt, st).
Proof.
  intros I. unfold charge_gas_storage. erewrite rt_bind_eq by done. rewrite (im_base _ _ _ I). cbn [into_hash].
  erewrite rt_bind_eq; [|by apply mint_is_system; apply I]. done.
Qed.

Lemma write_free h ts k v st : in_mint h ts st ->
  metered_write_gs_unsafe k v st = (Ok tt, upd (normalize k) v st).
Proof.
  intros I. unfold metered_write_gs_unsafe. by erewrite rt_bind_eq by (by eapply charge_free).
Qed.

Lemma addition_of_u512 z : in_int TU512 z -> addition_of (u512_stored z) = Ok (AddUInt512 z).
Proof.
  intros Hz. unfold u512_stored. destruct (from_t_int TU512 z Hz) as (v & E & _ & Et & Ei).
  unfold stored_int. rewrite E. unfold addition_of. rewrite Et.
  change (cl_type_of (int TU512)) with CLType.U512. cbv beta iota. by rewrite Ei.
Qed.

Lemma add_free h ts k cur x z st : in_mint h ts st -> in_int TU512 z -> in_int TU512 (x + z) ->
  gs (world st) !! normalize k = Some cur -> int_value cur = Some (TU512, x) ->
  metered_add_gs_unsafe k (u512_stored z) st = (Ok tt, upd (normalize k) (u512_stored (x + z)) st).
Proof.
  intros I Hz Hs Ec Ex. unfold metered_add_gs_unsafe. erewrite rt_bind_eq by (by eapply charge_free).
  erewrite rt_bind_eq; [|unfold gs_step; cbn [map_step]; rewrite Ec, addition_of_u512 by done; cbn [apply];
    rewrite (wrapping_addition_int _ _ TU512 x) by done; reflexivity].
  rewrite cast_id by done. done.
Qed.

(** *** Values and balances *)

Lemma int_value_into w z : int_value w = Some (TU512, z) ->
  exists v, w = StoredCLValue v /\ into_t (A:=int TU512) v = Ok (MkInt z).
Proof.
  unfold int_value. destruct w as [v| | | | | | | | | |]; try done.
  destruct (int_type_of (cl_type v)) as [X|]; [|done].
  destruct (into_t (A:=int X) v) as [[x]| | |] eqn:E; try done. intros [= -> <-]. eauto.
Qed.

Lemma mint_cl_value_eq z st : in_int TU512 z -> exists v,
  mint_cl_value (MkInt z : int TU512) st = (Ok v, st) /\ StoredCLValue v = u512_stored z /\ cl_type v = CLType.U512.
Proof.
  intros Hz. destruct (from_t_int TU512 z Hz) as (v & E & _ & Et & _). exists v. split_and!.
  - apply rt_map_err_eq. unfold lift. by rewrite E.
  - unfold u512_stored, stored_int. by rewrite E.
  - done.
Qed.

Lemma mint_read_value_eq w z st : int_value w = Some (TU512, z) ->
  mint_read_value (A:=int TU512) (Some w) st = (Ok (Some (MkInt z)), st).
Proof.
  intros (v & -> & Ei)%int_value_into. unfold mint_read_value.
  erewrite rt_bind_eq; [reflexivity|]. apply rt_map_err_eq. unfold lift. by rewrite Ei.
Qed.

Lemma read_balance_eq ts l u st : represents ts (gs (world st)) l ->
  read_balance u st = (Ok (balances l !! addr u), st).
Proof.
  intros [Rb _]. specialize (Rb (addr u)). unfold read_balance.
  erewrite rt_bind_eq; [|apply rt_map_err_eq, gs_read_eq]. cbn [normalize].
  destruct (gs (world st) !! Balance (addr u)) as [w|], (balances l !! addr u) as [z|]; try done.
  injection Rb as Rb. by erewrite rt_bind_eq by (by apply mint_read_value_eq).
Qed.

Lemma write_balance_eq h ts u z st : in_mint h ts st -> in_int TU512 z ->
  write_balance u z st = (Ok tt, upd (Balance (addr u)) (u512_stored z) st).
Proof.
  intros I Hz. destruct (mint_cl_value_eq z st Hz) as (v & E & Ev & _). unfold write_balance.
  erewrite rt_bind_eq by done. rewrite Ev. apply rt_map_err_eq. by eapply write_free.
Qed.

Lemma add_balance_eq h ts ta l u z b st : in_mint h ts st -> represents ta (gs (world st)) l ->
  in_int TU512 z -> balances l !! addr u = Some b -> in_int TU512 (b + z) ->
  add_balance u z st = (Ok tt, upd (Balance (addr u)) (u512_stored (b + z)) st).
Proof.
  intros I [Rb _] Hz Eb Hs. specialize (Rb (addr u)). rewrite Eb in Rb.
  destruct (gs (world st) !! Balance (addr u)) as [w|] eqn:Ew; [|done]. injection Rb as Rb.
  destruct (mint_cl_value_eq z st Hz) as (v & E & Ev & _). unfold add_balance.
  erewrite rt_bind_eq by done. rewrite Ev. apply rt_map_err_eq. by eapply (add_free _ _ (Balance (addr u))).
Qed.

(** *** The total supply *)

Lemma check_eq f st : f (ctx st) = Ok tt -> check f st = (Ok tt, st).
Proof. intros E. unfold check. erewrite rt_bind_eq by done. unfold lift. by rewrite E. Qed.

Lemma validate_key_eq h ts st : in_mint h ts st -> validate_key (ctx st) (KeyURef ts) = Ok tt.
Proof. intros I. cbn. unfold validate_uref. by rewrite (im_rights _ _ _ I). Qed.

Lemma validate_u512 c v z : StoredCLValue v = u512_stored z -> cl_type v = CLType.U512 ->
  validate_value c (u512_stored z) = Ok tt.
Proof. intros <- Et. cbn. unfold validate_cl_value. by rewrite Et. Qed.

Lemma mint_add_eq h ts l z st : in_mint h ts st -> represents (addr ts) (gs (world st)) l ->
  in_int TU512 z -> in_int TU512 (supply l + z) ->
  mint_add ts z st = (Ok tt, upd (KeyURef (MkURef (addr ts) NONE)) (u512_stored (supply l + z)) st).
Proof.
  intros I [_ Rs] Hz Hs. apply bind_Some in Rs as (w & Ew & Rs).
  destruct (mint_cl_value_eq z st Hz) as (v & E & Ev & Et). unfold mint_add, metered_add_gs.
  erewrite rt_bind_eq by done. rewrite Ev. apply rt_map_err_eq.
  erewrite rt_bind_eq. 2: { apply check_eq. unfold validate_addable. cbn.
    by rewrite (proj2 (proj2 (im_usable _ _ _ I))). }
  erewrite rt_bind_eq by (by eapply check_eq, validate_key_eq).
  erewrite rt_bind_eq by (by eapply check_eq, validate_u512).
  by eapply (add_free _ _ (KeyURef ts)).
Qed.

Lemma mint_write_eq h ts z st : in_mint h ts st -> in_int TU512 z ->
  mint_write ts z st = (Ok tt, upd (KeyURef (MkURef (addr ts) NONE)) (u512_stored z) st).
Proof.
  intros I Hz. destruct (mint_cl_value_eq z st Hz) as (v & E & Ev & Et). unfold mint_write, metered_write_gs.
  erewrite rt_bind_eq by done. rewrite Ev. apply rt_map_err_eq.
  erewrite rt_bind_eq. 2: { apply check_eq. unfold validate_writeable. cbn.
    by rewrite (proj1 (proj2 (im_usable _ _ _ I))). }
  erewrite rt_bind_eq by (by eapply check_eq, validate_key_eq).
  erewrite rt_bind_eq by (by eapply check_eq, validate_u512).
  by eapply write_free.
Qed.

Lemma mint_read_eq h ts l st : in_mint h ts st -> represents (addr ts) (gs (world st)) l ->
  mint_read (A:=int TU512) ts st = (Ok (Some (MkInt (supply l))), st).
Proof.
  intros I [_ Rs]. apply bind_Some in Rs as (w & Ew & Rs). unfold mint_read, read_gs.
  erewrite rt_bind_eq.
  2: { apply rt_map_err_eq.
    erewrite rt_bind_eq. 2: { apply check_eq. unfold validate_readable. cbn.
      by rewrite (proj1 (im_usable _ _ _ I)). }
    erewrite rt_bind_eq by (by eapply check_eq, validate_key_eq).
    erewrite rt_bind_eq by apply gs_read_eq. cbn [normalize]. unfold remove_access_rights. rewrite Ew.
    erewrite rt_bind_eq by done. reflexivity. }
  by apply mint_read_value_eq.
Qed.

(** *** What the mint touches *)

Definition mint_key (ts : URefAddr) (fresh : list (array 32)) (k : Key) : Prop :=
  match k with
  | Balance _ | Transfer _ => True
  | KeyURef u => u = MkURef ts NONE \/ exists a, a ∈ fresh /\ u = MkURef a NONE
  | _ => False
  end.

(** [n] addresses are drawn, the rest of the world changes at keys of the mint only. *)
Record mint_frame (ts : URefAddr) (n : nat) (st st' : RuntimeState) : Prop := {
  mf_generator : address_generator (world st') = (draws n (address_generator (world st))).2;
  mf_depth : host_function_depth (world st') = host_function_depth (world st);
  mf_keys k : gs (world st') !! k <> gs (world st) !! k ->
    mint_key ts (draws n (address_generator (world st))).1 k;
}.

Lemma mint_key_app ts f1 f2 k : mint_key ts f1 k \/ mint_key ts f2 k -> mint_key ts (f1 ++ f2) k.
Proof. destruct k; cbn; try tauto. intros [[?|(a & ? & ?)]|[?|(a & ? & ?)]]; [auto| |auto|]; right; exists a; set_solver. Qed.

Lemma mint_frame_refl ts st : mint_frame ts 0 st st.
Proof. done. Qed.

Lemma mint_frame_trans ts n m st1 st2 st3 : mint_frame ts n st1 st2 -> mint_frame ts m st2 st3 ->
  mint_frame ts (n + m) st1 st3.
Proof.
  intros [G1 D1 K1] [G2 D2 K2]. rewrite G1 in G2, K2. split; rewrite ?draws_add; cbn [fst snd]; [done|congruence|].
  intros k Hk. apply mint_key_app. destruct (decide (gs (world st2) !! k = gs (world st1) !! k)) as [E|E]; [|auto].
  right. apply K2. by rewrite E.
Qed.

Lemma mint_frame_upd ts k v st : mint_key ts [] k -> mint_frame ts 0 st (upd k v st).
Proof.
  intros Hk. split; cbn; [done|done|]. intros k' Hk'. destruct (decide (k = k')) as [<-|?]; [done|].
  by rewrite lookup_insert_ne in Hk'.
Qed.

Lemma in_mint_upd h ts k v st : k <> KeyTypes.SystemContractRegistry -> in_mint h ts st -> in_mint h ts (upd k v st).
Proof.
  intros Hk [B (w & r & E & R) K R' U]. split; try done. exists w, r. split; [|done]. cbn. by rewrite lookup_insert_ne.
Qed.

Lemma has_access_extend r u u' : has_access_rights_to_uref r u = true ->
  has_access_rights_to_uref (extend r [u']) u = true.
Proof.
  unfold has_access_rights_to_uref, extend, do_extend. cbn [rights_table foldl]. unfold extend_one.
  destruct (rights_table r !! addr u) as [known|] eqn:E; [|done]. rewrite contains_spec. intros Hc.
  destruct (decide (addr u' = addr u)) as [Ea|Ea].
  - rewrite Ea, E, lookup_insert_eq, contains_spec. intros n Hn%Hc. unfold has_bit, union in *. cbn [bits].
    by rewrite Z.lor_spec, Hn.
  - assert (contains known (access_rights u) = true) by by apply contains_spec.
    destruct (rights_table r !! addr u'); by rewrite lookup_insert_ne, E.
Qed.

Lemma has_access_extended r u : has_access_rights_to_uref (extend r [u]) u = true.
Proof.
  unfold has_access_rights_to_uref, extend, do_extend. cbn [rights_table foldl]. unfold extend_one.
  destruct (rights_table r !! addr u) as [known|]; rewrite lookup_insert_eq, contains_spec; [|done].
  intros n Hn. unfold has_bit, union in *. cbn [bits]. by rewrite Z.lor_spec, Hn, orb_true_r.
Qed.

(** The state after an address was drawn and given to the context. *)
Definition drawn (a : array 32) (g : rng) (st : RuntimeState) : RuntimeState :=
  MkRuntime (MkWorld (gs (world st)) g (host_function_depth (world st)))
    (with_rights (extend (rights (ctx st)) [MkURef a READ_ADD_WRITE]) (ctx st)).

Lemma in_mint_drawn h ts a g st : in_mint h ts st -> in_mint h ts (drawn a g st).
Proof. intros [B G K R U]. split; try done. by apply has_access_extend. Qed.

Lemma mint_frame_drawn ts st a g v : fill_bytes (address_generator (world st)) = (a, g) ->
  mint_frame ts 1 st (upd (KeyURef (MkURef a NONE)) v (drawn a g st)).
Proof.
  intros Ef. split; cbn; rewrite ?Ef; cbn; [done|done|]. intros k Hk.
  destruct (decide (KeyURef (MkURef a NONE) = k)) as [<-|?]; [|by rewrite lookup_insert_ne in Hk].
  right. exists a. split; [by left|done].
Qed.

Lemma mint_new_uref_eq h ts st a g : in_mint h ts st -> fill_bytes (address_generator (world st)) = (a, g) ->
  exists v, mint_new_uref tt st =
    (Ok (MkURef a READ_ADD_WRITE), upd (KeyURef (MkURef a NONE)) v (drawn a g st)).
Proof.
  intros I Ef. exists (StoredCLValue (MkCLValue CLType.Unit (MkBytes []))). unfold mint_new_uref.
  erewrite rt_bind_eq by done. apply rt_map_err_eq. unfold new_uref.
  rewrite (rt_bind_eq _ _ st a (MkRuntime (MkWorld (gs (world st)) g (host_function_depth (world st))) (ctx st)))
    by (unfold create_address; by rewrite Ef).
  rewrite (rt_bind_eq (insert_uref _) _ _ tt (drawn a g st)) by done.
  erewrite rt_bind_eq; [reflexivity|]. unfold metered_write_gs.
  erewrite rt_bind_eq by (by apply check_eq).
  erewrite rt_bind_eq.
  2: { apply check_eq. cbn. unfold validate_uref. cbn [rights with_rights]. by rewrite has_access_extended. }
  erewrite rt_bind_eq by (by apply check_eq). by erewrite write_free by (by apply in_mint_drawn).
Qed.

(** ** The entry points *)

Definition caller_is_system (c : Context) : bool := bool_decide (account_hash (account c) = system_account).
Definition limit_of (st : RuntimeState) : Z := remaining_spending_limit (ctx st).

(** The addresses a call draws, at most: for a new purse and for the record of a transfer. *)
Definition call_draws {R} (c : MintCall R) : nat :=
  match c with CallMint _ | CallCreate | CallTransfer _ _ _ _ _ => 1 | _ => 0 end.

(** [x] has the effect that its result stands for, and none if it fails; it draws [k] addresses at most. *)
Definition has_effect {E A} (k : nat) (ts : URefAddr) (l : Ledger) (st : RuntimeState) (x : RT RuntimeState E A)
    (eff : A -> Ledger) (guard : A -> Prop) (spent : A -> Z) (new : A -> list URef) : Prop :=
  let '(r, st') := x st in
  exists n, (n <= k)%nat /\ mint_frame ts n st st' /\
  match r with
  | Ok a => represents ts (gs (world st')) (eff a) /\ guard a /\ limit_of st' = limit_of st - spent a /\
      forall u, u ∈ new a -> addr u ∈ (draws n (address_generator (world st))).1
  | Err _ => represents ts (gs (world st')) l /\ limit_of st' = limit_of st
  | _ => False
  end.

(** What a call takes from the spending limit of [main]. *)
Definition spends {R} (main : URefAddr) (c : MintCall R) : R -> Z :=
  match c with
  | CallTransfer _ source _ amount _ => fun r =>
      match r with inl _ => if decide (main = addr source) then amount else 0 | inr _ => 0 end
  | _ => fun _ => 0
  end.

(** Effect and guard of an entry point that answers [x]'s result. *)
Definition call_effect {R A} (ts : URefAddr) (l : Ledger) (st : RuntimeState) (c : MintCall R) (answer : A -> R)
    {E} (x : RT RuntimeState E A) : Prop :=
  let main := addr (main_purse (account (ctx st))) in
  has_effect (call_draws c) ts l st x (fun a => ledger_effect c (answer a) l)
    (fun a => ledger_guard (caller_is_system (ctx st)) main (limit_of st) c (answer a) l)
    (fun a => spends main c (answer a)) (fun a => ret_urefs c (answer a)).

Lemma has_effect_throw {E A} k ts l st e eff guard spent new :
  represents ts (gs (world st)) l -> has_effect k ts l st (throw e : RT RuntimeState E A) eff guard spent new.
Proof. intros R. exists 0%nat. split_and!; [lia|apply mint_frame_refl|done|done]. Qed.

(** Nothing happened. *)
Lemma has_effect_ret {E A} k ts l st a (eff : A -> Ledger) (guard : A -> Prop) spent new :
  represents ts (gs (world st)) (eff a) -> guard a -> spent a = 0 -> new a = [] ->
  has_effect k ts l st (mret a : RT RuntimeState E A) eff guard spent new.
Proof.
  intros R G Hs Hn. exists 0%nat. split_and!; [lia|apply mint_frame_refl|done|done|lia|].
  rewrite Hn. set_solver.
Qed.

(** The conditions under which the mint runs. *)
Record mint_ready (h : ContractHash) (ts : URef) (l : Ledger) (st : RuntimeState) : Prop := {
  mr_in : in_mint h ts st;
  mr_rep : represents (addr ts) (gs (world st)) l;
  mr_total : in_int TU512 (total (balances l));
  mr_fresh : forall a g, fill_bytes (address_generator (world st)) = (a, g) ->
    balances l !! a = None /\ a <> addr ts;
}.

Lemma balance_range ts m l a z : represents ts m l -> balances l !! a = Some z -> in_int TU512 z.
Proof. intros R Ea. by apply (proj1 (represents_range _ _ _ R) a z). Qed.

Lemma mint_effect h ts l st amount : mint_ready h ts l st -> in_int TU512 amount ->
  (caller_is_system (ctx st) = true -> in_int TU512 (supply l + amount)) ->
  call_effect (addr ts) l st (CallMint amount) inl (mint amount).
Proof.
  intros [I R _ F] Ha Hs. unfold mint, call_effect, has_effect. erewrite rt_bind_eq by done. cbv zeta.
  destruct (negb (amount =? 0) && bool_decide _) eqn:Eg.
  { exists 0%nat. split_and!; [lia|apply mint_frame_refl|done|done]. }
  destruct (fill_bytes (address_generator (world st))) as [a g] eqn:Ef. destruct (F a g eq_refl) as [Fa Ft].
  destruct (mint_new_uref_eq h ts st a g I Ef) as (v & En). rewrite (rt_bind_eq _ _ _ _ _ En).
  set (st1 := upd (KeyURef (MkURef a NONE)) v (drawn a g st)).
  assert (in_mint h ts st1) as I1 by (by apply in_mint_upd, in_mint_drawn).
  assert (represents (addr ts) (gs (world st1)) l) as R1 by (apply represents_other; [done|congruence|done]).
  pose proof (mint_frame_drawn (addr ts) st a g v Ef) as F1. fold st1 in F1.
  rewrite (rt_bind_eq _ _ _ _ _ (write_balance_eq h ts _ amount st1 I1 Ha)). cbn [addr].
  set (st2 := upd (Balance a) (u512_stored amount) st1).
  assert (in_mint h ts st2) as I2 by (by apply in_mint_upd).
  pose proof (represents_balance _ _ _ a amount Ha R1) as R2.
  assert (mint_frame (addr ts) 1 st st2) as F2 by (by eapply (mint_frame_trans _ 1 0), mint_frame_upd).
  assert (forall u, u ∈ [MkURef a READ_ADD_WRITE] -> addr u ∈ (draws 1 (address_generator (world st))).1) as Hn.
  { intros u ->%list_elem_of_singleton. cbn. rewrite Ef. by left. }
  destruct (amount =? 0) eqn:Ez; cbn [negb andb] in *.
  - apply Z.eqb_eq in Ez. exists 1%nat. cbn [ledger_effect ledger_guard addr call_draws]. subst amount. rewrite Z.add_0_r.
    split_and!; [lia|exact F2|exact R2|done|done|unfold limit_of; cbn; lia|done].
  - apply bool_decide_eq_false, dec_stable in Eg. apply Z.eqb_neq in Ez.
    assert (caller_is_system (ctx st) = true) as Ec by (by apply bool_decide_eq_true). specialize (Hs Ec).
    rewrite (rt_bind_eq _ _ st2 tt (upd (KeyURef (MkURef (addr ts) NONE)) (u512_stored (supply l + amount)) st2)).
    2: { erewrite rt_bind_eq by (unfold get_key, gets; by rewrite (im_key _ _ _ I2)).
      by apply (mint_add_eq h ts (MkLedger (<[a:=amount]> (balances l)) (supply l))). }
    exists 1%nat. cbn [ledger_effect ledger_guard addr call_draws]. split_and!; [lia| | | | |unfold limit_of; cbn; lia|done].
    + eapply (mint_frame_trans _ 1 0); [done|]. apply mint_frame_upd. by left.
    + by eapply (represents_supply _ _ (MkLedger _ _)).
    + done.
    + done.
Qed.

(** A computation that changes nothing and does not panic has the effect of its result. *)
Lemma has_effect_inert {E A} k ts l st (x : RT RuntimeState E A) (guard : A -> Prop) :
  represents ts (gs (world st)) l -> inert x ->
  match (x st).1 with Ok a => guard a | Err _ => True | _ => False end ->
  has_effect k ts l st x (fun _ => l) guard (fun _ => 0) (fun _ => []).
Proof.
  intros R I Hx. specialize (I st). unfold has_effect. destruct (x st) as [r st']. cbn in I, Hx. subst.
  exists 0%nat. split; [lia|split; [apply mint_frame_refl|]].
  destruct r; try done. split_and!; [done|done|lia|set_solver].
Qed.

Lemma reduce_effect h ts l st amount : mint_ready h ts l st -> in_int TU512 amount ->
  call_effect (addr ts) l st (CallReduceTotalSupply amount) inl (reduce_total_supply amount).
Proof.
  intros [I R _ _] Ha. destruct (represents_range _ _ _ R) as [_ Hs].
  unfold reduce_total_supply, call_effect, has_effect. erewrite rt_bind_eq by done.
  destruct (bool_decide _) eqn:Eb; [by apply has_effect_throw|]. apply bool_decide_eq_false, dec_stable in Eb.
  assert (caller_is_system (ctx st) = true) as Ec by (by apply bool_decide_eq_true).
  unfold in_int, is_uint in Ha, Hs. cbn in Ha, Hs.
  destruct (Z.eqb_spec amount 0) as [->|Hz].
  { apply has_effect_ret; [|split; [done|lia]|done|done]. cbn. rewrite Z.sub_0_r. by destruct l. }
  erewrite rt_bind_eq by (unfold get_key, gets; by rewrite (im_key _ _ _ I)). cbv beta iota.
  rewrite (rt_bind_eq _ _ _ _ _ (mint_read_eq h ts l st I R)). cbn [int_val].
  erewrite rt_bind_eq by done. unfold checked_sub. cbn [int_val].
  destruct (Z.leb_spec amount (supply l)) as [Hle|]; [|by apply has_effect_throw].
  erewrite rt_bind_eq by done.
  assert (in_int TU512 (supply l - amount)) as Hr by (unfold in_int, is_uint; cbn; lia).
  rewrite (mint_write_eq h ts _ st I Hr). exists 0%nat. cbn [ledger_effect ledger_guard].
  split_and!; [lia| | |done|done|unfold limit_of; cbn; lia|set_solver].
  - apply mint_frame_upd. by left.
  - by apply (represents_supply _ _ l).
Qed.

Lemma mint_into_effect h ts l st purse amount : mint_ready h ts l st -> in_int TU512 amount ->
  (caller_is_system (ctx st) = true ->
   in_int TU512 (supply l + amount) /\ in_int TU512 (total (balances l) + amount)) ->
  call_effect (addr ts) l st (CallMintIntoExistingPurse purse amount) inl (mint_into_existing_purse purse amount).
Proof.
  intros [I R _ _] Ha Hs. destruct (represents_range _ _ _ R) as [Hb _].
  unfold mint_into_existing_purse, call_effect, has_effect. erewrite rt_bind_eq by done.
  destruct (bool_decide _) eqn:Eb; [by apply has_effect_throw|]. apply bool_decide_eq_false, dec_stable in Eb.
  assert (caller_is_system (ctx st) = true) as Ec by (by apply bool_decide_eq_true). destruct (Hs Ec) as [Hs' Ht].
  destruct (Z.eqb_spec amount 0) as [->|Hz].
  { apply has_effect_ret; [|split; [done|lia]|done|done]. cbn. rewrite Z.add_0_r, credit_zero. by destruct l. }
  rewrite (rt_bind_eq _ _ _ _ _ (read_balance_eq _ _ purse st R)).
  destruct (balances l !! addr purse) as [b|] eqn:Ep; [|by apply has_effect_throw].
  assert (in_int TU512 (b + amount)) as Hba.
  { pose proof (Hb _ _ Ep) as Hbb. assert (b <= total (balances l)).
    { eapply total_bound; [|done]. eapply map_Forall_impl; [done|]. intros ? z Hz'. apply Hz'. }
    unfold in_int, is_uint in *. cbn in *. lia. }
  rewrite (rt_bind_eq _ _ _ _ _ (add_balance_eq h ts _ l purse amount b st I R Ha Ep Hba)).
  set (st1 := upd (Balance (addr purse)) (u512_stored (b + amount)) st).
  assert (in_mint h ts st1) as I1 by (by apply in_mint_upd).
  pose proof (represents_balance _ _ _ (addr purse) _ Hba R) as R1.
  erewrite rt_bind_eq by (unfold get_key, gets; by rewrite (im_key _ _ _ I1)). cbv beta iota.
  rewrite (mint_add_eq h ts _ amount st1 I1 R1 Ha) by done.
  exists 0%nat. cbn [ledger_effect ledger_guard supply]. unfold credit. rewrite Ep.
  split_and!; [lia| | |done|by eexists|unfold limit_of; cbn; lia|set_solver].
  - eapply (mint_frame_trans _ 0 0 _ st1); [by apply mint_frame_upd|]. apply mint_frame_upd. by left.
  - by eapply (represents_supply _ _ (MkLedger _ _)).
Qed.

Lemma balance_effect h ts l st purse : mint_ready h ts l st ->
  call_effect (addr ts) l st (CallBalance purse) (fun r => r) (balance purse).
Proof.
  intros [I R _ _]. unfold balance, call_effect, has_effect. rewrite (rt_bind_eq _ _ _ _ _ (read_balance_eq _ _ purse st R)).
  destruct (balances l !! addr purse) as [b|] eqn:Eb; [|by apply has_effect_throw].
  apply has_effect_ret; [done| |done|done]. cbn. split; [by rewrite Eb|by eexists].
Qed.

(** *** Transfers *)

Lemma record_transfer_effect h ts l st to source target amount id : in_mint h ts st ->
  represents (addr ts) (gs (world st)) l ->
  exists n st', record_transfer to source target amount id st = (Ok tt, st') /\ (n <= 1)%nat /\
    mint_frame (addr ts) n st st' /\ represents (addr ts) (gs (world st')) l /\ limit_of st' = limit_of st.
Proof.
  intros I R. unfold record_transfer. erewrite rt_bind_eq by done.
  rewrite (rt_bind_eq _ _ _ _ _ (get_mint_eq h st (im_registered _ _ _ I))).
  rewrite decide_True by apply (im_base _ _ _ I). destruct (decide _).
  2: { exists 0%nat, st. split_and!; [done|lia|apply mint_frame_refl|done|done]. }
  destruct (fill_bytes (address_generator (world st))) as [a g] eqn:Ef.
  unfold new_transfer_addr, create_address. cbv [mbind RT_bind]. rewrite Ef. cbn.
  exists 1%nat. eexists. split; [reflexivity|]. split_and!; [lia| |by apply represents_other|done].
  split; cbn; rewrite ?Ef; cbn; [done|done|]. intros k Hk.
  match type of Hk with <[?k0 := _]> _ !! _ <> _ => destruct (decide (k0 = k)) as [<-|?] end; [done|].
  by rewrite lookup_insert_ne in Hk.
Qed.

Lemma total_two b x y zx zy : map_Forall (fun _ z => 0 <= z) b -> x <> y ->
  b !! x = Some zx -> b !! y = Some zy -> zx + zy <= total b.
Proof.
  intros Hb Hne Ex Ey. rewrite <- (insert_delete_id b x zx) by done.
  rewrite total_insert_new by apply lookup_delete_eq.
  assert (zy <= total (delete x b)); [|lia].
  eapply total_bound; [by apply map_Forall_delete|]. by rewrite lookup_delete_ne.
Qed.

(** The credit fits, as all tokens together do. *)
Lemma credit_fits b source target zs zt amount : map_Forall (fun _ z => in_int TU512 z) b ->
  in_int TU512 (total b) -> b !! source = Some zs -> amount <= zs -> 0 <= amount ->
  <[source := zs - amount]> b !! target = Some zt -> in_int TU512 (zt + amount).
Proof.
  intros Hb Ht Es Hle Ha. assert (map_Forall (fun _ z => 0 <= z) b) as Hp.
  { eapply map_Forall_impl; [done|]. intros ? z Hz. apply Hz. }
  pose proof (Hb _ _ Es) as Hs. unfold in_int, is_uint in *. cbn in *.
  destruct (decide (source = target)) as [<-|Hne].
  - rewrite lookup_insert_eq. intros [= <-]. lia.
  - rewrite lookup_insert_ne by done. intros Et. pose proof (total_two _ _ _ _ _ Hp Hne Es Et).
    pose proof (Hp _ _ Et). cbn in *. lia.
Qed.

(** Moving the tokens, once everything is checked. *)
Lemma move_effect h ts l st to source target amount id zs zt : in_mint h ts st ->
  represents (addr ts) (gs (world st)) l -> in_int TU512 (total (balances l)) -> in_int TU512 amount ->
  balances l !! addr source = Some zs -> amount <= zs -> balances l !! addr target = Some zt ->
  exists n st', (remaining ← lift (plain_sub zs amount); _ ← write_balance source remaining;
    _ ← add_balance target amount;
    rt_map_err (mint_error MintErr.RecordTransferFailure) (record_transfer to source target amount id)) st
    = (Ok tt, st') /\ (n <= 1)%nat /\ mint_frame (addr ts) n st st' /\
    represents (addr ts) (gs (world st'))
      (MkLedger (credit (addr target) amount (credit (addr source) (- amount) (balances l))) (supply l)) /\
    limit_of st' = limit_of st.
Proof.
  intros I R Ht Ha Es Hle Et. destruct (represents_range _ _ _ R) as [Hb _].
  pose proof (Hb _ _ Es) as Hs. assert (0 <= amount) as Hp by apply Ha.
  assert (in_int TU512 (zs - amount)) as Hr by (unfold in_int, is_uint in *; cbn in *; lia).
  assert (exists z, <[addr source := zs - amount]> (balances l) !! addr target = Some z) as [z Ez].
  { destruct (decide (addr source = addr target)) as [<-|?]; [rewrite lookup_insert_eq; eauto|].
    rewrite lookup_insert_ne by done. eauto. }
  pose proof (credit_fits _ _ _ _ _ _ Hb Ht Es Hle Hp Ez) as Hz.
  unfold plain_sub, checked_sub. rewrite (proj2 (Z.leb_le _ _) Hle). erewrite rt_bind_eq by done.
  rewrite (rt_bind_eq _ _ _ _ _ (write_balance_eq h ts source _ st I Hr)).
  set (st1 := upd _ _ _). assert (in_mint h ts st1) as I1 by (by apply in_mint_upd).
  pose proof (represents_balance _ _ _ (addr source) _ Hr R) as R1.
  rewrite (rt_bind_eq _ _ _ _ _ (add_balance_eq h ts _ _ target amount z st1 I1 R1 Ha Ez Hz)).
  set (st2 := upd _ _ st1). assert (in_mint h ts st2) as I2 by (by apply in_mint_upd).
  pose proof (represents_balance _ _ _ (addr target) _ Hz R1) as R2. cbn [balances supply] in R2.
  destruct (record_transfer_effect h ts _ st2 to source target amount id I2 R2) as (n & st3 & E & Hn & F & R3 & L).
  exists n, st3. split_and!; [by apply rt_map_err_eq|done| | |done].
  - eapply (mint_frame_trans _ 0 n _ st2); [|done].
    eapply (mint_frame_trans _ 0 0 _ st1); by apply mint_frame_upd.
  - unfold credit at 2. rewrite Es. change (zs + - amount) with (zs - amount). unfold credit. by rewrite Ez.
Qed.

Lemma in_mint_limit h ts z st : in_mint h ts st -> in_mint h ts (MkRuntime (world st) (with_spending_limit z (ctx st))).
Proof. intros []. by split. Qed.

Lemma transfer_effect h ts l st to source target amount id : mint_ready h ts l st -> in_int TU512 amount ->
  call_effect (addr ts) l st (CallTransfer to source target amount id) inl (transfer to source target amount id).
Proof.
  intros [I R Ht _] Ha. unfold transfer, call_effect, has_effect. erewrite rt_bind_eq by done.
  match goal with |- context [if negb (URef_is_readable source) then ?x else ?y] =>
    set (rest := if negb (URef_is_readable source) then x else y) end.
  assert (call_effect (addr ts) l st (CallTransfer to source target amount id) inl rest) as W.
  2: { destruct (phase (ctx st)), (get_immediate_caller (ctx st)) as [[]|]; try exact W; by apply has_effect_throw. }
  unfold rest, call_effect. clear rest. destruct (URef_is_readable source); [|by apply has_effect_throw]. cbn [negb].
  destruct (URef_is_writeable source) eqn:Ew, (URef_is_addable target); try by apply has_effect_throw. cbn [negb orb].
  unfold has_effect. rewrite (rt_bind_eq _ _ _ _ _ (read_balance_eq _ _ source st R)).
  destruct (balances l !! addr source) as [zs|] eqn:Es; [|by apply has_effect_throw].
  destruct (Z.ltb_spec zs amount) as [|Hle]; [by apply has_effect_throw|].
  rewrite (rt_bind_eq _ _ _ _ _ (read_balance_eq _ _ target st R)).
  destruct (balances l !! addr target) as [zt|] eqn:Et; [|by apply has_effect_throw].
  cbn [ledger_guard spends]. destruct (decide (addr (main_purse (account (ctx st))) = addr source)) as [Em|Em].
  - destruct (Z.ltb_spec (remaining_spending_limit (ctx st)) amount) as [|Hl]; [by apply has_effect_throw|].
    set (st1 := MkRuntime (world st) (with_spending_limit (remaining_spending_limit (ctx st) - amount) (ctx st))).
    erewrite (rt_bind_eq _ _ st tt st1).
    2: { unfold subtract_amount_spent. cbv [mbind RT_bind gets]. unfold checked_sub.
      by rewrite (proj2 (Z.leb_le _ _) Hl). }
    destruct (move_effect h ts l st1 to source target amount id zs zt) as (n & st' & E & Hn & F & R' & L);
      [by apply in_mint_limit|done..|]. rewrite E. exists n.
    split_and!; [done|by destruct F|exact R'|by exists zs|by eexists|done|done|rewrite L; unfold limit_of; cbn; lia|set_solver].
  - erewrite rt_bind_eq by done.
    destruct (move_effect h ts l st to source target amount id zs zt) as (n & st' & E & Hn & F & R' & L); [done..|].
    rewrite E. exists n.
    split_and!; [done|exact F|exact R'|by exists zs|by eexists|done|done|rewrite L; lia|set_solver].
Qed.

(** *** All entry points *)

Lemma is_system_total h h' st : mint_registered h (gs (world st)) -> exists b, is_system_contract h' st = (Ok b, st).
Proof.
  intros (v & r & Ev & Er & Eh). eexists. unfold is_system_contract, system_contract_registry.
  by erewrite rt_bind_eq by (eapply rt_map_err_eq, get_system_contracts_eq; done).
Qed.

Lemma charge_call_shape h n st : mint_registered h (gs (world st)) -> exists g,
  charge_system_contract_call n st = (Ok tt, MkRuntime (world st) (with_gas_counter g (ctx st))) \/
  charge_system_contract_call n st = (Err ExecGasLimit, MkRuntime (world st) (with_gas_counter g (ctx st))).
Proof.
  intros Hm. assert (exists b, (if host_function_depth (world st) =? 0 then is_system_immediate_caller else mret true) st
    = (Ok b, st)) as [b Eb].
  { destruct (_ =? 0); [|by eexists]. unfold is_system_immediate_caller. erewrite rt_bind_eq by done.
    destruct (get_immediate_caller (ctx st)) as [[]|]; try (by eexists); by eapply is_system_total. }
  unfold charge_system_contract_call. erewrite rt_bind_eq by done. rewrite (rt_bind_eq _ _ _ _ _ Eb).
  destruct b; [exists (gas_counter (ctx st)); left; by destruct st as [? []]|].
  unfold rc_charge_system_contract_call. erewrite rt_bind_eq by done. destruct (decide _).
  { exists (gas_counter (ctx st)). left. by destruct st as [? []]. }
  unfold charge_gas. cbv [mbind RT_bind gets set_ctx modify throw]. cbn beta iota.
  repeat case_match; eexists; eauto.
Qed.

Lemma call_effect_charged {R A} h ts l st (c : MintCall R) (answer : A -> R) n (x : M A) :
  mint_ready h ts l st ->
  (forall st', mint_ready h ts l st' -> account (ctx st') = account (ctx st) -> call_effect (addr ts) l st' c answer x) ->
  call_effect (addr ts) l st c answer (_ ← charge_system_contract_call n; x).
Proof.
  intros [I Rep Ht F] Hx. destruct (charge_call_shape h n st (im_registered _ _ _ I)) as (g & [E|E]).
  - unfold call_effect, has_effect. rewrite (rt_bind_eq _ _ _ _ _ E).
    specialize (Hx (MkRuntime (world st) (with_gas_counter g (ctx st)))). unfold call_effect, has_effect in Hx.
    destruct (x _) as [r st']. destruct Hx as (k & Hk & Fr & Hr); [by destruct I|done|]. exists k.
    split; [done|]. split; [by destruct Fr|done].
  - unfold call_effect, has_effect, mbind, RT_bind. rewrite E. exists 0%nat. by split_and!; [lia| |..].
Qed.

Lemma call_effect_try {R A} ts l st (c : MintCall R) (answer : A + MintError -> R) (x : MM A) :
  (forall e, ledger_effect c (answer (inr e)) l = l /\ spends (addr (main_purse (account (ctx st)))) c (answer (inr e)) = 0 /\
    ledger_guard (caller_is_system (ctx st)) (addr (main_purse (account (ctx st)))) (limit_of st) c (answer (inr e)) l /\
    ret_urefs c (answer (inr e)) = []) ->
  call_effect ts l st c (fun a => answer (inl a)) x -> call_effect ts l st c answer (rt_try (E':=ExecError) x).
Proof.
  intros He. unfold call_effect, has_effect, rt_try. destruct (x st) as [[a|e| |] st'];
    intros (n & Hn & F & Hr); exists n; (split; [done|split; [done|]]); try done.
  destruct Hr as [Hr Hl]. destruct (He e) as (-> & -> & Hg & ->). split_and!; [done|done|lia|set_solver].
Qed.

Lemma call_effect_map_err {R A E E'} ts l st (c : MintCall R) (answer : A -> R) (f : E -> E') (x : RT RuntimeState E A) :
  call_effect ts l st c answer x -> call_effect ts l st c answer (rt_map_err f x).
Proof. unfold call_effect, has_effect, rt_map_err. by destruct (x st) as [[] ?]. Qed.

Lemma rt_safe_bind {E A B} (x : RT RuntimeState E A) (k : A -> RT RuntimeState E B) st :
  safe (x st).1 -> (forall a st', x st = (Ok a, st') -> safe (k a st').1) -> safe ((x ≫= k) st).1.
Proof. unfold mbind, RT_bind. destruct (x st) as [[a|e| |] st']; cbn; auto. Qed.

Lemma into_t_ratio_safe v : safe (into_t (A:=Ratio) v).
Proof.
  unfold into_t. case_decide; [|done]. apply safe_map_err. unfold deserialize_from_slice.
  change (from_bytes ?b) with (Ratio_from_bytes b). unfold Ratio_from_bytes.
  change (from_bytes (A:=int TU512 * int TU512) ?b) with (Pair_from_bytes (A:=int TU512) (B:=int TU512) b).
  assert (forall b, safe (from_bytes (A:=int TU512) b)) as I.
  { intros b. change (from_bytes ?b) with (parse_map (MkInt (t:=TU512)) (int_from_bytes TU512 b)). unfold parse_map.
    pose proof (int_from_bytes_safe TU512 b). by destruct (int_from_bytes TU512 b) as [[? ?]| | |]. }
  apply safe_bind; [|by intros [? []] _]. apply safe_bind.
  - unfold Pair_from_bytes. apply safe_bind; [apply I|]. intros [? ?] _. apply safe_bind; [apply I|]. by intros [? ?] _.
  - intros [[n d] rem] _. by destruct (_ =? 0).
Qed.

Lemma read_gs_uref_safe u st : safe (read_gs (KeyURef u) st).1.
Proof.
  unfold read_gs. apply rt_safe_bind.
  { unfold check, validate_readable. cbv [mbind RT_bind gets lift]. by destruct (rc_is_readable _ _). }
  intros _ st1 _. apply rt_safe_bind.
  { unfold check. cbv [mbind RT_bind gets lift]. cbn. unfold validate_uref. by destruct (has_access_rights_to_uref _ _). }
  intros _ st2 _. erewrite rt_bind_eq by apply gs_read_eq. by destruct (gs (world st2) !! _) as [[]|].
Qed.

Lemma read_base_effect h ts l st : mint_ready h ts l st ->
  call_effect (addr ts) l st CallReadBaseRoundReward (fun r => r) read_base_round_reward.
Proof.
  intros [I R _ _]. unfold call_effect, has_effect. apply (has_effect_inert _ _ _ _ _ (fun _ => True)); [done| |].
  { unfold read_base_round_reward, mint_read, mint_read_value, get_key, rt_ok_or, read_gs. inert. }
  assert (safe (read_base_round_reward st).1) as S.
  2: { by destruct (read_base_round_reward st) as [[] ?]. }
  unfold read_base_round_reward.
  erewrite rt_bind_eq by (unfold get_key, gets; by rewrite (im_key _ _ _ I)). cbv beta iota.
  rewrite (rt_bind_eq _ _ _ _ _ (mint_read_eq h ts l st I R)). erewrite rt_bind_eq by done.
  erewrite rt_bind_eq by done. destruct (btree_get _ _) as [[]|]; try done.
  apply rt_safe_bind.
  - unfold mint_read. apply rt_safe_bind; [unfold rt_map_err|].
    + pose proof (read_gs_uref_safe uref st). by destruct (read_gs _ st) as [[] ?].
    + intros [[]|] st' _; try done. apply rt_safe_bind; [|done]. unfold rt_map_err, lift. cbn.
      pose proof (into_t_ratio_safe cl_value). by destruct (into_t _).
  - intros [r|] st' _; [|done]. erewrite rt_bind_eq by done. by destruct (_ <$> _).
Qed.

Lemma entry_effect {R} (c : MintCall R) h ts l st : mint_ready h ts l st -> in_int TU512 (arg_amount c) ->
  (caller_is_system (ctx st) = true ->
   in_int TU512 (supply l + call_amount c) /\ in_int TU512 (total (balances l) + call_amount c)) ->
  call_effect (addr ts) l st c (fun r => r) (mint_entry_point c).
Proof.
  intros Hm Ha Hs. destruct c; cbn [mint_entry_point arg_amount call_amount] in *;
    (eapply call_effect_charged; [done|]); intros st' Hm' Eacc;
    assert (caller_is_system (ctx st') = caller_is_system (ctx st)) as Ec by (unfold caller_is_system; by rewrite Eacc);
    rewrite <- Ec in Hs; clear st Hm Ec Eacc; rename st' into st, Hm' into Hm.
  - assert (caller_is_system (ctx st) = true -> in_int TU512 (supply l + amount)) as Hs' by tauto.
    pose proof (mint_effect _ _ _ _ _ Hm Ha Hs') as W. revert W.
    unfold call_effect, has_effect, mbind, RT_bind, rt_try. destruct (mint amount st) as [[u|e| |] st'];
      [by intros W| |by intros (? & ? & ? & ?)..].
    intros (n & Hn & F & Rep & L). destruct e; exists n; (split; [done|split; [done|]]); try done.
    all: split_and!; [done|done|cbn; lia|set_solver].
  - apply (call_effect_try _ _ _ (CallReduceTotalSupply amount) (fun r => r)); [done|]. by eapply reduce_effect.
  - assert (caller_is_system (ctx st) = true -> in_int TU512 (supply l + 0)) as Hs' by tauto.
    pose proof (mint_effect _ _ _ _ 0 Hm Ha Hs') as W. apply call_effect_map_err. revert W.
    unfold call_effect, has_effect. destruct (mint 0 st) as [[u|e| |] st']; [|done|done|done].
    intros (n & Hn & F & Rep & [? _] & L). exists n. cbn in Rep. rewrite Z.add_0_r in Rep. done.
  - by eapply call_effect_map_err, balance_effect.
  - apply (call_effect_try _ _ _ (CallTransfer _ _ _ _ _) (fun r => r)); [done|]. by eapply transfer_effect.
  - by eapply call_effect_map_err, read_base_effect.
  - apply (call_effect_try _ _ _ (CallMintIntoExistingPurse purse amount) (fun r => r)); [done|].
    by eapply mint_into_effect.
Qed.

(** C6 Every entry point of the mint has the effect on the ledger that its result stands for, under the conditions
    that the result stands for: a transfer moves an amount that the source purse holds to a purse that exists,
    within the spending limit if the source is the caller's main purse; new purses are new; only the system
    account changes the total supply, by what is created or burned.  A call that fails changes no balance and
    not the total supply, and none panics. *)
Theorem mint_refines_ledger {R} (c : MintCall R) h ts l st :
  mint_ready h ts l st -> in_int TU512 (arg_amount c) ->
  (caller_is_system (ctx st) = true ->
   in_int TU512 (supply l + call_amount c) /\ in_int TU512 (total (balances l) + call_amount c)) ->
  let '(r, st') := mint_entry_point c st in
  match r with
  | Ok a =>
      let l' := ledger_effect c a l in
      represents (addr ts) (gs (world st')) l' /\
      ledger_guard (caller_is_system (ctx st)) (addr (main_purse (account (ctx st)))) (limit_of st) c a l /\
      limit_of st' = limit_of st - spends (addr (main_purse (account (ctx st)))) c a /\
      total (balances l') = total (balances l) + minted c a /\ supply l' = supply l + minted c a - burned c a /\
      (minted c a <> 0 \/ burned c a <> 0 -> account_hash (account (ctx st)) = system_account)
  | Err _ => represents (addr ts) (gs (world st')) l
  | Panic | OutOfFuel => False
  end.
Proof.
  intros Hm Ha Hs. pose proof (entry_effect c h ts l st Hm Ha Hs) as W. unfold call_effect, has_effect in W.
  destruct (mint_entry_point c st) as [[a|e| |] st']; destruct W as (n & Hn & F & W); [|tauto|done|done].
  destruct W as (Rep & G & L & _). destruct (effect_books c a l _ _ _ G) as (T & S & Y).
  split_and!; [done..|]. intros E%Y. by apply bool_decide_eq_true in E.
Qed.

End MintLedger.
