(* ===== verification/Claims.v ===== *)
(** * What the auction owes

    Bids, delegations and unbonding requests record amounts that are held in
    bonding purses.  This file defines, for every purse, the sum of the amounts recorded against it
    in a global state, and how that sum changes when a record is written. *)

From S2P Require Import Prelude Bytesrepr Hashing KeyTypes Values PublicKeys Account Contracts SystemErrors AuctionData StoredValue Transform TrackingCopy TrackingSim RuntimeContext RuntimeConfine Mint SystemCalls Auction MintLedger.
Local Open Scope Z_scope.

(** The amount [a] at the purse [q], nothing elsewhere. *)
Definition at_addr (q : URefAddr) (a : Z) (p : URefAddr) : Z := if decide (q = p) then a else 0.

Lemma at_addr_zero q p : at_addr q 0 p = 0.
Proof. unfold at_addr. by destruct (decide _). Qed.
Lemma at_addr_add q a b p : at_addr q (a + b) p = at_addr q a p + at_addr q b p.
Proof. unfold at_addr. destruct (decide _); lia. Qed.
Lemma at_addr_nonneg q a p : 0 <= a -> 0 <= at_addr q a p.
Proof. intros. unfold at_addr. destruct (decide _); lia. Qed.

Definition balance_of (l : Ledger) (p : URefAddr) : Z := default 0 (balances l !! p).

Lemma balance_credit q a b s s' p : is_Some (b !! q) ->
  balance_of (MkLedger (credit q a b) s) p = balance_of (MkLedger b s') p + at_addr q a p.
Proof.
  intros [z Eq]. unfold balance_of, at_addr. cbn. destruct (decide (q = p)) as [<-|Hne].
  - rewrite credit_lookup, Eq. done.
  - rewrite credit_lookup_ne by done. lia.
Qed.

Section Claims.
Context `{KeyCrates} `{Blake2b}.

(** ** Claims of a record *)

Definition delegator_claim (d : Delegator) : URefAddr -> Z :=
  at_addr (addr (delegator_bonding_purse d)) (U512_val (delegator_staked_amount d)).
Definition delegators_claim (l : list (PublicKey * Delegator)) (p : URefAddr) : Z :=
  foldr (fun e acc => delegator_claim e.2 p + acc) 0 l.
Definition bid_claim (b : Bid) (p : URefAddr) : Z :=
  at_addr (addr (bid_bonding_purse b)) (U512_val (bid_staked_amount b)) p + delegators_claim (entries (bid_delegators b)) p.
Definition unbond_claim (u : UnbondingPurse) : URefAddr -> Z :=
  at_addr (addr (unbonding_bonding_purse u)) (U512_val (unbonding_amount u)).
Definition unbonds_claim (us : list UnbondingPurse) (p : URefAddr) : Z :=
  foldr (fun u acc => unbond_claim u p + acc) 0 us.

Lemma delegators_claim_cons e l p : delegators_claim (e :: l) p = delegator_claim e.2 p + delegators_claim l p.
Proof. done. Qed.
Lemma unbonds_claim_cons u us p : unbonds_claim (u :: us) p = unbond_claim u p + unbonds_claim us p.
Proof. done. Qed.
Arguments delegators_claim : simpl never.
Arguments unbonds_claim : simpl never.

Definition stored_claim (k : Key) (v : StoredValue) (p : URefAddr) : Z :=
  match k, v with
  | KeyTypes.Bid _, StoredBid b => bid_claim b p
  | Unbond _, StoredUnbonding us => unbonds_claim us p
  | _, _ => 0
  end.

(** The purses a record names. *)
Definition bid_purses (b : Bid) : list URefAddr :=
  addr (bid_bonding_purse b) :: ((fun e => addr (delegator_bonding_purse e.2)) <$> entries (bid_delegators b)).
Definition stored_purses (k : Key) (v : StoredValue) : list URefAddr :=
  match k, v with
  | KeyTypes.Bid _, StoredBid b => bid_purses b
  | Unbond _, StoredUnbonding us => (fun u => addr (unbonding_bonding_purse u)) <$> us
  | _, _ => []
  end.

(** Recorded amounts are [U512]s, and a bid is stored under the account of its validator. *)
Definition bid_ok (b : Bid) : Prop :=
  in_int TU512 (U512_val (bid_staked_amount b)) /\
  Forall (fun e : PublicKey * Delegator => in_int TU512 (U512_val (delegator_staked_amount e.2))) (entries (bid_delegators b)).
Definition unbonds_ok (us : list UnbondingPurse) : Prop :=
  Forall (fun u => in_int TU512 (U512_val (unbonding_amount u))) us.
Definition record_ok (k : Key) (v : StoredValue) : Prop :=
  match k, v with
  | KeyTypes.Bid a, StoredBid b => bid_ok b /\ a = from_public_key (bid_validator_public_key b)
  | Unbond _, StoredUnbonding us => unbonds_ok us
  | _, _ => True
  end.

Lemma at_addr_other q a p : p <> q -> at_addr q a p = 0.
Proof. intros. unfold at_addr. by rewrite decide_False by congruence. Qed.

Lemma delegators_claim_other l p :
  p ∉ ((fun e : PublicKey * Delegator => addr (delegator_bonding_purse e.2)) <$> l) -> delegators_claim l p = 0.
Proof.
  induction l as [|[k d] l IH]; [done|]. intros [? Hd]%not_elem_of_cons. rewrite delegators_claim_cons, (IH Hd).
  unfold delegator_claim. by rewrite at_addr_other.
Qed.
Lemma unbonds_claim_other us p :
  p ∉ ((fun u => addr (unbonding_bonding_purse u)) <$> us) -> unbonds_claim us p = 0.
Proof.
  induction us as [|u us IH]; [done|]. intros [? Hu]%not_elem_of_cons. rewrite unbonds_claim_cons, (IH Hu).
  unfold unbond_claim. by rewrite at_addr_other.
Qed.
Lemma stored_claim_other k v p : p ∉ stored_purses k v -> stored_claim k v p = 0.
Proof.
  destruct k, v; cbn; try done; [|apply unbonds_claim_other].
  intros [Hb Hd]%not_elem_of_cons. unfold bid_claim. by rewrite at_addr_other, delegators_claim_other.
Qed.

Lemma delegators_claim_nonneg l p :
  Forall (fun e : PublicKey * Delegator => in_int TU512 (U512_val (delegator_staked_amount e.2))) l -> 0 <= delegators_claim l p.
Proof.
  intros F. induction F as [|[k d] l [Hd _] _ IH]; [done|]. rewrite delegators_claim_cons. cbn [snd] in *.
  pose proof (at_addr_nonneg (addr (delegator_bonding_purse d)) _ p Hd). unfold delegator_claim. lia.
Qed.
Lemma unbonds_claim_nonneg us p : unbonds_ok us -> 0 <= unbonds_claim us p.
Proof.
  intros F. induction F as [|u us [Hu _] _ IH]; [done|]. rewrite unbonds_claim_cons.
  pose proof (at_addr_nonneg (addr (unbonding_bonding_purse u)) _ p Hu). unfold unbond_claim. lia.
Qed.
Lemma stored_claim_nonneg k v p : record_ok k v -> 0 <= stored_claim k v p.
Proof.
  destruct k, v; cbn; try done.
  - intros [[[Hs _] Hd] _]. pose proof (delegators_claim_nonneg _ p Hd).
    pose proof (at_addr_nonneg (addr (bid_bonding_purse bid)) _ p Hs). unfold bid_claim. lia.
  - apply unbonds_claim_nonneg.
Qed.

Lemma unbonds_claim_app us us' p : unbonds_claim (us ++ us') p = unbonds_claim us p + unbonds_claim us' p.
Proof. induction us as [|u us IH]; [done|]. cbn [app]. rewrite !unbonds_claim_cons, IH. lia. Qed.

(** Replacing, adding and removing a delegator. *)
Lemma delegators_claim_insert l k d p :
  delegators_claim (btree_insert k d l) p =
  delegators_claim l p - (match btree_get k l with Some d0 => delegator_claim d0 p | None => 0 end) + delegator_claim d p.
Proof.
  induction l as [|[k' d'] l IH]; cbn [btree_insert btree_remove btree_get]; [unfold delegators_claim; cbn; lia|].
  destruct (ord_cmp k k'); rewrite ?delegators_claim_cons; cbn [snd]; [lia|lia|]. rewrite IH. lia.
Qed.
Lemma delegators_claim_remove l k p :
  delegators_claim (btree_remove k l) p =
  delegators_claim l p - match btree_get k l with Some d0 => delegator_claim d0 p | None => 0 end.
Proof.
  induction l as [|[k' d'] l IH]; cbn [btree_insert btree_remove btree_get]; [unfold delegators_claim; cbn; lia|].
  destruct (ord_cmp k k'); rewrite ?delegators_claim_cons; cbn [snd]; [lia|lia|]. rewrite IH. lia.
Qed.
Lemma btree_insert_elem {K V} `{Ord K} (l : list (K * V)) k v e : e ∈ btree_insert k v l -> e.2 = v \/ e ∈ l.
Proof.
  induction l as [|[k' v'] l IH]; cbn; [intros ->%list_elem_of_singleton; auto|].
  destruct (ord_cmp k k'); rewrite !elem_of_cons; [intros [->|?]|intros [->|?]|intros [->|?]]; auto.
  destruct (IH ltac:(eassumption)); auto.
Qed.
Lemma btree_remove_elem {K V} `{Ord K} (l : list (K * V)) k e : e ∈ btree_remove k l -> e ∈ l.
Proof.
  induction l as [|[k' v'] l IH]; cbn; [done|]. destruct (ord_cmp k k'); rewrite ?elem_of_cons; [auto|auto|].
  intros [->|?%IH]; auto.
Qed.
Lemma btree_get_in {K V} `{Ord K} (l : list (K * V)) k v : btree_get k l = Some v -> exists k', (k', v) ∈ l.
Proof.
  induction l as [|[k' v'] l IH]; cbn; [done|]. destruct (ord_cmp k k'); [|done|].
  - intros [= ->]. exists k'. by left.
  - intros [k2 ?]%IH. exists k2. by right.
Qed.

(** ** Claims of a global state *)

Definition stake_key (k : Key) : bool := match k with KeyTypes.Bid _ | Unbond _ => true | _ => false end.

Definition stakes (m : gmap Key StoredValue) : gmap Key StoredValue := filter (fun e => stake_key e.1 = true) m.
Definition claims (m : gmap Key StoredValue) (p : URefAddr) : Z :=
  map_fold (fun k v acc => stored_claim k v p + acc) 0 (stakes m).
Definition claim_at (m : gmap Key StoredValue) (k : Key) (p : URefAddr) : Z :=
  match m !! k with Some v => stored_claim k v p | None => 0 end.

Definition same_stakes (m m' : gmap Key StoredValue) : Prop := forall k, stake_key k = true -> m' !! k = m !! k.

Lemma same_stakes_eq m m' : same_stakes m m' -> stakes m' = stakes m.
Proof.
  intros Hs. apply map_eq. intros k. unfold stakes. destruct (stake_key k) eqn:Ek.
  - apply option_eq. intros v. by rewrite !map_lookup_filter_Some, (Hs k Ek).
  - rewrite !(proj2 (map_lookup_filter_None _ _ _)); [done|right; cbn; congruence..].
Qed.
Lemma claims_same m m' p : same_stakes m m' -> claims m' p = claims m p.
Proof. intros Hs. unfold claims. by rewrite (same_stakes_eq m m'). Qed.

Lemma claims_insert m k v p : stake_key k = true ->
  claims (<[k := v]> m) p = claims m p - claim_at m k p + stored_claim k v p.
Proof.
  intros Hk. unfold claims, claim_at, stakes. rewrite map_filter_insert_True by done.
  set (s := filter _ m). assert (s !! k = m !! k) as Es.
  { apply option_eq. intros w. unfold s. rewrite map_lookup_filter_Some. naive_solver. }
  assert (forall m0 : gmap Key StoredValue, m0 !! k = None -> forall w,
    map_fold (fun k v acc => stored_claim k v p + acc) 0 (<[k := w]> m0) =
    stored_claim k w p + map_fold (fun k v acc => stored_claim k v p + acc) 0 m0) as Hi.
  { intros m0 E0 w. rewrite map_fold_insert_L; [done|intros; lia|done]. }
  rewrite <- insert_delete_eq, Hi by apply lookup_delete_eq. rewrite <- Es. destruct (s !! k) as [w|] eqn:E.
  - rewrite <- (insert_delete_id s k w) at 2 by done. rewrite Hi by apply lookup_delete_eq. lia.
  - rewrite delete_id by done. lia.
Qed.

Lemma claims_nonneg m p : (forall k v, m !! k = Some v -> record_ok k v) -> 0 <= claims m p.
Proof.
  intros Hm. assert (forall k v, stakes m !! k = Some v -> record_ok k v) as Hs.
  { intros k v [? _]%map_lookup_filter_Some. by apply Hm. }
  unfold claims. revert Hs. generalize (stakes m). intros s.
  induction s as [|k v s Hk IH] using map_ind; intros Hs; [by rewrite map_fold_empty|].
  rewrite map_fold_insert_L; [|intros; lia|done].
  assert (0 <= stored_claim k v p) by (apply stored_claim_nonneg, Hs, lookup_insert_eq).
  assert (0 <= map_fold (fun k v acc => stored_claim k v p + acc) 0 s); [|lia].
  apply IH. intros k' v' E. apply Hs. rewrite lookup_insert_ne; [done|congruence].
Qed.

(** ** Bonding purses *)

Definition bonding (m : gmap Key StoredValue) (p : URefAddr) : Prop :=
  exists k v, m !! k = Some v /\ p ∈ stored_purses k v.

Lemma claims_not_bonding m p : ~ bonding m p -> claims m p = 0.
Proof.
  intros Hb. assert (forall k v, stakes m !! k = Some v -> stored_claim k v p = 0) as Hs.
  { intros k v [E _]%map_lookup_filter_Some. apply stored_claim_other. intros Hp. apply Hb. by exists k, v. }
  unfold claims. revert Hs. generalize (stakes m). intros s.
  induction s as [|k v s Hk IH] using map_ind; intros Hs; [by rewrite map_fold_empty|].
  rewrite map_fold_insert_L; [|intros; lia|done]. rewrite (Hs k v) by apply lookup_insert_eq.
  rewrite IH; [done|]. intros k' v' E. apply Hs. rewrite lookup_insert_ne; [done|congruence].
Qed.

Lemma bonding_same m m' p : same_stakes m m' -> bonding m' p -> bonding m p.
Proof.
  intros Hs (k & v & E & Hp). exists k, v. split; [|done]. rewrite <- Hs; [done|].
  destruct k, v; try done; by apply not_elem_of_nil in Hp.
Qed.
Lemma bonding_insert m k v p : bonding (<[k := v]> m) p -> bonding m p \/ p ∈ stored_purses k v.
Proof.
  intros (k' & v' & [[<- <-]|[_ E]]%lookup_insert_Some & Hp); [by right|]. left. by exists k', v'.
Qed.

End Claims.
