(* ===== verification/MintCalls.v ===== *)
(** * Calls of the mint

    What [MintLedger] says about the entry points of the mint, for a caller that
    reaches them through [execute_contract]. *)

From S2P Require Import Prelude Bytesrepr Hashing KeyTypes Values PublicKeys Account Contracts SystemErrors AuctionData StoredValue Transform TrackingCopy TrackingSim RuntimeContext RuntimeConfine Mint SystemCalls MintLedger.
Local Open Scope Z_scope.

Abbreviation main_of st := (addr (main_purse (account (ctx st)))).

(** ** What the effect of a call says about purses *)

(** The purse a call takes from. *)
Definition debited {R} (c : MintCall R) : option URef :=
  match c with CallTransfer _ source _ _ _ => Some source | _ => None end.

Lemma effect_new {R} (c : MintCall R) r l a : is_Some (balances (ledger_effect c r l) !! a) ->
  is_Some (balances l !! a) \/ exists u, u ∈ ret_urefs c r /\ addr u = a.
Proof.
  assert (forall x amount b, is_Some (credit x amount b !! a) -> is_Some (b !! a)) as Hc.
  { intros x amount b. destruct (decide (a = x)) as [->|?]; [|by rewrite credit_lookup_ne].
    rewrite credit_lookup. by destruct (b !! x). }
  assert (forall (u : URef) (z : Z) (b : gmap URefAddr Z) (us : list URef), u ∈ us -> is_Some (<[addr u := z]> b !! a) ->
    is_Some (b !! a) \/ exists u, u ∈ us /\ addr u = a) as Hi.
  { intros u z b us Hu. destruct (decide (addr u = a)) as [<-|?]; [eauto|]. rewrite lookup_insert_ne by done. auto. }
  destruct c; cbn; [| | |auto| |auto|].
  - destruct r; [apply Hi; by left|auto].
  - destruct r; auto.
  - apply Hi. by left.
  - destruct r; [|auto]. intros ?%Hc%Hc. auto.
  - destruct r; [|auto]. intros ?%Hc. auto.
Qed.

Lemma effect_kept {R} (c : MintCall R) r l sys main limit a z : ledger_guard sys main limit c r l ->
  0 <= arg_amount c -> balances l !! a = Some z -> exists z', balances (ledger_effect c r l) !! a = Some z' /\
    (z <= z' \/ exists u, debited c = Some u /\ addr u = a /\ URef_is_writeable u = true) /\
    (a = main -> z - z' <= spends main c r).
Proof.
  intros G Ha Ez.
  assert (forall x amount b z, 0 <= amount -> b !! a = Some z ->
    exists z', credit x amount b !! a = Some z' /\ z <= z' /\ z' <= z + amount) as Hc.
  { intros x amount b z0 Hp E0. destruct (decide (a = x)) as [->|?].
    - rewrite credit_lookup, E0. cbn. eexists. split; [done|]. lia.
    - rewrite credit_lookup_ne by done. exists z0. split; [done|]. lia. }
  assert (exists z', Some z = Some z' /\ (z <= z' \/ exists u, debited c = Some u /\ addr u = a /\ URef_is_writeable u = true) /\
    (a = main -> z - z' <= 0)) as Hsame by (exists z; split; [done|split; [left; lia|lia]]).
  destruct c; cbn in *; try (destruct r; cbn in * ); rewrite ?Ez; try done.
  - destruct G as [G _]. rewrite lookup_insert_ne by congruence. by rewrite Ez.
  - rewrite lookup_insert_ne by congruence. by rewrite Ez.
  - destruct G as (_ & _ & Gw & _). destruct (decide (addr source = a)) as [Es|Es].
    + destruct (Hc (addr target) amount (credit (addr source) (- amount) (balances l)) (z - amount) Ha) as (z' & E' & H1 & H2).
      { rewrite Es, credit_lookup, Ez. done. }
      exists z'. split; [done|]. split; [right; eauto|]. intros ->. rewrite decide_True by done. lia.
    + destruct (Hc (addr target) amount (credit (addr source) (- amount) (balances l)) z Ha) as (z' & E' & H1 & H2).
      { by rewrite credit_lookup_ne. }
      exists z'. split; [done|]. split; [by left|]. intros ->. destruct (decide _); lia.
  - destruct (Hc (addr purse) amount (balances l) z Ha Ez) as (z' & E' & H1 & H2).
    exists z'. split; [done|]. split; [by left|]. lia.
Qed.

Lemma debited_arg {R} (c : MintCall R) u : debited c = Some u -> u ∈ arg_urefs (mint_args c).
Proof. destruct c; cbn; try done. intros [= ->]. by left. Qed.

Lemma spends_nonneg {R} main (c : MintCall R) r : 0 <= arg_amount c -> 0 <= spends main c r.
Proof. destruct c; cbn; try done. destruct r; [|done]. by case_decide. Qed.

Lemma spends_guard {R} (c : MintCall R) r l sys main limit : ledger_guard sys main limit c r l -> 0 <= limit ->
  spends main c r <= limit.
Proof.
  destruct c; cbn; try done. destruct r; [|done]. intros (_ & _ & _ & Hm) Hl. case_decide; [by apply Hm|done].
Qed.

Section MintCalls.
Context `{KeyCrates} `{Blake2b} `{AddressRng} `{EngineConfig} `{RationalCrate} `{!WasmCalls}.

Abbreviation M := (RT RuntimeState ExecError).

(** ** The mint in the global state *)

Variable registry : btree_map rstring ContractHash.
Variable h : ContractHash.
Variable mint_contract : Contract.
Variable ts : URef.

(** The registry names [h] as the mint, whose contract knows the total supply and has entry points that run in
    its own context. *)
Record installed (m : gmap Key StoredValue) : Prop := {
  ins_registry : exists v, m !! KeyTypes.SystemContractRegistry = Some (StoredCLValue v) /\ into_t v = Ok registry;
  ins_mint : btree_get MINT (entries registry) = Some h;
  ins_contract : m !! KeyHash h = Some (StoredContract mint_contract);
  ins_supply : btree_get TOTAL_SUPPLY_KEY (entries (contract_named_keys mint_contract)) = Some (KeyURef ts);
  ins_usable : URef_is_readable ts = true /\ URef_is_writeable ts = true /\ URef_is_addable ts = true;
  ins_entries name e : entry_point_get (entry_points mint_contract) name = Some e ->
    Contracts.entry_point_type e = EntryContract;
}.

Definition is_registered (k : Key) : bool :=
  match into_hash k with Some h' => has_contract_hash registry h' | None => false end.

(** The next [n] addresses are new. *)
Definition fresh_next (n : nat) (st : RuntimeState) (l : Ledger) : Prop :=
  NoDup (draws n (address_generator (world st))).1 /\
  forall a, a ∈ (draws n (address_generator (world st))).1 -> balances l !! a = None /\ a <> addr ts.

(** The mint is installed and its ledger is [l], which fits in [U512]s. *)
Record holds_ledger (st : RuntimeState) (l : Ledger) : Prop := {
  hl_installed : installed (gs (world st));
  hl_represents : represents (addr ts) (gs (world st)) l;
  hl_total : in_int TU512 (total (balances l));
}.

Lemma draws_le n m g : (n <= m)%nat -> exists rest, (draws m g).1 = (draws n g).1 ++ rest.
Proof.
  intros Hle. destruct (Nat.le_exists_sub n m Hle) as (k & -> & _). rewrite Nat.add_comm, draws_add. by eexists.
Qed.

Lemma fresh_next_le n m st l : (n <= m)%nat -> fresh_next m st l -> fresh_next n st l.
Proof.
  intros Hle [Hn Hf]. destruct (draws_le n m (address_generator (world st)) Hle) as (rest & E).
  unfold fresh_next. rewrite E in Hn, Hf. apply NoDup_app in Hn as (? & _ & _). split; [done|set_solver].
Qed.

Lemma mint_is_registered m : installed m -> is_registered (KeyHash h) = true.
Proof. intros I. cbn. by apply (btree_get_existsb _ MINT), ins_mint with m. Qed.

(** ** Calls of the mint *)

Lemma inert_bind_Ok {E A B} (x : RT RuntimeState E A) (k : A -> RT RuntimeState E B) st b st' :
  inert x -> (x ≫= k) st = (Ok b, st') -> exists a, x st = (Ok a, st) /\ k a st = (Ok b, st').
Proof.
  intros I (a & st1 & Ex & Ek)%rt_bind_Ok. specialize (I st). rewrite Ex in I. cbn in I. subst. eauto.
Qed.

Lemma inert_for {E A} (xs : list A) (body : A -> RT RuntimeState E unit) : (forall x, inert (body x)) -> inert (rt_for xs body).
Proof. intros Hb. induction xs; cbn; [apply inert_ret|]. by apply inert_bind. Qed.

Lemma rt_for_check st st' us (f : Context -> URef -> res ExecError unit) :
  rt_for us (fun u => check (fun c => f c u)) st = (Ok tt, st') -> Forall (fun u => f (ctx st) u = Ok tt) us.
Proof.
  induction us as [|u us IH]; cbn; [done|]. intros ([] & E & Er)%inert_bind_Ok; [|apply inert_check].
  constructor; [by apply check_Ok in E|by apply IH].
Qed.

Lemma inert_key_is_system k : inert (key_is_system_contract k).
Proof. unfold key_is_system_contract. destruct (into_hash k); [apply inert_is_system_contract|apply inert_ret]. Qed.

Lemma is_system_eq h' st v : gs (world st) !! KeyTypes.SystemContractRegistry = Some (StoredCLValue v) ->
  into_t v = Ok registry -> is_system_contract h' st = (Ok (has_contract_hash registry h'), st).
Proof.
  intros Ev Er. unfold is_system_contract, system_contract_registry.
  by erewrite rt_bind_eq by (eapply rt_map_err_eq, get_system_contracts_eq; done).
Qed.

Lemma key_is_system_eq k st : installed (gs (world st)) -> key_is_system_contract k st = (Ok (is_registered k), st).
Proof.
  intros I. destruct (ins_registry _ I) as (v & Ev & Er). unfold key_is_system_contract, is_registered.
  destruct (into_hash k); [|done]. by eapply is_system_eq.
Qed.

(** Entering a registered contract whose entry points run in its own context. *)
Lemma enter_registered hash contract name args st r st' : installed (gs (world st)) ->
  is_registered (KeyHash hash) = true -> gs (world st) !! KeyHash hash = Some (StoredContract contract) ->
  (forall name e, entry_point_get (entry_points contract) name = Some e -> Contracts.entry_point_type e = EntryContract) ->
  enter_contract hash name args st = (Ok r, st') ->
  st' = st /\ (is_registered (KeyTypes.context_key (rights (ctx st))) = false ->
    Forall (fun u => validate_uref (ctx st) u = Ok tt) (arg_urefs args)) /\
  exists stk, r = (KeyHash hash, Some (extend (Contract_extract_access_rights contract hash) (arg_urefs args), stk)).
Proof.
  intros I Hr Hc Hes E. unfold enter_contract in E.
  apply inert_bind_Ok in E as (c0 & Ec & E); [|apply inert_read_gs_typed].
  apply read_gs_typed_Ok in Ec as (w & Ew & Ec); [|done]. rewrite Hc in Ew. injection Ew as <-.
  injection Ec as <-.
  apply inert_bind_Ok in E as (package & _ & E); [|apply inert_read_gs_typed].
  apply inert_bind_Ok in E as (b1 & _ & E); [|apply inert_key_is_system].
  apply inert_bind_Ok in E as (_ & _ & E); [|apply inert_ensure].
  apply inert_bind_Ok in E as (entry_point & Ee & E); [|apply inert_lift].
  assert (Contracts.entry_point_type entry_point = EntryContract) as Et.
  { eapply Hes. unfold rt_ok_or, lift, ok_or in Ee.
    destruct (entry_point_get _ _) eqn:Eg; [|done]. injection Ee as <-. exact Eg. }
  apply inert_bind_Ok in E as (_ & _ & E); [|apply inert_check].
  apply inert_bind_Ok in E as (_ & _ & E); [|destruct strict_argument_checking; inert].
  apply inert_bind_Ok in E as (context_key & Ek & E);
    [|unfold get_context_key_for_contract_call; rewrite Et; inert].
  assert (context_key = KeyHash hash) as ->.
  { unfold get_context_key_for_contract_call in Ek. rewrite Et in Ek.
    cbv [mbind RT_bind gets] in Ek. destruct (entry_point_type (ctx st)); by injection Ek as <-. }
  apply inert_bind_Ok in E as (c & [= <-] & E); [|inert].
  apply inert_bind_Ok in E as (_ & _ & E); [|apply inert_ensure].
  apply inert_bind_Ok in E as (stk & _ & E); [|apply inert_lift].
  erewrite rt_bind_eq in E by (by apply key_is_system_eq).
  erewrite rt_bind_eq in E by (by apply key_is_system_eq).
  rewrite Hr, Et, andb_false_r, orb_false_r in E. cbn [negb] in E.
  apply inert_bind_Ok in E as ([] & Ev & E);
    [|destruct (negb _); [apply inert_for; intros; apply inert_check|apply inert_ret]].
  injection E as <- <-. split; [done|]. split; [|by eexists]. intros Er. rewrite Er in Ev. by eapply rt_for_check.
Qed.

Lemma enter_spec name args st r st' : installed (gs (world st)) -> enter_contract h name args st = (Ok r, st') ->
  st' = st /\ (is_registered (KeyTypes.context_key (rights (ctx st))) = false ->
    Forall (fun u => validate_uref (ctx st) u = Ok tt) (arg_urefs args)) /\
  exists stk, r = (KeyHash h, Some (extend (Contract_extract_access_rights mint_contract h) (arg_urefs args), stk)).
Proof.
  intros I. eapply enter_registered; [done|by eapply mint_is_registered|apply (ins_contract _ I)|apply (ins_entries _ I)].
Qed.

(** *** Rights that the mint runs with *)

Lemma has_access_extend_list r us u : has_access_rights_to_uref r u = true ->
  has_access_rights_to_uref (extend r us) u = true.
Proof.
  revert r. induction us as [|u' us IH]; intros r Hr; [by destruct r|].
  change (extend r (u' :: us)) with (extend (extend r [u']) us). by apply IH, has_access_extend.
Qed.

Lemma has_access_in r us u : u ∈ us -> has_access_rights_to_uref (extend r us) u = true.
Proof.
  intros Hu. revert r. induction Hu as [u us|u u' us _ IH]; intros r.
  - change (extend r (u :: us)) with (extend (extend r [u]) us). apply has_access_extend_list, has_access_extended.
  - change (extend r (u' :: us)) with (extend (extend r [u']) us). apply IH.
Qed.

Lemma btree_get_values {V} (m : list (rstring * V)) name v : btree_get name m = Some v -> v ∈ m.*2.
Proof.
  induction m as [|[k w] m IH]; cbn; [done|]. destruct (ord_cmp name k); [|done|].
  - intros [= ->]. by left.
  - intros ?%IH. by right.
Qed.

Lemma inner_ready st l us stk : holds_ledger st l -> fresh_next 1 st l ->
  mint_ready h ts l (MkRuntime (world st) (new_from_self (ctx st) (KeyHash h) EntryContract
    (contract_named_keys mint_contract) (extend (Contract_extract_access_rights mint_contract h) us) stk)).
Proof.
  intros [I Rep Ht] [_ F]. split; [|done|done|].
  - split; cbn; [done| |apply (ins_supply _ I)| |apply (ins_usable _ I)].
    + destruct (ins_registry _ I) as (v & Ev & Er). exists v, registry. split_and!; [done|done|apply (ins_mint _ I)].
    + apply has_access_extend_list, has_access_in, list_elem_of_omap. exists (KeyURef ts). split; [|done].
      apply (btree_get_values _ TOTAL_SUPPLY_KEY), (ins_supply _ I).
  - intros a g Ef. apply F. cbn. cbn in Ef. rewrite Ef. by left.
Qed.

Lemma extend_list_holds r us a b : holds (rights_table (extend r us)) a b = true ->
  holds (rights_table r) a b = true \/ exists u, u ∈ us /\ addr u = a /\ has_bit (access_rights u) b = true.
Proof.
  unfold extend. rewrite do_extend_holds. intros [?|(u & Hu & E)%existsb_exists]%orb_true_iff; [auto|].
  apply andb_true_iff in E as [?%bool_decide_eq_true ?]. right. exists u. split; [by apply list_elem_of_In|done].
Qed.

(** The state after a call of the mint, seen from its caller. *)
(** A host call that returns: its closure returned in its own context, and the caller paid for it. *)
Lemma host_call_Ok {A B} inner0 (x : M A) (cost : Context -> Z) (k : A -> Context -> M B) st b st' :
  ('(result, inner) ← in_context inner0 x; _ ← charge_gas (cost inner); ret ← lift result; k ret inner) st = (Ok b, st') ->
  exists a w inner g, x (MkRuntime (world st) inner0) = (Ok a, MkRuntime w inner) /\
    k a inner (MkRuntime w (with_gas_counter g (ctx st))) = (Ok b, st').
Proof.
  intros ([result inner] & st1 & Ei & E)%rt_bind_Ok. unfold in_context in Ei.
  destruct (x (MkRuntime (world st) inner0)) as [res [w1 c1]] eqn:Em.
  apply rt_bind_Ok in E as ([] & st2 & Eg & E).
  assert (exists a, result = Ok a /\ res = Ok a /\ inner = c1 /\ st1 = MkRuntime w1 (ctx st)) as (a & -> & -> & -> & ->).
  { destruct res; try done; injection Ei as <- <- <-; [by eexists|]. by apply rt_bind_Ok in E as (? & ? & ? & _). }
  exists a, w1, c1, (gas_counter (ctx st2)). cbv [mbind RT_bind lift] in E.
  assert (st2 = MkRuntime w1 (with_gas_counter (gas_counter (ctx st2)) (ctx st))) as E2.
  { unfold charge_gas in Eg. cbv [mbind RT_bind gets set_ctx modify throw] in Eg. repeat case_match; simplify_eq; done. }
  rewrite <- E2. done.
Qed.

Lemma get_system_eq name hash st : installed (gs (world st)) -> btree_get name (entries registry) = Some hash ->
  get_system_contract name st = (Ok hash, st).
Proof.
  intros I Eh. destruct (ins_registry _ I) as (v & Ev & Er). unfold get_system_contract, system_contract_registry.
  erewrite rt_bind_eq by (eapply rt_map_err_eq, get_system_contracts_eq; done). unfold rt_ok_or. by rewrite Eh.
Qed.
Lemma get_contract_eq hash contract st : gs (world st) !! KeyHash hash = Some (StoredContract contract) ->
  get_contract hash st = (Ok contract, st).
Proof. intros Ec. unfold get_contract. erewrite rt_bind_eq by apply gs_read_eq. cbn [normalize]. by rewrite Ec. Qed.

Lemma call_host_mint_Ok {R} (c : MintCall R) rts stk st r st' : installed (gs (world st)) ->
  call_host_mint c rts stk st = (Ok r, st') -> exists inner w g,
  mint_entry_point c (MkRuntime (world st) (new_from_self (ctx st) (KeyHash h) EntryContract
    (contract_named_keys mint_contract) rts stk)) = (Ok r, MkRuntime w inner) /\
  st' = MkRuntime w (with_transfers (transfers inner) (with_rights (extend (rights (ctx st)) (ret_urefs c r))
    (with_spending_limit (remaining_spending_limit inner) (with_gas_counter g (ctx st))))).
Proof.
  intros I E. unfold call_host_mint in E. erewrite rt_bind_eq in E by done.
  erewrite rt_bind_eq in E by (apply get_system_eq; [done|apply (ins_mint _ I)]).
  erewrite rt_bind_eq in E by (apply get_contract_eq, (ins_contract _ I)). cbv zeta in E.
  apply host_call_Ok in E as (a & w & inner & g & Em & E). exists inner, w, g.
  cbv [mbind RT_bind set_ctx modify] in E. injection E as <- <-. done.
Qed.

(** The mint leaves its own installation alone. *)
Lemma installed_frame n st st' : mint_frame (addr ts) n st st' -> installed (gs (world st)) -> installed (gs (world st')).
Proof.
  intros F I. assert (forall k, ~ mint_key (addr ts) (draws n (address_generator (world st))).1 k ->
    gs (world st') !! k = gs (world st) !! k) as Hk.
  { intros k Hk. destruct (decide (gs (world st') !! k = gs (world st) !! k)) as [|E]; [done|].
    by destruct (Hk (mf_keys _ _ _ _ F k E)). }
  destruct I as [(v & Ev & Er) Em Ec Es Eu Ee]. split; try done.
  - exists v. by rewrite Hk by (by intros []).
  - by rewrite Hk by (by intros []).
Qed.

Lemma not_system_books {R} (c : MintCall R) r l main limit : ledger_guard false main limit c r l ->
  total (balances (ledger_effect c r l)) = total (balances l) /\ supply (ledger_effect c r l) = supply l.
Proof.
  intros G. destruct (effect_books c r l _ _ _ G) as (-> & -> & Hs).
  destruct (Z.eq_dec (minted c r) 0), (Z.eq_dec (burned c r) 0); [lia|exfalso..];
    (assert (false = true) by auto; done).
Qed.

(** What a call of the mint does, seen from its caller: who runs, with which keys and limits on gas, stays. *)
Record mint_called {R} (n : nat) (c : MintCall R) (r : R) (st : RuntimeState) (l : Ledger) (st' : RuntimeState) : Prop := {
  called_bound : (n <= call_draws c)%nat;
  called_holds : holds_ledger st' (ledger_effect c r l);
  called_frame : mint_frame (addr ts) n st st';
  called_ctx : exists lim g t, ctx st' = with_transfers t (with_rights (extend (rights (ctx st)) (ret_urefs c r))
    (with_spending_limit lim (with_gas_counter g (ctx st))));
  called_new u : u ∈ ret_urefs c r -> addr u ∈ (draws n (address_generator (world st))).1;
  called_guard : ledger_guard (caller_is_system (ctx st)) (main_of st) (limit_of st) c r l;
  called_limit : limit_of st' = limit_of st - spends (main_of st) c r;
  called_args : is_registered (KeyTypes.context_key (rights (ctx st))) = false ->
    Forall (fun u => validate_uref (ctx st) u = Ok tt) (arg_urefs (mint_args c));
}.

Lemma called_one {R} n (c : MintCall R) r st l st' : mint_called n c r st l st' -> (n <= 1)%nat.
Proof. intros [Hn _ _ _ _ _ _ _]. destruct c; cbn in Hn; lia. Qed.

(** The sums that a call of the system account makes fit. *)
Definition call_fits {R} (c : MintCall R) (st : RuntimeState) (l : Ledger) : Prop :=
  in_int TU512 (arg_amount c) /\
  (caller_is_system (ctx st) = true ->
   in_int TU512 (supply l + call_amount c) /\ in_int TU512 (total (balances l) + call_amount c)).

Lemma minted_fits {R} (c : MintCall R) r st l : in_int TU512 (total (balances l)) -> call_fits c st l ->
  (minted c r <> 0 -> caller_is_system (ctx st) = true) -> in_int TU512 (total (balances l) + minted c r).
Proof.
  intros Ht [_ Hf] Hs. assert (minted c r = 0 \/ minted c r = call_amount c) as [Em|Em].
  { destruct c; cbn; auto; destruct r; auto. }
  - by rewrite Em, Z.add_0_r.
  - destruct (Z.eq_dec (minted c r) 0) as [E0|E0]; [by rewrite E0, Z.add_0_r|]. rewrite Em. by apply Hf, Hs.
Qed.

(** A call of the mint that returns ran its entry point. *)
Lemma call_mint_entered {R} (c : MintCall R) st r st' : installed (gs (world st)) -> call_mint h c st = (Ok r, st') ->
  (is_registered (KeyTypes.context_key (rights (ctx st))) = false ->
    Forall (fun u => validate_uref (ctx st) u = Ok tt) (arg_urefs (mint_args c))) /\
  exists stk inner w g,
    mint_entry_point c (MkRuntime (world st) (new_from_self (ctx st) (KeyHash h) EntryContract
      (contract_named_keys mint_contract) (extend (Contract_extract_access_rights mint_contract h) (arg_urefs (mint_args c))) stk))
      = (Ok r, MkRuntime w inner) /\
    st' = MkRuntime w (with_transfers (transfers inner) (with_rights (extend (rights (ctx st)) (ret_urefs c r))
      (with_spending_limit (remaining_spending_limit inner) (with_gas_counter g (ctx st))))).
Proof.
  intros I E. unfold call_mint in E. apply rt_bind_Ok in E as ([key entered] & st1 & Ee & E).
  destruct (enter_spec _ _ _ _ _ I Ee) as (-> & Hv & stk & [= -> ->]).
  destruct (ins_registry _ I) as (v & Ev & Er).
  rewrite (rt_bind_eq _ _ _ true st) in E.
  2: { unfold is_contract_named. erewrite rt_bind_eq.
    2: { apply rt_try_eq, get_mint_eq. exists v, registry. split_and!; [done|done|apply (ins_mint _ I)]. }
    cbn. by rewrite bool_decide_eq_true_2. }
  destruct (call_host_mint_Ok _ _ _ _ _ _ I E) as (inner & w & g & Em & ->). split; [done|]. by exists stk, inner, w, g.
Qed.

Lemma call_mint_called {R} (c : MintCall R) st l r st' : holds_ledger st l -> fresh_next 1 st l ->
  call_fits c st l -> call_mint h c st = (Ok r, st') -> exists n, mint_called n c r st l st'.
Proof.
  intros Inv Fr Ha E. pose proof (hl_installed _ _ Inv) as I.
  destruct (call_mint_entered _ _ _ _ I E) as (Hv & stk & inner & w & g & Em & ->).
  pose proof (inner_ready st l (arg_urefs (mint_args c)) stk Inv Fr) as Rd. destruct Ha as [Ha Hs].
  pose proof (entry_effect c h ts l _ Rd Ha Hs) as W. unfold call_effect, has_effect in W. rewrite Em in W.
  destruct W as (n & Hn & F & Rep & G & L & New).
  cbn [ctx new_from_self account world limit_of remaining_spending_limit] in *.
  change (caller_is_system _) with (caller_is_system (ctx st)) in G. exists n.
  split; cbn; try done; [|by destruct F|by do 3 eexists].
  split; [by eapply (installed_frame n _ (MkRuntime w inner))|done|].
  destruct (effect_books c r l _ _ _ G) as (-> & _ & Hy). eapply minted_fits; [apply Inv|by split|auto].
Qed.

(** Writing, seen by a caller that may pay for it. *)
Lemma charge_storage_Ok n st r st' : charge_gas_storage n st = (Ok r, st') ->
  exists g, st' = MkRuntime (world st) (with_gas_counter g (ctx st)).
Proof.
  intros E. unfold charge_gas_storage in E. apply inert_bind_Ok in E as (b & [= <-] & E); [|inert].
  apply inert_bind_Ok in E as (free & _ & E).
  2: { destruct (into_hash _); [apply inert_is_system_contract|apply inert_ret]. }
  destruct free; [injection E as _ <-; exists (gas_counter (ctx st)); by destruct st as [? []]|].
  apply inert_bind_Ok in E as (cost & _ & E); [|inert]. unfold charge_gas in E.
  cbv [mbind RT_bind gets set_ctx modify throw] in E. repeat case_match; simplify_eq; eauto.
Qed.

Lemma metered_write_Ok k v st r st' : metered_write_gs_unsafe k v st = (Ok r, st') ->
  exists g, st' = upd (normalize k) v (MkRuntime (world st) (with_gas_counter g (ctx st))).
Proof.
  intros E. unfold metered_write_gs_unsafe in E. apply rt_bind_Ok in E as ([] & st1 & [g ->]%charge_storage_Ok & E).
  rewrite gs_write_eq in E. injection E as _ <-. by exists g.
Qed.

Lemma unmetered_Ok {A} (x : M A) st a st' : unmetered x st = (Ok a, st') ->
  exists st1 g, x st = (Ok a, st1) /\ st' = MkRuntime (world st1) (with_gas_counter g (ctx st1)).
Proof. unfold unmetered. destruct (x st) as [r st1]. intros [= -> <-]. eauto. Qed.

Lemma mint_transfer_called to source target amount id st l r st' : holds_ledger st l -> fresh_next 1 st l ->
  in_int TU512 amount -> mint_transfer h to source target amount id st = (Ok r, st') ->
  exists n st1 g, mint_called n (CallTransfer to source target amount id) r st l st1 /\
    st' = MkRuntime (world st1) (with_gas_counter g (ctx st1)).
Proof.
  intros Snd Fr Ha E. unfold mint_transfer in E. apply inert_bind_Ok in E as (_ & _ & E); [|apply inert_check].
  apply unmetered_Ok in E as (st1 & g & E & ->).
  destruct (call_mint_called (CallTransfer to source target amount id) st l r st1 Snd Fr) as (n & C); [|done|eauto].
  split; [done|]. intros _. cbn. rewrite !Z.add_0_r. split; [apply (represents_range _ _ _ (hl_represents _ _ Snd))|apply Snd].
Qed.

Lemma get_mint_contract_Ok st a st' : installed (gs (world st)) -> get_mint_contract st = (Ok a, st') -> a = h /\ st' = st.
Proof.
  intros I E. destruct (ins_registry _ I) as (v & Ev & Er). unfold get_mint_contract in E.
  rewrite (get_mint_eq h) in E by (exists v, registry; split_and!; [done|done|apply (ins_mint _ I)]).
  by injection E as -> ->.
Qed.

End MintCalls.
