(* ===== verification/Solvency.v ===== *)
(** * The auction stays solvent

    Every operation of the auction that returns leaves enough in every
    bonding purse for the stakes and unbonding requests recorded against it.
    The proof follows the code: between a transfer and the record of it the
    books are off by a known amount at known purses, which the predicate
    [steady] carries along. *)

From S2P Require Import Prelude Bytesrepr Hashing KeyTypes Values PublicKeys Account Contracts SystemErrors AuctionData StoredValue Transform TrackingCopy TrackingSim RuntimeContext RuntimeConfine Mint SystemCalls Auction MintLedger Claims MintCalls.
Local Open Scope Z_scope.

Section Solvency.
Context `{KeyCrates} `{Blake2b} `{AddressRng} `{EngineConfig} `{RationalCrate} `{!WasmCalls}.

Abbreviation M := (RT RuntimeState ExecError).
Abbreviation AM := (RT RuntimeState AuctionError).
Abbreviation AP := (RT RuntimeState ApiError).

Variable registry : btree_map rstring ContractHash.
Variable h : ContractHash.
Variable mint_contract : Contract.
Variable ts : URef.

Abbreviation installed := (installed registry h mint_contract ts).
Abbreviation fresh_next := (fresh_next ts).
Abbreviation holds_ledger := (holds_ledger registry h mint_contract ts).
Abbreviation mint_called := (mint_called registry h mint_contract ts).

(** ** States and steps *)

(** The purses hold what is recorded against them and [e] more. *)
Record steady (st : RuntimeState) (l : Ledger) (e : URefAddr -> Z) : Prop := {
  sd_ledger : holds_ledger st l;
  sd_records k v : gs (world st) !! k = Some v -> record_ok k v;
  sd_backed p : claims (gs (world st)) p + e p <= balance_of l p;
  sd_apart name u : btree_get name (entries (named_keys (ctx st))) = Some (KeyURef u) -> addr u <> addr ts;
}.

(** What stays while [n] addresses are drawn. *)
Record ext (n : nat) (st : RuntimeState) (l : Ledger) (st' : RuntimeState) (l' : Ledger) : Prop := {
  ext_draws : address_generator (world st') = (draws n (address_generator (world st))).2;
  ext_account : account (ctx st') = account (ctx st);
  ext_names : named_keys (ctx st') = named_keys (ctx st);
  ext_phase : phase (ctx st') = phase (ctx st);
  ext_dom p : is_Some (balances l !! p) -> is_Some (balances l' !! p);
  ext_new p : is_Some (balances l' !! p) ->
    p ∈ (draws n (address_generator (world st))).1 \/ is_Some (balances l !! p);
  ext_bonding p : bonding (gs (world st')) p ->
    bonding (gs (world st)) p \/ p ∈ (draws n (address_generator (world st))).1;
  ext_contracts c : gs (world st') !! KeyHash c = gs (world st) !! KeyHash c;
}.

Lemma ext_refl st l : ext 0 st l st l.
Proof. split; auto. Qed.

Lemma ext_trans n m st1 l1 st2 l2 st3 l3 : ext n st1 l1 st2 l2 -> ext m st2 l2 st3 l3 -> ext (n + m) st1 l1 st3 l3.
Proof.
  intros [D1 A1 N1 F1 P1 W1 B1 C1] [D2 A2 N2 F2 P2 W2 B2 C2]. rewrite D1 in D2, W2, B2.
  split; rewrite ?draws_add; cbn [fst snd]; try congruence; auto.
  - intros p [?|[?|?]%W1]%W2; set_solver.
  - intros p [[?|?]%B1|?]%B2; set_solver.
Qed.

Lemma fresh_ext n k st l st' l' : ext n st l st' l' -> fresh_next (n + k) st l -> fresh_next k st' l'.
Proof.
  intros E [Hn Hf]. unfold MintCalls.fresh_next. rewrite (ext_draws _ _ _ _ _ E).
  rewrite draws_add in Hn, Hf. cbn [fst] in Hn, Hf. apply NoDup_app in Hn as (_ & Hd & Hn). split; [done|].
  intros a Ha. destruct (Hf a) as [Hb Ht]; [set_solver|]. split; [|done].
  destruct (balances l' !! a) eqn:Eb; [|done]. destruct (ext_new _ _ _ _ _ E a) as [Hi|[? ?]]; [by eexists| |congruence].
  by destruct (Hd a Hi).
Qed.

Lemma fresh_after n b k st l st' l' : ext n st l st' l' -> (n <= b)%nat -> fresh_next (b + k) st l -> fresh_next k st' l'.
Proof. intros X Hn Fr. eapply (fresh_ext n); [exact X|]. eapply fresh_next_le, Fr. lia. Qed.

(** The same state and actor. *)
Definition alike (st st' : RuntimeState) : Prop :=
  gs (world st') = gs (world st) /\ address_generator (world st') = address_generator (world st) /\
  account (ctx st') = account (ctx st) /\ named_keys (ctx st') = named_keys (ctx st) /\ phase (ctx st') = phase (ctx st).

Lemma steady_alike st st' l e : alike st st' -> steady st l e -> steady st' l e.
Proof.
  intros (Ew & _ & _ & En & _) [[I Rp T] Sr Sb Sa]. split; [by split; rewrite ?Ew|rewrite Ew; done..|by rewrite En].
Qed.
Lemma ext_alike n st st0 l st' l' : alike st st0 -> ext n st0 l st' l' -> ext n st l st' l'.
Proof. intros (Ew & Eg & Ea & En & Ep) [D A N F P W B C]. rewrite Ew, Eg in *. split; congruence || done. Qed.
Lemma ext_alike_r n st st0 l st' l' : alike st0 st' -> ext n st l st0 l' -> ext n st l st' l'.
Proof. intros (Ew & Eg & Ea & En & Ep) [D A N F P W B C]. rewrite <- Ew in *. split; congruence || done. Qed.
Lemma fresh_alike n st st' l : alike st st' -> fresh_next n st l -> fresh_next n st' l.
Proof. intros (_ & Eg & _). unfold MintCalls.fresh_next. by rewrite Eg. Qed.

Lemma steady_le st l e e' : (forall p, e' p <= e p) -> steady st l e -> steady st l e'.
Proof. intros He [L Sr Sb Sa]. split; [done..| |done]. intros p. specialize (Sb p). specialize (He p). lia. Qed.

(** *** Calls of the mint *)

Lemma effect_dom {R} (c : MintCall R) r l sys main limit p : ledger_guard sys main limit c r l -> 0 <= arg_amount c ->
  is_Some (balances l !! p) -> is_Some (balances (ledger_effect c r l) !! p).
Proof. intros G Ha [z Ez]. destruct (effect_kept c r l _ _ _ p z G Ha Ez) as (z' & E & _). by eexists. Qed.

Lemma frame_stakes n st st' : mint_frame (addr ts) n st st' -> same_stakes (gs (world st)) (gs (world st')).
Proof.
  intros F k Hk. destruct (decide (gs (world st') !! k = gs (world st) !! k)) as [|E]; [done|].
  apply (mf_keys _ _ _ _ F) in E. by destruct k.
Qed.

Lemma called_steady {R} n (c : MintCall R) r st l e st1 e' : mint_called n c r st l st1 -> steady st l e ->
  0 <= arg_amount c ->
  (forall p, balance_of l p + e' p <= balance_of (ledger_effect c r l) p + e p) ->
  ext n st l st1 (ledger_effect c r l) /\ steady st1 (ledger_effect c r l) e' /\
  same_stakes (gs (world st)) (gs (world st1)).
Proof.
  intros C [_ Sr Sb Sa] Ha He. pose proof (called_frame _ _ _ _ _ _ _ _ _ _ C) as F.
  pose proof (frame_stakes _ _ _ F) as Hs. destruct (called_ctx _ _ _ _ _ _ _ _ _ _ C) as (lim & g & t & Ec).
  split; [|split; [|done]].
  - split; rewrite ?Ec; try done.
    + apply (mf_generator _ _ _ _ F).
    + intros p. eapply effect_dom; [apply (called_guard _ _ _ _ _ _ _ _ _ _ C)|done].
    + intros p [?|(u & Hu & <-)]%effect_new; [by right|left]. by apply (called_new _ _ _ _ _ _ _ _ _ _ C).
    + intros p ?%(bonding_same _ _ _ Hs). by left.
    + intros k. destruct (decide (gs (world st1) !! KeyHash k = gs (world st) !! KeyHash k)) as [|E]; [done|].
      by apply (mf_keys _ _ _ _ F) in E.
  - split; [apply (called_holds _ _ _ _ _ _ _ _ _ _ C)| | |by rewrite Ec].
    + intros k v E. destruct (stake_key k) eqn:Ek; [|by destruct k]. rewrite (Hs k Ek) in E. by apply Sr.
    + intros p. rewrite (claims_same _ _ p Hs). specialize (Sb p). specialize (He p). lia.
Qed.

(** *** Writes *)

Lemma steady_write n st0 l0 st l e e' k v g : ext n st0 l0 st l -> steady st l e -> stake_key k = true -> record_ok k v ->
  (forall p, stored_claim k v p + e' p <= claim_at (gs (world st)) k p + e p) ->
  (forall p, p ∈ stored_purses k v -> bonding (gs (world st)) p \/ p ∈ (draws n (address_generator (world st0))).1) ->
  let st' := upd k v (MkRuntime (world st) (with_gas_counter g (ctx st))) in
  ext n st0 l0 st' l /\ steady st' l e'.
Proof.
  intros [D A N F P W B C] [[I Rp T] Sr Sb Sa] Hk Hr He Hp. split.
  - split; cbn; auto.
    + intros p [?%B|[?%B|?]%Hp]%bonding_insert; auto.
    + intros c. rewrite lookup_insert_ne; [done|by destruct k].
  - split; cbn; [| | |done].
    + split; [|apply represents_other; [by destruct k|by destruct k|done]|done].
      destruct I as [(w & Ew & Er) Em Ek Es Eu Ee]. split; try done; cbn; [exists w|];
        (rewrite lookup_insert_ne; [done|by destruct k]).
    + intros k' v' [[<- <-]|[_ E]]%lookup_insert_Some; [done|by apply Sr].
    + intros p. rewrite claims_insert by done. specialize (Sb p). specialize (He p). lia.
Qed.

(** A key that neither the ledger nor the stakes are under. *)
Definition plain_key (k : Key) : Prop :=
  match k with KeyURef u => addr u <> addr ts | EraInfo _ => True | _ => False end.

Lemma steady_other st l e k v g : steady st l e -> plain_key k ->
  let st' := upd (normalize k) v (MkRuntime (world st) (with_gas_counter g (ctx st))) in
  ext 0 st l st' l /\ steady st' l e /\ same_stakes (gs (world st)) (gs (world st')).
Proof.
  intros [[I Rp T] Sr Sb Sa] Hk. assert (same_stakes (gs (world st)) (<[normalize k := v]> (gs (world st)))) as Hs.
  { intros k' Hk'. rewrite lookup_insert_ne; [done|]. intros <-. by destruct k. }
  split; [|split; [|done]].
  - split; cbn; auto.
    + intros p ?%(bonding_same _ _ _ Hs). by left.
    + intros c. rewrite lookup_insert_ne; [done|by destruct k].
  - split; cbn; [| | |done].
    + split; [|apply represents_other; [by destruct k| |done]|done].
      * destruct I as [(w & Ew & Er) Em Ek Es Eu Ee]. split; try done; cbn; [exists w|];
          (rewrite lookup_insert_ne; [done|by destruct k]).
      * destruct k; try done. cbn. intros [= E]. done.
    + intros k' v' [[<- <-]|[_ E]]%lookup_insert_Some; [by destruct k|by apply Sr].
    + intros p. rewrite (claims_same _ _ p Hs). apply Sb.
Qed.

(** ** The providers *)

Lemma api_Ok {A} (x : AM A) st a st' : api x st = (Ok a, st') -> x st = (Ok a, st').
Proof. unfold api, rt_map_err. destruct (x st) as [[] ?]; cbn; intros [= -> ->]; done. Qed.
Lemma rt_map_err_Ok {E E' A} (f : E -> E') (x : RT RuntimeState E A) st a st' :
  rt_map_err f x st = (Ok a, st') -> x st = (Ok a, st').
Proof. unfold rt_map_err. destruct (x st) as [[] ?]; cbn; intros [= -> ->]; done. Qed.
Lemma rt_ok_or_Ok {E A} (o : option A) (e : E) (st : RuntimeState) a st' : rt_ok_or o e st = (Ok a, st') -> o = Some a /\ st' = st.
Proof. unfold rt_ok_or, lift. destruct o; cbn; intros [= <- <-] || intros [=]; done. Qed.

Lemma read_gs_Ok k st found st' : read_gs k st = (Ok found, st') ->
  match k with Dictionary _ => False | _ => True end -> st' = st /\ found = gs (world st) !! normalize k.
Proof.
  intros E Hk. pose proof (inert_read_gs k st) as Ei. rewrite E in Ei. cbn in Ei. subst. split; [done|].
  unfold read_gs in E. apply inert_bind_Ok in E as (_ & _ & E); [|apply inert_check].
  apply inert_bind_Ok in E as (_ & _ & E); [|apply inert_check].
  erewrite rt_bind_eq in E by apply gs_read_eq. destruct (gs (world st) !! normalize k) as [v|]; [|by injection E as <-].
  assert (handle_stored_value k v = Ok v) as Eh by (by destruct k).
  rewrite Eh in E. by injection E as <-.
Qed.

Lemma read_bid_Ok a st found st' : read_bid a st = (Ok found, st') -> st' = st /\
  gs (world st) !! KeyTypes.Bid a = StoredBid <$> found.
Proof.
  unfold read_bid. intros (v & st1 & Er%rt_map_err_Ok & E)%rt_bind_Ok.
  destruct (read_gs_Ok _ _ _ _ Er) as [-> ->]; [done|]. cbn [normalize] in E.
  destruct (gs (world st) !! KeyTypes.Bid a) as [[]|]; cbn in E; try done; by injection E as <- <-.
Qed.
Lemma read_unbond_Ok a st us st' : read_unbond a st = (Ok us, st') -> st' = st /\
  (gs (world st) !! Unbond a = Some (StoredUnbonding us) \/ gs (world st) !! Unbond a = None /\ us = []).
Proof.
  unfold read_unbond. intros (v & st1 & Er%rt_map_err_Ok & E)%rt_bind_Ok.
  destruct (read_gs_Ok _ _ _ _ Er) as [-> ->]; [done|]. cbn [normalize] in E.
  destruct (gs (world st) !! Unbond a) as [[]|]; cbn in E; try done; injection E as <- <-; auto.
Qed.

Lemma write_bid_Ok a b st r st' : write_bid a b st = (Ok r, st') ->
  exists g, st' = upd (KeyTypes.Bid a) (StoredBid b) (MkRuntime (world st) (with_gas_counter g (ctx st))).
Proof. by intros ?%rt_map_err_Ok%metered_write_Ok. Qed.
Lemma write_unbond_Ok a us st r st' : write_unbond a us st = (Ok r, st') ->
  exists g, st' = upd (Unbond a) (StoredUnbonding us) (MkRuntime (world st) (with_gas_counter g (ctx st))).
Proof. by intros ?%rt_map_err_Ok%metered_write_Ok. Qed.

Lemma read_from_inert {A} `{CLTyped A} `{FromBytes A} name : inert (read_from (A:=A) name).
Proof.
  unfold read_from, key_uref, get_key, auction_read, rt_ok_or. inert.
Qed.

Lemma write_to_steady {A} `{CLTyped A} `{ToBytes A} name (a : A) st l e r st' : steady st l e ->
  write_to name a st = (Ok r, st') -> ext 0 st l st' l /\ steady st' l e /\ same_stakes (gs (world st)) (gs (world st')).
Proof.
  intros S E. unfold write_to in E.
  apply inert_bind_Ok in E as (u & Eu & E); [|unfold key_uref, get_key, rt_ok_or; inert].
  assert (addr u <> addr ts) as Hu.
  { unfold key_uref in Eu. apply inert_bind_Ok in Eu as (k & [= <-] & Eu); [|unfold get_key; inert].
    apply rt_bind_Ok in Eu as (k & st1 & [Ek ->]%rt_ok_or_Ok & [Eu' _]%rt_ok_or_Ok).
    destruct k; try done. injection Eu' as ->. by eapply (sd_apart _ _ _ S). }
  unfold auction_write in E. apply inert_bind_Ok in E as (v & _ & E); [|inert]. apply rt_map_err_Ok in E.
  unfold metered_write_gs in E. do 3 (apply inert_bind_Ok in E as (_ & _ & E); [|apply inert_check]).
  apply metered_write_Ok in E as [g ->]. by apply steady_other.
Qed.

(** *** The mint *)

Lemma fits_zero {R} (c : MintCall R) st st' l e : steady st l e -> in_int TU512 (arg_amount c) -> call_amount c = 0 ->
  call_fits c st' l.
Proof.
  intros [[I Rp T] _ _ _] Ha Ez. split; [done|]. intros _. rewrite Ez, !Z.add_0_r.
  split; [apply (represents_range _ _ _ Rp)|done].
Qed.

Lemma zero_int : in_int TU512 0.
Proof. split; [done|vm_compute; reflexivity]. Qed.

(** A call from a context like [st]'s, and what follows in it. *)
Lemma call_steady {R} (c : MintCall R) st st0 l e e' r st1 st' : steady st l e -> fresh_next 1 st l -> alike st st0 ->
  call_fits c st0 l -> call_mint h c st0 = (Ok r, st1) -> alike st1 st' ->
  (forall n, mint_called n c r st0 l st1 -> forall p, balance_of l p + e' p <= balance_of (ledger_effect c r l) p + e p) ->
  exists n, mint_called n c r st0 l st1 /\ ext n st l st' (ledger_effect c r l) /\
    steady st' (ledger_effect c r l) e' /\ same_stakes (gs (world st)) (gs (world st')).
Proof.
  intros S Fr Al Hf E Al' He. pose proof (steady_alike _ _ _ _ Al S) as S0.
  destruct (call_mint_called _ _ _ _ c st0 l r st1 (sd_ledger _ _ _ S0) (fresh_alike _ _ _ _ Al Fr) Hf E) as (n & C).
  exists n. destruct (called_steady n c r st0 l e st1 e' C S0) as (X & S1 & Hs); [apply Hf|by eapply He|].
  split; [done|]. split; [by eapply ext_alike, ext_alike_r|]. split; [by eapply steady_alike|].
  destruct Al as (Ew & _), Al' as (Ew' & _). rewrite Ew' , <- Ew. exact Hs.
Qed.

Lemma mint_hash_Ok d st a st' l e : steady st l e -> auction_mint_hash d st = (Ok a, st') -> a = h /\ st' = st.
Proof.
  intros S E%rt_map_err_Ok. eapply (get_mint_contract_Ok registry h mint_contract ts); [|exact E]. apply S.
Qed.

Lemma create_steady st l e u st' : steady st l e -> fresh_next 1 st l -> auction_create_purse st = (Ok u, st') ->
  exists n l', (n <= 1)%nat /\ ext n st l st' l' /\ steady st' l' e /\ same_stakes (gs (world st)) (gs (world st')) /\
    addr u ∈ (draws n (address_generator (world st))).1.
Proof.
  intros S Fr E%rt_map_err_Ok. unfold create_purse, host_function_scope in E. cbv zeta in E.
  set (st0 := MkRuntime (MkWorld _ _ _) _) in E. assert (alike st st0) as Al by done.
  match type of E with (let '(_, _) := ?x in _) = _ => destruct x as [r st1] eqn:E1 end. injection E as -> <-.
  apply rt_bind_Ok in E1 as (a & st2 & Ea & E1).
  apply (get_mint_contract_Ok registry h mint_contract ts) in Ea as [-> ->]; [|apply S].
  match goal with |- context [same_stakes _ (gs (world ?s))] => set (st' := s) end.
  destruct (call_steady CallCreate st st0 l e e u st1 st' S Fr Al (fits_zero CallCreate _ _ _ _ S zero_int eq_refl) E1)
    as (n & C & X & S' & Hs); [by split_and!| |].
  - intros n C p. pose proof (called_guard _ _ _ _ _ _ _ _ _ _ C) as G. cbn in G. unfold balance_of. cbn.
    destruct (decide (addr u = p)) as [<-|]; [by rewrite lookup_insert_eq, G|by rewrite lookup_insert_ne].
  - exists n, (ledger_effect CallCreate u l). split; [apply (called_bound _ _ _ _ _ _ _ _ _ _ C)|].
    split_and!; try done. apply (called_new _ _ _ _ _ _ _ _ _ _ C). by left.
Qed.

(** Between purses: the books are off by the amount at both. *)
Definition shifted (e : URefAddr -> Z) (source target : URefAddr) (a : Z) (p : URefAddr) : Z :=
  e p - at_addr source a p + at_addr target a p.

Lemma transfer_steady to s t a id st l e r st' : steady st l e -> fresh_next 1 st l -> in_int TU512 (U512_val a) ->
  mint_transfer_direct to s t a id st = (Ok (inl r), st') ->
  exists n l', (n <= 1)%nat /\ ext n st l st' l' /\ steady st' l' (shifted e (addr s) (addr t) (U512_val a)) /\
    same_stakes (gs (world st)) (gs (world st')) /\
    (addr (main_purse (account (ctx st))) = addr s \/ account_hash (account (ctx st)) = system_account).
Proof.
  intros S Fr Ha E. unfold mint_transfer_direct in E. apply inert_bind_Ok in E as (c & [= <-] & E); [|inert].
  apply inert_bind_Ok in E as ([] & Ee & E); [|apply inert_ensure].
  apply rt_bind_Ok in E as ([] & st0 & [= <-] & E). set (st0 := MkRuntime _ _) in E.
  assert (alike st st0) as Al by done.
  apply rt_bind_Ok in E as (hash & st0' & Eh & E). apply (mint_hash_Ok _ _ _ _ l e) in Eh as [-> ->]; [|by eapply steady_alike].
  apply rt_bind_Ok in E as (res & st1 & Ec%rt_map_err_Ok & E).
  apply rt_bind_Ok in E as ([] & st2 & [= <-] & E). injection E as -> <-.
  destruct (call_steady (CallTransfer to s t (U512_val a) id) st st0 l e (shifted e (addr s) (addr t) (U512_val a))
    (inl r) st1 (MkRuntime (world st1) (with_gas_counter (gas_counter (ctx st)) (ctx st1))) S Fr Al) as (n & C & X & S' & Hs);
    [by eapply fits_zero|exact Ec|done| |].
  - intros n C p. pose proof (called_guard _ _ _ _ _ _ _ _ _ _ C) as ((z & Ez & _) & Et & _).
    cbn [ledger_effect]. unfold shifted.
    rewrite (balance_credit _ _ _ _ (supply l)), (balance_credit _ _ _ _ (supply l)); [|by eexists|].
    + assert (at_addr (addr s) (- U512_val a) p = - at_addr (addr s) (U512_val a) p) as ->
        by (unfold at_addr; destruct (decide _); lia).
      unfold balance_of. cbn. lia.
    + destruct (decide (addr t = addr s)) as [->|]; [rewrite credit_lookup, Ez; by eexists|by rewrite credit_lookup_ne].
  - exists n, (ledger_effect (CallTransfer to s t (U512_val a) id) (inl r) l).
    split; [apply (called_bound _ _ _ _ _ _ _ _ _ _ C)|]. split_and!; try done.
    unfold ensure in Ee. destruct (bool_decide (addr _ = _)) eqn:E1; [left; by apply bool_decide_eq_true in E1|].
    destruct (bool_decide (account_hash _ = _)) eqn:E2; [right; by apply bool_decide_eq_true in E2|done].
Qed.

Lemma mint_into_steady a u st l e r st' : steady st l e -> fresh_next 1 st l -> in_int TU512 (U512_val a) ->
  in_int TU512 (supply l + U512_val a) -> in_int TU512 (total (balances l) + U512_val a) ->
  auction_mint_into_existing_purse a u st = (Ok r, st') ->
  exists l', ext 0 st l st' l' /\ steady st' l' (fun p => e p + at_addr (addr u) (U512_val a) p) /\
    same_stakes (gs (world st)) (gs (world st')) /\
    supply l' = supply l + U512_val a /\ total (balances l') = total (balances l) + U512_val a.
Proof.
  intros S Fr Ha Hsup Htot E. unfold auction_mint_into_existing_purse in E.
  apply inert_bind_Ok in E as ([] & _ & E); [|unfold require_system, get_caller; inert].
  apply inert_bind_Ok in E as (g & _ & E); [|inert].
  apply rt_bind_Ok in E as (hash & st0 & Eh & E). apply (mint_hash_Ok _ _ _ _ l e) in Eh as [-> ->]; [|done].
  apply rt_bind_Ok in E as (res & st1 & Ec%rt_map_err_Ok & E).
  apply rt_bind_Ok in E as ([] & st2 & [= <-] & E). destruct res as [x|]; [|done]. injection E as _ <-.
  set (c := CallMintIntoExistingPurse u (U512_val a)) in *.
  destruct (call_steady c st st l e (fun p => e p + at_addr (addr u) (U512_val a) p) (inl x) st1
    (MkRuntime (world st1) (with_gas_counter g (ctx st1))) S Fr) as (n & C & X & S' & Hs);
    [by split_and!|by split|exact Ec|by split_and!| |].
  - intros n C p. pose proof (called_guard _ _ _ _ _ _ _ _ _ _ C) as [_ Hp]. cbn [ledger_effect c].
    destruct (Z.eq_dec (U512_val a) 0) as [E0|E0]; [rewrite E0, at_addr_zero, credit_zero; unfold balance_of; cbn; lia|].
    rewrite (balance_credit _ _ _ _ (supply l)) by auto. unfold balance_of. cbn. lia.
  - exists (ledger_effect c (inl x) l). pose proof (called_bound _ _ _ _ _ _ _ _ _ _ C) as Hn. cbn in Hn.
    assert (n = 0%nat) as -> by lia. split; [done|]. split; [done|]. split; [done|].
    destruct (effect_books c (inl x) l _ _ _ (called_guard _ _ _ _ _ _ _ _ _ _ C)) as (-> & -> & _). cbn. lia.
Qed.

Lemma unmetered_alike {A} (x : M A) st a st' : unmetered x st = (Ok a, st') -> exists st1, x st = (Ok a, st1) /\ alike st1 st'.
Proof. intros (st1 & g & E & ->)%unmetered_Ok. by exists st1. Qed.

Lemma reduce_steady a st l e r st' : steady st l e -> fresh_next 1 st l -> in_int TU512 (U512_val a) ->
  auction_reduce_total_supply a st = (Ok r, st') -> exists l', ext 0 st l st' l' /\ steady st' l' e.
Proof.
  intros S Fr Ha E. unfold auction_reduce_total_supply in E.
  apply rt_bind_Ok in E as (hash & st0 & Eh & E). apply (mint_hash_Ok _ _ _ _ l e) in Eh as [-> ->]; [|done].
  apply rt_map_err_Ok in E. unfold mint_reduce_total_supply in E.
  apply rt_bind_Ok in E as (res & st1 & (st2 & Ec & Al)%unmetered_alike & E).
  destruct res as [x|]; [|done]. injection E as _ <-.
  destruct (call_steady (CallReduceTotalSupply (U512_val a)) st st l e e (inl x) st2 st1 S Fr)
    as (n & C & X & S' & _); [by split_and!|by eapply fits_zero|exact Ec|done|unfold balance_of; cbn; lia|].
  exists (ledger_effect (CallReduceTotalSupply (U512_val a)) (inl x) l).
  pose proof (called_bound _ _ _ _ _ _ _ _ _ _ C) as Hn. cbn in Hn. by assert (n = 0%nat) as -> by lia.
Qed.

Lemma base_reward_steady st l e r st' : steady st l e -> fresh_next 1 st l ->
  auction_read_base_round_reward st = (Ok r, st') ->
  ext 0 st l st' l /\ steady st' l e /\ same_stakes (gs (world st)) (gs (world st')).
Proof.
  intros S Fr E. unfold auction_read_base_round_reward in E.
  apply rt_bind_Ok in E as (hash & st0 & Eh & E). apply (mint_hash_Ok _ _ _ _ l e) in Eh as [-> ->]; [|done].
  apply rt_map_err_Ok, unmetered_alike in E as (st1 & Ec & Al).
  destruct (call_steady CallReadBaseRoundReward st st l e e r st1 st' S Fr) as (n & C & X & S' & Hs);
    [by split_and!|exact (fits_zero CallReadBaseRoundReward _ _ _ _ S zero_int eq_refl)|exact Ec|done|cbn; lia|].
  pose proof (called_bound _ _ _ _ _ _ _ _ _ _ C) as Hn. cbn in Hn. by assert (n = 0%nat) as -> by lia.
Qed.

(** ** Delegating and paying out *)

(** A step that may draw [b] addresses. *)
Definition advances (b : nat) (st : RuntimeState) (l : Ledger) (e' : URefAddr -> Z) (st' : RuntimeState) : Prop :=
  exists n l', (n <= b)%nat /\ ext n st l st' l' /\ steady st' l' e'.

Lemma advances_ret st l e : steady st l e -> advances 0 st l e st.
Proof. intros S. exists 0%nat, l. split_and!; [lia|apply ext_refl|done]. Qed.

Lemma advances_trans b1 b2 st1 l1 e2 st2 e3 st3 : advances b1 st1 l1 e2 st2 -> fresh_next (b1 + b2) st1 l1 ->
  (forall l2, steady st2 l2 e2 -> fresh_next b2 st2 l2 -> advances b2 st2 l2 e3 st3) -> advances (b1 + b2) st1 l1 e3 st3.
Proof.
  intros (n & l2 & Hn & X & S2) Fr Hx. destruct (Hx l2 S2) as (m & l3 & Hm & X' & S3).
  { eapply (fresh_ext n); [exact X|]. eapply fresh_next_le; [|exact Fr]. lia. }
  exists (n + m)%nat, l3. split; [lia|]. split; [by eapply ext_trans|done].
Qed.

Lemma advances_le b b' st l e e' st' : (b <= b')%nat -> (forall p, e' p <= e p) -> advances b st l e st' -> advances b' st l e' st'.
Proof. intros Hb He (n & l' & Hn & X & S). exists n, l'. split; [lia|]. split; [done|by eapply steady_le]. Qed.

Lemma transfer_moves error s t a st l e r st' : steady st l e -> fresh_next 1 st l -> in_int TU512 (U512_val a) ->
  stake_transfer error s t a st = (Ok r, st') ->
  exists n l', (n <= 1)%nat /\ ext n st l st' l' /\ steady st' l' (shifted e (addr s) (addr t) (U512_val a)) /\
    same_stakes (gs (world st)) (gs (world st')).
Proof.
  intros S Fr Ha E. unfold stake_transfer in E. apply rt_bind_Ok in E as (res & st1 & Et%rt_map_err_Ok & E).
  destruct res as [x|]; [|done]. injection E as _ <-.
  destruct (transfer_steady _ _ _ _ _ _ _ _ _ _ S Fr Ha Et) as (n & l' & Hn & X & S' & Hs & _). by exists n, l'.
Qed.

Lemma bid_claim_with_delegators b ds p : bid_claim (with_delegators b (BTreeMap ds)) p =
  at_addr (addr (bid_bonding_purse b)) (U512_val (bid_staked_amount b)) p + delegators_claim ds p.
Proof. done. Qed.

Lemma bid_purse_bonding st a b p : gs (world st) !! KeyTypes.Bid a = Some (StoredBid b) -> p ∈ bid_purses b ->
  bonding (gs (world st)) p.
Proof. intros E Hp. by exists (KeyTypes.Bid a), (StoredBid b). Qed.

Lemma bonding_kept m m' p : same_stakes m m' -> bonding m p -> bonding m' p.
Proof. intros Hs. apply bonding_same. intros k Hk. by rewrite Hs. Qed.

(** Writing back a bid in which one delegator was replaced or added. *)
Lemma write_delegator n st0 l0 st l e a b k d g : ext n st0 l0 st l -> steady st l e ->
  gs (world st) !! KeyTypes.Bid a = Some (StoredBid b) -> in_int TU512 (U512_val (delegator_staked_amount d)) ->
  (addr (delegator_bonding_purse d) ∈ (draws n (address_generator (world st0))).1 \/
   bonding (gs (world st)) (addr (delegator_bonding_purse d))) ->
  let b' := with_delegators b (BTreeMap (btree_insert k d (entries (bid_delegators b)))) in
  let st' := upd (KeyTypes.Bid a) (StoredBid b') (MkRuntime (world st) (with_gas_counter g (ctx st))) in
  ext n st0 l0 st' l /\ steady st' l (fun p => e p - delegator_claim d p +
    match btree_get k (entries (bid_delegators b)) with Some d0 => delegator_claim d0 p | None => 0 end).
Proof.
  intros X S Eb Hd Hp b' st'. destruct (sd_records _ _ _ S _ _ Eb) as [[Hs Hf] Ea].
  apply (steady_write n st0 l0 st l e); [done|done|done| | |].
  - split; [split; [done|]|done]. cbn. apply Forall_forall. intros x [Ex|Hx]%btree_insert_elem; [by rewrite Ex|].
    by apply (proj1 (Forall_forall _ _) Hf).
  - intros p. unfold claim_at. rewrite Eb. cbn [stored_claim]. unfold b'. rewrite bid_claim_with_delegators.
    unfold bid_claim. rewrite delegators_claim_insert. lia.
  - cbn [stored_purses bid_purses b']. intros p [->|Hin]%elem_of_cons.
    + left. eapply bid_purse_bonding; [exact Eb|]. by left.
    + apply list_elem_of_fmap in Hin as (x & -> & [Ex|Hx]%btree_insert_elem); [rewrite Ex; tauto|].
      left. eapply bid_purse_bonding; [exact Eb|]. right. apply list_elem_of_fmap. eauto.
Qed.

Lemma U512_checked_add_Some a b c : U512_checked_add a b = Some c -> in_int TU512 (U512_val a) -> in_int TU512 (U512_val b) ->
  U512_val c = U512_val a + U512_val b /\ in_int TU512 (U512_val c).
Proof.
  unfold U512_checked_add. destruct (checked_add _ _ _) as [z|] eqn:E; [|done]. intros [= <-]. cbn.
  apply checked_add_Some in E as [-> Hr]. intros [? ?] [? ?]. split; [done|]. split; [lia|]. apply Hr.
Qed.

Lemma increase_delegator d a r d' : Delegator_increase_stake d a = Ok (r, d') ->
  in_int TU512 (U512_val (delegator_staked_amount d)) -> in_int TU512 (U512_val a) ->
  in_int TU512 (U512_val (delegator_staked_amount d')) /\ delegator_bonding_purse d' = delegator_bonding_purse d /\
  (forall p, delegator_claim d' p = delegator_claim d p + at_addr (addr (delegator_bonding_purse d)) (U512_val a) p).
Proof.
  unfold Delegator_increase_stake. intros (z & Ez%ok_or_Ok & [= _ <-])%bind_Ok Hd Ha.
  destruct (U512_checked_add_Some _ _ _ Ez Hd Ha) as [E Hz]. cbn. split; [done|]. split; [done|].
  intros p. unfold delegator_claim. cbn. by rewrite E, at_addr_add.
Qed.

Lemma bid_delegator_ok st l e a b k d : steady st l e -> gs (world st) !! KeyTypes.Bid a = Some (StoredBid b) ->
  btree_get k (entries (bid_delegators b)) = Some d ->
  in_int TU512 (U512_val (delegator_staked_amount d)) /\ bonding (gs (world st)) (addr (delegator_bonding_purse d)).
Proof.
  intros S Eb [k' Hk]%btree_get_in. destruct (sd_records _ _ _ S _ _ Eb) as [[_ Hf] _]. split.
  - apply (proj1 (Forall_forall _ _) Hf _ Hk).
  - eapply bid_purse_bonding; [exact Eb|]. right. apply list_elem_of_fmap. by exists (k', d).
Qed.

(** Bids that only grow, and unbonding requests that stay. *)
Definition bid_grows (b b' : Bid) : Prop :=
  bid_validator_public_key b' = bid_validator_public_key b /\ (forall p, bid_claim b p <= bid_claim b' p) /\
  (forall p, p ∈ bid_purses b -> p ∈ bid_purses b').
Record grows (m m' : gmap Key StoredValue) : Prop := {
  grows_bids a b : m !! KeyTypes.Bid a = Some (StoredBid b) ->
    exists b', m' !! KeyTypes.Bid a = Some (StoredBid b') /\ bid_grows b b';
  grows_unbonds a : m' !! Unbond a = m !! Unbond a;
}.

Lemma bid_grows_refl b : bid_grows b b.
Proof. by split_and!. Qed.
Lemma bid_grows_trans b1 b2 b3 : bid_grows b1 b2 -> bid_grows b2 b3 -> bid_grows b1 b3.
Proof.
  intros (K1 & C1 & P1) (K2 & C2 & P2). split; [congruence|]. split; [|auto]. intros p. specialize (C1 p). specialize (C2 p). lia.
Qed.
Lemma grows_trans m1 m2 m3 : grows m1 m2 -> grows m2 m3 -> grows m1 m3.
Proof.
  intros [B1 U1] [B2 U2]. split; [|intros a; by rewrite U2].
  intros a b (b' & E' & G')%B1. destruct (B2 _ _ E') as (b2 & E2 & G2). exists b2. split; [done|by eapply bid_grows_trans].
Qed.
Lemma grows_same m m' : same_stakes m m' -> grows m m'.
Proof.
  intros Hs. split; [|intros a; by apply Hs]. intros a b E. exists b. rewrite Hs by done. split; [done|apply bid_grows_refl].
Qed.
Lemma grows_write m m1 a b b' : same_stakes m m1 -> m !! KeyTypes.Bid a = Some (StoredBid b) -> bid_grows b b' ->
  grows m (<[KeyTypes.Bid a := StoredBid b']> m1).
Proof.
  intros Hs Eb G. split; [|intros x; rewrite lookup_insert_ne by done; by apply Hs].
  intros x bx Ex. destruct (decide (a = x)) as [<-|Hne].
  - rewrite Eb in Ex. injection Ex as <-. exists b'. by rewrite lookup_insert_eq.
  - exists bx. rewrite lookup_insert_ne by congruence. rewrite Hs by done. split; [done|apply bid_grows_refl].
Qed.

Lemma purses_insert (ds : list (PublicKey * Delegator)) k d p :
  (forall d0, btree_get k ds = Some d0 -> delegator_bonding_purse d = delegator_bonding_purse d0) ->
  p ∈ ((fun e : PublicKey * Delegator => addr (delegator_bonding_purse e.2)) <$> ds) ->
  p ∈ ((fun e : PublicKey * Delegator => addr (delegator_bonding_purse e.2)) <$> btree_insert k d ds).
Proof.
  induction ds as [|[k' d'] ds IH]; cbn; [set_solver|]. destruct (ord_cmp k k'); cbn; intros Hd.
  - rewrite (Hd d') by done. done.
  - set_solver.
  - specialize (IH Hd). set_solver.
Qed.

Lemma delegator_grows b k d :
  (forall d0, btree_get k (entries (bid_delegators b)) = Some d0 ->
     delegator_bonding_purse d = delegator_bonding_purse d0 /\ forall p, delegator_claim d0 p <= delegator_claim d p) ->
  0 <= U512_val (delegator_staked_amount d) ->
  bid_grows b (with_delegators b (BTreeMap (btree_insert k d (entries (bid_delegators b))))).
Proof.
  intros Hd Hst. split; [done|]. split.
  - intros p. rewrite bid_claim_with_delegators. unfold bid_claim. rewrite delegators_claim_insert.
    destruct (btree_get _ _) as [d0|] eqn:Eg; [destruct (Hd d0 eq_refl) as [_ Hc]; specialize (Hc p); lia|].
    pose proof (at_addr_nonneg (addr (delegator_bonding_purse d)) _ p Hst). unfold delegator_claim. lia.
  - intros p [->|Hp]%elem_of_cons; [by left|]. right. apply purses_insert; [|done]. by intros d0 [? _]%Hd.
Qed.

(** The stake of a delegator grows by what leaves [source]. *)
Lemma delegation_advances b delegator validator source a st l e r st' : steady st l e -> fresh_next 2 st l ->
  in_int TU512 (U512_val a) -> gs (world st) !! KeyTypes.Bid (from_public_key validator) = Some (StoredBid b) ->
  handle_delegation b delegator validator source a st = (Ok r, st') ->
  advances 2 st l (fun p => e p - at_addr (addr source) (U512_val a) p) st' /\ grows (gs (world st)) (gs (world st')).
Proof.
  intros S Fr Ha Eb E. unfold handle_delegation in E. cbv zeta in E.
  apply rt_bind_Ok in E as ([x d] & st1 & E1 & E). apply rt_bind_Ok in E as ([] & st2 & Ew%api_Ok & E).
  injection E as _ <-. apply write_bid_Ok in Ew as [g ->].
  destruct (btree_get delegator (entries (bid_delegators b))) as [d0|] eqn:Ed.
  - apply rt_bind_Ok in E1 as ([] & st0 & Et & E1). apply rt_bind_Ok in E1 as ([y d'] & st3 & Ei%api_Ok & E1).
    injection Ei as Ei <-. injection E1 as _ <- <-.
    destruct (bid_delegator_ok _ _ _ _ _ _ _ S Eb Ed) as [Hd0 Hb0].
    destruct (increase_delegator _ _ _ _ Ei Hd0 Ha) as (Hd & Ep & Hc).
    destruct (transfer_moves _ _ _ _ _ _ _ _ _ S (fresh_next_le _ 1 2 _ _ ltac:(lia) Fr) Ha Et) as (n & l' & Hn & X & S' & Hs).
    destruct (write_delegator n st l st0 l' _ (from_public_key validator) b delegator d' g X S') as [X' S2]; [|done| |].
    + by rewrite Hs.
    + right. rewrite Ep. by apply (bonding_kept (gs (world st))).
    + split; [|apply (grows_write _ _ _ b); [done|done|]].
      * exists n, l'. split; [lia|]. split; [exact X'|]. rewrite Ed in S2. eapply steady_le, S2. intros p. cbn.
        rewrite Hc. unfold shifted. lia.
      * apply delegator_grows; [|apply Hd]. rewrite Ed. intros d1 [= <-]. split; [done|]. intros p. rewrite Hc.
        pose proof (at_addr_nonneg (addr (delegator_bonding_purse d0)) _ p (proj1 Ha)). lia.
  - apply rt_bind_Ok in E1 as (u & st0 & Ec%api_Ok & E1). apply rt_bind_Ok in E1 as ([] & st3 & Et & E1).
    injection E1 as _ <- <-.
    destruct (create_steady _ _ _ _ _ S (fresh_next_le _ 1 2 _ _ ltac:(lia) Fr) Ec) as (n & l1 & Hn & X & S1 & Hs & Hu).
    assert (fresh_next 1 st0 l1) as Fr1.
    { eapply (fresh_ext n); [exact X|]. eapply fresh_next_le, Fr. lia. }
    destruct (transfer_moves _ _ _ _ _ _ _ _ _ S1 Fr1 Ha Et) as (m & l2 & Hm & X2 & S2 & Hs2).
    pose proof (ext_trans _ _ _ _ _ _ _ _ X X2) as X12.
    destruct (write_delegator (n + m) st l st3 l2 _ (from_public_key validator) b delegator
      (Delegator_unlocked delegator a u validator) g X12 S2) as [X' S3]; [|done| |].
    + by rewrite Hs2, Hs.
    + left. rewrite draws_add. cbn. set_solver.
    + split; [|apply (grows_write _ _ _ b); [|done|]].
      * exists (n + m)%nat, l2. split; [lia|]. split; [exact X'|]. rewrite Ed in S3. eapply steady_le, S3. intros p. cbn.
        unfold shifted, delegator_claim. cbn. lia.
      * intros k Hk. by rewrite Hs2, Hs.
      * apply delegator_grows; [by rewrite Ed|apply Ha].
Qed.

Lemma pay_out_advances u st l e r st' : steady st l e -> fresh_next 1 st l -> in_int TU512 (U512_val (unbonding_amount u)) ->
  pay_out u st = (Ok r, st') ->
  advances 1 st l (fun p => e p - unbond_claim u p) st' /\ grows (gs (world st)) (gs (world st')).
Proof.
  intros S Fr Ha E%rt_map_err_Ok. unfold unbond in E. cbv zeta in E.
  apply inert_bind_Ok in E as (v & _ & E); [|unfold read_gs_direct; inert].
  destruct v as [[]|]; try done. apply rt_bind_Ok in E as (res & st1 & Et%rt_map_err_Ok & E).
  destruct res as [x|]; [|done]. injection E as _ <-.
  destruct (transfer_steady _ _ _ _ _ _ _ _ _ _ S Fr Ha Et) as (n & l' & Hn & X & S' & Hs & _).
  split; [|by apply grows_same]. exists n, l'. split; [done|]. split; [done|]. eapply steady_le, S'. intros p. cbn.
  unfold shifted, unbond_claim. pose proof (at_addr_nonneg (addr (main_purse account)) _ p (proj1 Ha)). lia.
Qed.

Lemma inert_try {E E' A} (x : RT RuntimeState E A) : inert x -> inert (rt_try (E':=E') x).
Proof. intros Hx st. specialize (Hx st). unfold rt_try. by destruct (x st) as [[] ?]. Qed.
Lemma inert_read_bid a : inert (read_bid a).
Proof. unfold read_bid. inert. Qed.

Lemma request_advances u st l e r st' : steady st l e -> fresh_next 2 st l -> in_int TU512 (U512_val (unbonding_amount u)) ->
  process_unbond_request u st = (Ok r, st') ->
  advances 2 st l (fun p => e p - unbond_claim u p) st' /\ grows (gs (world st)) (gs (world st')).
Proof.
  intros S Fr Ha E. assert (pay_out u st = (Ok r, st') ->
    advances 2 st l (fun p => e p - unbond_claim u p) st' /\ grows (gs (world st)) (gs (world st'))) as Hpay.
  { intros Ep. destruct (pay_out_advances _ _ _ _ _ _ S (fresh_next_le _ 1 2 _ _ ltac:(lia) Fr) Ha Ep) as [A G].
    split; [|done]. eapply advances_le, A; [lia|done]. }
  unfold process_unbond_request in E. destruct (new_validator u) as [v|]; [|by apply Hpay].
  apply inert_bind_Ok in E as (found & Ef & E); [|apply inert_try, inert_read_bid].
  destruct found as [[b|]|]; [|by apply Hpay..]. destruct (_ =? 0); [by apply Hpay|].
  apply rt_bind_Ok in E as (b' & st1 & Eb & E). unfold read_bid_for_validator in Eb.
  apply rt_bind_Ok in Eb as (found & st2 & [-> Eg]%api_Ok%read_bid_Ok & [-> ->]%rt_ok_or_Ok).
  apply rt_bind_Ok in E as (x & st3 & Ed & E). injection E as _ <-. by eapply delegation_advances.
Qed.

(** ** Unbonding requests *)

Lemma advances_after n b1 b2 st l st2 l2 e3 st3 : ext n st l st2 l2 -> (n <= b1)%nat -> advances b2 st2 l2 e3 st3 ->
  advances (b1 + b2) st l e3 st3.
Proof.
  intros X Hn (m & l3 & Hm & X' & S). exists (n + m)%nat, l3. split; [lia|]. split; [by eapply ext_trans|done].
Qed.

Lemma list_advances era delay us : forall st l e ks st', steady st l e -> unbonds_ok us -> fresh_next (2 * length us) st l ->
  process_unbonding_list era delay us st = (Ok ks, st') ->
  advances (2 * length us) st l (fun p => e p - unbonds_claim us p + unbonds_claim ks p) st' /\
  grows (gs (world st)) (gs (world st')) /\ forall u, u ∈ ks -> u ∈ us.
Proof.
  induction us as [|u us IH]; intros st l e ks st' S Hok Fr E; cbn [process_unbonding_list] in E.
  { injection E as <- <-. split; [|split; [by apply grows_same|done]]. eapply advances_le; [|..|by apply advances_ret]; [done|].
    intros p. cbn. lia. }
  apply Forall_cons in Hok as [Hu Hok]. replace (2 * length (u :: us))%nat with (2 + 2 * length us)%nat in * by (cbn; lia).
  apply inert_bind_Ok in E as (due & _ & E); [|apply inert_lift]. destruct (due <=? era_value era).
  - apply rt_bind_Ok in E as ([] & st1 & Er & E).
    destruct (request_advances u st l e () st1 S) as [(n & l1 & Hn & X & S1) G1]; [eapply fresh_next_le, Fr; lia|done|done|].
    destruct (IH _ _ _ _ _ S1 Hok (fresh_after _ _ _ _ _ _ _ X Hn Fr) E) as (A2 & G2 & Hi).
    split; [|split; [by eapply grows_trans|set_solver]].
    eapply advances_after; [exact X|done|]. eapply advances_le, A2; [done|]. intros p. rewrite unbonds_claim_cons. lia.
  - apply rt_bind_Ok in E as (rest & st1 & Er & E). injection E as <- <-.
    destruct (IH _ _ _ _ _ S Hok (fresh_next_le _ (2 * length us) (2 + 2 * length us) _ _ ltac:(lia) Fr) Er) as (A2 & G2 & Hi).
    split; [|split; [done|set_solver]]. eapply advances_le, A2; [lia|]. intros p. rewrite !unbonds_claim_cons. lia.
Qed.

Abbreviation Requests := (list (AccountHash * list UnbondingPurse)).
Definition requests (us : Requests) : nat := foldr (fun e n => length e.2 + n)%nat 0%nat us.
Definition requests_claim (us : Requests) (p : URefAddr) : Z := foldr (fun e acc => unbonds_claim e.2 p + acc) 0 us.

Lemma requests_cons x us : requests (x :: us) = (length x.2 + requests us)%nat.
Proof. done. Qed.
Lemma requests_claim_cons x us p : requests_claim (x :: us) p = unbonds_claim x.2 p + requests_claim us p.
Proof. done. Qed.
Arguments requests : simpl never.
Arguments requests_claim : simpl never.

(** Requests that remain, by account. *)
Definition remains (us ks : Requests) : Prop :=
  Forall2 (fun x y => y.1 = x.1 /\ forall u, u ∈ y.2 -> u ∈ x.2) us ks.

Lemma lists_advances era delay us : forall st l e ks st', steady st l e -> Forall (fun x => unbonds_ok x.2) us ->
  fresh_next (2 * requests us) st l -> process_unbonding_lists era delay us st = (Ok ks, st') ->
  advances (2 * requests us) st l (fun p => e p - requests_claim us p + requests_claim ks p) st' /\
  grows (gs (world st)) (gs (world st')) /\ remains us ks.
Proof.
  induction us as [|[a x] us IH]; intros st l e ks st' S Hok Fr E; cbn [process_unbonding_lists] in E.
  { injection E as <- <-. split; [|split; [by apply grows_same|constructor]].
    eapply advances_le; [|..|by apply advances_ret]; [done|]. intros p. cbn. lia. }
  apply Forall_cons in Hok as [Hx Hok].
  replace (2 * requests ((a, x) :: us))%nat with (2 * length x + 2 * requests us)%nat in * by (rewrite requests_cons; cbn; lia).
  apply rt_bind_Ok in E as (y & st1 & E1 & E). apply rt_bind_Ok in E as (rest & st2 & E2 & E). injection E as <- <-.
  destruct (list_advances _ _ _ _ _ _ _ _ S Hx (fresh_next_le _ (2 * length x) (2 * length x + 2 * requests us) _ _ ltac:(lia) Fr) E1) as ((n & l1 & Hn & X & S1) & G1 & Hi).
  destruct (IH _ _ _ _ _ S1 Hok (fresh_after _ _ _ _ _ _ _ X Hn Fr) E2) as (A2 & G2 & Hr).
  split; [|split; [by eapply grows_trans|by constructor]].
  eapply advances_after; [exact X|done|]. eapply advances_le, A2; [done|]. intros p.
  rewrite !requests_claim_cons. cbn [snd]. lia.
Qed.

(** *** Reading and writing them *)

Definition stored_requests (m : gmap Key StoredValue) (x : AccountHash * list UnbondingPurse) : Prop :=
  m !! Unbond x.1 = Some (StoredUnbonding x.2) \/ m !! Unbond x.1 = None /\ x.2 = [].

Lemma read_unbonds_Ok keys : forall ret st us st', read_unbonds keys ret st = (Ok us, st') -> st' = st /\
  (btree_sorted ret -> btree_sorted us) /\
  (Forall (stored_requests (gs (world st))) ret -> Forall (stored_requests (gs (world st))) us).
Proof.
  induction keys as [|k keys IH]; intros ret st us st' E; cbn [read_unbonds] in E; [by injection E as <- <-|].
  apply inert_bind_Ok in E as (a & _ & E); [|destruct k; inert].
  apply rt_bind_Ok in E as (x & st1 & [-> Ex]%read_unbond_Ok & (-> & Hs & Hf)%IH). split; [done|]. split.
  - intros Hr. by apply Hs, btree_insert_sorted.
  - intros Hr. by apply Hf, btree_insert_Forall.
Qed.

Lemma sorted_keys {K V} `{OrdLaws K} (l : list (K * V)) : btree_sorted l -> NoDup l.*1.
Proof.
  induction l as [|[k v] l IH]; cbn; [constructor|]. intros [Hk Hl]. constructor; [|by apply IH].
  intros ([k' v'] & -> & Hin)%list_elem_of_fmap. apply (proj1 (Forall_forall _ _) Hk) in Hin. cbn in Hin.
  unfold ord_lt in Hin. by rewrite ord_cmp_refl in Hin.
Qed.

Lemma get_unbonding_purses_Ok st us st' : get_unbonding_purses st = (Ok us, st') ->
  alike st st' /\ gs (world st') = gs (world st) /\ NoDup us.*1 /\ Forall (stored_requests (gs (world st))) us.
Proof.
  unfold get_unbonding_purses. intros (keys & st1 & Ek & E)%rt_bind_Ok.
  unfold auction_get_keys in Ek. apply rt_bind_Ok in Ek as (ks & st2 & Eg%rt_map_err_Ok & [= <- <-]).
  unfold rc_get_keys, gs_step in Eg. cbv [mbind RT_bind] in Eg. cbn in Eg. rewrite set_gs_same in Eg. injection Eg as _ <-.
  apply read_unbonds_Ok in E as (-> & Hs & Hf). split_and!; try done; [by apply sorted_keys, Hs|by apply Hf].
Qed.

(** Writing what remains settles the books. *)
Lemma set_unbonds_steady us ks : remains us ks -> forall st l e r st',
  steady st l (fun p => e p - requests_claim us p + requests_claim ks p) -> NoDup us.*1 ->
  Forall (stored_requests (gs (world st))) us -> set_unbonding_purses ks st = (Ok r, st') ->
  ext 0 st l st' l /\ steady st' l e /\ forall a, gs (world st') !! KeyTypes.Bid a = gs (world st) !! KeyTypes.Bid a.
Proof.
  intros Hr. induction Hr as [|[a x] [a' y] us ks [Ea Hi] _ IH]; intros st l e r st' S Hn Hst E; cbn in E.
  { injection E as _ <-. split; [apply ext_refl|]. split; [|done]. eapply steady_le, S. intros p. cbn. lia. }
  cbn in Ea, Hi. subst a'. apply NoDup_cons in Hn as [Ha Hn]. apply Forall_cons in Hst as [Hx Hst].
  apply rt_bind_Ok in E as ([] & st1 & [g ->]%write_unbond_Ok & E).
  assert (claim_at (gs (world st)) (Unbond a) = unbonds_claim x /\ unbonds_ok x /\
    forall u, u ∈ x -> bonding (gs (world st)) (addr (unbonding_bonding_purse u))) as (Hc & Hok & Hb).
  { unfold claim_at. destruct Hx as [Hx|[Hx Ex]]; cbn in Hx; rewrite Hx.
    - split; [done|]. split; [apply (sd_records _ _ _ S _ _ Hx)|]. intros u Hu. exists (Unbond a), (StoredUnbonding x).
      split; [done|]. apply list_elem_of_fmap. eauto.
    - cbn in Ex. subst x. split; [done|]. split; [constructor|]. intros u Hu. by apply not_elem_of_nil in Hu. }
  destruct (steady_write 0 st l st l _ (fun p => e p - requests_claim us p + requests_claim ks p)
    (Unbond a) (StoredUnbonding y) g (ext_refl st l) S) as [X S1]; [done| | | |].
  - cbn. apply Forall_forall. intros u ?%Hi. by apply (proj1 (Forall_forall _ _) Hok).
  - intros p. rewrite Hc. cbn [stored_claim]. rewrite !requests_claim_cons. cbn [snd]. lia.
  - intros p (u & -> & ?%Hi)%list_elem_of_fmap. left. by apply Hb.
  - edestruct (IH _ _ e r st' S1 Hn) as (X2 & S2 & Hbid); [|exact E|].
    + apply Forall_forall. intros z Hin. pose proof (proj1 (Forall_forall _ _) Hst z Hin) as Hz.
      unfold stored_requests in *. cbn. rewrite lookup_insert_ne; [done|].
      intros [= ->]. apply Ha, list_elem_of_fmap. by exists z.
    + split; [by apply (ext_trans 0 0 _ _ _ _ _ _ X X2)|]. split; [done|]. intros b. rewrite Hbid. cbn.
      by rewrite lookup_insert_ne.
Qed.

(** Requests in a state, as many as the auction reads at most. *)
Definition pending (m : gmap Key StoredValue) : nat :=
  map_fold (fun k v n => match k, v with Unbond _, StoredUnbonding us => length us + n | _, _ => n end)%nat 0%nat m.

Lemma pending_delete m k v : m !! k = Some v ->
  pending m = (match k, v with Unbond _, StoredUnbonding us => length us | _, _ => 0 end + pending (delete k m))%nat.
Proof.
  intros E. unfold pending. rewrite (map_fold_delete_L _ _ k v m); [by destruct k, v| |done].
  intros j1 j2 z1 z2 y _ _ _. destruct j1, z1, j2, z2; lia.
Qed.

Lemma requests_pending us : NoDup us.*1 -> forall m, Forall (stored_requests m) us -> (requests us <= pending m)%nat.
Proof.
  induction us as [|[a x] us IH]; intros Hn m Hs; [unfold requests; cbn; lia|]. rewrite requests_cons.
  apply NoDup_cons in Hn as [Ha Hn]. apply Forall_cons in Hs as [Hx Hs]. cbn [snd].
  destruct Hx as [Hx|[_ Hx]]; cbn in Hx; [|subst x; by apply IH].
  rewrite (pending_delete _ _ _ Hx). specialize (IH Hn (delete (Unbond a) m)). enough (requests us <= pending (delete (Unbond a) m))%nat by lia.
  apply IH, Forall_forall. intros z Hz. pose proof (proj1 (Forall_forall _ _) Hs z Hz) as Hst. unfold stored_requests.
  rewrite lookup_delete_ne; [done|]. intros [= ->]. apply Ha, list_elem_of_fmap. by exists z.
Qed.

Lemma inert_get_era_id : inert get_era_id.
Proof. apply read_from_inert. Qed.

Lemma unbonding_advances st l e r st' : steady st l e -> fresh_next (2 * pending (gs (world st))) st l ->
  process_unbond_requests st = (Ok r, st') ->
  advances (2 * pending (gs (world st))) st l e st' /\
  forall a b, gs (world st) !! KeyTypes.Bid a = Some (StoredBid b) ->
    exists b', gs (world st') !! KeyTypes.Bid a = Some (StoredBid b') /\ bid_grows b b'.
Proof.
  intros S Fr E. unfold process_unbond_requests in E.
  apply inert_bind_Ok in E as ([] & _ & E); [|apply inert_map_err; unfold require_system, get_caller; inert].
  apply rt_bind_Ok in E as (us & st1 & (Al & Eg & Hn & Hst)%api_Ok%get_unbonding_purses_Ok & E).
  apply inert_bind_Ok in E as (era & _ & E); [|apply inert_map_err, inert_get_era_id].
  apply inert_bind_Ok in E as (delay & _ & E); [|apply inert_map_err; unfold get_unbonding_delay; inert; apply read_from_inert].
  apply rt_bind_Ok in E as (ks & st2 & El & E%api_Ok).
  pose proof (requests_pending us Hn _ Hst) as Hp. pose proof (steady_alike _ _ _ _ Al S) as S1.
  assert (Forall (fun x => unbonds_ok x.2) us) as Hok.
  { eapply Forall_impl; [exact Hst|]. intros x [Hx|[_ ->]]; [apply (sd_records _ _ _ S _ _ Hx)|constructor]. }
  destruct (lists_advances _ _ _ _ _ _ _ _ S1 Hok (fresh_next_le _ (2 * requests us) (2 * pending (gs (world st))) _ _ ltac:(lia) (fresh_alike _ _ _ _ Al Fr)) El)
    as ((n & l2 & Hn2 & X & S2) & G & Hr). rewrite Eg in G.
  edestruct (set_unbonds_steady us ks Hr st2 l2 e r st' S2 Hn) as (X3 & S3 & Hbid); [|exact E|].
  { eapply Forall_impl; [exact Hst|]. intros x Hx. unfold stored_requests. by rewrite (grows_unbonds _ _ G). }
  split.
  - exists (n + 0)%nat, l2. split; [lia|]. split; [|done]. eapply ext_trans, X3. by eapply ext_alike.
  - intros a b (b' & Eb & Gb)%(grows_bids _ _ G). exists b'. by rewrite Hbid.
Qed.

End Solvency.
