(* ===== verification/AuctionSteps.v ===== *)
(** * The entry points of the auction, one by one

    For each entry point of [system/auction.rs] that changes the state: when
    it returns, the purses still hold what is recorded against them.  The
    lemmas of [Solvency] are the steps the entry points are made of. *)

From S2P Require Import Prelude Bytesrepr Hashing KeyTypes Values PublicKeys Account Contracts SystemErrors AuctionData StoredValue Transform TrackingCopy TrackingSim RuntimeContext RuntimeConfine Mint SystemCalls Auction MintLedger Claims MintCalls Solvency.
Local Open Scope Z_scope.

Section AuctionSteps.
Context `{KeyCrates} `{Blake2b} `{AddressRng} `{EngineConfig} `{RationalCrate} `{!WasmCalls}.

Abbreviation M := (RT RuntimeState ExecError).
Abbreviation AM := (RT RuntimeState AuctionError).
Abbreviation AP := (RT RuntimeState ApiError).

Variable registry : btree_map rstring ContractHash.
Variable h : ContractHash.
Variable mint_contract : Contract.
Variable ts : URef.

Abbreviation fresh_next := (fresh_next ts).
Abbreviation steady := (steady registry h mint_contract ts).
Abbreviation advances := (advances registry h mint_contract ts).

Lemma ext_advances st l e st' : ext 0 st l st' l -> steady st' l e -> advances 0 st l e st'.
Proof. intros X S. by exists 0%nat, l. Qed.

Lemma inert_session_caller pk : inert (require_session_caller pk).
Proof. unfold require_session_caller. inert. Qed.
Lemma inert_require_system : inert require_system.
Proof. unfold require_system, get_caller. inert. Qed.
Lemma inert_era_end : inert get_era_end_timestamp_millis.
Proof. unfold get_era_end_timestamp_millis. inert; apply read_from_inert. Qed.

(** A bid that was read, by its validator's key. *)
Lemma found_bid {E} (f : AuctionError -> E) a (e : E) st b st' :
  (found ← rt_map_err f (read_bid a); rt_ok_or found e) st = (Ok b, st') ->
  st' = st /\ gs (world st) !! KeyTypes.Bid a = Some (StoredBid b).
Proof. by intros (found & st1 & [-> Eb]%rt_map_err_Ok%read_bid_Ok & [-> ->]%rt_ok_or_Ok)%rt_bind_Ok. Qed.

(** ** Withdrawing *)

(** Replacing a bid by one with no other purses. *)
Lemma write_bid_steady st l e a b b' r st' : steady st l e -> gs (world st) !! KeyTypes.Bid a = Some (StoredBid b) ->
  write_bid a b' st = (Ok r, st') ->
  bid_validator_public_key b' = bid_validator_public_key b -> bid_ok b' -> (forall p, p ∈ bid_purses b' -> p ∈ bid_purses b) ->
  ext 0 st l st' l /\ steady st' l (fun p => e p + bid_claim b p - bid_claim b' p).
Proof.
  intros S Eb [g ->]%write_bid_Ok Hk Hok Hp. destruct (sd_records _ _ _ _ _ _ _ S _ _ Eb) as [_ Ea].
  apply (steady_write registry h mint_contract ts 0 st l st l e); [apply ext_refl|done|done| | |].
  - split; [done|]. by rewrite Hk.
  - intros p. unfold claim_at. rewrite Eb. cbn [stored_claim]. lia.
  - intros p Hin. left. eapply bid_purse_bonding; [exact Eb|by apply Hp].
Qed.

Lemma inert_get_balance u : inert (auction_get_balance u).
Proof. unfold auction_get_balance, get_balance. inert. Qed.

Lemma unbonding_steady v k u a nv st l e r st' : steady st l e -> in_int TU512 (U512_val a) ->
  bonding (gs (world st)) (addr u) -> create_unbonding_purse v k u a nv st = (Ok r, st') ->
  ext 0 st l st' l /\ steady st' l (fun p => e p - at_addr (addr u) (U512_val a) p) /\
  forall x, gs (world st') !! KeyTypes.Bid x = gs (world st) !! KeyTypes.Bid x.
Proof.
  intros S Ha Hb E. unfold create_unbonding_purse in E. cbv zeta in E.
  apply inert_bind_Ok in E as (bal & _ & E); [|apply inert_get_balance].
  apply inert_bind_Ok in E as ([] & _ & E); [|apply inert_ensure].
  apply rt_bind_Ok in E as (us & st1 & [-> Eu]%read_unbond_Ok & E).
  apply inert_bind_Ok in E as (era & _ & E); [|apply inert_get_era_id]. apply write_unbond_Ok in E as [g ->].
  assert (claim_at (gs (world st)) (Unbond (from_public_key v)) = unbonds_claim us /\ unbonds_ok us /\
    forall p, p ∈ ((fun u => addr (unbonding_bonding_purse u)) <$> us) -> bonding (gs (world st)) p) as (Hc & Hok & Hp).
  { unfold claim_at. destruct Eu as [Eu|[Eu ->]]; rewrite Eu.
    - split; [done|]. split; [exact (sd_records _ _ _ _ _ _ _ S _ _ Eu)|]. intros p Hp.
      by exists (Unbond (from_public_key v)), (StoredUnbonding us).
    - split; [done|]. split; [constructor|]. intros p Hp. by apply not_elem_of_nil in Hp. }
  match goal with |- context [upd ?k ?v _] => destruct (steady_write registry h mint_contract ts 0 st l st l e
    (fun p => e p - at_addr (addr u) (U512_val a) p) k v g) as [X S1] end; [apply ext_refl|done|done| | | |].
  4: split; [exact X|]; split; [exact S1|]; intros x; cbn; by rewrite lookup_insert_ne.
  - cbn. apply Forall_app. split; [done|]. by constructor.
  - intros p. rewrite Hc. cbn [stored_claim]. rewrite unbonds_claim_app. unfold unbonds_claim, unbond_claim. cbn. lia.
  - cbn. intros p. rewrite fmap_app. cbn. intros [?|Hin%list_elem_of_singleton]%elem_of_app; left; [auto|by subst].
Qed.

Lemma U512_checked_sub_Some a b c : U512_checked_sub a b = Some c -> in_int TU512 (U512_val a) ->
  U512_val c = U512_val a - U512_val b /\ (0 <= U512_val b -> in_int TU512 (U512_val c)).
Proof.
  unfold U512_checked_sub. destruct (checked_sub _ _) as [z|] eqn:E; [|done]. intros [= <-]. cbn.
  apply checked_sub_Some in E as [-> Hr]. intros [? ?]. split; [done|]. intros ?. split; lia.
Qed.

Lemma decrease_bid b a t r b' : Bid_decrease_stake b a t = Ok (r, b') -> bid_ok b -> in_int TU512 (U512_val a) ->
  b' = with_bid_stake b r /\ bid_ok b' /\
  (forall p, bid_claim b' p = bid_claim b p - at_addr (addr (bid_bonding_purse b)) (U512_val a) p).
Proof.
  unfold Bid_decrease_stake. intros (z & Ez%ok_or_Ok & E)%bind_Ok [Hb Hf] Ha.
  destruct (U512_checked_sub_Some _ _ _ Ez Hb) as [Ev Hz]. specialize (Hz (proj1 Ha)).
  assert (r = z /\ b' = with_bid_stake b z) as [-> ->].
  { destruct (bid_vesting_schedule b) as [v|]; [|by injection E as <- <-].
    destruct (locked_amount v t) as [x|]; [|done]. destruct (U512_lt _ _); [done|]. by injection E as <- <-. }
  split; [done|]. split; [by split|]. intros p. unfold bid_claim. cbn. rewrite Ev, <- Z.add_opp_r, at_addr_add.
  assert (at_addr (addr (bid_bonding_purse b)) (- U512_val a) p = - at_addr (addr (bid_bonding_purse b)) (U512_val a) p) as ->
    by (unfold at_addr; destruct (decide _); lia). lia.
Qed.

Lemma decrease_delegator d a t r d' : Delegator_decrease_stake d a t = Ok (r, d') ->
  in_int TU512 (U512_val (delegator_staked_amount d)) -> in_int TU512 (U512_val a) ->
  d' = with_delegator_stake d r /\ in_int TU512 (U512_val r) /\
  (forall p, delegator_claim d' p = delegator_claim d p - at_addr (addr (delegator_bonding_purse d)) (U512_val a) p).
Proof.
  unfold Delegator_decrease_stake. intros (z & Ez%ok_or_Ok & E)%bind_Ok Hd Ha.
  destruct (U512_checked_sub_Some _ _ _ Ez Hd) as [Ev Hz]. specialize (Hz (proj1 Ha)).
  assert (r = z /\ d' = with_delegator_stake d z) as [-> ->].
  { destruct (delegator_vesting_schedule d) as [v|]; [|by injection E as <- <-].
    destruct (locked_amount v t) as [x|]; [|done]. destruct (U512_lt _ _); [done|]. by injection E as <- <-. }
  split; [done|]. split; [done|]. intros p. unfold delegator_claim. cbn. rewrite Ev, <- Z.add_opp_r, at_addr_add.
  unfold at_addr. destruct (decide _); lia.
Qed.

Lemma unbond_all_steady v a b ds : forall st l e r st', steady st l e ->
  gs (world st) !! KeyTypes.Bid a = Some (StoredBid b) -> (forall x, x ∈ ds -> x ∈ entries (bid_delegators b)) ->
  rt_for ds (fun x => create_unbonding_purse v x.1 (delegator_bonding_purse x.2) (delegator_staked_amount x.2) None) st = (Ok r, st') ->
  ext 0 st l st' l /\ steady st' l (fun p => e p - delegators_claim ds p) /\
  forall x, gs (world st') !! KeyTypes.Bid x = gs (world st) !! KeyTypes.Bid x.
Proof.
  induction ds as [|[k d] ds IH]; intros st l e r st' S Eb Hin E; cbn [rt_for] in E.
  { injection E as _ <-. split; [apply ext_refl|]. split; [|done]. eapply steady_le, S. intros p. cbn. lia. }
  apply rt_bind_Ok in E as ([] & st1 & Eu & E). cbn [fst snd] in Eu.
  destruct (sd_records _ _ _ _ _ _ _ S _ _ Eb) as [[_ Hf] _].
  destruct (unbonding_steady v k (delegator_bonding_purse d) (delegator_staked_amount d) None st l e () st1 S)
    as (X & S1 & Hb); [| |exact Eu|].
  { apply (proj1 (Forall_forall _ _) Hf (k, d)), Hin. by left. }
  { eapply bid_purse_bonding; [exact Eb|]. right. apply list_elem_of_fmap. exists (k, d). split; [done|]. apply Hin. by left. }
  destruct (IH st1 l _ r st' S1) as (X2 & S2 & Hb2); [by rewrite Hb|intros x ?; apply Hin; by right|done|].
  split; [by apply (ext_trans 0 0 _ _ _ _ _ _ X X2)|]. split; [|intros x; by rewrite Hb2, Hb].
  eapply steady_le, S2. intros p. cbv beta. rewrite delegators_claim_cons. unfold delegator_claim. cbn [snd]. lia.
Qed.

Lemma withdraw_bid_advances pk a st l e r st' : steady st l e -> in_int TU512 (U512_val a) ->
  withdraw_bid pk a st = (Ok r, st') -> advances 0 st l e st'.
Proof.
  intros S Ha E. unfold withdraw_bid in E. cbv zeta in E.
  apply inert_bind_Ok in E as ([] & _ & E); [|apply inert_session_caller].
  apply rt_bind_Ok in E as (found & st1 & [-> Eb]%read_bid_Ok & E).
  apply rt_bind_Ok in E as (b & st1 & [-> ->]%rt_ok_or_Ok & E). cbn in Eb.
  apply inert_bind_Ok in E as (t & _ & E); [|apply inert_era_end].
  apply inert_bind_Ok in E as ([z b'] & [= Ed] & E); [|apply inert_lift].
  destruct (sd_records _ _ _ _ _ _ _ S _ _ Eb) as [Hok Ek]. destruct (decrease_bid _ _ _ _ _ Ed Hok Ha) as (-> & Hok' & Hc).
  apply rt_bind_Ok in E as ([] & st1 & Eu & E).
  destruct (unbonding_steady _ _ _ _ _ _ _ _ _ _ S Ha (bid_purse_bonding _ _ _ _ Eb (list_elem_of_here _ _)) Eu)
    as (X & S1 & Hb).
  apply (advances_after registry h mint_contract ts 0 0 0 st l st1 l); [exact X|done|]. rewrite <- Hb in Eb.
  destruct (U512_val z =? 0).
  - apply rt_bind_Ok in E as ([] & st2 & El & E). apply rt_bind_Ok in E as ([] & st3 & Ew & E). injection E as _ <-.
    destruct (unbond_all_steady _ _ b _ _ _ _ _ _ S1 Eb ltac:(done) El) as (X2 & S2 & Hb2).
    apply (advances_after registry h mint_contract ts 0 0 0 st1 l st2 l); [exact X2|done|]. rewrite <- Hb2 in Eb.
    destruct (write_bid_steady _ _ _ _ _ _ _ _ S2 Eb Ew) as [X3 S3]; [done| |..].
    + split; [apply Hok'|constructor].
    + cbn. intros p ->%list_elem_of_singleton. by left.
    + apply ext_advances; [exact X3|]. eapply steady_le, S3. intros p. cbn. specialize (Hc p). unfold bid_claim in *. cbn in *. lia.
  - apply rt_bind_Ok in E as ([] & st2 & Ew & E). injection E as _ <-.
    destruct (write_bid_steady _ _ _ _ _ _ _ _ S1 Eb Ew) as [X3 S3]; [done|done|done|].
    apply ext_advances; [exact X3|]. eapply steady_le, S3. intros p. cbn. specialize (Hc p). lia.
Qed.

Lemma purses_sub b ds : (forall x, x ∈ ds -> exists y, y ∈ entries (bid_delegators b) /\
    addr (delegator_bonding_purse x.2) = addr (delegator_bonding_purse y.2)) ->
  forall p, p ∈ bid_purses (with_delegators b (BTreeMap ds)) -> p ∈ bid_purses b.
Proof.
  intros Hd p [->|(x & -> & (y & Hy & ->)%Hd)%list_elem_of_fmap]%elem_of_cons; [by left|].
  right. apply list_elem_of_fmap. by exists y.
Qed.

Lemma decrease_delegation_advances dk vk a nv st l e r st' : steady st l e -> in_int TU512 (U512_val a) ->
  decrease_delegation dk vk a nv st = (Ok r, st') -> advances 0 st l e st'.
Proof.
  intros S Ha E. unfold decrease_delegation in E. cbv zeta in E.
  apply rt_bind_Ok in E as (found & st1 & [-> Eb]%read_bid_Ok & E).
  apply rt_bind_Ok in E as (b & st1 & [-> ->]%rt_ok_or_Ok & E). cbn in Eb.
  destruct (btree_get dk (entries (bid_delegators b))) as [d|] eqn:Ed; [|done].
  destruct (bid_delegator_ok _ _ _ _ _ _ _ _ _ _ _ S Eb Ed) as [Hd Hbond].
  apply rt_bind_Ok in E as ([] & st1 & Eu & E).
  destruct (unbonding_steady _ _ _ _ _ _ _ _ _ _ S Ha Hbond Eu) as (X & S1 & Hb).
  apply (advances_after registry h mint_contract ts 0 0 0 st l st1 l); [exact X|done|]. rewrite <- Hb in Eb.
  apply inert_bind_Ok in E as (t & _ & E); [|apply inert_era_end].
  apply inert_bind_Ok in E as ([z d'] & [= Er] & E); [|apply inert_lift].
  destruct (decrease_delegator _ _ _ _ _ Er Hd Ha) as (-> & Hz & Hc).
  apply rt_bind_Ok in E as ([] & st2 & Ew & E). injection E as _ <-.
  destruct (sd_records _ _ _ _ _ _ _ S1 _ _ Eb) as [[Hs Hf] _]. pose proof (btree_get_in _ _ _ Ed) as [k' Hk'].
  destruct (write_bid_steady _ _ _ _ _ _ _ _ S1 Eb Ew) as [X2 S2]; [done| | |].
  - split; [done|]. cbn. apply Forall_forall. intros x Hx. destruct (U512_val z =? 0).
    + apply btree_remove_elem in Hx. by apply (proj1 (Forall_forall _ _) Hf).
    + apply btree_insert_elem in Hx as [->|Hx]; [done|]. by apply (proj1 (Forall_forall _ _) Hf).
  - apply purses_sub. intros x Hx. destruct (U512_val z =? 0).
    + apply btree_remove_elem in Hx. by exists x.
    + apply btree_insert_elem in Hx as [->|Hx]; [by exists (k', d)|by exists x].
  - apply ext_advances; [exact X2|]. eapply steady_le, S2. intros p. cbv beta. rewrite bid_claim_with_delegators.
    specialize (Hc p). unfold bid_claim. destruct (U512_val z =? 0) eqn:Ez.
    + apply Z.eqb_eq in Ez. unfold delegator_claim at 1 in Hc. cbn in Hc. rewrite Ez, at_addr_zero in Hc.
      rewrite delegators_claim_remove, Ed. lia.
    + rewrite delegators_claim_insert, Ed. lia.
Qed.

Lemma undelegate_advances dk vk a st l e r st' : steady st l e -> in_int TU512 (U512_val a) ->
  undelegate dk vk a st = (Ok r, st') -> advances 0 st l e st'.
Proof.
  intros S Ha E. apply inert_bind_Ok in E as ([] & _ & E); [|apply inert_session_caller].
  by eapply decrease_delegation_advances.
Qed.
Lemma redelegate_advances dk vk a nv m st l e r st' : steady st l e -> in_int TU512 (U512_val a) ->
  redelegate dk vk a nv m st = (Ok r, st') -> advances 0 st l e st'.
Proof.
  intros S Ha E. apply inert_bind_Ok in E as ([] & _ & E); [|apply inert_session_caller].
  apply inert_bind_Ok in E as ([] & _ & E); [|apply inert_ensure]. by eapply decrease_delegation_advances.
Qed.

Lemma activate_bid_advances pk st l e r st' : steady st l e -> activate_bid pk st = (Ok r, st') -> advances 0 st l e st'.
Proof.
  intros S E. unfold activate_bid in E. cbv zeta in E. apply inert_bind_Ok in E as ([] & _ & E); [|apply inert_session_caller].
  apply rt_bind_Ok in E as (found & st1 & [-> Eb]%read_bid_Ok & E).
  apply rt_bind_Ok in E as (b & st1 & [-> ->]%rt_ok_or_Ok & E).
  destruct (sd_records _ _ _ _ _ _ _ S _ _ Eb) as [Hok _].
  destruct (write_bid_steady _ _ _ _ _ _ _ _ S Eb E) as [X S']; [done|done|done|].
  apply ext_advances; [exact X|]. eapply steady_le, S'. intros p. unfold bid_claim. cbn. lia.
Qed.

(** ** Slashing *)

Lemma slash_bid_claim b p : bid_claim (slash_bid b) p = 0.
Proof.
  change (bid_claim (slash_bid b) p) with (at_addr (addr (bid_bonding_purse b)) 0 p +
    delegators_claim ((fun x => (x.1, with_delegator_stake x.2 (MkU512 0))) <$> entries (bid_delegators b)) p).
  rewrite at_addr_zero. generalize (entries (bid_delegators b)). intros ds.
  induction ds as [|[k d] ds IH]; [done|]. cbn [fmap list_fmap]. rewrite delegators_claim_cons. unfold delegator_claim at 1.
  cbn [snd delegator_staked_amount with_delegator_stake U512_val]. rewrite at_addr_zero. exact IH.
Qed.

Lemma slash_bid_ok b : bid_ok (slash_bid b).
Proof.
  split; [apply zero_int|]. cbn. apply Forall_forall. intros x (y & -> & _)%list_elem_of_fmap. apply zero_int.
Qed.

Lemma slash_bid_steady a b st l e r st' : steady st l e -> gs (world st) !! KeyTypes.Bid a = Some (StoredBid b) ->
  write_bid a (slash_bid b) st = (Ok r, st') -> ext 0 st l st' l /\ steady st' l e.
Proof.
  intros S Eb Ew. destruct (sd_records _ _ _ _ _ _ _ S _ _ Eb) as [Hok Ek].
  destruct (write_bid_steady _ _ _ _ _ _ _ _ S Eb Ew) as [X S']; [done|apply slash_bid_ok| |].
  - apply (purses_sub (deactivate (with_bid_stake b (MkU512 0))).2). intros x (y & -> & Hy)%list_elem_of_fmap. by exists y.
  - split; [exact X|]. eapply steady_le, S'. intros p. cbv beta. rewrite slash_bid_claim.
    pose proof (stored_claim_nonneg (KeyTypes.Bid a) (StoredBid b) p (conj Hok Ek)). cbn [stored_claim] in *. lia.
Qed.

Lemma drop_unbonds_steady a st l e r st' : steady st l e -> write_unbond a [] st = (Ok r, st') ->
  ext 0 st l st' l /\ steady st' l e.
Proof.
  intros S [g ->]%write_unbond_Ok. apply (steady_write registry h mint_contract ts 0 st l st l e); [apply ext_refl|done|done| | |].
  - constructor.
  - intros p. cbn [stored_claim]. unfold claim_at. destruct (gs (world st) !! Unbond a) as [v|] eqn:Eu; [|cbn; lia].
    pose proof (stored_claim_nonneg _ _ p (sd_records _ _ _ _ _ _ _ S _ _ Eu)). cbn [unbonds_claim foldr]. lia.
  - cbn. intros p Hp. by apply not_elem_of_nil in Hp.
Qed.

Lemma plain_add_int {E} a b z : plain_add (E:=E) 512 a b = Ok z -> in_int TU512 a -> in_int TU512 b ->
  z = a + b /\ in_int TU512 z.
Proof.
  unfold plain_add, expect. destruct (checked_add 512 a b) as [y|] eqn:Ey; [|done]. intros [= <-] [? _] [? _].
  apply checked_add_Some in Ey as [-> Hr]. split; [done|]. split; [lia|apply Hr].
Qed.

Lemma U512_sum_int {E} us z : U512_sum (E:=E) us = Ok z -> Forall (fun a => in_int TU512 (U512_val a)) us -> in_int TU512 z.
Proof.
  revert z. induction us as [|a us IH]; intros z; cbn; [intros [= <-] _; apply zero_int|].
  intros (s & Es & Ez)%bind_Ok [Ha Hu]%Forall_cons. by apply (plain_add_int _ _ _ Ez), (IH _ Es Hu).
Qed.

Lemma slash_validators_steady vs : forall burned st l e r st', steady st l e -> in_int TU512 burned ->
  slash_validators vs burned st = (Ok r, st') -> ext 0 st l st' l /\ steady st' l e /\ in_int TU512 r.
Proof.
  induction vs as [|v vs IH]; intros burned st l e r st' S Hb E; cbn [slash_validators] in E; cbv zeta in E.
  { injection E as <- <-. split; [apply ext_refl|done]. }
  apply rt_bind_Ok in E as (found & st1 & [-> Eb]%read_bid_Ok & E).
  apply rt_bind_Ok in E as (burned1 & st1 & E1 & E).
  assert (ext 0 st l st1 l /\ steady st1 l e /\ in_int TU512 burned1) as (X1 & S1 & Hb1).
  { destruct found as [b|]; [|injection E1 as <- <-; split; [apply ext_refl|done]].
    apply inert_bind_Ok in E1 as (z & [= Ez] & E1); [|apply inert_lift].
    apply rt_bind_Ok in E1 as ([] & st2 & Ew & E1). injection E1 as <- <-.
    destruct (slash_bid_steady _ _ _ _ _ _ _ S Eb Ew) as [X S']. split; [done|]. split; [done|].
    apply (plain_add_int _ _ _ Ez Hb), (sd_records _ _ _ _ _ _ _ S _ _ Eb). }
  apply rt_bind_Ok in E as (us & st2 & [-> Eu]%read_unbond_Ok & E).
  apply rt_bind_Ok in E as (burned2 & st2 & E2 & E).
  assert (ext 0 st1 l st2 l /\ steady st2 l e /\ in_int TU512 burned2) as (X2 & S2 & Hb2).
  { destruct (bool_decide (us = [])) eqn:En; [injection E2 as <- <-; split; [apply ext_refl|done]|].
    apply inert_bind_Ok in E2 as (sum & [= Es] & E2); [|apply inert_lift].
    apply inert_bind_Ok in E2 as (z & [= Ez] & E2); [|apply inert_lift].
    apply rt_bind_Ok in E2 as ([] & st3 & Ew & E2). injection E2 as <- <-.
    destruct (drop_unbonds_steady _ _ _ _ _ _ S1 Ew) as [X S']. split; [done|]. split; [done|].
    apply (plain_add_int _ _ _ Ez Hb1), (U512_sum_int _ _ Es), Forall_fmap.
    destruct Eu as [Eu|[_ ->]]; [exact (sd_records _ _ _ _ _ _ _ S1 _ _ Eu)|constructor]. }
  destruct (IH _ _ _ _ _ _ S2 Hb2 E) as (X3 & S3 & Hr). split; [|done].
  exact (ext_trans 0 0 _ _ _ _ _ _ X1 (ext_trans 0 0 _ _ _ _ _ _ X2 X3)).
Qed.

Lemma slash_advances vs st l e r st' : steady st l e -> fresh_next 1 st l -> slash vs st = (Ok r, st') -> advances 0 st l e st'.
Proof.
  intros S Fr E. apply inert_bind_Ok in E as ([] & _ & E); [|apply inert_require_system].
  apply rt_bind_Ok in E as (burned & st1 & E1 & E).
  destruct (slash_validators_steady _ _ _ _ _ _ _ S zero_int E1) as (X & S1 & Hb).
  destruct (reduce_steady registry h mint_contract ts (MkU512 burned) st1 l e r st') as (l' & X2 & S2);
    [done|by apply (fresh_ext ts 0 1 _ _ _ _ X)|done|done|].
  exists 0%nat, l'. split; [lia|]. split; [exact (ext_trans 0 0 _ _ _ _ _ _ X X2)|done].
Qed.

(** ** Bidding and delegating *)

(** What left the caller's main purse is not recorded against it. *)
Lemma settle b st l a st' : steady st l (fun _ => 0) -> fresh_next b st l ->
  is_Some (balances l !! addr (main_purse (account (ctx st)))) ->
  ~ bonding (gs (world st)) (addr (main_purse (account (ctx st)))) ->
  advances b st l (fun p => - at_addr (addr (main_purse (account (ctx st)))) a p) st' ->
  advances b st l (fun _ => 0) st'.
Proof.
  intros S Fr Hm Hnb (n & l' & Hn & X & S'). exists n, l'. split; [done|]. split; [done|].
  destruct S' as [L R B A]. split; [done..| |done]. intros p.
  destruct (decide (addr (main_purse (account (ctx st))) = p)) as [<-|Hne].
  - rewrite claims_not_bonding.
    + destruct (ext_dom _ _ _ _ _ X _ Hm) as [z Ez]. unfold balance_of. rewrite Ez. cbn.
      apply (balance_range _ _ _ _ _ (hl_represents _ _ _ _ _ _ L) Ez).
    + intros [?|Hin]%(ext_bonding _ _ _ _ _ X); [done|]. destruct (draws_le n b (address_generator (world st)) Hn) as [rest Er].
      destruct (proj2 Fr (addr (main_purse (account (ctx st))))) as [Hb _]; [rewrite Er; set_solver|].
      rewrite Hb in Hm. by destruct Hm.
  - specialize (B p). unfold at_addr in B. rewrite decide_False in B by done. lia.
Qed.

Lemma delegate_advances dk vk a m st l r st' : steady st l (fun _ => 0) -> fresh_next 2 st l -> in_int TU512 (U512_val a) ->
  is_Some (balances l !! addr (main_purse (account (ctx st)))) ->
  ~ bonding (gs (world st)) (addr (main_purse (account (ctx st)))) ->
  delegate dk vk a m st = (Ok r, st') -> advances 2 st l (fun _ => 0) st'.
Proof.
  intros S Fr Ha Hm Hnb E. unfold delegate in E. apply inert_bind_Ok in E as ([] & _ & E); [|apply inert_ensure].
  apply inert_bind_Ok in E as ([] & _ & E); [|apply inert_map_err, inert_session_caller].
  apply inert_bind_Ok in E as (source & [= <-] & E); [|inert].
  apply rt_bind_Ok in E as (b & st1 & Eb & E).
  apply (found_bid ApiAuctionError) in Eb as [-> Eb].
  apply inert_bind_Ok in E as ([] & _ & E); [|apply inert_ensure].
  destruct (delegation_advances _ _ _ _ _ _ _ _ _ _ _ _ _ _ S Fr Ha Eb E) as [A _].
  eapply settle; [done|done|done|done|exact A].
Qed.

Lemma increase_bid b a r b' : Bid_increase_stake b a = Ok (r, b') -> bid_ok b -> in_int TU512 (U512_val a) ->
  b' = with_bid_stake b r /\ bid_ok b' /\
  (forall p, bid_claim b' p = bid_claim b p + at_addr (addr (bid_bonding_purse b)) (U512_val a) p).
Proof.
  unfold Bid_increase_stake. intros (z & Ez%ok_or_Ok & [= <- <-])%bind_Ok [Hb Hf] Ha.
  destruct (U512_checked_add_Some _ _ _ Ez Hb Ha) as [Ev Hz]. split; [done|]. split; [by split|].
  intros p. unfold bid_claim. cbn. rewrite Ev, at_addr_add. lia.
Qed.

(** A bid that already exists grows by the transferred amount. *)
Lemma raise_bid_advances error acct b b1 a rate s st l st1 z b2 st' r :
  steady st l (fun _ => 0) -> fresh_next 1 st l -> in_int TU512 (U512_val a) ->
  gs (world st) !! KeyTypes.Bid acct = Some (StoredBid b) -> b1 = b \/ b1 = (activate b).2 ->
  stake_transfer error s (bid_bonding_purse b1) a st = (Ok (), st1) ->
  Bid_increase_stake (with_delegation_rate b1 rate) a = Ok (z, b2) -> write_bid acct b2 st1 = (Ok r, st') ->
  advances 1 st l (fun p => - at_addr (addr s) (U512_val a) p) st'.
Proof.
  intros S Fr Ha Eb Hb1 Et Ei Ew. destruct (sd_records _ _ _ _ _ _ _ S _ _ Eb) as [Hok Ek].
  destruct (transfer_moves _ _ _ _ _ _ _ _ _ _ _ _ _ S Fr Ha Et) as (n & l' & Hn & X & S' & Hs).
  assert (gs (world st1) !! KeyTypes.Bid acct = Some (StoredBid b)) as Eb1 by (by rewrite Hs).
  destruct (increase_bid _ _ _ _ Ei) as (-> & Hok' & Hc); [by destruct Hb1 as [->| ->]|done|].
  destruct (write_bid_steady _ _ _ _ _ _ _ _ S' Eb1 Ew) as [X2 S2]; [by destruct Hb1 as [->| ->]|done|by destruct Hb1 as [->| ->]|].
  exists (n + 0)%nat, l'. split; [lia|]. split; [by eapply ext_trans|]. eapply steady_le, S2. intros p. cbv beta.
  rewrite Hc. unfold shifted. assert (bid_claim (with_delegation_rate b1 rate) p = bid_claim b p) as -> by (by destruct Hb1 as [->| ->]).
  change (bid_bonding_purse (with_delegation_rate b1 rate)) with (bid_bonding_purse b1). lia.
Qed.

(** A new bid in a new purse. *)
Lemma open_bid_advances error pk a rate s u st l st1 st2 st' r :
  steady st l (fun _ => 0) -> fresh_next 2 st l -> in_int TU512 (U512_val a) ->
  gs (world st) !! KeyTypes.Bid (from_public_key pk) = None -> auction_create_purse st = (Ok u, st1) ->
  stake_transfer error s u a st1 = (Ok (), st2) ->
  write_bid (from_public_key pk) (Bid_unlocked pk u a rate) st2 = (Ok r, st') ->
  advances 2 st l (fun p => - at_addr (addr s) (U512_val a) p) st'.
Proof.
  intros S Fr Ha Eb Ec Et [g ->]%write_bid_Ok.
  destruct (create_steady _ _ _ _ _ _ _ _ _ S (fresh_next_le _ 1 2 _ _ ltac:(lia) Fr) Ec) as (n & l1 & Hn & X & S1 & Hs & Hu).
  assert (fresh_next 1 st1 l1) as Fr1.
  { eapply (fresh_ext _ n); [exact X|]. eapply fresh_next_le, Fr. lia. }
  destruct (transfer_moves _ _ _ _ _ _ _ _ _ _ _ _ _ S1 Fr1 Ha Et) as (m & l2 & Hm & X2 & S2 & Hs2).
  destruct (steady_write registry h mint_contract ts (n + m) st l st2 l2 _ (fun p => - at_addr (addr s) (U512_val a) p)
    (KeyTypes.Bid (from_public_key pk)) (StoredBid (Bid_unlocked pk u a rate)) g (ext_trans _ _ _ _ _ _ _ _ X X2) S2)
    as [X' S']; [done|split; [split; [done|apply Forall_nil_2]|done]|..].
  - intros p. unfold claim_at. rewrite Hs2, Hs, Eb by done. unfold shifted. cbn. unfold bid_claim, delegators_claim. cbn. lia.
  - cbn. intros p ->%list_elem_of_singleton. right. rewrite draws_add. cbn. set_solver.
  - exists (n + m)%nat, l2. split; [lia|done].
Qed.

Lemma add_bid_advances pk rate a st l r st' : steady st l (fun _ => 0) -> fresh_next 2 st l -> in_int TU512 (U512_val a) ->
  is_Some (balances l !! addr (main_purse (account (ctx st)))) ->
  ~ bonding (gs (world st)) (addr (main_purse (account (ctx st)))) ->
  add_bid pk rate a st = (Ok r, st') -> advances 2 st l (fun _ => 0) st'.
Proof.
  intros S Fr Ha Hm Hnb E. unfold add_bid in E. cbv zeta in E.
  do 2 (apply inert_bind_Ok in E as ([] & _ & E); [|apply inert_ensure]).
  apply inert_bind_Ok in E as ([] & _ & E); [|apply inert_map_err, inert_session_caller].
  apply inert_bind_Ok in E as (source & [= <-] & E); [|inert].
  apply rt_bind_Ok in E as (found & st1 & [-> Eb]%api_Ok%read_bid_Ok & E).
  apply (settle 2 st l (U512_val a)); [done..|]. destruct found as [b|].
  - apply rt_bind_Ok in E as ([] & st1 & Et & E). apply rt_bind_Ok in E as ([z b2] & st2 & Ei%api_Ok & E).
    injection Ei as Ei <-. apply rt_bind_Ok in E as ([] & st3 & Ew%api_Ok & E). injection E as _ <-.
    apply (advances_le _ _ _ _ 1 2 st l (fun p => - at_addr (addr (main_purse (account (ctx st)))) (U512_val a) p)); [lia|done|].
    eapply raise_bid_advances; [done|eapply fresh_next_le, Fr; lia|done|exact Eb| |exact Et|exact Ei|exact Ew].
    destruct (bid_inactive b); auto.
  - apply rt_bind_Ok in E as (u & st1 & Ec%api_Ok & E). apply rt_bind_Ok in E as ([] & st2 & Et & E).
    apply rt_bind_Ok in E as ([] & st3 & Ew%api_Ok & E). injection E as _ <-. by eapply open_bid_advances.
Qed.

(** ** Running the auction *)

(** Bids that differ in vesting schedules and activity only. *)
Definition bid_like (b b' : Bid) : Prop :=
  bid_validator_public_key b' = bid_validator_public_key b /\ (forall p, bid_claim b' p = bid_claim b p) /\
  bid_purses b' = bid_purses b /\ (bid_ok b -> bid_ok b').

Lemma process_delegators_like t period ds : forall r ds', process_delegators t period ds = Ok (r, ds') ->
  (forall p, delegators_claim ds' p = delegators_claim ds p) /\
  (fun x : PublicKey * Delegator => delegator_bonding_purse x.2) <$> ds' = (fun x => delegator_bonding_purse x.2) <$> ds /\
  (fun x : PublicKey * Delegator => delegator_staked_amount x.2) <$> ds' = (fun x => delegator_staked_amount x.2) <$> ds.
Proof.
  induction ds as [|[k d] ds IH]; intros r ds'; cbn [process_delegators]; [by intros [= _ <-]|].
  intros ([x d'] & Ed & ([y ds1] & (Hc & Hp & Hs)%IH & [= _ <-])%bind_Ok)%bind_Ok.
  assert (delegator_bonding_purse d' = delegator_bonding_purse d /\ delegator_staked_amount d' = delegator_staked_amount d) as [E1 E2].
  { unfold process_delegator in Ed. destruct (delegator_vesting_schedule d) as [v|]; [|by injection Ed as _ <-].
    destruct (_ <=? t); [|by injection Ed as _ <-]. by apply bind_Ok in Ed as ([? ?] & _ & [= _ <-]). }
  cbn [fmap list_fmap snd]. rewrite E1, E2. split; [|split; f_equal; done].
  intros p. rewrite !delegators_claim_cons, Hc. unfold delegator_claim. cbn [snd]. by rewrite E1, E2.
Qed.

Lemma process_bid_like b t period r b' : process_with_vesting_schedule b t period = Ok (r, b') -> bid_like b b'.
Proof.
  unfold process_with_vesting_schedule. destruct (bid_vesting_schedule b) as [v|]; [|by intros [= _ <-]].
  destruct (t <? _); [by intros [= _ <-]|].
  intros ([x v'] & _ & ([y ds] & (Hc & Hp & Hs)%process_delegators_like & [= _ <-])%bind_Ok)%bind_Ok.
  split; [done|]. split; [intros p; unfold bid_claim; cbn [entries bid_delegators bid_bonding_purse bid_staked_amount]; by rewrite Hc|].
  split.
  - unfold bid_purses. cbn [entries bid_delegators bid_bonding_purse]. f_equal.
    transitivity (addr <$> ((fun x : PublicKey * Delegator => delegator_bonding_purse x.2) <$> ds)); [by rewrite <- list_fmap_compose|].
    rewrite Hp. by rewrite <- list_fmap_compose.
  - intros [Hb Hf]. split; [done|]. cbn.
    assert (Forall (fun z => in_int TU512 (U512_val z)) ((fun x : PublicKey * Delegator => delegator_staked_amount x.2) <$> ds)) as Hds
      by (rewrite Hs; apply Forall_fmap; exact Hf). by rewrite Forall_fmap in Hds.
Qed.

Lemma process_bids_like t evicted bids : forall m r bids', process_bids t evicted bids m = Ok (bids', r) ->
  Forall2 (fun x y => bid_like x.2 y.2) bids bids'.
Proof.
  induction bids as [|[k b] bids IH]; intros m r bids'; cbn [process_bids]; [by intros [= <- _]|].
  intros ([x b1] & Eb%process_bid_like & E)%bind_Ok. cbv zeta in E.
  destruct (bool_decide (k ∈ evicted)); cbn in E; apply bind_Ok in E as ([bs y] & E%IH & [= <- _]); constructor; try done.
Qed.

Lemma read_bids_Ok keys : forall ret st bs st', read_bids keys ret st = (Ok bs, st') -> st' = st /\
  forall x, x ∈ bs -> x ∈ ret \/ exists a, gs (world st) !! KeyTypes.Bid a = Some (StoredBid x.2).
Proof.
  induction keys as [|k keys IH]; intros ret st bs st' E; cbn [read_bids] in E; [injection E as <- <-; auto|].
  apply inert_bind_Ok in E as (a & _ & E); [|destruct k; inert].
  apply rt_bind_Ok in E as (found & st1 & [-> Eb]%read_bid_Ok & E).
  apply rt_bind_Ok in E as (b & st1 & [-> ->]%rt_ok_or_Ok & E). apply IH in E as [-> Hx]. split; [done|].
  intros x [[Ex|Hin]%btree_insert_elem|?]%Hx; [right; exists a; by rewrite Ex|auto|auto].
Qed.

Lemma get_bids_Ok st l e bs st' : steady st l e -> get_bids st = (Ok bs, st') -> alike st st' /\
  forall x, x ∈ bs -> gs (world st) !! KeyTypes.Bid (from_public_key (bid_validator_public_key x.2)) = Some (StoredBid x.2).
Proof.
  intros S. unfold get_bids. intros (keys & st1 & Ek & E)%rt_bind_Ok.
  unfold auction_get_keys in Ek. apply rt_bind_Ok in Ek as (ks & st2 & Eg%rt_map_err_Ok & [= <- <-]).
  unfold rc_get_keys, gs_step in Eg. cbv [mbind RT_bind] in Eg. cbn in Eg. rewrite set_gs_same in Eg. injection Eg as _ <-.
  apply read_bids_Ok in E as [-> Hx]. split; [done|]. intros x [Hin|[a Ea]]%Hx; [by apply not_elem_of_nil in Hin|].
  destruct (sd_records _ _ _ _ _ _ _ S _ _ Ea) as [_ <-]. done.
Qed.

(** Bids read before other steps that only added to them can be written back: what they record does not exceed what is there. *)
Lemma set_bids_steady (m0 : gmap Key StoredValue) bs : forall st l e r st', steady st l e ->
  (forall x, x ∈ bs -> exists b, m0 !! KeyTypes.Bid (from_public_key (bid_validator_public_key b)) = Some (StoredBid b) /\
     bid_like b x.2 /\ bid_ok b) ->
  (forall a b, m0 !! KeyTypes.Bid a = Some (StoredBid b) -> exists b', gs (world st) !! KeyTypes.Bid a = Some (StoredBid b') /\ bid_grows b b') ->
  set_bids bs st = (Ok r, st') -> ext 0 st l st' l /\ steady st' l e.
Proof.
  induction bs as [|x bs IH]; intros st l e r st' S Hbs Hg E; cbn in E.
  { injection E as _ <-. split; [apply ext_refl|done]. }
  apply rt_bind_Ok in E as ([] & st1 & Ew & E).
  destruct (Hbs x ltac:(by left)) as (b & Eb & (Hk & Hc & Hp & Hok) & Hb).
  destruct (Hg _ _ Eb) as (b1 & Eb1 & Hk1 & Hc1 & Hp1). rewrite Hk in Ew.
  pose proof (write_bid_Ok _ _ _ _ _ Ew) as [g Est].
  destruct (write_bid_steady _ _ _ _ _ _ _ _ S Eb1 Ew) as [X S1]; [congruence|auto|intros p; rewrite Hp; apply Hp1|].
  destruct (IH st1 l e r st') as [X2 S2]; [|intros y Hy; apply Hbs; by right| |done|].
  - eapply steady_le, S1. intros p. cbv beta. specialize (Hc p). specialize (Hc1 p). lia.
  - intros a b2 E2. destruct (decide (a = from_public_key (bid_validator_public_key b))) as [->|Hne].
    + rewrite Eb in E2. injection E2 as <-. exists x.2. rewrite Est. cbn. rewrite lookup_insert_eq. split; [done|].
      split; [done|]. split; [intros p; by rewrite Hc|intros p; by rewrite Hp].
    + rewrite Est. cbn. rewrite lookup_insert_ne by congruence. by apply Hg.
  - split; [exact (ext_trans 0 0 _ _ _ _ _ _ X X2)|done].
Qed.

Lemma inert_api_read_from {A} `{CLTyped A} `{FromBytes A} name : inert (api (read_from (A:=A) name)).
Proof. apply inert_map_err, read_from_inert. Qed.

(** The reads that come first. *)
Lemma inert_slots : inert (api get_validator_slots).
Proof. apply inert_map_err. unfold get_validator_slots. inert; apply read_from_inert. Qed.
Lemma inert_delay : inert (api get_auction_delay).
Proof. apply inert_map_err. unfold get_auction_delay. inert; apply read_from_inert. Qed.

(** What follows the unbonding requests: the snapshot, the era and the bids. *)
Lemma conclude_steady (m0 : gmap Key StoredValue) snapshot era t (modified : bool) bs st l e r st' : steady st l e ->
  (forall x, x ∈ bs -> exists b, m0 !! KeyTypes.Bid (from_public_key (bid_validator_public_key b)) = Some (StoredBid b) /\
     bid_like b x.2 /\ bid_ok b) ->
  (forall a b, m0 !! KeyTypes.Bid a = Some (StoredBid b) -> exists b', gs (world st) !! KeyTypes.Bid a = Some (StoredBid b') /\ bid_grows b b') ->
  (_ ← api (set_seigniorage_recipients_snapshot snapshot); _ ← api (set_era_id era);
   _ ← api (set_era_end_timestamp_millis t); if modified then api (set_bids bs) else mret tt) st = (Ok r, st') ->
  ext 0 st l st' l /\ steady st' l e.
Proof.
  intros S Hbs Hg E.
  apply rt_bind_Ok in E as ([] & st1 & (X1 & S1 & Hs1)%api_Ok%(write_to_steady registry h mint_contract ts _ _ _ _ _ _ _ S) & E).
  apply rt_bind_Ok in E as ([] & st2 & (X2 & S2 & Hs2)%api_Ok%(write_to_steady registry h mint_contract ts _ _ _ _ _ _ _ S1) & E).
  apply rt_bind_Ok in E as ([] & st3 & (X3 & S3 & Hs3)%api_Ok%(write_to_steady registry h mint_contract ts _ _ _ _ _ _ _ S2) & E).
  pose proof (ext_trans 0 0 _ _ _ _ _ _ (ext_trans 0 0 _ _ _ _ _ _ X1 X2) X3) as X. destruct modified.
  - destruct (set_bids_steady m0 bs st3 l e r st' S3 Hbs) as [X4 S4]; [|by apply api_Ok|].
    + intros a b Eb. rewrite Hs3, Hs2, Hs1 by done. by apply Hg.
    + split; [exact (ext_trans 0 0 _ _ _ _ _ _ X X4)|done].
  - by injection E as _ <-.
Qed.

Lemma run_auction_advances t evicted st l e r st' : steady st l e -> fresh_next (2 * pending (gs (world st))) st l ->
  run_auction t evicted st = (Ok r, st') -> advances (2 * pending (gs (world st))) st l e st'.
Proof.
  intros S Fr E. unfold run_auction in E. cbv zeta in E.
  apply inert_bind_Ok in E as ([] & _ & E); [|apply inert_map_err, inert_require_system].
  apply inert_bind_Ok in E as (slots & _ & E); [|apply inert_slots].
  apply inert_bind_Ok in E as (delay & _ & E); [|apply inert_delay].
  apply inert_bind_Ok in E as (size & _ & E); [|apply inert_lift].
  apply inert_bind_Ok in E as (era & _ & E); [|apply inert_map_err, inert_get_era_id].
  apply rt_bind_Ok in E as (bids & st1 & Eb%api_Ok & E). destruct (get_bids_Ok _ _ _ _ _ S Eb) as [Al Hbids].
  apply rt_bind_Ok in E as ([] & st2 & Eu & E). pose proof (steady_alike _ _ _ _ _ _ _ _ Al S) as S1.
  pose proof (fresh_alike _ _ _ _ _ Al Fr) as Fr1. destruct Al as (Ew & Al). rewrite <- Ew in Fr1, Hbids.
  destruct (unbonding_advances _ _ _ _ _ _ _ _ _ S1 Fr1 Eu) as [(n & l2 & Hn & X & S2) Hg].
  apply inert_bind_Ok in E as ([bs modified] & Ep%api_Ok & E); [|apply inert_map_err, inert_lift].
  injection Ep as Ep%process_bids_like.
  apply inert_bind_Ok in E as (winners & _ & E); [|apply inert_map_err, inert_lift].
  apply inert_bind_Ok in E as (next & _ & E); [|unfold rt_ok_or; apply inert_lift].
  apply inert_bind_Ok in E as (delayed & _ & E); [|unfold rt_ok_or; apply inert_lift].
  apply inert_bind_Ok in E as (snapshot & _ & E); [|apply inert_api_read_from].
  apply inert_bind_Ok in E as (recipients & _ & E); [|apply inert_map_err, inert_lift].
  apply inert_bind_Ok in E as ([] & _ & E); [|destruct (bool_decide _); [apply inert_lift|by intros ?]].
  eapply conclude_steady in E as [X2 S3]; [|exact S2| |exact Hg].
  - exists (n + 0)%nat, l2. split; [rewrite Ew in Hn; lia|]. split; [|done]. eapply ext_trans, X2.
    by apply (ext_alike n st st1 l st2 l2).
  - intros x Hx. destruct (proj1 (list_elem_of_lookup _ _) Hx) as [i Hi].
    destruct (Forall2_lookup_r _ _ _ _ _ Ep Hi) as (y & Hy & HL). apply list_elem_of_lookup_2, Hbids in Hy.
    exists y.2. split; [done|]. split; [done|]. apply (sd_records _ _ _ _ _ _ _ S1 _ _ Hy).
Qed.

End AuctionSteps.
