(* ===== verification/AuctionRewards.v ===== *)
(** * Rewards

    [distribute] adds the rewards of an era to the recorded stakes and then
    mints them into the bonding purses.  What it mints is what it records, as
    stakes and as the seigniorage allocations of the era. *)

From S2P Require Import Prelude Bytesrepr Hashing KeyTypes Values PublicKeys Account Contracts SystemErrors AuctionData StoredValue Transform TrackingCopy TrackingSim RuntimeContext RuntimeConfine Mint SystemCalls Auction MintLedger Claims MintCalls Solvency AuctionSteps.
Local Open Scope Z_scope.

(** A [Ratio<U512>]: both parts are [U512]s and the denominator is not zero. *)
Definition ratio_typed (r : Ratio) : Prop := in_int TU512 (numer r) /\ 0 < denom r.

(** The operators of the crate return such ratios, with the values of the exact results. *)
Class RatioLaws `{RationalCrate} : Prop := {
  ratio_reduce_value n d : 0 <= n -> 0 < d ->
    0 < denom (ratio_reduce n d) /\ numer (ratio_reduce n d) * d = n * denom (ratio_reduce n d);
  ratio_checked_mul_value a b r : 0 < denom a -> 0 < denom b -> ratio_checked_mul a b = Some r ->
    0 < denom r /\ numer r * (denom a * denom b) = numer a * numer b * denom r;
  ratio_mul_typed a b r : ratio_mul a b = Some r -> ratio_typed r;
  ratio_sub_value a b r : 0 < denom a -> 0 < denom b -> ratio_sub a b = Some r ->
    ratio_typed r /\ numer r * (denom a * denom b) = (numer a * denom b - numer b * denom a) * denom r;
}.

Lemma div_same_value n d n' d' : 0 < d -> 0 < d' -> n * d' = n' * d -> n / d = n' / d'.
Proof.
  intros Hd Hd' E. rewrite <- (Z.div_mul_cancel_r n d d') by lia. rewrite E, Z.mul_comm, (Z.mul_comm d d').
  rewrite Z.mul_comm. rewrite (Z.mul_comm d' d), (Z.mul_comm n' d). by rewrite Z.div_mul_cancel_l by lia.
Qed.

Lemma to_integer_int r : ratio_typed r -> in_int TU512 (to_integer r).
Proof.
  intros [[Hn Hm] Hd]. unfold to_integer. split; [by apply Z.div_pos|].
  eapply Z.le_lt_trans; [|exact Hm]. apply Z.div_le_upper_bound; [done|]. nia.
Qed.

(** The sum of the allocations of an era. *)
Definition allocated `{KeyCrates} (l : list SeigniorageAllocation) : Z := foldr (fun a s => U512_val (allocation_amount a) + s) 0 l.
Definition paid (l : list (U512 * URef)) : Z := foldr (fun p s => U512_val p.1 + s) 0 l.
Definition paid_to (l : list (U512 * URef)) (p : URefAddr) : Z := foldr (fun x s => at_addr (addr x.2) (U512_val x.1) p + s) 0 l.

Lemma allocated_app `{KeyCrates} l l' : allocated (l ++ l') = allocated l + allocated l'.
Proof. induction l as [|a l IH]; cbn; [done|]. unfold allocated in *. lia. Qed.
Lemma paid_cons x l : paid (x :: l) = U512_val x.1 + paid l.
Proof. done. Qed.
Lemma paid_to_cons x l p : paid_to (x :: l) p = at_addr (addr x.2) (U512_val x.1) p + paid_to l p.
Proof. done. Qed.

Section AuctionRewards.
Context `{KeyCrates} `{Blake2b} `{AddressRng} `{EngineConfig} `{RationalCrate} `{!WasmCalls} `{!RatioLaws}.

Abbreviation M := (RT RuntimeState ExecError).
Abbreviation AM := (RT RuntimeState AuctionError).
Abbreviation AP := (RT RuntimeState ApiError).

Variable registry : btree_map rstring ContractHash.
Variable h : ContractHash.
Variable mint_contract : Contract.
Variable ts : URef.

Abbreviation fresh_next := (fresh_next ts).
Abbreviation steady := (steady registry h mint_contract ts).
Abbreviation advances := (advances registry h mint_contract ts).

Abbreviation payouts_ok := (Forall (fun x : U512 * URef => in_int TU512 (U512_val x.1))).

Lemma paid_nonneg l : payouts_ok l -> 0 <= paid l.
Proof. intros F. induction F as [|x l [Hx _] _ IH]; [done|]. rewrite paid_cons. lia. Qed.

(** ** Adding the rewards to the stakes *)

Abbreviation Reward := (PublicKey * res AuctionError Ratio)%type.
Abbreviation typed_rewards := (Forall (fun x : Reward => forall r, x.2 = Ok r -> ratio_typed r)).

Lemma delegator_rewards_typed recipient part total : typed_rewards (delegator_rewards recipient part total).
Proof.
  apply Forall_fmap, Forall_forall. intros x _ r. cbn. intros (m & _ & E)%bind_Ok. unfold ratio_res in E.
  destruct (ratio_mul part m) as [y|] eqn:Ey; [|done]. injection E as <-. by eapply ratio_mul_typed.
Qed.

(** The payouts are the allocations. *)
Lemma reinvest_delegators_values v rewards : typed_rewards rewards -> forall ds allocs st ds' pays allocs' st',
  reinvest_delegators v rewards ds allocs st = (Ok (ds', pays, allocs'), st') ->
  st' = st /\ payouts_ok pays /\ allocated allocs' = allocated allocs + paid pays.
Proof.
  intros F. induction F as [|[k reward] rewards Hr _ IH]; intros ds allocs st ds' pays allocs' st' E; cbn [reinvest_delegators] in E.
  { injection E as <- <- <- <-. split; [done|]. split; [constructor|]. cbn. lia. }
  apply inert_bind_Ok in E as (r & [= Er] & E); [|apply inert_lift]. destruct (btree_get k ds) as [d|]; [|by eapply IH].
  cbv zeta in E. apply inert_bind_Ok in E as ([x d'] & _ & E); [|apply inert_lift].
  apply rt_bind_Ok in E as ([[ds1 pays1] allocs1] & st1 & (-> & Hp & Ha)%IH & E). injection E as <- <- <- <-.
  split; [done|]. split; [constructor; [|done]; cbn; apply to_integer_int; by apply Hr|].
  rewrite Ha, allocated_app, paid_cons. cbn. lia.
Qed.

(** And they are what the stakes grow by. *)
Lemma reinvest_delegators_claims v rewards : typed_rewards rewards -> forall ds allocs st ds' pays allocs' st',
  reinvest_delegators v rewards ds allocs st = (Ok (ds', pays, allocs'), st') ->
  Forall (fun x : PublicKey * Delegator => in_int TU512 (U512_val (delegator_staked_amount x.2))) ds ->
  Forall (fun x : PublicKey * Delegator => in_int TU512 (U512_val (delegator_staked_amount x.2))) ds' /\
  (forall p, delegators_claim ds' p = delegators_claim ds p + paid_to pays p) /\
  (forall x, x ∈ ds' -> exists y, y ∈ ds /\ delegator_bonding_purse x.2 = delegator_bonding_purse y.2).
Proof.
  intros F. induction F as [|[k reward] rewards Hr _ IH]; intros ds allocs st ds' pays allocs' st' E Hds; cbn [reinvest_delegators] in E.
  { injection E as <- <- <- <-. split; [done|]. split; [intros p; cbn; lia|]. intros x Hx. by exists x. }
  apply inert_bind_Ok in E as (r & [= Er] & E); [|apply inert_lift].
  destruct (btree_get k ds) as [d|] eqn:Ed; [|by eapply IH]. cbv zeta in E.
  apply inert_bind_Ok in E as ([x d'] & [= Ei] & E); [|apply inert_lift].
  apply rt_bind_Ok in E as ([[ds1 pays1] allocs1] & st1 & E1 & E). injection E as <- <- <- <-.
  destruct (btree_get_in _ _ _ Ed) as [k' Hk']. pose proof (proj1 (Forall_forall _ _) Hds _ Hk') as Hd.
  destruct (increase_delegator _ _ _ _ Ei Hd) as (Hd' & Ep & Hc); [by apply to_integer_int, Hr|].
  destruct (IH _ _ _ _ _ _ _ E1) as (Hds1 & Hc1 & Hsub).
  { apply Forall_forall. intros y [->|Hy]%btree_insert_elem; [done|]. by apply (proj1 (Forall_forall _ _) Hds). }
  split; [done|]. split.
  - intros p. rewrite Hc1, delegators_claim_insert, Ed, Hc, paid_to_cons. cbn [fst snd]. rewrite Ep. lia.
  - intros y (z & [Ez|Hz]%btree_insert_elem & ->)%Hsub; [|by exists z]. exists (k', d). split; [done|]. by rewrite Ez.
Qed.

Lemma reinvest_delegators_steady allocs v rewards st l e pays allocs' st' : typed_rewards rewards -> steady st l e ->
  reinvest_delegator_rewards allocs v rewards st = (Ok (pays, allocs'), st') ->
  ext 0 st l st' l /\ steady st' l (fun p => e p - paid_to pays p).
Proof.
  intros Ht S E. unfold reinvest_delegator_rewards in E. cbv zeta in E.
  apply rt_bind_Ok in E as (found & st1 & [-> Eb]%read_bid_Ok & E).
  apply rt_bind_Ok in E as (b & st1 & [-> ->]%rt_ok_or_Ok & E). cbn in Eb.
  apply rt_bind_Ok in E as ([[ds pays1] allocs1] & st1 & E1 & E).
  apply rt_bind_Ok in E as ([] & st2 & Ew & E). injection E as <- <- <-.
  destruct (reinvest_delegators_values _ _ Ht _ _ _ _ _ _ _ E1) as (-> & _).
  destruct (sd_records _ _ _ _ _ _ _ S _ _ Eb) as [[Hs Hf] _].
  destruct (reinvest_delegators_claims _ _ Ht _ _ _ _ _ _ _ E1 Hf) as (Hf' & Hc & Hsub).
  destruct (write_bid_steady _ _ _ _ _ _ _ _ _ _ _ _ S Eb Ew) as [X S']; [done|by split| |].
  - apply purses_sub. intros x (y & Hy & ->)%Hsub. by exists y.
  - split; [exact X|]. eapply steady_le, S'. intros p. cbv beta. rewrite bid_claim_with_delegators. unfold bid_claim.
    specialize (Hc p). lia.
Qed.

Lemma reinvest_validator_steady allocs v a st l e u allocs' st' : in_int TU512 (U512_val a) -> steady st l e ->
  reinvest_validator_reward allocs v a st = (Ok (u, allocs'), st') ->
  ext 0 st l st' l /\ steady st' l (fun p => e p - at_addr (addr u) (U512_val a) p) /\
  allocated allocs' = allocated allocs + U512_val a.
Proof.
  intros Ha S E. unfold reinvest_validator_reward in E. cbv zeta in E.
  apply rt_bind_Ok in E as (found & st1 & [-> Eb]%read_bid_Ok & E).
  apply rt_bind_Ok in E as (b & st1 & [-> ->]%rt_ok_or_Ok & E). cbn in Eb.
  apply inert_bind_Ok in E as ([x b'] & [= Ei] & E); [|apply inert_lift].
  apply rt_bind_Ok in E as ([] & st2 & Ew & E). injection E as <- <- <-.
  destruct (sd_records _ _ _ _ _ _ _ S _ _ Eb) as [Hok _]. destruct (increase_bid _ _ _ _ Ei Hok Ha) as (-> & Hok' & Hc).
  destruct (write_bid_steady _ _ _ _ _ _ _ _ _ _ _ _ S Eb Ew) as [X S']; [done|done|done|].
  split; [exact X|]. split; [|rewrite allocated_app; cbn; lia]. eapply steady_le, S'. intros p. cbv beta. specialize (Hc p).
  change (bid_bonding_purse (with_bid_stake b x)) with (bid_bonding_purse b). lia.
Qed.

(** ** Minting them *)

(** The ledger has room for [z] more. *)
Definition room (l : Ledger) (z : Z) : Prop :=
  in_int TU512 (supply l + z) /\ in_int TU512 (total (balances l) + z).

(** [z] was minted. *)
Definition mints (z : Z) (st : RuntimeState) (l : Ledger) (e : URefAddr -> Z) (st' : RuntimeState) : Prop :=
  exists l', ext 0 st l st' l' /\ steady st' l' e /\ supply l' = supply l + z /\
    total (balances l') = total (balances l) + z.

Lemma room_le l z z' : room l z' -> 0 <= supply l -> 0 <= total (balances l) -> 0 <= z <= z' -> room l z.
Proof. intros [[? ?] [? ?]] ? ? ?. split; split; lia. Qed.
Lemma steady_books st l e : steady st l e -> 0 <= supply l /\ 0 <= total (balances l).
Proof.
  intros [[I Rp T] _ _ _]. split; [apply (represents_range _ _ _ Rp)|apply T].
Qed.

Lemma pay_mints pays : payouts_ok pays -> forall st l e r st', steady st l e -> fresh_next 1 st l -> room l (paid pays) ->
  rt_for pays (fun x => auction_mint_into_existing_purse x.1 x.2) st = (Ok r, st') ->
  mints (paid pays) st l (fun p => e p + paid_to pays p) st'.
Proof.
  intros F. induction F as [|[a u] pays Ha Hp IH]; intros st l e r st' S Fr R E; cbn [rt_for] in E.
  { injection E as _ <-. exists l. split; [apply ext_refl|]. split; [|cbn; lia]. eapply steady_le, S. intros p. cbn. lia. }
  apply rt_bind_Ok in E as ([] & st1 & E1 & E). cbn [fst snd] in *. rewrite paid_cons in R |- *. cbn [fst] in *.
  pose proof (paid_nonneg _ Hp) as Hpos. destruct (steady_books _ _ _ S) as [Hs Ht].
  destruct (room_le l (U512_val a) _ R Hs Ht) as [R1 R2]; [destruct Ha; lia|].
  destruct (mint_into_steady _ _ _ _ _ _ _ _ _ _ _ S Fr Ha R1 R2 E1) as (l1 & X & S1 & _ & Es & Et).
  destruct (IH st1 l1 _ r st' S1) as (l2 & X2 & S2 & Es2 & Et2); [by apply (fresh_ext ts 0 1 _ _ _ _ X)| |exact E|].
  { destruct R as [[? ?] [? ?]]. split; split; lia. }
  exists l2. split; [exact (ext_trans 0 0 _ _ _ _ _ _ X X2)|]. split; [|lia].
  eapply steady_le, S2. intros p. cbv beta. rewrite paid_to_cons. cbn [fst snd]. lia.
Qed.

(** ** The loop over the validators *)

Lemma ratio_res_typed {E} o r : ratio_res (E:=E) o = Ok r -> o = Some r.
Proof. by destruct o; intros [= ->]. Qed.

(** The reward of a validator and its delegators, rounded down once. *)
Definition reward_due (base factor : Z) : Z := factor * base / BLOCK_REWARD.

Lemma U512_sum_value {E} us z : U512_sum (E:=E) us = Ok z -> z = foldr (fun a s => U512_val a + s) 0 us.
Proof.
  revert z. induction us as [|a us IH]; intros z; cbn; [by intros [= <-]|].
  intros (s & Es%IH & Ez)%bind_Ok. unfold plain_add, expect in Ez.
  destruct (checked_add 512 (U512_val a) s) as [y|] eqn:Ey; [|done]. injection Ez as <-.
  apply checked_add_Some in Ey as [-> _]. by rewrite Es.
Qed.
Lemma paid_sum {E} pays z : U512_sum (E:=E) (pays.*1 : list U512) = Ok z -> z = paid pays.
Proof. intros ->%U512_sum_value. induction pays as [|x pays IH]; [done|]. rewrite paid_cons, <- IH. done. Qed.

Lemma rate_value base factor total : 0 <= factor ->
  ratio_checked_mul (ratio_reduce factor BLOCK_REWARD) (Ratio_from base) = Some total -> 0 < denom total /\ to_integer total = reward_due base factor.
Proof.
  intros Hf. destruct (ratio_reduce_value factor BLOCK_REWARD Hf eq_refl) as [Hd Ev]. intros Em.
  destruct (ratio_checked_mul_value _ _ _ Hd (eq_refl : 0 < denom (Ratio_from base)) Em) as [Ht Et]. split; [done|].
  unfold to_integer, reward_due. apply div_same_value; [done|done|]. cbn [denom numer Ratio_from] in Et.
  rewrite Z.mul_1_r in Et. apply (Z.mul_reg_r _ _ (denom (ratio_reduce factor BLOCK_REWARD))); [lia|].
  transitivity (numer total * denom (ratio_reduce factor BLOCK_REWARD) * BLOCK_REWARD); [lia|]. rewrite Et.
  transitivity (numer (ratio_reduce factor BLOCK_REWARD) * BLOCK_REWARD * base * denom total); [lia|]. rewrite Ev. lia.
Qed.

Lemma rest_value total z v : 0 < denom total -> ratio_sub total (Ratio_from z) = Some v ->
  in_int TU512 (to_integer v) /\ to_integer v = to_integer total - z.
Proof.
  intros Ht Es. destruct (ratio_sub_value _ _ _ Ht (eq_refl : 0 < denom (Ratio_from z)) Es) as [Hv Ev].
  split; [by apply to_integer_int|]. unfold to_integer. cbn [denom numer Ratio_from] in Ev.
  replace (numer total / denom total - z) with ((numer total + (- z) * denom total) / denom total).
  - apply div_same_value; [apply Hv|done|]. lia.
  - rewrite Z.div_add by lia. lia.
Qed.

(** The validators that are paid. *)
Definition staked (recipients : btree_map PublicKey SeigniorageRecipient) (pk : PublicKey) : bool :=
  match btree_get pk (entries recipients) ≫= total_stake with Some stake => negb (U512_val stake =? 0) | None => false end.

(** What is common to the values and the states of one round. *)
Lemma distribute_one_inv recipients base pk factor allocs st allocs' st' : 0 <= factor ->
  distribute_one recipients base pk factor allocs st = (Ok allocs', st') ->
  staked recipients pk = false /\ allocs' = allocs /\ st' = st \/
  staked recipients pk = true /\ exists rewards pays a u allocs1 st1 st2 st3,
    typed_rewards rewards /\ in_int TU512 (U512_val a) /\ U512_val a = reward_due base factor - paid pays /\
    reinvest_delegator_rewards allocs pk rewards st = (Ok (pays, allocs1), st1) /\
    reinvest_validator_reward allocs1 pk a st1 = (Ok (u, allocs'), st2) /\
    auction_mint_into_existing_purse a u st2 = (Ok tt, st3) /\
    rt_for pays (fun p => auction_mint_into_existing_purse p.1 p.2) st3 = (Ok tt, st').
Proof.
  intros Hf E. unfold distribute_one in E.
  apply rt_bind_Ok in E as (recipient & sx & [Erec ->]%rt_ok_or_Ok & E).
  apply rt_bind_Ok in E as (stake & sx & [Est ->]%rt_ok_or_Ok & E). unfold staked. rewrite Erec. cbn. rewrite Est.
  destruct (U512_val stake =? 0); [injection E as <- <-; by left|right]. split; [done|].
  apply inert_bind_Ok in E as (rate & [= <-] & E); [|apply inert_lift].
  apply rt_bind_Ok in E as (total & sy & [Et ->]%rt_ok_or_Ok & E). destruct (rate_value _ _ _ Hf Et) as [Hd Htot].
  apply inert_bind_Ok in E as (dstake & _ & E); [|unfold rt_ok_or; apply inert_lift].
  apply inert_bind_Ok in E as (part & _ & E); [|apply inert_lift].
  apply rt_bind_Ok in E as ([pays allocs1] & st1 & E1 & E).
  apply inert_bind_Ok in E as (sum & [= Esum%paid_sum] & E); [|apply inert_lift].
  apply inert_bind_Ok in E as (vpart & [= Ev%ratio_res_typed] & E); [|apply inert_lift]. cbv zeta in E.
  apply rt_bind_Ok in E as ([u allocs2] & st2 & E2 & E). apply rt_bind_Ok in E as ([] & st3 & E3 & E).
  apply rt_bind_Ok in E as ([] & st4 & E4 & E). injection E as <- <-. destruct (rest_value _ _ _ Hd Ev) as [Hi Hv].
  eexists _, _, _, _, _, _, _, _. split_and!; [|..|exact E1|exact E2|exact E3|exact E4].
  - apply delegator_rewards_typed.
  - exact Hi.
  - cbn. lia.
Qed.

(** The payouts of one validator's delegators, seen from the allocations. *)
Lemma reinvest_rewards_values allocs v rewards st pays allocs' st' : typed_rewards rewards ->
  reinvest_delegator_rewards allocs v rewards st = (Ok (pays, allocs'), st') ->
  payouts_ok pays /\ allocated allocs' = allocated allocs + paid pays.
Proof.
  intros Ht E. unfold reinvest_delegator_rewards in E. cbv zeta in E.
  apply rt_bind_Ok in E as (found & st1 & _ & E). apply rt_bind_Ok in E as (b & st2 & _ & E).
  apply rt_bind_Ok in E as ([[ds pays1] allocs1] & st3 & E1 & E).
  apply rt_bind_Ok in E as ([] & st4 & _ & E). injection E as <- <- _.
  by destruct (reinvest_delegators_values _ _ Ht _ _ _ _ _ _ _ E1) as (_ & ? & ?).
Qed.

Lemma reinvest_validator_value allocs v a st u allocs' st' :
  reinvest_validator_reward allocs v a st = (Ok (u, allocs'), st') -> allocated allocs' = allocated allocs + U512_val a.
Proof.
  unfold reinvest_validator_reward. cbv zeta. intros (found & st1 & _ & E)%rt_bind_Ok.
  apply rt_bind_Ok in E as (b & st2 & _ & E). apply rt_bind_Ok in E as ([x b'] & st3 & _ & E).
  apply rt_bind_Ok in E as ([] & st4 & _ & E). injection E as _ <- _. rewrite allocated_app. cbn. lia.
Qed.

Lemma distribute_one_mints recipients base pk factor allocs st l e allocs' st' : 0 <= factor -> steady st l e ->
  fresh_next 1 st l -> room l (reward_due base factor) ->
  distribute_one recipients base pk factor allocs st = (Ok allocs', st') ->
  (allocs' = allocs /\ st' = st) \/ (0 <= reward_due base factor /\ mints (reward_due base factor) st l e st').
Proof.
  intros Hf S Fr R E. apply distribute_one_inv in E
    as [(_ & -> & ->)|(_ & rewards & pays & a & u & allocs1 & st1 & st2 & st3 & Ht & Ha & Ev & E1 & E2 & E3 & E4)]; [by left|right|done].
  destruct (reinvest_rewards_values _ _ _ _ _ _ _ Ht E1) as [Hp _]. pose proof (paid_nonneg _ Hp) as Hpos.
  split; [destruct Ha; lia|].
  destruct (reinvest_delegators_steady _ _ _ _ _ _ _ _ _ Ht S E1) as [X1 S1].
  destruct (reinvest_validator_steady _ _ _ _ _ _ _ _ _ Ha S1 E2) as (X2 & S2 & _).
  pose proof (ext_trans 0 0 _ _ _ _ _ _ X1 X2) as X12. destruct (steady_books _ _ _ S) as [Hs Hto].
  destruct (room_le l (U512_val a) _ R Hs Hto) as [R1 R2]; [destruct Ha; lia|].
  destruct (mint_into_steady _ _ _ _ _ _ _ _ _ _ _ S2 (fresh_ext ts 0 1 _ _ _ _ X12 Fr) Ha R1 R2 E3) as (l3 & X3 & S3 & _ & Es & Et).
  pose proof (ext_trans 0 0 _ _ _ _ _ _ X12 X3) as X123.
  destruct (pay_mints pays Hp st3 l3 _ () st' S3 (fresh_ext ts 0 1 _ _ _ _ X123 Fr)) as (l4 & X4 & S4 & Es4 & Et4); [|exact E4|].
  { destruct R as [[? ?] [? ?]], Ha. split; split; lia. }
  exists l4. split; [exact (ext_trans 0 0 _ _ _ _ _ _ X123 X4)|]. split; [|lia]. eapply steady_le, S4. intros p. cbv beta. lia.
Qed.

(** The rewards of the validators that are paid. *)
Definition rewards_paid (recipients : btree_map PublicKey SeigniorageRecipient) (base : Z) (factors : list (PublicKey * u64)) : Z :=
  foldr (fun x s => (if staked recipients x.1 then reward_due base (u64_val x.2) else 0) + s) 0 factors.

(** C27 The seigniorage allocations that [distribute] records add up to the rewards, to the token: for every validator with
    stake the allocations to it and to its delegators sum up to [reward_factor * base_round_reward / BLOCK_REWARD], rounded down
    once, whatever the commission and the shares of the delegators round to. *)
Theorem distribution_exact recipients base factors allocs st allocs' st' :
  Forall (fun x : PublicKey * u64 => 0 <= u64_val x.2) factors ->
  distribute_all recipients base factors allocs st = (Ok allocs', st') ->
  allocated allocs' = allocated allocs + rewards_paid recipients base factors.
Proof.
  intros F. revert allocs st. induction F as [|[pk f] factors Hf _ IH]; intros allocs st E; cbn [distribute_all] in E.
  { injection E as <- _. cbn. lia. }
  apply rt_bind_Ok in E as (allocs1 & st1 & E1 & E%IH). cbn [rewards_paid foldr fst snd]. fold (rewards_paid recipients base factors).
  apply distribute_one_inv in E1
    as [(-> & -> & _)|(-> & rewards & pays & a & u & allocs2 & st2 & st3 & st4 & Ht & _ & Ev & E1 & E2 & _)]; [lia| |done].
  destruct (reinvest_rewards_values _ _ _ _ _ _ _ Ht E1) as [_ Ea]. apply reinvest_validator_value in E2. lia.
Qed.

(** The most a distribution mints. *)
Definition rewards_due (base : Z) (factors : list (PublicKey * u64)) : Z :=
  foldr (fun x s => reward_due base (u64_val x.2) + s) 0 factors.

Lemma rewards_due_cons base x factors : rewards_due base (x :: factors) = reward_due base (u64_val x.2) + rewards_due base factors.
Proof. done. Qed.
Lemma reward_due_nonneg base f : 0 <= base -> 0 <= f -> 0 <= reward_due base f.
Proof. intros. apply Z.div_pos; [nia|done]. Qed.
Abbreviation factors_ok := (Forall (fun x : PublicKey * u64 => 0 <= u64_val x.2)).
Lemma rewards_due_nonneg base factors : 0 <= base -> factors_ok factors -> 0 <= rewards_due base factors.
Proof.
  intros Hb F. induction F as [|x factors Hx _ IH]; [done|]. rewrite rewards_due_cons.
  pose proof (reward_due_nonneg _ _ Hb Hx). lia.
Qed.

Lemma distribute_all_mints recipients base factors : 0 <= base -> factors_ok factors ->
  forall allocs st l e allocs' st', steady st l e -> fresh_next 1 st l -> room l (rewards_due base factors) ->
  distribute_all recipients base factors allocs st = (Ok allocs', st') ->
  exists z, 0 <= z <= rewards_due base factors /\ mints z st l e st'.
Proof.
  intros Hb F. induction F as [|[pk f] factors Hf F IH]; intros allocs st l e allocs' st' S Fr R E; cbn [distribute_all] in E.
  { injection E as <- <-. exists 0. split; [done|]. exists l. split; [apply ext_refl|]. split; [done|lia]. }
  apply rt_bind_Ok in E as (allocs1 & st1 & E1 & E). destruct (steady_books _ _ _ S) as [Hs Hto].
  rewrite rewards_due_cons in R |- *. cbn [snd] in *. pose proof (reward_due_nonneg _ _ Hb Hf) as Hr.
  pose proof (rewards_due_nonneg _ _ Hb F) as Hrs.
  destruct (distribute_one_mints _ _ _ _ _ _ _ _ _ _ Hf S Fr (room_le l (reward_due base (u64_val f)) _ R Hs Hto ltac:(lia)) E1)
    as [[-> ->]|[_ Mi]].
  - destruct (IH _ _ _ _ _ _ S Fr (room_le l (rewards_due base factors) _ R Hs Hto ltac:(lia)) E) as (z & Hz & Mz). exists z. split; [lia|done].
  - destruct Mi as (l1 & X & S1 & Es & Et).
    destruct (IH allocs1 st1 l1 e allocs' st' S1 (fresh_ext ts 0 1 _ _ _ _ X Fr)) as (z & Hz & Mz); [|exact E|].
    { destruct R as [[? ?] [? ?]]. split; split; lia. }
    exists (reward_due base (u64_val f) + z). split; [lia|]. destruct Mz as (l2 & X2 & S2 & Es2 & Et2). exists l2.
    split; [exact (ext_trans 0 0 _ _ _ _ _ _ X X2)|]. split; [done|lia].
Qed.

(** ** The base round reward *)

(** The round seigniorage rate, as the mint has it. *)
Definition seigniorage_rate (m : gmap Key StoredValue) : option Ratio :=
  match btree_get ROUND_SEIGNIORAGE_RATE_KEY (entries (contract_named_keys mint_contract)) with
  | Some (KeyURef u) =>
      match m !! KeyURef (MkURef (addr u) NONE) with
      | Some (StoredCLValue v) => match into_t v with Ok rate => Some rate | _ => None end
      | _ => None
      end
  | _ => None
  end.
(** What the mint pays for a round. *)
Definition base_round_reward (m : gmap Key StoredValue) (l : Ledger) : option Z :=
  rate ← seigniorage_rate m; to_integer <$> ratio_checked_mul rate (Ratio_from (supply l)).

Lemma read_base_value st l r st' : mint_ready h ts l st -> named_keys (ctx st) = contract_named_keys mint_contract ->
  read_base_round_reward st = (Ok r, st') -> base_round_reward (gs (world st)) l = Some r.
Proof.
  intros [I R _ _] En E. unfold read_base_round_reward in E.
  erewrite rt_bind_eq in E by (unfold get_key, gets; by rewrite (im_key _ _ _ I)). cbv beta iota in E.
  rewrite (rt_bind_eq _ _ _ _ _ (mint_read_eq h ts l st I R)) in E. erewrite rt_bind_eq in E by done.
  erewrite rt_bind_eq in E by done. unfold base_round_reward, seigniorage_rate. rewrite En in E.
  destruct (btree_get ROUND_SEIGNIORAGE_RATE_KEY _) as [[]|]; try done.
  apply rt_bind_Ok in E as (found & st1 & Ef & E). unfold mint_read in Ef.
  apply rt_bind_Ok in Ef as (v & st2 & Ev%rt_map_err_Ok & Ef). apply read_gs_Ok in Ev as [-> ->]; [|done].
  change (normalize (KeyURef uref)) with (KeyURef (MkURef (addr uref) NONE)) in Ef.
  destruct (gs (world st) !! KeyURef (MkURef (addr uref) NONE)) as [[]|]; try done;
    [|by injection Ef as <- <-].
  apply rt_bind_Ok in Ef as (rate & st3 & Er%rt_map_err_Ok & Ef). injection Er as Er <-. injection Ef as <- <-.
  rewrite Er. cbn. apply rt_bind_Ok in E as (rate' & st4 & [= <- <-] & [E _]%rt_ok_or_Ok). exact E.
Qed.

Lemma auction_base_value st l e r st' : steady st l e -> fresh_next 1 st l ->
  auction_read_base_round_reward st = (Ok r, st') -> base_round_reward (gs (world st)) l = Some r.
Proof.
  intros S Fr E. unfold auction_read_base_round_reward in E.
  apply rt_bind_Ok in E as (hash & st0 & Eh & E). apply (mint_hash_Ok registry h mint_contract ts _ _ _ _ l e) in Eh as [-> ->]; [|done].
  apply rt_map_err_Ok, unmetered_alike in E as (st1 & Ec & _).
  destruct (call_mint_entered _ _ _ _ _ _ _ _ (hl_installed _ _ _ _ _ _ (sd_ledger _ _ _ _ _ _ _ S)) Ec) as (_ & stk & inner & w & g & Em & _).
  pose proof (inner_ready _ _ _ _ st l [] stk (sd_ledger _ _ _ _ _ _ _ S) Fr) as Rd. cbn [mint_entry_point] in Em.
  apply rt_bind_Ok in Em as ([] & st2 & Eg & Em%rt_map_err_Ok).
  destruct (charge_call_shape h (cost_read_base_round_reward mint_costs) _ (im_registered _ _ _ (mr_in _ _ _ _ Rd))) as (g2 & [Eg2|Eg2]).
  - cbn [arg_urefs mint_args] in Eg. rewrite Eg2 in Eg. injection Eg as <-.
    eapply read_base_value in Em; [exact Em| |done]. destruct Rd as [[? ? ? ? ?] ? ? ?]. by split.
  - cbn [arg_urefs mint_args] in Eg. by rewrite Eg2 in Eg.
Qed.

Lemma into_t_ratio v rate : into_t v = Ok rate -> 0 <= numer rate /\ 0 < denom rate.
Proof.
  unfold into_t. destruct (decide _); [|done]. intros E%map_err_Ok. unfold deserialize_from_slice in E.
  apply bind_Ok in E as ([x rem] & E & E2). assert (x = rate) as -> by (by destruct rem; inversion E2). clear E2.
  apply bind_Ok in E as ([[n d] rem'] & Ep & E). apply bytesrepr_sound in Ep as [[[Hn _] [Hd _]] _].
  destruct (Z.eqb_spec (int_val d) 0) as [|Hne]; [done|]. injection E as <- _.
  destruct (ratio_reduce_value (int_val n) (int_val d)) as [Hden Hv]; [exact Hn|cbn in Hd; lia|]. split; [|done].
  cbn in Hn, Hd. destruct (Z_lt_le_dec (numer (ratio_reduce (int_val n) (int_val d))) 0); [|done].
  assert (0 < int_val d) by lia. nia.
Qed.

Lemma base_nonneg m l base : 0 <= supply l -> base_round_reward m l = Some base -> 0 <= base.
Proof.
  intros Hs (rate & Er & E)%bind_Some. unfold seigniorage_rate in Er.
  destruct (btree_get _ _) as [[]|]; try done. destruct (m !! _) as [[]|]; try done.
  destruct (into_t cl_value) as [x| | |] eqn:Ex; try done. injection Er as ->. apply into_t_ratio in Ex as [Hn Hd].
  destruct (ratio_checked_mul _ _) as [y|] eqn:Ey; [|done]. injection E as <-.
  destruct (ratio_checked_mul_value _ _ _ Hd (eq_refl : 0 < denom (Ratio_from (supply l))) Ey) as [Hy Ev].
  unfold to_integer. apply Z.div_pos; [|done]. cbn [numer denom Ratio_from] in Ev.
  destruct (Z_lt_le_dec (numer y) 0); [|done]. exfalso. 
  assert (0 <= numer rate * supply l * denom y) by (apply Z.mul_nonneg_nonneg; [apply Z.mul_nonneg_nonneg|]; lia). nia.
Qed.

(** ** The entry point *)

Lemma record_era_info_steady era info st l e r st' : steady st l e ->
  record_era_info era info st = (Ok r, st') -> ext 0 st l st' l /\ steady st' l e.
Proof.
  intros S E%rt_map_err_Ok. unfold rt_record_era_info in E. apply inert_bind_Ok in E as (c & [= <-] & E); [|inert].
  apply inert_bind_Ok in E as (a & _ & E); [|unfold get_system_contract, get_system_contracts; inert].
  destruct (decide _) as [_|]; [|done]. destruct (decide _) as [_|_].
  2: { injection E as _ <-. split; [apply ext_refl|done]. }
  cbn [write_era_info] in E. rewrite gs_write_eq in E. injection E as _ <-.
  destruct (steady_other registry h mint_contract ts st l e (EraInfo era) (StoredEraInfo info) (gas_counter (ctx st)) S I) as (X & S' & _).
  assert (MkRuntime (world st) (with_gas_counter (gas_counter (ctx st)) (ctx st)) = st) as Est by (by destruct st as [? []]).
  rewrite Est in X, S'. by split.
Qed.

Lemma inert_read_recipients : inert read_seigniorage_recipients.
Proof. unfold read_seigniorage_recipients, rt_ok_or. inert; apply read_from_inert. Qed.

(** The rewards fit into the ledger. *)
Definition rewards_fit (factors : list (PublicKey * u64)) (l : Ledger) (m : gmap Key StoredValue) : Prop :=
  forall base, base_round_reward m l = Some base -> room l (rewards_due base factors).

Lemma distribute_advances factors st l e r st' : steady st l e -> fresh_next 1 st l -> factors_ok (entries factors) ->
  rewards_fit (entries factors) l (gs (world st)) -> distribute factors st = (Ok r, st') -> advances 0 st l e st'.
Proof.
  intros S Fr Hf Hfit E. unfold distribute in E.
  apply inert_bind_Ok in E as ([] & _ & E); [|apply inert_require_system].
  apply inert_bind_Ok in E as (recipients & _ & E); [|apply inert_read_recipients].
  apply rt_bind_Ok in E as (base & st1 & Eb & E). pose proof (auction_base_value _ _ _ _ _ S Fr Eb) as Hb.
  destruct (base_reward_steady _ _ _ _ _ _ _ _ _ S Fr Eb) as (X1 & S1 & _).
  apply inert_bind_Ok in E as (era & _ & E); [|apply inert_get_era_id].
  apply rt_bind_Ok in E as (allocs & st2 & Ea & E). pose proof (base_nonneg _ _ _ (proj1 (steady_books _ _ _ S)) Hb) as Hpos.
  destruct (distribute_all_mints _ _ _ Hpos Hf _ _ _ _ _ _ S1 (fresh_ext ts 0 1 _ _ _ _ X1 Fr) (Hfit _ Hb) Ea)
    as (z & _ & l2 & X2 & S2 & _).
  destruct (record_era_info_steady _ _ _ _ _ _ _ S2 E) as [X3 S3].
  exists 0%nat, l2. split; [lia|]. split; [|done].
  exact (ext_trans 0 0 _ _ _ _ _ _ X1 (ext_trans 0 0 _ _ _ _ _ _ X2 X3)).
Qed.

End AuctionRewards.
