(* ===== verification/TokenSafety.v ===== *)
(** * What a deploy can do to tokens

    A deploy runs in a context with rights ([RuntimeContext]) and reaches the
    mint through the host functions of [SystemCalls].  This file composes what
    [RuntimeConfine] says about the former with what [MintLedger] says about the latter: no
    sequence of operations of an account that is not the system's creates or destroys tokens,
    takes from a purse it has no write access to, or takes more from the
    account's main purse than the approved spending limit. *)

From S2P Require Import Prelude Bytesrepr Hashing KeyTypes Values PublicKeys Account Contracts SystemErrors AuctionData StoredValue Transform TrackingCopy TrackingSim RuntimeContext RuntimeConfine Mint SystemCalls MintLedger Claims MintCalls.
Local Open Scope Z_scope.

Section TokenSafety.
Context `{KeyCrates} `{Blake2b} `{AddressRng} `{EngineConfig} `{RationalCrate} `{!WasmCalls}.

Abbreviation M := (RT RuntimeState ExecError).

(** ** Operations of a deploy *)

Inductive UserOp :=
| UserCtx (o : CtxOp)
| UserMint (R : Type) (c : MintCall R)
| UserCreatePurse
| UserGetBalance (purse : URef)
| UserTransferToPurse (source target : URef) (amount : Z) (id : option u64)
| UserTransferFromPurse (source : URef) (target : AccountHash) (amount : Z) (id : option u64)
| UserTransfer (target : AccountHash) (amount : Z) (id : option u64).

(** An error ends the execution, except for the errors that are values. *)
Definition run_user_op (o : UserOp) : M unit :=
  match o with
  | UserCtx o => run_op o
  | UserMint R c => mint_hash ← get_mint_contract; discard (call_mint mint_hash c)
  | UserCreatePurse => discard create_purse
  | UserGetBalance purse => discard (get_balance purse)
  | UserTransferToPurse source target amount id => discard (transfer_from_purse_to_purse source target amount id)
  | UserTransferFromPurse source target amount id => discard (transfer_from_purse_to_account source target amount id)
  | UserTransfer target amount id => discard (transfer_to_account target amount id)
  end.

Definition run_user_ops (ops : list UserOp) : M unit := rt_for ops run_user_op.

(** The amounts are [U512]s. *)
Definition user_op_valid (o : UserOp) : Prop :=
  match o with
  | UserCtx o => ctx_op_valid o
  | UserMint R c => in_int TU512 (arg_amount c)
  | UserCreatePurse | UserGetBalance _ => True
  | UserTransferToPurse _ _ amount _ | UserTransferFromPurse _ _ amount _ | UserTransfer _ amount _ => in_int TU512 amount
  end.

(** ** The invariant *)

Variable registry : btree_map rstring ContractHash.
Variable h : ContractHash.
Variable mint_contract : Contract.
Variable ts : URef.

Abbreviation installed := (installed registry h mint_contract ts).
Abbreviation is_registered := (is_registered registry).
Abbreviation fresh_next := (fresh_next ts).
Abbreviation holds_ledger := (holds_ledger registry h mint_contract ts).
Abbreviation mint_called := (mint_called registry h mint_contract ts).

(** A deploy of an account that is not the system's, outside of system contracts. *)
Record outside (c : Context) : Prop := {
  ord_account : account_hash (account c) <> system_account;
  ord_base : match base_key c with Account _ | KeyHash _ => True | _ => False end;
  ord_base_key : is_registered (base_key c) = false;
  ord_context_key : is_registered (KeyTypes.context_key (rights c)) = false;
}.
Definition no_supply_rights (c : Context) : Prop :=
  holds_in c (addr ts) WRITE_BIT = false /\ holds_in c (addr ts) ADD_BIT = false.

Record invariant (st : RuntimeState) (l : Ledger) : Prop := {
  inv_holds : holds_ledger st l;
  inv_outside : outside (ctx st);
  inv_supply : no_supply_rights (ctx st);
}.

(** What may happen in between: [n] addresses are drawn; bids, system contracts and the tokens stay; purses without write access keep or
    gain; what leaves the main purse is subtracted from the limit. *)
Record guarded (n : nat) (st : RuntimeState) (l : Ledger) (st' : RuntimeState) (l' : Ledger) : Prop := {
  gd_invariant : invariant st' l';
  gd_same k : stake_key k = true \/ is_registered k = true -> gs (world st') !! k = gs (world st) !! k;
  gd_draws : address_generator (world st') = (draws n (address_generator (world st))).2;
  gd_account : account (ctx st') = account (ctx st);
  gd_rights a b : holds_in (ctx st') a b = true ->
    a ∈ (draws n (address_generator (world st))).1 \/ holds_in (ctx st) a b = true;
  gd_total : total (balances l') = total (balances l);
  gd_supply : supply l' = supply l;
  gd_new a : is_Some (balances l' !! a) ->
    a ∈ (draws n (address_generator (world st))).1 \/ is_Some (balances l !! a);
  gd_kept a z : balances l !! a = Some z -> exists z', balances l' !! a = Some z' /\
    (a ∉ (draws n (address_generator (world st))).1 -> holds_in (ctx st) a WRITE_BIT = false -> z <= z');
  gd_limit : 0 <= limit_of st -> 0 <= limit_of st' <= limit_of st;
  gd_main z z' : balances l !! main_of st = Some z -> balances l' !! main_of st = Some z' ->
    z - z' <= limit_of st - limit_of st';
}.

Lemma guarded_refl st l : invariant st l -> guarded 0 st l st l.
Proof.
  intros I. split; [done|done|done|done|auto|done|done|auto|by intros a z ->; exists z|lia|].
  intros z z' -> [= ->]. lia.
Qed.

Lemma guarded_trans n m st1 l1 st2 l2 st3 l3 :
  guarded n st1 l1 st2 l2 -> guarded m st2 l2 st3 l3 -> guarded (n + m) st1 l1 st3 l3.
Proof.
  intros [I1 B1 D1 A1 R1 T1 S1 N1 K1 L1 M1] [I2 B2 D2 A2 R2 T2 S2 N2 K2 L2 M2].
  rewrite D1 in D2, R2, N2, K2. rewrite A1 in M2.
  split; rewrite ?draws_add; cbn [fst snd]; try done; try lia; [intros k Hk; rewrite B2, B1 by done; done|congruence| | | |].
  - intros a b [?|[?|?]%R1]%R2; set_solver.
  - intros a [?|[?|?]%N1]%N2; set_solver.
  - intros a z E1. destruct (K1 a z E1) as (z2 & E2 & H12). destruct (K2 a z2 E2) as (z3 & E3 & H23).
    exists z3. split; [done|]. intros Ha Hw. assert (z <= z2) by (apply H12; set_solver).
    assert (z2 <= z3); [|lia]. apply H23; [set_solver|].
    destruct (holds_in (ctx st2) a WRITE_BIT) eqn:Ew; [|done]. apply R1 in Ew. set_solver.
  - intros z z' E1 E3. destruct (K1 _ _ E1) as (z2 & E2 & _).
    specialize (M1 z z2 E1 E2). specialize (M2 z2 z' E2 E3). lia.
Qed.

Lemma fresh_next_step n k st l st' l' : guarded k st l st' l' -> fresh_next (k + n) st l -> fresh_next n st' l'.
Proof.
  intros G [Hn Hf]. unfold fresh_next. rewrite (gd_draws _ _ _ _ _ G).
  rewrite draws_add in Hn, Hf. cbn [fst] in Hn, Hf. apply NoDup_app in Hn as (_ & Hd & Hn). split; [done|].
  intros a Ha. destruct (Hf a) as [Hb Ht]; [set_solver|]. split; [|done].
  destruct (balances l' !! a) eqn:E; [|done]. destruct (gd_new _ _ _ _ _ G a) as [Hi|[? ?]]; [by eexists| |congruence].
  by destruct (Hd a Hi).
Qed.

(** ** Operations of the context *)

(** The keys that the invariant looks at. *)
Definition watched (k : Key) : Prop :=
  k = KeyTypes.SystemContractRegistry \/ k = KeyHash h \/ k = KeyURef (MkURef (addr ts) NONE) \/ exists a, k = Balance a.

Lemma watched_unreachable st l n k : invariant st l -> fresh_next n st l -> watched k ->
  ~ reachable (ctx st) (draws n (address_generator (world st))).1 k.
Proof.
  intros [[I _ _] O [Sw Sa]] [_ F] Hw Hr. pose proof (mint_is_registered _ _ _ _ _ I) as Hm.
  pose proof (ord_base _ O) as Ob. pose proof (ord_base_key _ O) as Ok.
  destruct Hr as [k ->|a Ha|u item Hu].
  - destruct (base_key (ctx st)) eqn:Eb; try done; cbn in Hw; destruct Hw as [?|[E|[?|[? ?]]]]; try done.
    injection E as ->. congruence.
  - destruct Hw as [?|[?|[[= ->]|[? ?]]]]; try done. destruct Ha as [[_ ?]%F|[?|?]]; congruence.
  - by destruct Hw as [?|[?|[?|[? ?]]]].
Qed.

Lemma watched_same st l n st' k : confined n st st' -> invariant st l -> fresh_next n st l -> watched k ->
  gs (world st') !! k = gs (world st) !! k.
Proof.
  intros C I F Hw. destruct (decide (gs (world st') !! k = gs (world st) !! k)) as [|E]; [done|].
  by destruct (watched_unreachable st l n k I F Hw (conf_keys _ _ _ C k E)).
Qed.

(** What the invariant says survives where the watched keys do. *)
Lemma installed_same m m' : (forall k, watched k -> m' !! k = m !! k) -> installed m -> installed m'.
Proof.
  intros E [(v & Ev & Er) Em Ec Es Eu Ee]. split; try done.
  - exists v. by rewrite E by (by left).
  - by rewrite E by (right; by left).
Qed.
Lemma represents_same m m' l : (forall k, watched k -> m' !! k = m !! k) ->
  represents (addr ts) m l -> represents (addr ts) m' l.
Proof.
  intros E [Rb Rs]. split.
  - intros a. rewrite E by (do 3 right; by exists a). apply Rb.
  - by rewrite E by (do 2 right; by left).
Qed.

Lemma outside_same c c' : outside c -> account c' = account c -> base_key c' = base_key c ->
  KeyTypes.context_key (rights c') = KeyTypes.context_key (rights c) -> outside c'.
Proof. intros [Oa Ob Ok Oc] Ea Eb Ec. by split; rewrite ?Ea, ?Eb, ?Ec. Qed.

Lemma no_supply_step c c' : no_supply_rights c ->
  (forall b, holds_in c' (addr ts) b = true -> holds_in c (addr ts) b = true) -> no_supply_rights c'.
Proof.
  intros [Ow Od] Hr. split; (destruct (holds_in c' (addr ts) _) eqn:E; [|done]); apply Hr in E; congruence.
Qed.

Lemma ctx_guarded n st l st' : confined n st st' -> invariant st l -> fresh_next n st l -> guarded n st l st' l.
Proof.
  intros C I F. pose proof (conf_fixed _ _ _ C) as Fx. unfold fixed_part in Fx.
  injection Fx as Ea _ Eb _ _ _ _ _ _ El _ Ec.
  destruct I as [[Ii Il It] Io Is] eqn:EI. split; try done.
  - split; [split| |].
    + eapply installed_same, Ii. intros k. by eapply watched_same.
    + eapply represents_same, Il. intros k. by eapply watched_same.
    + done.
    + by apply (outside_same (ctx st)).
    + apply (no_supply_step (ctx st)); [done|]. intros b Hb.
      destruct (conf_rights _ _ _ C _ _ Hb) as [Hf|?]; [|done]. destruct F as [_ F]. by destruct (F _ Hf).
  - intros k Hk. destruct (decide (gs (world st') !! k = gs (world st) !! k)) as [|E]; [done|].
    destruct (conf_keys _ _ _ C k E) as [k' ->| |]; [|by destruct Hk..].
    pose proof (ord_base _ Io) as Hb. pose proof (ord_base_key _ Io) as Hn.
    destruct (base_key (ctx st)); try done; destruct Hk as [|Hk]; try done. cbn [normalize] in Hk. congruence.
  - apply (conf_draws _ _ _ C).
  - apply (conf_rights _ _ _ C).
  - auto.
  - intros a z ->. by exists z.
  - unfold limit_of. rewrite El. lia.
  - unfold limit_of. rewrite El. intros z z' -> [= ->]. lia.
Qed.

(** ** Calls of the mint *)

Lemma outside_caller c : outside c -> caller_is_system c = false.
Proof. intros O. apply bool_decide_eq_false, (ord_account _ O). Qed.

(** The effect of a call is within bounds for a caller whose rights before and after are as given. *)
Lemma called_guarded {R} n (c : MintCall R) r l stc st' st st2 : mint_called n c r stc l st' ->
  in_int TU512 (arg_amount c) -> fresh_next n st l -> outside (ctx st) -> no_supply_rights (ctx st) ->
  world stc = world st -> account (ctx stc) = account (ctx st) -> limit_of stc = limit_of st ->
  is_registered (KeyTypes.context_key (rights (ctx stc))) = false ->
  (forall a, holds_in (ctx stc) a WRITE_BIT = true -> holds_in (ctx st) a WRITE_BIT = true) ->
  world st2 = world st' -> account (ctx st2) = account (ctx st) -> base_key (ctx st2) = base_key (ctx st) ->
  KeyTypes.context_key (rights (ctx st2)) = KeyTypes.context_key (rights (ctx st)) -> limit_of st2 = limit_of st' ->
  (forall a b, holds_in (ctx st2) a b = true -> holds_in (ctx st) a b = true \/ exists u, u ∈ ret_urefs c r /\ addr u = a) ->
  guarded n st l st2 (ledger_effect c r l).
Proof.
  intros [Hn Hl Fm _ New G L V] Ha Fr O Ns Ew Ea El Ecc Hw Ew2 Ea2 Eb2 Ec2 El2 Hr. specialize (V Ecc).
  assert (0 <= arg_amount c) as Hp by apply Ha. assert (caller_is_system (ctx stc) = false) as Es.
  { unfold caller_is_system. rewrite Ea. by apply outside_caller. }
  rewrite Ew, Ea, El, Es in *. pose proof (spends_nonneg (main_of st) c r Hp) as Sp.
  destruct (not_system_books _ _ _ _ _ G) as [Gt Gs]. split; try done.
  - split; [by destruct Hl; split; rewrite ?Ew2|by eapply outside_same|].
    apply (no_supply_step (ctx st)); [done|]. intros b [?|(u & Hu & Eu)]%Hr; [done|]. apply New in Hu.
    rewrite Eu in Hu. destruct Fr as [_ Fr]. by destruct (Fr _ Hu).
  - intros k Hk. rewrite Ew2, <- Ew. destruct (decide (gs (world st') !! k = gs (world stc) !! k)) as [|E]; [done|].
    apply (mf_keys _ _ _ _ Fm) in E. destruct Hk as [Hk|Hk]; by destruct k.
  - rewrite Ew2, (mf_generator _ _ _ _ Fm). by rewrite Ew.
  - intros a b [?|(u & Hu & <-)]%Hr; [auto|]. left. by apply New.
  - intros a [?|(u & Hu & <-)]%effect_new; [auto|]. left. by apply New.
  - intros a z Ez. destruct (effect_kept c r l _ _ _ a z G Hp Ez) as (z' & Ez' & Hk & _). exists z'. split; [done|].
    intros _ Hnw. destruct Hk as [?|(u & Du & <- & Uw)]; [done|]. exfalso. apply debited_arg in Du.
    rewrite Forall_forall in V. apply V in Du. apply writeable_bit in Uw.
    apply (validate_uref_holds _ _ Du), Hw in Uw. congruence.
  - rewrite El2, L. intros Hl0. pose proof (spends_guard _ _ _ _ _ _ G Hl0). lia.
  - intros z z' Ez Ez'. destruct (effect_kept c r l _ _ _ _ z G Hp Ez) as (z2 & E2 & _ & Hm).
    rewrite Ez' in E2. injection E2 as <-. specialize (Hm eq_refl). rewrite El2, L. lia.
Qed.

Lemma call_mint_guarded {R} (c : MintCall R) st l r st' : invariant st l -> fresh_next 1 st l ->
  in_int TU512 (arg_amount c) -> call_mint h c st = (Ok r, st') ->
  exists n, (n <= 1)%nat /\ guarded n st l st' (ledger_effect c r l).
Proof.
  intros [Hl O Ns] Fr Ha E. destruct (call_mint_called registry h mint_contract ts c st l r st' Hl Fr) as (n & C); [|done|].
  { split; [done|]. by rewrite (outside_caller _ O). }
  exists n. split; [by eapply called_one|]. destruct (called_ctx _ _ _ _ _ _ _ _ _ _ C) as (lim & g & t & Ec).
  eapply (called_guarded n c r l st st'); try done; rewrite ?Ec; try done; [eapply fresh_next_le, Fr; by eapply called_one|apply O|].
  intros a b [?|(u & Hu & ? & _)]%extend_list_holds; eauto.
Qed.

(** ** Host functions *)

Lemma guarded_ext n st l st1 l' st' : guarded n st l st1 l' ->
  gs (world st') = gs (world st1) -> address_generator (world st') = address_generator (world st1) ->
  account (ctx st') = account (ctx st1) -> base_key (ctx st') = base_key (ctx st1) -> limit_of st' = limit_of st1 ->
  KeyTypes.context_key (rights (ctx st')) = KeyTypes.context_key (rights (ctx st1)) ->
  (forall a b, holds_in (ctx st') a b = true -> holds_in (ctx st1) a b = true) -> guarded n st l st' l'.
Proof.
  intros [[[Ii Il It] Io Is] B D A Rt T S N K L Mn] Eg Ed Ea Eb El Ec Hr.
  split; rewrite ?Ed, ?Ea, ?El; try done; [|intros k Hk; rewrite Eg; by apply B|by intros a b ?%Hr%Rt].
  split; [by split; rewrite ?Eg| |].
  - by eapply outside_same.
  - eapply no_supply_step; [done|]. intros b. apply Hr.
Qed.

Lemma mint_transfer_guarded to source target amount id st l r st' : invariant st l -> fresh_next 1 st l ->
  in_int TU512 amount -> mint_transfer h to source target amount id st = (Ok r, st') ->
  exists n l', (n <= 1)%nat /\ guarded n st l st' l'.
Proof.
  intros [Hl O Ns] Fr Ha E.
  destruct (mint_transfer_called _ _ _ _ _ _ _ _ _ _ _ _ _ Hl Fr Ha E) as (n & st1 & g & C & ->).
  exists n, (ledger_effect (CallTransfer to source target amount id) r l). split; [by eapply called_one|].
  destruct (called_ctx _ _ _ _ _ _ _ _ _ _ C) as (lim & g' & t & Ec).
  eapply (called_guarded n _ r l st st1); try done; cbn [ctx]; rewrite ?Ec; try done;
    [eapply fresh_next_le, Fr; by eapply called_one|apply O|].
  intros a b [?|(u & Hu & ? & _)]%extend_list_holds; eauto.
Qed.

(** *** Rights that are granted for a transfer and taken back *)

Lemma holds_bit t a b : holds t a b = true -> 0 <= b.
Proof.
  unfold holds, has_bit. destruct (t !! a) as [r|]; [|done]. intros Hb. destruct (Z.le_gt_cases 0 b); [done|].
  by rewrite Z.testbit_neg_r in Hb.
Qed.

Lemma grant_context_key c u : KeyTypes.context_key (grant_access c u).1 = KeyTypes.context_key c.
Proof. unfold grant_access. by destruct (rights_table c !! addr u). Qed.
Lemma remove_context_key c a r : KeyTypes.context_key (remove_access c a r) = KeyTypes.context_key c.
Proof. unfold remove_access. by destruct (rights_table c !! a). Qed.

Lemma grant_holds c u a b : holds (rights_table (grant_access c u).1) a b = true ->
  holds (rights_table c) a b = true \/ addr u = a /\ has_bit (access_rights u) b = true.
Proof.
  rewrite grant_access_table, extend_one_holds. intros [?|[?%bool_decide_eq_true ?]%andb_true_iff]%orb_true_iff; auto.
Qed.

Lemma remove_holds c a' r a b : holds (rights_table (remove_access c a' r)) a b = true ->
  holds (rights_table c) a b = true /\ (a = a' -> has_bit r b = false).
Proof.
  intros Hh. pose proof (holds_bit _ _ _ Hh) as Hb. change (remove_access c a' r) with (apply_rights_op c (OpRemove a' r)) in Hh.
  rewrite apply_rights_op_holds in Hh by done. cbn [takes gives] in Hh. rewrite orb_false_r in Hh.
  apply andb_true_iff in Hh as [? Ht%negb_true_iff]. split; [done|]. intros ->.
  rewrite bool_decide_eq_true_2 in Ht by done. by rewrite andb_true_l in Ht.
Qed.

(** Taking back what was newly granted leaves no new rights. *)
Lemma granted_back c u a b :
  let '(c', granted) := grant_access c u in
  holds (rights_table match granted with Granted a' r => remove_access c' a' r | PreExisting => c' end) a b = true ->
  holds (rights_table c) a b = true.
Proof.
  destruct (grant_access c u) as [c' granted] eqn:Eg. intros Hh.
  assert (holds (rights_table c') a b = true) as Hh'.
  { destruct granted; [done|]. by apply remove_holds in Hh as [? _]. }
  pose proof (holds_bit _ _ _ Hh') as Hb. assert (c' = (grant_access c u).1) as Ec by (by rewrite Eg).
  rewrite Ec in Hh'. apply grant_holds in Hh' as [?|[Ea Hu]]; [done|]. subst a.
  unfold grant_access in Eg. unfold holds. destruct (rights_table c !! addr u) as [existing|] eqn:Et.
  - destruct (has_bit existing b) eqn:Ex; [done|]. injection Eg as _ <-.
    assert (has_bit (difference (access_rights u) existing) b = true) as Hd by (rewrite has_bit_difference by done; by rewrite Hu, Ex).
    destruct (is_none (difference (access_rights u) existing)) eqn:En.
    + apply bool_decide_eq_true in En. rewrite En in Hd. unfold has_bit in Hd. cbn in Hd. by rewrite Z.testbit_0_l in Hd.
    + apply remove_holds in Hh as [_ Hr]. rewrite Hr in Hd by done. done.
  - injection Eg as _ <-. apply remove_holds in Hh as [_ Hr]. rewrite Hr in Hu by done. done.
Qed.

Lemma existing_account_guarded target a source amount id st l granted rts r st' : invariant st l -> fresh_next 1 st l ->
  in_int TU512 amount -> grant_access (rights (ctx st)) (main_purse_add_only a) = (rts, granted) ->
  transfer_to_existing_account (Some target) source (main_purse_add_only a) amount id
    (MkRuntime (world st) (with_rights rts (ctx st))) = (Ok r, st') ->
  exists n l', (n <= 1)%nat /\ guarded n st l
    (MkRuntime (world st') (with_rights match granted with
       Granted a' nr => remove_access (rights (ctx st')) a' nr | PreExisting => rights (ctx st') end (ctx st'))) l'.
Proof.
  intros [Hl O Ns] Fr Ha Eg E. set (stg := MkRuntime (world st) (with_rights rts (ctx st))) in E.
  assert (rts = (grant_access (rights (ctx st)) (main_purse_add_only a)).1) as Er by (by rewrite Eg).
  assert (KeyTypes.context_key rts = KeyTypes.context_key (rights (ctx st))) as Ek by (rewrite Er; apply grant_context_key).
  assert (holds_ledger stg l) as Hg by (by destruct Hl).
  unfold transfer_to_existing_account in E. apply rt_bind_Ok in E as (h' & st1 & Eh & E).
  apply (get_mint_contract_Ok registry h mint_contract ts) in Eh as [-> ->]; [|apply Hg]. apply rt_bind_Ok in E as (res & st2 & Et & E).
  assert (st2 = st') as -> by (destruct res; by injection E as _ <-).
  destruct (mint_transfer_called _ _ _ _ _ _ _ _ _ _ _ _ _ Hg Fr Ha Et) as (n & st1 & g & C & ->).
  destruct (called_ctx _ _ _ _ _ _ _ _ _ _ C) as (lim & g' & t & Ec). cbn [ret_urefs] in Ec.
  assert (rights (ctx st1) = rts) as Rt' by (rewrite Ec; by destruct rts).
  exists n, (ledger_effect (CallTransfer (Some target) source (main_purse_add_only a) amount id) res l).
  split; [by eapply called_one|]. cbn [world ctx with_gas_counter rights]. rewrite Rt'.
  eapply (called_guarded n _ res l stg st1); try done; cbn [ctx with_rights with_gas_counter rights account base_key];
    rewrite ?Ec; try done.
  - eapply fresh_next_le, Fr. by eapply called_one.
  - cbn. rewrite Ek. apply O.
  - intros x Hx. cbn in Hx. rewrite Er in Hx. by apply grant_holds in Hx as [?|[_ Hx]].
  - cbn. rewrite <- Ek. destruct granted; [done|]. apply remove_context_key.
  - intros x b Hx. left. pose proof (granted_back (rights (ctx st)) (main_purse_add_only a) x b) as Gb.
    rewrite Eg in Gb. by apply Gb.
Qed.

(** Writing an account is outside of what the invariant looks at. *)
Lemma write_account_guarded target a st l r st' : invariant st l ->
  write_account (Account target) a st = (Ok r, st') -> guarded 0 st l st' l.
Proof.
  intros [[I Rep Ht] O Ns] E. unfold write_account in E. apply inert_bind_Ok in E as (_ & _ & E); [|apply inert_check].
  apply inert_bind_Ok in E as (v & _ & E); [|unfold account_to_validated_value; inert].
  apply metered_write_Ok in E as [g ->]. cbn [normalize].
  eapply guarded_trans with (n:=0%nat) (m:=0%nat) (st2:=st) (l2:=l); [by apply guarded_refl|].
  split; cbn; try done; [|intros k Hk; rewrite lookup_insert_ne by (intros <-; by destruct Hk); done|auto|auto|by intros x z ->; exists z|intros z z' -> [= ->]; unfold limit_of; cbn; lia].
  split; [split|by apply (outside_same (ctx st))|done]; [|by apply represents_other|done].
  destruct I as [(w & Ew & Er) Em Ek Es Eu Ee]. split; try done; cbn; [exists w|]; by rewrite lookup_insert_ne.
Qed.

Lemma new_account_guarded source target amount id st l r st' : invariant st l -> fresh_next 2 st l ->
  in_int TU512 amount -> transfer_to_new_account source target amount id st = (Ok r, st') ->
  exists n l', (n <= 2)%nat /\ guarded n st l st' l'.
Proof.
  intros Inv Fr Ha E. unfold transfer_to_new_account in E. apply rt_bind_Ok in E as (h' & st0 & Eh & E).
  apply (get_mint_contract_Ok registry h mint_contract ts) in Eh as [-> ->]; [|apply (inv_holds _ _ Inv)].
  apply inert_bind_Ok in E as (found & _ & E); [|unfold get_balance, read_gs_direct; inert].
  destruct (_ <? _). { injection E as _ <-. exists 0%nat, l. split; [lia|by apply guarded_refl]. }
  apply rt_bind_Ok in E as (purse & st1 & Ec & E).
  destruct (call_mint_guarded CallCreate st l purse st1 Inv) as (n1 & Hn1 & G1); [by eapply fresh_next_le, Fr; lia|done|done|].
  destruct (decide _). { injection E as _ <-. eauto. }
  apply rt_bind_Ok in E as (res & st2 & Et & E). unfold rt_try in Et.
  destruct (mint_transfer h _ _ _ _ _ st1) as [[res'|e| |] st2'] eqn:Em; try done; injection Et as <- <-.
  2: { by apply rt_bind_Ok in E as (? & ? & _ & ?). }
  assert (fresh_next 1 st1 (ledger_effect CallCreate purse l)) as F1.
  { eapply (fresh_next_step 1 n1); [done|]. eapply fresh_next_le, Fr. lia. }
  destruct (mint_transfer_guarded _ _ _ _ _ _ _ _ _ (gd_invariant _ _ _ _ _ G1) F1 Ha Em) as (n2 & l2 & Hn2 & G2).
  pose proof (guarded_trans _ _ _ _ _ _ _ _ G1 G2) as G12.
  apply rt_bind_Ok in E as ([] & st3 & [= <-] & E).
  assert (guarded (n1 + n2) st l (MkRuntime (world st2') (with_rights
    (remove_access (rights (ctx st2')) (addr purse) (access_rights purse)) (ctx st2'))) l2) as G3.
  { eapply guarded_ext; [exact G12|done..| |]; cbn; [apply remove_context_key|]. by intros a b [? _]%remove_holds. }
  destruct res' as [[]|me]; [|injection E as _ <-; eexists _, _; split; [|exact G3]; lia].
  apply rt_bind_Ok in E as (u & st4 & Ew & [= _ <-]).
  pose proof (write_account_guarded _ _ _ _ _ _ (gd_invariant _ _ _ _ _ G3) Ew) as G4.
  exists (n1 + n2 + 0)%nat, l2. split; [lia|]. by eapply guarded_trans.
Qed.

(** A host function runs as its body does, apart from the scope counter. *)
Definition scoped (st : RuntimeState) (d : Z) : RuntimeState :=
  MkRuntime (MkWorld (gs (world st)) (address_generator (world st)) d) (ctx st).

Lemma scope_guarded {A} (x : M A) st l a st' k :
  (forall st st', invariant st l -> fresh_next k st l -> x st = (Ok a, st') ->
     exists n l', (n <= k)%nat /\ guarded n st l st' l') ->
  invariant st l -> fresh_next k st l -> host_function_scope x st = (Ok a, st') ->
  exists n l', (n <= k)%nat /\ guarded n st l st' l'.
Proof.
  intros Hx Inv Fr E. unfold host_function_scope in E. cbv zeta in E.
  fold (scoped st (saturating_add 64 (host_function_depth (world st)) 1)) in E. set (st0 := scoped st _) in E.
  destruct (x st0) as [r st1] eqn:Ex. injection E as -> <-.
  destruct (Hx st0 st1) as (n & l' & Hn & G); [|done|done|].
  { destruct Inv as [[] ? ?]. by split. }
  exists n, l'. split; [done|]. assert (guarded n st l st1 l') as G' by (by destruct G; split).
  by eapply guarded_ext; [exact G'|..].
Qed.

Lemma purse_to_account_guarded source target amount id st l r st' : invariant st l -> fresh_next 2 st l ->
  in_int TU512 amount -> transfer_from_purse_to_account source target amount id st = (Ok r, st') ->
  exists n l', (n <= 2)%nat /\ guarded n st l st' l'.
Proof.
  intros Inv Fr Ha. unfold transfer_from_purse_to_account. apply scope_guarded; [|done|done].
  clear st st' Inv Fr. intros st st' Inv Fr E.
  apply inert_bind_Ok in E as (found & _ & E); [|unfold rc_read_account; inert].
  destruct found as [v|]; [|by eapply new_account_guarded].
  destruct v as [|a| | | | | | | | |]; try done.
  destruct (decide _) as [_|_]. { injection E as _ <-. exists 0%nat, l. split; [lia|by apply guarded_refl]. }
  apply rt_bind_Ok in E as (granted & stg & Eg & E). unfold rc_grant_access in Eg.
  apply inert_bind_Ok in Eg as (c & [= <-] & Eg); [|inert].
  destruct (grant_access (rights (ctx st)) (main_purse_add_only a)) as [rts granted'] eqn:Er.
  injection Eg as -> <-. apply rt_bind_Ok in E as (res & st2 & Et & E). unfold rt_try in Et.
  destruct (transfer_to_existing_account _ _ _ _ _ _) as [[res'|e| |] st2'] eqn:Em; try done; injection Et as <- <-.
  2: { by apply rt_bind_Ok in E as (? & ? & _ & ?). }
  destruct (existing_account_guarded target a source amount id st l granted rts res' st2') as (n & l' & Hn & G);
    [done|by eapply fresh_next_le, Fr; lia|done..|].
  exists n, l'. split; [lia|]. apply rt_bind_Ok in E as ([] & st3 & Ev & [= _ <-]).
  destruct granted; injection Ev as <-; [|exact G]. by eapply guarded_ext; [exact G|..].
Qed.

Lemma op_guarded o st l st' : 0 <= gas_per_byte -> invariant st l -> fresh_next 2 st l -> user_op_valid o ->
  run_user_op o st = (Ok tt, st') -> exists n l', (n <= 2)%nat /\ guarded n st l st' l'.
Proof.
  intros Hg Inv Fr Ho E. assert (fresh_next 1 st l) as Fr1 by (eapply fresh_next_le, Fr; lia).
  destruct o as [o|R c| |purse|source target amount id|source target amount id|target amount id]; cbn in E, Ho.
  - exists (op_draws o), l. split; [by destruct o; cbn; lia|].
    assert (fresh_next (op_draws o) st l) as Fo by (eapply fresh_next_le, Fr; destruct o; cbn; lia).
    eapply ctx_guarded; [|done|done]. pose proof (conf_op Hg o st Ho) as C. unfold conf in C. by rewrite E in C.
  - apply rt_bind_Ok in E as (h' & st0 & Eh & E). apply (get_mint_contract_Ok registry h mint_contract ts) in Eh as [-> ->]; [|apply (inv_holds _ _ Inv)].
    apply rt_bind_Ok in E as (r & st1 & Ec & [= <-]).
    destruct (call_mint_guarded c st l r st1 Inv Fr1 Ho Ec) as (n & Hn & G). exists n. eexists. split; [lia|exact G].
  - apply rt_bind_Ok in E as (r & st1 & Ec & [= <-]).
    assert (exists n l', (n <= 1)%nat /\ guarded n st l st1 l') as (n & l' & Hn & G); [|exists n, l'; split; [lia|done]].
    revert Ec. apply scope_guarded; [|done|done]. clear st Fr Fr1 Inv. intros st st2 Inv Fr E.
    apply rt_bind_Ok in E as (h' & st0 & Eh & E). apply (get_mint_contract_Ok registry h mint_contract ts) in Eh as [-> ->]; [|apply (inv_holds _ _ Inv)].
    destruct (call_mint_guarded CallCreate st l r st2 Inv Fr) as (n & Hn & G); [done|done|eauto].
  - apply inert_bind_Ok in E as (? & _ & [= <-]); [|unfold get_balance, read_gs_direct; inert].
    exists 0%nat, l. split; [lia|by apply guarded_refl].
  - apply rt_bind_Ok in E as (r & st1 & E & [= <-]). unfold transfer_from_purse_to_purse in E.
    apply inert_bind_Ok in E as (_ & _ & E); [|apply inert_check]. apply rt_bind_Ok in E as (h' & st0 & Eh & E).
    apply (get_mint_contract_Ok registry h mint_contract ts) in Eh as [-> ->]; [|apply (inv_holds _ _ Inv)].
    destruct (mint_transfer_guarded _ _ _ _ _ _ _ _ _ Inv Fr1 Ho E) as (n & l' & Hn & G). exists n, l'. split; [lia|done].
  - apply rt_bind_Ok in E as (r & st1 & E & [= <-]). exact (purse_to_account_guarded _ _ _ _ _ _ _ _ Inv Fr Ho E).
  - apply rt_bind_Ok in E as (r & st1 & E & [= <-]). unfold transfer_to_account in E.
    apply inert_bind_Ok in E as (source & _ & E); [|unfold rc_get_main_purse; inert].
    exact (purse_to_account_guarded _ _ _ _ _ _ _ _ Inv Fr Ho E).
Qed.

Lemma run_guarded ops st l st' : 0 <= gas_per_byte -> invariant st l -> fresh_next (2 * length ops) st l ->
  Forall user_op_valid ops -> run_user_ops ops st = (Ok tt, st') ->
  exists n l', (n <= 2 * length ops)%nat /\ guarded n st l st' l'.
Proof.
  intros Hg Inv Fr Ho. revert st l Inv Fr. induction Ho as [|o ops Ho _ IH]; intros st l Inv Fr; cbn.
  - intros [= <-]. exists 0%nat, l. split; [lia|by apply guarded_refl].
  - intros ([] & st1 & E1 & E2)%rt_bind_Ok. cbn [length] in Fr.
    destruct (op_guarded o st l st1 Hg Inv) as (n & l1 & Hn & G1); [by eapply fresh_next_le, Fr; lia|done..|].
    destruct (IH st1 l1) as (m & l2 & Hm & G2); [apply G1| |done|].
    { eapply (fresh_next_step _ n); [done|]. eapply fresh_next_le, Fr. lia. }
    exists (n + m)%nat, l2. split; [lia|]. by eapply guarded_trans.
Qed.

(** C4 Whatever a deploy of an account other than the system's does, as long as it ends without an error: the purses
    hold the same tokens in total as before and the total supply is the same; a purse that the deploy had no
    write access to at the start holds at least what it held; and the account's main purse lost no more than the
    spending limit went down, which is at most the limit that was approved. *)
Theorem deploy_cannot_take_tokens ops st l st' :
  0 <= gas_per_byte -> invariant st l -> fresh_next (2 * length ops) st l -> Forall user_op_valid ops ->
  run_user_ops ops st = (Ok tt, st') ->
  exists l', represents (addr ts) (gs (world st')) l' /\
    total (balances l') = total (balances l) /\ supply l' = supply l /\
    (forall a z, balances l !! a = Some z -> exists z', balances l' !! a = Some z' /\
       (holds_in (ctx st) a WRITE_BIT = false -> z <= z')) /\
    (forall z, 0 <= limit_of st -> balances l !! main_of st = Some z -> exists z', balances l' !! main_of st = Some z' /\
       z - z' <= limit_of st - limit_of st' /\ 0 <= limit_of st').
Proof.
  intros Hg Inv Fr Ho E. destruct (run_guarded ops st l st' Hg Inv Fr Ho E) as (n & l' & Hn & G).
  destruct (fresh_next_le _ _ _ _ _ Hn Fr) as [_ F]. exists l'.
  split_and!; [apply (gd_invariant _ _ _ _ _ G)|apply G|apply G| |].
  - intros a z Ez. destruct (gd_kept _ _ _ _ _ G a z Ez) as (z' & Ez' & Hk). exists z'. split; [done|]. apply Hk.
    intros [? _]%F. congruence.
  - intros z Hl Ez. destruct (gd_kept _ _ _ _ _ G _ z Ez) as (z' & Ez' & _). exists z'. split; [done|].
    split; [by eapply (gd_main _ _ _ _ _ G)|by apply G].
Qed.

End TokenSafety.
