(* ===== verification/AuctionSafety.v ===== *)
(** * Calls of the auction, and the chain between them

    The theorems of [AuctionSteps] and [AuctionRewards] hold inside the
    auction.  This file lifts them to calls of the auction from any context
    ([call_auction]), and puts such calls and deploys of accounts ([TokenSafety])
    in any order: after every such history the purses hold what bids, delegations
    and unbonding requests promise. *)

From S2P Require Import Prelude Bytesrepr Hashing KeyTypes Values PublicKeys Account Contracts SystemErrors AuctionData StoredValue Transform TrackingCopy TrackingSim RuntimeContext RuntimeConfine Mint SystemCalls Auction MintLedger Claims MintCalls Solvency AuctionSteps AuctionRewards TokenSafety.
Local Open Scope Z_scope.

Section AuctionSafety.
Context `{KeyCrates} `{Blake2b} `{AddressRng} `{EngineConfig} `{RationalCrate} `{!WasmCalls} `{!RatioLaws}.

Abbreviation M := (RT RuntimeState ExecError).

Variable registry : btree_map rstring ContractHash.
Variable h : ContractHash.
Variable mint_contract : Contract.
Variable ts : URef.
Variable auction_hash : ContractHash.
Variable auction_contract : Contract.

Abbreviation fresh_next := (fresh_next ts).
Abbreviation installed := (installed registry h mint_contract ts).
Abbreviation steady := (steady registry h mint_contract ts).
Abbreviation advances := (advances registry h mint_contract ts).

(** The auction is installed beside the mint, and its keys do not name the total supply. *)
Record auction_installed (m : gmap Key StoredValue) : Prop := {
  ai_registered : btree_get AUCTION (entries registry) = Some auction_hash;
  ai_not_mint : auction_hash <> h;
  ai_not_payment : btree_get HANDLE_PAYMENT (entries registry) <> Some auction_hash;
  ai_contract : m !! KeyHash auction_hash = Some (StoredContract auction_contract);
  ai_entries name e : entry_point_get (entry_points auction_contract) name = Some e ->
    Contracts.entry_point_type e = EntryContract;
  ai_apart name u : btree_get name (entries (contract_named_keys auction_contract)) = Some (KeyURef u) -> addr u <> addr ts;
}.

(** The invariant: the mint's ledger is [l], and the balance of every purse covers what is recorded against it. *)
Record solvent (m : gmap Key StoredValue) (l : Ledger) : Prop := {
  sv_mint : installed m;
  sv_auction : auction_installed m;
  sv_represents : represents (addr ts) m l;
  sv_total : in_int TU512 (total (balances l));
  sv_records k v : m !! k = Some v -> record_ok k v;
  sv_backed p : claims m p <= balance_of l p;
}.

(** ** The entry points *)

(** Addresses that a call may draw. *)
Definition auction_draws {R} (c : AuctionCall R) (m : gmap Key StoredValue) : nat :=
  match c with
  | CallAddBid _ _ _ | CallDelegate _ _ _ => 2
  | CallRunAuction _ _ => 2 * pending m
  | CallSlash _ | CallDistribute _ => 1
  | _ => 0
  end%nat.

(** The account pays from a purse of its own. *)
Definition pays_from (p : URefAddr) (m : gmap Key StoredValue) (l : Ledger) : Prop :=
  is_Some (balances l !! p) /\ ~ bonding m p.

(** The arguments are of their types, the caller's main purse is not a bonding purse, and the rewards fit into [U512]s. *)
Definition auction_call_ok {R} (c : AuctionCall R) (main : URefAddr) (m : gmap Key StoredValue) (l : Ledger) : Prop :=
  match c with
  | CallAddBid _ _ amount | CallDelegate _ _ amount => in_int TU512 (U512_val amount) /\ pays_from main m l
  | CallWithdrawBid _ amount | CallUndelegate _ _ amount | CallRedelegate _ _ amount _ => in_int TU512 (U512_val amount)
  | CallDistribute factors =>
      Forall (fun x : PublicKey * u64 => 0 <= u64_val x.2) (entries factors) /\ rewards_fit mint_contract (entries factors) l m
  | _ => True
  end.

Lemma charge_alike n st r st' l e : steady st l e -> charge_system_contract_call n st = (Ok r, st') -> alike st st'.
Proof.
  intros S E. destruct (hl_installed _ _ _ _ _ _ (sd_ledger _ _ _ _ _ _ _ S)) as [(v & Ev & Er) Em _ _ _ _].
  destruct (charge_call_shape h n st) as (g & [Eg|Eg]); [by exists v, registry| |by rewrite Eg in E].
  rewrite Eg in E. injection E as _ <-. done.
Qed.

Lemma inert_advances {E A} (x : RT RuntimeState E A) b st l e r st' : inert x -> steady st l e -> x st = (Ok r, st') ->
  advances b st l e st'.
Proof.
  intros Hi S Ex. specialize (Hi st). rewrite Ex in Hi. cbn in Hi. subst. exists 0%nat, l. split; [lia|].
  split; [apply ext_refl|done].
Qed.

Lemma advances_alike b st st1 l e st' : alike st st1 -> advances b st1 l e st' -> advances b st l e st'.
Proof. intros Al (n & l' & Hn & X & S). exists n, l'. split; [done|]. split; [by eapply ext_alike|done]. Qed.

Lemma entry_point_advances {R} (c : AuctionCall R) st l r st' : steady st l (fun _ => 0) ->
  fresh_next (auction_draws c (gs (world st))) st l ->
  auction_call_ok c (addr (main_purse (account (ctx st)))) (gs (world st)) l ->
  auction_entry_point c st = (Ok r, st') -> advances (auction_draws c (gs (world st))) st l (fun _ => 0) st'.
Proof.
  intros S Fr Hok E. destruct c; cbn [auction_entry_point auction_draws auction_call_ok] in *;
    apply rt_bind_Ok in E as ([] & st1 & Ec & E); pose proof (charge_alike _ _ _ _ _ _ S Ec) as Al;
    apply rt_map_err_Ok in E; pose proof (steady_alike _ _ _ _ _ _ _ _ Al S) as S1;
    pose proof (fresh_alike _ _ _ _ _ Al Fr) as Fr1; apply (advances_alike _ _ _ _ _ _ Al); destruct Al as (Ew & _ & Ea & _).
  - eapply inert_advances, E; [|done]. unfold get_era_validators, get_seigniorage_recipients_snapshot. inert; apply read_from_inert.
  - destruct Hok as (Ha & Hm & Hb). rewrite <- Ea, <- ?Ew in *. by eapply add_bid_advances.
  - by eapply withdraw_bid_advances.
  - destruct Hok as (Ha & Hm & Hb). rewrite <- Ea, <- ?Ew in *. by eapply delegate_advances.
  - by eapply undelegate_advances.
  - by eapply redelegate_advances.
  - rewrite <- Ew in *. by eapply run_auction_advances.
  - apply (advances_le _ _ _ _ 0 1 st1 l (fun _ => 0)); [lia|done|]. by eapply slash_advances.
  - destruct Hok as (Hf & Hfit). rewrite <- Ew in Hfit. 
    apply (advances_le _ _ _ _ 0 1 st1 l (fun _ => 0)); [lia|done|]. by eapply distribute_advances.
  - eapply inert_advances, E; [|done]. apply inert_get_era_id.
  - by eapply activate_bid_advances.
Qed.

(** ** A call *)

Lemma auction_is_registered m : auction_installed m -> is_registered registry (KeyHash auction_hash) = true.
Proof. intros A. cbn. by apply (btree_get_existsb _ AUCTION), ai_registered with m. Qed.

Lemma not_named name st : installed (gs (world st)) -> btree_get name (entries registry) <> Some auction_hash ->
  is_contract_named name (KeyHash auction_hash) st = (Ok false, st).
Proof.
  intros I Hn. destruct (ins_registry _ _ _ _ _ I) as (v & Ev & Er). unfold is_contract_named.
  unfold get_system_contract, system_contract_registry. cbv [mbind RT_bind rt_try rt_map_err rt_ok_or lift].
  rewrite (get_system_contracts_eq _ _ _ Ev Er). cbn. destruct (btree_get name (entries registry)) as [a|]; [|done].
  cbn. rewrite bool_decide_eq_false_2; [done|]. congruence.
Qed.

(** A call of the auction that returns ran its entry point in the auction's context, and the caller's rights are the same. *)
Lemma call_auction_entered {R} (c : AuctionCall R) st r st' : installed (gs (world st)) -> auction_installed (gs (world st)) ->
  call_auction auction_hash c st = (Ok r, st') -> exists rts stk inner w g,
  auction_entry_point c (MkRuntime (world st) (new_from_self (ctx st) (KeyHash auction_hash) EntryContract
    (contract_named_keys auction_contract) rts stk)) = (Ok r, MkRuntime w inner) /\
  st' = MkRuntime w (with_transfers (transfers inner) (with_gas_counter g (ctx st))).
Proof.
  intros I A E. unfold call_auction in E. apply rt_bind_Ok in E as ([key entered] & st1 & Ee & E).
  destruct (enter_registered _ _ _ _ _ _ _ _ _ _ _ I (auction_is_registered _ A) (ai_contract _ A) (ai_entries _ A) Ee)
    as (-> & _ & stk & [= -> ->]).
  erewrite rt_bind_eq in E by (apply not_named; [done|]; rewrite (ins_mint _ _ _ _ _ I); pose proof (ai_not_mint _ A); congruence).
  erewrite rt_bind_eq in E by (apply not_named; [done|apply (ai_not_payment _ A)]).
  erewrite (rt_bind_eq _ _ _ true st) in E.
  2: { unfold is_contract_named. erewrite rt_bind_eq by (eapply rt_try_eq, get_system_eq; [exact I|apply (ai_registered _ A)]).
    cbn. by rewrite bool_decide_eq_true_2. }
  cbn [negb andb] in E. unfold call_host_auction in E. erewrite rt_bind_eq in E by done.
  erewrite rt_bind_eq in E by (eapply get_system_eq; [exact I|apply (ai_registered _ A)]).
  erewrite rt_bind_eq in E by (apply get_contract_eq, (ai_contract _ A)). cbv zeta in E.
  apply host_call_Ok in E as (a & w & inner & g & Em & E). cbv [mbind RT_bind set_ctx modify] in E.
  injection E as <- <-. by eexists _, stk, inner, w, g.
Qed.

(** Inside the auction, at the start of a call. *)
Lemma inner_steady st l rts stk : solvent (gs (world st)) l ->
  steady (MkRuntime (world st) (new_from_self (ctx st) (KeyHash auction_hash) EntryContract
    (contract_named_keys auction_contract) rts stk)) l (fun _ => 0).
Proof.
  intros [I A Rp T Sr Sb]. split; [by split|done| |].
  - intros p. specialize (Sb p). cbn. lia.
  - apply (ai_apart _ A).
Qed.

Lemma call_solvent {R} (c : AuctionCall R) st l r st' : solvent (gs (world st)) l ->
  fresh_next (auction_draws c (gs (world st))) st l ->
  auction_call_ok c (addr (main_purse (account (ctx st)))) (gs (world st)) l ->
  call_auction auction_hash c st = (Ok r, st') -> exists l', solvent (gs (world st')) l'.
Proof.
  intros Sv Fr Hok E. destruct (call_auction_entered c st r st' (sv_mint _ _ Sv) (sv_auction _ _ Sv) E)
    as (rts & stk & inner & w & g & Em & ->).
  destruct (entry_point_advances c _ l r _ (inner_steady st l rts stk Sv) Fr Hok Em) as (n & l' & _ & X & [[I Rp T] Sr Sb _]).
  exists l'. cbn [world] in *. split; try done.
  - destruct (sv_auction _ _ Sv). split; try done. by rewrite (ext_contracts _ _ _ _ _ X).
  - intros p. specialize (Sb p). lia.
Qed.

(** ** Histories *)

(** A call of the auction by any caller, or what an account that is not the system's does outside of the system contracts,
    with no write access to bonding purses.  The drawn addresses are new. *)
Inductive chain_step : World -> World -> Prop :=
| step_auction R (c : AuctionCall R) st r st' :
    (forall l, represents (addr ts) (gs (world st)) l -> fresh_next (auction_draws c (gs (world st))) st l /\
       auction_call_ok c (addr (main_purse (account (ctx st)))) (gs (world st)) l) ->
    call_auction auction_hash c st = (Ok r, st') -> chain_step (world st) (world st')
| step_deploy ops st st' :
    outside registry (ctx st) -> no_supply_rights ts (ctx st) ->
    (forall p, bonding (gs (world st)) p -> holds_in (ctx st) p WRITE_BIT = false) ->
    (forall l, represents (addr ts) (gs (world st)) l -> fresh_next (2 * length ops) st l) ->
    Forall user_op_valid ops -> run_user_ops ops st = (Ok tt, st') -> chain_step (world st) (world st').

Lemma guarded_solvent n st l st' l' : solvent (gs (world st)) l -> fresh_next n st l ->
  (forall p, bonding (gs (world st)) p -> holds_in (ctx st) p WRITE_BIT = false) ->
  guarded registry h mint_contract ts n st l st' l' -> solvent (gs (world st')) l'.
Proof.
  intros [I A Rp T Sr Sb] [_ Hf] Hw G. destruct (gd_invariant _ _ _ _ _ _ _ _ _ G) as [[I' Rp' T'] _ _].
  assert (same_stakes (gs (world st)) (gs (world st'))) as Hs by (intros k Hk; apply (gd_same _ _ _ _ _ _ _ _ _ G); by left).
  assert (forall p, 0 <= balance_of l' p) as Hpos.
  { intros p. unfold balance_of. destruct (balances l' !! p) as [z|] eqn:Ez; [|done]. by apply (balance_range _ _ _ _ _ Rp' Ez). }
  split; try done.
  - pose proof (auction_is_registered _ A) as Hr. destruct A. split; try done.
    by rewrite (gd_same _ _ _ _ _ _ _ _ _ G) by (by right).
  - intros k v E. destruct (stake_key k) eqn:Ek; [|by destruct k]. rewrite (Hs k Ek) in E. by apply Sr.
  - intros p. rewrite (claims_same _ _ p Hs). specialize (Sb p). specialize (Hpos p). unfold balance_of in Sb at 1.
    destruct (balances l !! p) as [z|] eqn:Ez; [|cbn in Sb; lia].
    destruct (gd_kept _ _ _ _ _ _ _ _ _ G p z Ez) as (z' & Ez' & Hk).
    destruct (holds_in (ctx st) p WRITE_BIT) eqn:Eh.
    + rewrite claims_not_bonding; [done|]. intros Hb%Hw. congruence.
    + unfold balance_of. rewrite Ez'. cbn in Sb |- *. assert (z <= z'); [|lia]. apply Hk; [|done].
      intros [? _]%Hf. congruence.
Qed.

Lemma step_solvent w w' l : 0 <= gas_per_byte -> solvent (gs w) l -> chain_step w w' -> exists l', solvent (gs w') l'.
Proof.
  intros Hg Sv Hst. revert Sv. destruct Hst as [R c st r st' Hc E|ops st st' Ho Hn Hw Hf Hv E]; intros Sv.
  - destruct (Hc l (sv_represents _ _ Sv)) as [Fr Hok]. by eapply call_solvent.
  - pose proof (Hf l (sv_represents _ _ Sv)) as Fr.
    destruct (run_guarded registry h mint_contract ts ops st l st' Hg) as (n & l' & Hn' & G); [|done|done|done|].
    { split; [|done|done]. destruct Sv. by split. }
    exists l'. eapply guarded_solvent; [done|by eapply fresh_next_le|done|exact G].
Qed.

(** C5 After any history of auction calls and deploys, each of which ended without an error, every bonding purse
    holds at least the sum of the stakes and unbonding amounts that are recorded against it: bids, delegations and
    unbonding requests can always be paid out of the purses they name. *)
Theorem auction_stays_solvent w w' l : 0 <= gas_per_byte -> solvent (gs w) l -> rtc chain_step w w' ->
  exists l', represents (addr ts) (gs w') l' /\ forall p, 0 <= claims (gs w') p <= balance_of l' p.
Proof.
  intros Hg Sv Hs. assert (exists l', solvent (gs w') l') as [l' Sv'].
  { revert l Sv. induction Hs as [w|w1 w2 w3 Hst _ IH]; intros l Sv; [by exists l|].
    destruct (step_solvent _ _ _ Hg Sv Hst) as [l2 Sv2]. by eapply IH. }
  exists l'. split; [apply Sv'|]. intros p. split; [apply claims_nonneg, Sv'|apply Sv'].
Qed.

End AuctionSafety.
