(* ===== verification/RuntimeSample.v ===== *)
(** * A concrete execution: instances of the interfaces, a global state with
    the mint and two accounts, and the witnesses of the theorems on the
    execution of deploys. *)

From stdpp Require Import strings.
From S2P Require Import Prelude Bytesrepr Hashing KeyTypes TrieProps Values PublicKeys Account Contracts SystemErrors AuctionData StoredValue Transform TrackingCopy TrackingSim StateSample RuntimeContext RuntimeConfine Mint SystemCalls MintLedger MintCalls TokenSafety.
Local Open Scope Z_scope.

(** ** Instances *)

(** Addresses that count up. *)
Definition counting_rng : AddressRng := {|
  rng := Z; fill_bytes n := (MkArray (le_split 32 n), n + 1) |}.

Definition sample_config : EngineConfig := {|
  strict_argument_checking := true; max_runtime_call_stack_height := 12;
  handle_payment_costs := MkHandlePaymentCosts 10000 10000 10000 10000; gas_per_byte := 1;
  max_associated_keys := 100; mint_costs := MkMintCosts 10 10 10 10 10 10;
  auction_costs := MkAuctionCosts 10 10 10 10 10 10 10 10 10;
  vesting_schedule_period_millis := 0; minimum_delegation_amount := 5 |}.

Definition reduced (n d : Z) : Ratio := MkRatio (n / Z.gcd n d) (d / Z.gcd n d).
Definition checked_ratio (n d : Z) : option Ratio :=
  if (0 <=? n) && (n <? 2 ^ 512) && (0 <? d) && (d <? 2 ^ 512) then Some (reduced n d) else None.
Definition ratio_product (a b : Ratio) : option Ratio := checked_ratio (numer a * numer b) (denom a * denom b).
Definition ratio_difference (a b : Ratio) : option Ratio :=
  checked_ratio (numer a * denom b - numer b * denom a) (denom a * denom b).
Definition sample_ratios : RationalCrate := {|
  ratio_reduce := reduced; ratio_checked_mul := ratio_product; ratio_checked_sub := ratio_difference;
  ratio_mul := ratio_product; ratio_sub := ratio_difference |}.

Module RuntimeSample.
#[local] Existing Instances wide_checksum plain_crates counting_rng sample_config sample_ratios.

(** No other contract runs. *)
#[local] Instance no_wasm : WasmCalls := {| wasm_call _ _ _ := throw ExecInvalidContext |}.

(** ** A global state *)

Definition address (n : Z) : URefAddr := MkArray (le_split 32 n).
Definition alice : AccountHash := MkAccountHash (le_split 32 11).
Definition bob : AccountHash := MkAccountHash (le_split 32 12).
Definition carol : AccountHash := MkAccountHash (le_split 32 13).
Definition alice_purse : URef := MkURef (address 1) READ_ADD_WRITE.
Definition bob_purse : URef := MkURef (address 2) READ_ADD_WRITE.
Definition alice_account : AccountRecord := Account_create alice (BTreeMap []) alice_purse.
Definition bob_account : AccountRecord := Account_create bob (BTreeMap []) bob_purse.
Definition total_supply_uref : URef := MkURef (address 50) READ_ADD_WRITE.

Definition mint_hash : ContractHash := address 1000.
Definition mint_package : HashAddr := address 1001.
Definition registry : btree_map rstring ContractHash := BTreeMap [(MINT, mint_hash)].
Definition version : ProtocolVersion := MkSemVer (U32 1) (U32 0) (U32 0).
Definition entry (name : string) (args : list (rstring * CLType)) (ret : CLType) : EntryPoint :=
  MkEntryPoint (str name) ((fun p => MkParameter p.1 p.2) <$> args) ret AccessPublic EntryContract.
Definition mint_entry_points : EntryPoints :=
  EntryPoints_from [
    entry "create" (arg_types (mint_args CallCreate)) CLType.URef;
    entry "transfer" (arg_types (mint_args (CallTransfer None alice_purse bob_purse 0 None))) CLType.Any].
Definition mint_contract : Contract :=
  MkContract mint_package (address 0) (BTreeMap [(TOTAL_SUPPLY_KEY, KeyURef total_supply_uref)])
    mint_entry_points version.
Definition package : ContractPackage :=
  MkContractPackage (MkURef (address 1002) READ_ADD_WRITE) (BTreeMap []) (BTreeSet []) (BTreeMap []) Locked.

Definition registry_value : CLValue :=
  match from_t (A:=btree_map rstring ContractHash) registry with Ok v => v | _ => MkCLValue CLType.Unit (MkBytes []) end.
Definition genesis : gmap Key StoredValue :=
  <[Balance (address 1) := u512_stored 100]> (<[Balance (address 2) := u512_stored 20]>
  (<[Account alice := StoredAccount alice_account]> (<[Account bob := StoredAccount bob_account]>
  (<[KeyHash mint_hash := StoredContract mint_contract]> (<[KeyHash mint_package := StoredContractPackage package]>
  (<[KeyTypes.SystemContractRegistry := StoredCLValue registry_value]>
  {[KeyURef (MkURef (address 50) NONE) := u512_stored 120]})))))).
Definition genesis_ledger : Ledger := MkLedger (<[address 1 := 100]> (<[address 2 := 20]> ∅)) 120.

Definition session (who : AccountRecord) (limit : Z) : Context :=
  MkContext (account_named_keys who) (Account_extract_access_rights who) who (BTreeSet [(account_hash who, tt)])
    (Account (account_hash who)) (MkDeployHash (le_split 32 77)) 1000000 0 PhaseSession EntrySession version []
    limit [CallSession (account_hash who)].
Definition start (c : Context) : RuntimeState := MkRuntime (MkWorld genesis 100 0) c.

Lemma small_int z : 0 <= z <= 1000 -> in_int TU512 z.
Proof. intros. assert (1000 < 2 ^ 512) by (vm_compute; reflexivity). split; cbn; lia. Qed.

Lemma add_purse ts m b s a z : in_int TU512 z -> represents ts m (MkLedger b s) ->
  represents ts (<[Balance a := u512_stored z]> m) (MkLedger (<[a := z]> b) s).
Proof. intros Hz. exact (represents_balance ts m (MkLedger b s) a z Hz). Qed.

Lemma genesis_represents : represents (address 50) genesis genesis_ledger.
Proof.
  unfold genesis, genesis_ledger. do 2 (apply add_purse; [by apply small_int|]).
  do 5 (apply represents_other; [done|done|]). split; cbn [balances supply].
  - intros a. by rewrite lookup_empty, lookup_singleton_ne.
  - rewrite lookup_singleton_eq. by apply int_value_stored, small_int.
Qed.

Lemma genesis_installed : installed registry mint_hash mint_contract total_supply_uref genesis.
Proof.
  split.
  - exists registry_value. split; [|vm_compute; reflexivity].
    unfold genesis. by do 6 (rewrite lookup_insert_ne by done); rewrite lookup_insert_eq.
  - vm_compute. reflexivity.
  - unfold genesis. by do 4 (rewrite lookup_insert_ne by done); rewrite lookup_insert_eq.
  - vm_compute. reflexivity.
  - vm_compute. auto.
  - intros name e He%btree_get_values.
    assert (Forall (fun e => Contracts.entry_point_type e = EntryContract) (entries (entry_points_map mint_entry_points)).*2)
      as F by (repeat constructor).
    by apply (proj1 (Forall_forall _ _) F).
Qed.

(** ** Witnesses *)

(** Writing to a new address, storing its name, and an attempt on the total supply. *)
Definition code_ops : list CtxOp :=
  [OpNewUref (u512_stored 7); OpPutKey (str "counter") (KeyURef (MkURef (address 100) READ_ADD_WRITE));
   OpAddGs (KeyURef (MkURef (address 100) ADD)) (u512_stored 1); OpWriteGs (KeyURef total_supply_uref) (u512_stored 1000);
   OpWriteGs (Balance (address 1)) (u512_stored 1000); OpSetActionThreshold KeyManagement (MkInt 1)].

Definition code_start : RuntimeState := start (session alice_account 50).

Lemma sample_gas : 0 <= gas_per_byte.
Proof. vm_compute. discriminate. Qed.

Lemma code_ops_valid : Forall ctx_op_valid code_ops.
Proof.
  repeat (apply Forall_cons; split; [try exact I|]); [|apply Forall_nil_2].
  split; [vm_compute; done|]. split; [vm_compute; reflexivity|vm_compute; done].
Qed.

Lemma context_confined_witness :
  confined 1 code_start (run_ctx_ops code_ops code_start) /\
  gs (world (run_ctx_ops code_ops code_start)) !! Balance (address 1) = Some (u512_stored 100) /\
  gs (world (run_ctx_ops code_ops code_start)) !! KeyURef (MkURef (address 100) NONE) = Some (u512_stored 8).
Proof.
  pose proof (context_confined sample_gas code_ops code_start code_ops_valid) as [C B].
  split; [exact C|]. split.
  - rewrite B by done. unfold code_start, start. cbn [world gs]. unfold genesis. by rewrite lookup_insert_eq.
  - apply (bool_decide_eq_true_1 _). vm_compute. reflexivity.
Defined.

(** The mint, called by a session of [who]. *)
Definition in_mint_context (who : AccountRecord) (limit : Z) : Context :=
  new_from_self (session who limit) (KeyHash mint_hash) EntryContract (contract_named_keys mint_contract)
    (extend (Contract_extract_access_rights mint_contract mint_hash) [alice_purse; bob_purse])
    [CallSession (account_hash who); CallStoredContract mint_package mint_hash].

Lemma start_mint_ready : mint_ready mint_hash total_supply_uref genesis_ledger (start (in_mint_context alice_account 50)).
Proof.
  split.
  - split; [done| |vm_compute; reflexivity|vm_compute; reflexivity|vm_compute; auto].
    destruct genesis_installed as [(v & Ev & Er) Em _ _ _ _]. exists v, registry. split; [exact Ev|]. split; [exact Er|exact Em].
  - exact genesis_represents.
  - apply small_int. vm_compute. split; discriminate.
  - intros a g [= <- _]. split; [apply (bool_decide_eq_true_1 _); vm_compute; reflexivity|done].
Qed.

Definition mint_transfer_call : MintCall (unit + MintError) :=
  CallTransfer (Some bob) alice_purse (with_access_rights bob_purse ADD) 30 None.

Definition mint_start : RuntimeState := start (in_mint_context alice_account 50).

Lemma alice_not_system : caller_is_system (ctx mint_start) <> true.
Proof. vm_compute. discriminate. Qed.

Definition transferred {E} (r : res E (unit + MintError)) : bool :=
  match r with Ok (inl _) => true | _ => false end.

Lemma mint_refines_ledger_witness :
  exists st', mint_entry_point mint_transfer_call mint_start = (Ok (inl tt), st') /\
    represents (address 50) (gs (world st')) (MkLedger (<[address 1 := 70]> (<[address 2 := 50]> ∅)) 120) /\
    limit_of st' = 20.
Proof.
  pose proof (mint_refines_ledger mint_transfer_call mint_hash total_supply_uref genesis_ledger mint_start
    start_mint_ready (small_int 30 ltac:(lia)) (fun E => False_ind _ (alice_not_system E))) as W.
  assert (transferred (mint_entry_point mint_transfer_call mint_start).1 = true) as E by (vm_compute; reflexivity).
  destruct (mint_entry_point mint_transfer_call mint_start) as [r st'].
  destruct r as [[[]|]| | |]; cbn in E; try discriminate E.
  exists st'. split; [reflexivity|]. destruct W as (Rep & _ & L & _).
  split; [|rewrite L; vm_compute; reflexivity].
  assert (balances (ledger_effect mint_transfer_call (inl tt) genesis_ledger) =
    <[address 1 := 70]> (<[address 2 := 50]> ∅)) as Eb by (apply (bool_decide_eq_true_1 _); vm_compute; reflexivity).
  rewrite <- Eb. exact Rep.
Defined.

(** A deploy of Alice's, who approved 50 motes: to Bob, to a new purse and to a new account. *)
Definition deploy_ops : list UserOp :=
  [UserTransfer bob 20 None; UserCreatePurse;
   UserTransferToPurse alice_purse (MkURef (address 101) ADD) 10 None; UserTransfer carol 15 (Some (U64 7))].
Definition deploy_end : RuntimeState := (run_user_ops deploy_ops code_start).2.

Lemma alice_invariant : invariant registry mint_hash mint_contract total_supply_uref code_start genesis_ledger.
Proof.
  split.
  - split; [exact genesis_installed|exact genesis_represents|]. apply small_int. vm_compute. split; discriminate.
  - split; [apply (bool_decide_eq_true_1 _); vm_compute; reflexivity|exact I|vm_compute; reflexivity..].
  - split; vm_compute; reflexivity.
Qed.

Lemma sample_fresh : fresh_next total_supply_uref 8 code_start genesis_ledger.
Proof.
  assert (Forall (fun a => balances genesis_ledger !! a = None /\ a <> address 50) (draws 8 100).1) as F
    by (apply (bool_decide_eq_true_1 _); vm_compute; reflexivity).
  split; [apply (bool_decide_eq_true_1 _); vm_compute; reflexivity|].
  intros a Ha. exact (proj1 (Forall_forall _ _) F a Ha).
Qed.

Lemma deploy_ops_valid : Forall user_op_valid deploy_ops.
Proof. repeat (apply Forall_cons; split; [try exact I; apply small_int; lia|]). apply Forall_nil_2. Qed.

Lemma deploy_runs : run_user_ops deploy_ops code_start = (Ok tt, deploy_end).
Proof.
  assert (is_ok (run_user_ops deploy_ops code_start).1 = true) as E by (vm_compute; reflexivity).
  unfold deploy_end. destruct (run_user_ops deploy_ops code_start) as [[[]| | |] st]; done.
Qed.

Lemma deploy_cannot_take_tokens_witness :
  limit_of deploy_end = 5 /\
  exists l', represents (address 50) (gs (world deploy_end)) l' /\ total (balances l') = 120 /\ supply l' = 120 /\
    (exists z', balances l' !! address 2 = Some z' /\ 20 <= z') /\
    (exists z', balances l' !! address 1 = Some z' /\ 55 <= z').
Proof.
  assert (limit_of deploy_end = 5) as Hlim by (vm_compute; reflexivity). split; [exact Hlim|].
  destruct (deploy_cannot_take_tokens registry mint_hash mint_contract total_supply_uref deploy_ops code_start
    genesis_ledger deploy_end sample_gas alice_invariant sample_fresh deploy_ops_valid deploy_runs)
    as (l' & Rep & T & Sup & K & Main).
  exists l'. split; [exact Rep|]. split; [rewrite T; vm_compute; reflexivity|]. split; [exact Sup|]. split.
  - destruct (K (address 2) 20) as (z' & E & Hz); [vm_compute; reflexivity|]. exists z'. split; [exact E|].
    apply Hz. vm_compute. reflexivity.
  - destruct (Main 100) as (z' & E & Hz & _); [vm_compute; discriminate|vm_compute; reflexivity|].
    exists z'. split; [exact E|]. rewrite Hlim in Hz. change (limit_of code_start) with 50 in Hz. lia.
Defined.

End RuntimeSample.
