(* ===== verification/AuctionSample.v ===== *)
(** * Runs of the auction

    A state with a mint, an auction and two validators.  A history of it is a
    witness for the theorem of [AuctionSafety], and three runs show where the
    code does not do what it is meant to. *)

From stdpp Require Import strings.
From S2P Require Import Prelude Bytesrepr Hashing KeyTypes TrieProps Values PublicKeys Account Contracts SystemErrors AuctionData StoredValue Transform TrackingCopy TrackingSim StateSample RuntimeContext RuntimeConfine Mint SystemCalls Auction MintLedger Claims MintCalls Solvency AuctionSteps AuctionRewards TokenSafety AuctionSafety RuntimeSample.
Local Open Scope Z_scope.

Module AuctionSample.
Import RuntimeSample.RuntimeSample.
#[local] Existing Instances wide_checksum plain_crates counting_rng sample_config sample_ratios no_wasm.

(** ** The state *)

Definition public_key (n : Z) : PublicKey :=
  match ed25519_from_bytes (le_split 32 n) with Some k => PkEd25519 k | None => PkSystem end.
Definition alice_key : PublicKey := public_key 21.
Definition validator : PublicKey := public_key 22.
Definition other_validator : PublicKey := public_key 23.

Definition purse (n : Z) : URef := MkURef (address n) READ_ADD_WRITE.
Definition account_of (key : PublicKey) (p : URef) : AccountRecord := Account_create (from_public_key key) (BTreeMap []) p.
Definition delegating_account : AccountRecord := account_of alice_key (purse 1).
Definition validating_account : AccountRecord := account_of validator (purse 4).
Definition chain_account : AccountRecord := account_of PkSystem (purse 9).

Definition stored {A} `{CLTyped A} `{ToBytes A} (a : A) : StoredValue :=
  match from_t a with Ok v => StoredCLValue v | _ => StoredCLValue (MkCLValue CLType.Unit (MkBytes [])) end.

Definition auction_hash : ContractHash := address 2000.
Definition system_registry : btree_map rstring ContractHash := BTreeMap [(AUCTION, auction_hash); (MINT, mint_hash)].
Definition auction_keys : NamedKeys := BTreeMap (collect_map [
  (ERA_ID_KEY, KeyURef (purse 61)); (ERA_END_TIMESTAMP_MILLIS_KEY, KeyURef (purse 62));
  (SEIGNIORAGE_RECIPIENTS_SNAPSHOT_KEY, KeyURef (purse 63)); (VALIDATOR_SLOTS_KEY, KeyURef (purse 64));
  (AUCTION_DELAY_KEY, KeyURef (purse 65)); (UNBONDING_DELAY_KEY, KeyURef (purse 66))]).
Definition auction_entry_points : EntryPoints :=
  EntryPoints_from [
    entry "add_bid" (arg_types (auction_args (CallAddBid PkSystem Byte.x00 (MkU512 0)))) CLType.U512;
    entry "delegate" (arg_types (auction_args (CallDelegate PkSystem PkSystem (MkU512 0)))) CLType.U512;
    entry "redelegate" (arg_types (auction_args (CallRedelegate PkSystem PkSystem (MkU512 0) PkSystem))) CLType.U512;
    entry "run_auction" (arg_types (auction_args (CallRunAuction (U64 0) []))) CLType.Unit;
    entry "slash" (arg_types (auction_args (CallSlash []))) CLType.Unit;
    entry "distribute" (arg_types (auction_args (CallDistribute (BTreeMap [])))) CLType.Unit].
Definition auction_contract : Contract := MkContract mint_package (address 0) auction_keys auction_entry_points version.

Definition full_mint_entry_points : EntryPoints :=
  EntryPoints_from [
    entry "create" (arg_types (mint_args CallCreate)) CLType.URef;
    entry "transfer" (arg_types (mint_args (CallTransfer None alice_purse bob_purse 0 None))) CLType.Any;
    entry "mint_into_existing_purse" (arg_types (mint_args (CallMintIntoExistingPurse alice_purse 0))) CLType.Any;
    entry "reduce_total_supply" (arg_types (mint_args (CallReduceTotalSupply 0))) CLType.Any;
    entry "read_base_round_reward" (arg_types (mint_args CallReadBaseRoundReward)) CLType.U512].
Definition full_mint : Contract :=
  MkContract mint_package (address 0)
    (BTreeMap (collect_map [(TOTAL_SUPPLY_KEY, KeyURef total_supply_uref); (ROUND_SEIGNIORAGE_RATE_KEY, KeyURef (purse 51))]))
    full_mint_entry_points version.

Definition bid_of (key : PublicKey) (p : URef) (stake : Z) : Bid :=
  MkBid key p (MkU512 stake) Byte.x0a None (BTreeMap []) false.
Definition value_key (n : Z) : Key := KeyURef (MkURef (address n) NONE).

(** Balances, accounts, contracts and the variables of the auction. *)
Definition state_entries : list (Key * StoredValue) :=
  [(Account (from_public_key alice_key), StoredAccount delegating_account);
   (Account (from_public_key validator), StoredAccount validating_account);
   (Account (from_public_key PkSystem), StoredAccount chain_account);
   (KeyHash mint_hash, StoredContract full_mint); (KeyHash auction_hash, StoredContract auction_contract);
   (KeyHash mint_package, StoredContractPackage package);
   (KeyTypes.SystemContractRegistry, stored system_registry);
   (value_key 50, u512_stored 1830); (value_key 51, stored (MkInt 1 : int TU512, MkInt 10 : int TU512));
   (value_key 61, stored (MkEraId 5)); (value_key 62, stored (MkInt 1000 : int TU64));
   (value_key 63, stored (BTreeMap [] : btree_map EraId (btree_map PublicKey SeigniorageRecipient)));
   (value_key 64, stored (MkInt 5 : int TU32)); (value_key 65, stored (MkInt 1 : int TU64));
   (value_key 66, stored (MkInt 0 : int TU64))].
Definition base_state : gmap Key StoredValue := list_to_map state_entries.
Definition state0 : gmap Key StoredValue :=
  <[KeyTypes.Bid (from_public_key validator) := StoredBid (bid_of validator (purse 2) 500)]>
  (<[KeyTypes.Bid (from_public_key other_validator) := StoredBid (bid_of other_validator (purse 3) 300)]>
  (<[Balance (address 1) := u512_stored 1000]> (<[Balance (address 2) := u512_stored 500]>
  (<[Balance (address 3) := u512_stored 300]> (<[Balance (address 4) := u512_stored 30]>
  (<[Balance (address 9) := u512_stored 0]> base_state)))))).

Definition session_of (who : AccountRecord) (w : World) : RuntimeState := MkRuntime w (session who 50).
Definition world0 : World := MkWorld state0 100 0.
Definition after {A} (p : res ExecError A * RuntimeState) : World := world p.2.

Definition recorded (k : PublicKey) (w : World) : option (Z * bool * list Z) :=
  match gs w !! KeyTypes.Bid (from_public_key k) with
  | Some (StoredBid b) =>
      Some (U512_val (bid_staked_amount b), bid_inactive b, (fun x => U512_val (delegator_staked_amount x.2)) <$> entries (bid_delegators b))
  | _ => None
  end.
Definition balance_at (n : Z) (w : World) : option Z := match gs w !! Balance (address n) with Some v => snd <$> int_value v | None => None end.

(** The laws of the crate hold of the sample's rational numbers. *)
Lemma gcd_pos n d : 0 < d -> 0 < Z.gcd n d.
Proof. intros Hd. pose proof (Z.gcd_nonneg n d). assert (Z.gcd n d <> 0) by (intros [_ ?]%Z.gcd_eq_0; lia). lia. Qed.

Lemma reduced_value n d : 0 < d -> 0 < denom (reduced n d) /\ numer (reduced n d) * d = n * denom (reduced n d).
Proof.
  intros Hd. pose proof (gcd_pos n d Hd) as Hg. unfold reduced. cbn [numer denom].
  destruct (Z.gcd_divide_l n d) as [x Ex], (Z.gcd_divide_r n d) as [y Ey]. revert Hg Ex Ey. generalize (Z.gcd n d).
  intros g Hg -> ->. rewrite !Z.div_mul by lia. split; nia.
Qed.

Lemma checked_ratio_value n d r : checked_ratio n d = Some r -> ratio_typed r /\ numer r * d = n * denom r.
Proof.
  unfold checked_ratio. destruct ((0 <=? n) && (n <? 2 ^ 512) && (0 <? d) && (d <? 2 ^ 512)) eqn:E; [|discriminate].
  intros [= <-]. apply andb_true_iff in E as [E _]. apply andb_true_iff in E as [E Hd%Z.ltb_lt].
  apply andb_true_iff in E as [Hn%Z.leb_le Hm%Z.ltb_lt]. destruct (reduced_value n d Hd) as [Hp Hv]. split; [|exact Hv].
  split; [|exact Hp]. pose proof (gcd_pos n d Hd) as Hg. unfold reduced. cbn [numer denom]. split.
  - apply Z.div_pos; [exact Hn|exact Hg].
  - cbn [int_bits]. eapply Z.le_lt_trans; [|exact Hm]. apply Z.div_le_upper_bound; [exact Hg|]. nia.
Qed.

#[local] Instance sample_ratio_laws : RatioLaws.
Proof.
  split.
  - intros n d _ Hd. apply reduced_value, Hd.
  - intros a b r _ _ E. destruct (checked_ratio_value _ _ _ E) as [[_ Hp] Hv]. split; [exact Hp|exact Hv].
  - intros a b r E. apply (checked_ratio_value _ _ _ E).
  - intros a b r _ _ E. apply (checked_ratio_value _ _ _ E).
Qed.

(** ** Runs *)

Definition delegate_run (w : World) : res ExecError U512 * RuntimeState :=
  call_auction auction_hash (CallDelegate alice_key validator (MkU512 40)) (session_of delegating_account w).
Definition redelegate_run (w : World) : res ExecError U512 * RuntimeState :=
  call_auction auction_hash (CallRedelegate alice_key validator (MkU512 30) other_validator) (session_of delegating_account w).
Definition era_end_run (evicted : list PublicKey) (w : World) : res ExecError unit * RuntimeState :=
  call_auction auction_hash (CallRunAuction (U64 2000) evicted) (session_of chain_account w).
Definition slash_run (w : World) : res ExecError unit * RuntimeState :=
  call_auction auction_hash (CallSlash [validator]) (session_of chain_account w).
Definition rebid_run (w : World) : res ExecError U512 * RuntimeState :=
  call_auction auction_hash (CallAddBid validator Byte.x0a (MkU512 10)) (session_of validating_account w).
Definition factors : list (PublicKey * u64) := [(validator, U64 1000000000000)].
Definition distribute_run (w : World) : res ExecError unit * RuntimeState :=
  call_auction auction_hash (CallDistribute (BTreeMap factors)) (session_of chain_account w).

Definition returned {A} (r : res ExecError A) : bool := match r with Ok _ => true | _ => false end.




(** ** The state is solvent *)

Ltac by_decision := apply (bool_decide_eq_true_1 _); vm_compute; reflexivity.

Definition ledger0 : Ledger :=
  MkLedger (<[address 1 := 1000]> (<[address 2 := 500]> (<[address 3 := 300]> (<[address 4 := 30]> (<[address 9 := 0]> ∅))))) 1830.

Lemma larger_int z : 0 <= z <= 100000 -> in_int TU512 z.
Proof. intros. assert (100000 < 2 ^ 512) by (vm_compute; reflexivity). split; cbn; lia. Qed.

Lemma base_lookup k : base_state !! k = None \/ exists v, (k, v) ∈ state_entries /\ base_state !! k = Some v.
Proof.
  destruct (base_state !! k) as [v|] eqn:E; [right|by left]. exists v. split; [|reflexivity]. by apply elem_of_list_to_map_2.
Qed.

Definition plain_entry (x : Key * StoredValue) : Prop := match x.1 with Balance _ | KeyTypes.Bid _ | Unbond _ => False | _ => True end.

Lemma base_keys : Forall plain_entry state_entries.
Proof. repeat (apply Forall_cons; split; [exact I|]). apply Forall_nil_2. Qed.

Lemma base_represents : represents (address 50) base_state (MkLedger ∅ 1830).
Proof.
  split; cbn [balances supply].
  - intros a. rewrite lookup_empty. destruct (base_lookup (Balance a)) as [->|(v & Hin & _)]; [reflexivity|].
    destruct (proj1 (Forall_forall _ _) base_keys _ Hin).
  - assert (base_state !! value_key 50 = Some (u512_stored 1830)) as E by by_decision.
    change (KeyURef (MkURef (address 50) NONE)) with (value_key 50). rewrite E. apply int_value_stored, larger_int. lia.
Qed.

Lemma bid_other ts m l a b : represents ts m l -> represents ts (<[KeyTypes.Bid a := b]> m) l.
Proof. apply represents_other; [intros ?|]; discriminate. Qed.

Lemma state_represents : represents (address 50) state0 ledger0.
Proof.
  unfold state0, ledger0. do 2 apply bid_other. do 5 (apply add_purse; [apply larger_int; lia|]). exact base_represents.
Qed.

Definition registry_cl : CLValue :=
  match from_t system_registry with Ok v => v | _ => MkCLValue CLType.Unit (MkBytes []) end.

Lemma state_installed : installed system_registry mint_hash full_mint total_supply_uref state0.
Proof.
  split.
  - exists registry_cl. split; [by_decision|vm_compute; reflexivity].
  - by_decision.
  - by_decision.
  - by_decision.
  - vm_compute. auto.
  - intros name e He%btree_get_values.
    assert (Forall (fun e => Contracts.entry_point_type e = EntryContract) (entries (entry_points_map full_mint_entry_points)).*2)
      as F by (repeat constructor).
    by apply (proj1 (Forall_forall _ _) F).
Qed.

Lemma state_auction : auction_installed system_registry mint_hash total_supply_uref auction_hash auction_contract state0.
Proof.
  split.
  - by_decision.
  - by_decision.
  - by_decision.
  - by_decision.
  - intros name e He%btree_get_values.
    assert (Forall (fun e => Contracts.entry_point_type e = EntryContract) (entries (entry_points_map auction_entry_points)).*2)
      as F by (repeat constructor).
    by apply (proj1 (Forall_forall _ _) F).
  - intros name u Hu%btree_get_values.
    assert (Forall (fun k => match k with KeyURef u => addr u <> addr total_supply_uref | _ => True end) (entries auction_keys).*2) as F.
    { repeat (apply Forall_cons; split; [by_decision|]). apply Forall_nil_2. }
    exact (proj1 (Forall_forall _ _) F _ Hu).
Qed.

Lemma sample_bid_ok key p stake : 0 <= stake <= 100000 ->
  record_ok (KeyTypes.Bid (from_public_key key)) (StoredBid (bid_of key p stake)).
Proof. intros Hs. split; [|reflexivity]. split; [by apply larger_int|apply Forall_nil_2]. Qed.

Definition records_ok (m : gmap Key StoredValue) : Prop := forall k v, m !! k = Some v -> record_ok k v.

Lemma insert_records m k v : record_ok k v -> records_ok m -> records_ok (<[k := v]> m).
Proof. intros Hk Hm k' v' [[<- <-]|[_ E]]%lookup_insert_Some; [exact Hk|by apply Hm]. Qed.
Lemma plain_records l : Forall plain_entry l -> records_ok (list_to_map l).
Proof.
  intros F k v E%elem_of_list_to_map_2. apply (proj1 (Forall_forall _ _) F) in E. by destruct k.
Qed.
Lemma plain_claims l p : Forall plain_entry l -> claims (list_to_map l) p = 0.
Proof.
  intros F. apply claims_not_bonding. intros (k & v & E%elem_of_list_to_map_2 & Hp).
  apply (proj1 (Forall_forall _ _) F) in E. destruct k; try done; by apply not_elem_of_nil in Hp.
Qed.
Lemma balance_claims m a v p : claims (<[Balance a := v]> m) p = claims m p.
Proof. apply claims_same. intros k Hk. rewrite lookup_insert_ne; [reflexivity|]. by intros <-. Qed.
Lemma bid_claims m a b p : m !! KeyTypes.Bid a = None -> claims (<[KeyTypes.Bid a := StoredBid b]> m) p = claims m p + bid_claim b p.
Proof. intros E. rewrite claims_insert by reflexivity. unfold claim_at. rewrite E. cbn [stored_claim]. lia. Qed.

Lemma state_records : records_ok state0.
Proof.
  unfold state0. do 2 (apply insert_records; [apply sample_bid_ok; lia|]). do 5 (apply insert_records; [exact I|]).
  exact (plain_records _ base_keys).
Qed.

Lemma state_claims p : claims state0 p = at_addr (address 3) 300 p + at_addr (address 2) 500 p.
Proof.
  unfold state0. rewrite bid_claims by by_decision. rewrite bid_claims by by_decision. rewrite !balance_claims.
  unfold base_state. rewrite (plain_claims _ _ base_keys). unfold bid_claim, delegators_claim.
  cbn [bid_of bid_bonding_purse bid_staked_amount bid_delegators entries foldr U512_val addr purse]. lia.
Qed.

Lemma state_backed p : claims state0 p <= balance_of ledger0 p.
Proof.
  rewrite state_claims. unfold at_addr. destruct (decide (address 3 = p)) as [<-|H3]; [vm_compute; discriminate|].
  destruct (decide (address 2 = p)) as [<-|H2]; [vm_compute; discriminate|].
  unfold balance_of, ledger0. cbn [balances]. 
  rewrite !lookup_insert. repeat destruct (decide _); cbn; try lia. rewrite lookup_empty. cbn. lia.
Qed.

Lemma state_solvent : solvent system_registry mint_hash full_mint total_supply_uref auction_hash auction_contract state0 ledger0.
Proof.
  split; [exact state_installed|exact state_auction|exact state_represents| |exact state_records|exact state_backed].
  apply larger_int. vm_compute. split; discriminate.
Qed.

(** ** A history *)

Definition bonding_purses (m : gmap Key StoredValue) : list URefAddr := map_to_list m ≫= (fun x => stored_purses x.1 x.2).

Lemma bonding_listed m p : bonding m p -> p ∈ bonding_purses m.
Proof. intros (k & v & E & Hp). apply list_elem_of_bind. exists (k, v). split; [exact Hp|]. by apply elem_of_map_to_list. Qed.

Lemma state_fresh n st l : represents (address 50) (gs (world st)) l -> NoDup (draws n (address_generator (world st))).1 ->
  Forall (fun a => gs (world st) !! Balance a = None /\ a <> address 50) (draws n (address_generator (world st))).1 ->
  fresh_next total_supply_uref n st l.
Proof.
  intros [Rb _] Hn F. split; [exact Hn|]. intros a [E Ht]%(proj1 (Forall_forall _ _) F). split; [|exact Ht].
  specialize (Rb a). rewrite E in Rb. by destruct (balances l !! a).
Qed.

Lemma state_purse m l p : represents (address 50) m l -> is_Some (m !! Balance p) -> p ∉ bonding_purses m -> pays_from p m l.
Proof.
  intros [Rb _] [v E] Hp. split; [|intros ?%bonding_listed; done]. specialize (Rb p). rewrite E in Rb. by destruct (balances l !! p).
Qed.

Abbreviation step := (chain_step system_registry full_mint total_supply_uref auction_hash).

(** A call that the sample makes. *)
Lemma call_step {R} (c : AuctionCall R) who w w' : w' = after (call_auction auction_hash c (session_of who w)) ->
  returned (call_auction auction_hash c (session_of who w)).1 = true ->
  (forall l, represents (address 50) (gs w) l -> fresh_next total_supply_uref (auction_draws c (gs w)) (session_of who w) l /\
     auction_call_ok full_mint c (addr (main_purse who)) (gs w) l) ->
  step w w'.
Proof.
  intros -> E Hc. unfold after. destruct (call_auction auction_hash c (session_of who w)) as [[r| | |] st'] eqn:Ec; try discriminate E.
  exact (step_auction system_registry full_mint total_supply_uref auction_hash R c (session_of who w) r st' Hc Ec).
Qed.

(** Alice sends 15 to the validator's account, delegates 40 and redelegates 30 of them, and the era ends. *)
Definition deploy_state : RuntimeState := session_of delegating_account world0.
Definition send_ops : list UserOp := [UserTransfer (from_public_key validator) 15 None].
Definition sent : RuntimeState := (run_user_ops send_ops deploy_state).2.
Definition world1 : World := world sent.
Definition world2 : World := after (delegate_run world1).
Definition world3 : World := after (redelegate_run world2).
Definition world4 : World := after (era_end_run [] world3).

Lemma send_runs : run_user_ops send_ops deploy_state = (Ok tt, sent).
Proof.
  assert (is_ok (run_user_ops send_ops deploy_state).1 = true) as E by (vm_compute; reflexivity).
  unfold sent. destruct (run_user_ops send_ops deploy_state) as [[[]| | |] st]; done.
Qed.

Lemma first_step : step world0 world1.
Proof.
  apply (step_deploy _ _ _ _ send_ops deploy_state sent).
  - split; [by_decision|exact I|vm_compute; reflexivity..].
  - split; vm_compute; reflexivity.
  - intros p Hp%bonding_listed.
    assert (Forall (fun p => holds_in (ctx deploy_state) p WRITE_BIT = false) (bonding_purses state0)) as F by by_decision.
    exact (proj1 (Forall_forall _ _) F p Hp).
  - intros l R. apply state_fresh; [exact R|by_decision|by_decision].
  - apply Forall_cons. split; [apply larger_int; lia|apply Forall_nil_2].
  - exact send_runs.
Qed.

Lemma second_step : step world1 world2.
Proof.
  apply (call_step (CallDelegate alice_key validator (MkU512 40)) delegating_account world1 world2 eq_refl); [vm_compute; reflexivity|].
  intros l R. split; [apply state_fresh; [exact R|by_decision|by_decision]|].
  split; [apply larger_int; vm_compute; split; discriminate|]. apply state_purse; [exact R|by_decision|by_decision].
Qed.

Lemma third_step : step world2 world3.
Proof.
  apply (call_step (CallRedelegate alice_key validator (MkU512 30) other_validator) delegating_account world2 world3 eq_refl);
    [vm_compute; reflexivity|].
  intros l R. split; [apply state_fresh; [exact R|by_decision|by_decision]|]. apply larger_int. vm_compute. split; discriminate.
Qed.

Lemma fourth_step : step world3 world4.
Proof.
  apply (call_step (CallRunAuction (U64 2000) []) chain_account world3 world4 eq_refl); [vm_compute; reflexivity|].
  intros l R. split; [apply state_fresh; [exact R|by_decision|by_decision]|exact I].
Qed.

Lemma auction_stays_solvent_witness :
  recorded other_validator world4 = Some (300, false, [30]) /\
  exists l', represents (address 50) (gs world4) l' /\ forall p, 0 <= claims (gs world4) p <= balance_of l' p.
Proof.
  split; [vm_compute; reflexivity|].
  refine (auction_stays_solvent system_registry mint_hash full_mint total_supply_uref auction_hash auction_contract
    world0 world4 ledger0 sample_gas state_solvent _).
  exact (rtc_l _ _ _ _ first_step (rtc_l _ _ _ _ second_step (rtc_l _ _ _ _ third_step (rtc_once _ _ fourth_step)))).
Defined.

(** ** A distribution *)

(** The system account in the auction, when the validator has 500 and Alice's 40. *)
Definition payday : RuntimeState :=
  MkRuntime (after (delegate_run world0))
    (new_from_self (session chain_account 50) (KeyHash auction_hash) EntryContract auction_keys
      (Contract_extract_access_rights auction_contract auction_hash)
      [CallSession (account_hash chain_account); CallStoredContract mint_package auction_hash]).
Definition paid_recipients : btree_map PublicKey SeigniorageRecipient :=
  match gs (world payday) !! KeyTypes.Bid (from_public_key validator) with
  | Some (StoredBid b) => BTreeMap [(validator, SeigniorageRecipient_from b)]
  | _ => BTreeMap []
  end.
Definition payments : list SeigniorageAllocation :=
  match (distribute_all paid_recipients 183 factors [] payday).1 with Ok allocs => allocs | _ => [] end.

Lemma distribution_exact_witness :
  (fun a => U512_val (allocation_amount a)) <$> payments = [12; 171] /\ allocated payments = 183.
Proof.
  split; [vm_compute; reflexivity|].
  assert (distribute_all paid_recipients 183 factors [] payday =
    (Ok payments, (distribute_all paid_recipients 183 factors [] payday).2)) as E.
  { assert (is_ok (distribute_all paid_recipients 183 factors [] payday).1 = true) as Eok by (vm_compute; reflexivity).
    unfold payments. destruct (distribute_all paid_recipients 183 factors [] payday) as [[]]; try discriminate Eok. reflexivity. }
  rewrite (distribution_exact paid_recipients 183 factors [] payday payments _ ltac:(by_decision) E).
  vm_compute. reflexivity.
Defined.

End AuctionSample.
