(* ===== verification/Highway.v ===== *)
(** * The protocol state of Highway

    Models node/src/components/consensus/highway_core: validators.rs, state.rs and
    its submodules, the wire data of highway/vertex.rs and evidence.rs.  Vote
    weights, sequence numbers, heights and timestamps are [u64]s; a validator's
    index is a position in the list of validators.  The source's lazy iterators over
    a swimlane or over ancestors are the lists they yield. *)

From Stdlib Require Import Sorting.Sorted.
From S2P Require Import Prelude.

Local Open Scope Z_scope.

(** ** traits.rs

    [Context]: the types the protocol is generic in.  Signatures are checked by a
    third-party scheme, of which the protocol state assumes nothing. *)
Class ConsensusContext := {
  Hash : Type;
  ConsensusValue : Type;
  Signature : Type;
  InstanceId : Type;
  ValidatorId : Type;
  Hash_eq_dec :: EqDecision Hash;
  Hash_countable :: Countable Hash;
  Hash_ord :: Ord Hash;
  Hash_ord_laws :: OrdLaws Hash;
  Value_eq_dec :: EqDecision ConsensusValue;
  Signature_eq_dec :: EqDecision Signature;
  InstanceId_eq_dec :: EqDecision InstanceId;
  ValidatorId_eq_dec :: EqDecision ValidatorId;
  ValidatorId_countable :: Countable ValidatorId;
  ValidatorId_ord :: Ord ValidatorId;
  ValidatorId_ord_laws :: OrdLaws ValidatorId;
  verify_signature : Hash -> ValidatorId -> Signature -> bool;
}.

(** The random generator of [leader_prng]: [ChaCha8Rng::seed_from_u64(seed)
    .gen_range(0..upper)], which is below [upper]. *)
Class LeaderRng := {
  gen_range : Z -> Z -> Z;
  gen_range_spec upper seed : 0 < upper -> 0 <= gen_range upper seed < upper;
}.

(** [slice::binary_search] of the standard library: on a sorted slice it returns
    some index of the element, or the place where it would have to be inserted. *)
Class BinarySearch := {
  slice_binary_search : list Z -> Z -> nat + nat;
  slice_binary_search_found l x i :
    StronglySorted Z.le l -> slice_binary_search l x = inl i -> l !! i = Some x;
  slice_binary_search_missing l x i :
    StronglySorted Z.le l -> slice_binary_search l x = inr i ->
    (i <= length l)%nat /\
    (forall j y, l !! j = Some y -> (j < i)%nat -> y < x) /\
    (forall j y, l !! j = Some y -> (i <= j)%nat -> x < y);
}.

(** ** weight.rs *)

Abbreviation Weight := Z.
Definition Weight_checked_add (a b : Weight) : option Weight := checked_add 64 a b.
Definition Weight_saturating_add (a b : Weight) : Weight := saturating_add 64 a b.
Definition Weight_is_zero (a : Weight) : bool := a =? 0.
(** [Sum] adds with the plain operator. *)
Definition Weight_sum {E} (l : list Weight) : res E Weight := fold_res u64_add 0 l.

(** ** validators.rs *)

Abbreviation ValidatorIndex := nat.

(** [ValidatorMap<T>] is a vector indexed by validators. *)
Abbreviation ValidatorMap := list.
Definition vm_index {E T} (m : ValidatorMap T) (i : ValidatorIndex) : res E T := expect (m !! i).
Definition vm_set {E T} (m : ValidatorMap T) (i : ValidatorIndex) (x : T) : res E (ValidatorMap T) :=
  if (i <? length m)%nat then Ok (<[i := x]> m) else Panic.
Definition vm_has {T} (m : ValidatorMap T) (i : ValidatorIndex) : bool := (i <? length m)%nat.
Definition enumerate {T} (m : ValidatorMap T) : list (ValidatorIndex * T) :=
  zip (seq 0 (length m)) m.
Definition iter_some {T} (m : ValidatorMap (option T)) : list (ValidatorIndex * T) :=
  omap (fun p => match p.2 with Some x => Some (p.1, x) | None => None end) (enumerate m).
Definition keys_some {T} (m : ValidatorMap (option T)) : list ValidatorIndex := (iter_some m).*1.

(** [(0..i).rev().take_while(|j| self.0[*j] == x).last()] *)
Fixpoint first_equal_below (m : list Z) (x : Z) (i : nat) : option nat :=
  match i with
  | O => None
  | S j =>
      match m !! j with
      | Some y => if y =? x then Some (default j (first_equal_below m x j)) else None
      | None => None
      end
  end.

Definition vm_binary_search `{BinarySearch} (m : ValidatorMap Z) (x : Z) : option ValidatorIndex :=
  match slice_binary_search m x with
  | inl i => Some (default i (first_equal_below m x i))
  | inr i => if (i <? length m)%nat then Some i else None
  end.

(** ** Time *)

(** [1 << round_exp], or the longest time when that does not fit. *)
Definition round_len (round_exp : Z) : Z := if round_exp <? 64 then 2 ^ round_exp else uint_max 64.
Definition round_id {E} (timestamp round_exp : Z) : res E Z :=
  t ← u64_shr timestamp round_exp; u64_shl t round_exp.

Definition log2 (x : Z) : Z :=
  saturating_sub
    (trailing_zeros (default 0 (checked_next_power_of_two (saturating_add 64 x 1)))) 1.

(** ** params.rs *)

Record Params := {
  seed : Z;
  block_reward : Z;
  reduced_block_reward : Z;
  min_round_exp : Z;
  max_round_exp : Z;
  init_round_exp : Z;
  end_height : Z;
  start_timestamp : Z;
  end_timestamp : Z;
  endorsement_evidence_limit : Z;
}.

Definition Params_new {E} (seed block_reward reduced_block_reward min_round_exp max_round_exp
    init_round_exp end_height start_timestamp end_timestamp endorsement_evidence_limit : Z)
    : res E Params :=
  _ ← rassert (reduced_block_reward <=? block_reward);
  mret {| seed := seed; block_reward := block_reward; reduced_block_reward := reduced_block_reward;
    min_round_exp := min_round_exp; max_round_exp := max_round_exp; init_round_exp := init_round_exp;
    end_height := end_height; start_timestamp := start_timestamp; end_timestamp := end_timestamp;
    endorsement_evidence_limit := endorsement_evidence_limit |}.
Definition min_round_length (p : Params) : Z := round_len (min_round_exp p).
Definition max_round_length (p : Params) : Z := round_len (max_round_exp p).

Definition ENABLE_ENDORSEMENTS : bool := false.
Definition TODO_ENDORSEMENT_EVIDENCE_DISABLED : bool := true.
Definition PING_TIMEOUT : Z := 3.

Section Highway.
Context {C : ConsensusContext}.

(** ** panorama.rs: observations *)

Inductive Observation :=
| ObsNone
| ObsCorrect (h : Hash)
| ObsFaulty.

#[export] Instance Observation_eq_dec : EqDecision Observation.
Proof. solve_decision. Defined.

Abbreviation Panorama := (ValidatorMap Observation).

Definition obs_correct (o : Observation) : option Hash :=
  match o with ObsCorrect h => Some h | _ => None end.
Definition obs_is_correct (o : Observation) : bool :=
  match o with ObsCorrect _ => true | _ => false end.
Definition obs_is_faulty (o : Observation) : bool :=
  match o with ObsFaulty => true | _ => false end.
Definition obs_is_none (o : Observation) : bool :=
  match o with ObsNone => true | _ => false end.

Definition Panorama_new (num_validators : nat) : Panorama := replicate num_validators ObsNone.
Definition has_correct (p : Panorama) : bool := existsb obs_is_correct p.
Definition iter_correct_hashes (p : Panorama) : list Hash := omap obs_correct p.
Definition iter_faulty (p : Panorama) : list ValidatorIndex :=
  (List.filter (fun e => obs_is_faulty e.2) (enumerate p)).*1.
Definition iter_none (p : Panorama) : list ValidatorIndex :=
  (List.filter (fun e => obs_is_none e.2) (enumerate p)).*1.

(** ** vertex.rs *)

Record WireUnit := {
  w_panorama : Panorama;
  w_creator : ValidatorIndex;
  w_instance_id : InstanceId;
  w_value : option ConsensusValue;
  w_seq_number : Z;
  w_timestamp : Z;
  w_round_exp : Z;
  w_endorsed : gset Hash;
}.

Record HashedWireUnit := { hw_hash : Hash; hw_wire_unit : WireUnit }.
Record SignedWireUnit := { hashed_wire_unit : HashedWireUnit; signature : Signature }.
Definition wire_unit_of (u : SignedWireUnit) : WireUnit := hw_wire_unit (hashed_wire_unit u).
Definition hash_of (u : SignedWireUnit) : Hash := hw_hash (hashed_wire_unit u).

Definition WireUnit_previous {E} (w : WireUnit) : res E (option Hash) :=
  obs_correct <$> vm_index (w_panorama w) (w_creator w).

Record Endorsements := {
  e_unit : Hash;
  endorsers : list (ValidatorIndex * Signature);
}.

Inductive Dependency :=
| DepUnit (h : Hash)
| DepEvidence (v : ValidatorIndex)
| DepEndorsement (h : Hash)
| DepPing (v : ValidatorIndex) (timestamp : Z).

(** ** evidence.rs, endorsement.rs *)

Record SignedEndorsement := {
  se_unit : Hash;
  se_creator : ValidatorIndex;
  se_signature : Signature;
}.

Inductive Evidence :=
| Equivocation (unit1 unit2 : SignedWireUnit)
| ConflictingEndorsements (endorsement1 : SignedEndorsement) (unit1 : SignedWireUnit)
    (endorsement2 : SignedEndorsement) (unit2 : SignedWireUnit) (swimlane2 : list SignedWireUnit).

Definition perpetrator (ev : Evidence) : ValidatorIndex :=
  match ev with
  | Equivocation unit1 _ => w_creator (wire_unit_of unit1)
  | ConflictingEndorsements endorsement1 _ _ _ _ => se_creator endorsement1
  end.

(** ** unit.rs, block.rs *)

Record Unit := {
  u_panorama : Panorama;
  seq_number : Z;
  creator : ValidatorIndex;
  u_block : Hash;
  u_skip_idx : list Hash;
  timestamp : Z;
  u_signature : Signature;
  round_exp : Z;
  endorsed : gset Hash;
}.

Record Block := {
  height : Z;
  value : ConsensusValue;
  skip_idx : list Hash;
}.

Definition Unit_previous (u : Unit) : option Hash := head (u_skip_idx u).
Definition Unit_round_id {E} (u : Unit) : res E Z := round_id (timestamp u) (round_exp u).
Definition Unit_round_len (u : Unit) : Z := round_len (round_exp u).
Definition Block_parent (b : Block) : option Hash := head (skip_idx b).
Definition Block_initial (value : ConsensusValue) : Block :=
  {| height := 0; value := value; skip_idx := [] |}.

(** ** state.rs *)

Inductive UnitError :=
| MissingBlock
| PanoramaLength (n : nat)
| FaultyCreator
| PanoramaIndex (found slot : ValidatorIndex)
| InconsistentPanorama (v : ValidatorIndex)
| SequenceNumber
| Timestamps
| Creator
| WrongInstanceId
| WrongSignature
| RoundLengthExpChangedWithinRound
| RoundLengthExpLessThanMinimum
| RoundLengthExpGreaterThanMaximum
| ThreeUnitsInRound
| NonLeaderBlock (leader : ValidatorIndex)
| ValueAfterTerminalBlock
| UnitBanned
| EndorsementsNotMonotonic
| LncNaiveCitation (v : ValidatorIndex)
| EndorsedButUnseen (h : Hash).

Inductive Fault :=
| Banned
| Direct (ev : Evidence)
| Indirect.

Definition fault_evidence (f : Fault) : option Evidence :=
  match f with Direct ev => Some ev | Banned | Indirect => None end.

(** The clock that times the fork choice is left out. *)
Record State := {
  params : Params;
  weights : ValidatorMap Weight;
  cumulative_w : ValidatorMap Weight;
  cumulative_w_leaders : ValidatorMap Weight;
  units : gmap Hash Unit;
  blocks : gmap Hash Block;
  faults : gmap ValidatorIndex Fault;
  can_propose : ValidatorMap bool;
  panorama : Panorama;
  endorsements : gmap Hash (ValidatorMap (option Signature));
  incomplete_endorsements : gmap Hash (gmap ValidatorIndex Signature);
  pings : ValidatorMap Z;
}.

(** Assignments to the fields of a state. *)
Definition set_units (s : State) units : State :=
  {| params := params s; weights := weights s; cumulative_w := cumulative_w s;
     cumulative_w_leaders := cumulative_w_leaders s; units := units; blocks := blocks s;
     faults := faults s; can_propose := can_propose s; panorama := panorama s;
     endorsements := endorsements s; incomplete_endorsements := incomplete_endorsements s;
     pings := pings s |}.
Definition set_blocks (s : State) blocks : State :=
  {| params := params s; weights := weights s; cumulative_w := cumulative_w s;
     cumulative_w_leaders := cumulative_w_leaders s; units := units s; blocks := blocks;
     faults := faults s; can_propose := can_propose s; panorama := panorama s;
     endorsements := endorsements s; incomplete_endorsements := incomplete_endorsements s;
     pings := pings s |}.
Definition set_faults (s : State) faults panorama : State :=
  {| params := params s; weights := weights s; cumulative_w := cumulative_w s;
     cumulative_w_leaders := cumulative_w_leaders s; units := units s; blocks := blocks s;
     faults := faults; can_propose := can_propose s; panorama := panorama;
     endorsements := endorsements s; incomplete_endorsements := incomplete_endorsements s;
     pings := pings s |}.
Definition set_endorsements (s : State) endorsements incomplete_endorsements : State :=
  {| params := params s; weights := weights s; cumulative_w := cumulative_w s;
     cumulative_w_leaders := cumulative_w_leaders s; units := units s; blocks := blocks s;
     faults := faults s; can_propose := can_propose s; panorama := panorama s;
     endorsements := endorsements; incomplete_endorsements := incomplete_endorsements;
     pings := pings s |}.
Definition set_pings (s : State) pings : State :=
  {| params := params s; weights := weights s; cumulative_w := cumulative_w s;
     cumulative_w_leaders := cumulative_w_leaders s; units := units s; blocks := blocks s;
     faults := faults s; can_propose := can_propose s; panorama := panorama s;
     endorsements := endorsements s; incomplete_endorsements := incomplete_endorsements s;
     pings := pings |}.

(** *** Creation *)

(** The closure [sums]: appends the next cumulative weight. *)
Definition sums {E} (acc : list Weight) (w : Weight) : res E (list Weight) :=
  sum ← expect (Weight_checked_add (default 0 (last acc)) w);
  mret (acc ++ [sum]).

Definition State_new {E} (weights : list Weight) (params : Params)
    (banned cannot_propose : list ValidatorIndex) : res E State :=
  _ ← rassert (0 <? length weights)%nat;
  cumulative_w ← fold_res sums [] weights;
  total ← expect (last cumulative_w);
  _ ← rassert (0 <? total);
  can_propose ← fold_res (fun cp idx => _ ← rassert (idx <? length weights)%nat; vm_set cp idx false)
    ((fun _ => true) <$> weights) cannot_propose;
  let faults : gmap ValidatorIndex Fault := list_to_map ((fun idx => (idx, Banned)) <$> banned) in
  panorama ← fold_res (fun pan idx => _ ← rassert (idx <? length weights)%nat; vm_set pan idx ObsFaulty)
    (Panorama_new (length weights)) (map_to_list faults).*1;
  leader_weights ← map_res (fun e => b ← vm_index can_propose e.1; mret (if b : bool then e.2 else 0))
    (enumerate weights);
  cumulative_w_leaders ← fold_res sums [] leader_weights;
  mret {| params := params; weights := weights; cumulative_w := cumulative_w;
    cumulative_w_leaders := cumulative_w_leaders; units := ∅; blocks := ∅; faults := faults;
    can_propose := can_propose; panorama := panorama; endorsements := ∅;
    incomplete_endorsements := ∅; pings := replicate (length weights) (start_timestamp params) |}.

(** *** Accessors *)

Definition validator_count (s : State) : nat := length (weights s).
Definition weight {E} (s : State) (idx : ValidatorIndex) : res E Weight := vm_index (weights s) idx.
Definition faulty_weight_in {E} (s : State) (pan : Panorama) : res E Weight :=
  Weight_sum (List.filter (fun e => bool_decide (e.1 = ObsFaulty)) (zip pan (weights s))).*2.
Definition faulty_weight {E} (s : State) : res E Weight := faulty_weight_in s (panorama s).
Definition total_weight {E} (s : State) : res E Weight := expect (last (cumulative_w s)).
Definition maybe_fault (s : State) (idx : ValidatorIndex) : option Fault := faults s !! idx.
Definition maybe_evidence (s : State) (idx : ValidatorIndex) : option Evidence :=
  maybe_fault s idx ≫= fault_evidence.
Definition has_evidence (s : State) (idx : ValidatorIndex) : bool :=
  bool_decide (is_Some (maybe_evidence s idx)).
Definition is_faulty (s : State) (idx : ValidatorIndex) : bool :=
  bool_decide (is_Some (faults s !! idx)).
Definition faulty_validators (s : State) : list ValidatorIndex := (map_to_list (faults s)).*1.
Definition maybe_endorsements (s : State) (h : Hash) : option Endorsements :=
  (fun signatures => {| e_unit := h; endorsers := iter_some signatures |}) <$> endorsements s !! h.
Definition has_all_endorsements (s : State) (h : Hash) (v_ids : list ValidatorIndex) : bool :=
  match endorsements s !! h with
  | Some _ => true
  | None =>
      match incomplete_endorsements s !! h with
      | Some sigs => forallb (fun v => bool_decide (is_Some (sigs !! v))) v_ids
      | None => match v_ids with [] => true | _ :: _ => false end
      end
  end.
Definition is_endorsed (s : State) (h : Hash) : bool := bool_decide (is_Some (endorsements s !! h)).
Definition needs_endorsements (s : State) (u : SignedWireUnit) : option Hash :=
  find (fun h => negb (is_endorsed s h)) (elements (w_endorsed (wire_unit_of u))).
Definition last_seen {E} (s : State) (idx : ValidatorIndex) : res E Z := vm_index (pings s) idx.

Definition maybe_unit (s : State) (h : Hash) : option Unit := units s !! h.
Definition has_unit (s : State) (h : Hash) : bool := bool_decide (is_Some (units s !! h)).
(** [State::unit] and [State::block]. *)
Definition st_unit {E} (s : State) (h : Hash) : res E Unit := expect (maybe_unit s h).
Definition maybe_block (s : State) (h : Hash) : option Block := blocks s !! h.
Definition st_block {E} (s : State) (h : Hash) : res E Block := expect (maybe_block s h).

Definition mark_faulty {E} (s : State) (idx : ValidatorIndex) : res E State :=
  pan ← vm_set (panorama s) idx ObsFaulty;
  let faults := match faults s !! idx with
    | Some _ => faults s
    | None => <[idx := Indirect]> (faults s)
    end in
  mret (set_faults s faults pan).

(** *** The leader of a round *)

Definition leader_prng {E} `{LeaderRng} (upper seed : Z) : res E Z :=
  _ ← rassert (0 <? upper);
  mret (saturating_add 64 (gen_range upper seed) 1).

Definition leader {E} `{LeaderRng} `{BinarySearch} (s : State) (timestamp : Z) : res E ValidatorIndex :=
  let seed := wrapping_add 64 (seed (params s)) timestamp in
  total ← total_weight s;
  r ← leader_prng total seed;
  let leader_index := default 0%nat (vm_binary_search (cumulative_w s) r) in
  ok ← vm_index (can_propose s) leader_index;
  if ok : bool then Ok leader_index else
    total_w_leaders ← expect (last (cumulative_w_leaders s));
    r ← leader_prng total_w_leaders (wrapping_add 64 seed 1);
    mret (default 0%nat (vm_binary_search (cumulative_w_leaders s) r)).

(** *** Walks along the skip lists *)

Fixpoint swimlane_search {E} (fuel : nat) (s : State) (h : Hash) (seq : Z) : res E (option Hash) :=
  match fuel with
  | O => OutOfFuel
  | S fuel =>
      u ← st_unit s h;
      match checked_sub (seq_number u) seq with
      | None => Ok None
      | Some diff =>
          if diff =? 0 then Ok (Some h) else
          let max_i := Z.to_nat (log2 diff) in
          len1 ← plain_sub (Z.of_nat (length (u_skip_idx u))) 1;
          let i := Nat.min max_i (Z.to_nat len1) in
          next ← expect (u_skip_idx u !! i);
          swimlane_search fuel s next seq
      end
  end.
Definition find_in_swimlane {E} (s : State) (h : Hash) (seq : Z) : res E (option Hash) :=
  swimlane_search (S (size (units s))) s h seq.

Fixpoint ancestor_search {E} (fuel : nat) (s : State) (h : Hash) (target : Z) : res E (option Hash) :=
  match fuel with
  | O => OutOfFuel
  | S fuel =>
      b ← st_block s h;
      if height b <? target then Ok None
      else if height b =? target then Ok (Some h)
      else
        diff ← u64_sub (height b) target;
        let max_i := Z.to_nat (log2 diff) in
        len1 ← plain_sub (Z.of_nat (length (skip_idx b))) 1;
        let i := Nat.min max_i (Z.to_nat len1) in
        next ← expect (skip_idx b !! i);
        ancestor_search fuel s next target
  end.
Definition find_ancestor_proposal {E} (s : State) (h : Hash) (target : Z) : res E (option Hash) :=
  ancestor_search (S (size (blocks s))) s h target.

(** [State::swimlane] and [State::ancestor_hashes]: everything their iterators yield. *)
Fixpoint swimlane_from {E} (fuel : nat) (s : State) (next : option Hash) : res E (list (Hash * Unit)) :=
  match fuel, next with
  | _, None => Ok []
  | O, Some _ => OutOfFuel
  | S fuel, Some current =>
      u ← st_unit s current;
      rest ← swimlane_from fuel s (Unit_previous u);
      mret ((current, u) :: rest)
  end.
Definition swimlane {E} (s : State) (h : Hash) : res E (list (Hash * Unit)) :=
  swimlane_from (S (size (units s))) s (Some h).

Fixpoint ancestors_from {E} (fuel : nat) (s : State) (next : option Hash) : res E (list Hash) :=
  match fuel, next with
  | _, None => Ok []
  | O, Some _ => OutOfFuel
  | S fuel, Some current =>
      b ← st_block s current;
      rest ← ancestors_from fuel s (Block_parent b);
      mret (current :: rest)
  end.
Definition ancestor_hashes {E} (s : State) (bhash : Hash) : res E (list Hash) :=
  b ← st_block s bhash;
  ancestors_from (S (size (blocks s))) s (Block_parent b).

(** ** panorama.rs: what a panorama sees *)

Definition iter_correct {E} (s : State) (p : Panorama) : res E (list Unit) :=
  map_res (st_unit s) (iter_correct_hashes p).

Definition next_seq_num {E} (s : State) (p : Panorama) (vidx : ValidatorIndex) : res E Z :=
  o ← vm_index p vidx;
  match obs_correct o with
  | None => Ok 0
  | Some vh => u ← st_unit s vh; u64_add (seq_number u) 1
  end.

(** [Panorama::sees_correct]. *)
Definition pan_sees_correct {E} (s : State) (p : Panorama) (h : Hash) : res E bool :=
  u ← st_unit s h;
  match p !! creator u ≫= obs_correct with
  | None => Ok false
  | Some latest_hash =>
      found ← find_in_swimlane s latest_hash (seq_number u);
      mret (bool_decide (found = Some h))
  end.

(** [Panorama::sees]: a depth-first search; the head of [to_visit] is the top of
    the stack. *)
Fixpoint sees_loop {E} (fuel : nat) (s : State) (target : Hash) (target_creator : ValidatorIndex)
    (visited : gset Hash) (to_visit : list Hash) : res E bool :=
  match fuel, to_visit with
  | _, [] => Ok false
  | O, _ :: _ => OutOfFuel
  | S fuel, h :: to_visit =>
      if bool_decide (h ∈ visited) then sees_loop fuel s target target_creator visited to_visit
      else if bool_decide (h = target) then Ok true
      else
        u ← st_unit s h;
        o ← vm_index (u_panorama u) target_creator;
        let to_visit :=
          match o with
          | ObsFaulty => rev (iter_correct_hashes (u_panorama u)) ++ to_visit
          | ObsCorrect prev_hash => prev_hash :: to_visit
          | ObsNone => to_visit
          end in
        sees_loop fuel s target target_creator ({[h]} ∪ visited) to_visit
  end.
Definition pan_sees {E} (s : State) (p : Panorama) (h : Hash) : res E bool :=
  u ← st_unit s h;
  let stack := rev (iter_correct_hashes p) in
  sees_loop (S (length stack + size (units s) * S (validator_count s))) s h (creator u) ∅ stack.

(** [Observation::geq] and [Panorama::geq]. *)
Definition obs_geq {E} (s : State) (o1 o2 : Observation) : res E bool :=
  match o1, o2 with
  | ObsFaulty, _ | _, ObsNone => Ok true
  | ObsCorrect hash0, ObsCorrect hash1 =>
      if bool_decide (hash0 = hash1) then Ok true
      else u ← st_unit s hash0; pan_sees_correct s (u_panorama u) hash1
  | _, _ => Ok false
  end.
Definition pan_geq {E} (s : State) (p q : Panorama) : res E bool :=
  all_res (fun e => obs_geq s e.1 e.2) (zip p q).

Definition merge_obs {E} (s : State) (p q : Panorama) (e : Observation * Observation)
    : res E Observation :=
  match e with
  | (ObsFaulty, _) | (_, ObsFaulty) => Ok ObsFaulty
  | (ObsNone, o) | (o, ObsNone) => Ok o
  | (ObsCorrect vh0, ObsCorrect vh1) =>
      b ← pan_sees_correct s p vh1;
      if b : bool then Ok (ObsCorrect vh0) else
      b ← pan_sees_correct s q vh0;
      if b : bool then Ok (ObsCorrect vh1) else Ok ObsFaulty
  end.
(** [Panorama::merge]. *)
Definition merge {E} (s : State) (p q : Panorama) : res E Panorama :=
  map_res (merge_obs s p q) (zip p q).

Definition obs_cutoff {E} (s : State) (timestamp0 : Z) (o : Observation) : res E Observation :=
  match o with
  | ObsCorrect vhash =>
      lane ← swimlane s vhash;
      mret (match find (fun e => timestamp e.2 <=? timestamp0) lane with
            | Some (vh, _) => ObsCorrect vh
            | None => ObsNone
            end)
  | ObsNone | ObsFaulty => Ok o
  end.
(** [Panorama::cutoff]. *)
Definition cutoff {E} (s : State) (p : Panorama) (timestamp0 : Z) : res E Panorama :=
  map_res (obs_cutoff s timestamp0) p.

Definition obs_missing_dep (s : State) (idx : ValidatorIndex) (o : Observation) : option Dependency :=
  match o with
  | ObsFaulty => if negb (is_faulty s idx) then Some (DepEvidence idx) else None
  | ObsCorrect h => if negb (has_unit s h) then Some (DepUnit h) else None
  | ObsNone => None
  end.
(** [Panorama::missing_dependency]. *)
Definition pan_missing_dependency (s : State) (p : Panorama) : option Dependency :=
  head (omap (fun e => obs_missing_dep s e.1 e.2) (enumerate p)).

(** [Panorama::validate]. *)
Fixpoint pan_validate_entries (s : State) (p : Panorama) (entries : list (ValidatorIndex * Observation))
    : res UnitError unit :=
  match entries with
  | [] => Ok tt
  | (idx, o) :: entries =>
      _ ← match obs_correct o with
        | None => Ok tt
        | Some h =>
            u ← st_unit s h;
            _ ← fail_if (negb (creator u =? idx)%nat) (PanoramaIndex (creator u) idx);
            ok ← pan_geq s p (u_panorama u);
            fail_if (negb ok) (InconsistentPanorama idx)
        end;
      pan_validate_entries s p entries
  end.
Definition pan_validate (s : State) (p : Panorama) : res UnitError unit :=
  pan_validate_entries s p (enumerate p).

(** [State::sees_correct], [State::sees], [State::is_compatible]. *)
Definition sees_correct {E} (s : State) (hash0 hash1 : Hash) : res E bool :=
  if bool_decide (hash0 = hash1) then Ok true
  else u ← st_unit s hash0; pan_sees_correct s (u_panorama u) hash1.
Definition sees {E} (s : State) (hash0 hash1 : Hash) : res E bool :=
  if bool_decide (hash0 = hash1) then Ok true
  else u ← st_unit s hash0; pan_sees s (u_panorama u) hash1.
Definition is_compatible {E} (s : State) (hash0 hash1 : Hash) : res E bool :=
  if bool_decide (hash0 = hash1) then Ok true else
    u0 ← st_unit s hash0;
    b ← pan_sees s (u_panorama u0) hash1;
    if b : bool then Ok true
    else u1 ← st_unit s hash1; pan_sees s (u_panorama u1) hash0.

(** ** index_panorama.rs *)

Inductive IndexObservation :=
| IndexFaulty
| NextSeq (n : Z).

Definition index_obs (s : State) (o : Observation) : IndexObservation :=
  match o with
  | ObsNone => NextSeq 0
  | ObsCorrect h =>
      NextSeq (match maybe_unit s h with
               | Some u => saturating_add 64 (seq_number u) 1
               | None => 0
               end)
  | ObsFaulty => IndexFaulty
  end.
Definition from_panorama (s : State) (p : Panorama) : ValidatorMap IndexObservation := index_obs s <$> p.

(** ** tallies.rs *)

Record Tally := { tally_max : Weight * Hash; votes : list (Hash * Weight) }.

(** The greater of two (weight, hash) pairs, in their lexicographic order. *)
Definition pair_max (a b : Weight * Hash) : Weight * Hash :=
  match Z.compare a.1 b.1 with
  | Lt => b
  | Gt => a
  | Eq => match ord_cmp a.2 b.2 with Gt => a | _ => b end
  end.

Definition Tally_new (bhash : Hash) (w : Weight) : Tally :=
  {| tally_max := (w, bhash); votes := [(bhash, w)] |}.
Definition Tally_add {E} (t : Tally) (bhash : Hash) (weight : Weight) : res E Tally :=
  w ← u64_add (default 0 (btree_get bhash (votes t))) weight;
  mret {| tally_max := pair_max (w, bhash) (tally_max t); votes := btree_insert bhash w (votes t) |}.
Definition Tally_extend {E} (t : Tally) (l : list (Hash * Weight)) : res E Tally :=
  fold_res (fun t e => Tally_add t e.1 e.2) t l.
Definition Tally_try_from_iter {E} (l : list (Hash * Weight)) : res E (option Tally) :=
  match l with
  | [] => Ok None
  | (bhash, w) :: l => Some <$> Tally_extend (Tally_new bhash w) l
  end.
Definition Tally_parents {E} (s : State) (t : Tally) : res E Tally :=
  l ← map_res (fun e => b ← st_block s e.1; p ← expect (Block_parent b); mret (p, e.2)) (votes t);
  t ← Tally_try_from_iter l;
  expect t.
Definition Tally_weight {E} (t : Tally) : res E Weight := Weight_sum (votes t).*2.
Definition max_w (t : Tally) : Weight := (tally_max t).1.
Definition max_bhash (t : Tally) : Hash := (tally_max t).2.
Definition Tally_filter_descendants {E} (s : State) (t : Tally) (height : Z) (bhash : Hash)
    : res E (option Tally) :=
  l ← filter_res (fun e => a ← find_ancestor_proposal s e.1 height; mret (bool_decide (a = Some bhash)))
    (votes t);
  Tally_try_from_iter l.

(** [BTreeMap<u64, Tally>]. *)
Abbreviation Tallies := (list (Z * Tally)).

Definition Tallies_add {E} (ts : Tallies) (height : Z) (bhash : Hash) (weight : Weight) : res E Tallies :=
  match btree_get height ts with
  | Some t => t ← Tally_add t bhash weight; mret (btree_insert height t ts)
  | None => mret (btree_insert height (Tally_new bhash weight) ts)
  end.
Definition Tallies_from_iter {E} (l : list (Z * Hash * Weight)) : res E Tallies :=
  fold_res (fun ts e => Tallies_add ts e.1.1 e.1.2 e.2) [] l.

(** The loop of [find_decided] over the heights below [n]. *)
Fixpoint decide_loop {E} (s : State) (ts : Tallies) (total_weight : Weight) (n : nat) (prev_tally : Tally)
    : res E (Z * Hash) :=
  match n with
  | O => Ok (0, max_bhash prev_tally)
  | S n =>
      let height := Z.of_nat n in
      h_tally ← Tally_parents s prev_tally;
      h_tally ← match btree_get height ts with
        | Some tally => Tally_extend h_tally (votes tally)
        | None => Ok h_tally
        end;
      if total_weight / 2 <? max_w h_tally then
        filtered ← Tally_filter_descendants s prev_tally height (max_bhash h_tally);
        match filtered with
        | Some filtered => height1 ← u64_add height 1; mret (height1, max_bhash filtered)
        | None => Ok (height, max_bhash h_tally)
        end
      else decide_loop s ts total_weight n h_tally
  end.
Definition find_decided {E} (s : State) (ts : Tallies) : res E (option (Z * Hash)) :=
  match last ts with
  | None => Ok None
  | Some (max_height, _) =>
      weights ← map_res (fun e => Tally_weight e.2) ts;
      total_weight ← Weight_sum weights;
      prev_tally ← expect (btree_get max_height ts);
      Some <$> decide_loop s ts total_weight (Z.to_nat max_height) prev_tally
  end.

(** [Tallies::filter_descendants]; the entries above [height] of a sorted map. *)
Definition Tallies_filter_descendants {E} (s : State) (ts : Tallies) (height : Z) (bhash : Hash)
    : res E Tallies :=
  omap_res (fun e => t ← Tally_filter_descendants s e.2 height bhash; Ok (option_map (pair e.1) t))
    (List.filter (fun e => height <? e.1) ts).

(** *** The fork choice *)

Definition to_entry {E} (s : State) (e : Observation * Weight) : res E (option (Z * Hash * Weight)) :=
  match obs_correct e.1 with
  | None => Ok None
  | Some h =>
      u ← st_unit s h;
      b ← st_block s (u_block u);
      mret (Some (height b, u_block u, e.2))
  end.

Fixpoint fork_choice_loop {E} (fuel : nat) (s : State) (ts : Tallies) : res E (option Hash) :=
  match fuel with
  | O => OutOfFuel
  | S fuel =>
      decided ← find_decided s ts;
      match decided with
      | None => Ok None
      | Some (height, bhash) =>
          ts ← Tallies_filter_descendants s ts height bhash;
          match ts with
          | [] => Ok (Some bhash)
          | _ :: _ => fork_choice_loop fuel s ts
          end
      end
  end.
Definition fork_choice {E} (s : State) (pan : Panorama) : res E (option Hash) :=
  entries ← omap_res (to_entry s) (zip pan (weights s));
  ts ← Tallies_from_iter entries;
  fork_choice_loop (S (size (blocks s))) s ts.

(** *** Adding units *)

(** [for i in i..i + n { skip_idx.push(get(&skip_idx[i]).skip_idx[i]) }] *)
Fixpoint skip_loop {E} (get : Hash -> res E (list Hash)) (n i : nat) (skip : list Hash)
    : res E (list Hash) :=
  match n with
  | O => Ok skip
  | S n =>
      h ← expect (skip !! i);
      older ← get h;
      x ← expect (older !! i);
      skip_loop get n (S i) (skip ++ [x])
  end.

Definition Unit_new {E} (s : State) (swunit : SignedWireUnit) (fork_choice : option Hash)
    : res E (Unit * option ConsensusValue) :=
  let wunit := wire_unit_of swunit in
  block ← match w_value wunit with
    | Some _ => Ok (hash_of swunit)
    | None => expect fork_choice
    end;
  o ← vm_index (w_panorama wunit) (w_creator wunit);
  skip ← match obs_correct o with
    | Some h =>
        skip_loop (fun h => u_skip_idx <$> st_unit s h)
          (Z.to_nat (trailing_zeros (w_seq_number wunit))) 0 [h]
    | None => Ok []
    end;
  mret ({| u_panorama := w_panorama wunit; seq_number := w_seq_number wunit; creator := w_creator wunit;
           u_block := block; u_skip_idx := skip; timestamp := w_timestamp wunit;
           u_signature := signature swunit; round_exp := w_round_exp wunit;
           endorsed := w_endorsed wunit |}, w_value wunit).

Definition Block_new {E} (s : State) (parent_hash : option Hash) (value : ConsensusValue) : res E Block :=
  match parent_hash with
  | None => Ok (Block_initial value)
  | Some hash =>
      parent ← st_block s hash;
      height ← u64_add (height parent) 1;
      skip ← skip_loop (fun h => skip_idx <$> st_block s h)
        (Z.to_nat (trailing_zeros height)) 0 [hash];
      mret {| height := height; value := value; skip_idx := skip |}
  end.

Definition wire_unit (s : State) (h : Hash) (instance_id : InstanceId) : option SignedWireUnit :=
  u ← maybe_unit s h;
  Some {| hashed_wire_unit :=
            {| hw_hash := h;
               hw_wire_unit :=
                 {| w_panorama := u_panorama u; w_creator := creator u; w_instance_id := instance_id;
                    w_value := value <$> maybe_block s h; w_seq_number := seq_number u;
                    w_timestamp := timestamp u; w_round_exp := round_exp u;
                    w_endorsed := endorsed u |} |};
          signature := u_signature u |}.

(** The boolean tells whether the evidence was added. *)
Definition add_evidence {E} (s : State) (evidence : Evidence) : res E (State * bool) :=
  if TODO_ENDORSEMENT_EVIDENCE_DISABLED &&
     match evidence with ConflictingEndorsements _ _ _ _ _ => true | _ => false end
  then Ok (s, false) else
  let idx := perpetrator evidence in
  match faults s !! idx with
  | Some Banned | Some (Direct _) => Ok (s, false)
  | None | Some Indirect =>
      pan ← vm_set (panorama s) idx ObsFaulty;
      mret (set_faults s (<[idx := Direct evidence]> (faults s)) pan, true)
  end.

Definition add_ping {E} (s : State) (creator : ValidatorIndex) (timestamp : Z) : res E State :=
  t ← vm_index (pings s) creator;
  pings ← vm_set (pings s) creator (Z.max t timestamp);
  mret (set_pings s pings).

Definition set_observation {E} (s : State) (idx : ValidatorIndex) (o : Observation) : res E State :=
  pan ← vm_set (panorama s) idx o;
  mret (set_faults s (faults s) pan).

(** The last part of [add_valid_unit]: the new observation of the creator. *)
Definition update_panorama {E} (s : State) (h : Hash) (instance_id : InstanceId) : res E State :=
  u ← st_unit s h;
  obs0 ← vm_index (panorama s) (creator u);
  obs1 ← vm_index (u_panorama u) (creator u);
  '(s, new_obs) ←
    if bool_decide (obs0 = ObsFaulty) then Ok (s, ObsFaulty)
    else if bool_decide (obs0 = obs1) then Ok (s, ObsCorrect h)
    else match obs0 with
      | ObsCorrect hash0 =>
          found ← find_in_swimlane s hash0 (seq_number u);
          prev0 ← expect found;
          wunit0 ← expect (wire_unit s prev0 instance_id);
          wunit1 ← expect (wire_unit s h instance_id);
          '(s, _) ← add_evidence s (Equivocation wunit0 wunit1);
          mret (s, ObsFaulty)
      | ObsNone | ObsFaulty => Panic
      end;
  set_observation s (creator u) new_obs.

Definition add_valid_unit {E} (s : State) (swunit : SignedWireUnit) : res E State :=
  let wunit := wire_unit_of swunit in
  let h := hash_of swunit in
  if has_unit s h then Ok s else
  fork_choice ← fork_choice s (w_panorama wunit);
  '(unit, maybe_value) ← Unit_new s swunit fork_choice;
  s ← match maybe_value with
    | Some value => block ← Block_new s fork_choice value; mret (set_blocks s (<[h := block]> (blocks s)))
    | None => Ok s
    end;
  s ← add_ping s (creator unit) (timestamp unit);
  let s := set_units s (<[h := unit]> (units s)) in
  update_panorama s h (w_instance_id wunit).

(** *** Endorsements and pings *)

Definition add_endorsements {E} (s : State) (e : Endorsements) : res E State :=
  let uhash := e_unit e in
  match endorsements s !! uhash with
  | Some _ => Ok s
  | None =>
      let signatures := foldl (fun m v => <[v.1 := v.2]> m)
        (default ∅ (incomplete_endorsements s !! uhash)) (endorsers e) in
      ws ← map_res (weight s) (map_to_list signatures).*1;
      endorsed ← Weight_sum ws;
      total ← total_weight s;
      if total / 2 <? endorsed then
        let endorsed_map := (fun vidx => signatures !! vidx) <$> seq 0 (length (weights s)) in
        mret (set_endorsements s (<[uhash := endorsed_map]> (endorsements s))
                (delete uhash (incomplete_endorsements s)))
      else
        mret (set_endorsements s (endorsements s)
                (<[uhash := signatures]> (incomplete_endorsements s)))
  end.

Definition has_endorsement {E} (s : State) (uhash : Hash) (vidx : ValidatorIndex) : res E bool :=
  b ← match endorsements s !! uhash with
    | Some vmap => o ← vm_index vmap vidx; mret (bool_decide (is_Some o))
    | None => Ok false
    end;
  if b : bool then Ok true else
    mret (match incomplete_endorsements s !! uhash with
          | Some ends => bool_decide (is_Some (ends !! vidx))
          | None => false
          end).

Definition has_ping (s : State) (creator : ValidatorIndex) (timestamp : Z) : bool :=
  match pings s !! creator with Some ping_time => timestamp <=? ping_time | None => false end.
Definition is_online {E} (s : State) (vidx : ValidatorIndex) (now : Z) : res E bool :=
  if vm_has (pings s) vidx then
    t ← vm_index (pings s) vidx;
    d ← u64_mul (max_round_length (params s)) PING_TIMEOUT;
    sum ← u64_add t d;
    mret (now <=? sum)
  else Ok false.

(** *** Terminal blocks and proposals *)

Definition is_terminal_block {E} (s : State) (bhash : Hash) : res E bool :=
  match blocks s !! bhash with
  | None => Ok false
  | Some block =>
      if end_height (params s) <=? saturating_add 64 (height block) 1 then
        u ← st_unit s bhash;
        mret (end_timestamp (params s) <=? timestamp u)
      else Ok false
  end.

Definition is_correct_proposal {E} `{LeaderRng} `{BinarySearch} (s : State) (u : Unit) : res E bool :=
  if is_faulty s (creator u) then Ok false else
    l ← leader s (timestamp u);
    if negb (l =? creator u)%nat then Ok false else
      r ← round_id (timestamp u) (round_exp u);
      mret (timestamp u =? r).

(** [Unit::new_hash_obs]. *)
Definition new_hash_obs {E} (s : State) (u : Unit) (vidx : ValidatorIndex) : res E bool :=
  latest ← vm_index (u_panorama u) vidx;
  penultimate ← match Unit_previous u with
    | None => Ok None
    | Some v => u' ← st_unit s v; o ← vm_index (u_panorama u') vidx; mret (obs_correct o)
    end;
  mret (match obs_correct latest, penultimate with
        | Some latest_hash, Some penultimate_hash => negb (bool_decide (latest_hash = penultimate_hash))
        | _, _ => false
        end).

(** *** The limited naivety criterion *)

Definition seen_by_endorsed {E} (s : State) (endorsed : gset Hash) (h : Hash) : res E bool :=
  any_res (fun e_hash => sees s e_hash h) (elements endorsed).

(** [hashes.filter(|hash| added.insert(hash))] *)
Fixpoint insert_new (added : gset Hash) (hashes : list Hash) : gset Hash * list Hash :=
  match hashes with
  | [] => (added, [])
  | h :: hashes =>
      if bool_decide (h ∈ added) then insert_new added hashes
      else let '(added, new) := insert_new ({[h]} ∪ added) hashes in (added, h :: new)
  end.

(** The first loop of [satisfies_lnc_for]: [None] is its [return false]; otherwise the
    fork that is cited naively, if any. *)
Fixpoint naive_loop {E} (fuel : nat) (s : State) (endorsed : gset Hash) (eq_idx : ValidatorIndex)
    (to_visit : list Hash) (added : gset Hash) (maybe_naive_fork : option Hash)
    : res E (option (option Hash)) :=
  match fuel, to_visit with
  | _, [] => Ok (Some maybe_naive_fork)
  | O, _ :: _ => OutOfFuel
  | S fuel, h :: to_visit =>
      b ← seen_by_endorsed s endorsed h;
      if b : bool then naive_loop fuel s endorsed eq_idx to_visit added maybe_naive_fork else
      u ← st_unit s h;
      o ← vm_index (u_panorama u) eq_idx;
      match o with
      | ObsCorrect eq_hash =>
          b ← seen_by_endorsed s endorsed eq_hash;
          if b : bool then naive_loop fuel s endorsed eq_idx to_visit added maybe_naive_fork else
          match maybe_naive_fork with
          | None => naive_loop fuel s endorsed eq_idx to_visit added (Some eq_hash)
          | Some other_hash =>
              b ← sees_correct s eq_hash other_hash;
              if b : bool then naive_loop fuel s endorsed eq_idx to_visit added (Some eq_hash) else
              b ← sees_correct s other_hash eq_hash;
              if b : bool then naive_loop fuel s endorsed eq_idx to_visit added maybe_naive_fork
              else Ok None
          end
      | ObsNone => naive_loop fuel s endorsed eq_idx to_visit added maybe_naive_fork
      | ObsFaulty =>
          let '(added, new) := insert_new added (iter_correct_hashes (u_panorama u)) in
          naive_loop fuel s endorsed eq_idx (rev new ++ to_visit) added maybe_naive_fork
      end
  end.

(** The loop over the units seen by a predecessor: [false] is [return false]. *)
Fixpoint compatible_loop {E} (fuel : nat) (s : State) (endorsed : gset Hash) (eq_idx : ValidatorIndex)
    (naive_fork : Hash) (to_visit : list Hash) (added : gset Hash) : res E bool :=
  match fuel, to_visit with
  | _, [] => Ok true
  | O, _ :: _ => OutOfFuel
  | S fuel, h :: to_visit =>
      b ← seen_by_endorsed s endorsed h;
      if b : bool then compatible_loop fuel s endorsed eq_idx naive_fork to_visit added else
      u ← st_unit s h;
      o ← vm_index (u_panorama u) eq_idx;
      match o with
      | ObsCorrect eq_hash =>
          b ← seen_by_endorsed s endorsed eq_hash;
          if b : bool then compatible_loop fuel s endorsed eq_idx naive_fork to_visit added else
          b ← is_compatible s eq_hash naive_fork;
          if b : bool then compatible_loop fuel s endorsed eq_idx naive_fork to_visit added
          else Ok false
      | ObsNone => compatible_loop fuel s endorsed eq_idx naive_fork to_visit added
      | ObsFaulty =>
          let '(added, new) := insert_new added (iter_correct_hashes (u_panorama u)) in
          compatible_loop fuel s endorsed eq_idx naive_fork (rev new ++ to_visit) added
      end
  end.

(** The loop over the creator's earlier units. *)
Fixpoint predecessors_loop {E} (fuel : nat) (s : State) (eq_idx : ValidatorIndex) (naive_fork : Hash)
    (maybe_pred_hash : option Hash) : res E bool :=
  match fuel, maybe_pred_hash with
  | _, None => Ok true
  | O, Some _ => OutOfFuel
  | S fuel, Some pred_hash =>
      pred_unit ← st_unit s pred_hash;
      ok ← compatible_loop (S (size (units s))) s (endorsed pred_unit) eq_idx naive_fork
        [pred_hash] {[pred_hash]};
      if negb ok then Ok false else
      o ← vm_index (u_panorama pred_unit) eq_idx;
      if negb (obs_is_faulty o) then Ok true
      else predecessors_loop fuel s eq_idx naive_fork (Unit_previous pred_unit)
  end.

Definition satisfies_lnc_for {E} (s : State) (creator : ValidatorIndex) (pan : Panorama)
    (endorsed : gset Hash) (eq_idx : ValidatorIndex) : res E bool :=
  let hashes := iter_correct_hashes pan in
  naive ← naive_loop (S (length hashes + size (units s))) s endorsed eq_idx (rev hashes)
    (list_to_set hashes) None;
  match naive with
  | None => Ok false
  | Some None => Ok true
  | Some (Some naive_fork) =>
      o ← vm_index pan creator;
      predecessors_loop (S (size (units s))) s eq_idx naive_fork (obs_correct o)
  end.

Definition validate_lnc {E} (s : State) (creator : ValidatorIndex) (pan : Panorama)
    (endorsed : gset Hash) : res E (option ValidatorIndex) :=
  if negb ENABLE_ENDORSEMENTS then Ok None
  else find_res (fun eq_idx => negb <$> satisfies_lnc_for s creator pan endorsed eq_idx)
         (iter_faulty pan).

Definition seen_endorsed {E} (s : State) (pan : Panorama) : res E (gset Hash) :=
  if negb ENABLE_ENDORSEMENTS then Ok ∅ else
  us ← iter_correct s pan;
  let result := ⋃ (endorsed <$> us) in
  fold_res (fun result h =>
    if bool_decide (h ∈ result) then Ok result
    else b ← pan_sees s pan h; mret (if b : bool then {[h]} ∪ result else result))
    result (map_to_list (endorsements s)).*1.

(** *** Validation *)

Definition pre_validate_unit (s : State) (swunit : SignedWireUnit) : res UnitError unit :=
  let wunit := wire_unit_of swunit in
  let creator := w_creator wunit in
  _ ← fail_if (validator_count s <=? creator)%nat Creator;
  _ ← fail_if (match faults s !! creator with Some Banned => true | _ => false end) UnitBanned;
  _ ← fail_if (w_round_exp wunit <? min_round_exp (params s)) RoundLengthExpLessThanMinimum;
  _ ← fail_if (max_round_exp (params s) <? w_round_exp wunit) RoundLengthExpGreaterThanMaximum;
  _ ← fail_if (match w_value wunit with None => negb (has_correct (w_panorama wunit)) | Some _ => false end)
        MissingBlock;
  _ ← fail_if (negb (length (w_panorama wunit) =? validator_count s)%nat)
        (PanoramaLength (length (w_panorama wunit)));
  o ← vm_index (w_panorama wunit) creator;
  fail_if (obs_is_faulty o) FaultyCreator.

(** The check of [validate_unit] on the creator's two previous units. *)
Definition check_rounds (s : State) (wunit : WireUnit) (r_id : Z) (prev_unit : Unit) : res UnitError unit :=
  _ ← if negb (round_exp prev_unit =? w_round_exp wunit) then
        let max_re := Z.max (round_exp prev_unit) (w_round_exp wunit) in
        a ← u64_shr (timestamp prev_unit) max_re;
        b ← u64_shr (w_timestamp wunit) max_re;
        fail_if (a =? b) RoundLengthExpChangedWithinRound
      else Ok tt;
  match Unit_previous prev_unit with
  | None => Ok tt
  | Some h2 =>
      prev2_unit ← st_unit s h2;
      r2 ← Unit_round_id prev2_unit;
      fail_if (r2 =? r_id) ThreeUnitsInRound
  end.

(** The checks of [validate_unit] on the endorsed units. *)
Definition check_endorsed (s : State) (wunit : WireUnit) : res UnitError unit :=
  us ← iter_correct s (w_panorama wunit);
  _ ← fail_if (negb (forallb (fun u => bool_decide (endorsed u ⊆ w_endorsed wunit)) us))
        EndorsementsNotMonotonic;
  fold_res (fun _ h => b ← pan_sees s (w_panorama wunit) h; fail_if (negb b) (EndorsedButUnseen h))
    tt (elements (w_endorsed wunit)).

(** The checks of [validate_unit] on a unit with a block. *)
Definition check_proposal `{LeaderRng} `{BinarySearch} (s : State) (wunit : WireUnit) (r_id : Z)
    (maybe_prev_unit : option Unit) : res UnitError unit :=
  let creator := w_creator wunit in
  same_round ← match maybe_prev_unit with
    | None => Ok false
    | Some pv => r ← Unit_round_id pv; mret (r =? r_id)
    end;
  bad ← if same_round : bool then Ok true
        else if negb (w_timestamp wunit =? r_id) then Ok true
        else l ← leader s r_id; mret (negb (l =? creator)%nat);
  _ ← if bad : bool then l ← leader s r_id; Err (NonLeaderBlock l) else Ok tt;
  fc ← fork_choice s (w_panorama wunit);
  match fc with
  | None => Ok tt
  | Some h => t ← is_terminal_block s h; fail_if t ValueAfterTerminalBlock
  end.

Definition validate_unit `{LeaderRng} `{BinarySearch} (s : State) (swunit : SignedWireUnit)
    : res UnitError unit :=
  let wunit := wire_unit_of swunit in
  let creator := w_creator wunit in
  let pan := w_panorama wunit in
  _ ← pan_validate s pan;
  us ← iter_correct s pan;
  _ ← fail_if (existsb (fun v => w_timestamp wunit <? timestamp v) us
               || (w_timestamp wunit <? start_timestamp (params s))) Timestamps;
  seq ← next_seq_num s pan creator;
  _ ← fail_if (negb (w_seq_number wunit =? seq)) SequenceNumber;
  r_id ← round_id (w_timestamp wunit) (w_round_exp wunit);
  prev ← WireUnit_previous wunit;
  maybe_prev_unit ← match prev with None => Ok None | Some vh => Some <$> st_unit s vh end;
  _ ← match maybe_prev_unit with
    | Some prev_unit => check_rounds s wunit r_id prev_unit
    | None => Ok tt
    end;
  _ ← if ENABLE_ENDORSEMENTS then check_endorsed s wunit else Ok tt;
  _ ← match w_value wunit with
    | Some _ => check_proposal s wunit r_id maybe_prev_unit
    | None => Ok tt
    end;
  lnc ← validate_lnc s creator pan (w_endorsed wunit);
  match lnc with None => Ok tt | Some vidx => Err (LncNaiveCitation vidx) end.

(** *** Panoramas for new units *)

Definition inclusive_panorama {E} (s : State) (uhash : Hash) : res E Panorama :=
  u ← st_unit s uhash;
  vm_set (u_panorama u) (creator u) (ObsCorrect uhash).

Definition valid_panorama {E} (s : State) (creator : ValidatorIndex) (pan : Panorama) : res E Panorama :=
  o ← vm_index (panorama s) creator;
  let maybe_prev_uhash := obs_correct o in
  pan ← match maybe_prev_uhash with
    | None => Ok pan
    | Some prev_uhash =>
        o ← vm_index pan creator;
        if bool_decide (obs_correct o = Some prev_uhash) then Ok pan
        else prev_pan ← inclusive_panorama s prev_uhash; merge s pan prev_pan
    end;
  endorsed ← seen_endorsed s pan;
  lnc ← validate_lnc s creator pan endorsed;
  match lnc with
  | None => Ok pan
  | Some _ =>
      pan ← match maybe_prev_uhash with
        | None => Ok (Panorama_new (validator_count s))
        | Some prev_uhash => inclusive_panorama s prev_uhash
        end;
      pan ← fold_res (fun pan v => vm_set pan v ObsFaulty) pan (faulty_validators s);
      fold_res (fun pan h =>
        b ← pan_sees_correct s pan h;
        if b : bool then Ok pan else incl ← inclusive_panorama s h; merge s pan incl)
        pan (elements endorsed)
  end.

Definition confirmation_panorama {E} (s : State) (creator : ValidatorIndex) (uhash : Hash)
    : res E Panorama :=
  pan ← inclusive_panorama s uhash;
  valid_panorama s creator pan.

Definition retain_evidence_only (s : State) : State :=
  let pan := (fun o => if obs_is_correct o then ObsNone else o) <$> panorama s in
  set_endorsements (set_faults (set_blocks (set_units s ∅) ∅) (faults s) pan) ∅ ∅.

End Highway.

Abbreviation Panorama := (ValidatorMap Observation).
Abbreviation Tallies := (list (Z * Tally)).

(** The searches stay folded in proofs. *)
#[global] Arguments find_in_swimlane : simpl never.
#[global] Arguments find_ancestor_proposal : simpl never.
#[global] Arguments swimlane : simpl never.
#[global] Arguments ancestor_hashes : simpl never.
#[global] Arguments pan_sees : simpl never.
#[global] Arguments pan_sees_correct : simpl never.
#[global] Arguments fork_choice : simpl never.
