(* ===== verification/HighwaySkip.v ===== *)
(** * Skip lists

    Units and blocks carry, for every power of two that divides their sequence
    number or height, a link that many steps back.  This file shows what such
    lists are good for, once for swimlanes and chains of blocks: a walk that
    takes the greatest allowed step finds the right predecessor, and the loop of
    [Unit::new] and [Block::new] builds a correct list from the older ones. *)

From S2P Require Import Prelude Highway.

Local Open Scope Z_scope.

(** ** Trailing zeros and logarithms *)

Lemma pos_trailing_zeros_nonneg p : 0 <= pos_trailing_zeros p.
Proof. induction p; cbn; lia. Qed.

Lemma trailing_zeros_divide (i : nat) (r : Z) :
  0 < r -> (Z.of_nat i <= trailing_zeros r <-> (2 ^ Z.of_nat i | r)).
Proof.
  intros Hr. destruct r as [|p|]; try lia. clear Hr. cbn [trailing_zeros].
  revert i. induction p as [p IH|p IH|]; intros i; cbn [pos_trailing_zeros].
  - destruct i as [|i]; [split; intros _; [apply Z.divide_1_l|lia]|]. split; [lia|].
    rewrite Nat2Z.inj_succ, Z.pow_succ_r by lia. intros [q Hq].
    assert (Z.odd (Z.pos p~1) = false) as E by (rewrite Hq, Z.mul_comm, <- Z.mul_assoc, Z.odd_mul; done).
    done.
  - pose proof (pos_trailing_zeros_nonneg p).
    destruct i as [|i]; [split; intros _; [apply Z.divide_1_l|lia]|].
    rewrite Nat2Z.inj_succ, Z.pow_succ_r by lia.
    replace (Z.pos p~0) with (2 * Z.pos p) by lia.
    rewrite Z.mul_divide_cancel_l by lia. rewrite <- IH. lia.
  - destruct i as [|i]; [split; intros _; [apply Z.divide_1_l|lia]|]. split; [lia|].
    rewrite Nat2Z.inj_succ, Z.pow_succ_r by lia. intros Hd%Z.divide_pos_le; [|lia].
    pose proof (Z.pow_pos_nonneg 2 (Z.of_nat i)). lia.
Qed.

Lemma trailing_zeros_pow (k : nat) : trailing_zeros (2 ^ Z.of_nat k) = Z.of_nat k.
Proof.
  pose proof (Z.pow_pos_nonneg 2 (Z.of_nat k)) as Hp.
  assert (forall i : nat, Z.of_nat i <= trailing_zeros (2 ^ Z.of_nat k) <-> (i <= k)%nat) as E.
  { intros i. rewrite trailing_zeros_divide by lia. split.
    - intros Hd%Z.divide_pos_le; [|lia]. apply Z.pow_le_mono_r_iff in Hd; lia.
    - intros ?. exists (2 ^ Z.of_nat (k - i)). rewrite <- Z.pow_add_r by lia. f_equal. lia. }
  assert (0 <= trailing_zeros (2 ^ Z.of_nat k)).
  { destruct (2 ^ Z.of_nat k); cbn; [lia|apply pos_trailing_zeros_nonneg|lia]. }
  pose proof (proj2 (E k)). pose proof (proj1 (E (Z.to_nat (trailing_zeros (2 ^ Z.of_nat k))))). lia.
Qed.

Lemma log2_eq x : 0 < x -> is_uint 64 x -> log2 x = Z.log2 x.
Proof.
  unfold is_uint. intros Hx Hu. unfold log2, saturating_add.
  pose proof (Z.log2_nonneg x).
  assert (Z.log2 x <= 63) by (apply Z.lt_succ_r, Z.log2_lt_pow2; cbn; lia).
  destruct (decide (x = uint_max 64)) as [->|Hne]; [vm_compute; reflexivity|].
  rewrite Z.min_l by (unfold uint_max in *; lia). unfold checked_next_power_of_two.
  rewrite Z.log2_up_eqn by lia. replace (Z.pred (x + 1)) with x by lia.
  case_match eqn:E.
  - cbn [default from_option id]. replace (Z.succ (Z.log2 x)) with (Z.of_nat (S (Z.to_nat (Z.log2 x)))) by lia.
    rewrite trailing_zeros_pow. unfold saturating_sub. lia.
  - apply Z.leb_gt in E. unfold uint_max in E.
    assert (64 <= Z.succ (Z.log2 x)). { apply (Z.pow_le_mono_r_iff 2); lia. }
    cbn. unfold saturating_sub. lia.
Qed.

(** ** Skip lists over an abstract chain *)

Section SkipList.
Context {C : ConsensusContext}.
Variable info : Hash -> option (Z * list Hash).

Definition next_of (h : Hash) : option Hash := info h ≫= fun '(_, l) => head l.

(** The [n]-th predecessor. *)
Fixpoint pred_n (n : nat) (h : Hash) : option Hash :=
  match n with O => Some h | S n => next_of h ≫= pred_n n end.

Definition rank_of (h : Hash) : option Z := fst <$> info h.

Definition skip_ok (h : Hash) : Prop :=
  forall r l, info h = Some (r, l) ->
    0 <= r /\
    length l = (if decide (r = 0) then 0%nat else S (Z.to_nat (trailing_zeros r))) /\
    forall i x, l !! i = Some x ->
      pred_n (Nat.pow 2 i) h = Some x /\ rank_of x = Some (r - 2 ^ Z.of_nat i).

Definition skips_ok : Prop := forall h, skip_ok h.

Lemma pred_n_add n m h : pred_n (n + m) h = pred_n n h ≫= pred_n m.
Proof.
  revert h; induction n as [|n IH]; intros h; cbn; [done|]. destruct (next_of h); cbn; auto.
Qed.

Hypothesis OK : skips_ok.

Lemma next_rank h r l : info h = Some (r, l) ->
  match next_of h with
  | None => r = 0
  | Some x => 0 < r /\ rank_of x = Some (r - 1)
  end.
Proof.
  intros E. destruct (OK h r l E) as (Hr & Hl & Hi). unfold next_of. rewrite E. cbn.
  destruct l as [|x l]; cbn in *; case_decide; try done.
  destruct (Hi 0%nat x eq_refl) as [_ Hx]. split; [lia|]. by rewrite Hx.
Qed.

Lemma rank_pred n : forall h x r, rank_of h = Some r -> pred_n n h = Some x ->
  Z.of_nat n <= r /\ rank_of x = Some (r - Z.of_nat n).
Proof.
  induction n as [|n IH]; intros h x r Hr Hp; cbn in Hp.
  - injection Hp as <-. unfold rank_of in *. destruct (info h) as [[r' l]|] eqn:E; [|done].
    injection Hr as <-. destruct (OK h r' l E) as (? & _). cbn. split; [lia|]. f_equal. lia.
  - unfold rank_of in Hr. destruct (info h) as [[r' l]|] eqn:E; [|done]. injection Hr as <-. cbn.
    pose proof (next_rank h r' l E) as Hn. destruct (next_of h) as [y|]; [|done]. cbn in Hp.
    destruct Hn as [Hpos Hy]. destruct (IH y x _ Hy Hp) as [? ->]. split; [lia|]. f_equal. lia.
Qed.

Lemma pred_total n : forall h r, rank_of h = Some r -> Z.of_nat n <= r -> exists x, pred_n n h = Some x.
Proof.
  induction n as [|n IH]; intros h r Hr Hn; [by eexists|]. cbn.
  unfold rank_of in Hr. destruct (info h) as [[r' l]|] eqn:E; [|done]. injection Hr as <-. cbn in Hn.
  pose proof (next_rank h r' l E) as Hx. destruct (next_of h) as [y|]; [|lia].
  destruct Hx as [_ Hy]. eapply IH; [exact Hy|lia].
Qed.

(** The predecessor with a given rank, if the rank is not too high. *)
Definition at_rank (h : Hash) (target : Z) : option Hash :=
  match rank_of h with
  | Some r => if target <=? r then pred_n (Z.to_nat (r - target)) h else None
  | None => None
  end.

Lemma at_rank_self h r : rank_of h = Some r -> at_rank h r = Some h.
Proof. intros E. unfold at_rank. rewrite E, Z.leb_refl, Z.sub_diag. done. Qed.

Lemma at_rank_total h r k : rank_of h = Some r -> 0 <= k <= r ->
  exists x, at_rank h k = Some x /\ rank_of x = Some k.
Proof.
  intros E Hk. unfold at_rank. rewrite E. rewrite (proj2 (Z.leb_le k r)) by lia.
  destruct (pred_total (Z.to_nat (r - k)) h r E) as [x Hx]; [lia|]. exists x. split; [done|].
  destruct (rank_pred _ _ _ _ E Hx) as [_ ->]. f_equal. lia.
Qed.

Lemma at_rank_Some h k x : at_rank h k = Some x ->
  exists r, rank_of h = Some r /\ k <= r /\ (0 <= k -> rank_of x = Some k).
Proof.
  unfold at_rank. destruct (rank_of h) as [r|] eqn:E; [|done].
  destruct (Z.leb_spec k r); [|done]. intros Hx. exists r. split_and!; [done|done|]. intros Hk.
  destruct (rank_pred _ _ _ _ E Hx) as [_ ->]. f_equal. lia.
Qed.

(** Ancestors of ancestors. *)
Lemma at_rank_trans h k x j : at_rank h k = Some x -> 0 <= j <= k -> at_rank x j = at_rank h j.
Proof.
  intros Hx Hj. destruct (at_rank_Some h k x Hx) as (r & E & Hk & Hr). specialize (Hr ltac:(lia)).
  unfold at_rank in *. rewrite E, Hr in *. rewrite (proj2 (Z.leb_le k r)) in Hx by lia.
  rewrite (proj2 (Z.leb_le j r)), (proj2 (Z.leb_le j k)) by lia.
  replace (Z.to_nat (r - j)) with (Z.to_nat (r - k) + Z.to_nat (k - j))%nat by lia.
  by rewrite pred_n_add, Hx.
Qed.

Lemma at_rank_next h r : rank_of h = Some r -> 0 < r -> at_rank h (r - 1) = next_of h.
Proof.
  intros E Hr. unfold at_rank. rewrite E, (proj2 (Z.leb_le _ _)) by lia.
  replace (Z.to_nat (r - (r - 1))) with 1%nat by lia. cbn. by destruct (next_of h).
Qed.

(** The greatest allowed step exists and does not overshoot. *)
Lemma skip_step h r l target :
  info h = Some (r, l) -> is_uint 64 r -> 0 <= target < r ->
  exists x, l !! Nat.min (Z.to_nat (log2 (r - target))) (length l - 1) = Some x /\
    at_rank x target = at_rank h target /\
    exists r', rank_of x = Some r' /\ target <= r' < r.
Proof.
  intros E Hu Ht. destruct (OK h r l E) as (_ & Hl & Hi).
  rewrite decide_False in Hl by lia. set (i := Nat.min _ _).
  destruct (lookup_lt_is_Some_2 l i) as [x Hx]; [lia|]. exists x. split; [done|].
  destruct (Hi i x Hx) as [Hp Hr].
  assert (2 ^ Z.of_nat i <= r - target) as Hle.
  { etrans; [|apply Z.log2_spec; lia]. apply Z.pow_le_mono_r; [lia|].
    pose proof (Z.log2_nonneg (r - target)). subst i. unfold is_uint in Hu.
    rewrite log2_eq by (unfold is_uint; lia). lia. }
  pose proof (Z.pow_pos_nonneg 2 (Z.of_nat i)) as Hpos. split.
  - unfold at_rank. rewrite Hr. unfold rank_of. rewrite E. cbn.
    rewrite (proj2 (Z.leb_le target (r - _))), (proj2 (Z.leb_le target r)) by lia.
    replace (Z.to_nat (r - target)) with
      (Nat.pow 2 i + Z.to_nat (r - 2 ^ Z.of_nat i - target))%nat; [by rewrite pred_n_add, Hp|].
    apply Nat2Z.inj. rewrite Nat2Z.inj_add, Nat2Z.inj_pow. lia.
  - eexists. split; [exact Hr|lia].
Qed.

(** *** Building a list *)

Lemma two_pow_nat i : Z.of_nat (Nat.pow 2 i) = 2 ^ Z.of_nat i.
Proof. by rewrite Nat2Z.inj_pow. Qed.

(** The entries a new element of rank [r] above [p] must have. *)
Definition built (p : Hash) (r : Z) (skip : list Hash) : Prop :=
  forall i x, skip !! i = Some x ->
    pred_n (Nat.pow 2 i - 1) p = Some x /\ rank_of x = Some (r - 2 ^ Z.of_nat i).

Lemma divide_sub_pow (i : nat) (r : Z) :
  0 < r -> (2 ^ Z.of_nat (S i) | r) -> 0 < r - 2 ^ Z.of_nat i /\ (2 ^ Z.of_nat i | r - 2 ^ Z.of_nat i).
Proof.
  intros Hr [q Hq]. rewrite Nat2Z.inj_succ, Z.pow_succ_r in Hq by lia.
  pose proof (Z.pow_pos_nonneg 2 (Z.of_nat i)). assert (0 < q) by nia.
  split; [nia|]. exists (2 * q - 1). rewrite Hq. ring.
Qed.

Lemma skip_loop_built {E} (get : Hash -> res E (list Hash)) p r n : forall i skip,
  (forall h l r', info h = Some (r', l) -> get h = Ok l) ->
  0 < r -> built p r skip -> length skip = S i ->
  Z.of_nat (i + n) = trailing_zeros r ->
  exists skip', skip_loop get n i skip = Ok skip' /\ built p r skip' /\
    length skip' = (S i + n)%nat /\ skip' !! 0%nat = skip !! 0%nat.
Proof.
  induction n as [|n IH]; intros i skip Hg Hr Hb Hl Hn; cbn.
  { exists skip. split_and!; [done..|lia|done]. }
  destruct (lookup_lt_is_Some_2 skip i) as [h Hh]; [lia|]. rewrite Hh. cbn.
  destruct (Hb i h Hh) as [Hp Hrank].
  assert (2 ^ Z.of_nat (S i) | r) as Hd by (apply trailing_zeros_divide; lia).
  destruct (divide_sub_pow i r Hr Hd) as [Hpos Hdiv].
  unfold rank_of in Hrank. destruct (info h) as [[r' l]|] eqn:Ei; [|done].
  injection Hrank as ->. rewrite (Hg _ _ _ Ei). cbn.
  destruct (OK h _ l Ei) as (_ & Hlen & Hi). rewrite decide_False in Hlen by lia.
  apply trailing_zeros_divide in Hdiv; [|lia].
  destruct (lookup_lt_is_Some_2 l i) as [x Hx]; [lia|]. rewrite Hx. cbn.
  destruct (Hi i x Hx) as [Hpx Hrx].
  destruct (IH (S i) (skip ++ [x])) as (skip' & -> & Hb' & Hl' & H0); [done|done| |..].
  - intros j y Hy. apply lookup_app_Some in Hy as [Hy|[Hj Hy]]; [by apply Hb|].
    assert (j = S i) as ->. { apply lookup_lt_Some in Hy. cbn in Hy. lia. }
    rewrite Hl, Nat.sub_diag in Hy. injection Hy as <-. split.
    + replace (Nat.pow 2 (S i) - 1)%nat with ((Nat.pow 2 i - 1) + Nat.pow 2 i)%nat.
      * by rewrite pred_n_add, Hp.
      * pose proof (Nat.pow_nonzero 2 i). cbn [Nat.pow]. lia.
    + rewrite Hrx. f_equal. rewrite Nat2Z.inj_succ, Z.pow_succ_r; lia.
  - rewrite length_app. cbn. lia.
  - lia.
  - exists skip'. split_and!; [done|done|lia|]. rewrite H0. by rewrite lookup_app_l by lia.
Qed.

End SkipList.

(** ** Adding an element on top of a chain *)

Section Extend.
Context {C : ConsensusContext}.
Variables (info info' : Hash -> option (Z * list Hash)) (h : Hash).
Hypothesis OK : skips_ok info.
Hypothesis Fresh : info h = None.
Hypothesis Same : forall x, x <> h -> info' x = info x.

Lemma rank_fresh x r : rank_of info x = Some r -> x <> h /\ info' x = info x.
Proof. intros Hr. assert (x <> h) by (intros ->; unfold rank_of in Hr; by rewrite Fresh in Hr). auto. Qed.

Lemma rank_extend x r : rank_of info x = Some r -> rank_of info' x = Some r.
Proof. intros Hr. destruct (rank_fresh x r Hr) as [_ E]. unfold rank_of in *. by rewrite E. Qed.

Lemma pred_extend n : forall x r, rank_of info x = Some r -> pred_n info' n x = pred_n info n x.
Proof.
  induction n as [|n IH]; intros x r Hr; [done|]. cbn. destruct (rank_fresh x r Hr) as [_ E].
  unfold next_of at 1. rewrite E. fold (next_of info x). unfold rank_of in Hr.
  destruct (info x) as [[r' l]|] eqn:Ex; [|done]. pose proof (next_rank info OK x r' l Ex) as Hn.
  destruct (next_of info x) as [y|]; [|done]. destruct Hn as [_ Hy]. cbn. by eapply IH.
Qed.

(** Nothing above [h] yet: the new element is at the bottom, or on top of [p] with
    the skip list the construction gives. *)
Lemma skips_extend : (forall r l, info' h = Some (r, l) ->
    (r = 0 /\ l = []) \/
    exists p, 0 < r /\ rank_of info p = Some (r - 1) /\ l !! 0%nat = Some p /\ built info p r l /\
      length l = S (Z.to_nat (trailing_zeros r))) ->
  skips_ok info'.
Proof.
  intros Top x r l Ex. destruct (decide (x = h)) as [->|Hne].
  - destruct (Top r l Ex) as [[-> ->]|(p & Hr & Hp & H0 & Hb & Hl)].
    { split_and!; [done|done|]. intros i y Hy. done. }
    rewrite decide_False by lia. split_and!; [lia|done|]. intros i y Hy. destruct (Hb i y Hy) as [Hpy Hry].
    split; [|by apply rank_extend].
    destruct (Nat.pow 2 i) as [|m] eqn:Em; [by apply Nat.pow_nonzero in Em|]. cbn.
    assert (next_of info' h = Some p) as ->.
    { unfold next_of. rewrite Ex. cbn. by destruct l. }
    cbn. rewrite (pred_extend m p (r - 1) Hp). by replace m with (S m - 1)%nat by lia.
  - rewrite Same in Ex by done. destruct (OK x r l Ex) as (Hr & Hl & Hi). split_and!; [done|done|].
    intros i y Hy. destruct (Hi i y Hy) as [Hp Hry]. split; [|by apply rank_extend].
    rewrite (pred_extend _ x r); [done|]. unfold rank_of. by rewrite Ex.
Qed.

Lemma built_singleton p r : 0 < r -> rank_of info p = Some (r - 1) -> built info p r [p].
Proof.
  intros Hr Hp i x Hx. destruct i; [|done]. injection Hx as <-. cbn. by rewrite Hp.
Qed.

(** The construction of the skip list of an element of rank [r] above [p]. *)
Lemma skip_loop_top {E} (get : Hash -> res E (list Hash)) p r :
  (forall h l r', info h = Some (r', l) -> get h = Ok l) -> 0 < r -> rank_of info p = Some (r - 1) ->
  exists l, skip_loop get (Z.to_nat (trailing_zeros r)) 0 [p] = Ok l /\
    l !! 0%nat = Some p /\ built info p r l /\ length l = S (Z.to_nat (trailing_zeros r)).
Proof.
  intros Hg Hr Hp.
  assert (0 <= trailing_zeros r) by (destruct r; cbn; [lia|apply pos_trailing_zeros_nonneg|lia]).
  destruct (skip_loop_built info OK get p r (Z.to_nat (trailing_zeros r)) 0 [p] Hg Hr)
    as (l & El & Hb & Hl & H0); [by apply built_singleton|done|lia|].
  exists l. split_and!; [done|done|done|lia].
Qed.

End Extend.
