(* ===== verification/HighwayInv.v ===== *)
(** * The invariant of the protocol state

    What holds of every state the protocol builds: units and blocks form chains
    with correct skip lists, every unit cites known units by the right
    validators and sees what they see, and the state's own panorama points at the
    latest unit of every validator that did not equivocate.  On such states the
    searches never panic and the order on panoramas is the intended one. *)

From S2P Require Import Prelude Highway HighwaySkip.

Local Open Scope Z_scope.

Section Invariant.
Context {C : ConsensusContext}.
Implicit Types (s : State) (h : Hash) (u : Unit) (p q : Panorama) (o : Observation).

Definition unit_info s h : option (Z * list Hash) :=
  (fun u => (seq_number u, u_skip_idx u)) <$> units s !! h.
Definition block_info s h : option (Z * list Hash) :=
  (fun b => (height b, skip_idx b)) <$> blocks s !! h.

(** [h'] is [h] or an earlier unit of its swimlane. *)
Definition lane_le s h' h : Prop := exists n, pred_n (unit_info s) n h = Some h'.

(** The order in which a validator's observation can grow. *)
Definition obs_le s (o o' : Observation) : Prop :=
  match o, o' with
  | ObsNone, _ | _, ObsFaulty => True
  | ObsCorrect h, ObsCorrect h' => lane_le s h h'
  | _, _ => False
  end.
Definition pan_le s p q : Prop := Forall2 (obs_le s) p q.

Record wf_unit s h u : Prop := {
  wfu_len : length (u_panorama u) = length (weights s);
  wfu_own : u_panorama u !! creator u =
    Some (match Unit_previous u with Some p => ObsCorrect p | None => ObsNone end);
  wfu_entries idx h' : u_panorama u !! idx = Some (ObsCorrect h') ->
    exists u', units s !! h' = Some u' /\ creator u' = idx /\
      pan_le s (u_panorama u') (u_panorama u) /\ timestamp u' <= timestamp u;
  wfu_faulty idx : u_panorama u !! idx = Some ObsFaulty -> is_Some (faults s !! idx);
  wfu_block : is_Some (blocks s !! u_block u);
  wfu_vote : is_Some (blocks s !! h) -> u_block u = h;
  wfu_seq : seq_number u < Z.of_nat (size (units s));
}.

(** A validator's entry in the state's panorama, given its units. *)
Definition latest_ok s idx o : Prop :=
  match o with
  | ObsNone => forall h u, units s !! h = Some u -> creator u <> idx
  | ObsCorrect h =>
      (exists u, units s !! h = Some u /\ creator u = idx) /\
      forall h' u', units s !! h' = Some u' -> creator u' = idx -> lane_le s h' h
  | ObsFaulty => True
  end.

Record wf s : Prop := {
  wf_units h u : units s !! h = Some u -> wf_unit s h u;
  wf_lanes : skips_ok (unit_info s);
  wf_chains : skips_ok (block_info s);
  wf_heights h b : blocks s !! h = Some b -> height b < Z.of_nat (size (blocks s));
  wf_blocks h : is_Some (blocks s !! h) -> is_Some (units s !! h);
  wf_pan_len : length (panorama s) = length (weights s);
  wf_latest idx o : panorama s !! idx = Some o -> latest_ok s idx o;
  wf_faults idx : panorama s !! idx = Some ObsFaulty <-> is_Some (faults s !! idx);
  wf_pings : length (pings s) = length (weights s);
}.

(** Fewer units than the sequence numbers can count. *)
Definition small s : Prop := Z.of_nat (size (units s)) < uint_max 64.

Definition known s h : Prop := is_Some (units s !! h).

Section Searches.
Variable s : State.
Hypothesis WF : wf s.
Hypothesis SM : small s.

Lemma seq_range h u : units s !! h = Some u -> 0 <= seq_number u < Z.of_nat (size (units s)).
Proof.
  intros E. split; [|by apply (wfu_seq _ _ _ (wf_units _ WF _ _ E))].
  apply (wf_lanes _ WF h _ (u_skip_idx u)). unfold unit_info. by rewrite E.
Qed.

Lemma blocks_le_units : (size (blocks s) <= size (units s))%nat.
Proof.
  rewrite <- !size_dom. apply subseteq_size. intros h. rewrite !elem_of_dom. apply (wf_blocks _ WF).
Qed.

Lemma height_range h b : blocks s !! h = Some b ->
  0 <= height b < Z.of_nat (size (blocks s)) /\ is_uint 64 (height b).
Proof.
  intros E. pose proof (wf_heights _ WF _ _ E). pose proof blocks_le_units.
  unfold small, uint_max in SM. unfold is_uint.
  enough (0 <= height b) by lia.
  apply (wf_chains _ WF h _ (skip_idx b)). unfold block_info. by rewrite E.
Qed.

Lemma swimlane_search_eq {E} fuel : forall h u seq,
  units s !! h = Some u -> 0 <= seq -> Z.max 0 (seq_number u - seq) < Z.of_nat fuel ->
  swimlane_search (E:=E) fuel s h seq = Ok (at_rank (unit_info s) h seq).
Proof.
  induction fuel as [|fuel IH]; intros h u seq Eu Hs Hf; cbn [swimlane_search]; [lia|].
  unfold st_unit, maybe_unit. rewrite Eu. cbn [expect mbind res_bind].
  assert (rank_of (unit_info s) h = Some (seq_number u)) as Hr
    by (unfold rank_of, unit_info; by rewrite Eu).
  unfold at_rank. rewrite Hr. unfold checked_sub.
  destruct (Z.leb_spec seq (seq_number u)); [|done].
  destruct (Z.eqb_spec (seq_number u - seq) 0) as [E0|E0]; [by rewrite E0|].
  pose proof (seq_range h u Eu). unfold small, uint_max in SM.
  destruct (skip_step (unit_info s) (wf_lanes _ WF) h (seq_number u) (u_skip_idx u) seq)
    as (x & Hx & Hat & r' & Hr' & Hlt).
  { unfold unit_info. by rewrite Eu. } { unfold is_uint. lia. } { lia. }
  assert (length (u_skip_idx u) <> 0)%nat. { apply lookup_lt_Some in Hx. lia. }
  unfold plain_sub, checked_sub. rewrite (proj2 (Z.leb_le _ _)) by lia. cbn [expect mbind res_bind].
  replace (Z.to_nat (Z.of_nat (length (u_skip_idx u)) - 1)) with (length (u_skip_idx u) - 1)%nat by lia.
  rewrite Hx. cbn [expect mbind res_bind].
  unfold rank_of, unit_info in Hr'. destruct (units s !! x) as [ux|] eqn:Ex; [|done].
  injection Hr' as Hr'. rewrite (IH x ux seq Ex) by lia. f_equal. rewrite Hat.
  unfold at_rank. rewrite Hr. by rewrite (proj2 (Z.leb_le _ _)) by lia.
Qed.

Lemma find_in_swimlane_eq {E} h u seq : units s !! h = Some u -> 0 <= seq ->
  find_in_swimlane (E:=E) s h seq = Ok (at_rank (unit_info s) h seq).
Proof.
  intros Eu Hs. unfold find_in_swimlane. eapply swimlane_search_eq; [done|done|].
  pose proof (seq_range h u Eu). lia.
Qed.

Lemma ancestor_search_eq {E} fuel : forall h b target,
  blocks s !! h = Some b -> 0 <= target -> Z.max 0 (height b - target) < Z.of_nat fuel ->
  ancestor_search (E:=E) fuel s h target = Ok (at_rank (block_info s) h target).
Proof.
  induction fuel as [|fuel IH]; intros h b target Eb Ht Hf; cbn [ancestor_search]; [lia|].
  unfold st_block, maybe_block. rewrite Eb. cbn [expect mbind res_bind].
  assert (rank_of (block_info s) h = Some (height b)) as Hr
    by (unfold rank_of, block_info; by rewrite Eb).
  unfold at_rank. rewrite Hr. destruct (Z.ltb_spec (height b) target).
  { by rewrite (proj2 (Z.leb_gt _ _)) by lia. }
  rewrite (proj2 (Z.leb_le _ _)) by lia.
  destruct (Z.eqb_spec (height b) target) as [E0|E0].
  { by replace (height b - target) with 0 by lia. }
  destruct (height_range h b Eb) as [Hh Hu].
  destruct (skip_step (block_info s) (wf_chains _ WF) h (height b) (skip_idx b) target)
    as (x & Hx & Hat & r' & Hr' & Hlt).
  { unfold block_info. by rewrite Eb. } { done. } { lia. }
  assert (length (skip_idx b) <> 0)%nat. { apply lookup_lt_Some in Hx. lia. }
  unfold u64_sub, plain_sub, checked_sub. rewrite !(proj2 (Z.leb_le _ _)) by lia.
  cbn [expect mbind res_bind].
  replace (Z.to_nat (Z.of_nat (length (skip_idx b)) - 1)) with (length (skip_idx b) - 1)%nat by lia.
  rewrite Hx. cbn [expect mbind res_bind].
  unfold rank_of, block_info in Hr'. destruct (blocks s !! x) as [bx|] eqn:Ex; [|done].
  injection Hr' as Hr'. rewrite (IH x bx target Ex) by lia. f_equal. rewrite Hat.
  unfold at_rank. rewrite Hr. by rewrite (proj2 (Z.leb_le _ _)) by lia.
Qed.

Lemma find_ancestor_proposal_eq {E} h b target : blocks s !! h = Some b -> 0 <= target ->
  find_ancestor_proposal (E:=E) s h target = Ok (at_rank (block_info s) h target).
Proof.
  intros Eb Ht. unfold find_ancestor_proposal. eapply ancestor_search_eq; [done|done|].
  destruct (height_range h b Eb). lia.
Qed.

(** *** Swimlanes *)

Lemma st_unit_known {E} h u : units s !! h = Some u -> st_unit (E:=E) s h = Ok u.
Proof. intros Eu. unfold st_unit, maybe_unit. by rewrite Eu. Qed.

Lemma known_info h u : units s !! h = Some u -> unit_info s h = Some (seq_number u, u_skip_idx u).
Proof. intros E. unfold unit_info. by rewrite E. Qed.

Lemma known_rank h u : units s !! h = Some u -> rank_of (unit_info s) h = Some (seq_number u).
Proof. intros E. unfold rank_of. by rewrite (known_info _ _ E). Qed.

Lemma next_of_unit h u : units s !! h = Some u -> next_of (unit_info s) h = Unit_previous u.
Proof. intros E. unfold next_of. by rewrite (known_info _ _ E). Qed.

Lemma previous_unit h u h' : units s !! h = Some u -> Unit_previous u = Some h' ->
  exists u', units s !! h' = Some u' /\ creator u' = creator u.
Proof.
  intros E Ep. pose proof (wf_units _ WF _ _ E) as W. pose proof (wfu_own _ _ _ W) as Ho.
  rewrite Ep in Ho. destruct (wfu_entries _ _ _ W _ _ Ho) as (u' & ? & ? & _). by exists u'.
Qed.

Lemma pred_known n : forall h u h', units s !! h = Some u -> pred_n (unit_info s) n h = Some h' ->
  exists u', units s !! h' = Some u' /\ creator u' = creator u /\
    seq_number u' = seq_number u - Z.of_nat n.
Proof.
  induction n as [|n IH]; intros h u h' E Hp; cbn in Hp.
  { injection Hp as <-. exists u. split_and!; [done|done|lia]. }
  rewrite (next_of_unit _ _ E) in Hp. destruct (Unit_previous u) as [x|] eqn:Ex; [|done].
  destruct (previous_unit h u x E Ex) as (ux & Eux & Hc). cbn in Hp.
  destruct (IH x ux h' Eux Hp) as (u' & E' & Hc' & Hs'). exists u'. split_and!; [done|congruence|].
  pose proof (next_rank (unit_info s) (wf_lanes _ WF) h _ _ (known_info _ _ E)) as Hn.
  rewrite (next_of_unit _ _ E), Ex in Hn. destruct Hn as [_ Hn]. rewrite (known_rank _ _ Eux) in Hn.
  injection Hn as Hn. lia.
Qed.

Lemma lane_le_refl h : lane_le s h h.
Proof. by exists 0%nat. Qed.

Lemma lane_le_trans h1 h2 h3 : lane_le s h1 h2 -> lane_le s h2 h3 -> lane_le s h1 h3.
Proof. intros [n Hn] [m Hm]. exists (m + n)%nat. by rewrite pred_n_add, Hm. Qed.

Lemma lane_le_previous h u h' : units s !! h = Some u ->
  lane_le s h' h <-> h' = h \/ exists x, Unit_previous u = Some x /\ lane_le s h' x.
Proof.
  intros E. split.
  - intros [[|n] Hn]; cbn in Hn; [left; congruence|right]. rewrite (next_of_unit _ _ E) in Hn.
    destruct (Unit_previous u) as [x|]; [|done]. exists x. split; [done|]. by exists n.
  - intros [->|(x & Ex & n & Hn)]; [apply lane_le_refl|]. exists (S n). cbn.
    by rewrite (next_of_unit _ _ E), Ex.
Qed.

Lemma lane_le_seq h h' u u' : lane_le s h' h -> units s !! h = Some u -> units s !! h' = Some u' ->
  creator u' = creator u /\ seq_number u' <= seq_number u /\
  (seq_number u' = seq_number u -> h' = h).
Proof.
  intros [n Hn] E E'. destruct (pred_known n h u h' E Hn) as (u'' & E'' & Hc & Hs).
  rewrite E' in E''. injection E'' as <-. split_and!; [done|lia|]. intros Heq.
  assert (n = 0%nat) as -> by lia. by injection Hn.
Qed.

Lemma lane_le_known h h' : lane_le s h' h -> known s h -> known s h'.
Proof. intros [n Hn] [u E]. destruct (pred_known n h u h' E Hn) as (u' & E' & _). by exists u'. Qed.

Lemma lane_le_antisym h h' : known s h -> lane_le s h h' -> lane_le s h' h -> h = h'.
Proof.
  intros K L L'. pose proof (lane_le_known _ _ L' K) as [u' E']. destruct K as [u E].
  destruct (lane_le_seq h' h u' u L E' E) as (_ & ? & Heq).
  destruct (lane_le_seq h h' u u' L' E E') as (_ & ? & _). apply Heq. lia.
Qed.

(** Two members of one swimlane are comparable. *)
Lemma lane_le_total h h1 h2 : lane_le s h1 h -> lane_le s h2 h -> lane_le s h1 h2 \/ lane_le s h2 h1.
Proof.
  intros [n1 H1] [n2 H2]. destruct (Nat.le_ge_cases n1 n2) as [Hle|Hle].
  - right. exists (n2 - n1)%nat. replace n2 with (n1 + (n2 - n1))%nat in H2 by lia.
    rewrite pred_n_add, H1 in H2. exact H2.
  - left. exists (n1 - n2)%nat. replace n1 with (n2 + (n1 - n2))%nat in H1 by lia.
    rewrite pred_n_add, H2 in H1. exact H1.
Qed.

Lemma at_rank_lane l ul h u : units s !! l = Some ul -> units s !! h = Some u ->
  at_rank (unit_info s) l (seq_number u) = Some h <-> lane_le s h l.
Proof.
  intros El Eh. unfold at_rank. rewrite (known_rank _ _ El). split.
  - case_match; [|done]. intros Hp. by eexists.
  - intros [n Hn]. destruct (pred_known n l ul h El Hn) as (u' & E' & _ & Hs).
    rewrite Eh in E'. injection E' as <-. rewrite (proj2 (Z.leb_le _ _)) by lia.
    rewrite <- Hn. f_equal. lia.
Qed.

(** *** What panoramas see *)

(** [Panorama::sees_correct] as a pure function. *)
Definition sees_in p h : bool :=
  match units s !! h with
  | None => false
  | Some u =>
      match p !! creator u ≫= obs_correct with
      | None => false
      | Some l => bool_decide (at_rank (unit_info s) l (seq_number u) = Some h)
      end
  end.

(** Every unit a panorama cites is known. *)
Definition cites_known p : Prop := forall idx h, p !! idx = Some (ObsCorrect h) -> known s h.

Lemma pan_sees_correct_eq {E} p h : cites_known p -> known s h ->
  pan_sees_correct (E:=E) s p h = Ok (sees_in p h).
Proof.
  intros Kp [u Eu]. unfold pan_sees_correct, sees_in, st_unit, maybe_unit. rewrite Eu. cbn.
  destruct (p !! creator u) as [[|l|]|] eqn:Ep; cbn; try done.
  destruct (Kp _ _ Ep) as [ul El]. pose proof (seq_range _ _ Eu).
  by rewrite (find_in_swimlane_eq l ul) by (done || lia).
Qed.

Lemma sees_in_spec p h u : cites_known p -> units s !! h = Some u ->
  sees_in p h = true <-> exists l, p !! creator u = Some (ObsCorrect l) /\ lane_le s h l.
Proof.
  intros Kp Eu. unfold sees_in. rewrite Eu.
  destruct (p !! creator u) as [[|l|]|] eqn:Ep; cbn; try (split; [done|naive_solver]).
  destruct (Kp _ _ Ep) as [ul El]. rewrite bool_decide_eq_true, (at_rank_lane l ul h u El Eu).
  naive_solver.
Qed.

Lemma unit_cites_known h u : units s !! h = Some u -> cites_known (u_panorama u).
Proof.
  intros E idx h' Ep. destruct (wfu_entries _ _ _ (wf_units _ WF _ _ E) _ _ Ep) as (u' & ? & _).
  by exists u'.
Qed.

(** An observation of validator [idx]: known, and by that validator. *)
Definition obs_of idx o : Prop :=
  forall h, o = ObsCorrect h -> exists u, units s !! h = Some u /\ creator u = idx.

Lemma obs_geq_total {E} o o' :
  (forall h, o = ObsCorrect h -> known s h) -> (forall h, o' = ObsCorrect h -> known s h) ->
  exists b, obs_geq (E:=E) s o o' = Ok b.
Proof.
  intros Ko Ko'. destruct o as [|h|], o' as [|h'|]; cbn; eauto.
  case_bool_decide; eauto. destruct (Ko h eq_refl) as [u E'].
  unfold st_unit, maybe_unit. rewrite E'. cbn.
  rewrite pan_sees_correct_eq; eauto using unit_cites_known.
Qed.

Lemma obs_geq_spec {E} idx o o' b : obs_of idx o -> obs_of idx o' ->
  obs_geq (E:=E) s o o' = Ok b -> (b = true <-> obs_le s o' o).
Proof.
  intros Ko Ko' Hg. destruct o as [|h|], o' as [|h'|]; cbn in *; simplify_eq; try done.
  destruct (Ko h eq_refl) as (u & Eu & Hc). destruct (Ko' h' eq_refl) as (u' & Eu' & Hc').
  case_bool_decide as Eh; [injection Hg as <-; subst h'; split; [intros _; apply lane_le_refl|done]|].
  unfold st_unit, maybe_unit in Hg. rewrite Eu in Hg. cbn in Hg.
  rewrite pan_sees_correct_eq in Hg; eauto using unit_cites_known; [|by eexists].
  injection Hg as <-. rewrite (sees_in_spec _ h' u') by eauto using unit_cites_known.
  rewrite (lane_le_previous h u h' Eu), Hc', <- Hc, (wfu_own _ _ _ (wf_units _ WF _ _ Eu)).
  split.
  - intros (l & El & Hl). destruct (Unit_previous u) as [x|]; [|done].
    injection El as ->. right. eauto.
  - intros [->|(x & -> & Hx)]; [done|]. eauto.
Qed.

Lemma obs_le_refl o : obs_le s o o.
Proof. destruct o; cbn; [done|apply lane_le_refl|done]. Qed.

Lemma obs_le_trans o1 o2 o3 : obs_le s o1 o2 -> obs_le s o2 o3 -> obs_le s o1 o3.
Proof. destruct o1, o2, o3; cbn; try done. apply lane_le_trans. Qed.

Lemma pan_le_refl p : pan_le s p p.
Proof. induction p; constructor; auto using obs_le_refl. Qed.

Lemma pan_le_trans p1 p2 p3 : pan_le s p1 p2 -> pan_le s p2 p3 -> pan_le s p1 p3.
Proof.
  intros L. revert p3. induction L as [|o1 o2 p1 p2 Ho L IH]; intros p3 L';
    inversion L'; subst; constructor; [by eapply obs_le_trans|by apply IH].
Qed.

(** [p] could be the panorama of a unit added next. *)
Record valid_pan p : Prop := {
  vp_len : length p = length (weights s);
  vp_entries idx h : p !! idx = Some (ObsCorrect h) ->
    exists u, units s !! h = Some u /\ creator u = idx /\ pan_le s (u_panorama u) p;
}.

Lemma unit_pan_valid h u : units s !! h = Some u -> valid_pan (u_panorama u).
Proof.
  intros E. destruct (wf_units _ WF _ _ E) as [L _ En _ _ _ _]. split; [done|].
  intros idx h' Ep. destruct (En idx h' Ep) as (u' & ? & ? & ? & _). by exists u'.
Qed.

Lemma valid_pan_cites p : valid_pan p -> cites_known p.
Proof. intros V idx h Ep. destruct (vp_entries _ V _ _ Ep) as (u & E & _). by exists u. Qed.

Lemma valid_pan_obs p idx o : valid_pan p -> p !! idx = Some o -> obs_of idx o.
Proof. intros V Ep h ->. destruct (vp_entries _ V _ _ Ep) as (u & E & Hc & _). by exists u. Qed.

Lemma elem_of_zip_lookup {A B} (l : list A) (k : list B) x y :
  (x, y) ∈ zip l k -> exists i, l !! i = Some x /\ k !! i = Some y.
Proof.
  intros [i Hi]%list_elem_of_lookup. apply lookup_zip_with_Some in Hi as (x' & y' & [= -> ->] & ? & ?).
  by exists i.
Qed.

Lemma all_res_total {E A} (f : A -> res E bool) l :
  (forall x, x ∈ l -> exists b, f x = Ok b) -> exists b, all_res f l = Ok b.
Proof.
  induction l as [|x l IH]; intros F; cbn; [by eexists|].
  destruct (F x) as [b ->]; [set_solver|]. cbn. destruct b; [apply IH; set_solver|by eexists].
Qed.

Lemma all_res_true {E A} (f : A -> res E bool) l :
  all_res f l = Ok true <-> forall x, x ∈ l -> f x = Ok true.
Proof.
  induction l as [|x l IH]; cbn; [split; [set_solver|done]|].
  split.
  - intros Ha. apply bind_Ok in Ha as ([] & Hx & Ha); [|done]. intros y [->|Hy]%elem_of_cons; [done|].
    by apply IH.
  - intros F. rewrite F by set_solver. cbn. apply IH. set_solver.
Qed.

Lemma pan_geq_total {E} p q : cites_known p -> cites_known q -> exists b, pan_geq (E:=E) s p q = Ok b.
Proof.
  intros Kp Kq. apply all_res_total. intros [o o'] (i & Hp & Hq)%elem_of_zip_lookup. cbn.
  apply obs_geq_total; intros h ->; eauto.
Qed.

Lemma pan_geq_spec {E} p q b :
  length p = length q -> (forall idx o, p !! idx = Some o -> obs_of idx o) ->
  (forall idx o, q !! idx = Some o -> obs_of idx o) ->
  pan_geq (E:=E) s p q = Ok b -> (b = true <-> pan_le s q p).
Proof.
  intros Hl Kp Kq Hg.
  assert (forall i o o', p !! i = Some o -> q !! i = Some o' ->
    obs_geq (E:=E) s o o' = Ok true <-> obs_le s o' o) as O.
  { intros i o o' Ho Ho'.
    destruct (obs_geq_total (E:=E) o o') as [b' Hb'].
    - intros h ->. destruct (Kp _ _ Ho h eq_refl) as (u & ? & _). by exists u.
    - intros h ->. destruct (Kq _ _ Ho' h eq_refl) as (u & ? & _). by exists u.
    - rewrite <- (obs_geq_spec i o o' b' (Kp _ _ Ho) (Kq _ _ Ho') Hb'), Hb'. naive_solver. }
  transitivity (pan_geq (E:=E) s p q = Ok true).
  { rewrite Hg. naive_solver. }
  unfold pan_geq, pan_le. rewrite all_res_true, Forall2_same_length_lookup. split.
  - intros F. split; [done|]. intros i o' o Hq Hp. apply (O i); [done..|].
    apply (F (o, o')). apply list_elem_of_lookup. exists i. apply lookup_zip_with_Some. eauto.
  - intros [_ F] [o o'] (i & Hp & Hq)%elem_of_zip_lookup. cbn. apply (O i); [done..|]. eauto.
Qed.

(** [Panorama::validate] accepts exactly the valid panoramas, and never panics once
    the units cited are known. *)
Lemma pan_validate_entries_Ok p l : pan_validate_entries s p l = Ok tt <->
  forall idx h, (idx, ObsCorrect h) ∈ l -> exists u, units s !! h = Some u /\ creator u = idx /\
    pan_geq (E:=UnitError) s p (u_panorama u) = Ok true.
Proof.
  induction l as [|[i o] l IH]; cbn [pan_validate_entries]; [split; [set_solver|done]|].
  destruct o as [|h|]; cbn [obs_correct mbind res_bind].
  - rewrite IH. split; intros F idx h' Hin; apply (F idx h'); [|set_solver].
    apply elem_of_cons in Hin as [|]; [done|set_solver].
  - rewrite bind_Ok. split.
    + intros ([] & Hx & Hl). apply bind_Ok in Hx as (u & Hu & Hx). apply expect_Ok in Hu.
      apply bind_Ok in Hx as ([] & Hc & Hx). apply fail_if_Ok, negb_false_iff, Nat.eqb_eq in Hc.
      apply bind_Ok in Hx as (b & Hb & Hx). apply fail_if_Ok, negb_false_iff in Hx. subst b.
      intros idx h' [[= -> ->]|Hin]%elem_of_cons; [by exists u|]. by apply (proj1 IH).
    + intros F. exists tt. split; [|apply IH; intros; apply F; set_solver].
      destruct (F i h) as (u & E & <- & Hg); [set_solver|].
      unfold st_unit, maybe_unit. rewrite E. cbn. rewrite Nat.eqb_refl. cbn. by rewrite Hg.
  - rewrite IH. split; intros F idx h' Hin; apply (F idx h'); [|set_solver].
    apply elem_of_cons in Hin as [|]; [done|set_solver].
Qed.

Lemma elem_of_enumerate {A} (l : list A) i x : (i, x) ∈ enumerate l <-> l !! i = Some x.
Proof.
  unfold enumerate. split.
  - intros (j & Hj & Hx)%elem_of_zip_lookup. apply lookup_seq in Hj as [-> _]. exact Hx.
  - intros Hx. apply list_elem_of_lookup. exists i. apply lookup_zip_with_Some. exists i, x.
    split_and!; [done| |done]. apply lookup_seq. split; [done|]. by eapply lookup_lt_Some.
Qed.

Lemma pan_validate_spec p : length p = length (weights s) ->
  pan_validate s p = Ok tt <-> valid_pan p.
Proof.
  intros Hl. unfold pan_validate. rewrite pan_validate_entries_Ok. split.
  - intros F.
    assert (forall idx o, p !! idx = Some o -> obs_of idx o) as Ko.
    { intros idx o Ep h ->. destruct (F idx h) as (u & ? & ? & _); [by apply elem_of_enumerate|].
      by exists u. }
    split; [done|]. intros idx h Ep.
    destruct (F idx h) as (u & E & Hc & Hg); [by apply elem_of_enumerate|]. exists u.
    split_and!; [done|done|]. eapply pan_geq_spec; [| | |exact Hg|done].
    + by rewrite (wfu_len _ _ _ (wf_units _ WF _ _ E)).
    + done.
    + intros. eapply valid_pan_obs; [by eapply unit_pan_valid|done].
  - intros V idx h Ep%elem_of_enumerate. destruct (vp_entries _ V _ _ Ep) as (u & E & Hc & Hle).
    exists u. split_and!; [done|done|].
    destruct (pan_geq_total (E:=UnitError) p (u_panorama u)) as [b Hb];
      [by apply valid_pan_cites|by eapply unit_cites_known|].
    rewrite Hb. f_equal. eapply pan_geq_spec; [| | |exact Hb|exact Hle].
    + by rewrite (wfu_len _ _ _ (wf_units _ WF _ _ E)).
    + intros. by eapply valid_pan_obs.
    + intros. eapply valid_pan_obs; [by eapply unit_pan_valid|done].
Qed.

End Searches.
End Invariant.
