(* ===== verification/HighwayTally.v ===== *)
(** * Tallies of votes

    A [Tally] stands for the list of votes that were added to it: the lemmas here
    say so for every operation of tallies.rs, whatever order the votes come in. *)

From S2P Require Import Prelude Highway HighwaySkip HighwayInv.

Local Open Scope Z_scope.

Section Tally.
Context {C : ConsensusContext}.
Implicit Types (b h : Hash) (w : Weight) (t : Tally) (P Q : Hash -> bool).

(** ** The order on (weight, hash) pairs *)

Definition pair_le (a b : Weight * Hash) : Prop := pair_max a b = b.

Lemma pair_max_cases (a b : Weight * Hash) : pair_max a b = a \/ pair_max a b = b.
Proof. unfold pair_max. repeat case_match; auto. Qed.

Lemma pair_le_alt (a b : Weight * Hash) :
  pair_le a b <-> a.1 < b.1 \/ (a.1 = b.1 /\ ord_cmp a.2 b.2 <> Gt).
Proof.
  destruct a as [w1 h1], b as [w2 h2]. unfold pair_le, pair_max; cbn.
  destruct (Z.compare_spec w1 w2) as [->|Hlt|Hgt].
  - destruct (ord_cmp h1 h2) eqn:E; [naive_solver lia..|]. split; [|naive_solver lia].
    intros [= ->]. by rewrite ord_cmp_refl in E.
  - naive_solver.
  - split; [intros [= -> ->]; lia|lia].
Qed.

Lemma pair_le_refl a : pair_le a a.
Proof. rewrite pair_le_alt. right. by rewrite ord_cmp_refl. Qed.

Lemma ord_le_trans h1 h2 h3 : ord_cmp h1 h2 <> Gt -> ord_cmp h2 h3 <> Gt -> ord_cmp h1 h3 <> Gt.
Proof.
  intros H12 H23. destruct (ord_cmp h1 h2) eqn:E1, (ord_cmp h2 h3) eqn:E2; try done.
  - apply ord_eq in E1 as ->. congruence.
  - apply ord_eq in E1 as ->. congruence.
  - apply ord_eq in E2 as ->. congruence.
  - by rewrite (ord_trans _ _ _ E1 E2).
Qed.

Lemma pair_le_trans (a b c : Weight * Hash) : pair_le a b -> pair_le b c -> pair_le a c.
Proof.
  rewrite !pair_le_alt. intros [?|[? ?]] [?|[? ?]]; [lia|lia|lia|]. right. split; [lia|].
  by eapply ord_le_trans.
Qed.

Lemma pair_max_ge (a b : Weight * Hash) : pair_le a (pair_max a b) /\ pair_le b (pair_max a b).
Proof.
  destruct (pair_max_cases a b) as [E|E].
  - split; [rewrite E; apply pair_le_refl|]. rewrite E. rewrite pair_le_alt.
    unfold pair_max in E. destruct (Z.compare_spec a.1 b.1) as [Hw|Hw|Hw].
    + right. split; [done|]. rewrite (ord_antisym a.2 b.2).
      destruct (ord_cmp a.2 b.2) eqn:Eh; cbn; try done. subst b. by rewrite ord_cmp_refl in Eh.
    + subst b. lia.
    + lia.
  - split; [|rewrite E; apply pair_le_refl]. rewrite E. exact E.
Qed.

Lemma pair_le_antisym (a b : Weight * Hash) : pair_le a b -> pair_le b a -> a = b.
Proof.
  destruct a as [w1 h1], b as [w2 h2]. rewrite !pair_le_alt. cbn.
  intros [?|[? Ha]] [?|[? Hb]]; [lia..|]. f_equal; [done|]. apply ord_eq.
  rewrite (ord_antisym h1 h2) in Hb. by destruct (ord_cmp h1 h2).
Qed.

(** ** Scores *)

(** The weight of the votes for the blocks that satisfy [P]. *)
Fixpoint score P (l : list (Hash * Weight)) : Z :=
  match l with
  | [] => 0
  | (b, w) :: l => (if P b then w else 0) + score P l
  end.
Definition has P (l : list (Hash * Weight)) : bool := existsb (fun e => P e.1) l.
Definition nonneg (l : list (Hash * Weight)) : Prop := Forall (fun e => 0 <= e.2) l.
Definition only b : Hash -> bool := fun b' => bool_decide (b' = b).
Definition anyb : Hash -> bool := fun _ => true.

(** Two lists of votes that no tally can tell apart. *)
Definition same_votes l l' : Prop :=
  (forall P, score P l = score P l') /\ forall P, has P l = has P l'.

#[export] Instance same_votes_equiv : Equivalence same_votes.
Proof.
  split; [by split|intros l l' [? ?]; by split|].
  intros l1 l2 l3 [S1 H1] [S2 H2]. split; intros P; [by rewrite S1|by rewrite H1].
Qed.

Lemma score_nonneg P l : nonneg l -> 0 <= score P l.
Proof. induction 1 as [|[b w] l Hw _ IH]; cbn in *; [lia|]. destruct (P b); lia. Qed.

Lemma score_le P Q l : nonneg l -> (forall b, P b = true -> Q b = true) -> score P l <= score Q l.
Proof.
  intros Hn HPQ. induction Hn as [|[b w] l Hw _ IH]; cbn in *; [lia|].
  destruct (P b) eqn:E; [rewrite (HPQ _ E); lia|]. destruct (Q b); lia.
Qed.

Lemma score_disjoint P Q R l : nonneg l -> (forall b, P b = true -> Q b = true -> False) ->
  (forall b, P b = true -> R b = true) -> (forall b, Q b = true -> R b = true) ->
  score P l + score Q l <= score R l.
Proof.
  intros Hn Hd HP HQ. induction Hn as [|[b w] l Hw _ IH]; cbn in *; [lia|].
  specialize (Hd b). destruct (P b) eqn:EP, (Q b) eqn:EQ; [naive_solver|..].
  - rewrite (HP _ EP). lia.
  - rewrite (HQ _ EQ). lia.
  - destruct (R b); lia.
Qed.

Lemma score_ext P Q l : (forall b, b ∈ l.*1 -> P b = Q b) -> score P l = score Q l.
Proof.
  induction l as [|[b w] l IH]; intros E; cbn; [done|]. rewrite E by (cbn; set_solver).
  rewrite IH; [done|]. intros b' Hb'. apply E. cbn. set_solver.
Qed.

Lemma has_ext P Q l : (forall b, P b = Q b) -> has P l = has Q l.
Proof. intros E. unfold has. induction l as [|[b w] l IH]; cbn; [done|]. by rewrite E, IH. Qed.

Lemma score_none P l : has P l = false -> score P l = 0.
Proof.
  induction l as [|[b w] l IH]; [done|]. unfold has. cbn. intros [E1 E2]%orb_false_iff.
  rewrite E1. by apply IH.
Qed.

Lemma score_app P l l' : score P (l ++ l') = score P l + score P l'.
Proof. induction l as [|[b w] l IH]; cbn; [done|]. rewrite IH. lia. Qed.

Lemma has_cons P b w l : has P ((b, w) :: l) = P b || has P l.
Proof. done. Qed.

Lemma has_app P l l' : has P (l ++ l') = has P l || has P l'.
Proof. apply existsb_app. Qed.

Lemma has_true P l : has P l = true <-> exists b w, (b, w) ∈ l /\ P b = true.
Proof.
  unfold has. rewrite existsb_exists. split.
  - intros ([b w] & Hin & HP). exists b, w. split; [by apply list_elem_of_In|done].
  - intros (b & w & Hin & HP). exists (b, w). split; [by apply list_elem_of_In|done].
Qed.

Lemma score_filter P Q l : score P (List.filter (fun e => Q e.1) l) = score (fun b => P b && Q b) l.
Proof.
  induction l as [|[b w] l IH]; cbn; [done|]. destruct (Q b) eqn:E; cbn; rewrite IH; [|by rewrite andb_false_r].
  by rewrite andb_true_r.
Qed.

Lemma has_filter P Q l : has P (List.filter (fun e => Q e.1) l) = has (fun b => P b && Q b) l.
Proof.
  unfold has. induction l as [|[b w] l IH]; cbn; [done|].
  destruct (Q b) eqn:E; cbn; rewrite IH; [by rewrite andb_true_r|by rewrite andb_false_r].
Qed.

Lemma score_map (f : Hash -> Hash) P l :
  score P ((fun e => (f e.1, e.2)) <$> l) = score (fun b => P (f b)) l.
Proof. induction l as [|[b w] l IH]; cbn; [done|]. by rewrite IH. Qed.

Lemma has_map (f : Hash -> Hash) P l :
  has P ((fun e => (f e.1, e.2)) <$> l) = has (fun b => P (f b)) l.
Proof. unfold has. induction l as [|[b w] l IH]; cbn; [done|]. by rewrite IH. Qed.

(** *** Scores of a vote map *)

Lemma score_insert P b w (m : list (Hash * Weight)) :
  score P (btree_insert b w m) = score P m + (if P b then w - default 0 (btree_get b m) else 0).
Proof.
  induction m as [|[b' w'] m IH]; cbn; [destruct (P b); cbn; lia|].
  destruct (ord_cmp b b') eqn:E; cbn.
  - apply ord_eq in E as <-. destruct (P b); lia.
  - destruct (P b); lia.
  - rewrite IH. lia.
Qed.

Lemma has_insert P b w (m : list (Hash * Weight)) : has P (btree_insert b w m) = P b || has P m.
Proof.
  unfold has. induction m as [|[b' w'] m IH]; cbn; [done|]. destruct (ord_cmp b b') eqn:E; cbn.
  - apply ord_eq in E as <-. by destruct (P b).
  - done.
  - rewrite IH. by destruct (P b), (P b').
Qed.

Lemma score_fresh b (m : list (Hash * Weight)) :
  Forall (fun e => ord_lt b e.1) m -> score (only b) m = 0.
Proof.
  induction 1 as [|[b' w'] m Hb _ IH]; cbn; [done|]. rewrite IH. unfold only.
  rewrite bool_decide_eq_false_2; [lia|]. intros ->. cbn in Hb. unfold ord_lt in Hb.
  by rewrite ord_cmp_refl in Hb.
Qed.

Lemma score_get b (m : list (Hash * Weight)) :
  btree_sorted m -> score (only b) m = default 0 (btree_get b m).
Proof.
  induction m as [|[b' w'] m IH]; cbn; [done|]. intros [Hb Hs]. unfold only at 1.
  destruct (ord_cmp b b') eqn:E.
  - apply ord_eq in E as ->. rewrite bool_decide_eq_true_2, score_fresh by done. cbn. lia.
  - rewrite bool_decide_eq_false_2 by (intros ->; by rewrite ord_cmp_refl in E).
    rewrite score_fresh; [done|]. eapply Forall_impl; [exact Hb|]. intros [k ?] Hk. by eapply ord_trans.
  - rewrite bool_decide_eq_false_2 by (intros ->; by rewrite ord_cmp_refl in E).
    rewrite IH by done. lia.
Qed.

Lemma score_split A B D l :
  (forall b, b ∈ l.*1 -> A b && B b = false /\ A b || B b = D b) ->
  score A l + score B l = score D l /\ has A l || has B l = has D l.
Proof.
  induction l as [|[b w] l IH]; intros F; [done|]. rewrite !has_cons. cbn [score].
  destruct (F b) as [F1 F2]; [cbn; set_solver|].
  destruct IH as [IH1 IH2]; [intros b' Hb'; apply F; cbn; set_solver|].
  rewrite <- IH2, <- F2. split; [|by destruct (A b), (B b), (has A l), (has B l)].
  destruct (A b), (B b); cbn in *; try done; lia.
Qed.

Lemma Weight_sum_eq {E} (l : list Weight) : Forall (Z.le 0) l -> foldr Z.add 0 l <= uint_max 64 ->
  Weight_sum (E:=E) l = Ok (foldr Z.add 0 l).
Proof.
  unfold Weight_sum.
  enough (forall acc, 0 <= acc -> Forall (Z.le 0) l -> acc + foldr Z.add 0 l <= uint_max 64 ->
    fold_res (E:=E) u64_add acc l = Ok (acc + foldr Z.add 0 l)) as X.
  { intros Hn Hf. rewrite X; [f_equal; lia|lia|done|lia]. }
  induction l as [|w l IH]; intros acc Ha Hn Hf; cbn in *; [f_equal; lia|].
  inversion Hn as [|? ? Hw Hn']; subst.
  assert (0 <= foldr Z.add 0 l) by (clear -Hn'; induction Hn'; cbn; lia).
  assert (u64_add (E:=E) acc w = Ok (acc + w)) as ->.
  { unfold u64_add, plain_add, checked_add. by rewrite (proj2 (Z.leb_le _ _)) by lia. }
  cbn. rewrite IH by (done || lia). f_equal. lia.
Qed.

Lemma score_any_sum (l : list (Hash * Weight)) : score anyb l = foldr Z.add 0 l.*2.
Proof. induction l as [|[b w] l IH]; cbn; [done|]. by rewrite IH. Qed.

(** ** What a tally stands for *)

Record trep (l : list (Hash * Weight)) t : Prop := {
  tr_same : same_votes (votes t) l;
  tr_sorted : btree_sorted (votes t);
  tr_nonneg : nonneg (votes t);
  tr_key : has (only (max_bhash t)) l = true;
  tr_max_w : max_w t = score (only (max_bhash t)) l;
  tr_max b : has (only b) l = true -> pair_le (score (only b) l, b) (tally_max t);
}.

Definition fits (l : list (Hash * Weight)) : Prop := score anyb l <= uint_max 64.

Lemma trep_same l l' t : same_votes l l' -> trep l t -> trep l' t.
Proof.
  intros E [Ts So Nn Ke Mw Mx]. pose proof E as [Es Eh].
  split; [by rewrite Ts|done|done|by rewrite <- Eh|by rewrite <- Es|].
  intros b. rewrite <- Eh, <- Es. apply Mx.
Qed.

Lemma has_only_score P b l : has (only b) l = true -> P b = true -> has P l = true.
Proof.
  rewrite !has_true. intros (b' & w & Hin & Hb) HP. exists b', w. split; [done|].
  unfold only in Hb. by apply bool_decide_eq_true in Hb as ->.
Qed.

Lemma trep_new b w : 0 <= w -> trep [(b, w)] (Tally_new b w).
Proof.
  intros Hw. split; cbn.
  - by split.
  - by repeat constructor.
  - by repeat constructor.
  - unfold only. by rewrite bool_decide_eq_true_2.
  - unfold only, max_w, max_bhash. cbn. rewrite bool_decide_eq_true_2 by done. lia.
  - intros b'. unfold only. case_bool_decide; [subst b'|done]. intros _.
    rewrite Z.add_0_r. apply pair_le_refl.
Qed.

Lemma same_votes_insert b w (m l : list (Hash * Weight)) : btree_sorted m -> same_votes m l ->
  same_votes (btree_insert b (default 0 (btree_get b m) + w) m) ((b, w) :: l).
Proof.
  intros Hs [Es Eh]. split; intros P.
  - rewrite score_insert. cbn. rewrite Es. destruct (P b); lia.
  - rewrite has_insert, Eh. done.
Qed.

Lemma Tally_add_rep {E} l t b w : trep l t -> 0 <= w -> fits ((b, w) :: l) ->
  exists t', Tally_add (E:=E) t b w = Ok t' /\ trep ((b, w) :: l) t'.
Proof.
  intros T Hw Hf. pose proof T as [Ts So Nn Ke Mw Mx]. pose proof Ts as [Es Eh].
  pose proof (score_get b (votes t) So) as Hg. rewrite Es in Hg.
  assert (nonneg l -> score (only b) l <= score anyb l) as Hle by (intros; by apply score_le).
  assert (0 <= score (only b) l <= score anyb l) as Hr.
  { rewrite <- !Es. split; [by apply score_nonneg|by apply score_le]. }
  unfold Tally_add, u64_add, plain_add, checked_add. rewrite <- Hg.
  unfold fits in Hf. cbn in Hf. rewrite (proj2 (Z.leb_le _ _)) by lia. cbn [expect mbind res_bind].
  eexists. split; [reflexivity|].
  assert (same_votes (btree_insert b (score (only b) l + w) (votes t)) ((b, w) :: l)) as Hsame
    by (rewrite Hg; by apply same_votes_insert).
  set (w' := score (only b) l + w) in *.
  assert (score (only b) ((b, w) :: l) = w') as Hb.
  { cbn. unfold only at 1. rewrite bool_decide_eq_true_2 by done. lia. }
  assert (forall b', b' <> b -> score (only b') ((b, w) :: l) = score (only b') l) as Hne.
  { intros b' ?. cbn. unfold only at 1. rewrite bool_decide_eq_false_2 by done. lia. }
  destruct (pair_max_ge (w', b) (tally_max t)) as [G1 G2].
  assert (forall b', has (only b') ((b, w) :: l) = true ->
    pair_le (score (only b') ((b, w) :: l), b') (pair_max (w', b) (tally_max t))) as Hmax.
  { intros b' Hb'. destruct (decide (b' = b)) as [->|Hn]; [by rewrite Hb|]. rewrite (Hne _ Hn).
    eapply pair_le_trans; [|exact G2]. apply Mx. cbn in Hb'. unfold only in Hb' at 1.
    by rewrite bool_decide_eq_false_2 in Hb' by done. }
  split; cbn [votes tally_max max_w max_bhash]; [done|by apply btree_insert_sorted| |..|exact Hmax].
  - apply btree_insert_Forall; [cbn; lia|done].
  - unfold max_bhash. cbn [tally_max]. rewrite has_cons.
    destruct (pair_max_cases (w', b) (tally_max t)) as [->| ->]; cbn [snd].
    + unfold only at 1. by rewrite bool_decide_eq_true_2.
    + change (snd (tally_max t)) with (max_bhash t). rewrite Ke. apply orb_true_r.
  - unfold max_w, max_bhash. cbn [tally_max].
    destruct (pair_max_cases (w', b) (tally_max t)) as [Em|Em]; rewrite Em; cbn [fst snd]; [done|].
    change (snd (tally_max t)) with (max_bhash t). change (fst (tally_max t)) with (max_w t).
    destruct (decide (max_bhash t = b)) as [Eb|Hn]; [|rewrite Hne; done].
    rewrite Eb, Hb. rewrite Em in G1. apply pair_le_alt in G1. cbn in G1.
    change (snd (tally_max t)) with (max_bhash t) in G1. change (fst (tally_max t)) with (max_w t) in G1.
    rewrite Mw, Eb in *. subst w'. lia.
Qed.

Lemma fits_cons_inv b w l : 0 <= w -> fits ((b, w) :: l) -> fits l.
Proof. unfold fits. cbn. lia. Qed.

Lemma same_votes_cons_app b w l l' : same_votes (l' ++ (b, w) :: l) (((b, w) :: l') ++ l).
Proof.
  split; intros P.
  - cbn. rewrite !score_app. cbn. lia.
  - rewrite !has_app, !has_cons. by destruct (has P l'), (P b).
Qed.

Lemma fits_same l l' : same_votes l l' -> fits l -> fits l'.
Proof. intros [Es _]. unfold fits. by rewrite Es. Qed.

Lemma fits_app_r l l' : nonneg l -> fits (l ++ l') -> fits l'.
Proof. intros Hn. unfold fits. rewrite score_app. pose proof (score_nonneg anyb l Hn). lia. Qed.

Lemma Tally_extend_rep {E} l' : forall l t, trep l t -> nonneg l' -> fits (l' ++ l) ->
  exists t', Tally_extend (E:=E) t l' = Ok t' /\ trep (l' ++ l) t'.
Proof.
  unfold Tally_extend. induction l' as [|[b w] l' IH]; intros l t T Hn Hf; cbn [fold_res app].
  { exists t. done. }
  inversion Hn as [|? ? Hw Hn']; subst. cbn in Hw. cbn [fst snd].
  pose proof (same_votes_cons_app b w l l') as Hsame.
  destruct (Tally_add_rep (E:=E) l t b w T Hw) as (t1 & -> & T1).
  { apply fits_app_r with l'; [done|]. by eapply fits_same; [symmetry; exact Hsame|]. }
  destruct (IH ((b, w) :: l) t1 T1 Hn') as (t' & Ht' & T').
  { by eapply fits_same; [symmetry; exact Hsame|]. }
  exists t'. split; [done|]. by eapply trep_same.
Qed.

Lemma same_votes_app_comm l l' : same_votes (l ++ l') (l' ++ l).
Proof.
  split; intros P; [rewrite !score_app; lia|]. rewrite !has_app. apply orb_comm.
Qed.

Lemma Tally_try_from_iter_rep {E} l : nonneg l -> fits l ->
  exists o, Tally_try_from_iter (E:=E) l = Ok o /\
    match o with Some t => trep l t | None => l = [] end.
Proof.
  intros Hn Hf. destruct l as [|[b w] l]; cbn; [by exists None|].
  inversion Hn as [|? ? Hw Hn']; subst. cbn in Hw.
  pose proof (same_votes_app_comm l [(b, w)]) as Hsame.
  destruct (Tally_extend_rep (E:=E) l [(b, w)] (Tally_new b w)) as (t & -> & T);
    [by apply trep_new|done| |].
  { by eapply fits_same; [symmetry; exact Hsame|]. }
  exists (Some t). split; [done|]. by eapply trep_same; [exact Hsame|].
Qed.

Lemma Tally_weight_rep {E} l t : trep l t -> fits l -> Tally_weight (E:=E) t = Ok (score anyb l).
Proof.
  intros [[Es _] _ Nn _ _ _] Hf. unfold Tally_weight, fits in *. rewrite <- Es, score_any_sum in *.
  apply Weight_sum_eq; [|done]. clear -Nn. induction Nn; cbn; constructor; done.
Qed.

Lemma trep_filter {E} l t (Q : Hash -> bool) (f : Hash * Weight -> res E bool) :
  trep l t -> fits l -> (forall e, e ∈ votes t -> f e = Ok (Q e.1)) ->
  exists o, (l ← filter_res f (votes t); Tally_try_from_iter l) = Ok o /\
    match o with
    | Some t' => trep (List.filter (fun e => Q e.1) l) t'
    | None => List.filter (fun e => Q e.1) l = []
    end.
Proof.
  intros [[Es Eh] _ Nn _ _ _] Hf F.
  rewrite (filter_res_Ok _ (fun e => Q e.1)) by done. cbn [mbind res_bind].
  set (l' := List.filter _ (votes t)).
  assert (same_votes l' (List.filter (fun e => Q e.1) l)) as Hsame.
  { split; intros P; subst l'; [by rewrite !score_filter|by rewrite !has_filter]. }
  assert (nonneg l') as Hn.
  { apply Forall_forall. intros e He. apply list_elem_of_In, filter_In in He as [He _].
    unfold nonneg in Nn. rewrite Forall_forall in Nn. apply Nn. by apply list_elem_of_In. }
  destruct (Tally_try_from_iter_rep (E:=E) l' Hn) as (o & -> & Ho).
  { unfold fits in *. subst l'. rewrite score_filter. etrans; [|exact Hf]. rewrite <- Es.
    by apply score_le. }
  exists o. split; [done|]. destruct o as [t'|]; [by eapply trep_same|].
  rewrite Ho in Hsame. destruct Hsame as [_ Hh]. specialize (Hh anyb). cbn in Hh.
  by destruct (List.filter _ l).
Qed.

End Tally.
