(* ===== verification/HighwayFork.v ===== *)
(** * The fork choice

    [fork_choice] walks down from the highest votes and stops early at majorities.
    This file states the rule its comment gives, level by level from the bottom
    (the greediest heaviest observed sub-tree), and proves that the function
    computes it and terminates, as long as no validator has weight zero. *)

From S2P Require Import Prelude Highway HighwaySkip HighwayInv HighwayTally.

Local Open Scope Z_scope.

Section Ghost.
Context {C : ConsensusContext}.
Variable s : State.
Implicit Types (b h : Hash) (w : Weight) (l : list (Hash * Weight)).

(** The ancestor of [b] at height [k]; [b] itself at its own height. *)
Definition anc b (k : Z) : option Hash := at_rank (block_info s) b k.
Definition ht b : Z := default 0 (rank_of (block_info s) b).

(** ** The rule *)

(** The votes of the validators a panorama sees as correct. *)
Definition correct_votes (pan : Panorama) : list (Hash * Weight) :=
  omap (fun e => match obs_correct e.1 ≫= (units s !!.) with
                 | Some u => Some (u_block u, e.2)
                 | None => None
                 end) (zip pan (weights s)).

(** A vote for a block counts for the block and its ancestors. *)
Definition supports b : Hash -> bool := fun v => bool_decide (anc v (ht b) = Some b).
Definition support l b : Z := score (supports b) l.

(** The blocks to choose from above [parent], or at height 0: those with any votes. *)
Definition candidate l (parent : option Hash) b : Prop :=
  (exists blk, blocks s !! b = Some blk /\ Block_parent blk = parent) /\ has (supports b) l = true.

(** The candidate with the most support, and the greatest hash if there is a tie. *)
Definition heaviest l parent b : Prop :=
  candidate l parent b /\
  forall b', candidate l parent b' -> pair_le (support l b', b') (support l b, b).

Inductive ghost l : Hash -> Prop :=
| ghost_bottom b : heaviest l None b -> ghost l b
| ghost_up p b : ghost l p -> heaviest l (Some p) b -> ghost l b.

Definition is_fork_choice l b : Prop := ghost l b /\ forall b', ~ candidate l (Some b) b'.

(** ** Ancestors *)

Hypothesis WF : wf s.
Hypothesis SM : small s.

Definition block_known b : Prop := is_Some (blocks s !! b).

Lemma block_rank b : block_known b -> rank_of (block_info s) b = Some (ht b) /\ 0 <= ht b.
Proof.
  intros [blk E]. unfold ht, rank_of, block_info. rewrite E. cbn. split; [done|].
  apply (height_range s WF SM b blk E).
Qed.

Lemma rank_known b r : rank_of (block_info s) b = Some r -> block_known b /\ ht b = r.
Proof.
  unfold ht. intros E. rewrite E. split; [|done]. unfold rank_of, block_info, block_known in *.
  destruct (blocks s !! b); [by eexists|done].
Qed.

Lemma ht_bound b : block_known b -> ht b < Z.of_nat (size (blocks s)).
Proof.
  intros [blk E]. unfold ht, rank_of, block_info. rewrite E. cbn.
  apply (height_range s WF SM b blk E).
Qed.

Lemma anc_self b : block_known b -> anc b (ht b) = Some b.
Proof. intros K. apply at_rank_self, (block_rank _ K). Qed.

Lemma anc_total b k : block_known b -> 0 <= k <= ht b ->
  exists x, anc b k = Some x /\ block_known x /\ ht x = k.
Proof.
  intros K Hk. destruct (block_rank b K) as [E _].
  destruct (at_rank_total _ (wf_chains _ WF) b _ k E Hk) as (x & Hx & Hr).
  exists x. split; [done|]. by apply rank_known.
Qed.

Lemma anc_Some b k x : anc b k = Some x -> 0 <= k -> block_known b /\ k <= ht b /\ block_known x /\ ht x = k.
Proof.
  intros Hx Hk. destruct (at_rank_Some _ (wf_chains _ WF) b k x Hx) as (r & E & Hle & Hr).
  destruct (rank_known _ _ E) as [? <-]. destruct (rank_known _ _ (Hr Hk)). done.
Qed.

Lemma anc_trans b k x j : anc b k = Some x -> 0 <= j <= k -> anc x j = anc b j.
Proof. apply (at_rank_trans _ (wf_chains _ WF)). Qed.

Lemma parent_anc b blk : blocks s !! b = Some blk ->
  Block_parent blk = if decide (0 < ht b) then anc b (ht b - 1) else None.
Proof.
  intros E. destruct (block_rank b) as [Hr Hn]; [by eexists|].
  assert (next_of (block_info s) b = Block_parent blk) as Hnext.
  { unfold next_of, block_info. by rewrite E. }
  case_decide.
  - unfold anc. by rewrite (at_rank_next _ b (ht b)).
  - pose proof (next_rank _ (wf_chains _ WF) b (height blk) (skip_idx blk)) as Hx.
    unfold block_info in Hx at 1. rewrite E in Hx. specialize (Hx eq_refl). rewrite Hnext in Hx.
    destruct (Block_parent blk); [|done]. destruct Hx as [Hpos _].
    unfold ht, rank_of, block_info in *. rewrite E in *. cbn in *. lia.
Qed.

Lemma supports_spec b v : block_known b ->
  supports b v = true <-> block_known v /\ ht b <= ht v /\ anc v (ht b) = Some b.
Proof.
  intros K. unfold supports. rewrite bool_decide_eq_true. destruct (block_rank b K) as [_ Hn].
  split; [|by intros (_ & _ & ?)]. intros Hs. destruct (anc_Some _ _ _ Hs Hn) as (? & ? & _). done.
Qed.

(** Blocks at the same height share no votes. *)
Lemma supports_disjoint b b' v : block_known b -> block_known b' -> ht b = ht b' -> b <> b' ->
  supports b v = true -> supports b' v = true -> False.
Proof.
  intros K K' Hh Hne Hs Hs'. apply (supports_spec b v K) in Hs as (_ & _ & Hs).
  apply (supports_spec b' v K') in Hs' as (_ & _ & Hs'). rewrite Hh, Hs' in Hs. congruence.
Qed.

(** ** Votes moved down to a height *)

Definition proj (k : Z) l : list (Hash * Weight) :=
  omap (fun e => match anc e.1 k with Some a => Some (a, e.2) | None => None end) l.
Definition lift (k : Z) (P : Hash -> bool) : Hash -> bool :=
  fun b => match anc b k with Some a => P a | None => false end.
Definition at_height (k : Z) l : list (Hash * Weight) := List.filter (fun e => ht e.1 =? k) l.

(** Votes for known blocks, with positive weights. *)
Definition votes_ok l : Prop := Forall (fun e => block_known e.1 /\ 0 < e.2) l.

Lemma votes_ok_nonneg l : votes_ok l -> nonneg l.
Proof. intros V. eapply Forall_impl; [exact V|]. cbn. intros e [_ ?]. lia. Qed.

Lemma votes_ok_known l b : votes_ok l -> b ∈ l.*1 -> block_known b.
Proof.
  unfold votes_ok. rewrite Forall_forall. intros V (e & -> & He)%list_elem_of_fmap.
  apply (V _ He).
Qed.

Lemma proj_cons k b w l :
  proj k ((b, w) :: l) = match anc b k with Some a => (a, w) :: proj k l | None => proj k l end.
Proof. unfold proj. cbn. by destruct (anc b k). Qed.

Lemma score_proj P k l : score P (proj k l) = score (lift k P) l.
Proof.
  unfold lift. induction l as [|[b w] l IH]; [done|]. rewrite proj_cons. cbn [score].
  destruct (anc b k); cbn [score]; by rewrite IH.
Qed.

Lemma has_proj P k l : has P (proj k l) = has (lift k P) l.
Proof.
  unfold lift. induction l as [|[b w] l IH]; [done|]. rewrite proj_cons, has_cons.
  destruct (anc b k); [rewrite has_cons|]; by rewrite IH.
Qed.

Lemma nonneg_proj k l : nonneg l -> nonneg (proj k l).
Proof.
  unfold nonneg. rewrite !Forall_forall. intros Hn e (e0 & Hin & He)%list_elem_of_omap.
  destruct (anc e0.1 k); [|done]. injection He as <-. exact (Hn _ Hin).
Qed.

Lemma fits_proj k l : nonneg l -> fits l -> fits (proj k l).
Proof. unfold fits. intros Hn Hf. rewrite score_proj. etrans; [|exact Hf]. by apply score_le. Qed.

Lemma support_proj l b : score (only b) (proj (ht b) l) = support l b.
Proof.
  rewrite score_proj. apply score_ext. intros v _. unfold lift, only, supports.
  destruct (anc v (ht b)); [|done]. repeat case_bool_decide; congruence.
Qed.

Lemma has_support_proj l b : has (only b) (proj (ht b) l) = has (supports b) l.
Proof.
  rewrite has_proj. unfold has. induction l as [|[v w] l IH]; cbn; [done|]. rewrite IH. f_equal.
  unfold lift, only, supports. destruct (anc v (ht b)); [|done]. repeat case_bool_decide; congruence.
Qed.

Lemma has_proj_elem k l b : votes_ok l -> 0 <= k -> has (only b) (proj k l) = true ->
  block_known b /\ ht b = k /\ has (supports b) l = true.
Proof.
  intros V Hk Hh. pose proof Hh as Hh'. rewrite has_proj, has_true in Hh.
  destruct Hh as (v & w & Hin & Hl). unfold lift in Hl. destruct (anc v k) as [a|] eqn:Ea; [|done].
  unfold only in Hl. apply bool_decide_eq_true in Hl as ->.
  destruct (anc_Some _ _ _ Ea Hk) as (_ & _ & ? & <-). by rewrite <- has_support_proj.
Qed.

(** Parents of the votes one level up, and the votes of the level itself. *)
Definition par b : Hash := default b (next_of (block_info s) b).

Lemma anc_par b k : block_known b -> 0 <= k < ht b ->
  exists a, anc b (k + 1) = Some a /\ next_of (block_info s) a = Some (par a) /\ anc b k = Some (par a).
Proof.
  intros K Hk. destruct (anc_total b (k + 1) K) as (a & Ha & Ka & Hta); [lia|].
  exists a. split; [done|]. destruct (block_rank a Ka) as [Hr _].
  destruct (anc_total b k K) as (x & Hx & _); [lia|].
  assert (anc a k = Some x) as Hax by (rewrite (anc_trans b (k + 1) a k Ha); [done|lia]).
  unfold anc in Hax. replace k with (ht a - 1) in Hax by lia.
  rewrite at_rank_next in Hax by (done || lia).
  unfold par. rewrite Hax. done.
Qed.

Lemma proj_step k l : votes_ok l -> 0 <= k ->
  same_votes (at_height k l ++ ((fun e => (par e.1, e.2)) <$> proj (k + 1) l)) (proj k l).
Proof.
  intros V Hk.
  assert (forall P b, b ∈ l.*1 ->
    (P b && (ht b =? k)) && lift (k + 1) (fun b => P (par b)) b = false /\
    (P b && (ht b =? k)) || lift (k + 1) (fun b => P (par b)) b = lift k P b) as F.
  { intros P b Hb%votes_ok_known; [|done]. unfold lift. destruct (Z.eqb_spec (ht b) k) as [He|He].
    - destruct (anc b (k + 1)) eqn:E; [destruct (anc_Some _ _ _ E ltac:(lia)) as (_ & ? & _); lia|].
      rewrite <- He, anc_self by done. by destruct (P b).
    - rewrite andb_false_r. cbn. split; [done|]. destruct (decide (k < ht b)) as [Hlt|Hge].
      + destruct (anc_par b k) as (a & -> & _ & ->); [done|lia|done].
      + destruct (anc b (k + 1)) eqn:E1; [destruct (anc_Some _ _ _ E1 ltac:(lia)) as (_ & ? & _); lia|].
        destruct (anc b k) eqn:E2; [destruct (anc_Some _ _ _ E2 ltac:(lia)) as (_ & ? & _); lia|done]. }
  split; intros P.
  - rewrite score_app, score_map, !score_proj. unfold at_height. rewrite (score_filter P (fun b => ht b =? k)).
    by apply score_split, F.
  - rewrite has_app, has_map, !has_proj. unfold at_height. rewrite (has_filter P (fun b => ht b =? k)).
    by apply score_split, F.
Qed.

Lemma Tally_parents_rep {E} k l t : votes_ok l -> fits l -> 0 <= k -> trep (proj (k + 1) l) t ->
  exists t', Tally_parents (E:=E) s t = Ok t' /\ trep ((fun e => (par e.1, e.2)) <$> proj (k + 1) l) t'.
Proof.
  intros V Hf Hk T. pose proof T as [[Es Eh] _ Nn Ke _ _]. unfold Tally_parents.
  rewrite (map_res_Ok _ (fun e => (par e.1, e.2))).
  2: { intros [b w] Hin. cbn.
    assert (has (only b) (proj (k + 1) l) = true) as Hb.
    { rewrite <- Eh, has_true. exists b, w. split; [done|]. unfold only. by rewrite bool_decide_eq_true_2. }
    apply has_proj_elem in Hb as ([blk Eb] & Hh & _); [|done|lia].
    destruct (anc_par b k) as (a & Ha & Hn & _); [by eexists|lia|].
    rewrite <- Hh, anc_self in Ha by (by eexists). injection Ha as <-.
    unfold st_block, maybe_block. rewrite Eb. cbn.
    unfold next_of, block_info in Hn. rewrite Eb in Hn. cbn in Hn. unfold Block_parent. by rewrite Hn. }
  cbn [mbind res_bind].
  destruct (Tally_try_from_iter_rep (E:=E) ((fun e => (par e.1, e.2)) <$> votes t)) as (o & -> & Ho).
  { unfold nonneg in *. rewrite Forall_fmap. exact Nn. }
  { unfold fits. rewrite score_map, Es, score_proj. etrans; [|exact Hf].
    apply score_le; [by apply votes_ok_nonneg|done]. }
  destruct o as [t'|]; cbn.
  - exists t'. split; [done|]. eapply trep_same; [|exact Ho].
    split; intros P; [by rewrite !score_map|by rewrite !has_map].
  - apply fmap_nil_inv in Ho. rewrite <- Eh, Ho in Ke. done.
Qed.

(** ** Tallies by height *)

Definition tsrep l (ts : Tallies) : Prop :=
  btree_sorted ts /\
  forall k, match btree_get k ts with
            | Some t => trep (at_height k l) t
            | None => at_height k l = []
            end.

Lemma at_height_cons k b w l :
  at_height k ((b, w) :: l) = if ht b =? k then (b, w) :: at_height k l else at_height k l.
Proof. done. Qed.

Lemma nonneg_filter (Q : Hash -> bool) l : nonneg l -> nonneg (List.filter (fun e => Q e.1) l).
Proof.
  unfold nonneg. rewrite !Forall_forall. intros Hn e He. apply Hn.
  apply list_elem_of_In, filter_In in He as [He _]. by apply list_elem_of_In.
Qed.

Lemma fits_filter (Q : Hash -> bool) l : nonneg l -> fits l -> fits (List.filter (fun e => Q e.1) l).
Proof. unfold fits. intros Hn Hf. rewrite score_filter. etrans; [|exact Hf]. by apply score_le. Qed.

Lemma Tallies_add_rep {E} l ts b w : tsrep l ts -> nonneg l -> 0 <= w -> fits ((b, w) :: l) ->
  exists ts', Tallies_add (E:=E) ts (ht b) b w = Ok ts' /\ tsrep ((b, w) :: l) ts'.
Proof.
  intros [So T] Hn Hw Hf. unfold Tallies_add.
  assert (forall t, trep ((b, w) :: at_height (ht b) l) t ->
    tsrep ((b, w) :: l) (btree_insert (ht b) t ts)) as K.
  { intros t Ht. split; [by apply btree_insert_sorted|]. intros k.
    rewrite btree_get_insert, at_height_cons. unfold ord_cmp, Z_ord.
    destruct (Z.compare_spec k (ht b)) as [->|Hk|Hk]; [by rewrite Z.eqb_refl|..];
      rewrite (proj2 (Z.eqb_neq _ _)) by lia; apply T. }
  pose proof (T (ht b)) as Tb. destruct (btree_get (ht b) ts) as [t|].
  - destruct (Tally_add_rep (E:=E) _ t b w Tb Hw) as (t' & -> & Ht'); [|cbn; eauto].
    pose proof (fits_filter (fun v => ht v =? ht b) ((b, w) :: l)) as Hff. cbn in Hff.
    rewrite Z.eqb_refl in Hff. apply Hff; [by constructor|done].
  - cbn. eexists. split; [done|]. apply K. rewrite Tb. by apply trep_new.
Qed.

Lemma Tallies_from_iter_rep {E} l' : forall l ts, tsrep l ts -> nonneg l -> nonneg l' -> fits (l' ++ l) ->
  exists ts', fold_res (E:=E) (fun ts e => Tallies_add ts e.1.1 e.1.2 e.2) ts
                ((fun e => (ht e.1, e.1, e.2)) <$> l') = Ok ts' /\ tsrep (rev l' ++ l) ts'.
Proof.
  induction l' as [|[b w] l' IH]; intros l ts T Hn Hn' Hf; cbn [fmap list_fmap fold_res rev app fst snd].
  { by exists ts. }
  inversion Hn' as [|? ? Hw Hn'']; subst. cbn in Hw.
  pose proof (same_votes_cons_app b w l l') as Hsame.
  assert (fits (l' ++ (b, w) :: l)) as Hf' by (by eapply fits_same; [symmetry; exact Hsame|]).
  destruct (Tallies_add_rep (E:=E) l ts b w T Hn Hw) as (ts1 & -> & T1).
  { by apply fits_app_r with l'. }
  destruct (IH _ ts1 T1) as (ts' & Hts & T'); [by constructor|done|done|].
  exists ts'. split; [exact Hts|]. by rewrite <- app_assoc.
Qed.

Lemma same_votes_rev l : same_votes (rev l) l.
Proof.
  induction l as [|[b w] l [IH1 IH2]]; [done|]. split; intros P; cbn [rev].
  - rewrite score_app, IH1. cbn. lia.
  - rewrite has_app, IH2, !has_cons. cbn. destruct (P b), (has P l); done.
Qed.

Lemma has_any l : has anyb l = false <-> l = [].
Proof. by destruct l. Qed.

Lemma tsrep_same l l' ts : same_votes l l' -> tsrep l ts -> tsrep l' ts.
Proof.
  intros [Es Eh] [So T]. split; [done|]. intros k. specialize (T k).
  assert (same_votes (at_height k l) (at_height k l')) as Hk.
  { unfold at_height. split; intros P; [rewrite !(score_filter P (fun b => ht b =? k))
      |rewrite !(has_filter P (fun b => ht b =? k))]; auto. }
  destruct (btree_get k ts); [by eapply trep_same|]. apply has_any. destruct Hk as [_ Hk].
  rewrite <- Hk, T. done.
Qed.

(** Every entry is the tally of a height, and every vote has an entry. *)
Lemma tsrep_entry l ts k t : tsrep l ts -> (k, t) ∈ ts -> trep (at_height k l) t.
Proof.
  intros [So T] Hin. apply (btree_get_elem _ _ _ So) in Hin. specialize (T k). by rewrite Hin in T.
Qed.

Lemma tsrep_vote l ts b w : tsrep l ts -> (b, w) ∈ l -> exists t, (ht b, t) ∈ ts.
Proof.
  intros [So T] Hin. specialize (T (ht b)). destruct (btree_get (ht b) ts) as [t|] eqn:Eg.
  - exists t. by apply btree_get_elem.
  - assert ((b, w) ∈ at_height (ht b) l) as Hin'.
    { apply list_elem_of_In, filter_In. rewrite Z.eqb_refl. split; [by apply list_elem_of_In|done]. }
    rewrite T in Hin'. set_solver.
Qed.

Lemma tsrep_nil l ts : tsrep l ts -> ts = [] <-> l = [].
Proof.
  intros T. split; intros ->.
  - destruct l as [|[b w] l]; [done|]. destruct (tsrep_vote _ _ b w T) as (t & Ht); set_solver.
  - destruct ts as [|[k t] ts]; [done|].
    pose proof (tr_key _ _ (tsrep_entry _ _ k t T ltac:(set_solver))) as Hk. done.
Qed.

(** The total weight of the tallies. *)
Lemma at_height_sum l (ks : list Z) : NoDup ks -> (forall b, b ∈ l.*1 -> ht b ∈ ks) ->
  foldr Z.add 0 ((fun k => score anyb (at_height k l)) <$> ks) = score anyb l.
Proof.
  intros Hd. induction l as [|[b w] l IH]; intros Hk.
  { cbn. clear. induction ks; cbn; lia. }
  cbn [score]. rewrite <- IH by (intros b' Hb'; apply Hk; cbn; set_solver). clear IH.
  assert (ht b ∈ ks) as Hin by (apply Hk; cbn; set_solver). clear Hk.
  induction Hd as [|k ks Hnot Hd IH]; [set_solver|]. cbn [fmap list_fmap foldr].
  rewrite at_height_cons. destruct (Z.eqb_spec (ht b) k) as [<-|Hne].
  - cbn [score]. replace (foldr Z.add 0 ((fun k => score anyb (at_height k ((b, w) :: l))) <$> ks))
      with (foldr Z.add 0 ((fun k => score anyb (at_height k l)) <$> ks)); [cbn; lia|].
    f_equal. apply list_fmap_ext. intros i k Hik. rewrite at_height_cons.
    destruct (Z.eqb_spec (ht b) k) as [<-|]; [|done]. exfalso. apply Hnot. by eapply list_elem_of_lookup_2.
  - rewrite IH by set_solver. cbn. lia.
Qed.

Lemma btree_keys_NoDup (ts : Tallies) : btree_sorted ts -> NoDup ts.*1.
Proof.
  induction ts as [|[k t] ts IH]; cbn; [constructor|]. intros [Hk Hs]. constructor; [|by apply IH].
  intros (e & -> & He)%list_elem_of_fmap. rewrite Forall_forall in Hk. specialize (Hk _ He).
  unfold ord_lt in Hk. by rewrite ord_cmp_refl in Hk.
Qed.

Lemma tallies_total {E} l ts : tsrep l ts -> nonneg l -> fits l ->
  (ws ← map_res (fun e => Tally_weight (E:=E) e.2) ts; Weight_sum ws) = Ok (score anyb l).
Proof.
  intros T Hn Hf.
  rewrite (map_res_Ok _ (fun e => score anyb (at_height e.1 l))).
  2: { intros [k t] Hin. apply Tally_weight_rep; [by eapply tsrep_entry|].
    by apply (fits_filter (fun v => ht v =? k)). }
  cbn [mbind res_bind].
  assert (foldr Z.add 0 ((fun e => score anyb (at_height e.1 l)) <$> ts) = score anyb l) as Hsum.
  { rewrite <- (at_height_sum l ts.*1).
    - by rewrite <- list_fmap_compose.
    - apply btree_keys_NoDup, T.
    - intros b (e & -> & He)%list_elem_of_fmap. destruct e as [b w].
      destruct (tsrep_vote _ _ b w T He) as (t & Ht). apply list_elem_of_fmap. by exists (ht b, t). }
  rewrite <- Hsum. apply Weight_sum_eq; [|rewrite Hsum; exact Hf].
  apply Forall_fmap, Forall_true. intros e. apply score_nonneg.
  by apply (nonneg_filter (fun v => ht v =? e.1)).
Qed.

(** ** Why the early decision is right *)

(** The votes for blocks strictly above [c]; all votes if [c] is [None]. *)
Definition strict (c : option Hash) : Hash -> bool :=
  match c with None => anyb | Some c => fun v => (ht c <? ht v) && supports c v end.
Definition above (c : option Hash) l : list (Hash * Weight) := List.filter (fun e => strict c e.1) l.
Definition floor (c : option Hash) : Z := match c with None => 0 | Some c => ht c + 1 end.
Definition on_chain (c : option Hash) b : Prop :=
  match c with None => True | Some c => block_known c /\ anc b (ht c) = Some c end.

Section Decided.
Variable l0 : list (Hash * Weight).
Hypothesis V0 : votes_ok l0.
Hypothesis F0 : fits l0.
Variable c : option Hash.
Hypothesis G0 : match c with None => True | Some c => block_known c /\ ghost l0 c end.

Local Notation l := (above c l0).

Lemma floor_nonneg : 0 <= floor c.
Proof. destruct c as [c'|]; cbn; [|lia]. destruct (block_rank c' (proj1 G0)). lia. Qed.

Lemma above_ok : votes_ok l.
Proof.
  unfold votes_ok in *. rewrite Forall_forall in *. intros e He. apply V0.
  apply list_elem_of_In, filter_In in He as [He _]. by apply list_elem_of_In.
Qed.

Lemma above_fits : fits l.
Proof. apply fits_filter; [by apply votes_ok_nonneg|done]. Qed.

Lemma above_elem v w : (v, w) ∈ l -> (v, w) ∈ l0 /\ block_known v /\ strict c v = true.
Proof.
  intros He. apply list_elem_of_In, filter_In in He as [He Hs]. apply list_elem_of_In in He.
  split_and!; [done| |done]. apply (votes_ok_known l0); [done|]. apply list_elem_of_fmap. by exists (v, w).
Qed.

Lemma strict_chain v b : strict c v = true -> block_known b -> supports b v = true -> floor c <= ht b + 1 ->
  on_chain c b.
Proof.
  intros Hs Kb Hb Hf. destruct c as [c'|]; [|done]. cbn in *. destruct G0 as [Kc _]. split; [done|].
  apply andb_true_iff in Hs as [_ Hs]. apply (supports_spec c' v Kc) in Hs as (_ & _ & Hs).
  apply (supports_spec b v Kb) in Hb as (_ & _ & Hb). destruct (block_rank c' Kc) as [_ ?].
  rewrite (anc_trans v (ht b) b (ht c') Hb) by lia. done.
Qed.

Lemma chain_strict v b : on_chain c b -> block_known b -> floor c <= ht b -> supports b v = true ->
  strict c v = true.
Proof.
  intros Hc Kb Hf Hb. destruct c as [c'|]; [|done]. destruct Hc as [Kc Hc]. cbn in *.
  apply (supports_spec b v Kb) in Hb as (Kv & Hle & Hb). apply andb_true_iff. split; [lia|].
  apply (supports_spec c' v Kc). destruct (block_rank c' Kc) as [_ ?]. split_and!; [done|lia|].
  by rewrite <- (anc_trans v (ht b) b (ht c') Hb) by lia.
Qed.

(** Below the chosen chain nothing is lost by looking at the votes above [c] only. *)
Lemma support_above b : on_chain c b -> block_known b -> floor c <= ht b ->
  support l b = support l0 b /\ has (supports b) l = has (supports b) l0.
Proof.
  intros Hc Kb Hf. unfold support, above. rewrite score_filter, has_filter.
  assert (forall v, supports b v && strict c v = supports b v) as Eq.
  { intros v. destruct (supports b v) eqn:Es; [|done]. by rewrite (chain_strict v b). }
  split.
  - apply score_ext. intros v _. apply Eq.
  - by apply has_ext.
Qed.

Lemma has_chain b : block_known b -> floor c <= ht b + 1 -> has (supports b) l = true -> on_chain c b.
Proof.
  intros Kb Hf Hh. apply has_true in Hh as (v & w & Hin & Hs).
  destruct (above_elem v w Hin) as (_ & _ & Hst). by eapply strict_chain.
Qed.

Lemma parent_chain b p : block_known b -> anc b (ht b - 1) = Some p -> 0 < ht b -> floor c <= ht b ->
  (on_chain c b <-> on_chain c p).
Proof.
  intros Kb Hp Hpos Hf. destruct c as [c'|]; [|done]. cbn in *.
  destruct G0 as [Kc _]. destruct (block_rank c' Kc) as [_ ?].
  by rewrite (anc_trans b (ht b - 1) p (ht c') Hp) by lia.
Qed.

(** A candidate above [par], seen from its height. *)
Lemma candidate_spec par b : candidate l0 par b <->
  block_known b /\ has (supports b) l0 = true /\
  match par with None => ht b = 0 | Some p => 0 < ht b /\ anc b (ht b - 1) = Some p end.
Proof.
  unfold candidate. split.
  - intros [(blk & E & Hp) Hh]. assert (block_known b) as Kb by (by eexists). split_and!; [done|done|].
    rewrite (parent_anc b blk E) in Hp. destruct (block_rank b Kb) as [_ ?].
    case_decide; destruct par as [p|]; try done; [|lia].
    destruct (anc_total b (ht b - 1) Kb) as (x & Hx & _); [lia|]. congruence.
  - intros ([blk E] & Hh & Hp). split; [|done]. exists blk. split; [done|].
    rewrite (parent_anc b blk E). case_decide; destruct par as [p|]; [by destruct Hp|exfalso; lia|exfalso; lia|done].
Qed.

Lemma floor_zero b : floor c <= 0 -> on_chain c b.
Proof.
  destruct c as [c'|]; [|done]. cbn. destruct (block_rank c' (proj1 G0)). lia.
Qed.

(** The children of [c], or the blocks at height 0. *)
Lemma floor_children b : block_known b -> on_chain c b -> ht b = floor c ->
  match c with None => ht b = 0 | Some p => 0 < ht b /\ anc b (ht b - 1) = Some p end.
Proof.
  destruct c as [c'|]; [|done]. cbn. intros Kb [Kc Hc] Hb. destruct (block_rank c' Kc). split; [lia|].
  by replace (ht b - 1) with (ht c') by lia.
Qed.

Lemma ghost_child b : heaviest l0 c b -> ghost l0 b.
Proof.
  destruct c as [c'|]; intros Hh; [|by apply ghost_bottom]. apply ghost_up with c'; [apply G0|done].
Qed.

Lemma half_lt t w : t / 2 < w <-> t < 2 * w.
Proof. pose proof (Z.div_mod t 2). pose proof (Z.mod_pos_bound t 2). lia. Qed.

Definition majority b : Prop := score anyb l < 2 * support l b.

Lemma majority_has b : block_known b -> majority b -> has (supports b) l = true.
Proof.
  intros Kb Hm. destruct (has (supports b) l) eqn:E; [done|]. exfalso.
  pose proof (score_nonneg anyb l (votes_ok_nonneg _ above_ok)) as Hn.
  assert (support l b = 0) as E0; [|unfold majority in Hm; lia].
  by apply score_none.
Qed.

Lemma majority_heaviest par b : block_known b -> majority b -> floor c <= ht b ->
  match par with None => ht b = 0 | Some p => 0 < ht b /\ anc b (ht b - 1) = Some p end ->
  heaviest l0 par b.
Proof.
  intros Kb Hm Hf Hp. pose proof (majority_has b Kb Hm) as Hh.
  pose proof (has_chain b Kb ltac:(lia) Hh) as Hc.
  destruct (support_above b Hc Kb Hf) as [Es Eh]. rewrite Eh in Hh.
  split; [by apply candidate_spec|]. intros b' (Kb' & Hh' & Hp')%candidate_spec.
  assert (ht b' = ht b /\ on_chain c b') as [Ht' Hc'].
  { destruct par as [p|].
    - destruct Hp as [Hpos Hp], Hp' as [Hpos' Hp'].
      destruct (anc_Some _ _ _ Hp ltac:(lia)) as (_ & _ & _ & E1).
      destruct (anc_Some _ _ _ Hp' ltac:(lia)) as (_ & _ & _ & E2). split; [lia|].
      apply (parent_chain b' p Kb' Hp'); [lia..|]. by apply (parent_chain b p Kb Hp).
    - split; [lia|]. apply floor_zero. lia. }
  destruct (support_above b' Hc' Kb') as [Es' _]; [lia|].
  destruct (decide (b' = b)) as [->|Hne]; [apply pair_le_refl|]. apply pair_le_alt. left. cbn.
  rewrite <- Es, <- Es'. unfold majority in Hm.
  assert (support l b + support l b' <= score anyb l); [|lia].
  apply score_disjoint; [apply votes_ok_nonneg, above_ok| |done|done].
  intros v. by apply supports_disjoint.
Qed.

Lemma majority_ghost n : forall b, block_known b -> majority b -> ht b = floor c + Z.of_nat n -> ghost l0 b.
Proof.
  pose proof floor_nonneg as Hfl.
  induction n as [|n IH]; intros b Kb Hm Hn.
  - apply ghost_child, majority_heaviest; [done|done|lia|]. apply floor_children; [done| |lia].
    apply has_chain; [done|lia|]. by apply majority_has.
  - destruct (anc_total b (ht b - 1) Kb) as (p & Hp & Kp & Htp); [lia|].
    apply ghost_up with p.
    + apply IH; [done| |lia]. unfold majority in *.
      assert (support l b <= support l p); [|lia].
      apply score_le; [apply votes_ok_nonneg, above_ok|]. intros v Hv.
      apply (supports_spec b v Kb) in Hv as (Kv & Hle & Hv). apply (supports_spec p v Kp).
      split_and!; [done|lia|]. rewrite Htp. by rewrite <- (anc_trans v (ht b) b (ht b - 1) Hv) by lia.
    + apply majority_heaviest; [done|done|lia|]. split; [lia|done].
Qed.

(** The heaviest child of [b], from the votes moved down to the next height. *)
Lemma best_child b t k : block_known b -> ht b = k -> floor c <= k + 1 -> on_chain c b ->
  trep (List.filter (fun e => bool_decide (anc e.1 k = Some b)) (proj (k + 1) l)) t ->
  block_known (max_bhash t) /\ ht (max_bhash t) = k + 1 /\ heaviest l0 (Some b) (max_bhash t) /\
  on_chain c (max_bhash t).
Proof.
  intros Kb Hk Hf Hc T. destruct (block_rank b Kb) as [_ Hk0].
  set (Q := fun v => bool_decide (anc v k = Some b)) in *.
  assert (forall x, has (only x) (List.filter (fun e => Q e.1) (proj (k + 1) l)) = true <->
    has (only x) (proj (k + 1) l) = true /\ anc x k = Some b) as Hfil.
  { intros x. rewrite has_filter, !has_true. split.
    - intros (v & w & Hin & [Ho Hq]%andb_true_iff). unfold only in Ho. apply bool_decide_eq_true in Ho as ->.
      unfold Q in Hq. apply bool_decide_eq_true in Hq. split; [|done]. exists x, w.
      split; [done|]. unfold only. by apply bool_decide_eq_true.
    - intros [(v & w & Hin & Ho) Hq]. exists v, w. split; [done|]. rewrite Ho. unfold only in Ho.
      apply bool_decide_eq_true in Ho as ->. unfold Q. by rewrite bool_decide_eq_true_2. }
  assert (forall x, block_known x -> ht x = k + 1 -> anc x k = Some b ->
    on_chain c x /\ support l x = support l0 x /\ has (supports x) l = has (supports x) l0) as Hx.
  { intros x Kx Htx Hax. assert (on_chain c x) as Hcx.
    { apply (parent_chain x b Kx); [by replace (ht x - 1) with k by lia|lia|lia|done]. }
    split; [done|]. apply support_above; [done|done|lia]. }
  assert (forall x, ht x = k + 1 -> anc x k = Some b ->
    score (only x) (List.filter (fun e => Q e.1) (proj (k + 1) l)) = support l x) as Hsc.
  { intros x Htx Hax. rewrite score_filter, <- support_proj, Htx. apply score_ext. intros v _.
    destruct (only x v) eqn:Eo; [|done]. unfold only in Eo. apply bool_decide_eq_true in Eo as ->.
    unfold Q. by rewrite bool_decide_eq_true_2. }
  destruct T as [_ _ _ Ke Mw Mx]; set (x := max_bhash t) in *.
  apply Hfil in Ke as [Kx Hax].
  destruct (has_proj_elem (k + 1) l x above_ok ltac:(lia) Kx) as (Kx' & Htx & Hsx).
  destruct (Hx x Kx' Htx Hax) as (Hcx & Esx & Ehx).
  split_and!; [done|done| |done]. split.
  - apply candidate_spec. split_and!; [done|by rewrite <- Ehx|lia|]. by replace (ht x - 1) with k by lia.
  - intros b' (Kb' & Hh' & Hpos' & Hp')%candidate_spec.
    destruct (anc_Some _ _ _ Hp' ltac:(lia)) as (_ & _ & _ & E2).
    replace (ht b' - 1) with k in Hp' by lia.
    destruct (Hx b' Kb' ltac:(lia) Hp') as (_ & Es' & Eh').
    assert (max_w t = support l0 x) as Ew by (rewrite <- Esx, <- (Hsc x Htx Hax); exact Mw).
    assert (pair_le (score (only b') (List.filter (fun e => Q e.1) (proj (k + 1) l)), b') (tally_max t))
      as Hle.
    { apply Mx, Hfil. split; [|done].
      replace (k + 1) with (ht b') by lia. by rewrite has_support_proj, Eh'. }
    rewrite (Hsc b' ltac:(lia) Hp'), Es' in Hle. rewrite <- Ew. unfold x, max_w, max_bhash.
    by rewrite <- surjective_pairing.
Qed.

Lemma best_bottom t : floor c <= 0 -> trep (proj 0 l) t ->
  block_known (max_bhash t) /\ ht (max_bhash t) = 0 /\ heaviest l0 None (max_bhash t).
Proof.
  intros Hf [_ _ _ Ke Mw Mx]; set (x := max_bhash t) in *.
  assert (forall b, block_known b -> ht b = 0 ->
    support l b = support l0 b /\ has (supports b) l = has (supports b) l0) as Hs.
  { intros b Kb Hb. apply support_above; [by apply floor_zero|done|lia]. }
  destruct (has_proj_elem 0 l x above_ok ltac:(lia) Ke) as (Kx & Htx & Hsx).
  destruct (Hs x Kx Htx) as [Esx Ehx]. split_and!; [done|done|]. split.
  - apply candidate_spec. by rewrite <- Ehx.
  - intros b' (Kb' & Hh' & Hb')%candidate_spec. destruct (Hs b' Kb' Hb') as [Es' Eh'].
    assert (max_w t = support l0 x) as Ew by (rewrite <- Esx, <- support_proj, Htx; exact Mw).
    rewrite <- Ew. unfold x, max_w, max_bhash. rewrite <- surjective_pairing, <- Es', <- support_proj, Hb'.
    apply Mx. by rewrite <- Hb', has_support_proj, Eh'.
Qed.

Lemma floor_self b : block_known b -> ht b + 1 = floor c -> has (supports b) l = true -> c = Some b.
Proof.
  intros Kb Hb Hh. pose proof (has_chain b Kb ltac:(lia) Hh) as Hc.
  destruct c as [c'|]; cbn in *; [|destruct (block_rank b Kb); lia].
  destruct Hc as [_ Hc]. replace (ht c') with (ht b) in Hc by lia. rewrite anc_self in Hc by done. congruence.
Qed.

Lemma above_positive : l <> [] -> 0 < score anyb l.
Proof.
  pose proof above_ok as V. destruct l as [|[b w] l1]; [done|]. intros _. cbn.
  inversion V as [|? ? [_ Hw] V1]; subst. cbn in Hw.
  pose proof (score_nonneg anyb l1 (votes_ok_nonneg _ V1)). lia.
Qed.

(** Every vote above [c] supports it. *)
Lemma floor_majority b : c = Some b -> l <> [] -> majority b.
Proof.
  intros Ec Hne. pose proof (above_positive Hne). unfold majority.
  replace (support l b) with (score anyb l); [lia|]. apply score_ext. intros v Hv.
  apply list_elem_of_fmap in Hv as ([v' w] & -> & Hin). destruct (above_elem v' w Hin) as (_ & _ & Hs).
  rewrite Ec in Hs. cbn in Hs |- *. by apply andb_true_iff in Hs as [_ ->].
Qed.

Lemma trep_nonempty k t : trep (proj k l) t -> l <> [].
Proof. intros T E. pose proof (tr_key _ _ T) as K. rewrite E in K. done. Qed.

Lemma decided_ghost b : block_known b -> majority b -> floor c <= ht b + 1 -> ghost l0 b /\ on_chain c b.
Proof.
  intros Kb Hm Hf. pose proof (majority_has b Kb Hm) as Hh. split; [|by apply has_chain].
  destruct (decide (floor c <= ht b)).
  - apply (majority_ghost (Z.to_nat (ht b - floor c))); [done|done|lia].
  - pose proof (floor_self b Kb ltac:(lia) Hh) as Ec. rewrite Ec in G0. apply G0.
Qed.

Lemma Tally_filter_rep {E} k l1 t b : 0 <= k -> votes_ok l1 -> fits l1 -> trep l1 t ->
  exists o, Tally_filter_descendants (E:=E) s t k b = Ok o /\
    match o with
    | Some t' => trep (List.filter (fun e => bool_decide (anc e.1 k = Some b)) l1) t'
    | None => List.filter (fun e => bool_decide (anc e.1 k = Some b)) l1 = []
    end.
Proof.
  intros Hk V Hf T. pose (Q := fun v => bool_decide (anc v k = Some b)).
  apply (trep_filter l1 t Q); [done|done|].
  intros [v w] Hin. cbn. destruct (tr_same _ _ T) as [_ Eh].
  assert (has (only v) l1 = true) as Hv.
  { rewrite <- Eh, has_true. exists v, w. split; [done|]. unfold only. by apply bool_decide_eq_true. }
  apply has_true in Hv as (v' & w' & Hin' & Ho). unfold only in Ho. apply bool_decide_eq_true in Ho as ->.
  destruct (votes_ok_known l1 v V) as [blk Eb]; [apply list_elem_of_fmap; by exists (v, w')|].
  by rewrite (find_ancestor_proposal_eq s WF SM v blk k Eb Hk).
Qed.

Lemma votes_ok_proj k l1 : votes_ok l1 -> 0 <= k -> votes_ok (proj k l1).
Proof.
  unfold votes_ok. rewrite !Forall_forall. intros V Hk e (e0 & Hin & He)%list_elem_of_omap.
  destruct (anc e0.1 k) eqn:Ea; [|done]. injection He as <-. cbn.
  destruct (anc_Some _ _ _ Ea Hk) as (_ & _ & ? & _). split; [done|]. apply (V _ Hin).
Qed.

Definition decision hb : Prop :=
  block_known hb.2 /\ ht hb.2 = hb.1 /\ floor c <= hb.1 /\ ghost l0 hb.2 /\ on_chain c hb.2.

(** The tally one level down, the votes of that level included. *)
Lemma level_down {E} ts k t : tsrep l ts -> 0 <= k -> trep (proj (k + 1) l) t ->
  exists t', (t ← Tally_parents (E:=E) s t;
              match btree_get k ts with Some ty => Tally_extend t (votes ty) | None => Ok t end) = Ok t' /\
    trep (proj k l) t'.
Proof.
  intros [_ Ts] Hk T. destruct (Tally_parents_rep (E:=E) k l t above_ok above_fits Hk T) as (t1 & -> & T1).
  cbn [mbind res_bind]. pose proof (proj_step k l above_ok Hk) as Hp.
  pose proof (votes_ok_nonneg _ above_ok) as Hn. specialize (Ts k). destruct (btree_get k ts) as [ty|].
  - destruct (tr_same _ _ Ts) as [Es Eh].
    assert (same_votes (votes ty ++ ((fun e => (par e.1, e.2)) <$> proj (k + 1) l)) (proj k l)) as Hs.
    { rewrite <- Hp. split; intros P; [by rewrite !score_app, Es|by rewrite !has_app, Eh]. }
    destruct (Tally_extend_rep (E:=E) (votes ty) _ t1 T1 (tr_nonneg _ _ Ts)) as (t' & -> & T').
    { eapply fits_same; [symmetry; exact Hs|]. apply fits_proj; [done|apply above_fits]. }
    exists t'. split; [done|]. by eapply trep_same.
  - exists t1. split; [done|]. eapply trep_same; [|exact T1]. rewrite Ts in Hp. exact Hp.
Qed.

Lemma decide_loop_spec {E} ts n : forall t, tsrep l ts -> trep (proj (Z.of_nat n) l) t -> floor c <= Z.of_nat n ->
  Z.of_nat n < Z.of_nat (size (blocks s)) ->
  exists hb, decide_loop (E:=E) s ts (score anyb l) n t = Ok hb /\ decision hb.
Proof.
  induction n as [|n IH]; intros t Ts T Hf Hn; cbn [decide_loop].
  { exists (0, max_bhash t). split; [done|]. destruct (best_bottom t Hf T) as (K & Ht & Hh).
    split_and!; cbn; [done|done|done|by apply ghost_bottom|by apply floor_zero]. }
  replace (Z.of_nat (S n)) with (Z.of_nat n + 1) in * by lia.
  pose proof (trep_nonempty _ _ T) as Hne.
  destruct (level_down (E:=E) ts (Z.of_nat n) t Ts ltac:(lia) T) as (t1 & Ht1 & T1).
  destruct (Tally_parents s t) as [t0|?| |]; cbn [mbind res_bind] in Ht1 |- *; try done.
  rewrite Ht1. cbn [mbind res_bind]. clear t0 Ht1. set (b := max_bhash t1).
  destruct (has_proj_elem (Z.of_nat n) l b above_ok ltac:(lia) (tr_key _ _ T1)) as (Kb & Hb & Hh).
  assert (max_w t1 = support l b) as Ew.
  { rewrite (tr_max_w _ _ T1), <- support_proj. by rewrite Hb. }
  rewrite Ew. destruct (Z.ltb_spec (score anyb l / 2) (support l b)) as [Hlt|Hge].
  2: { apply IH; [done|done| |lia]. destruct (decide (floor c <= Z.of_nat n)); [done|]. exfalso.
    pose proof (floor_majority b (floor_self b Kb ltac:(lia) Hh) Hne) as Hm. unfold majority in Hm.
    apply half_lt in Hm. lia. }
  assert (majority b) as Hm by (by apply half_lt).
  destruct (decided_ghost b Kb Hm ltac:(lia)) as [Gb Cb].
  destruct (Tally_filter_rep (E:=E) (Z.of_nat n) (proj (Z.of_nat n + 1) l) t b) as (o & -> & Ho);
    [lia|apply votes_ok_proj; [apply above_ok|lia]|apply fits_proj; [apply votes_ok_nonneg, above_ok
    |apply above_fits]|done|]. cbn [mbind res_bind].
  destruct o as [t'|].
  - destruct (best_child b t' (Z.of_nat n) Kb Hb ltac:(lia) Cb Ho) as (K & Ht & Hv & Hc).
    unfold u64_add, plain_add, checked_add.
    rewrite (proj2 (Z.leb_le _ _)).
    2: { pose proof (blocks_le_units s WF). unfold small in SM. lia. }
    cbn. eexists. split; [done|]. split_and!; cbn; [done|done|lia|by apply ghost_up with b|done].
  - eexists. split; [done|]. split_and!; cbn; [done|done| |done|done].
    destruct (decide (floor c <= Z.of_nat n)); [done|]. exfalso.
    pose proof (floor_self b Kb ltac:(lia) Hh) as Ec.
    destruct (has_proj_elem (Z.of_nat n + 1) l (max_bhash t) above_ok ltac:(lia) (tr_key _ _ T))
      as (Kx & Hx & Hsx).
    pose proof (has_chain _ Kx ltac:(lia) Hsx) as Hc. rewrite Ec in Hc. destruct Hc as [_ Hc].
    pose proof (tr_key _ _ T) as (v & w & Hin & Hv)%has_true. unfold only in Hv.
    apply bool_decide_eq_true in Hv as ->. apply list_elem_of_In in Hin.
    enough (In (max_bhash t, w) (List.filter (fun e => bool_decide (anc e.1 (Z.of_nat n) = Some b))
      (proj (Z.of_nat n + 1) l))) as Hi by (by rewrite Ho in Hi).
    apply filter_In. split; [done|]. apply bool_decide_eq_true. cbn. by rewrite <- Hb.
Qed.

Lemma strict_floor v : strict c v = true -> block_known v -> floor c <= ht v.
Proof.
  intros Hs Kv. destruct c as [c'|]; cbn in *; [|by destruct (block_rank v Kv)].
  apply andb_true_iff in Hs as [Hs _]. lia.
Qed.

Lemma proj_top k : 0 <= k -> (forall v w, (v, w) ∈ l -> ht v <= k) -> same_votes (at_height k l) (proj k l).
Proof.
  intros Hk Hl. pose proof (proj_step k l above_ok Hk) as Hp.
  assert (proj (k + 1) l = []) as E.
  { unfold proj. apply elem_of_nil_inv. intros e (e0 & Hin & He)%list_elem_of_omap.
    destruct (anc e0.1 (k + 1)) eqn:Ea; [|done]. destruct (anc_Some _ _ _ Ea ltac:(lia)) as (_ & ? & _).
    destruct e0 as [v w]. specialize (Hl v w Hin). cbn in *. lia. }
  rewrite E in Hp. cbn in Hp. by rewrite app_nil_r in Hp.
Qed.

Lemma find_decided_spec {E} ts : tsrep l ts -> l <> [] ->
  exists hb, find_decided (E:=E) s ts = Ok (Some hb) /\ decision hb.
Proof.
  intros T Hne. pose proof T as [So _]. unfold find_decided.
  destruct (last ts) as [[k t]|] eqn:El; [|apply last_None in El; by apply (tsrep_nil l ts T) in El].
  pose proof (tallies_total (E:=E) l ts T (votes_ok_nonneg _ above_ok) above_fits) as Ht.
  destruct (map_res _ ts) as [ws|?| |]; cbn [mbind res_bind] in *; try done. rewrite Ht.
  cbn [mbind res_bind].
  assert ((k, t) ∈ ts) as Hin by (apply last_Some in El as [m ->]; set_solver).
  pose proof (tsrep_entry l ts k t T Hin) as Tk.
  apply (btree_get_elem _ _ _ So) in Hin. rewrite Hin. cbn [expect mbind res_bind].
  pose proof (tr_key _ _ Tk) as Hk. apply has_true in Hk as (v & w & Hv & _).
  apply list_elem_of_In, filter_In in Hv as [Hv Hk]. apply list_elem_of_In in Hv. cbn in Hk.
  apply Z.eqb_eq in Hk. destruct (above_elem v w Hv) as (_ & Kv & Hst).
  pose proof (strict_floor v Hst Kv). pose proof (ht_bound v Kv). destruct (block_rank v Kv).
  destruct (decide_loop_spec (E:=E) ts (Z.to_nat k) t T) as (hb & -> & Hd).
  - rewrite Z2Nat.id by lia. eapply trep_same; [|exact Tk]. apply proj_top; [lia|].
    intros v' w' Hv'. destruct (tsrep_vote l ts v' w' T Hv') as (t' & Ht').
    destruct (btree_last_max k t ts (ht v') t' So El Ht') as [|Hlt]; [lia|].
    change (ht v' < k) in Hlt. lia.
  - lia.
  - lia.
  - by exists hb.
Qed.

(** Filtering the tallies leaves the votes above the decided block. *)
Lemma above_above (h : Z) b : decision (h, b) ->
  above (Some b) l0 = List.filter (fun e => strict (Some b) e.1) l.
Proof.
  intros (Kb & Hb & Hf & _ & Hc). cbn [fst snd] in *. unfold above.
  apply filter_weaker. intros [v w] Es. apply (chain_strict v b Hc Kb); [lia|].
  cbn in Es. by apply andb_true_iff in Es as [_ ?].
Qed.

Lemma at_height_above (h : Z) b k : decision (h, b) -> h < k ->
  at_height k (above (Some b) l0) = List.filter (fun e => bool_decide (anc e.1 h = Some b)) (at_height k l).
Proof.
  intros Hd Hk. rewrite (above_above h b Hd). destruct Hd as (Kb & Hb & _). cbn [fst snd] in *.
  unfold at_height. rewrite !filter_andb. apply filter_ext. intros [v w]. cbn [fst].
  cbn. unfold supports. rewrite Hb. destruct (Z.eqb_spec (ht v) k); [|by rewrite andb_false_r].
  rewrite (proj2 (Z.ltb_lt _ _)) by lia. by rewrite andb_true_r.
Qed.

Lemma Tallies_filter_rep {E} ts (h : Z) b : tsrep l ts -> decision (h, b) ->
  exists ts', Tallies_filter_descendants (E:=E) s ts h b = Ok ts' /\ tsrep (above (Some b) l0) ts'.
Proof.
  intros T Hd. pose proof T as [So _]. pose proof Hd as (Kb & Hb & _). cbn [fst snd] in *.
  destruct (block_rank b Kb) as [_ Hh].
  pose (g := fun e : Z * Tally => match Tally_filter_descendants (E:=E) s e.2 h b with
                                  | Ok o => option_map (pair e.1) o | _ => None end).
  assert (forall k t, (k, t) ∈ ts -> exists o, Tally_filter_descendants (E:=E) s t h b = Ok o /\
    match o with
    | Some t' => trep (List.filter (fun e => bool_decide (anc e.1 h = Some b)) (at_height k l)) t'
    | None => List.filter (fun e => bool_decide (anc e.1 h = Some b)) (at_height k l) = []
    end) as Hg.
  { intros k t Hin. pose proof (tsrep_entry l ts k t T Hin) as Tk. apply Tally_filter_rep; [lia| | |done].
    - unfold votes_ok. rewrite Forall_forall. intros e He. pose proof above_ok as V.
      unfold votes_ok in V. rewrite Forall_forall in V. apply V.
      apply list_elem_of_In, filter_In in He as [He _]. by apply list_elem_of_In.
    - apply (fits_filter (fun v => ht v =? k)); [apply votes_ok_nonneg, above_ok|apply above_fits]. }
  unfold Tallies_filter_descendants. exists (omap g (List.filter (fun e => h <? e.1) ts)). split.
  { apply omap_res_Ok. intros [k t] Hin. apply list_elem_of_In, filter_In in Hin as [Hin _].
    apply list_elem_of_In in Hin. destruct (Hg k t Hin) as (o & Eo & _). unfold g. cbn [fst snd].
    by rewrite Eo. }
  assert (btree_sorted (omap g (List.filter (fun e => h <? e.1) ts))) as So'.
  { apply btree_sorted_omap; [|by apply btree_sorted_filter].
    intros e e'. unfold g. destruct (Tally_filter_descendants _ _ _ _) as [[t|]|?| |]; [|done..].
    cbn. by intros [= <-]. }
  split; [done|]. intros k. destruct (btree_get k _) as [t'|] eqn:Eg.
  - apply (btree_get_elem _ _ _ So'), list_elem_of_omap in Eg as ([k0 t] & Hin & He).
    apply list_elem_of_In, filter_In in Hin as [Hin Hlt]. apply list_elem_of_In in Hin.
    destruct (Hg k0 t Hin) as (o & Eo & Ho). unfold g in He. cbn [fst snd] in *. rewrite Eo in He.
    destruct o as [t0|]; [|done]. injection He as -> ->. by rewrite (at_height_above h b) by (done || lia).
  - apply elem_of_nil_inv. intros [v w] Hin.
    apply list_elem_of_In, filter_In in Hin as [Hin Hk]. cbn [fst] in Hk. apply Z.eqb_eq in Hk.
    rewrite (above_above h b Hd) in Hin. apply filter_In in Hin as [Hin Hs]. apply list_elem_of_In in Hin.
    cbn in Hs. apply andb_true_iff in Hs as [Hlt Hs]. unfold supports in Hs. rewrite Hb in *.
    destruct (tsrep_vote l ts v w T Hin) as (t & Ht). rewrite Hk in Ht.
    destruct (Hg k t Ht) as (o & Eo & Ho). destruct o as [t'|].
    + assert ((k, t') ∈ omap g (List.filter (fun e => h <? e.1) ts)) as He.
      { apply list_elem_of_omap. exists (k, t). unfold g. cbn [fst snd]. rewrite Eo. split; [|done].
        apply list_elem_of_In, filter_In. split; [by apply list_elem_of_In|]. cbn. lia. }
      apply (btree_get_elem _ _ _ So') in He. congruence.
    + assert (In (v, w) (List.filter (fun e => bool_decide (anc e.1 h = Some b)) (at_height k l))) as Hi.
      { apply filter_In. split; [|done]. apply filter_In. split; [by apply list_elem_of_In|]. cbn. lia. }
      by rewrite Ho in Hi.
Qed.

End Decided.

(** ** The loop *)

Lemma last_decided l0 b : votes_ok l0 -> block_known b -> ghost l0 b -> above (Some b) l0 = [] ->
  is_fork_choice l0 b.
Proof.
  intros V Kb Gb En. split; [done|]. intros b' (Kb' & Hh & Hpos & Hp)%candidate_spec.
  destruct (anc_Some _ _ _ Hp ltac:(lia)) as (_ & _ & _ & Hb).
  apply has_true in Hh as (v & w & Hin & Hs). apply (supports_spec b' v Kb') in Hs as (Kv & Hle & Hv).
  enough (In (v, w) (above (Some b) l0)) as Hi by (by rewrite En in Hi).
  apply filter_In. split; [by apply list_elem_of_In|]. cbn. apply andb_true_iff. split; [lia|].
  apply (supports_spec b v Kb). split_and!; [done|lia|]. rewrite Hb.
  by rewrite <- (anc_trans v (ht b') b' (ht b' - 1) Hv) by lia.
Qed.

Lemma fork_choice_loop_spec {E} l0 fuel : votes_ok l0 -> fits l0 -> forall c ts,
  match c with None => True | Some c => block_known c /\ ghost l0 c end ->
  tsrep (above c l0) ts -> above c l0 <> [] -> Z.of_nat (size (blocks s)) - floor c < Z.of_nat fuel ->
  exists b, fork_choice_loop (E:=E) fuel s ts = Ok (Some b) /\ is_fork_choice l0 b.
Proof.
  intros V F. induction fuel as [|fuel IH]; intros c ts G T Hne Hfu.
  { destruct (find_decided_spec (E:=E) l0 V F c G ts T Hne) as ([h b] & _ & Kb & Hb & Hf & _).
    pose proof (ht_bound b Kb). cbn in *. lia. }
  cbn [fork_choice_loop].
  destruct (find_decided_spec (E:=E) l0 V F c G ts T Hne) as ([h b] & -> & Hd). cbn [mbind res_bind].
  destruct (Tallies_filter_rep (E:=E) l0 V F c G ts h b T Hd) as (ts' & -> & T'). cbn [mbind res_bind].
  destruct Hd as (Kb & Hb & Hf & Gb & _). cbn [fst snd] in *.
  destruct ts' as [|e ts'].
  - exists b. split; [done|]. apply last_decided; [done|done|done|]. by apply (tsrep_nil _ [] T').
  - apply (IH (Some b)); [done|done| |cbn; lia]. intros En. by apply (tsrep_nil _ _ T') in En.
Qed.

(** ** The choice is unique *)

Lemma heaviest_unique l par b b' : heaviest l par b -> heaviest l par b' -> b = b'.
Proof.
  intros [Hc Hm] [Hc' Hm']. pose proof (pair_le_antisym _ _ (Hm' b Hc) (Hm b' Hc')) as E. congruence.
Qed.

Lemma heaviest_facts l par b : heaviest l par b -> block_known b /\ has (supports b) l = true /\
  match par with None => ht b = 0 | Some p => 0 < ht b /\ anc b (ht b - 1) = Some p end.
Proof. intros [Hc _]. by apply candidate_spec. Qed.

Lemma ghost_facts l b : ghost l b -> block_known b /\ has (supports b) l = true.
Proof. destruct 1 as [b H|p b _ H]; apply heaviest_facts in H as (? & ? & _); done. Qed.

Lemma ghost_chain l b : ghost l b -> forall b', ghost l b' -> ht b' <= ht b -> anc b (ht b') = Some b'.
Proof.
  induction 1 as [b Hb|p b Gp IH Hb]; intros b' G' Hle; pose proof (heaviest_facts _ _ _ Hb) as (Kb & _ & Hp).
  - destruct G' as [b' Hb'|p' b' G' Hb']; pose proof (heaviest_facts _ _ _ Hb') as (Kb' & _ & Hp'); [|lia].
    rewrite (heaviest_unique _ _ _ _ Hb' Hb). by apply anc_self.
  - destruct Hp as [Hpos Hp]. destruct (anc_Some _ _ _ Hp ltac:(lia)) as (_ & _ & Kp & Hhp).
    destruct (decide (ht b' <= ht p)) as [Hlt|Hge].
    + rewrite <- (anc_trans b (ht b - 1) p (ht b') Hp).
      * by apply IH.
      * destruct (ghost_facts _ _ G') as [Kb' _]. destruct (block_rank b' Kb'). lia.
    + destruct G' as [b' Hb'|p' b' G' Hb']; pose proof (heaviest_facts _ _ _ Hb') as (Kb' & _ & Hp').
      { destruct (block_rank p Kp). lia. }
      destruct Hp' as [Hpos' Hp']. destruct (anc_Some _ _ _ Hp' ltac:(lia)) as (_ & _ & Kp' & Hhp').
      assert (p' = p) as ->.
      { pose proof (IH p' G' ltac:(lia)) as E. replace (ht p') with (ht p) in E by lia.
        rewrite anc_self in E by done. congruence. }
      rewrite (heaviest_unique _ _ _ _ Hb' Hb). by apply anc_self.
Qed.

Lemma fork_choice_unique l b b' : is_fork_choice l b -> is_fork_choice l b' -> b = b'.
Proof.
  assert (forall b b', is_fork_choice l b -> is_fork_choice l b' -> ht b <= ht b' -> b = b') as K.
  2: { intros H1 H2. destruct (Z.le_ge_cases (ht b) (ht b')); [by apply K|symmetry; by apply K]. }
  clear b b'. intros b b' [G Hn] [G' _] Hle. pose proof (ghost_chain l b' G' b G Hle) as Ha.
  destruct (ghost_facts _ _ G) as [Kb _], (ghost_facts _ _ G') as [Kb' Hh'].
  destruct (block_rank b Kb) as [_ Hb0].
  destruct (decide (ht b = ht b')) as [E|Hne].
  { rewrite E, anc_self in Ha by done. congruence. }
  exfalso. destruct (anc_total b' (ht b + 1) Kb') as (x & Hx & Kx & Htx); [lia|].
  apply (Hn x), candidate_spec. split_and!; [done| |lia|].
  - apply has_true in Hh' as (v & w & Hin & Hs). apply has_true. exists v, w. split; [done|].
    apply (supports_spec b' v Kb') in Hs as (Kv & Hlv & Hv). apply (supports_spec x v Kx).
    split_and!; [done|lia|]. rewrite Htx, <- (anc_trans v (ht b') b' (ht b + 1) Hv) by lia. done.
  - replace (ht x - 1) with (ht b) by lia. by rewrite (anc_trans b' (ht b + 1) x (ht b) Hx) by lia.
Qed.

(** ** The function *)

(** No validator has weight zero, and the total weight fits a [u64]. *)
Definition weights_ok : Prop := Forall (Z.lt 0) (weights s) /\ foldr Z.add 0 (weights s) <= uint_max 64.

Section Panorama.
Variable pan : Panorama.
Hypothesis K : cites_known s pan.
Hypothesis W : weights_ok.

Lemma zip_known o w : (o, w) ∈ zip pan (weights s) ->
  0 < w /\ forall h, o = ObsCorrect h -> exists u, units s !! h = Some u /\ block_known (u_block u).
Proof.
  intros Hin. split.
  - destruct W as [Wp _]. rewrite Forall_forall in Wp. apply Wp. by apply (elem_of_zip_r o w pan).
  - intros h ->. apply elem_of_zip_l, list_elem_of_lookup in Hin as [idx Hi].
    destruct (K _ _ Hi) as [u Eu]. exists u. split; [done|]. apply (wfu_block _ _ _ (wf_units _ WF _ _ Eu)).
Qed.

Lemma correct_votes_ok : votes_ok (correct_votes pan).
Proof.
  unfold votes_ok. rewrite Forall_forall. intros [b w] ([o w'] & Hin & He)%list_elem_of_omap.
  destruct (zip_known o w' Hin) as [Hw Ho]. cbn in He |- *. destruct o as [|h|]; try done. cbn in He.
  destruct (Ho h eq_refl) as (u & Eu & Ku). rewrite Eu in He. by injection He as <- <-.
Qed.

Lemma correct_votes_fits : fits (correct_votes pan).
Proof.
  destruct W as [Wp Ws]. unfold fits. etrans; [|exact Ws]. clear Ws K. unfold correct_votes.
  revert pan. induction Wp as [|w ws Hw Wp IH]; intros p.
  - by rewrite zip_with_nil_r.
  - destruct p as [|o p]; cbn [zip zip_with omap list_omap].
    + cbn. assert (0 <= foldr Z.add 0 ws); [|lia]. clear IH. induction Wp; cbn; lia.
    + specialize (IH p). destruct (_ ≫= _); cbn [score] in *; cbn in *; lia.
Qed.

Lemma entries_votes {E} : omap_res (E:=E) (to_entry s) (zip pan (weights s)) =
  Ok ((fun e => (ht e.1, e.1, e.2)) <$> correct_votes pan).
Proof.
  rewrite (omap_res_Ok _ (fun e => match obs_correct e.1 ≫= (units s !!.) with
    | Some u => Some (ht (u_block u), u_block u, e.2) | None => None end)).
  - f_equal. unfold correct_votes. clear. induction (zip pan (weights s)) as [|[o w] l IH]; [done|].
    cbn. destruct (obs_correct o ≫= _); cbn; by rewrite IH.
  - intros [o w] Hin. destruct (zip_known o w Hin) as [_ Ho]. unfold to_entry.
    destruct o as [|h|]; [done| |done]. cbn. destruct (Ho h eq_refl) as (u & Eu & [b Eb]).
    unfold st_unit, maybe_unit. rewrite Eu. cbn. unfold st_block, maybe_block. rewrite Eb. cbn.
    unfold ht, rank_of, block_info. by rewrite Eb.
Qed.

Lemma fork_choice_spec {E} : exists r, fork_choice (E:=E) s pan = Ok r /\
  match r with
  | None => correct_votes pan = []
  | Some b => is_fork_choice (correct_votes pan) b
  end.
Proof.
  unfold fork_choice, Tallies_from_iter. rewrite entries_votes. cbn [mbind res_bind].
  pose proof correct_votes_ok as V. pose proof correct_votes_fits as F.
  destruct (Tallies_from_iter_rep (E:=E) (correct_votes pan) [] []) as (ts & -> & T).
  { split; [done|]. intros k. done. }
  { by constructor. }
  { by apply votes_ok_nonneg. }
  { by rewrite app_nil_r. }
  cbn [mbind res_bind]. rewrite app_nil_r in T. apply (tsrep_same _ _ _ (same_votes_rev _)) in T.
  destruct (correct_votes pan) as [|e l] eqn:El.
  { assert (ts = []) as -> by (by apply (tsrep_nil [] ts T)).
    by exists None. }
  rewrite <- El in *. assert (above None (correct_votes pan) = correct_votes pan) as Ea.
  { unfold above. cbn. clear. induction (correct_votes pan) as [|x m IH]; cbn; [done|by rewrite IH]. }
  destruct (fork_choice_loop_spec (E:=E) (correct_votes pan) (S (size (blocks s))) V F None ts)
    as (b & -> & Hb); [done|by rewrite Ea|rewrite Ea, El; done|cbn; lia|].
  by exists (Some b).
Qed.

End Panorama.

End Ghost.

(** C9 The fork choice is computed correctly and always terminates.  On a state
    that satisfies the protocol's invariant, in which no validator has weight
    zero, [fork_choice] returns, without a panic and within its bound on rounds,
    [None] when no validator seen as correct has voted, and otherwise the one
    block that the greedy rule picks: starting at height 0 and going up to the
    child with the most support of correct validators (ties broken by hash) until
    no child has any votes.  The function itself works downwards from the highest
    votes and skips levels once it finds a majority. *)
Theorem fork_choice_ghost {C : ConsensusContext} {E} (s : State) (pan : Panorama) :
  wf s -> small s -> weights_ok s -> cites_known s pan ->
  exists r, fork_choice (E:=E) s pan = Ok r /\
    match r with
    | None => correct_votes s pan = []
    | Some b => is_fork_choice s (correct_votes s pan) b /\
        forall b', is_fork_choice s (correct_votes s pan) b' -> b' = b
    end.
Proof.
  intros WF SM W K. destruct (fork_choice_spec s WF SM pan K W (E:=E)) as (r & Er & Hr).
  exists r. split; [done|]. destruct r as [b|]; [|done]. split; [done|].
  intros b' Hb'. by eapply fork_choice_unique.
Qed.
