(* ===== verification/HighwayAdd.v ===== *)
(** * Adding units

    A unit that passed validation can be added without a panic, and the invariant
    of the protocol state holds again afterwards. *)

From S2P Require Import Prelude Highway HighwaySkip HighwayInv HighwayTally HighwayFork.

Local Open Scope Z_scope.

Section Extend.
Context {C : ConsensusContext}.
Implicit Types (s : State) (h : Hash) (u : Unit) (p q : Panorama) (o : Observation).

(** [l] is the skip list of an element of rank [r] on top of a chain, or at its bottom. *)
Definition chain_top (info : Hash -> option (Z * list Hash)) (r : Z) (l : list Hash) : Prop :=
  (r = 0 /\ l = []) \/
  exists x, 0 < r /\ rank_of info x = Some (r - 1) /\ l !! 0%nat = Some x /\ built info x r l /\
    length l = S (Z.to_nat (trailing_zeros r)).

(** A unit, and the block it proposes, that may be added under the hash [h]. *)
Record addable s h u (ob : option Block) : Prop := {
  au_fresh : units s !! h = None;
  au_pan : valid_pan s (u_panorama u);
  au_own : u_panorama u !! creator u =
    Some (match Unit_previous u with Some x => ObsCorrect x | None => ObsNone end);
  au_time idx h' u' : u_panorama u !! idx = Some (ObsCorrect h') -> units s !! h' = Some u' ->
    timestamp u' <= timestamp u;
  au_faulty idx : u_panorama u !! idx = Some ObsFaulty -> is_Some (faults s !! idx);
  au_skip : chain_top (unit_info s) (seq_number u) (u_skip_idx u);
  au_block : match ob with
    | Some b => u_block u = h /\ chain_top (block_info s) (height b) (skip_idx b)
    | None => is_Some (blocks s !! u_block u)
    end;
}.

(** [s'] is [s] with that unit, seen or found out to be an equivocation. *)
Record added s h u (ob : option Block) s' : Prop := {
  ad_units : units s' = <[h := u]> (units s);
  ad_blocks : blocks s' = match ob with Some b => <[h := b]> (blocks s) | None => blocks s end;
  ad_weights : weights s' = weights s;
  ad_pings : length (pings s') = length (pings s);
  ad_new :
    (panorama s' = <[creator u := ObsCorrect h]> (panorama s) /\ faults s' = faults s /\
       panorama s !! creator u = u_panorama u !! creator u) \/
    (panorama s' = <[creator u := ObsFaulty]> (panorama s) /\
       panorama s !! creator u <> u_panorama u !! creator u /\
       forall idx, is_Some (faults s' !! idx) <-> idx = creator u \/ is_Some (faults s !! idx));
}.

Section Preserve.
Variables (s s' : State) (h : Hash) (u : Unit) (ob : option Block).
Hypothesis WF : wf s.
Hypothesis A : addable s h u ob.
Hypothesis D : added s h u ob s'.

Lemma block_fresh : blocks s !! h = None.
Proof.
  destruct (blocks s !! h) eqn:E; [|done]. destruct (wf_blocks _ WF h) as [? E']; [by eexists|].
  by rewrite (au_fresh _ _ _ _ A) in E'.
Qed.

Lemma info_fresh : unit_info s h = None /\ forall x, x <> h -> unit_info s' x = unit_info s x.
Proof.
  unfold unit_info. rewrite (au_fresh _ _ _ _ A), (ad_units _ _ _ _ _ D). split; [done|].
  intros x Hx. by rewrite lookup_insert_ne.
Qed.

Lemma bl_info_fresh : block_info s h = None /\ forall x, x <> h -> block_info s' x = block_info s x.
Proof.
  unfold block_info. rewrite block_fresh, (ad_blocks _ _ _ _ _ D). split; [done|].
  intros x Hx. destruct ob; [|done]. by rewrite lookup_insert_ne.
Qed.

Lemma old_unit h' u' : units s !! h' = Some u' -> h' <> h /\ units s' !! h' = Some u'.
Proof.
  intros E. assert (h' <> h) as Hne by (intros ->; by rewrite (au_fresh _ _ _ _ A) in E).
  split; [done|]. by rewrite (ad_units _ _ _ _ _ D), lookup_insert_ne.
Qed.

Lemma added_unit_cases h' u' : units s' !! h' = Some u' -> (h' = h /\ u' = u) \/ units s !! h' = Some u'.
Proof.
  rewrite (ad_units _ _ _ _ _ D). intros [[<- <-]|[_ ?]]%lookup_insert_Some; auto.
Qed.

Lemma lane_extend a b : known s b -> lane_le s a b <-> lane_le s' a b.
Proof.
  intros [ub Eb]. destruct info_fresh as [F Sm]. unfold lane_le.
  assert (rank_of (unit_info s) b = Some (seq_number ub)) as Hr by (by apply known_rank).
  split; intros [n Hn]; exists n; by rewrite (pred_extend _ _ h (wf_lanes _ WF) F Sm n b _ Hr) in *.
Qed.

Lemma obs_extend o o' : (forall x, o' = ObsCorrect x -> known s x) -> obs_le s o o' -> obs_le s' o o'.
Proof. intros K. destruct o, o'; cbn; try done. apply lane_extend, K. done. Qed.

Lemma pan_extend p q : cites_known s q -> pan_le s p q -> pan_le s' p q.
Proof.
  intros K L. unfold pan_le in *. rewrite Forall2_same_length_lookup in *. destruct L as [Hl L].
  split; [done|]. intros i o o' Ho Ho'. apply obs_extend; [|by eapply L]. intros x ->. by eapply K.
Qed.

Lemma faults_grow idx : is_Some (faults s !! idx) -> is_Some (faults s' !! idx).
Proof. destruct (ad_new _ _ _ _ _ D) as [(_ & -> & _)|(_ & _ & E)]; [done|]. rewrite E. auto. Qed.

Lemma lanes_ok : skips_ok (unit_info s').
Proof.
  destruct info_fresh as [F Sm]. apply (skips_extend _ _ h (wf_lanes _ WF) F Sm). intros r l E.
  unfold unit_info in E. rewrite (ad_units _ _ _ _ _ D), lookup_insert in E.
  rewrite decide_True in E by done. injection E as <- <-. apply (au_skip _ _ _ _ A).
Qed.

Lemma chains_ok : skips_ok (block_info s').
Proof.
  destruct bl_info_fresh as [F Sm]. apply (skips_extend _ _ h (wf_chains _ WF) F Sm). intros r l E.
  unfold block_info in E. rewrite (ad_blocks _ _ _ _ _ D) in E. pose proof (au_block _ _ _ _ A) as B.
  pose proof block_fresh as Bf. destruct ob as [b|]; [|by rewrite Bf in E].
  rewrite lookup_insert, decide_True in E by done. injection E as <- <-. apply B.
Qed.

Lemma blocks_grow x : is_Some (blocks s !! x) -> is_Some (blocks s' !! x).
Proof.
  rewrite (ad_blocks _ _ _ _ _ D). destruct ob; [|done]. rewrite lookup_insert_is_Some'. auto.
Qed.

Lemma seq_small : 0 <= seq_number u <= Z.of_nat (size (units s)).
Proof.
  destruct (au_skip _ _ _ _ A) as [[-> _]|(x & Hr & Hx & _)]; [lia|].
  unfold rank_of, unit_info in Hx. destruct (units s !! x) as [ux|] eqn:Ex; [|done]. cbn in Hx.
  injection Hx as Hx. pose proof (wfu_seq _ _ _ (wf_units _ WF _ _ Ex)). lia.
Qed.

Lemma size_units : size (units s') = S (size (units s)).
Proof. rewrite (ad_units _ _ _ _ _ D), map_size_insert, (au_fresh _ _ _ _ A). done. Qed.

Lemma new_unit_wf : wf_unit s' h u.
Proof.
  pose proof (au_pan _ _ _ _ A) as V. split.
  - rewrite (ad_weights _ _ _ _ _ D). apply V.
  - apply (au_own _ _ _ _ A).
  - intros idx h' E. destruct (vp_entries _ _ V _ _ E) as (u' & E' & Hc & L).
    exists u'. split_and!; [by apply old_unit|done| |by eapply (au_time _ _ _ _ A)].
    apply pan_extend; [by apply valid_pan_cites|done].
  - intros idx E. by apply faults_grow, (au_faulty _ _ _ _ A).
  - pose proof (au_block _ _ _ _ A) as B. pose proof (ad_blocks _ _ _ _ _ D) as Eb.
    pose proof (blocks_grow (u_block u)) as Hg. destruct ob as [b|]; [|by apply Hg].
    destruct B as [-> _]. rewrite Eb, lookup_insert, decide_True; by eauto.
  - intros Hb. pose proof (au_block _ _ _ _ A) as B. rewrite (ad_blocks _ _ _ _ _ D) in Hb.
    pose proof block_fresh as Bf. destruct ob as [b|]; [by destruct B|]. rewrite Bf in Hb. by destruct Hb.
  - rewrite size_units. pose proof seq_small. lia.
Qed.

Lemma old_unit_wf h' u' : units s !! h' = Some u' -> wf_unit s' h' u'.
Proof.
  intros E. pose proof (wf_units _ WF _ _ E) as W. destruct (old_unit h' u' E) as [Hne _]. split.
  - rewrite (ad_weights _ _ _ _ _ D). apply W.
  - apply (wfu_own _ _ _ W).
  - intros idx h2 E2. destruct (wfu_entries _ _ _ W _ _ E2) as (u2 & E2' & Hc & L & Ht).
    exists u2. split_and!; [by apply old_unit|done| |done].
    apply pan_extend; [by eapply unit_cites_known|done].
  - intros idx E2. by apply faults_grow, (wfu_faulty _ _ _ W).
  - apply blocks_grow, (wfu_block _ _ _ W).
  - intros Hb. apply (wfu_vote _ _ _ W). rewrite (ad_blocks _ _ _ _ _ D) in Hb.
    destruct ob; [|done]. by rewrite lookup_insert_ne in Hb.
  - rewrite size_units. pose proof (wfu_seq _ _ _ W). lia.
Qed.

Lemma creator_in : is_Some (panorama s !! creator u).
Proof.
  apply lookup_lt_is_Some_2. rewrite (wf_pan_len _ WF), <- (vp_len _ _ (au_pan _ _ _ _ A)).
  apply lookup_lt_is_Some_1. rewrite (au_own _ _ _ _ A). by eexists.
Qed.

(** The new unit extends its creator's swimlane. *)
Lemma lane_new a : lane_le s' a h <-> a = h \/ exists x, Unit_previous u = Some x /\ lane_le s a x.
Proof.
  assert (units s' !! h = Some u) as E.
  { by rewrite (ad_units _ _ _ _ _ D), lookup_insert, decide_True by done. }
  rewrite (lane_le_previous s' h u a E). pose proof (au_own _ _ _ _ A) as Ho.
  destruct (Unit_previous u) as [x|]; [|split; intros [|(x & [=] & _)]; auto].
  destruct (vp_entries _ _ (au_pan _ _ _ _ A) _ _ Ho) as (ux & Ex & _).
  split; (intros [->|(y & [= <-] & L)]; [by left|right]; exists x; split; [done|]);
    apply lane_extend; by eauto; by eexists.
Qed.

Lemma latest_new : panorama s !! creator u = u_panorama u !! creator u ->
  latest_ok s' (creator u) (ObsCorrect h).
Proof.
  intros Eo. rewrite (au_own _ _ _ _ A) in Eo. pose proof (wf_latest _ WF _ _ Eo) as L. split.
  { exists u. split; [|done]. by rewrite (ad_units _ _ _ _ _ D), lookup_insert, decide_True by done. }
  intros h' u' [[-> ->]|E']%added_unit_cases Hc; [apply lane_le_refl|]. apply lane_new. right.
  destruct (Unit_previous u) as [x|]; cbn in L.
  - exists x. split; [done|]. destruct L as [_ L]. by eapply L.
  - by apply (L h' u') in E'.
Qed.

Lemma latest_old idx o : panorama s !! idx = Some o -> idx <> creator u -> latest_ok s' idx o.
Proof.
  intros Eo Hne. pose proof (wf_latest _ WF _ _ Eo) as L. destruct o as [|x|]; cbn in *; [| |done].
  - intros h' u' [[-> ->]|E']%added_unit_cases; [done|by eapply L].
  - destruct L as [(ux & Ex & Hx) L]. split; [exists ux; split; [by apply old_unit|done]|].
    intros h' u' [[-> ->]|E']%added_unit_cases Hc; [by subst|]. apply lane_extend; [by eexists|by eapply L].
Qed.

Lemma wf_added : wf s'.
Proof.
  destruct creator_in as [o0 Eo0].
  split.
  - intros h' u' [[-> ->]|E']%added_unit_cases; [apply new_unit_wf|by apply old_unit_wf].
  - apply lanes_ok.
  - apply chains_ok.
  - intros x b E. rewrite (ad_blocks _ _ _ _ _ D) in *. pose proof (au_block _ _ _ _ A) as B.
    pose proof block_fresh as Bf. destruct ob as [b0|]; [|by eapply wf_heights].
    rewrite map_size_insert, Bf. cbn.
    apply lookup_insert_Some in E as [[<- <-]|[_ E]].
    + destruct B as [_ [[-> _]|(y & Hr & Hy & _)]]; [lia|].
      unfold rank_of, block_info in Hy. destruct (blocks s !! y) as [by'|] eqn:Ey; [|done]. cbn in Hy.
      injection Hy as Hy. pose proof (wf_heights _ WF _ _ Ey). lia.
    + pose proof (wf_heights _ WF _ _ E). lia.
  - intros x Hx. rewrite (ad_units _ _ _ _ _ D), lookup_insert_is_Some'.
    rewrite (ad_blocks _ _ _ _ _ D) in Hx. destruct ob; [|right; by apply (wf_blocks _ WF)].
    apply lookup_insert_is_Some' in Hx as [->|Hx]; [by left|right]. by apply (wf_blocks _ WF).
  - rewrite (ad_weights _ _ _ _ _ D), <- (wf_pan_len _ WF).
    destruct (ad_new _ _ _ _ _ D) as [(-> & _)|(-> & _)]; apply length_insert.
  - intros idx o Eo. destruct (ad_new _ _ _ _ _ D) as [(Ep & Ef & Eq)|(Ep & Eq & Ef)]; rewrite Ep in Eo;
      apply list_lookup_insert_Some in Eo as [(<- & <- & _)|[Hne Eo]]; try done.
    + by apply latest_new.
    + apply latest_old; congruence.
    + apply latest_old; congruence.
  - intros idx. destruct (ad_new _ _ _ _ _ D) as [(Ep & Ef & Eq)|(Ep & Eq & Ef)]; rewrite Ep, ?Ef.
    + rewrite <- (wf_faults _ WF). destruct (decide (idx = creator u)) as [->|Hne].
      * rewrite list_lookup_insert_eq by (by eapply lookup_lt_Some).
        rewrite (au_own _ _ _ _ A) in Eq. rewrite Eq. split; [done|]. by destruct (Unit_previous u).
      * by rewrite list_lookup_insert_ne.
    + rewrite <- (wf_faults _ WF). destruct (decide (idx = creator u)) as [->|Hne].
      * rewrite list_lookup_insert_eq by (by eapply lookup_lt_Some). split; auto.
      * rewrite list_lookup_insert_ne by done. split; [auto|]. by intros [|].
  - rewrite (ad_weights _ _ _ _ _ D), (ad_pings _ _ _ _ _ D). apply (wf_pings _ WF).
Qed.

End Preserve.
End Extend.

(** ** Searches depend on the units and blocks only *)

Section Congruence.
Context {C : ConsensusContext}.
Variables s s' : State.
Hypothesis SU : units s = units s'.

Lemma swimlane_search_units {E} fuel : forall h n,
  swimlane_search (E:=E) fuel s h n = swimlane_search fuel s' h n.
Proof.
  induction fuel as [|fuel IH]; intros h n; [done|]. cbn. unfold st_unit, maybe_unit. rewrite SU.
  destruct (units s' !! h) as [u|]; [|done]. cbn. destruct (checked_sub _ _); [|done].
  case_match; [done|]. destruct (plain_sub _ _); [|done..]. cbn. destruct (u_skip_idx u !! _); [|done].
  cbn. apply IH.
Qed.

Lemma find_in_swimlane_units {E} h n : find_in_swimlane (E:=E) s h n = find_in_swimlane s' h n.
Proof. unfold find_in_swimlane. rewrite SU. apply swimlane_search_units. Qed.

End Congruence.

(** ** From the checks to the conditions above *)

Section Valid.
Context {C : ConsensusContext}.
Variable s : State.
Hypothesis WF : wf s.
Hypothesis SM : small s.
Hypothesis WO : weights_ok s.
Implicit Types (h : Hash) (u : Unit) (p q : Panorama) (o : Observation).

(** What the three checks of a new unit establish. *)
Record acceptable (sw : SignedWireUnit) : Prop := {
  ac_creator : (w_creator (wire_unit_of sw) < length (weights s))%nat;
  ac_pan : valid_pan s (w_panorama (wire_unit_of sw));
  ac_own : w_panorama (wire_unit_of sw) !! w_creator (wire_unit_of sw) <> Some ObsFaulty;
  ac_faulty idx : w_panorama (wire_unit_of sw) !! idx = Some ObsFaulty -> is_Some (faults s !! idx);
  ac_time h u : h ∈ iter_correct_hashes (w_panorama (wire_unit_of sw)) -> units s !! h = Some u ->
    timestamp u <= w_timestamp (wire_unit_of sw);
  ac_seq : next_seq_num (E:=UnitError) s (w_panorama (wire_unit_of sw)) (w_creator (wire_unit_of sw)) =
    Ok (w_seq_number (wire_unit_of sw));
  ac_block : w_value (wire_unit_of sw) = None -> has_correct (w_panorama (wire_unit_of sw)) = true;
}.

Lemma pre_validated sw : pre_validate_unit s sw = Ok tt ->
  let w := wire_unit_of sw in
  (w_creator w < length (weights s))%nat /\
  length (w_panorama w) = length (weights s) /\
  w_panorama w !! w_creator w <> Some ObsFaulty /\
  (w_value w = None -> has_correct (w_panorama w) = true) /\
  min_round_exp (params s) <= w_round_exp w <= max_round_exp (params s).
Proof.
  cbv zeta. unfold pre_validate_unit. cbv zeta. intros H.
  apply bind_Ok in H as ([] & H1%fail_if_Ok & H). apply bind_Ok in H as ([] & H2%fail_if_Ok & H).
  apply bind_Ok in H as ([] & H3%fail_if_Ok & H). apply bind_Ok in H as ([] & H4%fail_if_Ok & H).
  apply bind_Ok in H as ([] & H5%fail_if_Ok & H). apply bind_Ok in H as ([] & H6%fail_if_Ok & H).
  apply bind_Ok in H as (o & Ho%expect_Ok & H%fail_if_Ok).
  unfold validator_count in *. rewrite Ho. apply Nat.leb_gt in H1. apply negb_false_iff, Nat.eqb_eq in H6.
  split_and!; [done|done| | |lia..].
  - intros [= ->]. done.
  - intros Ev. rewrite Ev in H5. by apply negb_false_iff.
Qed.

Lemma no_missing p : pan_missing_dependency s p = None ->
  (forall idx, p !! idx = Some ObsFaulty -> is_Some (faults s !! idx)) /\ cites_known s p.
Proof.
  unfold pan_missing_dependency. intros Hm.
  assert (forall idx o, p !! idx = Some o -> obs_missing_dep s idx o = None) as F.
  { intros idx o Ho. destruct (obs_missing_dep s idx o) as [d|] eqn:Ed; [|done]. exfalso.
    assert (d ∈ omap (fun e => obs_missing_dep s e.1 e.2) (enumerate p)) as Hin.
    { apply list_elem_of_omap. exists (idx, o). split; [by apply elem_of_enumerate|done]. }
    destruct (omap _ _); [by apply not_elem_of_nil in Hin|done]. }
  split.
  - intros idx Ho. specialize (F _ _ Ho). cbn in F. unfold is_faulty in F. by case_bool_decide.
  - intros idx h Ho. specialize (F _ _ Ho). cbn in F. unfold has_unit in F. by case_bool_decide.
Qed.

Lemma elem_of_iter_correct p h : h ∈ iter_correct_hashes p <-> exists idx, p !! idx = Some (ObsCorrect h).
Proof.
  unfold iter_correct_hashes. rewrite list_elem_of_omap. split.
  - intros (o & [idx Hi]%list_elem_of_lookup & Ho). exists idx. destruct o; [done| |done]. by injection Ho as <-.
  - intros [idx Hi]. exists (ObsCorrect h). split; [by eapply list_elem_of_lookup_2|done].
Qed.

Definition known_unit (d : Unit) h : Unit := default d (units s !! h).

Lemma iter_correct_eq {E} d p : cites_known s p ->
  iter_correct (E:=E) s p = Ok (known_unit d <$> iter_correct_hashes p).
Proof.
  intros K. unfold iter_correct. apply map_res_Ok. intros h [idx Hi]%elem_of_iter_correct.
  destruct (K _ _ Hi) as [u Eu]. unfold st_unit, maybe_unit, known_unit. by rewrite Eu.
Qed.

Lemma iter_correct_known {E} p us : iter_correct (E:=E) s p = Ok us ->
  forall h u, h ∈ iter_correct_hashes p -> units s !! h = Some u -> u ∈ us.
Proof.
  unfold iter_correct. revert us. induction (iter_correct_hashes p) as [|x l IH]; intros us H h u Hin Eu;
    cbn in H; [set_solver|].
  apply bind_Ok in H as (ux & Hx%expect_Ok & H). apply bind_Ok in H as (us' & H & [= <-]).
  apply elem_of_cons in Hin as [->|Hin].
  - unfold maybe_unit in Hx. rewrite Eu in Hx. injection Hx as ->. set_solver.
  - apply elem_of_cons. right. by eapply IH.
Qed.

Lemma validated `{LeaderRng} `{BinarySearch} sw :
  pre_validate_unit s sw = Ok tt -> pan_missing_dependency s (w_panorama (wire_unit_of sw)) = None ->
  validate_unit s sw = Ok tt -> acceptable sw.
Proof.
  intros (Hc & Hl & Ho & Hv & _)%pre_validated [Hf _]%no_missing V. unfold validate_unit in V.
  apply bind_Ok in V as ([] & Vp & V). apply (pan_validate_spec s WF SM _ Hl) in Vp.
  apply bind_Ok in V as (us & Hu & V). apply bind_Ok in V as ([] & Ht%fail_if_Ok & V).
  apply bind_Ok in V as (n & Hn & V). apply bind_Ok in V as ([] & Hs%fail_if_Ok & _).
  apply negb_false_iff, Z.eqb_eq in Hs. subst n.
  apply orb_false_iff in Ht as [Ht _]. split; auto.
  intros h u Hin Eu. pose proof (iter_correct_known _ _ Hu h u Hin Eu) as Hu'.
  apply Z.nlt_ge. intros Hlt. enough (existsb (fun v => w_timestamp (wire_unit_of sw) <? timestamp v) us = true)
    by congruence.
  apply existsb_exists. exists u. split; [by apply list_elem_of_In|lia].
Qed.

Lemma wire_eta (sw : SignedWireUnit) : sw =
  {| hashed_wire_unit :=
       {| hw_hash := hash_of sw;
          hw_wire_unit :=
            {| w_panorama := w_panorama (wire_unit_of sw); w_creator := w_creator (wire_unit_of sw);
               w_instance_id := w_instance_id (wire_unit_of sw); w_value := w_value (wire_unit_of sw);
               w_seq_number := w_seq_number (wire_unit_of sw); w_timestamp := w_timestamp (wire_unit_of sw);
               w_round_exp := w_round_exp (wire_unit_of sw); w_endorsed := w_endorsed (wire_unit_of sw) |} |};
     signature := signature sw |}.
Proof. by destruct sw as [[hh []] sg]. Qed.

(** ** Adding the unit *)

Section New.
Variable sw : SignedWireUnit.
Hypothesis AC : acceptable sw.
Hypothesis NEW : has_unit s (hash_of sw) = false.

Let w := wire_unit_of sw.
Let h := hash_of sw.
Let pan := w_panorama w.

Lemma new_fresh : units s !! h = None.
Proof. unfold has_unit in NEW. apply bool_decide_eq_false in NEW. by apply eq_None_not_Some. Qed.

Lemma own_obs : exists o, pan !! w_creator w = Some o /\ o <> ObsFaulty.
Proof.
  destruct (lookup_lt_is_Some_2 pan (w_creator w)) as [o Ho].
  { unfold pan, w. rewrite (vp_len _ _ (ac_pan _ AC)). apply (ac_creator _ AC). }
  exists o. split; [done|]. intros ->. by apply (ac_own _ AC).
Qed.

Lemma get_unit_skip {E} x l r : unit_info s x = Some (r, l) -> u_skip_idx <$> st_unit (E:=E) s x = Ok l.
Proof.
  unfold unit_info, st_unit, maybe_unit. destruct (units s !! x); [|done]. cbn. congruence.
Qed.

Lemma get_block_skip {E} x l r : block_info s x = Some (r, l) -> skip_idx <$> st_block (E:=E) s x = Ok l.
Proof.
  unfold block_info, st_block, maybe_block. destruct (blocks s !! x); [|done]. cbn. congruence.
Qed.

(** The new unit's skip list. *)
Lemma unit_skip {E} : exists l,
  (o ← vm_index (E:=E) pan (w_creator w);
   match obs_correct o with
   | Some h => skip_loop (fun h => u_skip_idx <$> st_unit s h)
                 (Z.to_nat (trailing_zeros (w_seq_number w))) 0 [h]
   | None => Ok []
   end) = Ok l /\
  chain_top (unit_info s) (w_seq_number w) l /\
  pan !! w_creator w = Some (match head l with Some x => ObsCorrect x | None => ObsNone end).
Proof.
  destruct own_obs as (o & Ho & Hf). unfold vm_index. rewrite Ho. cbn [expect mbind res_bind].
  pose proof (ac_seq _ AC) as Hs. unfold next_seq_num, vm_index in Hs. unfold pan, w in Ho. rewrite Ho in Hs.
  cbn in Hs. destruct o as [|x|]; [| |done]; cbn [obs_correct] in *.
  - exists []. split; [done|]. split; [|done]. left. injection Hs as Hs. unfold w. by rewrite <- Hs.
  - apply bind_Ok in Hs as (ux & Ex%expect_Ok & Hs). unfold u64_add, plain_add in Hs.
    destruct (checked_add 64 _ 1) as [n|] eqn:En; [|done]. injection Hs as ->.
    unfold checked_add in En. destruct (_ <=? _); [|done]. injection En as En.
    assert (rank_of (unit_info s) x = Some (w_seq_number w - 1)) as Hr.
    { rewrite (known_rank _ _ _ Ex). f_equal. unfold w. lia. }
    pose proof (seq_range s WF x ux Ex) as Hsx.
    destruct (skip_loop_top (unit_info s) (wf_lanes _ WF) (E:=E)
      (fun h => u_skip_idx <$> st_unit s h) x (w_seq_number w)) as (l & -> & H0 & Hb & Hl);
      [intros; by eapply get_unit_skip|unfold w; lia|done|].
    exists l. split; [done|]. split.
    + right. exists x. split_and!; [unfold w; lia|done..].
    + destruct l; [done|]. cbn in H0. injection H0 as ->. done.
Qed.

Lemma votes_of_correct : has_correct pan = true -> correct_votes s pan <> [].
Proof.
  unfold has_correct. intros (o & Hin & Hc)%existsb_exists. apply list_elem_of_In in Hin.
  destruct o as [|x|]; [done| |done]. apply list_elem_of_lookup in Hin as [idx Hi].
  pose proof (valid_pan_cites _ _ (ac_pan _ AC) _ _ Hi) as [ux Ex].
  destruct (lookup_lt_is_Some_2 (weights s) idx) as [wt Hw].
  { rewrite <- (vp_len _ _ (ac_pan _ AC)). by eapply lookup_lt_Some. }
  intros En. enough ((u_block ux, wt) ∈ correct_votes s pan) by (rewrite En in *; set_solver).
  unfold correct_votes. apply list_elem_of_omap. exists (ObsCorrect x, wt). split.
  - apply list_elem_of_lookup. exists idx. apply lookup_zip_with_Some. eauto.
  - cbn. by rewrite Ex.
Qed.

Lemma fork_choice_new {E} : exists r, fork_choice (E:=E) s pan = Ok r /\
  (forall b, r = Some b -> is_Some (blocks s !! b)) /\ (w_value w = None -> is_Some r).
Proof.
  destruct (fork_choice_spec s WF SM pan (valid_pan_cites _ _ (ac_pan _ AC)) WO (E:=E)) as (r & -> & Hr).
  exists r. split; [done|]. destruct r as [b|].
  - split; [|by eexists]. intros b' [= <-]. destruct Hr as [G _].
    by destruct (ghost_facts s WF SM _ _ G).
  - split; [done|]. intros Hv%(ac_block _ AC). by apply votes_of_correct in Hv.
Qed.

Lemma Block_new_ok {E} r v : (forall b, r = Some b -> is_Some (blocks s !! b)) ->
  exists b, Block_new (E:=E) s r v = Ok b /\ value b = v /\
    chain_top (block_info s) (height b) (skip_idx b) /\ Block_parent b = r.
Proof.
  intros K. destruct r as [x|]; cbn [Block_new].
  2: { eexists. split; [done|]. split_and!; [done|by left|done]. }
  destruct (K x eq_refl) as [bx Ex].
  assert (st_block (E:=E) s x = Ok bx) as -> by (unfold st_block, maybe_block; by rewrite Ex).
  cbn [mbind res_bind].
  destruct (height_range s WF SM x bx Ex) as [Hh _]. pose proof (blocks_le_units s WF) as Hle.
  unfold u64_add, plain_add, checked_add. unfold small in SM. rewrite (proj2 (Z.leb_le _ _)) by lia.
  cbn [expect mbind res_bind].
  assert (rank_of (block_info s) x = Some (height bx + 1 - 1)) as Hr.
  { unfold rank_of, block_info. rewrite Ex. cbn. f_equal. lia. }
  destruct (skip_loop_top (block_info s) (wf_chains _ WF) (E:=E)
    (fun h => skip_idx <$> st_block s h) x (height bx + 1)) as (l & El & H0 & Hb & Hl);
    [intros; by eapply get_block_skip|lia|done|]. rewrite El.
  cbn. eexists. split; [done|]. cbn. split_and!; [done| |by rewrite <- head_lookup in H0].
  right. exists x. split_and!; [lia|done..].
Qed.

(** A unit holds what its wire format says. *)
Record from_wire u : Prop := {
  fw_panorama : u_panorama u = pan;
  fw_seq : seq_number u = w_seq_number w;
  fw_creator : creator u = w_creator w;
  fw_timestamp : timestamp u = w_timestamp w;
  fw_signature : u_signature u = signature sw;
  fw_round_exp : round_exp u = w_round_exp w;
  fw_endorsed : endorsed u = w_endorsed w;
}.

Lemma Unit_new_ok {E} r : (w_value w = None -> is_Some r) ->
  exists u, Unit_new (E:=E) s sw r = Ok (u, w_value w) /\ from_wire u /\
    chain_top (unit_info s) (seq_number u) (u_skip_idx u) /\
    u_panorama u !! creator u =
      Some (match Unit_previous u with Some x => ObsCorrect x | None => ObsNone end) /\
    match w_value w with Some _ => u_block u = h | None => r = Some (u_block u) end.
Proof.
  intros Hr. destruct (unit_skip (E:=E)) as (l & El & Ht & Ho). unfold Unit_new. cbv zeta.
  change (wire_unit_of sw) with w. change (w_panorama w) with pan.
  destruct (match w_value w with Some _ => _ | None => _ end) as [b|?| |] eqn:Eb.
  - cbn [mbind res_bind]. destruct (vm_index pan (w_creator w)) as [o|?| |]; cbn [mbind res_bind] in *;
      try done. rewrite El. cbn. eexists. split; [done|]. split; [by split|]. split_and!; [done|done|].
    cbn. destruct (w_value w); [by injection Eb|]. by apply expect_Ok in Eb.
  - destruct (w_value w); [done|]. destruct (Hr eq_refl) as [? ->]. done.
  - destruct (w_value w); [done|]. destruct (Hr eq_refl) as [? ->]. done.
  - destruct (w_value w); [done|]. destruct (Hr eq_refl) as [? ->]. done.
Qed.

Lemma addable_new u ob : from_wire u -> chain_top (unit_info s) (seq_number u) (u_skip_idx u) ->
  u_panorama u !! creator u =
    Some (match Unit_previous u with Some x => ObsCorrect x | None => ObsNone end) ->
  match ob with
  | Some b => u_block u = h /\ chain_top (block_info s) (height b) (skip_idx b)
  | None => is_Some (blocks s !! u_block u)
  end -> addable s h u ob.
Proof.
  intros F Ht Ho Hb. split; try done.
  - apply new_fresh.
  - rewrite (fw_panorama _ F). apply (ac_pan _ AC).
  - intros idx h' u' Hi Eu. rewrite (fw_panorama _ F) in Hi. rewrite (fw_timestamp _ F).
    apply (ac_time _ AC h' u'); [|done]. apply elem_of_iter_correct. by exists idx.
  - rewrite (fw_panorama _ F). apply (ac_faulty _ AC).
Qed.

(** The creator cited a unit other than its latest one: its swimlane has another
    unit with the new unit's number. *)
Lemma lane_conflict s' u ob x0 : addable s h u ob -> added s h u ob s' -> small s' ->
  panorama s !! creator u = Some (ObsCorrect x0) -> u_panorama u !! creator u <> Some (ObsCorrect x0) ->
  exists h0 u0, (forall E, find_in_swimlane (E:=E) s' x0 (seq_number u) = Ok (Some h0)) /\
    units s !! h0 = Some u0 /\ creator u0 = creator u /\ seq_number u0 = seq_number u.
Proof.
  intros A D SM' E0 Hne. pose proof (wf_added s s' h u ob WF A D) as WF'.
  destruct (wf_latest _ WF _ _ E0) as [(ux & Ex & Hx) L].
  destruct (old_unit s s' h u ob A D x0 ux Ex) as [_ Ex'].
  pose proof (seq_small s h u ob WF A) as [Hs0 _]. pose proof (seq_range s WF x0 ux Ex) as Hsx.
  assert (seq_number u <= seq_number ux) as Hle.
  { destruct (au_skip _ _ _ _ A) as [[-> _]|(y & Hr & Hy & H0 & _)]; [lia|].
    pose proof (au_own _ _ _ _ A) as Ho. unfold Unit_previous in Ho.
    destruct (u_skip_idx u) as [|y' l]; [done|]. injection H0 as ->. cbn in Ho.
    destruct (vp_entries _ _ (au_pan _ _ _ _ A) _ _ Ho) as (uy & Ey & Hc & _).
    rewrite (known_rank _ _ _ Ey) in Hy. injection Hy as Hy.
    destruct (lane_le_seq s WF x0 y ux uy (L y uy Ey Hc) Ex Ey) as (_ & Hsy & Heq).
    destruct (decide (seq_number uy = seq_number ux)) as [E|]; [|lia].
    rewrite (Heq E) in Ho. by rewrite Ho in Hne. }
  assert (forall E, find_in_swimlane (E:=E) s' x0 (seq_number u) =
    Ok (at_rank (unit_info s') x0 (seq_number u))) as Hf.
  { intros E. by eapply find_in_swimlane_eq. }
  destruct (at_rank_total (unit_info s') (wf_lanes _ WF') x0 (seq_number ux) (seq_number u)) as (h0 & Hh & Hr);
    [by apply known_rank|lia|].
  exists h0. rewrite Hh in Hf.
  assert (lane_le s' h0 x0) as Hl.
  { unfold at_rank in Hh. rewrite (known_rank _ _ _ Ex') in Hh. case_match; [|done]. by eexists. }
  apply (lane_extend s s' h u ob WF A D) in Hl; [|by eexists].
  destruct (lane_le_known s WF x0 h0 Hl) as [u0 Eu0]; [by eexists|].
  destruct (old_unit s s' h u ob A D h0 u0 Eu0) as [_ Eu0'].
  rewrite (known_rank _ _ _ Eu0') in Hr. injection Hr as Hr.
  destruct (lane_le_seq s WF x0 h0 ux u0 Hl Ex Eu0) as (Hc & _). exists u0.
  split_and!; [apply Hf|done|congruence|done].
Qed.

(** The fields that never change. *)
Record same_static (s s' : State) : Prop := {
  ss_params : params s' = params s;
  ss_weights : weights s' = weights s;
  ss_cumulative : cumulative_w s' = cumulative_w s;
  ss_leaders : cumulative_w_leaders s' = cumulative_w_leaders s;
  ss_can_propose : can_propose s' = can_propose s;
}.

(** The new fault, if the unit is the first found equivocation of its creator:
    two different units with the same creator and number. *)
Definition new_fault u (s' : State) : Prop :=
  faults s' = faults s \/
  faults s !! creator u = None /\ exists h0 u0 w0 w1,
    units s !! h0 = Some u0 /\ creator u0 = creator u /\ seq_number u0 = seq_number u /\ h0 <> h /\
    wire_unit s' h0 (w_instance_id w) = Some w0 /\ wire_unit s' h (w_instance_id w) = Some w1 /\
    faults s' = <[creator u := Direct (Equivocation w0 w1)]> (faults s).

Lemma update_panorama_ok {E} s3 u ob : addable s h u ob -> same_static s s3 ->
  units s3 = <[h := u]> (units s) ->
  blocks s3 = match ob with Some b => <[h := b]> (blocks s) | None => blocks s end ->
  panorama s3 = panorama s -> faults s3 = faults s -> length (pings s3) = length (pings s) ->
  small s3 ->
  exists s', update_panorama (E:=E) s3 h (w_instance_id w) = Ok s' /\ added s h u ob s' /\
    same_static s s' /\ new_fault u s'.
Proof.
  intros A St Eu Eb Ep Ef El SM3. unfold update_panorama.
  assert (forall E, st_unit (E:=E) s3 h = Ok u) as Hu.
  { intros E'. unfold st_unit, maybe_unit. by rewrite Eu, lookup_insert, decide_True by done. }
  rewrite Hu. cbn [mbind res_bind]. rewrite Ep. unfold vm_index.
  destruct (creator_in s h u ob WF A) as [o0 E0]. rewrite E0, (au_own _ _ _ _ A).
  cbn [expect mbind res_bind].
  assert (forall pn i o, is_Some (pn !! i) -> vm_set (E:=E) pn i o = Ok (<[i := o]> pn)) as Hset.
  { intros pn i o [x Hx]. unfold vm_set. apply lookup_lt_Some in Hx. by rewrite (proj2 (Nat.ltb_lt _ _)). }
  assert (forall fs o, units (set_faults s3 fs (<[creator u := o]> (panorama s))) = <[h := u]> (units s))
    as Eu' by done.
  set (o1 := match Unit_previous u with Some x => ObsCorrect x | None => ObsNone end).
  case_bool_decide as Hf0.
  { subst o0. cbn [mbind res_bind]. unfold set_observation. rewrite Ep, Hset by eauto. cbn.
    eexists. split; [done|]. split_and!; [|by destruct St|by left].
    split; [done|done|by apply St|done|]. right. split; [done|]. split.
    { rewrite E0, (au_own _ _ _ _ A). by destruct (Unit_previous u). }
    cbn. rewrite Ef. intros idx. split; [auto|]. intros [->|?]; [|done]. by apply (wf_faults _ WF). }
  case_bool_decide as Hf1.
  { subst o0. cbn [mbind res_bind]. unfold set_observation. rewrite Ep, Hset by eauto. cbn.
    eexists. split; [done|]. split_and!; [|by destruct St|by left].
    split; [done|done|by apply St|done|]. left. rewrite Ef. split_and!; [done|done|].
    by rewrite E0, (au_own _ _ _ _ A). }
  destruct o0 as [|x0|]; [| |done].
  { exfalso. pose proof (au_own _ _ _ _ A) as Ho. unfold o1 in Hf1.
    destruct (Unit_previous u) as [x|]; [|done].
    destruct (vp_entries _ _ (au_pan _ _ _ _ A) _ _ Ho) as (ux & Ex & Hc & _).
    by apply (wf_latest _ WF _ _ E0 x ux Ex). }
  assert (faults s !! creator u = None) as Hnf.
  { apply eq_None_not_Some. rewrite <- (wf_faults _ WF), E0. done. }
  assert (panorama s !! creator u <> u_panorama u !! creator u) as Hne.
  { rewrite E0, (au_own _ _ _ _ A). intros [= E1]. by apply Hf1. }
  pose (sf := set_faults s3 (<[creator u := Indirect]> (faults s)) (<[creator u := ObsFaulty]> (panorama s))).
  assert (added s h u ob sf) as Df.
  { split; [done|done|by apply St|done|]. right. split_and!; [done|done|]. intros idx. cbn.
    rewrite lookup_insert_is_Some'. naive_solver. }
  destruct (lane_conflict sf u ob x0 A Df) as (h0 & u0 & Hfi & Eu0 & Hc0 & Hs0); [done|done|congruence|].
  rewrite (find_in_swimlane_units s3 sf) by done. rewrite Hfi. cbn [expect mbind res_bind].
  destruct (old_unit s sf h u ob A Df h0 u0 Eu0) as [Hne0 Eu0'].
  assert (exists w0, wire_unit s3 h0 (w_instance_id w) = Some w0 /\ w_creator (wire_unit_of w0) = creator u)
    as (w0 & Hw0 & Hcw).
  { unfold wire_unit, maybe_unit. rewrite Eu, lookup_insert_ne, Eu0 by congruence. by eexists. }
  assert (exists w1, wire_unit s3 h (w_instance_id w) = Some w1) as (w1 & Hw1).
  { unfold wire_unit, maybe_unit. rewrite Eu, lookup_insert, decide_True by done. by eexists. }
  rewrite Hw0, Hw1. cbn [expect mbind res_bind]. unfold add_evidence.
  cbn [andb TODO_ENDORSEMENT_EVIDENCE_DISABLED perpetrator].
  rewrite Hcw, Ef, Hnf, Ep, Hset by eauto. cbn. unfold set_observation. cbn. rewrite Hset; cbn.
  2: { apply lookup_lt_is_Some_2. rewrite length_insert. by eapply lookup_lt_Some. }
  eexists. split; [done|]. split_and!; [|by destruct St|].
  - split; [done|done|by apply St|done|]. right. cbn. rewrite list_insert_insert_eq. split_and!; [done|done|].
    intros idx. rewrite lookup_insert_is_Some'. naive_solver.
  - right. split; [done|]. exists h0, u0, w0, w1. split_and!; done.
Qed.

Lemma add_ping_ok {E} s0 i t : is_Some (pings s0 !! i) ->
  exists ps, add_ping (E:=E) s0 i t = Ok (set_pings s0 ps) /\ length ps = length (pings s0).
Proof.
  intros [x Hx]. unfold add_ping, vm_index, vm_set. rewrite Hx. cbn [expect mbind res_bind].
  rewrite (proj2 (Nat.ltb_lt _ _)) by (by eapply lookup_lt_Some). eexists. split; [done|].
  apply length_insert.
Qed.

Hypothesis ROOM : Z.of_nat (S (size (units s))) < uint_max 64.

(** The unit is added, and can be sent on exactly as it was received. *)
Lemma add_valid_unit_new {E} : exists u ob s',
  add_valid_unit (E:=E) s sw = Ok s' /\ from_wire u /\ addable s h u ob /\ added s h u ob s' /\
  same_static s s' /\ new_fault u s' /\ wire_unit s' h (w_instance_id w) = Some sw /\
  exists r, fork_choice (E:=E) s pan = Ok r /\
    match ob with Some b => u_block u = h /\ Block_parent b = r | None => r = Some (u_block u) end.
Proof.
  destruct (fork_choice_new (E:=E)) as (r & Hr & Kr & Sr).
  destruct (Unit_new_ok (E:=E) r Sr) as (u & Hu & F & Ht & Ho & Hb).
  assert (exists ob, addable s h u ob /\ value <$> ob = w_value w /\
    match ob with Some b => u_block u = h /\ Block_parent b = r | None => r = Some (u_block u) end /\
    match w_value w with
    | Some v => b ← Block_new (E:=E) s r v; mret (set_blocks s (<[h := b]> (blocks s)))
    | None => Ok s
    end = Ok (match ob with Some b => set_blocks s (<[h := b]> (blocks s)) | None => s end))
    as (ob & A & Hv & Hvote & Hs1).
  { destruct (w_value w) as [v|].
    - destruct (Block_new_ok (E:=E) r v Kr) as (b & Eb & Hvb & Hc & Hpb). exists (Some b). cbn. rewrite Hvb, Eb.
      split_and!; [|done..]. by apply addable_new.
    - exists None. split_and!; [|done..]. apply addable_new; [done..|]. by apply Kr. }
  set (s1 := match ob with Some b => set_blocks s (<[h := b]> (blocks s)) | None => s end) in *.
  assert (is_Some (pings s1 !! creator u)) as Hp.
  { apply lookup_lt_is_Some_2. replace (pings s1) with (pings s) by (by destruct ob).
    rewrite (wf_pings _ WF), (fw_creator _ F). apply (ac_creator _ AC). }
  destruct (add_ping_ok (E:=E) s1 (creator u) (timestamp u) Hp) as (ps & Eps & Lps).
  pose (s3 := set_units (set_pings s1 ps) (<[h := u]> (units (set_pings s1 ps)))).
  destruct (update_panorama_ok (E:=E) s3 u ob A) as (s' & Es' & D & St & Nf);
    [by destruct ob|by destruct ob|by destruct ob|by destruct ob|by destruct ob| | |].
  { cbn. rewrite Lps. by destruct ob. }
  { unfold small, s3. cbn. replace (units s1) with (units s) by (by destruct ob).
    rewrite map_size_insert, new_fresh. exact ROOM. }
  exists u, ob, s'. split_and!; [|done..| |].
  - unfold add_valid_unit. cbv zeta. rewrite NEW. change (w_panorama (wire_unit_of sw)) with pan.
    rewrite Hr. cbn [mbind res_bind]. rewrite Hu. cbn [mbind res_bind]. fold w h. rewrite Hs1.
    cbn [mbind res_bind]. rewrite Eps. cbn [mbind res_bind]. exact Es'.
  - unfold wire_unit, maybe_unit, maybe_block.
    rewrite (ad_units _ _ _ _ _ D), lookup_insert, decide_True by done. cbn.
    assert (value <$> blocks s' !! h = w_value w) as ->.
    { rewrite (ad_blocks _ _ _ _ _ D), <- Hv. pose proof (block_fresh s h u ob WF A) as Bf.
      destruct ob; [by rewrite lookup_insert, decide_True by done|by rewrite Bf]. }
    destruct F as [-> -> -> -> -> -> ->]. by rewrite (wire_eta sw).
  - by exists r.
Qed.

End New.
End Valid.
