(* ===== verification/HighwayLeader.v ===== *)
(** * Leaders, and the parts of the state that never change

    [State::new] sets up the validators' weights with their running sums, from
    which the leader of every round is drawn.  This file shows that a state starts
    out well-formed, that the search in the running sums finds the validator a
    drawn number belongs to, and that only validators who may propose and have
    stake become leaders. *)

From Stdlib Require Import Sorting.Sorted.
From S2P Require Import Prelude Highway HighwaySkip HighwayInv HighwayTally HighwayFork HighwayAdd.

Local Open Scope Z_scope.

(** ** Running sums *)

Fixpoint running (acc : Z) (l : list Z) : list Z :=
  match l with [] => [] | x :: l => (acc + x) :: running (acc + x) l end.

Definition zsum (l : list Z) : Z := foldr Z.add 0 l.

Lemma zsum_nonneg l : Forall (Z.le 0) l -> 0 <= zsum l.
Proof. unfold zsum. induction 1; cbn; lia. Qed.

Lemma zsum_app l k : zsum (l ++ k) = zsum l + zsum k.
Proof. unfold zsum. induction l as [|x l IH]; cbn; [done|]. rewrite IH. lia. Qed.

Lemma running_length acc l : length (running acc l) = length l.
Proof. revert acc. induction l as [|x l IH]; intros acc; cbn; [done|]. by rewrite IH. Qed.

Lemma running_lookup l : forall acc i, (i < length l)%nat ->
  running acc l !! i = Some (acc + zsum (take (S i) l)).
Proof.
  unfold zsum. induction l as [|x l IH]; intros acc i Hi; cbn [length] in Hi; [lia|].
  destruct i as [|i]; cbn [running lookup list_lookup firstn foldr]; [rewrite take_0; cbn; f_equal; lia|].
  rewrite IH by lia. cbn [firstn foldr]. f_equal. lia.
Qed.

Lemma running_last acc l : l <> [] -> last (running acc l) = Some (acc + zsum l).
Proof.
  intros Hne. rewrite last_lookup, running_length. destruct l as [|x l]; [done|].
  rewrite running_lookup by (cbn; lia). f_equal. f_equal. f_equal. by rewrite take_ge by (cbn; lia).
Qed.

Lemma running_sorted acc l : Forall (Z.le 0) l -> StronglySorted Z.le (running acc l).
Proof.
  intros Hn. revert acc. induction Hn as [|x l Hx Hn IH]; intros acc; cbn; [constructor|].
  constructor; [apply IH|]. clear IH. assert (acc + x <= acc + x) as Hle by lia. revert Hle.
  generalize (acc + x) at 1 3. intros a. generalize (acc + x). clear Hx x acc.
  induction Hn as [|x l Hx Hn IH]; intros b Hle; cbn; constructor; [lia|apply IH; lia].
Qed.

(** ** The search in a sorted list *)

Section Search.
Context `{BinarySearch}.

Lemma sorted_lookup_le (l : list Z) i j x y : StronglySorted Z.le l -> (i <= j)%nat ->
  l !! i = Some x -> l !! j = Some y -> x <= y.
Proof.
  intros Hs. revert i j. induction Hs as [|z l Hs IH Hz]; intros i j Hij Hi Hj; [done|].
  destruct i as [|i], j as [|j]; cbn in *; [simplify_eq; lia| |lia|eapply IH; [|done..]; lia].
  injection Hi as <-. rewrite Forall_forall in Hz. apply Hz. by eapply list_elem_of_lookup_2.
Qed.

Lemma first_equal_below_spec (l : list Z) x : StronglySorted Z.le l -> forall i, l !! i = Some x ->
  let k := default i (first_equal_below l x i) in
  (k <= i)%nat /\ l !! k = Some x /\ forall j y, l !! j = Some y -> (j < k)%nat -> y < x.
Proof.
  intros Hs. induction i as [|i IH]; intros Hi; cbn.
  { split_and!; [lia|done|lia]. }
  destruct (lookup_lt_is_Some_2 l i) as [y Hy]; [apply lookup_lt_Some in Hi; lia|]. rewrite Hy.
  destruct (Z.eqb_spec y x) as [->|Hne]; cbn.
  - destruct (IH Hy) as (Hk & Hx & Hlt). split_and!; [lia|done|done].
  - split_and!; [lia|done|]. intros j z Hz Hj. pose proof (sorted_lookup_le l j i z y Hs) as Hle.
    pose proof (sorted_lookup_le l i (S i) y x Hs). specialize (Hle ltac:(lia) Hz Hy).
    assert (y <= x) by auto with lia. lia.
Qed.

(** The lowest index of an entry that is at least [x]. *)
Lemma vm_binary_search_spec (l : list Z) x : StronglySorted Z.le l ->
  match vm_binary_search l x with
  | Some i => (exists y, l !! i = Some y /\ x <= y) /\ forall j y, l !! j = Some y -> (j < i)%nat -> y < x
  | None => forall y, y ∈ l -> y < x
  end.
Proof.
  intros Hs. unfold vm_binary_search. destruct (slice_binary_search l x) as [i|i] eqn:E.
  - pose proof (slice_binary_search_found l x i Hs E) as Hi.
    destruct (first_equal_below_spec l x Hs i Hi) as (_ & Hx & Hlt). split; [|done].
    exists x. split; [done|lia].
  - destruct (slice_binary_search_missing l x i Hs E) as (Hi & Hlt & Hgt).
    destruct (Nat.ltb_spec i (length l)) as [Hl|Hl].
    + split; [|done]. destruct (lookup_lt_is_Some_2 l i Hl) as [y Hy]. exists y. split; [done|].
      specialize (Hgt i y Hy). lia.
    + intros y [j Hj]%list_elem_of_lookup. apply (Hlt j); [done|]. apply lookup_lt_Some in Hj. lia.
Qed.

(** The validator whose share of the running sums contains [r]. *)
Definition owns (ws : list Z) (r : Z) (i : nat) : Prop :=
  exists w, ws !! i = Some w /\ zsum (take i ws) < r <= zsum (take i ws) + w.

Lemma take_S_sum (ws : list Z) i w : ws !! i = Some w -> zsum (take (S i) ws) = zsum (take i ws) + w.
Proof. intros Hw. rewrite (take_S_r _ _ w Hw), zsum_app. unfold zsum at 2. cbn. lia. Qed.

Lemma binary_search_owner (ws : list Z) r : Forall (Z.le 0) ws -> 0 < r <= zsum ws ->
  exists i, vm_binary_search (running 0 ws) r = Some i /\ owns ws r i.
Proof.
  intros Hn Hr. pose proof (vm_binary_search_spec (running 0 ws) r (running_sorted 0 ws Hn)) as Hs.
  destruct (vm_binary_search (running 0 ws) r) as [i|].
  - exists i. split; [done|]. destruct Hs as [(y & Hy & Hry) Hlt].
    assert (i < length ws)%nat as Hi by (rewrite <- (running_length 0 ws); by eapply lookup_lt_Some).
    destruct (lookup_lt_is_Some_2 ws i Hi) as [w Hw]. exists w. split; [done|].
    rewrite running_lookup in Hy by done. injection Hy as <-. rewrite (take_S_sum _ _ _ Hw) in Hry.
    split; [|lia]. destruct i as [|i]; [rewrite take_0; unfold zsum; cbn; lia|].
    apply (Hlt i); [|lia]. rewrite running_lookup by lia. f_equal.
  - destruct ws as [|w ws]; [unfold zsum in Hr; cbn in Hr; lia|].
    pose proof (running_last 0 (w :: ws) ltac:(done)) as Hl. apply last_Some_elem_of in Hl.
    specialize (Hs _ Hl). lia.
Qed.

Lemma owns_unique ws r i j : Forall (Z.le 0) ws -> owns ws r i -> owns ws r j -> i = j.
Proof.
  assert (forall i j, Forall (Z.le 0) ws -> owns ws r i -> owns ws r j -> (i < j)%nat -> False) as K.
  { intros i' j' Hn (w & Hw & Hi) (w' & Hw' & Hj) Hlt. rewrite <- (take_S_sum _ _ _ Hw) in Hi.
    assert (zsum (take (S i') ws) <= zsum (take j' ws)); [|lia].
    replace (take j' ws) with (take (S i') ws ++ take (j' - S i') (drop (S i') ws)).
    - rewrite zsum_app. pose proof (zsum_nonneg (take (j' - S i') (drop (S i') ws))) as Hnn.
      specialize (Hnn ltac:(by apply Forall_take, Forall_drop)). lia.
    - rewrite take_take_drop. f_equal. lia. }
  intros Hn Hi Hj. destruct (Nat.lt_trichotomy i j) as [|[|]]; [exfalso|done|exfalso]; eauto.
Qed.

End Search.

(** ** The static part of the state *)

Section Static.
Context {C : ConsensusContext}.

(** The weights that count for leaders. *)
Definition leader_weights (s : State) : list Z :=
  zip_with (fun (b : bool) w => if b then w else 0) (can_propose s) (weights s).

Record static_ok (s : State) : Prop := {
  so_weights : Forall (Z.le 0) (weights s);
  so_cum : cumulative_w s = running 0 (weights s);
  so_can : length (can_propose s) = length (weights s);
  so_lead : cumulative_w_leaders s = running 0 (leader_weights s);
  so_total : 0 < zsum (weights s) <= uint_max 64;
  so_lead_total : 0 < zsum (leader_weights s);
}.

Lemma static_same s s' : same_static s s' -> static_ok s -> static_ok s'.
Proof.
  intros [Ep Ew Ec El Ea] [? ? ? ? ? ?]. unfold leader_weights in *.
  split; unfold leader_weights; rewrite ?Ew, ?Ec, ?El, ?Ea; done.
Qed.

Lemma leader_weights_lookup s i x : leader_weights s !! i = Some x ->
  exists (b : bool) w, can_propose s !! i = Some b /\ weights s !! i = Some w /\ x = if b then w else 0.
Proof. unfold leader_weights. rewrite lookup_zip_with_Some. naive_solver. Qed.

Lemma leader_weights_le (cp : list bool) (ws : list Z) : Forall (Z.le 0) ws ->
  Forall (Z.le 0) (zip_with (fun (b : bool) w => if b then w else 0) cp ws) /\
  zsum (zip_with (fun (b : bool) w => if b then w else 0) cp ws) <= zsum ws.
Proof.
  unfold zsum. intros Hn. revert cp. induction Hn as [|w ws Hw Hn IH]; intros [|b cp]; cbn [zip_with foldr].
  - split; [constructor|lia].
  - split; [constructor|lia].
  - split; [constructor|]. pose proof (zsum_nonneg ws Hn). unfold zsum in *. cbn. lia.
  - destruct (IH cp) as [IH1 IH2]. split; [constructor; [destruct b; lia|done]|]. destruct b; lia.
Qed.

(** *** [State::new] *)

Lemma sums_running {E} (ws : list Z) : forall acc, Forall (Z.le 0) ws ->
  default 0 (last acc) + zsum ws <= uint_max 64 -> 0 <= default 0 (last acc) ->
  fold_res (E:=E) sums acc ws = Ok (acc ++ running (default 0 (last acc)) ws).
Proof.
  unfold zsum. induction ws as [|w ws IH]; intros acc Hn Hs Ha; cbn [fold_res running]; [by rewrite app_nil_r|].
  inversion Hn as [|? ? Hw Hn']; subst. pose proof (zsum_nonneg ws Hn') as Hnn. unfold zsum in Hnn.
  cbn [foldr] in Hs.
  assert (sums (E:=E) acc w = Ok (acc ++ [default 0 (last acc) + w])) as ->.
  { unfold sums, Weight_checked_add, checked_add. by rewrite (proj2 (Z.leb_le _ _)) by lia. }
  cbn [mbind res_bind].
  rewrite IH; [|done|rewrite last_snoc; cbn; lia..]. rewrite last_snoc. cbn. by rewrite <- app_assoc.
Qed.

Lemma fold_set {E A} (n : nat) (x : A) (idxs : list nat) : forall m, length m = n ->
  Forall (fun i => (i < n)%nat) idxs ->
  exists m', fold_res (E:=E) (fun m i => _ ← rassert (i <? n)%nat; vm_set m i x) m idxs = Ok m' /\
    length m' = n /\ forall i, (i < n)%nat -> m' !! i = if decide (i ∈ idxs) then Some x else m !! i.
Proof.
  induction idxs as [|j idxs IH]; intros m Hm Hf; cbn [fold_res].
  { exists m. split_and!; [done|done|]. intros i _. by rewrite decide_False by set_solver. }
  inversion Hf as [|? ? Hj Hf']; subst. unfold vm_set. rewrite (proj2 (Nat.ltb_lt _ _)) by done.
  cbn [rassert mbind res_bind]. destruct (IH (<[j := x]> m)) as (m' & Em & Hl & Hi);
    [by rewrite length_insert|done|]. exists m'. split_and!; [exact Em|done|].
  intros i Hil. rewrite Hi by done. destruct (decide (i ∈ idxs)).
  - by rewrite decide_True by set_solver.
  - destruct (decide (i = j)) as [->|Hne].
    + rewrite decide_True by set_solver. by rewrite list_lookup_insert_eq.
    + rewrite decide_False by set_solver. by rewrite list_lookup_insert_ne.
Qed.

Lemma enumerate_from {A} (l : list A) n : zip (seq n (length l)) l = imap (fun i x => ((n + i)%nat, x)) l.
Proof.
  revert n. induction l as [|x l IH]; intros n; cbn; [done|]. rewrite IH. f_equal; [f_equal; lia|].
  apply imap_ext. intros i y Hy. cbn. f_equal. lia.
Qed.

Lemma leader_weights_new {E} (cp : list bool) (ws : list Z) : length cp = length ws ->
  map_res (E:=E) (fun e => b ← vm_index cp e.1; mret (if b : bool then e.2 else 0)) (enumerate ws) =
  Ok (zip_with (fun (b : bool) w => if b then w else 0) cp ws).
Proof.
  intros Hl. rewrite (map_res_Ok _ (fun e => if default false (cp !! e.1) then e.2 else 0)).
  - f_equal. apply list_eq. intros i. rewrite list_lookup_fmap. unfold enumerate. rewrite enumerate_from.
    rewrite list_lookup_imap. destruct (ws !! i) as [w|] eqn:Ew; cbn.
    + destruct (lookup_lt_is_Some_2 cp i) as [b Hb]; [rewrite Hl; by eapply lookup_lt_Some|].
      rewrite Hb. symmetry. apply lookup_zip_with_Some. exists b, w. done.
    + symmetry. apply lookup_zip_with_None. auto.
  - intros [i w] Hin. apply elem_of_enumerate in Hin. cbn. unfold vm_index.
    destruct (lookup_lt_is_Some_2 cp i) as [b Hb]; [rewrite Hl; by eapply lookup_lt_Some|]. by rewrite Hb.
Qed.

Lemma zsum_positive ws i w : Forall (Z.le 0) ws -> ws !! i = Some w -> 0 < w -> 0 < zsum ws.
Proof.
  unfold zsum. intros Hn. revert i. induction Hn as [|x ws Hx Hn IH]; intros [|i] Hi Hw; cbn in Hi |- *; [done|done| |].
  - injection Hi as ->. pose proof (zsum_nonneg ws Hn). unfold zsum in *. lia.
  - specialize (IH i Hi Hw). lia.
Qed.

Lemma State_new_ok {E} (ws : list Z) params banned cannot_propose :
  Forall (Z.le 0) ws -> zsum ws <= uint_max 64 ->
  Forall (fun i => (i < length ws)%nat) banned -> Forall (fun i => (i < length ws)%nat) cannot_propose ->
  (exists i w, ws !! i = Some w /\ 0 < w /\ i ∉ cannot_propose) ->
  exists s, State_new (E:=E) ws params banned cannot_propose = Ok s /\
    wf s /\ static_ok s /\ weights s = ws /\ units s = ∅ /\ Highway.params s = params /\
    (forall i, faults s !! i = if decide (i ∈ banned) then Some Banned else None) /\
    (forall i, (i < length ws)%nat -> can_propose s !! i = Some (bool_decide (i ∉ cannot_propose))).
Proof.
  intros Hn Hs Hb Hc (i0 & w0 & Hi0 & Hw0 & Hp0). unfold State_new.
  pose proof (zsum_positive ws i0 w0 Hn Hi0 Hw0) as Hpos.
  assert (ws <> []) as Hne by (by destruct ws).
  rewrite (proj2 (Nat.ltb_lt _ _)) by (by destruct ws; [|cbn; lia]). cbn [rassert mbind res_bind].
  rewrite sums_running; [|done|cbn; lia|cbn; lia]. cbn [app last default mbind res_bind].
  rewrite running_last by done. cbn [expect mbind res_bind]. rewrite Z.add_0_l, (proj2 (Z.ltb_lt _ _)) by done.
  cbn [rassert mbind res_bind].
  destruct (fold_set (E:=E) (length ws) false cannot_propose ((fun _ => true) <$> ws))
    as (cp & -> & Hcl & Hcp); [by rewrite length_fmap|done|]. cbn [mbind res_bind].
  set (fs := list_to_map ((fun idx => (idx, Banned)) <$> banned) : gmap ValidatorIndex Fault).
  assert (forall i, fs !! i = if decide (i ∈ banned) then Some Banned else None) as Hfs.
  { intros i. unfold fs. clear -C. induction banned as [|j l IH]; cbn; [by rewrite lookup_empty, decide_False by set_solver|].
    destruct (decide (i = j)) as [->|Hij].
    - by rewrite lookup_insert, !decide_True by set_solver.
    - rewrite lookup_insert_ne, IH by done. repeat case_decide; set_solver. }
  assert (forall i, i ∈ (map_to_list fs).*1 <-> i ∈ banned) as Hk.
  { intros i. rewrite list_elem_of_fmap. split.
    - intros ([j f] & -> & Hin%elem_of_map_to_list). rewrite Hfs in Hin. by case_decide.
    - intros Hin. exists (i, Banned). split; [done|]. apply elem_of_map_to_list. rewrite Hfs. by rewrite decide_True. }
  destruct (fold_set (E:=E) (length ws) ObsFaulty (map_to_list fs).*1 (Panorama_new (length ws)))
    as (pan & -> & Hpl & Hpan).
  { by apply length_replicate. }
  { rewrite Forall_forall in *. intros i Hi%Hk. by apply Hb. }
  cbn [mbind res_bind]. rewrite leader_weights_new by done. cbn [mbind res_bind].
  destruct (leader_weights_le cp ws Hn) as [Hln Hls].
  rewrite sums_running; [|done|cbn; lia|cbn; lia]. cbn [app last default mbind res_bind].
  eexists. split; [done|]. cbn [weights units faults can_propose Highway.params].
  assert (forall i, (i < length ws)%nat -> pan !! i = Some (if decide (i ∈ banned) then ObsFaulty else ObsNone))
    as Hpan'.
  { intros i Hi. rewrite Hpan by done. unfold Panorama_new. rewrite lookup_replicate_2 by done.
    repeat case_decide; [done| | |done]; exfalso; rewrite Hk in *; done. }
  split_and!; [| |done|done|done|done|].
  - split; cbn; try done.
    + intros h [u Hu]. done.
    + intros idx o Ho. rewrite Hpan' in Ho by (rewrite <- Hpl; by eapply lookup_lt_Some).
      injection Ho as <-. case_decide; [done|]. intros h u Hu. done.
    + intros idx. rewrite Hfs. destruct (decide (idx < length ws)%nat) as [Hl|Hl].
      * rewrite Hpan' by done. case_decide; [by split; eauto|]. split; [done|by intros []].
      * rewrite lookup_ge_None_2 by lia. rewrite decide_False; [split; [done|by intros []]|].
        intros Hin. rewrite Forall_forall in Hb. by apply Hb in Hin.
    + apply length_replicate.
  - split; [done|done|done|done|by split|]. unfold leader_weights.
    eapply (zsum_positive _ i0 w0); [done| |done]. apply lookup_zip_with_Some. exists true, w0.
    split_and!; [done| |done]. rewrite Hcp by (by eapply lookup_lt_Some).
    rewrite decide_False by done. by rewrite list_lookup_fmap, Hi0.
  - intros i Hi. rewrite Hcp by done. destruct (lookup_lt_is_Some_2 ws i Hi) as [w Hw].
    rewrite list_lookup_fmap, Hw. cbn. case_decide; [by rewrite bool_decide_eq_false_2 by naive_solver|].
    by rewrite bool_decide_eq_true_2.
Qed.

(** *** The leader of a round *)

Section Leader.
Context `{LeaderRng} `{BinarySearch}.

(** The numbers drawn for the round at [t]: among all validators, and again among
    those that may propose. *)
Definition first_draw (s : State) (t : Z) : Z :=
  gen_range (zsum (weights s)) (wrapping_add 64 (seed (params s)) t) + 1.
Definition second_draw (s : State) (t : Z) : Z :=
  gen_range (zsum (leader_weights s)) (wrapping_add 64 (wrapping_add 64 (seed (params s)) t) 1) + 1.

Lemma leader_prng_ok {E} upper sd : 0 < upper <= uint_max 64 ->
  leader_prng (E:=E) upper sd = Ok (gen_range upper sd + 1) /\ 0 < gen_range upper sd + 1 <= upper.
Proof.
  intros Hu. unfold leader_prng. pose proof (gen_range_spec upper sd ltac:(lia)).
  rewrite (proj2 (Z.ltb_lt _ _)) by lia. cbn [rassert mbind res_bind].
  unfold saturating_add. rewrite Z.min_l by lia. split; [done|lia].
Qed.

Lemma running_nonempty ws : 0 < zsum ws -> ws <> [].
Proof. unfold zsum. intros Hs ->. cbn in Hs. lia. Qed.

Lemma owns_positive ws r i : owns ws r i -> exists w, ws !! i = Some w /\ 0 < w.
Proof. intros (w & Hw & Hr). exists w. split; [done|lia]. Qed.

Lemma leader_cases {E} s t : static_ok s ->
  exists i b, owns (weights s) (first_draw s t) i /\ can_propose s !! i = Some b /\
    if b : bool then leader (E:=E) s t = Ok i
    else exists j, leader (E:=E) s t = Ok j /\ owns (leader_weights s) (second_draw s t) j.
Proof.
  intros [Hw Hc Hl Hlw Ht Hlt]. unfold leader, total_weight. rewrite Hc.
  rewrite running_last by (apply running_nonempty; lia). cbn [expect mbind res_bind]. rewrite Z.add_0_l.
  destruct (leader_prng_ok (E:=E) (zsum (weights s)) (wrapping_add 64 (seed (params s)) t) Ht)
    as [-> Hr]. cbn [mbind res_bind].
  destruct (binary_search_owner (weights s) (first_draw s t) Hw Hr) as (i & Ei & Hi).
  unfold first_draw in Ei. rewrite Ei. cbn [from_option id].
  destruct (owns_positive _ _ _ Hi) as (w & Hwi & _).
  destruct (lookup_lt_is_Some_2 (can_propose s) i) as [b Hb]; [rewrite Hl; by eapply lookup_lt_Some|].
  exists i, b. split_and!; [done|done|]. unfold vm_index. rewrite Hb. cbn [expect mbind res_bind].
  destruct b; [done|]. rewrite Hlw. rewrite running_last by (by apply running_nonempty).
  cbn [expect mbind res_bind]. rewrite Z.add_0_l.
  destruct (leader_weights_le (can_propose s) (weights s) Hw) as [Hln Hls].
  destruct (leader_prng_ok (E:=E) (zsum (leader_weights s))
    (wrapping_add 64 (wrapping_add 64 (seed (params s)) t) 1)) as [-> Hr2].
  { split; [done|]. unfold leader_weights. lia. }
  cbn [mbind res_bind].
  destruct (binary_search_owner (leader_weights s) (second_draw s t) Hln Hr2) as (j & Ej & Hj).
  unfold second_draw in Ej. rewrite Ej. cbn. by exists j.
Qed.

Lemma leader_ok {E} s t : static_ok s -> exists i w, leader (E:=E) s t = Ok i /\
  can_propose s !! i = Some true /\ weights s !! i = Some w /\ 0 < w.
Proof.
  intros St. destruct (leader_cases (E:=E) s t St) as (i & b & Hi & Hb & Hl). destruct b.
  - destruct (owns_positive _ _ _ Hi) as (w & Hw & Hp). by exists i, w.
  - destruct Hl as (j & Hl & Hj). destruct (owns_positive _ _ _ Hj) as (x & Hx & Hp).
    destruct (leader_weights_lookup s j x Hx) as ([] & w & Hc & Hw & ->); [|lia]. by exists j, w.
Qed.

End Leader.
End Static.

(** C25 Every round has a leader, drawn in proportion to the stake.  On a state with
    the running sums [State::new] sets up, [leader] never panics: it returns the
    validator whose share of the total weight contains the number drawn for the
    round, or, if that validator must not propose, the one whose share of the
    proposing validators' weight contains a second number.  In either case the
    leader may propose and has positive weight. *)
Theorem leader_drawn {C : ConsensusContext} `{LeaderRng} `{BinarySearch} {E} (s : State) (t : Z) :
  static_ok s ->
  exists i w, leader (E:=E) s t = Ok i /\ can_propose s !! i = Some true /\
    weights s !! i = Some w /\ 0 < w /\
    (owns (weights s) (first_draw s t) i \/
     exists j, owns (weights s) (first_draw s t) j /\ can_propose s !! j = Some false /\
       owns (leader_weights s) (second_draw s t) i).
Proof.
  intros St. destruct (leader_ok (E:=E) s t St) as (i & w & Hl & Hc & Hw & Hp). exists i, w.
  split_and!; [done..|]. destruct (leader_cases (E:=E) s t St) as (j & b & Hj & Hb & Hcase). destruct b.
  - left. congruence.
  - right. destruct Hcase as (k & Hk & Hown). exists j. split_and!; [done|done|]. congruence.
Qed.

(** Excluding validators from the leader sequence moves only their own slots.  If
    two states agree on the parameters and weights, and the leader of a round was
    drawn directly in one of them and may propose in both, then it leads that
    round in both. *)
Theorem leader_slots_kept {C : ConsensusContext} `{LeaderRng} `{BinarySearch} {E} (s s' : State) (t : Z) i :
  static_ok s -> static_ok s' -> params s' = params s -> weights s' = weights s ->
  owns (weights s) (first_draw s t) i -> can_propose s !! i = Some true -> can_propose s' !! i = Some true ->
  leader (E:=E) s t = Ok i /\ leader (E:=E) s' t = Ok i.
Proof.
  intros St St' Ep Ew Hi Hc Hc'.
  assert (forall s0, static_ok s0 -> params s0 = params s -> weights s0 = weights s ->
    can_propose s0 !! i = Some true -> leader (E:=E) s0 t = Ok i) as K.
  { intros s0 St0 Ep0 Ew0 Hc0. destruct (leader_cases (E:=E) s0 t St0) as (j & b & Hj & Hb & Hl).
    unfold first_draw in Hi, Hj. rewrite Ep0, Ew0 in Hj.
    assert (j = i) as ->. { eapply owns_unique; [apply (so_weights _ St)|done|done]. }
    rewrite Hc0 in Hb. injection Hb as <-. done. }
  split; by apply K.
Qed.
