(* ===== verification/HighwayValidate.v ===== *)
(** * Validation never panics

    The checks a node runs on a unit received from the network: whatever the unit
    contains, they end with acceptance or an error, never with a panic. *)

From S2P Require Import Prelude Highway HighwaySkip HighwayInv HighwayTally HighwayFork HighwayAdd HighwayLeader.

Local Open Scope Z_scope.

(** ** Rounds *)

Lemma round_id_eq {E} t e : 0 <= e < 64 -> is_uint 64 t -> round_id (E:=E) t e = Ok (t - t mod 2 ^ e).
Proof.
  unfold is_uint. intros He Ht. unfold round_id, u64_shr, u64_shl. rewrite (proj2 (Z.ltb_lt e 64)) by lia.
  cbn [mbind res_bind]. f_equal. rewrite Z.shiftr_div_pow2, Z.shiftl_mul_pow2 by lia.
  pose proof (Z.pow_pos_nonneg 2 e). pose proof (Z.div_mod t (2 ^ e) ltac:(lia)) as Hd.
  pose proof (Z.mod_pos_bound t (2 ^ e) ltac:(lia)) as Hm.
  assert (t / 2 ^ e * 2 ^ e = t - t mod 2 ^ e) as -> by lia.
  apply Z.mod_small. split; [|lia]. pose proof (Z.mod_le t (2 ^ e)). lia.
Qed.

Section Validate.
Context {C : ConsensusContext} `{LeaderRng} `{BinarySearch}.

(** Round exponents are those of the configuration, whose rounds fit a [u64], and
    units are not older than the era.  A creator that changed its round exponent
    left the longer of the two rounds first. *)
Record exps_ok (s : State) : Prop := {
  ex_params : 0 <= min_round_exp (params s) /\ max_round_exp (params s) < 64;
  ex_units h u : units s !! h = Some u ->
    min_round_exp (params s) <= round_exp u <= max_round_exp (params s) /\ is_uint 64 (timestamp u) /\
    start_timestamp (params s) <= timestamp u;
  ex_change h u h2 u2 : units s !! h = Some u -> Unit_previous u = Some h2 -> units s !! h2 = Some u2 ->
    round_exp u2 <> round_exp u ->
    Z.shiftr (timestamp u2) (Z.max (round_exp u2) (round_exp u)) <>
    Z.shiftr (timestamp u) (Z.max (round_exp u2) (round_exp u));
}.

Lemma exp_range s h u : exps_ok s -> units s !! h = Some u -> 0 <= round_exp u < 64 /\ is_uint 64 (timestamp u).
Proof. intros [[? ?] Eu _] E. destruct (Eu h u E) as (? & ? & _). split; [lia|done]. Qed.

(** A message can only contain numbers of the right width. *)
Definition wire_ok (w : WireUnit) : Prop :=
  is_uint 64 (w_seq_number w) /\ is_uint 64 (w_timestamp w) /\ 0 <= w_round_exp w.

(** Everything a protocol state relies on. *)
Record inv (s : State) : Prop := {
  inv_wf : wf s;
  inv_small : small s;
  inv_static : static_ok s;
  inv_exps : exps_ok s;
  inv_weights : Forall (Z.lt 0) (weights s);
}.

Lemma inv_weights_ok s : inv s -> weights_ok s.
Proof. intros I. split; [apply (inv_weights _ I)|]. apply (so_total _ (inv_static _ I)). Qed.

Section Safe.
Variable s : State.
Hypothesis I : inv s.

Let WF : wf s := inv_wf _ I.
Let SM : small s := inv_small _ I.

Lemma pre_validate_safe sw : safe (pre_validate_unit s sw).
Proof.
  unfold pre_validate_unit. cbv zeta.
  apply safe_bind; [apply safe_fail_if|]. intros [] H1%fail_if_Ok.
  do 4 (apply safe_bind; [apply safe_fail_if|]; intros [] _).
  apply safe_bind; [apply safe_fail_if|]. intros [] H2%fail_if_Ok.
  apply Nat.leb_gt in H1. apply negb_false_iff, Nat.eqb_eq in H2.
  destruct (lookup_lt_is_Some_2 (w_panorama (wire_unit_of sw)) (w_creator (wire_unit_of sw))) as [o Ho]; [lia|].
  unfold vm_index. rewrite Ho. apply safe_fail_if.
Qed.

Lemma pan_validate_safe p : cites_known s p -> safe (pan_validate s p).
Proof.
  intros K. unfold pan_validate.
  assert (forall idx h, (idx, ObsCorrect h) ∈ enumerate p -> known s h) as Ke.
  { intros idx h Hin%elem_of_enumerate. by eapply K. }
  induction (enumerate p) as [|[idx o] l IH]; cbn [pan_validate_entries]; [done|].
  apply safe_bind; [|intros _ _; apply IH; intros; eapply Ke; by right].
  destruct o as [|h|]; cbn [obs_correct]; [done| |done].
  destruct (Ke idx h) as [u Eu]; [by left|]. unfold st_unit, maybe_unit. rewrite Eu. cbn [expect mbind res_bind].
  apply safe_bind; [apply safe_fail_if|]. intros [] _.
  destruct (pan_geq_total s WF SM (E:=UnitError) p (u_panorama u) K (unit_cites_known s WF h u Eu)) as [b ->].
  apply safe_fail_if.
Qed.

Lemma next_seq_total p v : cites_known s p -> (v < length p)%nat ->
  exists n, is_uint 64 n /\ forall E, next_seq_num (E:=E) s p v = Ok n.
Proof.
  intros K Hv. unfold next_seq_num, vm_index. destruct (lookup_lt_is_Some_2 p v Hv) as [o Ho].
  rewrite Ho. cbn [expect mbind res_bind]. destruct o as [|h|]; cbn [obs_correct];
    [by exists 0| |by exists 0].
  destruct (K v h Ho) as [u Eu]. unfold st_unit, maybe_unit. rewrite Eu. cbn [expect mbind res_bind].
  pose proof (seq_range s WF h u Eu). unfold small in SM. unfold u64_add, plain_add, checked_add.
  rewrite (proj2 (Z.leb_le _ _)) by lia. exists (seq_number u + 1). split; [|done].
  unfold is_uint, uint_max in *. lia.
Qed.

Lemma Unit_round_id_total {E} h u : units s !! h = Some u ->
  Unit_round_id (E:=E) u = Ok (timestamp u - timestamp u mod 2 ^ round_exp u).
Proof. intros Eu. destruct (exp_range s h u (inv_exps _ I) Eu). by apply round_id_eq. Qed.

Lemma fork_choice_total {E} p : cites_known s p -> exists r, fork_choice (E:=E) s p = Ok r /\
  forall b, r = Some b -> is_Some (blocks s !! b).
Proof.
  intros K. destruct (fork_choice_spec s WF SM p K (inv_weights_ok s I) (E:=E)) as (r & -> & Hr).
  exists r. split; [done|]. intros b ->. destruct Hr as [G _]. by destruct (ghost_facts s WF SM _ _ G).
Qed.

Lemma is_terminal_total {E} b : exists r, is_terminal_block (E:=E) s b = Ok r.
Proof.
  unfold is_terminal_block. destruct (blocks s !! b) as [blk|] eqn:Eb; [|by eexists].
  case_match; [|by eexists]. destruct (wf_blocks _ WF b) as [u Eu]; [by eexists|].
  unfold st_unit, maybe_unit. rewrite Eu. by eexists.
Qed.

Lemma shr_total {E} a n : 0 <= n < 64 -> exists x, u64_shr (E:=E) a n = Ok x.
Proof. intros Hn. unfold u64_shr. rewrite (proj2 (Z.ltb_lt _ _)) by lia. by eexists. Qed.

Section Unit_.
Variable sw : SignedWireUnit.
Hypothesis WO : wire_ok (wire_unit_of sw).
Hypothesis PRE : pre_validate_unit s sw = Ok tt.
Hypothesis DEP : pan_missing_dependency s (w_panorama (wire_unit_of sw)) = None.

Lemma wire_exp : 0 <= w_round_exp (wire_unit_of sw) < 64.
Proof.
  destruct (pre_validated s sw PRE) as (_ & _ & _ & _ & ?). destruct (ex_params _ (inv_exps _ I)).
  destruct WO as (_ & _ & ?). lia.
Qed.

Lemma check_rounds_safe r h u : units s !! h = Some u -> safe (check_rounds s (wire_unit_of sw) r u).
Proof.
  intros Eu. unfold check_rounds. pose proof wire_exp as Hw. destruct (exp_range s h u (inv_exps _ I) Eu) as [He _].
  apply safe_bind.
  - case_match; [|done].
    destruct (shr_total (E:=UnitError) (timestamp u) (Z.max (round_exp u) (w_round_exp (wire_unit_of sw)))) as [a ->]; [lia|].
    cbn [mbind res_bind].
    destruct (shr_total (E:=UnitError) (w_timestamp (wire_unit_of sw))
      (Z.max (round_exp u) (w_round_exp (wire_unit_of sw)))) as [b ->]; [lia|]. apply safe_fail_if.
  - intros [] _. destruct (Unit_previous u) as [h2|] eqn:Ep; [|done].
    destruct (previous_unit s WF h u h2 Eu Ep) as (u2 & Eu2 & _). unfold st_unit, maybe_unit. rewrite Eu2.
    cbn [expect mbind res_bind]. rewrite (Unit_round_id_total h2 u2 Eu2). apply safe_fail_if.
Qed.

Lemma check_proposal_safe r prev : cites_known s (w_panorama (wire_unit_of sw)) ->
  (forall u, prev = Some u -> exists h, units s !! h = Some u) ->
  safe (check_proposal s (wire_unit_of sw) r prev).
Proof.
  intros K Kp. unfold check_proposal. cbv zeta. apply safe_bind.
  { destruct prev as [u|]; [|done]. destruct (Kp u eq_refl) as [h Eu]. by rewrite (Unit_round_id_total h u Eu). }
  intros b _. destruct (leader_ok (E:=UnitError) s r (inv_static _ I)) as (i & w & Hl & _).
  apply safe_bind.
  { destruct b; [done|]. case_match; [done|]. by rewrite Hl. }
  intros bad _. apply safe_bind; [destruct bad; [by rewrite Hl|done]|]. intros [] _.
  destruct (fork_choice_total (E:=UnitError) _ K) as (fc & -> & _). cbn [mbind res_bind].
  destruct fc as [h|]; [|done]. destruct (is_terminal_total (E:=UnitError) h) as [t ->]. apply safe_fail_if.
Qed.

Lemma iter_correct_total {E} p : cites_known s p -> exists us, iter_correct (E:=E) s p = Ok us.
Proof.
  intros K. unfold iter_correct.
  assert (forall h, h ∈ iter_correct_hashes p -> known s h) as Kh.
  { intros h [idx Hi]%elem_of_iter_correct. by eapply K. }
  induction (iter_correct_hashes p) as [|h l IH]; cbn; [by eexists|].
  destruct (Kh h) as [u Eu]; [by left|]. rewrite (st_unit_known s h u Eu). cbn [mbind res_bind].
  destruct IH as [us ->]; [intros; apply Kh; by right|]. by eexists.
Qed.

Lemma validate_unit_safe : safe (validate_unit s sw).
Proof.
  destruct (pre_validated s sw PRE) as (Hc & Hl & _ & _ & _).
  destruct (no_missing s _ DEP) as [_ K]. destruct WO as (_ & Ht & _). unfold validate_unit. cbv zeta.
  apply safe_bind; [by apply pan_validate_safe|]. intros [] _.
  destruct (iter_correct_total (E:=UnitError) _ K) as [us ->]. cbn [mbind res_bind].
  apply safe_bind; [apply safe_fail_if|]. intros [] _.
  destruct (next_seq_total (w_panorama (wire_unit_of sw)) (w_creator (wire_unit_of sw)) K) as (n & _ & ->); [lia|].
  cbn [mbind res_bind]. apply safe_bind; [apply safe_fail_if|]. intros [] _.
  rewrite (round_id_eq _ _ wire_exp Ht). cbn [mbind res_bind]. unfold WireUnit_previous, vm_index.
  destruct (lookup_lt_is_Some_2 (w_panorama (wire_unit_of sw)) (w_creator (wire_unit_of sw))) as [o Ho]; [lia|].
  rewrite Ho. cbn [expect fmap res_fmap mbind res_bind].
  assert (exists prev, match obs_correct o with None => Ok None | Some vh => Some <$> st_unit (E:=UnitError) s vh end
    = Ok prev /\ forall u, prev = Some u -> exists h, units s !! h = Some u) as (prev & -> & Kp).
  { destruct o as [|h|]; cbn [obs_correct]; [by exists None| |by exists None].
    destruct (K _ _ Ho) as [u Eu]. unfold st_unit, maybe_unit. rewrite Eu. cbn. eexists. split; [done|].
    intros u' [= <-]. by exists h. }
  cbn [mbind res_bind]. apply safe_bind.
  { destruct prev as [u|]; [|done]. destruct (Kp u eq_refl) as [h Eu]. by eapply check_rounds_safe. }
  intros [] _. cbn [ENABLE_ENDORSEMENTS mbind res_bind]. apply safe_bind; [|done].
  destruct (w_value (wire_unit_of sw)); [by apply check_proposal_safe|done].
Qed.

(** What validation checks about rounds. *)
Lemma validated_rounds : validate_unit s sw = Ok tt ->
  start_timestamp (params s) <= w_timestamp (wire_unit_of sw) /\
  forall h u, w_panorama (wire_unit_of sw) !! w_creator (wire_unit_of sw) = Some (ObsCorrect h) ->
    units s !! h = Some u -> round_exp u <> w_round_exp (wire_unit_of sw) ->
    Z.shiftr (timestamp u) (Z.max (round_exp u) (w_round_exp (wire_unit_of sw))) <>
    Z.shiftr (w_timestamp (wire_unit_of sw)) (Z.max (round_exp u) (w_round_exp (wire_unit_of sw))).
Proof.
  unfold validate_unit. cbv zeta. intros V.
  apply bind_Ok in V as ([] & _ & V). apply bind_Ok in V as (us & _ & V).
  apply bind_Ok in V as ([] & Ht%fail_if_Ok & V). apply orb_false_iff in Ht as [_ Ht].
  apply bind_Ok in V as (n & _ & V). apply bind_Ok in V as ([] & _ & V).
  apply bind_Ok in V as (r & _ & V). apply bind_Ok in V as (prev & Hp & V).
  apply bind_Ok in V as (mu & Hm & V). apply bind_Ok in V as ([] & Hr & _).
  split; [lia|]. intros h u Eo Eu Hne.
  unfold WireUnit_previous, vm_index in Hp. rewrite Eo in Hp. injection Hp as <-. cbn [obs_correct] in Hm.
  rewrite (st_unit_known s h u Eu) in Hm. injection Hm as <-. unfold check_rounds in Hr.
  apply bind_Ok in Hr as ([] & Hc & _). rewrite (proj2 (Z.eqb_neq _ _) Hne) in Hc. cbn [negb] in Hc.
  apply bind_Ok in Hc as (a & Ha & Hc). apply bind_Ok in Hc as (b & Hb & Hc%fail_if_Ok).
  unfold u64_shr in Ha, Hb. destruct (_ <? 64); [|done]. injection Ha as <-. injection Hb as <-.
  by apply Z.eqb_neq.
Qed.

(** A unit that passed the checks can be added, and everything holds again. *)
Lemma inv_add {E} : validate_unit s sw = Ok tt -> Z.of_nat (S (size (units s))) < uint_max 64 ->
  exists s', add_valid_unit (E:=E) s sw = Ok s' /\ inv s'.
Proof.
  intros V Room. pose proof (validated s WF SM (inv_weights_ok s I) sw PRE DEP V) as AC.
  destruct (has_unit s (hash_of sw)) eqn:Hh.
  { exists s. split; [|done]. unfold add_valid_unit. by rewrite Hh. }
  destruct (add_valid_unit_new s WF SM (inv_weights_ok s I) sw AC Hh Room (E:=E))
    as (u & ob & s' & Es' & F & A & D & St & _ & _).
  exists s'. split; [done|]. split.
  - by eapply wf_added.
  - unfold small. by rewrite (size_units s s' _ u ob A D).
  - by apply (static_same s s' St), inv_static.
  - destruct (inv_exps _ I) as [Ep Eu Ec]. destruct (validated_rounds V) as [Hst Hch].
    destruct (pre_validated s sw PRE) as (_ & _ & _ & _ & Hexp).
    split; rewrite ?(ss_params _ _ St); [done| |].
    + intros h' u' [[-> ->]|E']%(added_unit_cases s s' _ u ob D); [|by eapply Eu].
      rewrite (fw_round_exp _ _ F), (fw_timestamp _ _ F). split_and!; [lia|lia|apply WO|done].
    + intros h1 u1 h2 u2 E1 Ep1 E2.
      apply (added_unit_cases s s' _ u ob D) in E1 as [[-> ->]|E1].
      * pose proof (au_own _ _ _ _ A) as Ho. rewrite Ep1 in Ho.
        destruct (vp_entries _ _ (au_pan _ _ _ _ A) _ _ Ho) as (u2' & E2' & _).
        destruct (old_unit s s' _ u ob A D h2 u2' E2') as [_ E2'']. assert (u2' = u2) as -> by congruence.
        rewrite (fw_panorama _ _ F), (fw_creator _ _ F) in Ho. rewrite (fw_round_exp _ _ F), (fw_timestamp _ _ F).
        by apply (Hch h2 u2).
      * destruct (previous_unit s WF h1 u1 h2 E1 Ep1) as (u2' & E2' & _).
        destruct (old_unit s s' _ u ob A D h2 u2' E2') as [_ E2'']. assert (u2' = u2) as -> by congruence.
        by eapply Ec.
  - rewrite (ss_weights _ _ St). apply (inv_weights _ I).
Qed.

End Unit_.
End Safe.
End Validate.
