(* ===== verification/HighwayMerge.v ===== *)
(** * Panoramas for new units

    [merge] computes least upper bounds of panoramas, and the panoramas a validator
    uses for its own units are ones it may cite. *)

From S2P Require Import Prelude Highway HighwaySkip HighwayInv HighwayTally HighwayFork HighwayAdd.

Local Open Scope Z_scope.

Section Panoramas.
Context {C : ConsensusContext}.
Variable s : State.
Hypothesis WF : wf s.
Hypothesis SM : small s.
Implicit Types (h : Hash) (u : Unit) (p q r : Panorama) (o : Observation).

(** Validators are only called faulty if there is evidence. *)
Definition faults_known p : Prop := forall idx, p !! idx = Some ObsFaulty -> is_Some (faults s !! idx).

(** A panorama that a new unit may have. *)
Definition citable p : Prop := valid_pan s p /\ faults_known p.

Lemma pan_le_lookup p q : length p = length q ->
  (forall i o o', p !! i = Some o -> q !! i = Some o' -> obs_le s o o') -> pan_le s p q.
Proof. intros Hl F. unfold pan_le. apply Forall2_same_length_lookup. eauto. Qed.

Lemma pan_le_at p q i o o' : pan_le s p q -> p !! i = Some o -> q !! i = Some o' -> obs_le s o o'.
Proof. unfold pan_le. rewrite Forall2_same_length_lookup. intros [_ F]. eauto. Qed.

Lemma pan_le_length p q : pan_le s p q -> length p = length q.
Proof. apply Forall2_length. Qed.

(** *** The state's panorama *)

(** Units by a validator without known faults are all in one swimlane. *)
Lemma latest_covers idx h u o : panorama s !! idx = Some o -> units s !! h = Some u -> creator u = idx ->
  obs_le s (ObsCorrect h) o.
Proof.
  intros Eo Eu Hc. pose proof (wf_latest _ WF _ _ Eo) as L. destruct o as [|x|]; cbn in *.
  - by apply (L h u Eu).
  - destruct L as [_ L]. by eapply L.
  - done.
Qed.

Lemma state_pan_citable : citable (panorama s).
Proof.
  split; [split|].
  - apply (wf_pan_len _ WF).
  - intros idx h Eo. destruct (wf_latest _ WF _ _ Eo) as [(u & Eu & Hc) _]. exists u.
    split_and!; [done|done|]. pose proof (wf_units _ WF _ _ Eu) as W. apply pan_le_lookup.
    + by rewrite (wfu_len _ _ _ W), (wf_pan_len _ WF).
    + intros i o o' Ho Ho'. destruct o as [|h'|]; [done| |].
      * destruct (wfu_entries _ _ _ W _ _ Ho) as (u' & Eu' & Hc' & _). by eapply latest_covers.
      * apply (wfu_faulty _ _ _ W), (wf_faults _ WF) in Ho. rewrite Ho in Ho'. by injection Ho' as <-.
  - intros idx Ho. by apply (wf_faults _ WF).
Qed.

(** Two units of one validator that are not in one swimlane are a known fault. *)
Lemma conflict_known idx h u h' u' : (idx < length (weights s))%nat ->
  units s !! h = Some u -> creator u = idx -> units s !! h' = Some u' -> creator u' = idx ->
  ~ lane_le s h h' -> ~ lane_le s h' h -> is_Some (faults s !! idx).
Proof.
  intros Hi Eu Hc Eu' Hc' N N'. apply (wf_faults _ WF).
  destruct (lookup_lt_is_Some_2 (panorama s) idx) as [o Ho]; [by rewrite (wf_pan_len _ WF)|].
  pose proof (latest_covers idx h u o Ho Eu Hc) as L. pose proof (latest_covers idx h' u' o Ho Eu' Hc') as L'.
  destruct o as [|x|]; cbn in L, L'; [done| |done]. by destruct (lane_le_total s x h h' L L').
Qed.

(** *** Merging *)

(** The least upper bound of two observations of one validator. *)
Definition obs_lub o o' : Observation :=
  match o, o' with
  | ObsFaulty, _ | _, ObsFaulty => ObsFaulty
  | ObsNone, o | o, ObsNone => o
  | ObsCorrect h, ObsCorrect h' =>
      match units s !! h, units s !! h' with
      | Some u, Some u' =>
          if bool_decide (at_rank (unit_info s) h (seq_number u') = Some h') then ObsCorrect h
          else if bool_decide (at_rank (unit_info s) h' (seq_number u) = Some h) then ObsCorrect h'
          else ObsFaulty
      | _, _ => ObsFaulty
      end
  end.

Lemma obs_lub_spec idx o o' : obs_of s idx o -> obs_of s idx o' ->
  obs_le s o (obs_lub o o') /\ obs_le s o' (obs_lub o o') /\ obs_of s idx (obs_lub o o') /\
  (forall t, obs_le s o t -> obs_le s o' t -> obs_le s (obs_lub o o') t) /\
  (obs_lub o o' = o \/ obs_lub o o' = o' \/
   exists h h', o = ObsCorrect h /\ o' = ObsCorrect h' /\ ~ lane_le s h h' /\ ~ lane_le s h' h /\
     obs_lub o o' = ObsFaulty).
Proof.
  intros K K'. destruct o as [|h|], o' as [|h'|]; cbn [obs_lub];
    try (split_and!; [apply obs_le_refl || done|apply obs_le_refl || done|done|by intros t L L'|by auto]; fail).
  destruct (K h eq_refl) as (u & Eu & Hc), (K' h' eq_refl) as (u' & Eu' & Hc'). rewrite Eu, Eu'.
  pose proof (at_rank_lane s WF h u h' u' Eu Eu') as L1. pose proof (at_rank_lane s WF h' u' h u Eu' Eu) as L2.
  case_bool_decide as B1.
  { apply L1 in B1. split_and!; [apply obs_le_refl|exact B1|exact K|by intros t L L'|by auto]. }
  case_bool_decide as B2.
  { apply L2 in B2. split_and!; [exact B2|apply obs_le_refl|exact K'|by intros t L L'|by auto]. }
  split_and!; [done|done|done| |].
  - intros t L L'. destruct t as [|x|]; cbn in *; [done| |done].
    destruct (lane_le_total s x h h' L L') as [T|T]; [by apply L2 in T|by apply L1 in T].
  - right. right. exists h, h'. split_and!; [done|done|by intros T%L2|by intros T%L1|done].
Qed.

Lemma merge_obs_eq {E} p q idx o o' : valid_pan s p -> valid_pan s q -> p !! idx = Some o ->
  q !! idx = Some o' -> merge_obs (E:=E) s p q (o, o') = Ok (obs_lub o o').
Proof.
  intros Vp Vq Ep Eq. destruct o as [|h|], o' as [|h'|]; cbn; try done.
  destruct (vp_entries _ _ Vp _ _ Ep) as (u & Eu & Hc & _), (vp_entries _ _ Vq _ _ Eq) as (u' & Eu' & Hc' & _).
  rewrite (pan_sees_correct_eq s WF SM p h') by (by apply valid_pan_cites || by eexists).
  unfold sees_in. rewrite Eu', Hc', Ep. cbn [mbind option_bind obs_correct res_bind]. rewrite Eu.
  case_bool_decide; [done|].
  rewrite (pan_sees_correct_eq s WF SM q h) by (by apply valid_pan_cites || by eexists).
  unfold sees_in. rewrite Eu, Hc, Eq. cbn [mbind option_bind obs_correct res_bind].
  by case_bool_decide.
Qed.

Lemma merge_eq {E} p q : valid_pan s p -> valid_pan s q ->
  merge (E:=E) s p q = Ok (zip_with obs_lub p q).
Proof.
  intros Vp Vq. unfold merge.
  rewrite (map_res_Ok _ (fun e => obs_lub e.1 e.2)).
  - f_equal. clear. revert q. induction p as [|o p IH]; intros [|o' q]; cbn; try done. by rewrite IH.
  - intros [o o'] (i & Ho & Ho')%elem_of_zip_lookup. by eapply merge_obs_eq.
Qed.

Lemma merge_spec p q : citable p -> citable q ->
  let r := zip_with obs_lub p q in
  citable r /\ pan_le s p r /\ pan_le s q r /\
  forall t, pan_le s p t -> pan_le s q t -> pan_le s r t.
Proof.
  intros [Vp Fp] [Vq Fq] r.
  assert (length p = length q) as Hl by (by rewrite (vp_len _ _ Vp), (vp_len _ _ Vq)).
  assert (length r = length p) as Hr by (unfold r; rewrite length_zip_with; lia).
  assert (forall i x, r !! i = Some x -> exists o o', p !! i = Some o /\ q !! i = Some o' /\ x = obs_lub o o')
    as Lr.
  { intros i x Hx. apply lookup_zip_with_Some in Hx as (o & o' & -> & ? & ?). eauto. }
  assert (forall i o o', p !! i = Some o -> q !! i = Some o' -> obs_of s i o /\ obs_of s i o') as Ko.
  { intros i o o' Ho Ho'. split; [by eapply (valid_pan_obs s p)|by eapply (valid_pan_obs s q)]. }
  assert (pan_le s p r) as Lp.
  { apply pan_le_lookup; [done|]. intros i o x Ho Hx. destruct (Lr i x Hx) as (o2 & o' & Ho2 & Ho' & ->).
    destruct (Ko i o2 o' Ho2 Ho') as [K1 K2]. simplify_eq. apply (obs_lub_spec i o o' K1 K2). }
  assert (pan_le s q r) as Lq.
  { apply pan_le_lookup; [congruence|]. intros i o x Ho Hx. destruct (Lr i x Hx) as (o2 & o' & Ho2 & Ho' & ->).
    destruct (Ko i o2 o' Ho2 Ho') as [K1 K2]. simplify_eq. apply (obs_lub_spec i o2 o K1 K2). }
  split_and!; [split; [split|]|done|done|].
  - by rewrite Hr, (vp_len _ _ Vp).
  - intros i h Hx. destruct (Lr i _ Hx) as (o & o' & Ho & Ho' & Eq). destruct (Ko i o o' Ho Ho') as [K1 K2].
    destruct (obs_lub_spec i o o' K1 K2) as (_ & _ & _ & _ & Hcase).
    destruct Hcase as [Ec|[Ec|(? & ? & _ & _ & _ & _ & Ec)]]; rewrite Ec in Eq; [| |done]; subst.
    + destruct (vp_entries _ _ Vp _ _ Ho) as (u & Eu & Hc & L). exists u. split_and!; [done|done|].
      by eapply pan_le_trans.
    + destruct (vp_entries _ _ Vq _ _ Ho') as (u & Eu & Hc & L). exists u. split_and!; [done|done|].
      by eapply pan_le_trans.
  - intros i Hx. destruct (Lr i _ Hx) as (o & o' & Ho & Ho' & Eq). destruct (Ko i o o' Ho Ho') as [K1 K2].
    destruct (obs_lub_spec i o o' K1 K2) as (_ & _ & _ & _ & Hcase).
    destruct Hcase as [Ec|[Ec|(h & h' & -> & -> & N & N' & Ec)]]; [rewrite Ec in Eq; subst; eauto..|].
    destruct (K1 h eq_refl) as (u & Eu & Hc), (K2 h' eq_refl) as (u' & Eu' & Hc').
    eapply (conflict_known i h u h' u'); try done. rewrite <- (vp_len _ _ Vp). by eapply lookup_lt_Some.
  - intros t L L'. apply pan_le_lookup; [by rewrite Hr, (pan_le_length p t L)|].
    intros i x y Hx Hy. destruct (Lr i x Hx) as (o & o' & Ho & Ho' & ->). destruct (Ko i o o' Ho Ho') as [K1 K2].
    apply (obs_lub_spec i o o' K1 K2); [by eapply (pan_le_at p t)|by eapply (pan_le_at q t)].
Qed.

(** *** Walking down a swimlane *)

(** [l] lists a swimlane from [h] on. *)
Inductive lane_list : option Hash -> list (Hash * Unit) -> Prop :=
| lane_nil : lane_list None []
| lane_cons h u l : units s !! h = Some u -> lane_list (Unit_previous u) l -> lane_list (Some h) ((h, u) :: l).

Lemma swimlane_list {E} h u : units s !! h = Some u -> exists l,
  swimlane (E:=E) s h = Ok l /\ lane_list (Some h) l.
Proof.
  intros Eu. unfold swimlane. pose proof (seq_range s WF h u Eu) as Hr.
  assert (seq_number u < Z.of_nat (S (size (units s)))) as Hf by lia. clear Hr. revert Hf.
  generalize (S (size (units s))) as fuel. intros fuel. revert h u Eu.
  induction fuel as [|fuel IH]; intros h u Eu Hf.
  { pose proof (seq_range s WF h u Eu). lia. }
  cbn [swimlane_from]. rewrite (st_unit_known s h u Eu). cbn [mbind res_bind].
  destruct (Unit_previous u) as [x|] eqn:Ep.
  - destruct (previous_unit s WF h u x Eu Ep) as (ux & Ex & _).
    pose proof (next_rank (unit_info s) (wf_lanes _ WF) h _ _ (known_info _ _ _ Eu)) as Hn.
    rewrite (next_of_unit _ _ _ Eu), Ep in Hn. destruct Hn as [_ Hn]. rewrite (known_rank _ _ _ Ex) in Hn.
    injection Hn as Hn. destruct (IH x ux Ex) as (l & -> & Hl); [lia|]. cbn. eexists. split; [done|].
    constructor; [done|]. by rewrite Ep.
  - destruct fuel; cbn; (eexists; split; [done|]); constructor; try done; rewrite Ep; constructor.
Qed.

Lemma lane_list_elem h l : lane_list (Some h) l -> forall x ux, (x, ux) ∈ l <-> lane_le s x h /\ units s !! x = Some ux.
Proof.
  remember (Some h) as oh eqn:Eh. intros Hl. revert h Eh. induction Hl as [|h' u l Eu Hl IH]; intros h Eh; [done|].
  injection Eh as <-. intros x ux. rewrite elem_of_cons, (lane_le_previous s h' u x Eu). split.
  - intros [[= -> ->]|Hin]; [by auto|]. destruct (Unit_previous u) as [y|] eqn:Ey.
    + apply (IH y eq_refl) in Hin as [L Ex]. split; [|done]. right. by exists y.
    + inversion Hl; subst. by apply not_elem_of_nil in Hin.
  - intros [[->|(y & Ey & L)] Ex]; [left; congruence|]. right. apply (IH y Ey). done.
Qed.

(** [find] stops at the latest unit of the swimlane that satisfies the condition. *)
Lemma lane_find (f : Hash * Unit -> bool) h l : lane_list (Some h) l ->
  match find f l with
  | Some (x, ux) => lane_le s x h /\ units s !! x = Some ux /\ f (x, ux) = true /\
      forall y uy, lane_le s y h -> units s !! y = Some uy -> f (y, uy) = true -> lane_le s y x
  | None => forall y uy, lane_le s y h -> units s !! y = Some uy -> f (y, uy) = false
  end.
Proof.
  remember (Some h) as oh eqn:Eh. intros Hl. revert h Eh. induction Hl as [|h' u l Eu Hl IH]; intros h Eh; [done|].
  injection Eh as <-. cbn [find]. destruct (f (h', u)) eqn:Ef.
  { split_and!; [apply lane_le_refl|done|done|done]. }
  destruct (Unit_previous u) as [x|] eqn:Ex.
  - specialize (IH x eq_refl). destruct (find f l) as [[y uy]|].
    + destruct IH as (L & Ey & Fy & Hmax). split_and!; [|done|done|].
      * apply (lane_le_previous s h' u y Eu). eauto.
      * intros z uz Lz Ez Fz. apply (lane_le_previous s h' u z Eu) in Lz as [->|(x' & [= <-]%(eq_trans (eq_sym Ex)) & Lz)];
          [congruence|eauto].
    + intros z uz Lz Ez. apply (lane_le_previous s h' u z Eu) in Lz as [->|(x' & [= <-]%(eq_trans (eq_sym Ex)) & Lz)];
        [congruence|eauto].
  - inversion Hl; subst. cbn. intros z uz Lz Ez.
    apply (lane_le_previous s h' u z Eu) in Lz as [->|(x' & Hx' & _)]; congruence.
Qed.

(** Later units see at least as much. *)
Lemma lane_pan_le x h ux u : lane_le s x h -> units s !! x = Some ux -> units s !! h = Some u ->
  pan_le s (u_panorama ux) (u_panorama u).
Proof.
  intros [n Hn]. revert h u Hn. induction n as [|n IH]; intros h u Hp Ex Eu; cbn in Hp.
  { injection Hp as <-. assert (ux = u) as -> by congruence. apply pan_le_refl. }
  rewrite (next_of_unit _ _ _ Eu) in Hp. destruct (Unit_previous u) as [y|] eqn:Ey; [|done].
  pose proof (wfu_own _ _ _ (wf_units _ WF _ _ Eu)) as Ho. rewrite Ey in Ho.
  destruct (wfu_entries _ _ _ (wf_units _ WF _ _ Eu) _ _ Ho) as (uy & Euy & _ & L & _).
  eapply pan_le_trans; [|exact L]. by eapply IH.
Qed.

(** *** Cutting off at a time *)

Lemma obs_cutoff_ok {E} t idx o : obs_of s idx o -> exists o', obs_cutoff (E:=E) s t o = Ok o' /\
  obs_of s idx o' /\ obs_le s o' o /\ (o' = ObsFaulty <-> o = ObsFaulty) /\
  (forall h u, o' = ObsCorrect h -> units s !! h = Some u -> timestamp u <= t) /\
  forall x ux, obs_le s (ObsCorrect x) o -> units s !! x = Some ux -> timestamp ux <= t -> obs_le s (ObsCorrect x) o'.
Proof.
  intros K. destruct o as [|h|]; cbn [obs_cutoff].
  - exists ObsNone. split_and!; try done.
  - destruct (K h eq_refl) as (u & Eu & Hc). destruct (swimlane_list (E:=E) h u Eu) as (l & -> & Hl).
    cbn [mbind res_bind]. pose proof (lane_find (fun e => timestamp e.2 <=? t) h l Hl) as Hf.
    destruct (find _ l) as [[x ux]|]; cbn [mret res_ret].
    + destruct Hf as (L & Ex & Ft & Hmax). cbn in Ft. exists (ObsCorrect x). split_and!; [done| |done|done| |].
      * intros x' [= <-]. exists ux. split; [done|].
        destruct (lane_le_seq s WF h x u ux L Eu Ex) as (-> & _). done.
      * intros x' u' [= <-] Ex'. assert (u' = ux) as -> by congruence. lia.
      * intros y uy Ly Ey Ht. cbn in *. eapply Hmax; [done|done|]. cbn. lia.
    + exists ObsNone. split_and!; [done|done|done|done|done|]. intros y uy Ly Ey Ht.
      cbn in Ly. specialize (Hf y uy Ly Ey). cbn in Hf. lia.
  - exists ObsFaulty. split_and!; try done.
Qed.

Lemma cutoff_ok {E} t p : citable p -> exists r, cutoff (E:=E) s p t = Ok r /\ citable r /\ pan_le s r p /\
  forall idx h u, r !! idx = Some (ObsCorrect h) -> units s !! h = Some u -> timestamp u <= t.
Proof.
  intros [V F]. unfold cutoff.
  assert (exists r, map_res (E:=E) (obs_cutoff s t) p = Ok r /\ length r = length p /\
    forall i o, p !! i = Some o -> exists o', r !! i = Some o' /\ obs_cutoff (E:=E) s t o = Ok o')
    as (r & Hr & Hl & Hi).
  { assert (forall i o, p !! i = Some o -> exists o', obs_cutoff (E:=E) s t o = Ok o') as Tot.
    { intros i o Ho. destruct (obs_cutoff_ok (E:=E) t i o) as (o' & Eo & _); [by eapply (valid_pan_obs s p)|].
      by exists o'. }
    clear V F. induction p as [|o p IH]; cbn [map_res]; [by exists []|].
    destruct (Tot 0%nat o eq_refl) as [o' Eo]. rewrite Eo. cbn [mbind res_bind].
    destruct IH as (r & -> & Hl & Hi); [intros i; apply (Tot (S i))|]. cbn. eexists. split; [done|].
    cbn. split; [lia|]. intros [|i] o1 Ho1; cbn in *; [injection Ho1 as <-; by exists o'|by apply Hi]. }
  exists r. split; [done|].
  assert (forall i x, r !! i = Some x -> exists o, p !! i = Some o /\ obs_of s i o /\
    obs_cutoff (E:=E) s t o = Ok x) as Hx.
  { intros i x Hx. destruct (lookup_lt_is_Some_2 p i) as [o Ho]; [rewrite <- Hl; by eapply lookup_lt_Some|].
    destruct (Hi i o Ho) as (o' & Ho' & Ec). exists o. split_and!; [done|by eapply (valid_pan_obs s p)|congruence]. }
  split_and!.
  - split; [split|].
    + by rewrite Hl, (vp_len _ _ V).
    + intros i h Hh. destruct (Hx i _ Hh) as (o & Ho & K & Ec).
      destruct (obs_cutoff_ok (E:=E) t i o K) as (o' & Ec' & Ko' & Le & _ & Ht & _).
      assert (o' = ObsCorrect h) as -> by congruence. destruct (Ko' h eq_refl) as (u & Eu & Hc).
      exists u. split_and!; [done|done|]. specialize (Ht h u eq_refl Eu).
      pose proof (wf_units _ WF _ _ Eu) as W.
      assert (pan_le s (u_panorama u) p) as Lup.
      { destruct o as [|h0|]; cbn in Le; [done| |].
        - destruct (vp_entries _ _ V _ _ Ho) as (u0 & Eu0 & _ & L0). eapply pan_le_trans; [|exact L0].
          by eapply lane_pan_le.
        - destruct (obs_cutoff_ok (E:=E) t i ObsFaulty K) as (? & E1 & _). cbn in Ec. done. }
      apply pan_le_lookup; [by rewrite Hl, (wfu_len _ _ _ W), (vp_len _ _ V)|].
      intros j a b Ha Hb. destruct (Hx j b Hb) as (oj & Hoj & Kj & Ecj).
      destruct (obs_cutoff_ok (E:=E) t j oj Kj) as (b' & Ecb & _ & _ & Fb & _ & Hmax).
      assert (b' = b) as -> by congruence. pose proof (pan_le_at _ _ j a oj Lup Ha Hoj) as Laj.
      destruct a as [|x|]; [done| |].
      * destruct (wfu_entries _ _ _ W _ _ Ha) as (ux & Ex & _ & _ & Htx). eapply Hmax; [done|done|lia].
      * destruct oj; [done|done|]. by rewrite (proj2 Fb).
    + intros i Hh. destruct (Hx i _ Hh) as (o & Ho & K & Ec).
      destruct (obs_cutoff_ok (E:=E) t i o K) as (o' & Ec' & _ & _ & Ff & _).
      assert (o' = ObsFaulty) as -> by congruence. apply (F i). by rewrite Ho, (proj1 Ff).
  - apply pan_le_lookup; [done|]. intros i x o Hxi Ho. destruct (Hx i x Hxi) as (o2 & Ho2 & K & Ec).
    destruct (obs_cutoff_ok (E:=E) t i o2 K) as (o' & Ec' & _ & Le & _).
    assert (o2 = o) as -> by congruence. by assert (o' = x) as -> by congruence.
  - intros i h u Hh Eu. destruct (Hx i _ Hh) as (o & Ho & K & Ec).
    destruct (obs_cutoff_ok (E:=E) t i o K) as (o' & Ec' & _ & _ & _ & Ht & _). eapply Ht; [|done]. congruence.
Qed.

(** *** Panoramas for the next unit *)

Lemma inclusive_ok {E} h u : units s !! h = Some u ->
  inclusive_panorama (E:=E) s h = Ok (<[creator u := ObsCorrect h]> (u_panorama u)) /\
  citable (<[creator u := ObsCorrect h]> (u_panorama u)).
Proof.
  intros Eu. pose proof (wf_units _ WF _ _ Eu) as W. pose proof (wfu_own _ _ _ W) as Ho.
  assert (creator u < length (u_panorama u))%nat as Hlt by (by eapply lookup_lt_Some).
  assert (pan_le s (u_panorama u) (<[creator u := ObsCorrect h]> (u_panorama u))) as Le.
  { apply pan_le_lookup; [by rewrite length_insert|]. intros i o o' Hi Hi'.
    apply list_lookup_insert_Some in Hi' as [(<- & <- & _)|[_ Hi']].
    - rewrite Hi in Ho. injection Ho as ->. destruct (Unit_previous u) as [x|] eqn:Ex; [|done]. cbn.
      apply (lane_le_previous s h u x Eu). right. exists x. split; [done|apply lane_le_refl].
    - assert (o' = o) as -> by congruence. apply obs_le_refl. }
  split.
  { unfold inclusive_panorama. rewrite (st_unit_known s h u Eu). cbn [mbind res_bind]. unfold vm_set.
    by rewrite (proj2 (Nat.ltb_lt _ _)). }
  split; [split|].
  - by rewrite length_insert, (wfu_len _ _ _ W).
  - intros i h' [(<- & [= <-] & _)|[_ Hi]]%list_lookup_insert_Some; [by exists u|].
    destruct (wfu_entries _ _ _ W _ _ Hi) as (u' & Eu' & Hc & L & _). exists u'.
    split_and!; [done|done|]. by eapply pan_le_trans.
  - intros i [(_ & [=] & _)|[_ Hi]]%list_lookup_insert_Some. by apply (wfu_faulty _ _ _ W).
Qed.

(** What [valid_panorama] adds to a panorama: the creator's latest unit. *)
Lemma valid_panorama_ok {E} v p : (v < length (weights s))%nat -> citable p ->
  exists r, valid_panorama (E:=E) s v p = Ok r /\ citable r /\ pan_le s p r /\
    (panorama s !! v <> Some ObsFaulty -> r !! v = panorama s !! v).
Proof.
  intros Hv Kp. destruct (lookup_lt_is_Some_2 (panorama s) v) as [o0 E0]; [by rewrite (wf_pan_len _ WF)|].
  destruct (lookup_lt_is_Some_2 p v) as [o1 E1]; [by rewrite (vp_len _ _ (proj1 Kp))|].
  unfold valid_panorama.
  assert (vm_index (E:=E) (panorama s) v = Ok o0) as -> by (unfold vm_index; by rewrite E0).
  cbn [mbind res_bind].
  assert (exists r, match obs_correct o0 with
    | None => Ok p
    | Some prev_uhash =>
        o ← vm_index (E:=E) p v;
        if bool_decide (obs_correct o = Some prev_uhash) then Ok p
        else prev_pan ← inclusive_panorama s prev_uhash; merge s p prev_pan
    end = Ok r /\ citable r /\ pan_le s p r /\ (panorama s !! v <> Some ObsFaulty -> r !! v = panorama s !! v))
    as (r & -> & Hr).
  { assert (o0 <> ObsFaulty -> o1 <> ObsFaulty) as Hnf.
    { intros Hne ->. apply Hne. destruct Kp as [_ F]. apply F, (wf_faults _ WF) in E1. congruence. }
    destruct o0 as [|h|]; cbn [obs_correct].
    - exists p. split_and!; [done|done|apply pan_le_refl|]. intros _. rewrite E0, E1. f_equal.
      destruct o1 as [|x|]; [done| |by destruct Hnf].
      destruct (vp_entries _ _ (proj1 Kp) _ _ E1) as (u & Eu & Hc & _).
      by apply (wf_latest _ WF _ _ E0 x u Eu) in Hc.
    - unfold vm_index. rewrite E1. cbn [expect mbind res_bind]. case_bool_decide as Eo.
      + exists p. split_and!; [done|done|apply pan_le_refl|]. intros _. rewrite E0, E1.
        destruct o1; try done. cbn in Eo. congruence.
      + destruct (wf_latest _ WF _ _ E0) as [(u & Eu & Hc) _].
        destruct (inclusive_ok (E:=E) h u Eu) as [-> Ki]. cbn [mbind res_bind].
        rewrite merge_eq by (apply Kp || apply Ki). eexists. split; [done|].
        destruct (merge_spec p _ Kp Ki) as (Kr & Lp & Lq & _). split_and!; [done|done|]. intros _.
        assert (creator u < length (u_panorama u))%nat as Hlt.
        { rewrite (wfu_len _ _ _ (wf_units _ WF _ _ Eu)), Hc. done. }
        rewrite lookup_zip_with, E1, Hc, list_lookup_insert_eq, E0 by (by rewrite <- Hc). cbn. f_equal.
        destruct o1 as [|x|]; [done| |by destruct Hnf]. cbn.
        destruct (vp_entries _ _ (proj1 Kp) _ _ E1) as (ux & Ex & Hcx & _). rewrite Ex, Eu.
        pose proof (latest_covers v x ux _ E0 Ex Hcx) as L. cbn in L.
        rewrite bool_decide_eq_false_2.
        { by rewrite bool_decide_eq_true_2 by (by apply (at_rank_lane s WF h u x ux Eu Ex)). }
        intros L'%(at_rank_lane s WF x ux h u Ex Eu). cbn in Eo. apply Eo. f_equal.
        apply (lane_le_antisym s WF); [by eexists|done|done].
    - exists p. split_and!; [done|done|apply pan_le_refl|]. by rewrite E0. }
  cbn [mbind res_bind]. unfold seen_endorsed, validate_lnc. cbn. by exists r.
Qed.

End Panoramas.

(** C24 Merging panoramas is sound and loses nothing.  For two panoramas that a unit
    could cite, [merge] returns their least upper bound: it sees everything either
    of them sees, every panorama that does so sees everything the result sees, and
    validators are declared faulty only if the state has evidence, so that the
    result may itself be cited. *)
Theorem merge_least_upper_bound {C : ConsensusContext} {E} (s : State) (p q : Panorama) :
  wf s -> small s -> citable s p -> citable s q ->
  exists r, merge (E:=E) s p q = Ok r /\ citable s r /\ pan_le s p r /\ pan_le s q r /\
    forall t, pan_le s p t -> pan_le s q t -> pan_le s r t.
Proof.
  intros WF SM Kp Kq. eexists. split; [apply (merge_eq s WF SM); [apply Kp|apply Kq]|].
  by apply merge_spec.
Qed.
