(* ===== verification/HighwayVertex.v ===== *)
(** * Validators, evidence and vertices

    [validators.rs], [evidence.rs], [endorsement.rs] and [highway/vertex.rs]: the
    validator set of an era, the checks on evidence, and the messages that nodes
    exchange. *)

From Stdlib Require Import Sorting.Sorted.
From S2P Require Import Prelude Highway HighwaySkip HighwayInv HighwayTally HighwayFork HighwayAdd HighwayLeader.

Local Open Scope Z_scope.

(** [Context::hash] of the serialized data, and signing: third-party code. *)
Class VertexHash `{ConsensusContext} := {
  hash_wire_unit : WireUnit -> Hash;
  hash_endorsement : Hash -> ValidatorIndex -> Hash;
  hash_ping : ValidatorIndex -> Z -> InstanceId -> Hash;
}.
Class ValidatorSecret `{ConsensusContext} := {
  Secret : Type;
  sign : Secret -> Hash -> Signature;
}.

Section Vertices.
Context {C : ConsensusContext}.

(** ** validators.rs *)

Record Validator := { v_weight : Weight; v_id : ValidatorId; v_banned : bool; v_can_propose : bool }.
Definition Validator_from (e : ValidatorId * Weight) : Validator :=
  {| v_weight := e.2; v_id := e.1; v_banned := false; v_can_propose := true |}.

Record Validators := {
  index_by_id : gmap ValidatorId ValidatorIndex;
  vs : list Validator;
  vs_total_weight : Weight;
}.
Definition set_vs (v : Validators) l : Validators :=
  {| index_by_id := index_by_id v; vs := l; vs_total_weight := vs_total_weight v |}.

Definition get_index (v : Validators) (vid : ValidatorId) : option ValidatorIndex := index_by_id v !! vid.
Definition validator_id (v : Validators) (idx : ValidatorIndex) : option ValidatorId := v_id <$> vs v !! idx.

(** [sort_by_cached_key], a stable sort by ID. *)
Fixpoint insert_by_id (x : Validator) (l : list Validator) : list Validator :=
  match l with
  | [] => [x]
  | y :: l => match ord_cmp (v_id x) (v_id y) with Gt => y :: insert_by_id x l | _ => x :: y :: l end
  end.
Definition sort_by_id (l : list Validator) : list Validator := foldr insert_by_id [] l.

Definition Validators_from_iter {E} (ii : list (ValidatorId * Weight)) : res E Validators :=
  let validators := Validator_from <$> ii in
  total_weight ← fold_res (fun sum v => expect (Weight_checked_add sum (v_weight v))) 0 validators;
  let validators := sort_by_id validators in
  mret {| index_by_id := foldl (fun m e => <[v_id e.2 := e.1]> m) ∅ (enumerate validators);
          vs := validators; vs_total_weight := total_weight |}.

Definition set_flags (banned can_propose : bool -> bool) (v : Validator) : Validator :=
  {| v_weight := v_weight v; v_id := v_id v; v_banned := banned (v_banned v);
     v_can_propose := can_propose (v_can_propose v) |}.

Definition ban {E} (v : Validators) (vid : ValidatorId) : res E Validators :=
  match get_index v vid with
  | None => Ok v
  | Some idx =>
      x ← expect (vs v !! idx);
      mret (set_vs v (<[idx := set_flags (fun _ => true) (fun _ => false) x]> (vs v)))
  end.
Definition set_cannot_propose {E} (v : Validators) (vid : ValidatorId) : res E Validators :=
  match get_index v vid with
  | None => Ok v
  | Some idx =>
      x ← expect (vs v !! idx);
      mret (set_vs v (<[idx := set_flags (fun b => b) (fun _ => false) x]> (vs v)))
  end.

Definition iter_banned_idx (v : Validators) : list ValidatorIndex :=
  (List.filter (fun e => v_banned e.2) (enumerate (vs v))).*1.
Definition iter_cannot_propose_idx (v : Validators) : list ValidatorIndex :=
  (List.filter (fun e => negb (v_can_propose e.2)) (enumerate (vs v))).*1.
Definition enumerate_ids (v : Validators) : list (ValidatorIndex * ValidatorId) :=
  (fun e => (e.1, v_id e.2)) <$> enumerate (vs v).

Definition ensure_nonzero_proposing_stake (v : Validators) : Validators * bool :=
  if Weight_is_zero (vs_total_weight v) then (v, false)
  else if forallb (fun x => v_banned x || Weight_is_zero (v_weight x)) (vs v) then
    (set_vs v (set_flags (fun _ => false) (fun _ => true) <$> vs v), true)
  else if forallb (fun x => negb (v_can_propose x) || Weight_is_zero (v_weight x)) (vs v) then
    (set_vs v ((fun x => if negb (v_banned x) then set_flags (fun b => b) (fun _ => true) x else x) <$> vs v),
     true)
  else (v, true).

(** ** evidence.rs *)

Inductive EvidenceError :=
| EquivocationDifferentSeqNumbers
| EquivocationDifferentCreators
| EquivocationInstanceId
| EquivocationSameUnit
| EndorsementWrongHash
| EndorsementDifferentCreators
| EndorsementInvalidSwimlane
| EndorsementTooManyUnits
| UnknownPerpetrator
| EvidenceSignature.

#[export] Instance WireUnit_eq_dec : EqDecision WireUnit.
Proof. solve_decision. Defined.
#[export] Instance HashedWireUnit_eq_dec : EqDecision HashedWireUnit.
Proof. solve_decision. Defined.
#[export] Instance SignedWireUnit_eq_dec : EqDecision SignedWireUnit.
Proof. solve_decision. Defined.

Definition validate_equivocation (unit1 unit2 : SignedWireUnit) (instance_id : InstanceId)
    (validators : Validators) : res EvidenceError unit :=
  let wunit1 := wire_unit_of unit1 in
  let wunit2 := wire_unit_of unit2 in
  v ← ok_or (validator_id validators (w_creator wunit1)) UnknownPerpetrator;
  _ ← fail_if (negb (w_creator wunit1 =? w_creator wunit2)%nat) EquivocationDifferentCreators;
  _ ← fail_if (negb (w_seq_number wunit1 =? w_seq_number wunit2)) EquivocationDifferentSeqNumbers;
  _ ← fail_if (negb (bool_decide (w_instance_id wunit1 = instance_id))
               || negb (bool_decide (w_instance_id wunit2 = instance_id))) EquivocationInstanceId;
  _ ← fail_if (bool_decide (unit1 = unit2)) EquivocationSameUnit;
  fail_if (negb (verify_signature (hash_of unit1) v (signature unit1))
           || negb (verify_signature (hash_of unit2) v (signature unit2))) EvidenceSignature.

(** [iter::once(unit2).chain(swimlane2).tuple_windows()]: every unit cites the next one. *)
Fixpoint check_windows {E} (unit : SignedWireUnit) (preds : list SignedWireUnit) : res E bool :=
  match preds with
  | [] => Ok true
  | pred :: preds =>
      p ← WireUnit_previous (wire_unit_of unit);
      if bool_decide (p = Some (hash_of pred)) then check_windows pred preds else Ok false
  end.

Definition Evidence_validate `{!VertexHash} (ev : Evidence) (validators : Validators)
    (instance_id : InstanceId) (params : Params) : res EvidenceError unit :=
  match ev with
  | Equivocation unit1 unit2 => validate_equivocation unit1 unit2 instance_id validators
  | ConflictingEndorsements endorsement1 unit1 endorsement2 unit2 swimlane2 =>
      _ ← fail_if (endorsement_evidence_limit params <? Z.of_nat (length swimlane2)) EndorsementTooManyUnits;
      v ← ok_or (validator_id validators (se_creator endorsement1)) UnknownPerpetrator;
      _ ← fail_if (negb (bool_decide (se_unit endorsement1 = hash_of unit1))
                   || negb (bool_decide (se_unit endorsement2 = hash_of unit2))) EndorsementWrongHash;
      _ ← fail_if (negb (se_creator endorsement1 =? se_creator endorsement2)%nat)
            EndorsementDifferentCreators;
      ok ← check_windows unit2 swimlane2;
      _ ← fail_if (negb ok) EndorsementInvalidSwimlane;
      _ ← validate_equivocation unit1 (default unit2 (last swimlane2)) instance_id validators;
      fail_if (negb (verify_signature (hash_endorsement (se_unit endorsement1) (se_creator endorsement1))
                       v (se_signature endorsement1))
               || negb (verify_signature (hash_endorsement (se_unit endorsement2) (se_creator endorsement2))
                       v (se_signature endorsement2))) EvidenceSignature
  end.

(** ** vertex.rs *)

Record Ping := {
  p_creator : ValidatorIndex;
  p_timestamp : Z;
  p_instance_id : InstanceId;
  p_signature : Signature;
}.

Inductive Vertex :=
| VUnit (swunit : SignedWireUnit)
| VEvidence (ev : Evidence)
| VEndorsements (e : Endorsements)
| VPing (ping : Ping).

Definition vertex_value (v : Vertex) : option ConsensusValue :=
  match v with VUnit swunit => w_value (wire_unit_of swunit) | _ => None end.
Definition vertex_id (v : Vertex) : Dependency :=
  match v with
  | VUnit swunit => DepUnit (hash_of swunit)
  | VEvidence ev => DepEvidence (perpetrator ev)
  | VEndorsements e => DepEndorsement (e_unit e)
  | VPing ping => DepPing (p_creator ping) (p_timestamp ping)
  end.
Definition validator_ids (e : Endorsements) : list ValidatorIndex := (endorsers e).*1.
Definition Endorsements_from (e : SignedEndorsement) : Endorsements :=
  {| e_unit := se_unit e; endorsers := [(se_creator e, se_signature e)] |}.

Inductive PingError := PingCreator | PingSignature | PingInstanceId.
Inductive EndorsementError := EndCreator | EndBanned | EndSignature | EndEmpty.

Definition Ping_new `{!VertexHash} `{!ValidatorSecret} (creator : ValidatorIndex) (timestamp : Z)
    (instance_id : InstanceId) (sk : Secret) : Ping :=
  {| p_creator := creator; p_timestamp := timestamp; p_instance_id := instance_id;
     p_signature := sign sk (hash_ping creator timestamp instance_id) |}.

Definition Ping_validate `{!VertexHash} (ping : Ping) (validators : Validators)
    (our_instance_id : InstanceId) : res PingError unit :=
  _ ← fail_if (negb (bool_decide (p_instance_id ping = our_instance_id))) PingInstanceId;
  v ← ok_or (validator_id validators (p_creator ping)) PingCreator;
  let h := hash_ping (p_creator ping) (p_timestamp ping) (p_instance_id ping) in
  fail_if (negb (verify_signature h v (p_signature ping))) PingSignature.

Definition HashedWireUnit_new `{!VertexHash} (w : WireUnit) : HashedWireUnit :=
  {| hw_hash := hash_wire_unit w; hw_wire_unit := w |}.
Definition SignedWireUnit_new `{!ValidatorSecret} (h : HashedWireUnit) (secret_key : Secret) : SignedWireUnit :=
  {| hashed_wire_unit := h; signature := sign secret_key (hw_hash h) |}.

End Vertices.
