(* ===== verification/HighwayActive.v ===== *)
(** * The active validator

    [active_validator.rs]: when a validator creates proposals, confirmations and
    witness units, and what they contain.

    The file with the latest own unit is modelled by its contents; errors of the
    file system, on which the node stops, are not. *)

From S2P Require Import Prelude Highway HighwaySkip HighwayInv HighwayTally HighwayFork HighwayAdd HighwayLeader HighwayValidate HighwayMerge HighwayVertex.

Local Open Scope Z_scope.

Section Active.
Context {C : ConsensusContext} {VH : VertexHash} {VS : ValidatorSecret} {LR : LeaderRng} {BS : BinarySearch}.

(** [BlockContext] of [consensus_protocol.rs]. *)
Record BlockContext := { bc_timestamp : Z; ancestor_values : list ConsensusValue }.

#[export] Instance BlockContext_eq_dec : EqDecision BlockContext.
Proof. solve_decision. Defined.

Inductive Effect :=
| NewVertex (v : Vertex)
| ScheduleTimer (timestamp : Z)
| RequestNewBlock (context : BlockContext)
| WeAreFaulty (fault : Fault).

Record ActiveValidator := {
  vidx : ValidatorIndex;
  secret : Secret;
  next_round_exp : Z;
  next_timer : Z;
  next_proposal : option (BlockContext * Panorama);
  unit_file : option (option SignedWireUnit);
  own_last_unit : option SignedWireUnit;
  target_ftt : Weight;
  paused : bool;
}.

Definition set_next_timer (av : ActiveValidator) t : ActiveValidator :=
  {| vidx := vidx av; secret := secret av; next_round_exp := next_round_exp av; next_timer := t;
     next_proposal := next_proposal av; unit_file := unit_file av; own_last_unit := own_last_unit av;
     target_ftt := target_ftt av; paused := paused av |}.
Definition set_next_proposal (av : ActiveValidator) p : ActiveValidator :=
  {| vidx := vidx av; secret := secret av; next_round_exp := next_round_exp av; next_timer := next_timer av;
     next_proposal := p; unit_file := unit_file av; own_last_unit := own_last_unit av;
     target_ftt := target_ftt av; paused := paused av |}.
Definition set_unit_file (av : ActiveValidator) f : ActiveValidator :=
  {| vidx := vidx av; secret := secret av; next_round_exp := next_round_exp av; next_timer := next_timer av;
     next_proposal := next_proposal av; unit_file := f; own_last_unit := own_last_unit av;
     target_ftt := target_ftt av; paused := paused av |}.
Definition set_own_last_unit (av : ActiveValidator) u : ActiveValidator :=
  {| vidx := vidx av; secret := secret av; next_round_exp := next_round_exp av; next_timer := next_timer av;
     next_proposal := next_proposal av; unit_file := unit_file av; own_last_unit := u;
     target_ftt := target_ftt av; paused := paused av |}.
Definition set_round_exp (av : ActiveValidator) (new_round_exp : Z) : ActiveValidator :=
  {| vidx := vidx av; secret := secret av; next_round_exp := new_round_exp; next_timer := next_timer av;
     next_proposal := next_proposal av; unit_file := unit_file av; own_last_unit := own_last_unit av;
     target_ftt := target_ftt av; paused := paused av |}.
Definition set_paused (av : ActiveValidator) (paused : bool) : ActiveValidator :=
  {| vidx := vidx av; secret := secret av; next_round_exp := next_round_exp av; next_timer := next_timer av;
     next_proposal := next_proposal av; unit_file := unit_file av; own_last_unit := own_last_unit av;
     target_ftt := target_ftt av; paused := paused |}.

(** *** Synchronization with the own last unit *)

Definition can_vote (av : ActiveValidator) (s : State) : bool :=
  match own_last_unit av with None => true | Some swunit => has_unit s (hash_of swunit) end.
Definition is_own_last_unit_panorama_sync (av : ActiveValidator) (s : State) : bool :=
  match own_last_unit av with
  | None => true
  | Some swunit => forallb (has_unit s) (iter_correct_hashes (w_panorama (wire_unit_of swunit)))
  end.
Definition take_own_last_unit (av : ActiveValidator) : ActiveValidator * option SignedWireUnit :=
  (set_own_last_unit av None, own_last_unit av).

(** *** Our own observations and rounds *)

Definition latest_unit {E} (av : ActiveValidator) (s : State) : res E (option Unit) :=
  match panorama s !! vidx av ≫= obs_correct with
  | None => Ok None
  | Some vh => Some <$> st_unit s vh
  end.
Definition av_is_faulty (av : ActiveValidator) (s : State) : bool :=
  match panorama s !! vidx av with Some o => obs_is_faulty o | None => false end.

Definition witness_offset {E} (round_len : Z) : res E Z :=
  x ← u64_mul round_len 2; mret (x / 3).

Definition av_round_exp {E} (av : ActiveValidator) (s : State) (timestamp0 : Z) : res E Z :=
  latest ← latest_unit av s;
  match latest with
  | None => Ok (next_round_exp av)
  | Some u =>
      let max_re := Z.max (next_round_exp av) (round_exp u) in
      r ← round_id timestamp0 max_re;
      mret (if timestamp u <? r then next_round_exp av else round_exp u)
  end.

Definition earliest_unit_time {E} (av : ActiveValidator) (s : State) : res E Z :=
  latest ← latest_unit av s;
  match latest with
  | None => Ok (start_timestamp (params s))
  | Some u =>
      match Unit_previous u with
      | None => Ok (timestamp u)
      | Some vh2 =>
          unit2 ← st_unit s vh2;
          r ← Unit_round_id unit2;
          e ← u64_add r (Unit_round_len unit2);
          mret (Z.max (timestamp u) e)
      end
  end.

Definition panorama_at {E} (av : ActiveValidator) (s : State) (timestamp : Z) : res E Panorama :=
  past_panorama ← cutoff s (panorama s) timestamp;
  valid_panorama s (vidx av) past_panorama.

Definition schedule_timer {E} (av : ActiveValidator) (s : State) (timestamp : Z)
    : res E (ActiveValidator * list Effect) :=
  if timestamp <? next_timer av then Ok (av, []) else
  r_exp ← av_round_exp av s timestamp;
  r_id ← round_id timestamp r_exp;
  let r_len := round_len r_exp in
  off ← witness_offset r_len;
  w ← u64_add r_id off;
  t ← if timestamp <? w then Ok w else
        next_r_id ← u64_add r_id r_len;
        l ← leader s next_r_id;
        if (l =? vidx av)%nat then Ok next_r_id else
          next_r_exp ← av_round_exp av s next_r_id;
          off ← witness_offset (round_len next_r_exp);
          u64_add next_r_id off;
  mret (set_next_timer av t, [ScheduleTimer t]).

(** *** New units *)

Definition write_last_unit (file : option (option SignedWireUnit)) (swunit : SignedWireUnit)
    : option (option SignedWireUnit) :=
  match file with None => None | Some _ => Some (Some swunit) end.

Definition new_unit {E} (av : ActiveValidator) (pan : Panorama) (timestamp0 : Z)
    (value : option ConsensusValue) (s : State) (instance_id : InstanceId)
    : res E (ActiveValidator * option SignedWireUnit) :=
  if match value with None => negb (has_correct pan) | Some _ => false end then Ok (av, None) else
  if negb (can_vote av s) then Ok (av, None) else
  let av := set_next_proposal av None in
  early ← any_res (fun h => u ← st_unit s h; mret (timestamp0 <? timestamp u)) (iter_correct_hashes pan);
  if early : bool then Ok (av, None) else
  o ← vm_index pan (vidx av);
  so ← vm_index (panorama s) (vidx av);
  if negb (bool_decide (o = so)) then Ok (av, None) else
  seq_number ← next_seq_num s pan (vidx av);
  endorsed ← seen_endorsed s pan;
  round_exp ← av_round_exp av s timestamp0;
  let swunit := SignedWireUnit_new (HashedWireUnit_new
    {| w_panorama := pan; w_creator := vidx av; w_instance_id := instance_id; w_value := value;
       w_seq_number := seq_number; w_timestamp := timestamp0; w_round_exp := round_exp;
       w_endorsed := endorsed |}) (secret av) in
  mret (set_unit_file av (write_last_unit (unit_file av) swunit), Some swunit).

Definition send_ping (av : ActiveValidator) (timestamp : Z) (instance_id : InstanceId) : Effect :=
  NewVertex (VPing (Ping_new (vidx av) timestamp instance_id (secret av))).

Definition enough_validators_online {E} (av : ActiveValidator) (s : State) (now : Z) : res E bool :=
  total ← total_weight s;
  target_quorum ← u64_add (total / 2) (target_ftt av / 2);
  online ← filter_res (fun e =>
    if (vidx av =? e.1)%nat then Ok true
    else if is_faulty s e.1 then Ok false else is_online s e.1 now) (enumerate (weights s));
  online_weight ← Weight_sum online.*2;
  mret (target_quorum <? online_weight).

Definition request_new_block {E} (av : ActiveValidator) (s : State) (instance_id : InstanceId) (timestamp : Z)
    : res E (ActiveValidator * option Effect) :=
  let av := set_next_proposal av None in
  pan ← panorama_at av s timestamp;
  maybe_parent_hash ← fork_choice s pan;
  terminal ← match maybe_parent_hash with None => Ok false | Some h => is_terminal_block s h end;
  if terminal : bool then
    '(av, u) ← new_unit av pan timestamp None s instance_id;
    mret (av, (fun u => NewVertex (VUnit u)) <$> u)
  else
    ancestor_values ← match maybe_parent_hash with
      | None => Ok []
      | Some parent_hash =>
          rest ← ancestor_hashes s parent_hash;
          map_res (fun b => value <$> st_block s b) (parent_hash :: rest)
      end;
    let block_context := {| bc_timestamp := timestamp; ancestor_values := ancestor_values |} in
    mret (set_next_proposal av (Some (block_context, pan)), Some (RequestNewBlock block_context)).

Definition handle_timer {E} (av : ActiveValidator) (timestamp : Z) (s : State) (instance_id : InstanceId)
    : res E (ActiveValidator * list Effect) :=
  if av_is_faulty av s then Ok (av, []) else
  '(av, effects) ← schedule_timer av s timestamp;
  earliest ← earliest_unit_time av s;
  if timestamp <? earliest then Ok (av, effects) else
  r_exp ← av_round_exp av s timestamp;
  r_id ← round_id timestamp r_exp;
  let r_len := round_len r_exp in
  active ← if paused av then Ok false else enough_validators_online av s timestamp;
  is_leader ← if active && (timestamp =? r_id) then l ← leader s r_id; mret (l =? vidx av)%nat else Ok false;
  if is_leader : bool then
    '(av, e) ← request_new_block av s instance_id timestamp;
    mret (av, effects ++ option_list e)
  else
  '(av, witness) ←
    if active : bool then
      off ← witness_offset r_len;
      w ← u64_add r_id off;
      if timestamp =? w then
        pan ← panorama_at av s timestamp;
        new_unit av pan timestamp None s instance_id
      else Ok (av, None)
    else Ok (av, None);
  match witness with
  | Some witness_unit => mret (av, effects ++ [NewVertex (VUnit witness_unit)])
  | None =>
      t ← u64_add (saturating_sub timestamp (max_round_length (params s))) 1;
      mret (av, effects ++ if negb (has_ping s (vidx av) t) then [send_ping av timestamp instance_id] else [])
  end.

(** [ActiveValidator::new]; [last_unit] is what the unit file contains. *)
Definition ActiveValidator_new {E} (vidx : ValidatorIndex) (secret : Secret) (current_time start_time : Z)
    (s : State) (unit_file : option (option SignedWireUnit)) (target_ftt : Weight) (instance_id : InstanceId)
    : res E (ActiveValidator * list Effect) :=
  let av := {| vidx := vidx; secret := secret; next_round_exp := init_round_exp (params s);
               next_timer := start_timestamp (params s); next_proposal := None; unit_file := unit_file;
               own_last_unit := mjoin unit_file; target_ftt := target_ftt; paused := false |} in
  '(av, effects) ← schedule_timer av s start_time;
  mret (av, effects ++ [send_ping av current_time instance_id]).

(** *** Reactions *)

Definition should_send_confirmation {E} (av : ActiveValidator) (vhash : Hash) (timestamp0 : Z) (s : State)
    : res E bool :=
  u ← st_unit s vhash;
  skip ← if (creator u =? vidx av)%nat || av_is_faulty av s then Ok true
         else negb <$> is_correct_proposal s u;
  if skip : bool then Ok false else
  r_exp ← av_round_exp av s timestamp0;
  r_id ← round_id timestamp0 r_exp;
  if negb (timestamp u =? r_id) then Ok false else
  if timestamp0 <? timestamp u then Ok false else
  latest ← latest_unit av s;
  confirmed ← match latest with None => Ok false | Some l => pan_sees_correct s (u_panorama l) vhash end;
  if confirmed : bool then Ok false else
  earliest ← earliest_unit_time av s;
  mret (negb (timestamp0 <? earliest)).

Definition should_endorse {E} (av : ActiveValidator) (vhash : Hash) (s : State) : res E bool :=
  if negb ENABLE_ENDORSEMENTS then Ok false else
  u ← st_unit s vhash;
  if is_faulty s (creator u) then Ok false else
    any_res (fun e => if is_faulty s e.1 then new_hash_obs s u e.1 else Ok false) (enumerate (u_panorama u)).

Definition endorse (av : ActiveValidator) (vhash : Hash) : Vertex :=
  VEndorsements (Endorsements_from
    {| se_unit := vhash; se_creator := vidx av;
       se_signature := sign (secret av) (hash_endorsement vhash (vidx av)) |}).

Definition on_new_unit {E} (av : ActiveValidator) (uhash : Hash) (now : Z) (s : State)
    (instance_id : InstanceId) : res E (ActiveValidator * list Effect) :=
  match maybe_fault s (vidx av) with
  | Some fault => Ok (av, [WeAreFaulty fault])
  | None =>
      confirm ← should_send_confirmation av uhash now s;
      '(av, effects) ←
        if confirm : bool then
          pan ← confirmation_panorama s (vidx av) uhash;
          if has_correct pan then
            '(av, u) ← new_unit av pan now None s instance_id;
            mret (av, (fun u => NewVertex (VUnit u)) <$> option_list u)
          else Ok (av, [])
        else Ok (av, []);
      b ← should_endorse av uhash s;
      mret (av, effects ++ if b : bool then [NewVertex (endorse av uhash)] else [])
  end.

Definition on_new_evidence {E} (av : ActiveValidator) (evidence : Evidence) (s : State) : res E (list Effect) :=
  if negb ENABLE_ENDORSEMENTS then Ok [] else
  hs ← filter_res (E:=E) (fun v => u ← st_unit s v; new_hash_obs s u (perpetrator evidence))
    (iter_correct_hashes (panorama s));
  Ok (List.map (fun v => NewVertex (endorse av v)) hs).

Definition propose {E} (av : ActiveValidator) (value : ConsensusValue) (block_context : BlockContext)
    (s : State) (instance_id : InstanceId) : res E (ActiveValidator * list Effect) :=
  let timestamp := bc_timestamp block_context in
  let expected := next_proposal av in
  let av := set_next_proposal av None in
  match expected with
  | None => Ok (av, [])
  | Some (expected_context, pan) =>
      if negb (bool_decide (expected_context = block_context)) then Ok (av, []) else
      earliest ← earliest_unit_time av s;
      if timestamp <? earliest then Ok (av, []) else
      if av_is_faulty av s then Ok (av, []) else
      '(av, u) ← new_unit av pan timestamp (Some value) s instance_id;
      mret (av, (fun u => NewVertex (VUnit u)) <$> option_list u)
  end.

Definition is_our_unit (av : ActiveValidator) (wunit : WireUnit) : bool := (vidx av =? w_creator wunit)%nat.
Definition is_doppelganger_vertex {E} (av : ActiveValidator) (v : Vertex) (s : State) : res E bool :=
  if negb (can_vote av s) then Ok false else
  match v with
  | VUnit swunit => Ok (is_our_unit av (wire_unit_of swunit) && negb (has_unit s (hash_of swunit)))
  | VEndorsements e =>
      if TODO_ENDORSEMENT_EVIDENCE_DISABLED then Ok false else
      if existsb (fun x => (x.1 =? vidx av)%nat) (endorsers e)
      then negb <$> has_endorsement s (e_unit e) (vidx av) else Ok false
  | VPing ping => Ok ((p_creator ping =? vidx av)%nat && negb (has_ping s (vidx av) (p_timestamp ping)))
  | VEvidence _ => Ok false
  end.
Definition next_round_length (av : ActiveValidator) : Z := round_len (next_round_exp av).

End Active.
