(* ===== verification/HighwayOwn.v ===== *)
(** * The units of an active validator

    The confirmations and witness units an active validator creates pass every
    check other validators will apply to them, and never make it an equivocator. *)

From S2P Require Import Prelude Highway HighwaySkip HighwayInv HighwayTally HighwayFork HighwayAdd HighwayLeader HighwayValidate HighwayMerge HighwayVertex HighwayActive.

Local Open Scope Z_scope.

(** ** Rounds of different lengths *)

Lemma round_start t e : 0 <= e -> t - t mod 2 ^ e = 2 ^ e * (t / 2 ^ e) /\ t - t mod 2 ^ e <= t < t - t mod 2 ^ e + 2 ^ e.
Proof.
  intros He. pose proof (Z.pow_pos_nonneg 2 e ltac:(lia) He). pose proof (Z.div_mod t (2 ^ e) ltac:(lia)).
  pose proof (Z.mod_pos_bound t (2 ^ e) ltac:(lia)). lia.
Qed.

Lemma round_start_mono t e m : 0 <= e <= m -> t - t mod 2 ^ m <= t - t mod 2 ^ e.
Proof.
  intros He. destruct (round_start t e) as [E1 _]; [lia|]. destruct (round_start t m) as [E2 [Hle _]]; [lia|].
  rewrite E1, E2 in *. pose proof (Z.pow_pos_nonneg 2 e). replace m with (e + (m - e)) by lia.
  rewrite Z.pow_add_r, <- Z.mul_assoc by lia. apply Z.mul_le_mono_nonneg_l; [lia|].
  apply Z.div_le_lower_bound; [lia|]. rewrite Z.mul_assoc, <- Z.pow_add_r by lia.
  by replace (e + (m - e)) with m by lia.
Qed.

Lemma round_before x t m : 0 <= m -> x < t - t mod 2 ^ m -> x / 2 ^ m < t / 2 ^ m.
Proof.
  intros Hm Hx. destruct (round_start t m Hm) as [E _]. rewrite E in Hx. apply Z.div_lt_upper_bound; [|done].
  apply Z.pow_pos_nonneg; lia.
Qed.

Lemma round_same x t e : 0 <= e -> t - t mod 2 ^ e <= x <= t -> x / 2 ^ e = t / 2 ^ e.
Proof.
  intros He Hx. destruct (round_start t e He) as [E _]. pose proof (Z.pow_pos_nonneg 2 e).
  apply Z.le_antisymm; [apply Z.div_le_mono; lia|]. apply Z.div_le_lower_bound; lia.
Qed.

(** A third unit cannot fall into the round of the unit before the previous one,
    if it comes after that round's end and round lengths only change when the
    longer round is over. *)
Lemma third_unit_round t e tu eu t2 e2 :
  0 <= e -> 0 <= eu -> 0 <= e2 -> t2 <= tu <= t -> t2 - t2 mod 2 ^ e2 + 2 ^ e2 <= t ->
  (eu <> e -> tu < t - t mod 2 ^ Z.max eu e) ->
  (e2 <> eu -> t2 / 2 ^ Z.max e2 eu <> tu / 2 ^ Z.max e2 eu) ->
  t2 - t2 mod 2 ^ e2 <> t - t mod 2 ^ e.
Proof.
  intros He Heu He2 Ht Hend Hc Hc2 Heq.
  destruct (round_start t e He) as [_ Hte]. destruct (round_start t2 e2 He2) as [_ Ht2].
  assert (e2 < e) as Hlt by (apply (Z.pow_lt_mono_r_iff 2); lia).
  destruct (decide (eu = e)) as [->|Hne].
  - apply Hc2; [lia|]. rewrite Z.max_r by lia.
    rewrite (round_same t2 t e), (round_same tu t e); [done|lia..].
  - specialize (Hc Hne). pose proof (round_start_mono t e (Z.max eu e) ltac:(lia)). lia.
Qed.

Section Own.
Context {C : ConsensusContext} {VH : VertexHash} {VS : ValidatorSecret} {LR : LeaderRng} {BS : BinarySearch}.
Variable s : State.
Hypothesis I : inv s.

Let WF : wf s := inv_wf _ I.
Let SM : small s := inv_small _ I.

(** An active validator of this era that is not known to be faulty. *)
Record av_ok (av : ActiveValidator) : Prop := {
  ao_idx : (vidx av < length (weights s))%nat;
  ao_exp : min_round_exp (params s) <= next_round_exp av <= max_round_exp (params s);
  ao_correct : av_is_faulty av s = false;
}.

Variable av : ActiveValidator.
Hypothesis AV : av_ok av.

(** The validator's latest unit: none, or the one the state's panorama shows. *)
Definition own_latest (lu : option (Hash * Unit)) : Prop :=
  match lu with
  | None => panorama s !! vidx av = Some ObsNone
  | Some (h, u) => panorama s !! vidx av = Some (ObsCorrect h) /\ units s !! h = Some u
  end.

Lemma own_latest_exists : exists lu, own_latest lu /\ forall E, latest_unit (E:=E) av s = Ok (snd <$> lu).
Proof.
  destruct (lookup_lt_is_Some_2 (panorama s) (vidx av)) as [o Ho].
  { rewrite (wf_pan_len _ WF). apply (ao_idx _ AV). }
  pose proof (ao_correct _ AV) as Hf. unfold av_is_faulty in Hf. rewrite Ho in Hf.
  unfold latest_unit. rewrite Ho. destruct o as [|h|]; cbn; [by exists None| |done].
  destruct (wf_latest _ WF _ _ Ho) as [(u & Eu & _) _]. exists (Some (h, u)). split; [done|].
  intros E. by rewrite (st_unit_known s h u Eu).
Qed.

Lemma own_latest_unique lu lu' : own_latest lu -> own_latest lu' -> lu = lu'.
Proof.
  destruct lu as [[h u]|], lu' as [[h' u']|]; cbn; [|intros [? ?]; congruence|intros ? [? ?]; congruence|done].
  intros [E1 E2] [E1' E2']. assert (h' = h) as -> by congruence. by assert (u' = u) as -> by congruence.
Qed.

Lemma exp_bounds e : min_round_exp (params s) <= e <= max_round_exp (params s) -> 0 <= e < 64.
Proof. destruct (ex_params _ (inv_exps _ I)). lia. Qed.

(** The round exponent only changes after the end of the longer round. *)
Lemma own_round_exp t lu : is_uint 64 t -> own_latest lu -> exists e,
  (forall E, av_round_exp (E:=E) av s t = Ok e) /\
  min_round_exp (params s) <= e <= max_round_exp (params s) /\
  forall h u, lu = Some (h, u) -> round_exp u <> e ->
    timestamp u < t - t mod 2 ^ Z.max (round_exp u) e.
Proof.
  intros Ht Hlu. destruct own_latest_exists as (lu' & Hlu' & El).
  assert (lu' = lu) as -> by (by apply own_latest_unique).
  pose proof (ao_exp _ AV) as Hn. unfold av_round_exp.
  destruct lu as [[h u]|]; cbn in El.
  2: { exists (next_round_exp av). split; [intros E; by rewrite El|]. by split. }
  destruct Hlu as [_ Eu]. destruct (ex_units _ (inv_exps _ I) h u Eu) as (Hu & _ & _).
  exists (if timestamp u <? t - t mod 2 ^ Z.max (next_round_exp av) (round_exp u)
          then next_round_exp av else round_exp u).
  split_and!.
  - intros E. rewrite El. cbn [mbind res_bind]. rewrite round_id_eq; [done| |done].
    apply exp_bounds. lia.
  - case_match; lia.
  - case_match; lia.
  - intros h' u' [= <- <-] Hne. destruct (Z.ltb_spec (timestamp u) (t - t mod 2 ^ Z.max (next_round_exp av) (round_exp u)));
      [|done]. by rewrite Z.max_comm.
Qed.

(** Cast at or after [earliest_unit_time]: not before the previous unit, and after
    the round of the one before that. *)
Lemma own_earliest {E} e t lu : own_latest lu -> earliest_unit_time (E:=E) av s = Ok e -> e <= t ->
  start_timestamp (params s) <= t /\
  forall h u, lu = Some (h, u) -> timestamp u <= t /\
    forall h2 u2, Unit_previous u = Some h2 -> units s !! h2 = Some u2 ->
      timestamp u2 - timestamp u2 mod 2 ^ round_exp u2 + 2 ^ round_exp u2 <= t.
Proof.
  intros Hlu He Het. destruct own_latest_exists as (lu' & Hlu' & El).
  unfold earliest_unit_time in He. rewrite El in He. cbn [mbind res_bind] in He.
  assert (lu' = lu) as -> by (by apply own_latest_unique).
  destruct lu as [[h u]|]; cbn in Hlu, He.
  2: { injection He as <-. split; [done|]. by intros. }
  destruct Hlu as [E1 Eu]. destruct (ex_units _ (inv_exps _ I) h u Eu) as (_ & _ & Hst).
  destruct (Unit_previous u) as [h2|] eqn:Ep.
  - destruct (previous_unit s WF h u h2 Eu Ep) as (u2 & Eu2 & _). rewrite (st_unit_known s h2 u2 Eu2) in He.
    cbn [mbind res_bind] in He. rewrite (Unit_round_id_total s I h2 u2 Eu2) in He. cbn [mbind res_bind] in He.
    apply bind_Ok in He as (x & Hx & [= <-]). unfold u64_add, plain_add, checked_add in Hx.
    destruct (_ <=? _); [|done]. injection Hx as <-.
    destruct (exp_range s h2 u2 (inv_exps _ I) Eu2) as [Hr2 _].
    assert (Unit_round_len u2 = 2 ^ round_exp u2) as Hlen.
    { unfold Unit_round_len, round_len. by rewrite (proj2 (Z.ltb_lt _ _)) by lia. }
    rewrite Hlen in Het. split; [lia|]. intros h0 u0 [= <- <-]. split; [lia|].
    intros h3 u3 [= <-]%(eq_trans (eq_sym Ep)) Eu3. assert (u3 = u2) as -> by congruence. lia.
  - injection He as <-. split; [lia|]. intros h0 u0 [= <- <-]. split; [done|].
    intros h3 u3 Hp. congruence.
Qed.

Lemma shiftr_div a n : 0 <= n -> Z.shiftr a n = a / 2 ^ n.
Proof. intros Hn. by apply Z.shiftr_div_pow2. Qed.

Lemma own_check_rounds {E} wu t e0 e lu h u : is_uint 64 t -> own_latest lu -> lu = Some (h, u) ->
  earliest_unit_time (E:=E) av s = Ok e0 -> e0 <= t -> (forall E, av_round_exp (E:=E) av s t = Ok e) ->
  w_timestamp wu = t -> w_round_exp wu = e -> check_rounds s wu (t - t mod 2 ^ e) u = Ok tt.
Proof.
  intros Ht Hlu -> He0 Hle He Ewt Ewe. pose proof Hlu as [_ Eu].
  destruct (own_round_exp t _ Ht Hlu) as (e' & He' & Hb & Hch). pose proof (He' False) as E1.
  rewrite He in E1. injection E1 as <-. pose proof (exp_bounds e Hb) as Heb.
  destruct (own_earliest e0 t _ Hlu He0 Hle) as [_ Hel]. destruct (Hel h u eq_refl) as [Htu H2].
  destruct (exp_range s h u (inv_exps _ I) Eu) as [Hu _].
  unfold check_rounds. rewrite Ewt, Ewe.
  assert ((if negb (round_exp u =? e) then
      a ← u64_shr (timestamp u) (Z.max (round_exp u) e);
      b ← u64_shr t (Z.max (round_exp u) e);
      fail_if (a =? b) RoundLengthExpChangedWithinRound
    else Ok tt) = Ok tt) as ->.
  { destruct (Z.eqb_spec (round_exp u) e) as [|Hne]; [done|]. cbn [negb]. unfold u64_shr.
    rewrite (proj2 (Z.ltb_lt _ _)) by lia. cbn [mbind res_bind]. apply fail_if_Ok, Z.eqb_neq.
    rewrite !shiftr_div by lia. pose proof (round_before (timestamp u) t (Z.max (round_exp u) e) ltac:(lia)
      (Hch h u eq_refl Hne)). lia. }
  cbn [mbind res_bind]. destruct (Unit_previous u) as [h2|] eqn:Ep; [|done].
  destruct (previous_unit s WF h u h2 Eu Ep) as (u2 & Eu2 & _).
  rewrite (st_unit_known s h2 u2 Eu2). cbn [mbind res_bind].
  rewrite (Unit_round_id_total s I h2 u2 Eu2). cbn [mbind res_bind]. apply fail_if_Ok, Z.eqb_neq.
  destruct (exp_range s h2 u2 (inv_exps _ I) Eu2) as [Hu2 _].
  pose proof (wfu_own _ _ _ (wf_units _ WF _ _ Eu)) as Ho. rewrite Ep in Ho.
  destruct (wfu_entries _ _ _ (wf_units _ WF _ _ Eu) _ _ Ho) as (u2' & Eu2' & _ & _ & Ht2).
  assert (u2' = u2) as -> by congruence.
  apply (third_unit_round t e (timestamp u) (round_exp u)); [lia|lia|lia|lia|by eapply H2| |].
  - intros Hne. by apply (Hch h u eq_refl).
  - intros Hne. rewrite <- !shiftr_div by lia. by apply (ex_change _ (inv_exps _ I) h u h2 u2).
Qed.

Lemma any_res_false {E A} (f : A -> res E bool) l : any_res f l = Ok false -> forall x, x ∈ l -> f x = Ok false.
Proof.
  induction l as [|y l IH]; cbn; intros Ha x Hx; [by apply not_elem_of_nil in Hx|].
  apply bind_Ok in Ha as ([] & Hy & Ha); [done|]. apply elem_of_cons in Hx as [->|Hx]; [done|by apply IH].
Qed.

Lemma iter_correct_elem {E} p us v : iter_correct (E:=E) s p = Ok us -> v ∈ us ->
  exists h, h ∈ iter_correct_hashes p /\ units s !! h = Some v.
Proof.
  unfold iter_correct. revert us. induction (iter_correct_hashes p) as [|x l IH]; intros us H Hv; cbn in H.
  { injection H as <-. by apply not_elem_of_nil in Hv. }
  apply bind_Ok in H as (ux & Hx%expect_Ok & H). apply bind_Ok in H as (us' & H & [= <-]).
  apply elem_of_cons in Hv as [->|Hv].
  - exists x. split; [by left|done].
  - destruct (IH us' H Hv) as (h & Hh & Eh). exists h. split; [by right|done].
Qed.

(** What a new unit without a block contains. *)
Lemma new_unit_inv {E} pan t iid av' sw : new_unit (E:=E) av pan t None s iid = Ok (av', Some sw) ->
  citable s pan -> is_uint 64 t ->
  let w := wire_unit_of sw in
  w_panorama w = pan /\ w_creator w = vidx av /\ w_value w = None /\ w_timestamp w = t /\
  w_instance_id w = iid /\ has_correct pan = true /\ pan !! vidx av = panorama s !! vidx av /\
  (forall h u, h ∈ iter_correct_hashes pan -> units s !! h = Some u -> timestamp u <= t) /\
  (forall E, next_seq_num (E:=E) s pan (vidx av) = Ok (w_seq_number w)) /\ is_uint 64 (w_seq_number w) /\
  (forall E, av_round_exp (E:=E) av s t = Ok (w_round_exp w)).
Proof.
  intros Hn [V F] Ht. unfold new_unit in Hn.
  destruct (negb (has_correct pan)) eqn:Hc; [done|]. apply negb_false_iff in Hc.
  destruct (negb (can_vote av s)); [done|]. cbn [set_next_proposal vidx] in Hn.
  apply bind_Ok in Hn as (early & Hea & Hn). destruct early; [done|].
  apply bind_Ok in Hn as (o & Ho%expect_Ok & Hn). apply bind_Ok in Hn as (so & Hso%expect_Ok & Hn).
  destruct (negb (bool_decide (o = so))) eqn:Hoo; [done|]. apply negb_false_iff, bool_decide_eq_true in Hoo.
  apply bind_Ok in Hn as (sq & Hsq & Hn). apply bind_Ok in Hn as (en & Hen & Hn).
  apply bind_Ok in Hn as (e & He & Hn). injection Hn as <- <-. cbn.
  destruct (next_seq_total s I pan (vidx av) (valid_pan_cites _ _ V)) as (n & Hnu & Hnn).
  { rewrite (vp_len _ _ V). apply (ao_idx _ AV). }
  assert (n = sq) as -> by (rewrite Hnn in Hsq; congruence).
  destruct own_latest_exists as (lu & Hlu & _).
  destruct (own_round_exp t lu Ht Hlu) as (e' & He' & _).
  assert (e' = e) as ->.
  { specialize (He' E). unfold av_round_exp, latest_unit in *. cbn [vidx set_next_proposal next_round_exp] in He.
    rewrite He' in He. congruence. }
  split_and!; [done..|congruence| |done|done|done].
  intros h u Hh Eu. pose proof (any_res_false _ _ Hea h Hh) as Hf. cbv beta in Hf.
  rewrite (st_unit_known s h u Eu) in Hf.
  cbn in Hf. injection Hf as Hf. lia.
Qed.

(** Every check accepts it, and adding it leaves everybody's record clean. *)
Lemma new_unit_valid {E E'} pan t iid av' sw e0 :
  new_unit (E:=E) av pan t None s iid = Ok (av', Some sw) ->
  citable s pan -> is_uint 64 t -> earliest_unit_time (E:=E') av s = Ok e0 -> e0 <= t ->
  wire_ok (wire_unit_of sw) /\ pre_validate_unit s sw = Ok tt /\
  pan_missing_dependency s (w_panorama (wire_unit_of sw)) = None /\ validate_unit s sw = Ok tt.
Proof.
  intros Hn [V F] Ht He0 Hle.
  destruct (new_unit_inv pan t iid av' sw Hn (conj V F) Ht)
    as (Ep & Ec & Ev & Et & Ei & Hcor & Hown & Htime & Hseq & Hsu & Hexp).
  destruct own_latest_exists as (lu & Hlu & _).
  destruct (own_round_exp t lu Ht Hlu) as (e & He & Hb & _). pose proof (He False) as E1.
  rewrite Hexp in E1. injection E1 as E1. subst e. pose proof (exp_bounds _ Hb) as Heb.
  destruct (own_earliest e0 t lu Hlu He0 Hle) as [Hst Hel].
  pose proof (ao_idx _ AV) as Hix. pose proof (ao_correct _ AV) as Hnf. unfold av_is_faulty in Hnf.
  destruct (lookup_lt_is_Some_2 pan (vidx av)) as [o Ho]; [by rewrite (vp_len _ _ V)|].
  rewrite <- Hown, Ho in Hnf.
  assert (pan_missing_dependency s pan = None) as Hdep.
  { unfold pan_missing_dependency.
    assert (omap (fun e => obs_missing_dep s e.1 e.2) (enumerate pan) = []) as ->; [|done].
    apply elem_of_nil_inv. intros d ([idx x] & Hin%elem_of_enumerate & Hd)%list_elem_of_omap. cbn in Hd.
    destruct x as [|h|]; cbn in Hd; [done| |].
    - destruct (vp_entries _ _ V _ _ Hin) as (u & Eu & _). unfold has_unit in Hd.
      rewrite bool_decide_eq_true_2 in Hd by (by eexists). done.
    - unfold is_faulty in Hd. rewrite bool_decide_eq_true_2 in Hd by (by apply F). done. }
  split_and!.
  - split_and!; [done|by rewrite Et|lia].
  - unfold pre_validate_unit. cbv zeta. rewrite Ep, Ec, Ev, Hcor. unfold validator_count.
    rewrite (proj2 (Nat.leb_gt _ _)) by done. cbn [fail_if mbind res_bind].
    assert (faults s !! vidx av = None) as ->.
    { apply eq_None_not_Some. intros Hsome%(wf_faults _ WF). rewrite <- Hown, Ho in Hsome.
      injection Hsome as ->. done. }
    cbn [fail_if mbind res_bind]. rewrite (proj2 (Z.ltb_ge _ _)) by lia. cbn [fail_if mbind res_bind].
    rewrite (proj2 (Z.ltb_ge _ _)) by lia. cbn [fail_if mbind res_bind negb].
    rewrite (vp_len _ _ V), Nat.eqb_refl. cbn [fail_if mbind res_bind negb]. unfold vm_index. rewrite Ho.
    cbn [expect mbind res_bind]. by rewrite Hnf.
  - by rewrite Ep.
  - unfold validate_unit. cbv zeta. rewrite Ep, Ec, Ev, Et.
    rewrite (proj2 (pan_validate_spec s WF SM pan (vp_len _ _ V)) V). cbn [mbind res_bind].
    destruct (iter_correct_total s (E:=UnitError) pan (valid_pan_cites _ _ V)) as [us Hus]. rewrite Hus.
    cbn [mbind res_bind].
    assert (existsb (fun v => t <? timestamp v) us || (t <? start_timestamp (params s)) = false) as ->.
    { apply orb_false_iff. split; [|lia]. apply not_true_is_false. intros (v & Hv%list_elem_of_In & Hlt)%existsb_exists.
      destruct (iter_correct_elem pan us v Hus Hv) as (h & Hh & Eh). specialize (Htime h v Hh Eh). lia. }
    cbn [fail_if mbind res_bind]. rewrite Hseq. cbn [mbind res_bind]. rewrite Z.eqb_refl.
    cbn [negb fail_if mbind res_bind]. rewrite round_id_eq by done. cbn [mbind res_bind].
    unfold WireUnit_previous, vm_index. rewrite Ep, Ec, Ho. cbn [expect fmap res_fmap mbind res_bind].
    rewrite Hown in Ho. destruct o as [|h|]; [| |done]; cbn [obs_correct].
    + done.
    + destruct (wf_latest _ WF _ _ Ho) as [(u & Eu & _) _]. rewrite (st_unit_known s h u Eu).
      cbn [fmap res_fmap mbind res_bind].
      assert (lu = Some (h, u)) as ->.
      { apply (own_latest_unique lu (Some (h, u)) Hlu). by split. }
      by rewrite (own_check_rounds (wire_unit_of sw) t e0 _ _ h u Ht Hlu eq_refl He0 Hle Hexp Et eq_refl).
Qed.

End Own.

(** ** What the validator creates *)

Section Created.
Context {C : ConsensusContext} {VH : VertexHash} {VS : ValidatorSecret} {LR : LeaderRng} {BS : BinarySearch}.

(** The validator creates [sw] at a timer event, or when it learns of a new unit. *)
Definition creates {E} (av : ActiveValidator) (s : State) (sw : SignedWireUnit) : Prop :=
  (exists t iid av' effects, is_uint 64 t /\ handle_timer (E:=E) av t s iid = Ok (av', effects) /\
     NewVertex (VUnit sw) ∈ effects) \/
  (exists t uhash iid av' effects, is_uint 64 t /\ on_new_unit (E:=E) av uhash t s iid = Ok (av', effects) /\
     NewVertex (VUnit sw) ∈ effects).

Section Units.
Variable s : State.
Hypothesis I : inv s.

Let WF : wf s := inv_wf _ I.
Let SM : small s := inv_small _ I.

Lemma panorama_at_citable {E} av t p : av_ok s av -> panorama_at (E:=E) av s t = Ok p -> citable s p.
Proof.
  intros AV Hp. unfold panorama_at in Hp.
  destruct (cutoff_ok s WF (E:=E) t (panorama s) (state_pan_citable s WF)) as (q & Eq & Kq & _).
  rewrite Eq in Hp. cbn [mbind res_bind] in Hp.
  destruct (valid_panorama_ok s WF SM (E:=E) (vidx av) q (ao_idx _ _ AV) Kq) as (r & Er & Kr & _).
  rewrite Er in Hp. by injection Hp as <-.
Qed.

Lemma confirmation_citable {E} av uhash p : av_ok s av -> known s uhash ->
  confirmation_panorama (E:=E) s (vidx av) uhash = Ok p -> citable s p.
Proof.
  intros AV [u Eu] Hp. unfold confirmation_panorama in Hp.
  destruct (inclusive_ok s WF (E:=E) uhash u Eu) as [Ei Ki]. rewrite Ei in Hp. cbn [mbind res_bind] in Hp.
  destruct (valid_panorama_ok s WF SM (E:=E) (vidx av) _ (ao_idx _ _ AV) Ki) as (r & Er & Kr & _).
  rewrite Er in Hp. by injection Hp as <-.
Qed.

(** A new unit without a block, made from a citable panorama in time. *)
Definition sound_unit {E} (av : ActiveValidator) (sw : SignedWireUnit) : Prop :=
  exists av0 pan t iid av' e0, av_ok s av0 /\ vidx av0 = vidx av /\ is_uint 64 t /\ citable s pan /\
    new_unit (E:=E) av0 pan t None s iid = Ok (av', Some sw) /\
    earliest_unit_time (E:=E) av0 s = Ok e0 /\ e0 <= t.

Lemma schedule_timer_effects {E} av t av' effects : schedule_timer (E:=E) av s t = Ok (av', effects) ->
  av_ok s av -> av_ok s av' /\ vidx av' = vidx av /\ forall v, NewVertex v ∉ effects.
Proof.
  unfold schedule_timer. intros Hs AV. case_match.
  { injection Hs as <- <-. split_and!; [done|done|]. intros v. apply not_elem_of_nil. }
  apply bind_Ok in Hs as (e & _ & Hs). apply bind_Ok in Hs as (r & _ & Hs).
  apply bind_Ok in Hs as (o & _ & Hs). apply bind_Ok in Hs as (w & _ & Hs).
  apply bind_Ok in Hs as (x & _ & Hs). injection Hs as <- <-.
  split_and!; [by destruct AV|done|]. intros v Hv. by apply list_elem_of_singleton in Hv.
Qed.

Lemma request_new_block_unit {E} av t iid av' sw e0 : av_ok s av -> is_uint 64 t ->
  earliest_unit_time (E:=E) av s = Ok e0 -> e0 <= t ->
  request_new_block (E:=E) av s iid t = Ok (av', Some (NewVertex (VUnit sw))) -> sound_unit (E:=E) av sw.
Proof.
  intros AV Ht He0 Hle Hr. unfold request_new_block in Hr.
  apply bind_Ok in Hr as (pan & Hp & Hr). apply bind_Ok in Hr as (fc & _ & Hr).
  apply bind_Ok in Hr as (term & _ & Hr). destruct term.
  - apply bind_Ok in Hr as ([av1 ou] & Hn & Hr). destruct ou as [sw'|]; [|done]. injection Hr as <- <-.
    assert (av_ok s (set_next_proposal av None)) as AV' by (by destruct AV).
    exists (set_next_proposal av None), pan, t, iid, av1, e0. split_and!; try done.
    by eapply (panorama_at_citable (set_next_proposal av None)).
  - apply bind_Ok in Hr as (vs & _ & Hr). done.
Qed.

Lemma handle_timer_unit {E} av t iid av' effects sw : av_ok s av -> is_uint 64 t ->
  handle_timer (E:=E) av t s iid = Ok (av', effects) -> NewVertex (VUnit sw) ∈ effects ->
  sound_unit (E:=E) av sw.
Proof.
  intros AV Ht Hh Hin. unfold handle_timer in Hh. rewrite (ao_correct _ _ AV) in Hh.
  apply bind_Ok in Hh as ([av1 eff1] & Hs & Hh).
  destruct (schedule_timer_effects av t av1 eff1 Hs AV) as (AV1 & Ev & Hno).
  apply bind_Ok in Hh as (e0 & He0 & Hh). destruct (Z.ltb_spec t e0) as [|Hle].
  { injection Hh as <- <-. by apply Hno in Hin. }
  apply bind_Ok in Hh as (re & _ & Hh). apply bind_Ok in Hh as (r & _ & Hh).
  apply bind_Ok in Hh as (act & _ & Hh). apply bind_Ok in Hh as (ldr & _ & Hh). destruct ldr.
  - apply bind_Ok in Hh as ([av2 oe] & Hr & Hh). injection Hh as <- <-.
    apply elem_of_app in Hin as [Hin|Hin]; [by apply Hno in Hin|].
    destruct oe as [e|]; [|by apply not_elem_of_nil in Hin]. apply list_elem_of_singleton in Hin as <-.
    destruct (request_new_block_unit av1 t iid av2 sw e0 AV1 Ht He0 Hle Hr) as (a0 & p0 & t0 & i0 & a1 & e1 & A0 & V0 & Rest).
    exists a0, p0, t0, i0, a1, e1. split_and!; [done|congruence|apply Rest..].
  - apply bind_Ok in Hh as ([av2 wit] & Hw & Hh). destruct wit as [wu|].
    + injection Hh as <- <-. apply elem_of_app in Hin as [Hin|Hin]; [by apply Hno in Hin|].
      apply list_elem_of_singleton in Hin. injection Hin as ->. destruct act; [|done].
      apply bind_Ok in Hw as (off & _ & Hw). apply bind_Ok in Hw as (w & _ & Hw).
      destruct (t =? w); [|done]. apply bind_Ok in Hw as (pan & Hp & Hn).
      exists av1, pan, t, iid, av2, e0. split_and!; try done. by eapply panorama_at_citable.
    + apply bind_Ok in Hh as (x & _ & Hh). injection Hh as <- <-.
      apply elem_of_app in Hin as [Hin|Hin]; [by apply Hno in Hin|].
      destruct (negb _); [by apply list_elem_of_singleton in Hin|by apply not_elem_of_nil in Hin].
Qed.

Lemma on_new_unit_unit {E} av uhash t iid av' effects sw : av_ok s av -> is_uint 64 t ->
  on_new_unit (E:=E) av uhash t s iid = Ok (av', effects) -> NewVertex (VUnit sw) ∈ effects ->
  sound_unit (E:=E) av sw.
Proof.
  intros AV Ht Hh Hin. unfold on_new_unit in Hh. destruct (maybe_fault s (vidx av)).
  { injection Hh as <- <-. by apply list_elem_of_singleton in Hin. }
  apply bind_Ok in Hh as (cf & Hc & Hh). apply bind_Ok in Hh as ([av1 eff] & He & Hh).
  apply bind_Ok in Hh as (b & Hb & Hh). injection Hb as <-. injection Hh as <- <-.
  rewrite app_nil_r in Hin. destruct cf; [|injection He as <- <-; by apply not_elem_of_nil in Hin].
  unfold should_send_confirmation in Hc. apply bind_Ok in Hc as (u & Hu%expect_Ok & Hc).
  apply bind_Ok in Hc as (sk & _ & Hc). destruct sk; [done|]. apply bind_Ok in Hc as (re & _ & Hc).
  apply bind_Ok in Hc as (r & _ & Hc). destruct (negb _); [done|]. destruct (_ <? _); [done|].
  apply bind_Ok in Hc as (lt & _ & Hc). apply bind_Ok in Hc as (cn & _ & Hc). destruct cn; [done|].
  apply bind_Ok in Hc as (e0 & He0 & Hc). injection Hc as Hle.
  apply bind_Ok in He as (pan & Hp & He). destruct (has_correct pan); [|injection He as <- <-; by apply not_elem_of_nil in Hin].
  apply bind_Ok in He as ([av2 ou] & Hn & He). injection He as <- <-.
  destruct ou as [sw'|]; [|by apply not_elem_of_nil in Hin]. apply list_elem_of_singleton in Hin. injection Hin as ->.
  exists av, pan, t, iid, av2, e0. split_and!; try done.
  - eapply (confirmation_citable av uhash); [done|by exists u|done].
  - apply negb_true_iff in Hle. lia.
Qed.

Lemma sound_unit_accepted {E E'} av sw : sound_unit (E:=E) av sw ->
  Z.of_nat (S (size (units s))) < uint_max 64 ->
  w_creator (wire_unit_of sw) = vidx av /\
  pre_validate_unit s sw = Ok tt /\ pan_missing_dependency s (w_panorama (wire_unit_of sw)) = None /\
  validate_unit s sw = Ok tt /\
  exists s', add_valid_unit (E:=E') s sw = Ok s' /\ inv s' /\ faults s' = faults s /\ has_unit s' (hash_of sw) = true.
Proof.
  intros (av0 & pan & t & iid & av' & e0 & AV & Ev & Ht & Kp & Hn & He0 & Hle) Room.
  destruct (new_unit_inv s I av0 AV pan t iid av' sw Hn Kp Ht) as (Ep & Ec & _ & _ & _ & _ & Hown & _).
  destruct (new_unit_valid s I av0 AV pan t iid av' sw e0 Hn Kp Ht He0 Hle) as (Wok & Pre & Dep & Val).
  split_and!; [congruence|done|done|done|].
  destruct (has_unit s (hash_of sw)) eqn:Hh.
  { exists s. split_and!; [|done|done|done]. unfold add_valid_unit. by rewrite Hh. }
  destruct (inv_add s I sw Wok Pre Dep (E:=E') Val Room) as (s' & Es' & I'). exists s'. split_and!; [done|done| |].
  all: pose proof (validated s WF SM (inv_weights_ok s I) sw Pre Dep Val) as AC.
  all: destruct (add_valid_unit_new s WF SM (inv_weights_ok s I) sw AC Hh Room (E:=E'))
    as (u & ob & s2 & Es2 & F & A & D & _); assert (s2 = s') as -> by congruence.
  - destruct (ad_new _ _ _ _ _ D) as [(_ & Ef & _)|(_ & Hne & _)]; [done|]. exfalso. apply Hne.
    by rewrite (fw_panorama _ _ F), (fw_creator _ _ F), Ep, Ec.
  - unfold has_unit. rewrite (ad_units _ _ _ _ _ D). apply bool_decide_eq_true_2.
    rewrite lookup_insert, decide_True by done. by eexists.
Qed.

End Units.
End Created.

