(* ===== verification/HighwayNode.v ===== *)
(** * A Highway instance

    [highway.rs]: how a node handles the vertices it receives and creates.

    Messages to the log are left out, and with them [log_if_missing_proposal]. *)

From S2P Require Import Prelude Highway HighwaySkip HighwayInv HighwayTally HighwayFork HighwayAdd HighwayLeader HighwayValidate HighwayMerge HighwayVertex HighwayActive HighwayOwn.

Local Open Scope Z_scope.

Section Node.
Context {C : ConsensusContext} {VH : VertexHash} {VS : ValidatorSecret} {LR : LeaderRng} {BS : BinarySearch}.

Inductive VertexError :=
| ErrUnit (e : UnitError)
| ErrEvidence (e : EvidenceError)
| ErrEndorsement (e : EndorsementError)
| ErrPing (e : PingError).

Inductive GetDepOutcome :=
| DepNone
| DepVertex (v : Vertex)
| DepEvidenceOf (vid : ValidatorId).

Record Highway := {
  instance_id : InstanceId;
  validators : Validators;
  state : State;
  active_validator : option ActiveValidator;
}.
Definition set_state (hw : Highway) s : Highway :=
  {| instance_id := instance_id hw; validators := validators hw; state := s;
     active_validator := active_validator hw |}.
Definition set_active (hw : Highway) a : Highway :=
  {| instance_id := instance_id hw; validators := validators hw; state := state hw; active_validator := a |}.

Definition Highway_new {E} (instance_id : InstanceId) (validators : Validators) (params : Params)
    : res E Highway :=
  s ← State_new (v_weight <$> vs validators) params (iter_banned_idx validators)
        (iter_cannot_propose_idx validators);
  mret {| instance_id := instance_id; validators := validators; state := s; active_validator := None |}.

Definition deactivate_validator (hw : Highway) : Highway := set_active hw None.
Definition hw_set_round_exp (hw : Highway) (new_round_exp : Z) : Highway :=
  set_active hw ((fun av => set_round_exp av new_round_exp) <$> active_validator hw).
Definition hw_set_paused (hw : Highway) (paused : bool) : Highway :=
  set_active hw ((fun av => set_paused av paused) <$> active_validator hw).
Definition hw_retain_evidence_only (hw : Highway) : Highway :=
  let hw := deactivate_validator hw in set_state hw (retain_evidence_only (state hw)).

(** *** Checks on vertices *)

Fixpoint check_endorsers (hw : Highway) (unit0 : Hash) (l : list (ValidatorIndex * Signature))
    : res EndorsementError unit :=
  match l with
  | [] => Ok tt
  | (creator, sig) :: l =>
      v ← ok_or (validator_id (validators hw) creator) EndCreator;
      _ ← fail_if (match maybe_fault (state hw) creator with Some Banned => true | _ => false end) EndBanned;
      _ ← fail_if (negb (verify_signature (hash_endorsement unit0 creator) v sig)) EndSignature;
      check_endorsers hw unit0 l
  end.

Definition do_pre_validate_vertex (hw : Highway) (v : Vertex) : res VertexError unit :=
  match v with
  | VUnit unit0 => map_err ErrUnit (
      vid ← ok_or (validator_id (validators hw) (w_creator (wire_unit_of unit0))) Creator;
      _ ← fail_if (negb (bool_decide (w_instance_id (wire_unit_of unit0) = instance_id hw))) WrongInstanceId;
      _ ← fail_if (negb (verify_signature (hash_of unit0) vid (signature unit0))) WrongSignature;
      pre_validate_unit (state hw) unit0)
  | VEvidence ev => map_err ErrEvidence
      (Evidence_validate ev (validators hw) (instance_id hw) (params (state hw)))
  | VEndorsements e => map_err ErrEndorsement (
      _ ← fail_if (match endorsers e with [] => true | _ => false end) EndEmpty;
      check_endorsers hw (e_unit e) (endorsers e))
  | VPing ping => map_err ErrPing (Ping_validate ping (validators hw) (instance_id hw))
  end.

Definition do_validate_vertex (hw : Highway) (v : Vertex) : res VertexError unit :=
  match v with
  | VUnit unit0 => map_err ErrUnit (validate_unit (state hw) unit0)
  | VEvidence _ | VEndorsements _ | VPing _ => Ok tt
  end.

Definition missing_dependency (hw : Highway) (v : Vertex) : option Dependency :=
  match v with
  | VEvidence _ | VPing _ => None
  | VEndorsements e => if negb (has_unit (state hw) (e_unit e)) then Some (DepUnit (e_unit e)) else None
  | VUnit unit0 =>
      match pan_missing_dependency (state hw) (w_panorama (wire_unit_of unit0)) with
      | Some d => Some d
      | None => DepEndorsement <$> needs_endorsements (state hw) unit0
      end
  end.

Definition has_vertex (hw : Highway) (v : Vertex) : bool :=
  match v with
  | VUnit unit0 => has_unit (state hw) (hash_of unit0)
  | VEvidence ev => has_evidence (state hw) (perpetrator ev)
  | VEndorsements e => has_all_endorsements (state hw) (e_unit e) (validator_ids e)
  | VPing ping => has_ping (state hw) (p_creator ping) (p_timestamp ping)
  end.

Definition hw_has_evidence (hw : Highway) (vid : ValidatorId) : bool :=
  match get_index (validators hw) vid with Some idx => has_evidence (state hw) idx | None => false end.
Definition hw_mark_faulty {E} (hw : Highway) (vid : ValidatorId) : res E Highway :=
  match get_index (validators hw) vid with
  | Some idx => s ← mark_faulty (state hw) idx; mret (set_state hw s)
  | None => Ok hw
  end.
Definition has_dependency (hw : Highway) (d : Dependency) : bool :=
  match d with
  | DepUnit h => has_unit (state hw) h
  | DepEvidence idx => is_faulty (state hw) idx
  | DepEndorsement h => is_endorsed (state hw) h
  | DepPing _ _ => false
  end.

Definition get_dependency {E} (hw : Highway) (d : Dependency) : res E GetDepOutcome :=
  match d with
  | DepUnit h =>
      mret (match wire_unit (state hw) h (instance_id hw) with
            | None => DepNone | Some u => DepVertex (VUnit u) end)
  | DepEvidence idx =>
      match maybe_fault (state hw) idx with
      | None | Some Banned => Ok DepNone
      | Some (Direct ev) => Ok (DepVertex (VEvidence ev))
      | Some Indirect => v ← expect (validator_id (validators hw) idx); mret (DepEvidenceOf v)
      end
  | DepEndorsement h =>
      mret (match maybe_endorsements (state hw) h with
            | None => DepNone | Some e => DepVertex (VEndorsements e) end)
  | DepPing _ _ => Ok DepNone
  end.

Definition get_dependency_by_index {E} (hw : Highway) (vid : ValidatorIndex) (unit_seq : Z)
    : res E GetDepOutcome :=
  match panorama (state hw) !! vid with
  | None | Some ObsNone => Ok DepNone
  | Some ObsFaulty =>
      mret (match maybe_fault (state hw) vid with
            | None | Some Banned => DepNone
            | Some (Direct ev) => DepVertex (VEvidence ev)
            | Some Indirect =>
                match validator_id (validators hw) vid with Some v => DepEvidenceOf v | None => DepNone end
            end)
  | Some (ObsCorrect last_seen) =>
      found ← find_in_swimlane (state hw) last_seen unit_seq;
      mret (match req_hash ← found; wire_unit (state hw) req_hash (instance_id hw) with
            | Some u => DepVertex (VUnit u) | None => DepNone end)
  end.

(** *** Adding vertices *)

(** Effects of new evidence; own endorsements are added to the state. *)
Definition hw_on_new_evidence {E} (hw : Highway) (ev : Evidence) : res E (Highway * list Effect) :=
  effects ← match active_validator hw with
    | Some av => on_new_evidence av ev (state hw)
    | None => Ok []
    end;
  s ← fold_res (fun s e => match e with
        | NewVertex (VEndorsements e) => add_endorsements s e
        | _ => Ok s
        end) (state hw) effects;
  mret (set_state hw s, effects ++ [NewVertex (VEvidence ev)]).

Definition hw_add_evidence {E} (hw : Highway) (ev : Evidence) : res E (Highway * list Effect) :=
  '(s, added) ← add_evidence (state hw) ev;
  let hw := set_state hw s in
  if added : bool then hw_on_new_evidence hw ev else Ok (hw, []).

(** [find_conflicting_endorsements] is disabled and finds nothing. *)
Definition hw_add_endorsements {E} (hw : Highway) (e : Endorsements) : res E (Highway * list Effect) :=
  s ← add_endorsements (state hw) e; mret (set_state hw s, []).
Definition hw_add_ping {E} (hw : Highway) (ping : Ping) : res E (Highway * list Effect) :=
  s ← add_ping (state hw) (p_creator ping) (p_timestamp ping); mret (set_state hw s, []).

Section Own.
(** [add_valid_vertex], which calls the functions below. *)
Context {E : Type} (add : Highway -> Vertex -> Z -> res E (Highway * list Effect)).

Definition add_new_own_vertices (hw : Highway) (effects : list Effect) (timestamp : Z)
    : res E (Highway * list Effect) :=
  '(hw, result) ← fold_res (fun '(hw, result) effect =>
      match effect with
      | NewVertex vv => '(hw, new) ← add hw vv timestamp; mret (hw, result ++ new)
      | WeAreFaulty _ => mret (deactivate_validator hw, result)
      | ScheduleTimer _ | RequestNewBlock _ => mret (hw, result)
      end) (hw, []) effects;
  mret (hw, result ++ effects).

Definition map_active_validator (hw : Highway)
    (f : ActiveValidator -> State -> res E (ActiveValidator * list Effect)) (timestamp : Z)
    : res E (Highway * option (list Effect)) :=
  match active_validator hw with
  | None => Ok (hw, None)
  | Some av =>
      '(av, effects) ← f av (state hw);
      '(hw, effects) ← add_new_own_vertices (set_active hw (Some av)) effects timestamp;
      mret (hw, Some effects)
  end.

Definition hw_on_new_unit (hw : Highway) (uhash : Hash) (timestamp : Z) : res E (Highway * list Effect) :=
  '(hw, effects) ← map_active_validator hw
    (fun av s => on_new_unit av uhash timestamp s (instance_id hw)) timestamp;
  mret (hw, default [] effects).

Definition add_own_last_unit (hw : Highway) (now : Z) : res E (Highway * list Effect) :=
  '(hw, effects) ← map_active_validator hw
    (fun av s =>
       if is_own_last_unit_panorama_sync av s then
         let '(av, u) := take_own_last_unit av in
         mret (av, match u with Some own_last_unit => [NewVertex (VUnit own_last_unit)] | None => [] end)
       else mret (av, [])) now;
  mret (hw, default [] effects).

Definition hw_add_valid_unit (hw : Highway) (swunit : SignedWireUnit) (now : Z)
    : res E (Highway * list Effect) :=
  let unit_hash := hash_of swunit in
  let creator := w_creator (wire_unit_of swunit) in
  let was_honest := negb (is_faulty (state hw) creator) in
  s ← add_valid_unit (state hw) swunit;
  let hw := set_state hw s in
  '(hw, evidence_effects) ← match maybe_evidence (state hw) creator with
    | Some ev => if was_honest then hw_on_new_evidence hw ev else Ok (hw, [])
    | None => Ok (hw, [])
    end;
  '(hw, new_unit_effects) ← hw_on_new_unit hw unit_hash now;
  '(hw, own_effects) ← add_own_last_unit hw now;
  mret (hw, evidence_effects ++ new_unit_effects ++ own_effects).

End Own.

Fixpoint add_valid_vertex {E} (fuel : nat) (hw : Highway) (v : Vertex) (now : Z)
    : res E (Highway * list Effect) :=
  match fuel with
  | O => OutOfFuel
  | S fuel =>
      if has_vertex hw v then Ok (hw, []) else
      match v with
      | VUnit unit0 => hw_add_valid_unit (add_valid_vertex fuel) hw unit0 now
      | VEvidence ev => hw_add_evidence hw ev
      | VEndorsements e => hw_add_endorsements hw e
      | VPing ping => hw_add_ping hw ping
      end
  end.

(** *** The active validator *)

Definition activate_validator {E} (fuel : nat) (hw : Highway) (vid : ValidatorId) (secret : Secret)
    (current_time : Z) (unit_hash_file : option (option SignedWireUnit)) (target_ftt : Weight)
    : res E (Highway * list Effect) :=
  match active_validator hw with
  | Some _ => Ok (hw, [])
  | None =>
      match get_index (validators hw) vid with
      | None => Ok (hw, [])
      | Some idx =>
          let start_time := Z.max current_time (start_timestamp (params (state hw))) in
          '(av, effects) ← ActiveValidator_new idx secret current_time start_time (state hw) unit_hash_file
            target_ftt (instance_id hw);
          add_new_own_vertices (add_valid_vertex fuel) (set_active hw (Some av)) effects current_time
      end
  end.

Definition hw_handle_timer {E} (fuel : nat) (hw : Highway) (timestamp : Z) : res E (Highway * list Effect) :=
  '(hw, effects) ← map_active_validator (add_valid_vertex fuel) hw
    (fun av s => handle_timer av timestamp s (instance_id hw)) timestamp;
  mret (hw, default [] effects).
Definition hw_propose {E} (fuel : nat) (hw : Highway) (value : ConsensusValue) (context : BlockContext)
    : res E (Highway * list Effect) :=
  '(hw, effects) ← map_active_validator (add_valid_vertex fuel) hw
    (fun av s => propose av value context s (instance_id hw)) (bc_timestamp context);
  mret (hw, default [] effects).
Definition hw_is_doppelganger_vertex {E} (hw : Highway) (v : Vertex) : res E bool :=
  match active_validator hw with
  | Some av => is_doppelganger_vertex av v (state hw)
  | None => Ok false
  end.
Definition validators_with_evidence (hw : Highway) : list ValidatorId :=
  (List.filter (fun e => has_evidence (state hw) e.1) (enumerate_ids (validators hw))).*2.

End Node.
