(* ===== verification/HighwayRun.v ===== *)
(** * A node that follows the protocol

    The transitions of an observer, a [Highway] instance without an active
    validator, and the invariant of all its reachable states: whatever vertices the
    network delivers, none of the checks and handlers panics. *)

From S2P Require Import Prelude Highway HighwaySkip HighwayInv HighwayTally HighwayFork HighwayAdd HighwayLeader HighwayValidate HighwayMerge HighwayVertex HighwayActive HighwayOwn HighwayNode.

Local Open Scope Z_scope.

(** ** Sums over some of the validators *)

Lemma zsum_perm l k : l ≡ₚ k -> zsum l = zsum k.
Proof. unfold zsum. induction 1; cbn; lia. Qed.

Lemma zsum_seq (ws : list Z) : zsum ((fun i => default 0 (ws !! i)) <$> seq 0 (length ws)) = zsum ws.
Proof.
  f_equal. apply list_eq. intros i. rewrite list_lookup_fmap. destruct (ws !! i) as [w|] eqn:E.
  - rewrite lookup_seq_lt by (by eapply lookup_lt_Some). cbn. by rewrite E.
  - apply lookup_ge_None in E. by rewrite lookup_seq_ge.
Qed.

Lemma zsum_some (ws : list Z) (ks : list nat) : Forall (Z.le 0) ws -> NoDup ks ->
  (forall k, k ∈ ks -> (k < length ws)%nat) ->
  0 <= zsum ((fun i => default 0 (ws !! i)) <$> ks) <= zsum ws.
Proof.
  intros Hn Hd Hk.
  assert (forall l : list nat, Forall (Z.le 0) ((fun i => default 0 (ws !! i)) <$> l)) as Hnn.
  { intros l. apply Forall_fmap, Forall_true. intros i. cbn. destruct (ws !! i) eqn:E; cbn; [|lia].
    rewrite Forall_forall in Hn. apply Hn. by eapply list_elem_of_lookup_2. }
  split; [by apply zsum_nonneg|].
  assert (ks ⊆+ seq 0 (length ws)) as [k Hp]%submseteq_Permutation.
  { apply NoDup_submseteq; [done|]. intros x Hx. apply elem_of_seq. specialize (Hk x Hx). lia. }
  rewrite <- (zsum_seq ws), (zsum_perm _ _ (fmap_Permutation _ _ _ Hp)), fmap_app, zsum_app.
  pose proof (zsum_nonneg _ (Hnn k)). lia.
Qed.

Section Ops.
Context {C : ConsensusContext} {VH : VertexHash} {VS : ValidatorSecret} {LR : LeaderRng} {BS : BinarySearch}.
Implicit Types s : State.

(** ** Declaring validators faulty *)

(** [s'] is [s] with [idx] known to be faulty. *)
Record faulted s (idx : ValidatorIndex) s' : Prop := {
  fd_units : units s' = units s;
  fd_blocks : blocks s' = blocks s;
  fd_static : same_static s s';
  fd_pings : pings s' = pings s;
  fd_incomplete : incomplete_endorsements s' = incomplete_endorsements s;
  fd_panorama : panorama s' = <[idx := ObsFaulty]> (panorama s);
  fd_faults i : is_Some (faults s' !! i) <-> i = idx \/ is_Some (faults s !! i);
}.

Lemma unit_info_same s s' : units s' = units s -> unit_info s' = unit_info s.
Proof. intros E. unfold unit_info. by rewrite E. Qed.

Lemma lane_same s s' h h' : units s' = units s -> lane_le s' h h' <-> lane_le s h h'.
Proof. intros E. unfold lane_le. by rewrite (unit_info_same s s' E). Qed.

Lemma pan_le_same s s' p q : units s' = units s -> pan_le s p q -> pan_le s' p q.
Proof.
  intros E L. unfold pan_le in *. eapply Forall2_impl; [exact L|]. intros o o'. destruct o, o'; cbn; try done.
  by apply lane_same.
Qed.

Lemma latest_same s s' i o : units s' = units s -> latest_ok s i o -> latest_ok s' i o.
Proof.
  intros E L. destruct o as [|x|]; cbn in *; [by rewrite E| |done].
  destruct L as [K L]. rewrite E. split; [done|]. intros h u Eu Hc. apply (lane_same s s' h x E). by eapply L.
Qed.

Lemma wf_faulted s idx s' : wf s -> (idx < length (weights s))%nat -> faulted s idx s' -> wf s'.
Proof.
  intros WF Hi [Eu Eb St Epi _ Ep Ef]. pose proof (ss_weights _ _ St) as Ew.
  assert (idx < length (panorama s))%nat as Hip by (by rewrite (wf_pan_len _ WF)).
  split; rewrite ?Eu, ?Eb, ?Ew, ?Epi, ?Ep.
  - intros h u E. destruct (wf_units _ WF _ _ E) as [L O En F B V Sq].
    split; rewrite ?Eu, ?Eb, ?Ew; try done.
    + intros i h' Hh'. destruct (En i h' Hh') as (u' & ? & ? & ? & ?). exists u'.
      split_and!; [done|done|by eapply pan_le_same|done].
    + intros i Hf. apply Ef. right. by apply F.
  - rewrite (unit_info_same s s' Eu). apply (wf_lanes _ WF).
  - assert (block_info s' = block_info s) as -> by (unfold block_info; by rewrite Eb). apply (wf_chains _ WF).
  - apply (wf_heights _ WF).
  - apply (wf_blocks _ WF).
  - rewrite length_insert. apply (wf_pan_len _ WF).
  - intros i o [(<- & <- & _)|[_ Ho]]%list_lookup_insert_Some; [done|].
    by apply (latest_same s s' i o Eu), (wf_latest _ WF).
  - intros i. rewrite Ef, <- (wf_faults _ WF). destruct (decide (i = idx)) as [->|Hne].
    + rewrite list_lookup_insert_eq by done. split; auto.
    + rewrite list_lookup_insert_ne by done. split; [auto|by intros [|]].
  - apply (wf_pings _ WF).
Qed.

Lemma inv_faulted s idx s' : inv s -> (idx < length (weights s))%nat -> faulted s idx s' -> inv s'.
Proof.
  intros [WF SM St Ex Wp] Hi F. pose proof F as [Eu Eb Ss _ _ _ _]. split.
  - by eapply wf_faulted.
  - unfold small. by rewrite Eu.
  - by eapply static_same.
  - destruct Ex as [Pp Pu Pc]. split; rewrite ?(ss_params _ _ Ss), ?Eu; done.
  - by rewrite (ss_weights _ _ Ss).
Qed.

(** The flags of endorsements name validators. *)
Definition endorse_ok s : Prop := forall h m v, incomplete_endorsements s !! h = Some m -> is_Some (m !! v) ->
  (v < length (weights s))%nat.

Lemma vm_set_ok {E A} (m : list A) i x : (i < length m)%nat -> vm_set (E:=E) m i x = Ok (<[i := x]> m).
Proof. intros Hi. unfold vm_set. by rewrite (proj2 (Nat.ltb_lt _ _)). Qed.

Lemma mark_faulty_ok {E} s idx : inv s -> (idx < length (weights s))%nat ->
  exists s', mark_faulty (E:=E) s idx = Ok s' /\ faulted s idx s'.
Proof.
  intros I Hi. unfold mark_faulty. rewrite vm_set_ok by (by rewrite (wf_pan_len _ (inv_wf _ I))).
  cbn. eexists. split; [done|]. split; try done. cbn. intros i.
  destruct (faults s !! idx) eqn:Ef; [|rewrite lookup_insert_is_Some'; naive_solver].
  split; [auto|]. intros [->|?]; [by eexists|done].
Qed.

Lemma add_evidence_ok {E} s ev : inv s -> (perpetrator ev < length (weights s))%nat ->
  exists s' b, add_evidence (E:=E) s ev = Ok (s', b) /\ (s' = s \/ faulted s (perpetrator ev) s').
Proof.
  intros I Hi. unfold add_evidence. case_match; [by exists s, false; auto|].
  assert (vm_set (E:=E) (panorama s) (perpetrator ev) ObsFaulty =
    Ok (<[perpetrator ev := ObsFaulty]> (panorama s))) as Ev.
  { apply vm_set_ok. by rewrite (wf_pan_len _ (inv_wf _ I)). }
  assert (exists s' b, (pan ← vm_set (E:=E) (panorama s) (perpetrator ev) ObsFaulty;
    mret (set_faults s (<[perpetrator ev := Direct ev]> (faults s)) pan, true)) = Ok (s', b) /\
    (s' = s \/ faulted s (perpetrator ev) s')) as Hadd.
  { rewrite Ev. cbn. do 2 eexists. split; [done|]. right. split; try done. cbn. intros i.
    rewrite lookup_insert_is_Some'. naive_solver. }
  destruct (faults s !! perpetrator ev) as [[]|]; try done; by exists s, false; auto.
Qed.

(** ** Endorsements and pings *)

(** Changes that the protocol state does not depend on. *)
Record same_core s s' : Prop := {
  sc_units : units s' = units s;
  sc_blocks : blocks s' = blocks s;
  sc_static : same_static s s';
  sc_panorama : panorama s' = panorama s;
  sc_faults : faults s' = faults s;
  sc_pings : length (pings s') = length (pings s);
}.

Lemma inv_same_core s s' : inv s -> same_core s s' -> inv s'.
Proof.
  intros [WF SM St Ex Wp] [Eu Eb Ss Ep Ef El]. pose proof (ss_weights _ _ Ss) as Ew. split.
  - split; rewrite ?Eu, ?Eb, ?Ew, ?Ep, ?Ef, ?El; try apply WF.
    + intros h u E. destruct (wf_units _ WF _ _ E) as [L O En F B V Sq].
      split; rewrite ?Eu, ?Eb, ?Ew, ?Ef; try done.
      intros i h' Hh'. destruct (En i h' Hh') as (u' & ? & ? & ? & ?). exists u'.
      split_and!; [done|done|by eapply pan_le_same|done].
    + rewrite (unit_info_same s s' Eu). apply (wf_lanes _ WF).
    + assert (block_info s' = block_info s) as -> by (unfold block_info; by rewrite Eb). apply (wf_chains _ WF).
    + intros i o Ho. by apply (latest_same s s' i o Eu), (wf_latest _ WF).
  - unfold small. by rewrite Eu.
  - by eapply static_same.
  - destruct Ex as [Pp Pu Pc]. split; rewrite ?(ss_params _ _ Ss), ?Eu; done.
  - by rewrite Ew.
Qed.

Lemma add_ping_core {E} s i t : inv s -> (i < length (weights s))%nat ->
  exists s', add_ping (E:=E) s i t = Ok s' /\ same_core s s' /\
    incomplete_endorsements s' = incomplete_endorsements s.
Proof.
  intros I Hi. destruct (add_ping_ok (E:=E) s i t) as (ps & -> & Hl).
  { apply lookup_lt_is_Some_2. by rewrite (wf_pings _ (inv_wf _ I)). }
  eexists. split; [done|]. by repeat split.
Qed.

Lemma add_endorsements_core {E} s e : inv s -> endorse_ok s ->
  Forall (fun x => (x.1 < length (weights s))%nat) (endorsers e) ->
  exists s', add_endorsements (E:=E) s e = Ok s' /\ same_core s s' /\ endorse_ok s'.
Proof.
  intros I Eo He. unfold add_endorsements.
  destruct (endorsements s !! e_unit e); [by exists s|].
  set (sigs := foldl _ _ _).
  assert (forall v, is_Some (sigs !! v) -> (v < length (weights s))%nat) as Hs.
  { unfold sigs. assert (forall v, is_Some (default ∅ (incomplete_endorsements s !! e_unit e) !! v) ->
      (v < length (weights s))%nat) as H0.
    { intros v Hv. destruct (incomplete_endorsements s !! e_unit e) as [m|] eqn:Em; [by eapply Eo|].
      cbn in Hv. rewrite lookup_empty in Hv. by destruct Hv. }
    revert H0. generalize (default ∅ (incomplete_endorsements s !! e_unit e)).
    induction He as [|[v sg] l Hv _ IH]; intros m Hm; cbn; [done|]. apply IH. intros v' Hv'.
    apply lookup_insert_is_Some' in Hv' as [<-|Hv']; [done|by apply Hm]. }
  set (ks := (map_to_list sigs).*1).
  assert (forall k, k ∈ ks -> (k < length (weights s))%nat) as Hk.
  { intros k ([k' sg] & -> & Hin%elem_of_map_to_list)%list_elem_of_fmap. apply Hs. by eexists. }
  assert (NoDup ks) as Hd by apply NoDup_fst_map_to_list.
  rewrite (map_res_Ok _ (fun i => default 0 (weights s !! i))).
  2: { intros k Hin. unfold weight, vm_index. destruct (lookup_lt_is_Some_2 _ _ (Hk k Hin)) as [w Hw]. by rewrite Hw. }
  cbn [mbind res_bind]. destruct (inv_static _ I) as [Hn Hc _ _ Ht _].
  pose proof (zsum_some (weights s) ks Hn Hd Hk) as Hsum.
  rewrite Weight_sum_eq.
  2: { apply Forall_fmap, Forall_true. intros i. cbn. destruct (weights s !! i) eqn:E1; cbn; [|lia].
       rewrite Forall_forall in Hn. apply Hn. by eapply list_elem_of_lookup_2. }
  2: { unfold zsum in *. lia. }
  cbn [mbind res_bind]. unfold total_weight. rewrite Hc, running_last.
  2: { intros E1. rewrite E1 in Ht. unfold zsum in Ht. cbn in Ht. lia. }
  cbn [expect mbind res_bind]. case_match; cbn; (eexists; split; [done|]); (split; [by repeat split|]).
  - intros h m v. cbn. intros [_ Hm]%lookup_delete_Some Hv. by eapply Eo.
  - intros h m v. cbn. intros [[<- <-]|[_ Hm]]%lookup_insert_Some Hv; [by apply Hs|by eapply Eo].
Qed.

End Ops.

(** ** Setting up an era *)

Section Setup.
Context {C : ConsensusContext}.

(** A validator set for an era: nobody has weight zero, the total weight fits, and
    the index refers to the list. *)
Record validators_ok (v : Validators) : Prop := {
  vo_weights : Forall (Z.lt 0) (v_weight <$> vs v);
  vo_nonempty : vs v <> [];
  vo_total : zsum (v_weight <$> vs v) = vs_total_weight v;
  vo_fits : vs_total_weight v <= uint_max 64;
  vo_index vid idx : get_index v vid = Some idx -> v_id <$> vs v !! idx = Some vid;
}.

Lemma insert_by_id_perm x l : insert_by_id x l ≡ₚ x :: l.
Proof.
  induction l as [|y l IH]; cbn; [done|]. destruct (ord_cmp (v_id x) (v_id y)); [done|done|].
  rewrite IH. constructor.
Qed.

Lemma sort_by_id_perm l : sort_by_id l ≡ₚ l.
Proof. induction l as [|x l IH]; cbn; [done|]. by rewrite insert_by_id_perm, IH. Qed.

Lemma total_fold {E} (l : list Validator) : forall acc, 0 <= acc -> Forall (Z.lt 0) (v_weight <$> l) ->
  acc + zsum (v_weight <$> l) <= uint_max 64 ->
  fold_res (E:=E) (fun sum v => expect (Weight_checked_add sum (v_weight v))) acc l =
    Ok (acc + zsum (v_weight <$> l)).
Proof.
  unfold zsum. induction l as [|x l IH]; intros acc Ha Hp Hs; cbn [fmap list_fmap foldr fold_res] in *; [f_equal; lia|].
  inversion Hp as [|? ? Hx Hp']; subst.
  pose proof (zsum_nonneg (v_weight <$> l)) as Hnn. unfold zsum in Hnn. specialize (Hnn ltac:(eapply Forall_impl; [done|lia])).
  assert (expect (E:=E) (Weight_checked_add acc (v_weight x)) = Ok (acc + v_weight x)) as ->.
  { unfold Weight_checked_add, checked_add. by rewrite (proj2 (Z.leb_le _ _)) by lia. }
  cbn [mbind res_bind]. rewrite IH by (done || lia). f_equal. lia.
Qed.

Lemma index_fold (l : list (nat * Validator)) : forall (m : gmap ValidatorId ValidatorIndex) vid idx,
  foldl (fun m e => <[v_id e.2 := e.1]> m) m l !! vid = Some idx ->
  m !! vid = Some idx \/ exists x, (idx, x) ∈ l /\ v_id x = vid.
Proof.
  induction l as [|[i x] l IH]; intros m vid idx H; cbn in H; [by left|].
  destruct (IH _ _ _ H) as [Hm|(y & Hy & Hv)].
  - apply lookup_insert_Some in Hm as [[<- <-]|[_ Hm]]; [|by left]. right. exists x. split; [by left|done].
  - right. exists y. split; [by right|done].
Qed.

Lemma from_iter_ok {E} ii : ii <> [] -> Forall (fun e => 0 < e.2) ii -> zsum ii.*2 <= uint_max 64 ->
  exists v, Validators_from_iter (E:=E) ii = Ok v /\ validators_ok v.
Proof.
  intros Hne Hp Hs. unfold Validators_from_iter. cbv zeta.
  assert (v_weight <$> (Validator_from <$> ii) = ii.*2) as Ew.
  { rewrite <- list_fmap_compose. by apply list_fmap_ext. }
  rewrite total_fold; [|lia|rewrite Ew; by apply Forall_fmap|rewrite Ew; lia].
  cbn [mbind res_bind]. rewrite Ew, Z.add_0_l. eexists. split; [done|].
  pose proof (sort_by_id_perm (Validator_from <$> ii)) as P.
  pose proof (fmap_Permutation v_weight _ _ P) as Pw. rewrite Ew in Pw. split; cbn.
  - rewrite Pw. by apply Forall_fmap.
  - intros E1. rewrite E1 in P. apply Permutation_nil_l in P. apply Hne. symmetry in P; by apply fmap_nil_inv in P.
  - by apply zsum_perm.
  - done.
  - intros vid idx H. unfold get_index in H. cbn in H. apply index_fold in H as [H|(x & Hx & <-)].
    + by rewrite lookup_empty in H.
    + apply elem_of_enumerate in Hx. by rewrite Hx.
Qed.

(** Changing flags keeps weights and identities. *)
Definition same_but_flags (l l' : list Validator) : Prop :=
  v_weight <$> l' = v_weight <$> l /\ v_id <$> l' = v_id <$> l.

Lemma set_vs_ok v l : validators_ok v -> same_but_flags (vs v) l -> validators_ok (set_vs v l).
Proof.
  intros [Hw Hn Ht Hf Hi] [Ew Ei]. split; cbn; rewrite ?Ew; try done.
  - intros ->. apply Hn. cbn in Ew. symmetry in Ew. by apply fmap_nil_inv in Ew.
  - intros vid idx H. rewrite <- list_lookup_fmap, Ei, list_lookup_fmap. by apply Hi.
Qed.

Lemma same_flags_insert l i x f g : l !! i = Some x ->
  same_but_flags l (<[i := set_flags f g x]> l).
Proof.
  intros Hx. split; rewrite list_fmap_insert; cbn; apply list_insert_id; by rewrite list_lookup_fmap, Hx.
Qed.

Lemma same_flags_fmap l (f : Validator -> Validator) : (forall x, v_weight (f x) = v_weight x /\ v_id (f x) = v_id x) ->
  same_but_flags l (f <$> l).
Proof. intros F. split; rewrite <- list_fmap_compose; apply list_fmap_ext; intros; apply F. Qed.

Lemma ban_ok {E} v vid : validators_ok v -> exists v', ban (E:=E) v vid = Ok v' /\ validators_ok v'.
Proof.
  intros V. unfold ban. destruct (get_index v vid) as [idx|] eqn:Ei; [|by eexists].
  pose proof (vo_index _ V _ _ Ei) as Hx. destruct (vs v !! idx) as [x|] eqn:Ex; [|done]. cbn.
  eexists. split; [done|]. apply set_vs_ok; [done|]. by apply same_flags_insert.
Qed.

Lemma set_cannot_propose_ok {E} v vid : validators_ok v ->
  exists v', set_cannot_propose (E:=E) v vid = Ok v' /\ validators_ok v'.
Proof.
  intros V. unfold set_cannot_propose. destruct (get_index v vid) as [idx|] eqn:Ei; [|by eexists].
  pose proof (vo_index _ V _ _ Ei) as Hx. destruct (vs v !! idx) as [x|] eqn:Ex; [|done]. cbn.
  eexists. split; [done|]. apply set_vs_ok; [done|]. by apply same_flags_insert.
Qed.

(** Somebody may propose. *)
Definition has_proposer (v : Validators) : Prop :=
  exists i x, vs v !! i = Some x /\ v_can_propose x = true.

Lemma ensure_ok v : validators_ok v ->
  (ensure_nonzero_proposing_stake v).2 = true /\ validators_ok (ensure_nonzero_proposing_stake v).1 /\
  has_proposer (ensure_nonzero_proposing_stake v).1.
Proof.
  intros V. pose proof V as [Hw Hn Ht Hf Hi].
  assert (forall x, x ∈ vs v -> 0 < v_weight x) as Hpos.
  { intros x Hx. rewrite Forall_fmap, Forall_forall in Hw. by apply Hw. }
  destruct (vs v) as [|x0 l0] eqn:Evs; [done|].
  assert (0 < vs_total_weight v) as Htot.
  { rewrite <- Ht. pose proof (Hpos x0 ltac:(by left)).
    eapply (zsum_positive _ 0); [eapply Forall_impl; [exact Hw|lia]|done|done]. }
  assert (forall x, x ∈ vs v -> Weight_is_zero (v_weight x) = false) as Hz.
  { intros x Hx. rewrite Evs in Hx. specialize (Hpos x Hx). unfold Weight_is_zero. lia. }
  unfold ensure_nonzero_proposing_stake.
  assert (Weight_is_zero (vs_total_weight v) = false) as -> by (unfold Weight_is_zero; lia).
  destruct (forallb (fun x => v_banned x || Weight_is_zero (v_weight x)) (vs v)) eqn:Eb.
  - cbn. split_and!; [done| |].
    + apply set_vs_ok; [done|]. by apply same_flags_fmap.
    + exists 0%nat, (set_flags (fun _ => false) (fun _ => true) x0). cbn. by rewrite Evs.
  - destruct (forallb (fun x => negb (v_can_propose x) || Weight_is_zero (v_weight x)) (vs v)) eqn:Ec.
    + cbn. split_and!; [done| |].
      * apply set_vs_ok; [done|]. apply same_flags_fmap. intros x. by destruct (negb _).
      * apply not_true_iff_false in Eb. rewrite forallb_forall in Eb.
        destruct (List.existsb (fun x => negb (v_banned x)) (vs v)) eqn:Eex.
        { apply existsb_exists in Eex as (x & Hx%list_elem_of_In & Hbx).
          apply list_elem_of_lookup in Hx as [i Hx].
          exists i, (if negb (v_banned x) then set_flags (fun b => b) (fun _ => true) x else x). cbn.
          rewrite list_lookup_fmap, Hx. split; [done|]. by rewrite Hbx. }
        exfalso. apply Eb. intros x Hx. apply orb_true_iff. left.
        assert (negb (v_banned x) = false) as Hb; [|by apply negb_false_iff in Hb].
        apply not_true_is_false. intros Hb. apply not_true_iff_false in Eex. apply Eex.
        apply existsb_exists. by exists x.
    + cbn. split_and!; [done|done|]. apply not_true_iff_false in Ec. rewrite forallb_forall in Ec.
      destruct (List.existsb v_can_propose (vs v)) eqn:Eex.
      { apply existsb_exists in Eex as (x & Hx%list_elem_of_In & Hbx).
        apply list_elem_of_lookup in Hx as [i Hx]. by exists i, x. }
      exfalso. apply Ec. intros x Hx. apply orb_true_iff. left. apply negb_true_iff, not_true_is_false.
      intros Hb. apply not_true_iff_false in Eex. apply Eex. apply existsb_exists. by exists x.
Qed.

Lemma Highway_new_inv {VH : VertexHash} {VS : ValidatorSecret} {LR : LeaderRng} {BS : BinarySearch} {E}
    iid v params : validators_ok v -> has_proposer v ->
  0 <= min_round_exp params -> max_round_exp params < 64 ->
  exists hw, Highway_new (E:=E) iid v params = Ok hw /\ inv (state hw) /\ validators hw = v /\
    active_validator hw = None /\ length (vs v) = length (weights (state hw)) /\ endorse_ok (state hw).
Proof.
  intros [Hw Hn Ht Hf Hi] (i0 & x0 & Hx0 & Hp0) Hmin Hmax. unfold Highway_new.
  destruct (State_new_ok (E:=E) (v_weight <$> vs v) params (iter_banned_idx v) (iter_cannot_propose_idx v))
    as (s & Es & WF & St & Ew & Eu & Ep & _ & _).
  - eapply Forall_impl; [exact Hw|lia].
  - by rewrite Ht.
  - apply Forall_forall. intros i (e & -> & He)%list_elem_of_fmap. apply list_elem_of_In, filter_In in He as [He _].
    destruct e as [i x]. apply list_elem_of_In, elem_of_enumerate in He. rewrite length_fmap. by eapply lookup_lt_Some.
  - apply Forall_forall. intros i (e & -> & He)%list_elem_of_fmap. apply list_elem_of_In, filter_In in He as [He _].
    destruct e as [i x]. apply list_elem_of_In, elem_of_enumerate in He. rewrite length_fmap. by eapply lookup_lt_Some.
  - exists i0, (v_weight x0). rewrite list_lookup_fmap, Hx0. split_and!; [done| |].
    + rewrite Forall_fmap, Forall_forall in Hw. apply Hw. by eapply list_elem_of_lookup_2.
    + intros (e & Ei & He)%list_elem_of_fmap. apply list_elem_of_In, filter_In in He as [He Hc].
      destruct e as [i x]. cbn in *. subst i0. apply list_elem_of_In, elem_of_enumerate in He.
      assert (x = x0) as -> by congruence. by rewrite Hp0 in Hc.
  - rewrite Es. cbn. eexists. split; [done|]. cbn. split_and!; [|done|done| |].
    + split; [done| |done| |by rewrite Ew].
      * unfold small. rewrite Eu, map_size_empty. done.
      * split; rewrite ?Ep, ?Eu; [done| |]; intros; by rewrite lookup_empty in *.
    + by rewrite Ew, length_fmap.
    + unfold State_new in Es. repeat (apply bind_Ok in Es as (? & _ & Es)). injection Es as <-.
      intros h m vi Hm. cbn in Hm. by rewrite lookup_empty in Hm.
Qed.

End Setup.

(** ** The observer *)

Section Observer.
Context {C : ConsensusContext} {VH : VertexHash} {VS : ValidatorSecret} {LR : LeaderRng} {BS : BinarySearch}.

(** A vertex as it comes out of deserialization: numbers have their width. *)
Definition vertex_ok (v : Vertex) : Prop :=
  match v with VUnit sw => wire_ok (wire_unit_of sw) | _ => True end.

(** In evidence about endorsements, panoramas have an entry for the unit's creator. *)
Definition windows_ok (v : Vertex) : Prop :=
  match v with
  | VEvidence (ConflictingEndorsements _ _ _ unit2 swimlane2) =>
      Forall (fun u => (w_creator (wire_unit_of u) < length (w_panorama (wire_unit_of u)))%nat)
        (unit2 :: swimlane2)
  | _ => True
  end.

(** There is room for another unit: fewer than 2^64 - 2 are stored. *)
Definition room (hw : Highway) : Prop := Z.of_nat (S (size (units (state hw)))) < uint_max 64.

(** A vertex is added once its dependencies are, and it was found to be valid; other
    components may report faulty validators. *)
Inductive step (hw : Highway) : Highway -> Prop :=
| step_vertex v now hw' effects :
    vertex_ok v -> room hw ->
    do_pre_validate_vertex hw v = Ok tt -> missing_dependency hw v = None ->
    do_validate_vertex hw v = Ok tt ->
    add_valid_vertex (E:=VertexError) 1 hw v now = Ok (hw', effects) -> step hw hw'
| step_mark vid hw' : hw_mark_faulty (E:=VertexError) hw vid = Ok hw' -> step hw hw'.

Inductive reachable : Highway -> Prop :=
| reach_new iid v params hw :
    validators_ok v -> has_proposer v -> 0 <= min_round_exp params -> max_round_exp params < 64 ->
    Highway_new (E:=VertexError) iid v params = Ok hw -> reachable hw
| reach_step hw hw' : reachable hw -> step hw hw' -> reachable hw'.

Record node_ok (hw : Highway) : Prop := {
  no_inv : inv (state hw);
  no_len : length (vs (validators hw)) = length (weights (state hw));
  no_index vid idx : get_index (validators hw) vid = Some idx -> (idx < length (weights (state hw)))%nat;
  no_endorse : endorse_ok (state hw);
  no_observer : active_validator hw = None;
}.

Lemma node_ok_state hw s : node_ok hw -> inv s -> weights s = weights (state hw) -> endorse_ok s ->
  node_ok (set_state hw s).
Proof. intros [I L X Eo Ob] I' Ew Eo'. split; cbn; rewrite ?Ew; done. Qed.

Lemma validator_id_lt hw idx v : node_ok hw -> validator_id (validators hw) idx = Some v ->
  (idx < length (weights (state hw)))%nat.
Proof.
  intros N Hv. rewrite <- (no_len _ N). unfold validator_id in Hv.
  destruct (vs (validators hw) !! idx) eqn:Ex; [|done]. by eapply lookup_lt_Some.
Qed.

(** *** Validation *)

Lemma check_windows_total {E} l : forall u,
  Forall (fun u => (w_creator (wire_unit_of u) < length (w_panorama (wire_unit_of u)))%nat) (u :: l) ->
  exists b, check_windows (E:=E) u l = Ok b.
Proof.
  induction l as [|p l IH]; intros u Hf; cbn; [by eexists|]. inversion Hf as [|? ? Hu Hf']; subst.
  unfold WireUnit_previous, vm_index. destruct (lookup_lt_is_Some_2 _ _ Hu) as [o ->]. cbn.
  case_bool_decide; [by apply IH|by eexists].
Qed.

Lemma validate_equivocation_safe u1 u2 iid v : safe (validate_equivocation u1 u2 iid v).
Proof.
  unfold validate_equivocation. cbv zeta. apply safe_bind; [by destruct (validator_id _ _)|]. intros a _.
  repeat (apply safe_bind; [apply safe_fail_if|]; intros [] _). apply safe_fail_if.
Qed.

Lemma map_err_safe {E E' A} (f : E -> E') (m : res E A) : safe m -> safe (map_err f m).
Proof. by destruct m. Qed.

Lemma pre_validate_vertex_safe hw v : node_ok hw -> windows_ok v -> safe (do_pre_validate_vertex hw v).
Proof.
  intros N Wv. destruct v as [sw|ev|e|ping]; cbn [do_pre_validate_vertex]; apply map_err_safe.
  - apply safe_bind; [by destruct (validator_id _ _)|]. intros a _.
    do 2 (apply safe_bind; [apply safe_fail_if|]; intros [] _). by apply pre_validate_safe; apply (no_inv _ N).
  - destruct ev as [u1 u2|e1 u1 e2 u2 lane]; cbn [Evidence_validate]; [apply validate_equivocation_safe|].
    apply safe_bind; [apply safe_fail_if|]. intros [] _.
    apply safe_bind; [by destruct (validator_id _ _)|]. intros a _.
    do 2 (apply safe_bind; [apply safe_fail_if|]; intros [] _).
    destruct (check_windows_total (E:=EvidenceError) lane u2 Wv) as [b ->]. cbn [mbind res_bind].
    apply safe_bind; [apply safe_fail_if|]. intros [] _.
    apply safe_bind; [apply validate_equivocation_safe|]. intros [] _. apply safe_fail_if.
  - apply safe_bind; [apply safe_fail_if|]. intros [] _.
    induction (endorsers e) as [|[c sg] l IH]; cbn [check_endorsers]; [done|].
    apply safe_bind; [by destruct (validator_id _ _)|]. intros a _.
    do 2 (apply safe_bind; [apply safe_fail_if|]; intros [] _). apply IH.
  - unfold Ping_validate. apply safe_bind; [apply safe_fail_if|]. intros [] _.
    apply safe_bind; [by destruct (validator_id _ _)|]. intros a _. apply safe_fail_if.
Qed.

Lemma missing_unit hw sw : missing_dependency hw (VUnit sw) = None ->
  pan_missing_dependency (state hw) (w_panorama (wire_unit_of sw)) = None.
Proof. cbn. by destruct (pan_missing_dependency _ _). Qed.

Lemma pre_validated_unit hw sw : do_pre_validate_vertex hw (VUnit sw) = Ok tt ->
  pre_validate_unit (state hw) sw = Ok tt.
Proof.
  unfold do_pre_validate_vertex. intros H%map_err_Ok. apply bind_Ok in H as (? & _ & H).
  apply bind_Ok in H as ([] & _ & H). by apply bind_Ok in H as ([] & _ & H).
Qed.

Lemma validate_vertex_safe hw v : node_ok hw -> vertex_ok v -> do_pre_validate_vertex hw v = Ok tt ->
  missing_dependency hw v = None -> safe (do_validate_vertex hw v).
Proof.
  intros N Wv Pre Dep. destruct v as [sw| | |]; [|done..]. cbn [do_validate_vertex]. apply map_err_safe.
  apply validate_unit_safe; [apply (no_inv _ N)|done|by apply pre_validated_unit|by apply missing_unit].
Qed.

(** *** Adding *)

Lemma perpetrator_lt hw ev : node_ok hw ->
  Evidence_validate ev (validators hw) (instance_id hw) (params (state hw)) = Ok tt ->
  (perpetrator ev < length (weights (state hw)))%nat.
Proof.
  intros N H. destruct ev as [u1 u2|e1 u1 e2 u2 lane]; cbn [perpetrator Evidence_validate] in *.
  - unfold validate_equivocation in H. apply bind_Ok in H as (v & Hv%ok_or_Ok & _). by eapply validator_id_lt.
  - apply bind_Ok in H as ([] & _ & H). apply bind_Ok in H as (v & Hv%ok_or_Ok & _). by eapply validator_id_lt.
Qed.

Lemma endorsers_lt hw h l : node_ok hw -> check_endorsers hw h l = Ok tt ->
  Forall (fun x => (x.1 < length (weights (state hw)))%nat) l.
Proof.
  intros N. induction l as [|[c sg] l IH]; cbn [check_endorsers]; intros H; [constructor|].
  apply bind_Ok in H as (v & Hv%ok_or_Ok & H). apply bind_Ok in H as ([] & _ & H).
  apply bind_Ok in H as ([] & _ & H). constructor; [by eapply validator_id_lt|by apply IH].
Qed.

(** Without an active validator, nothing reacts to new evidence or units. *)
Lemma observer_evidence {E} hw ev : active_validator hw = None ->
  hw_on_new_evidence (E:=E) hw ev = Ok (set_state hw (state hw), [NewVertex (VEvidence ev)]).
Proof. intros Ob. unfold hw_on_new_evidence. by rewrite Ob. Qed.

Lemma observer_unit {E} (add : Highway -> Vertex -> Z -> res E (Highway * list Effect)) hw sw now s' :
  active_validator hw = None -> add_valid_unit (E:=E) (state hw) sw = Ok s' ->
  exists effects, hw_add_valid_unit add hw sw now = Ok (set_state hw s', effects).
Proof.
  intros Ob Es. unfold hw_add_valid_unit. cbv zeta. rewrite Es. cbn [mbind res_bind].
  assert (exists eff, match maybe_evidence (state (set_state hw s')) (w_creator (wire_unit_of sw)) with
    | Some ev => if negb (is_faulty (state hw) (w_creator (wire_unit_of sw)))
                 then hw_on_new_evidence (E:=E) (set_state hw s') ev else Ok (set_state hw s', [])
    | None => Ok (set_state hw s', [])
    end = Ok (set_state hw s', eff)) as [eff ->].
  { destruct (maybe_evidence _ _); [|by eexists]. destruct (negb _); [|by eexists].
    rewrite observer_evidence by done. by eexists. }
  cbn [mbind res_bind]. unfold hw_on_new_unit, add_own_last_unit, map_active_validator. cbn. rewrite Ob.
  cbn. rewrite Ob. by eexists.
Qed.

Lemma add_valid_unit_frame {E} s sw s' : add_valid_unit (E:=E) s sw = Ok s' ->
  weights s' = weights s /\ incomplete_endorsements s' = incomplete_endorsements s /\ endorsements s' = endorsements s.
Proof.
  unfold add_valid_unit. cbv zeta. destruct (has_unit s (hash_of sw)); [by intros [= <-]|]. intros H.
  apply bind_Ok in H as (fc & _ & H). apply bind_Ok in H as ([u mv] & _ & H). apply bind_Ok in H as (s1 & H1 & H).
  apply bind_Ok in H as (s2 & H2 & H).
  assert (weights s1 = weights s /\ incomplete_endorsements s1 = incomplete_endorsements s /\
    endorsements s1 = endorsements s) as (<- & <- & <-).
  { destruct mv; [|by injection H1 as <-]. apply bind_Ok in H1 as (b & _ & H1). by injection H1 as <-. }
  unfold add_ping in H2. apply bind_Ok in H2 as (t & _ & H2). apply bind_Ok in H2 as (ps & _ & H2).
  injection H2 as <-. unfold update_panorama in H. apply bind_Ok in H as (u' & _ & H).
  apply bind_Ok in H as (o0 & _ & H). apply bind_Ok in H as (o1 & _ & H).
  apply bind_Ok in H as ([s3 o] & H3 & H). unfold set_observation in H. apply bind_Ok in H as (p & _ & H).
  injection H as <-. cbn [weights incomplete_endorsements endorsements set_faults].
  case_bool_decide; [by injection H3 as <- _|]. case_bool_decide; [by injection H3 as <- _|].
  destruct o0; [done| |done]. apply bind_Ok in H3 as (f & _ & H3). apply bind_Ok in H3 as (h0 & _ & H3).
  apply bind_Ok in H3 as (w0 & _ & H3). apply bind_Ok in H3 as (w1 & _ & H3).
  apply bind_Ok in H3 as ([s4 b] & H4 & H3). injection H3 as <- _. unfold add_evidence in H4.
  case_match; [by injection H4 as <- _|].
  assert (forall f, (pan ← vm_set (E:=E) (panorama (set_units (set_pings s1 ps) (<[hash_of sw:=u]> (units (set_pings s1 ps)))))
      (perpetrator (Equivocation w0 w1)) ObsFaulty;
    mret (set_faults (set_units (set_pings s1 ps) (<[hash_of sw:=u]> (units (set_pings s1 ps)))) f pan, true)) =
    Ok (s4, b) -> weights s4 = weights s1 /\ incomplete_endorsements s4 = incomplete_endorsements s1 /\
    endorsements s4 = endorsements s1) as K.
  { intros fs Hk. apply bind_Ok in Hk as (pn & _ & Hk). by injection Hk as <- _. }
  destruct (faults _ !! _) as [[]|]; [by injection H4 as <- _|by injection H4 as <- _|by apply K in H4..].
Qed.

Lemma add_valid_vertex_ok {E} hw v now : node_ok hw -> vertex_ok v -> room hw ->
  do_pre_validate_vertex hw v = Ok tt -> missing_dependency hw v = None -> do_validate_vertex hw v = Ok tt ->
  exists hw' effects, add_valid_vertex (E:=E) 1 hw v now = Ok (hw', effects) /\ node_ok hw'.
Proof.
  intros N Wv Rm Pre Dep Val. pose proof (no_inv _ N) as I. pose proof (no_observer _ N) as Ob.
  cbn [add_valid_vertex]. destruct (has_vertex hw v); [by exists hw, []|]. destruct v as [sw|ev|e|ping].
  - apply map_err_Ok in Val.
    destruct (inv_add (state hw) I sw Wv (pre_validated_unit hw sw Pre) (missing_unit hw sw Dep) (E:=E) Val Rm)
      as (s' & Es' & I').
    destruct (observer_unit (E:=E) (fun _ _ _ => OutOfFuel) hw sw now s' Ob Es') as (eff & Heff).
    exists (set_state hw s'), eff. split; [exact Heff|].
    destruct (add_valid_unit_frame (state hw) sw s' Es') as (Ew & Ei & _).
    apply node_ok_state; [done|done|done|]. intros h m x. rewrite Ei, Ew. apply (no_endorse _ N).
  - unfold do_pre_validate_vertex in Pre. apply map_err_Ok in Pre. pose proof (perpetrator_lt hw ev N Pre) as Hp.
    destruct (add_evidence_ok (E:=E) (state hw) ev I Hp) as (s' & b & Es' & Hs'). unfold hw_add_evidence.
    rewrite Es'. cbn [mbind res_bind].
    assert (node_ok (set_state hw s')) as N'.
    { destruct Hs' as [->|F]; [apply node_ok_state; try done; apply (no_endorse _ N)|].
      apply node_ok_state; [done|by eapply inv_faulted|apply F|].
      intros h m x. rewrite (fd_incomplete _ _ _ F), (ss_weights _ _ (fd_static _ _ _ F)). apply (no_endorse _ N). }
    destruct b; [rewrite observer_evidence by done|]; by do 2 eexists.
  - unfold do_pre_validate_vertex in Pre. apply map_err_Ok in Pre. apply bind_Ok in Pre as ([] & _ & Pre).
    destruct (add_endorsements_core (E:=E) (state hw) e I (no_endorse _ N) (endorsers_lt hw _ _ N Pre))
      as (s' & Es' & Sc & Eo'). unfold hw_add_endorsements. rewrite Es'. cbn. do 2 eexists. split; [done|].
    apply node_ok_state; [done|by eapply inv_same_core|apply Sc|done].
  - unfold do_pre_validate_vertex in Pre. apply map_err_Ok in Pre. unfold Ping_validate in Pre. apply bind_Ok in Pre as ([] & _ & Pre).
    apply bind_Ok in Pre as (v & Hv%ok_or_Ok & _). pose proof (validator_id_lt hw _ v N Hv) as Hlt.
    destruct (add_ping_core (E:=E) (state hw) (p_creator ping) (p_timestamp ping) I Hlt) as (s' & Es' & Sc & Ei).
    unfold hw_add_ping. rewrite Es'. cbn. do 2 eexists. split; [done|].
    apply node_ok_state; [done|by eapply inv_same_core|apply Sc|].
    intros h m x. rewrite Ei, (ss_weights _ _ (sc_static _ _ Sc)). apply (no_endorse _ N).
Qed.

Lemma reachable_ok hw : reachable hw -> node_ok hw.
Proof.
  induction 1 as [iid v ps hw V P Hmin Hmax Hn|hw hw' _ N St].
  - destruct (Highway_new_inv (E:=VertexError) iid v ps V P Hmin Hmax) as (hw' & Hn' & I & Ev & Ob & Hl & Eo).
    rewrite Hn in Hn'. injection Hn' as <-. split; rewrite ?Ev; try done.
    intros vid idx Hi. rewrite <- Hl. apply (vo_index _ V) in Hi.
    destruct (vs v !! idx) eqn:Ex; [|done]. by eapply lookup_lt_Some.
  - destruct St as [v now hw' eff Wv Rm Pre Dep Val Add|vid hw' Hm].
    + destruct (add_valid_vertex_ok (E:=VertexError) hw v now N Wv Rm Pre Dep Val) as (hw2 & eff2 & E2 & N2).
      rewrite Add in E2. by injection E2 as <- _.
    + unfold hw_mark_faulty in Hm. destruct (get_index (validators hw) vid) as [idx|] eqn:Ei; [|by injection Hm as <-].
      destruct (mark_faulty_ok (E:=VertexError) (state hw) idx (no_inv _ N) (no_index _ N _ _ Ei)) as (s' & Es' & F).
      rewrite Es' in Hm. injection Hm as <-. apply node_ok_state; [done| |apply F|].
      * eapply inv_faulted; [apply (no_inv _ N)|by eapply (no_index _ N)|done].
      * intros h m x. rewrite (fd_incomplete _ _ _ F), (ss_weights _ _ (fd_static _ _ _ F)). apply (no_endorse _ N).
Qed.

End Observer.

(** C3 No vertex from the network can make an observer panic.  In every state that a
    [Highway] instance without an active validator can reach by adding vertices and
    being told of faulty validators, each vertex with numbers of the right width
    passes the first checks or is refused with an error, except for evidence about
    endorsements whose panoramas lack their creator; once its dependencies are
    there, validation accepts or refuses it; and if it is accepted, it can be added,
    which leads to another such state. *)
Theorem observer_never_panics {C : ConsensusContext} {VH : VertexHash} {VS : ValidatorSecret}
    {LR : LeaderRng} {BS : BinarySearch} (hw : Highway) (v : Vertex) (now : Z) :
  reachable hw -> vertex_ok v -> room hw ->
  (windows_ok v -> safe (do_pre_validate_vertex hw v)) /\
  (do_pre_validate_vertex hw v = Ok tt -> missing_dependency hw v = None ->
     safe (do_validate_vertex hw v) /\
     (do_validate_vertex hw v = Ok tt ->
        exists hw' effects, add_valid_vertex (E:=VertexError) 1 hw v now = Ok (hw', effects) /\ reachable hw')).
Proof.
  intros R Wv Rm. pose proof (reachable_ok hw R) as N. split; [by apply pre_validate_vertex_safe|].
  intros Pre Dep. split; [by apply validate_vertex_safe|]. intros Val.
  destruct (add_valid_vertex_ok (E:=VertexError) hw v now N Wv Rm Pre Dep Val) as (hw' & eff & Add & _).
  exists hw', eff. split; [done|]. eapply reach_step; [done|]. by eapply step_vertex.
Qed.

(** An era always starts with a possible leader.  From any list of validators with
    positive weights whose sum fits, after any number of validators were banned or
    excluded from proposing, [ensure_nonzero_proposing_stake] succeeds and the
    [Highway] instance created from the result is in a good initial state.  It does
    not ban or exclude everybody. *)
Theorem era_start_ok {C : ConsensusContext} {VH : VertexHash} {VS : ValidatorSecret} {LR : LeaderRng}
    {BS : BinarySearch} {E} ii (banned excluded : list ValidatorId) iid params :
  ii <> [] -> Forall (fun e => 0 < e.2) ii -> zsum ii.*2 <= uint_max 64 ->
  0 <= min_round_exp params -> max_round_exp params < 64 ->
  exists v v' hw,
    (v ← Validators_from_iter (E:=E) ii; v ← fold_res ban v banned; fold_res set_cannot_propose v excluded) = Ok v /\
    ensure_nonzero_proposing_stake v = (v', true) /\ has_proposer v' /\
    Highway_new (E:=E) iid v' params = Ok hw /\ inv (state hw).
Proof.
  intros Hne Hp Hs Hmin Hmax. destruct (from_iter_ok (E:=E) ii Hne Hp Hs) as (v0 & -> & V0).
  cbn [mbind res_bind].
  assert (exists v, fold_res (E:=E) ban v0 banned = Ok v /\ validators_ok v) as (v1 & -> & V1).
  { revert v0 V0. induction banned as [|b l IH]; intros v0 V0; cbn [fold_res]; [by eexists|].
    destruct (ban_ok (E:=E) v0 b V0) as (v & -> & V). by apply IH. }
  cbn [mbind res_bind].
  assert (exists v, fold_res (E:=E) set_cannot_propose v1 excluded = Ok v /\ validators_ok v) as (v2 & -> & V2).
  { revert v1 V1. induction excluded as [|b l IH]; intros v1 V1; cbn [fold_res]; [by eexists|].
    destruct (set_cannot_propose_ok (E:=E) v1 b V1) as (v & -> & V). by apply IH. }
  destruct (ensure_ok v2 V2) as (Hb & V' & P'). destruct (ensure_nonzero_proposing_stake v2) as [v' b] eqn:Ee.
  cbn in Hb, V', P'. subst b. destruct (Highway_new_inv (E:=E) iid v' params V' P' Hmin Hmax) as (hw & Hn & I & _).
  by exists v2, v', hw.
Qed.
