(* ===== verification/HighwayEvidence.v ===== *)
(** * Accountability

    Everything a node stores and serves to others can be checked by them: units and
    endorsements are signed by the validators they are attributed to, and nobody is
    accused without valid evidence. *)

From S2P Require Import Prelude Highway HighwaySkip HighwayInv HighwayTally HighwayFork HighwayAdd HighwayLeader HighwayValidate HighwayMerge HighwayVertex HighwayActive HighwayOwn HighwayNode HighwayRun.

Local Open Scope Z_scope.

Section Evidence.
Context {C : ConsensusContext} {VH : VertexHash} {VS : ValidatorSecret} {LR : LeaderRng} {BS : BinarySearch}.
Implicit Types (hw : Highway) (s : State) (h : Hash) (u : Unit) (y : ValidatorIndex).

(** [sig] is the signature of [y], who is not banned, on [h]. *)
Definition signed hw h y (sig : Signature) : Prop :=
  exists v, validator_id (validators hw) y = Some v /\ y ∉ iter_banned_idx (validators hw) /\ verify_signature h v sig = true.

Record accountable hw : Prop := {
  ac_units h u : units (state hw) !! h = Some u -> signed hw h (creator u) (u_signature u) /\
    (blocks (state hw) !! h = None -> has_correct (u_panorama u) = true);
  ac_banned y : faults (state hw) !! y = Some Banned <-> y ∈ iter_banned_idx (validators hw);
  ac_faults y ev : faults (state hw) !! y = Some (Direct ev) -> perpetrator ev = y /\
    Evidence_validate ev (validators hw) (instance_id hw) (params (state hw)) = Ok tt;
  ac_endorsed h m : endorsements (state hw) !! h = Some m -> iter_some m <> [] /\
    forall y sig, (y, sig) ∈ iter_some m -> signed hw (hash_endorsement h y) y sig;
  ac_incomplete h m : incomplete_endorsements (state hw) !! h = Some m ->
    forall y sig, m !! y = Some sig -> signed hw (hash_endorsement h y) y sig;
}.

(** ** Units *)

Lemma not_banned hw y : accountable hw ->
  match faults (state hw) !! y with Some Banned => true | _ => false end = false -> y ∉ iter_banned_idx (validators hw).
Proof. intros A Hf Hy. by rewrite (proj2 (ac_banned _ A y) Hy) in Hf. Qed.

Lemma validate_equivocation_ok (u1 u2 : SignedWireUnit) iid v x : validator_id v (w_creator (wire_unit_of u1)) = Some x ->
  w_creator (wire_unit_of u1) = w_creator (wire_unit_of u2) -> w_seq_number (wire_unit_of u1) = w_seq_number (wire_unit_of u2) ->
  w_instance_id (wire_unit_of u1) = iid -> w_instance_id (wire_unit_of u2) = iid -> u1 <> u2 ->
  verify_signature (hash_of u1) x (signature u1) = true -> verify_signature (hash_of u2) x (signature u2) = true ->
  validate_equivocation u1 u2 iid v = Ok tt.
Proof.
  intros Hx Hc Hs H1 H2 Hne V1 V2. unfold validate_equivocation. cbv zeta. rewrite Hx. cbn [ok_or mbind res_bind].
  rewrite Hc, Nat.eqb_refl, Hs, Z.eqb_refl, (bool_decide_eq_true_2 _ H1), (bool_decide_eq_true_2 _ H2). cbn [negb orb fail_if mbind res_bind].
  rewrite bool_decide_eq_false_2 by done. cbn [fail_if mbind res_bind]. by rewrite V1, V2.
Qed.

Lemma pre_validated_signed hw sw : accountable hw -> do_pre_validate_vertex hw (VUnit sw) = Ok tt ->
  w_instance_id (wire_unit_of sw) = instance_id hw /\ signed hw (hash_of sw) (w_creator (wire_unit_of sw)) (signature sw) /\
  (w_value (wire_unit_of sw) = None -> has_correct (w_panorama (wire_unit_of sw)) = true).
Proof.
  intros A H. unfold do_pre_validate_vertex in H. apply map_err_Ok in H. apply bind_Ok in H as (v & Hv%ok_or_Ok & H).
  apply bind_Ok in H as ([] & Hi%fail_if_Ok & H). apply bind_Ok in H as ([] & Hs%fail_if_Ok & H).
  apply negb_false_iff in Hi, Hs. apply bool_decide_eq_true in Hi.
  unfold pre_validate_unit in H. cbv zeta in H. apply bind_Ok in H as ([] & _ & H).
  apply bind_Ok in H as ([] & Hb%fail_if_Ok & H). do 2 apply bind_Ok in H as ([] & _ & H).
  apply bind_Ok in H as ([] & Hm%fail_if_Ok & _). split_and!; [done|exists v|].
  - split_and!; [done|by eapply not_banned|done].
  - intros Hv0. rewrite Hv0 in Hm. by apply negb_false_iff.
Qed.

Lemma accountable_unit hw sw s' : node_ok hw -> accountable hw -> wire_ok (wire_unit_of sw) -> room hw ->
  do_pre_validate_vertex hw (VUnit sw) = Ok tt -> missing_dependency hw (VUnit sw) = None ->
  do_validate_vertex hw (VUnit sw) = Ok tt -> add_valid_unit (E:=VertexError) (state hw) sw = Ok s' ->
  accountable (set_state hw s').
Proof.
  intros N A Wv Rm Pre Dep Val Es. pose proof (no_inv _ N) as I. apply map_err_Ok in Val.
  destruct (pre_validated_signed hw sw A Pre) as (Hi & Hsig & Hcor).
  destruct (has_unit (state hw) (hash_of sw)) eqn:Hh.
  { unfold add_valid_unit in Es. rewrite Hh in Es. injection Es as <-. by destruct A; split. }
  pose proof (validated _ (inv_wf _ I) (inv_small _ I) (inv_weights_ok _ I) sw (pre_validated_unit hw sw Pre) (missing_unit hw sw Dep) Val) as AC.
  destruct (add_valid_unit_new _ (inv_wf _ I) (inv_small _ I) (inv_weights_ok _ I) sw AC Hh Rm (E:=VertexError))
    as (u & ob & s2 & Es2 & F & Ad & D & St & Nf & Wu & _).
  rewrite Es in Es2. injection Es2 as <-. destruct (add_valid_unit_frame _ _ _ Es) as (_ & Ei & Ee).
  pose proof (fw_creator _ _ F) as Fc. pose proof (fw_signature _ _ F) as Fs.
  assert (signed hw (hash_of sw) (creator u) (u_signature u)) as Hsu by (by rewrite Fc, Fs).
  split; cbn [state set_state validators instance_id]; rewrite ?Ei, ?Ee, ?(ss_params _ _ St).
  - intros h0 u0 E0. rewrite (ad_units _ _ _ _ _ D) in E0. apply lookup_insert_Some in E0 as [[<- <-]|[Hne E0]].
    + split; [done|]. intros Hb. rewrite (fw_panorama _ _ F). apply Hcor.
      unfold wire_unit, maybe_unit, maybe_block in Wu. rewrite (ad_units _ _ _ _ _ D), lookup_insert_eq in Wu. injection Wu as <-. cbn. by rewrite Hb.
    + destruct (ac_units _ A h0 u0 E0) as [H1 H2]. split; [done|]. intros Hb. apply H2.
      rewrite (ad_blocks _ _ _ _ _ D) in Hb. destruct ob; [|done]. by apply lookup_insert_None in Hb as [? _].
  - intros y. destruct Nf as [->|(Hn & h0 & u0 & w0 & w1 & _ & _ & _ & _ & _ & _ & ->)]; [apply (ac_banned _ A)|].
    rewrite <- (ac_banned _ A). destruct (decide (y = creator u)) as [->|Hy].
    + rewrite lookup_insert_eq, Hn. done.
    + by rewrite lookup_insert_ne.
  - intros y ev. destruct Nf as [->|(Hn & h0 & u0 & w0 & w1 & E0 & Ec & Eq & Hne & Hw0 & Hw1 & ->)]; [apply (ac_faults _ A)|].
    intros [[<- [= <-]]|[_ Hf]]%lookup_insert_Some; [|by apply (ac_faults _ A)].
    rewrite Wu in Hw1. injection Hw1 as <-. destruct (ac_units _ A h0 u0 E0) as [(v & Hv & _ & Hv0) _].
    destruct Hsu as (v1 & Hv1 & _ & Hs1). rewrite Ec, Hv1 in Hv. injection Hv as <-.
    unfold wire_unit, maybe_unit in Hw0. rewrite (ad_units _ _ _ _ _ D), lookup_insert_ne, E0 in Hw0 by done. injection Hw0 as <-.
    cbn [perpetrator Evidence_validate]. cbn. split; [done|].
    apply (validate_equivocation_ok _ _ _ _ v1); cbn; try done; [by rewrite Ec|by rewrite Ec|by rewrite Eq, (fw_seq _ _ F)| |by rewrite <- Fs].
    intros Heq. apply Hne. by apply (f_equal hash_of) in Heq.
  - apply (ac_endorsed _ A).
  - apply (ac_incomplete _ A).
Qed.

(** ** Evidence, endorsements and pings *)

(** Only the faults change, and banned validators stay banned. *)
Lemma accountable_faults hw fs pan : accountable hw ->
  (forall y, fs !! y = faults (state hw) !! y \/ faults (state hw) !! y <> Some Banned /\ (fs !! y = Some Indirect \/
     exists ev, fs !! y = Some (Direct ev) /\ perpetrator ev = y /\
       Evidence_validate ev (validators hw) (instance_id hw) (params (state hw)) = Ok tt)) ->
  accountable (set_state hw (set_faults (state hw) fs pan)).
Proof.
  intros A F. split; cbn; [apply (ac_units _ A)| | |apply (ac_endorsed _ A)|apply (ac_incomplete _ A)].
  - intros y. rewrite <- (ac_banned _ A). destruct (F y) as [->|(Hn & [->|(ev & -> & _)])]; done.
  - intros y ev Hy. destruct (F y) as [E|(Hn & [E|(ev' & E & Hp & Hv)])]; rewrite E in Hy;
      [by apply (ac_faults _ A)|done|by injection Hy as <-].
Qed.

Lemma accountable_same hw s' : accountable hw -> units s' = units (state hw) -> blocks s' = blocks (state hw) ->
  faults s' = faults (state hw) -> params s' = params (state hw) -> endorsements s' = endorsements (state hw) ->
  incomplete_endorsements s' = incomplete_endorsements (state hw) -> accountable (set_state hw s').
Proof. intros [] Eu Eb Ef Ep Ee Ei. by split; cbn; rewrite ?Eu, ?Eb, ?Ef, ?Ep, ?Ee, ?Ei. Qed.

Lemma accountable_mark hw y s' : accountable hw -> mark_faulty (E:=VertexError) (state hw) y = Ok s' ->
  accountable (set_state hw s').
Proof.
  intros A H. unfold mark_faulty in H. apply bind_Ok in H as (pan & _ & H). injection H as <-.
  apply accountable_faults; [done|]. intros z. destruct (faults (state hw) !! y) eqn:Ef; [by left|].
  destruct (decide (z = y)) as [->|Hz]; [right|left; by rewrite lookup_insert_ne].
  rewrite Ef, lookup_insert_eq. auto.
Qed.

Lemma accountable_evidence hw ev s' b : accountable hw -> do_pre_validate_vertex hw (VEvidence ev) = Ok tt ->
  add_evidence (E:=VertexError) (state hw) ev = Ok (s', b) -> accountable (set_state hw s').
Proof.
  intros A Pre H. unfold do_pre_validate_vertex in Pre. apply map_err_Ok in Pre. unfold add_evidence in H.
  assert (accountable (set_state hw (state hw))) as A0 by (by apply accountable_same).
  case_match; [by injection H as <- _|]. cbv zeta in H.
  assert (forall pan, faults (state hw) !! perpetrator ev <> Some Banned ->
    accountable (set_state hw (set_faults (state hw) (<[perpetrator ev := Direct ev]> (faults (state hw))) pan))) as K.
  { intros pan Hn. apply accountable_faults; [done|]. intros z. destruct (decide (z = perpetrator ev)) as [->|Hz].
    - right. split; [done|]. right. exists ev. by rewrite lookup_insert_eq.
    - left. by rewrite lookup_insert_ne. }
  destruct (faults (state hw) !! perpetrator ev) as [[]|]; try (by injection H as <- _);
    (apply bind_Ok in H as (pan & _ & H); injection H as <- _; by apply K).
Qed.

Lemma checked_signed hw h l : accountable hw -> check_endorsers hw h l = Ok tt ->
  forall y sig, (y, sig) ∈ l -> signed hw (hash_endorsement h y) y sig.
Proof.
  intros A. induction l as [|[c sg] l IH]; cbn [check_endorsers]; intros H y sig Hy; [by apply elem_of_nil in Hy|].
  apply bind_Ok in H as (v & Hv%ok_or_Ok & H). apply bind_Ok in H as ([] & Hb%fail_if_Ok & H).
  apply bind_Ok in H as ([] & Hs%fail_if_Ok & H). apply negb_false_iff in Hs.
  apply elem_of_cons in Hy as [[= -> ->]|Hy]; [|by apply IH]. exists v. split_and!; [done|by eapply not_banned|done].
Qed.

Lemma signed_checked hw h l : accountable hw -> (forall y sig, (y, sig) ∈ l -> signed hw (hash_endorsement h y) y sig) ->
  check_endorsers hw h l = Ok tt.
Proof.
  intros A. induction l as [|[c sg] l IH]; cbn [check_endorsers]; intros H; [done|].
  destruct (H c sg ltac:(left)) as (v & Hv & Hb & Hs). rewrite Hv. cbn [ok_or mbind res_bind].
  assert (match maybe_fault (state hw) c with Some Banned => true | _ => false end = false) as ->.
  { unfold maybe_fault. rewrite <- (ac_banned _ A) in Hb. by destruct (faults (state hw) !! c) as [[]|]. }
  cbn [fail_if mbind res_bind]. rewrite Hs. cbn [negb fail_if mbind res_bind].
  apply IH. intros y sig Hy. apply H. by right.
Qed.

(** All signatures collected for a unit. *)
Lemma collected_signed hw e : accountable hw -> check_endorsers hw (e_unit e) (endorsers e) = Ok tt ->
  forall y sig, foldl (fun m v => <[v.1 := v.2]> m) (default ∅ (incomplete_endorsements (state hw) !! e_unit e)) (endorsers e) !! y = Some sig ->
  signed hw (hash_endorsement (e_unit e) y) y sig.
Proof.
  intros A He. pose proof (checked_signed hw _ _ A He) as Hs.
  assert (forall y sig, default ∅ (incomplete_endorsements (state hw) !! e_unit e) !! y = Some sig ->
    signed hw (hash_endorsement (e_unit e) y) y sig) as H0.
  { intros y sig Hy. destruct (incomplete_endorsements (state hw) !! e_unit e) as [m|] eqn:Em; [by eapply (ac_incomplete _ A)|].
    cbn in Hy. by rewrite lookup_empty in Hy. }
  revert H0 Hs. clear He. generalize (default ∅ (incomplete_endorsements (state hw) !! e_unit e)).
  induction (endorsers e) as [|[c sg] l IH]; intros m Hm Hs y sig Hy; cbn in Hy; [by apply Hm|].
  eapply (IH (<[c := sg]> m)); [|intros z sz Hz; apply Hs; by right|exact Hy].
  intros z sz [[<- <-]|[_ Hz]]%lookup_insert_Some; [apply Hs; by left|by apply Hm].
Qed.

Lemma iter_some_elem {A} (m : ValidatorMap (option A)) y x : (y, x) ∈ iter_some m <-> m !! y = Some (Some x).
Proof.
  unfold iter_some. rewrite list_elem_of_omap. split.
  - intros ([z o] & Hz & Ho). cbn in Ho. destruct o; [|done]. injection Ho as -> ->. by apply elem_of_enumerate.
  - intros H. exists (y, Some x). split; [by apply elem_of_enumerate|done].
Qed.

Lemma accountable_endorsements hw e s' : node_ok hw -> accountable hw -> do_pre_validate_vertex hw (VEndorsements e) = Ok tt ->
  add_endorsements (E:=VertexError) (state hw) e = Ok s' -> accountable (set_state hw s').
Proof.
  intros N A Pre H. unfold do_pre_validate_vertex in Pre. apply map_err_Ok in Pre. apply bind_Ok in Pre as ([] & _ & Pre).
  pose proof (collected_signed hw e A Pre) as Hc. pose proof (endorsers_lt hw _ _ N Pre) as Hlt. unfold add_endorsements in H.
  destruct (endorsements (state hw) !! e_unit e); [injection H as <-; by apply accountable_same|]. cbv zeta in H.
  set (sigs := foldl _ _ _) in *. apply bind_Ok in H as (ws & Hws & H). apply bind_Ok in H as (w & Hw & H).
  apply bind_Ok in H as (total & Ht & H). destruct (total / 2 <? w) eqn:Eq; injection H as <-.
  - split; cbn; [apply (ac_units _ A)|apply (ac_banned _ A)|apply (ac_faults _ A)| |].
    + intros h m [[<- <-]|[_ Hm]]%lookup_insert_Some; [|by apply (ac_endorsed _ A)]. split.
      * intros Hnil. assert (sigs = ∅) as Hz.
        { apply map_empty. intros y. destruct (sigs !! y) as [sig|] eqn:Ey; [|done]. exfalso.
          destruct (Hc y sig Ey) as (v & Hv & _). pose proof (validator_id_lt hw y v N Hv) as Hy.
          assert ((y, sig) ∈ iter_some ((fun vidx => sigs !! vidx) <$> seq 0 (length (weights (state hw))))) as Hin.
          { apply iter_some_elem. rewrite list_lookup_fmap, lookup_seq_lt by done. cbn. by rewrite Ey. }
          rewrite Hnil in Hin. by apply elem_of_nil in Hin. }
        rewrite Hz, map_to_list_empty in Hws. injection Hws as <-. injection Hw as <-.
        pose proof (so_total _ (inv_static _ (no_inv _ N))) as Hpos.
        destruct (inv_static _ (no_inv _ N)) as [_ Hcum _ _ _ _]. unfold total_weight in Ht. rewrite Hcum, running_last in Ht.
        2: { intros E0. rewrite E0 in Hpos. unfold zsum in Hpos. cbn in Hpos. lia. }
        injection Ht as <-. apply Z.ltb_lt in Eq. pose proof (Z.div_pos (0 + zsum (weights (state hw))) 2). lia.
      * intros y sig Hy%iter_some_elem. rewrite list_lookup_fmap in Hy.
        destruct (seq 0 (length (weights (state hw))) !! y) as [z|] eqn:Es; [|done].
        apply lookup_seq in Es as [-> _]. injection Hy as Hy. by apply Hc.
    + intros h m [_ Hm]%lookup_delete_Some. by apply (ac_incomplete _ A).
  - split; cbn; [apply (ac_units _ A)|apply (ac_banned _ A)|apply (ac_faults _ A)|apply (ac_endorsed _ A)|].
    intros h m [[<- <-]|[_ Hm]]%lookup_insert_Some; [done|by apply (ac_incomplete _ A)].
Qed.

(** ** All reachable states *)

Lemma accountable_step hw hw' : node_ok hw -> accountable hw -> step hw hw' -> accountable hw'.
Proof.
  intros N A [v now hw1 eff Wv Rm Pre Dep Val Add|vid hw1 Hm].
  - cbn [add_valid_vertex] in Add. destruct (has_vertex hw v); [by injection Add as <- _|].
    pose proof (no_observer _ N) as Ob. destruct v as [sw|ev|e|ping].
    + destruct (inv_add _ (no_inv _ N) sw Wv (pre_validated_unit hw sw Pre) (missing_unit hw sw Dep) (E:=VertexError)
        (proj1 (map_err_Ok _ _ _) Val) Rm) as (s' & Es' & _).
      destruct (observer_unit (E:=VertexError) (fun _ _ _ => OutOfFuel) hw sw now s' Ob Es') as (eff' & Heff).
      rewrite Heff in Add. injection Add as <- _. by eapply accountable_unit.
    + unfold hw_add_evidence in Add. apply bind_Ok in Add as ([s' b] & Es' & Add).
      assert (hw1 = set_state hw s') as ->.
      { destruct b; [rewrite observer_evidence in Add by done|]; by injection Add as <- _. }
      by eapply accountable_evidence.
    + unfold hw_add_endorsements in Add. apply bind_Ok in Add as (s' & Es' & Add). injection Add as <- _.
      by eapply accountable_endorsements.
    + unfold hw_add_ping in Add. apply bind_Ok in Add as (s' & Es' & Add). injection Add as <- _.
      unfold add_ping in Es'. apply bind_Ok in Es' as (? & _ & Es'). apply bind_Ok in Es' as (? & _ & Es').
      injection Es' as <-. by apply accountable_same.
  - unfold hw_mark_faulty in Hm. destruct (get_index (validators hw) vid) as [idx|]; [|by injection Hm as <-].
    apply bind_Ok in Hm as (s' & Es' & Hm). injection Hm as <-. by eapply accountable_mark.
Qed.

Lemma banned_map (l : list ValidatorIndex) y :
  (list_to_map ((fun idx => (idx, Banned)) <$> l) : gmap ValidatorIndex Fault) !! y = if decide (y ∈ l) then Some Banned else None.
Proof.
  induction l as [|z l IH]; cbn; [by rewrite lookup_empty, decide_False by set_solver|].
  destruct (decide (y = z)) as [->|Hy]; [by rewrite lookup_insert_eq, decide_True by set_solver|].
  rewrite lookup_insert_ne, IH by done. repeat case_decide; set_solver.
Qed.

Lemma reachable_accountable hw : reachable hw -> accountable hw.
Proof.
  induction 1 as [iid v ps hw V P Hmin Hmax Hn|hw hw' R A St].
  - unfold Highway_new in Hn. apply bind_Ok in Hn as (s & Es & Hn). injection Hn as <-.
    unfold State_new in Es. repeat (apply bind_Ok in Es as (? & _ & Es)). injection Es as <-. split; cbn.
    + intros h u Hu. by rewrite lookup_empty in Hu.
    + intros y. rewrite banned_map. by case_decide.
    + intros y ev. rewrite banned_map. by case_decide.
    + intros h m Hm. by rewrite lookup_empty in Hm.
    + intros h m Hm. by rewrite lookup_empty in Hm.
  - by eapply accountable_step; [apply reachable_ok|..].
Qed.

(** ** What is served *)

(** Two nodes in the same era. *)
Record same_era hw hw2 : Prop := {
  se_validators : validators hw2 = validators hw;
  se_instance : instance_id hw2 = instance_id hw;
  se_params : params (state hw2) = params (state hw);
}.

Lemma served_unit hw hw2 h sw : node_ok hw -> accountable hw -> node_ok hw2 -> accountable hw2 -> same_era hw hw2 ->
  wire_unit (state hw) h (instance_id hw) = Some sw -> do_pre_validate_vertex hw2 (VUnit sw) = Ok tt.
Proof.
  intros N A N2 A2 [Ev Ei Ep] H. unfold wire_unit, maybe_unit in H. destruct (units (state hw) !! h) as [u|] eqn:Eu; [|done].
  injection H as <-. pose proof (no_inv _ N) as I. pose proof (wf_units _ (inv_wf _ I) _ _ Eu) as Wu.
  destruct (ac_units _ A h u Eu) as [(v & Hv & Hb & Hs) Hc]. destruct (ex_units _ (inv_exps _ I) _ _ Eu) as [Hr _].
  pose proof (no_len _ N) as L1. pose proof (no_len _ N2) as L2. rewrite Ev in L2.
  assert (creator u < length (weights (state hw2)))%nat as Hlt by (rewrite <- L2, L1; by eapply validator_id_lt).
  unfold do_pre_validate_vertex. cbn [wire_unit_of hashed_wire_unit hw_wire_unit w_creator w_instance_id].
  rewrite Ev, Hv. cbn [ok_or mbind res_bind]. rewrite bool_decide_eq_true_2 by done. cbn [negb fail_if mbind res_bind].
  unfold hash_of. cbn [hashed_wire_unit hw_hash signature]. rewrite Hs. cbn [negb fail_if mbind res_bind].
  unfold pre_validate_unit. cbn [wire_unit_of hashed_wire_unit hw_wire_unit w_creator w_round_exp w_value w_panorama].
  cbv zeta. unfold validator_count. rewrite (proj2 (Nat.leb_gt _ _)) by done. cbn [fail_if mbind res_bind].
  assert (match faults (state hw2) !! creator u with Some Banned => true | _ => false end = false) as ->.
  { rewrite <- Ev in Hb. rewrite <- (ac_banned _ A2) in Hb. by destruct (faults (state hw2) !! creator u) as [[]|]. }
  cbn [fail_if mbind res_bind]. rewrite Ep, (proj2 (Z.ltb_ge _ _)) by lia. cbn [fail_if mbind res_bind].
  rewrite (proj2 (Z.ltb_ge _ _)) by lia. cbn [fail_if mbind res_bind].
  assert (match value <$> maybe_block (state hw) h with None => negb (has_correct (u_panorama u)) | Some _ => false end = false) as ->.
  { unfold maybe_block in *. destruct (blocks (state hw) !! h) eqn:Eb; [done|]. cbn. by rewrite (Hc eq_refl). }
  cbn [fail_if mbind res_bind]. rewrite (wfu_len _ _ _ Wu), <- L1, <- L2, Nat.eqb_refl. cbn [negb fail_if mbind res_bind].
  unfold vm_index. rewrite (wfu_own _ _ _ Wu). cbn [expect mbind res_bind]. by destruct (Unit_previous u).
Qed.

End Evidence.

