(* ===== verification/HighwayVotes.v ===== *)
(** * Votes in growing states

    A later state of a node contains the units and blocks of an earlier one, and
    what units see and vote for does not change.  In every state the protocol
    builds, a unit votes for each block that has the support of a majority in its
    panorama. *)

From S2P Require Import Prelude Highway HighwaySkip HighwayInv HighwayTally HighwayFork HighwayAdd HighwayLeader HighwayValidate.

Local Open Scope Z_scope.

Section Votes.
Context {C : ConsensusContext}.
Implicit Types (s : State) (h b v : Hash) (u : Unit) (p : Panorama).

(** ** Chains in a larger map *)

Lemma info_sub_rank (info info' : Hash -> option (Z * list Hash)) x r :
  (forall x y, info x = Some y -> info' x = Some y) -> rank_of info x = Some r -> rank_of info' x = Some r.
Proof.
  intros Sub Hr. unfold rank_of in *. destruct (info x) as [y|] eqn:E; [|done]. by rewrite (Sub x y E).
Qed.

Lemma info_sub_pred (info info' : Hash -> option (Z * list Hash)) n : skips_ok info ->
  (forall x y, info x = Some y -> info' x = Some y) ->
  forall x r, rank_of info x = Some r -> pred_n info' n x = pred_n info n x.
Proof.
  intros OK Sub. induction n as [|n IH]; intros x r Hr; [done|]. cbn [pred_n].
  unfold rank_of in Hr. destruct (info x) as [[r' l]|] eqn:Ex; [|done].
  assert (next_of info' x = next_of info x) as -> by (unfold next_of; by rewrite Ex, (Sub _ _ Ex)).
  pose proof (next_rank info OK x r' l Ex) as Hn. destruct (next_of info x) as [y|]; [|done].
  destruct Hn as [_ Hy]. cbn. by eapply IH.
Qed.

(** ** Extension of states *)

Record extends s s' : Prop := {
  ex_units : units s ⊆ units s';
  ex_blocks : blocks s ⊆ blocks s';
  ex_weights : weights s' = weights s;
}.

Lemma extends_refl s : extends s s.
Proof. by split. Qed.

Lemma extends_trans s1 s2 s3 : extends s1 s2 -> extends s2 s3 -> extends s1 s3.
Proof. intros [] []. split; [by etrans|by etrans|congruence]. Qed.

(** ** Following the majority *)

Definition majority_for s p b : Prop := score anyb (correct_votes s p) < 2 * support s (correct_votes s p) b.

(** [v] is a vote that follows every majority of the panorama. *)
Definition follows s p v : Prop :=
  forall b, block_known s b -> majority_for s p b -> supports s b v = true.
Definition votes_follow s : Prop :=
  forall h u, units s !! h = Some u -> follows s (u_panorama u) (u_block u).

Section Majority.
Variable s : State.
Hypothesis WF : wf s.
Hypothesis SM : small s.
Hypothesis WO : weights_ok s.
Variable p : Panorama.
Hypothesis K : cites_known s p.

Let V : votes_ok s (correct_votes s p) := correct_votes_ok s WF p K WO.

Lemma majority_supported b : majority_for s p b -> exists v w, (v, w) ∈ correct_votes s p /\ supports s b v = true.
Proof.
  unfold majority_for, support. intros Hm. apply has_true. destruct (has _ _) eqn:Eh; [done|].
  rewrite (score_none _ _ Eh) in Hm. pose proof (score_nonneg anyb _ (votes_ok_nonneg _ _ V)). lia.
Qed.

Lemma majority_fork_choice {E} b r : block_known s b -> majority_for s p b ->
  fork_choice (E:=E) s p = Ok r -> exists x, r = Some x /\ supports s b x = true.
Proof.
  intros Kb Hm Hr. destruct (fork_choice_spec s WF SM p K WO (E:=E)) as (r' & Hr' & Hs).
  rewrite Hr in Hr'. injection Hr' as <-. destruct (majority_supported b Hm) as (v & w & Hv & Hsv).
  destruct r as [x|]; [|rewrite Hs in Hv; by apply not_elem_of_nil in Hv]. exists x. split; [done|].
  destruct Hs as [Gx Hn].
  assert (above s None (correct_votes s p) = correct_votes s p) as Ea.
  { unfold above. cbn. unfold anyb. clear. induction (correct_votes s p) as [|x l IH]; cbn; [done|]. by rewrite IH. }
  assert (ghost s (correct_votes s p) b) as Gb.
  { destruct (block_rank s WF SM b Kb) as [_ Hb0].
    apply (majority_ghost s WF SM _ V None I (Z.to_nat (ht s b))); [done| |cbn; lia].
    unfold majority. by rewrite Ea. }
  destruct (ghost_facts s WF SM _ _ Gx) as [Kx _]. destruct (block_rank s WF SM x Kx) as [_ Hx0].
  apply (supports_spec s WF SM b x Kb). destruct (Z.le_gt_cases (ht s b) (ht s x)) as [Hle|Hgt].
  { split_and!; [done|done|]. by eapply (ghost_chain s WF SM). }
  exfalso. pose proof (ghost_chain s WF SM _ b Gb x Gx ltac:(lia)) as Hbx.
  destruct (anc_total s WF SM b (ht s x + 1) Kb) as (c & Hc & Kc & Hhc); [lia|].
  apply (Hn c), (candidate_spec s WF SM). split_and!; [done| |lia|].
  - apply has_true. exists v, w. split; [done|]. apply (supports_spec s WF SM c v Kc).
    apply (supports_spec s WF SM b v Kb) in Hsv as (Kv & Hle & Hv'). split_and!; [done|lia|].
    rewrite Hhc, <- Hc. symmetry. apply (anc_trans s WF v (ht s b)); [done|lia].
  - rewrite Hhc. replace (ht s x + 1 - 1) with (ht s x) by lia. rewrite <- Hbx.
    apply (anc_trans s WF b (ht s x + 1)); [done|lia].
Qed.

End Majority.

Section Extends.
Variables s s' : State.
Hypothesis WF : wf s.
Hypothesis SM : small s.
Hypothesis WF' : wf s'.
Hypothesis SM' : small s'.
Hypothesis EX : extends s s'.

Lemma ext_unit h u : units s !! h = Some u -> units s' !! h = Some u.
Proof. intros E. eapply lookup_weaken; [done|apply EX]. Qed.

Lemma ext_known h : known s h -> known s' h.
Proof. intros [u E]. exists u. by apply ext_unit. Qed.

Lemma ext_block_known b : block_known s b -> block_known s' b.
Proof. intros [x E]. exists x. eapply lookup_weaken; [done|apply EX]. Qed.

Lemma unit_info_sub x y : unit_info s x = Some y -> unit_info s' x = Some y.
Proof. unfold unit_info. destruct (units s !! x) as [u|] eqn:E; [|done]. by rewrite (ext_unit _ _ E). Qed.

Lemma block_info_sub x y : block_info s x = Some y -> block_info s' x = Some y.
Proof.
  unfold block_info. destruct (blocks s !! x) as [b|] eqn:E; [|done].
  by rewrite (lookup_weaken _ _ _ _ E (ex_blocks _ _ EX)).
Qed.

Lemma ext_lane a h : known s h -> lane_le s a h <-> lane_le s' a h.
Proof.
  intros [u E]. unfold lane_le.
  pose proof (fun n => info_sub_pred _ _ n (wf_lanes _ WF) unit_info_sub h _ (known_rank s h u E)) as Hp.
  split; intros [n Hn]; exists n; by rewrite Hp in *.
Qed.

Lemma ext_lane_known a h : known s h -> lane_le s' a h -> known s a.
Proof. intros K L. eapply lane_le_known; [done| |done]. by apply (ext_lane a h). Qed.

Lemma ext_pan_le p q : cites_known s q -> pan_le s p q -> pan_le s' p q.
Proof.
  intros K L. unfold pan_le in *. rewrite Forall2_same_length_lookup in *. destruct L as [Hl L].
  split; [done|]. intros i o o' Ho Ho'. specialize (L i o o' Ho Ho'). destruct o as [|x|], o' as [|x'|]; try done.
  apply ext_lane; [by eapply K|done].
Qed.

Lemma ext_ht b : block_known s b -> ht s' b = ht s b.
Proof.
  intros K. destruct (block_rank s WF SM b K) as [Hr _]. unfold ht.
  by rewrite (info_sub_rank _ _ b _ block_info_sub Hr), Hr.
Qed.

Lemma ext_anc b k : block_known s b -> anc s' b k = anc s b k.
Proof.
  intros K. destruct (block_rank s WF SM b K) as [Hr _]. unfold anc, at_rank.
  rewrite (info_sub_rank _ _ b _ block_info_sub Hr), Hr.
  destruct (k <=? ht s b); [|done]. by eapply info_sub_pred; [apply WF|apply block_info_sub|].
Qed.

Lemma ext_supports b v : block_known s b -> block_known s v -> supports s' b v = supports s b v.
Proof. intros Kb Kv. unfold supports. by rewrite ext_ht, ext_anc. Qed.

(** A block that old units support is old. *)
Lemma ext_supported b v : block_known s' b -> block_known s v -> supports s' b v = true -> block_known s b.
Proof.
  intros Kb Kv Hs. apply (supports_spec s' WF' SM' b v Kb) in Hs as (_ & _ & Ha). rewrite ext_anc in Ha by done.
  destruct (block_rank s' WF' SM' b Kb) as [_ Hn]. by apply (anc_Some s WF) in Ha as (_ & _ & ? & _).
Qed.

Lemma ext_votes p : cites_known s p -> correct_votes s' p = correct_votes s p.
Proof.
  intros K. unfold correct_votes. rewrite (ex_weights _ _ EX).
  assert (forall o w, (o, w) ∈ zip p (weights s) -> forall x, o = ObsCorrect x -> known s x) as K'.
  { intros o w Hin x ->. apply elem_of_zip_l, list_elem_of_lookup in Hin as [i Hi]. by eapply K. }
  induction (zip p (weights s)) as [|[o w] l IH]; [done|]. cbn.
  rewrite IH by (intros o' w' Hin; apply (K' o' w'); by right).
  destruct o as [|x|]; try done. cbn. destruct (K' (ObsCorrect x) w ltac:(by left) x eq_refl) as [u E].
  by rewrite E, (ext_unit _ _ E).
Qed.

Section Follow.
Hypothesis WO : weights_ok s.

Lemma ext_majority p b : cites_known s p -> block_known s' b -> majority_for s' p b ->
  block_known s b /\ majority_for s p b.
Proof.
  intros K Kb Hm. assert (weights_ok s') as WO' by (unfold weights_ok; rewrite (ex_weights _ _ EX); exact WO).
  assert (cites_known s' p) as K' by (intros i x Hi; eapply ext_known, K; done).
  pose proof (correct_votes_ok s WF p K WO) as V.
  destruct (majority_supported s' WF' WO' p K' b Hm) as (v & w & Hv & Hs).
  rewrite ext_votes in Hv by done.
  assert (forall x, x ∈ (correct_votes s p).*1 -> block_known s x) as Kv by (intros; by eapply votes_ok_known).
  assert (block_known s b) as Kb0.
  { eapply ext_supported; [done| |done]. apply Kv, list_elem_of_fmap. by exists (v, w). }
  split; [done|]. unfold majority_for in *. rewrite ext_votes in Hm by done.
  replace (support s (correct_votes s p) b) with (support s' (correct_votes s p) b); [done|].
  apply score_ext. intros x Hx. apply ext_supports; auto.
Qed.

Lemma ext_follows p v : cites_known s p -> block_known s v -> follows s p v -> follows s' p v.
Proof.
  intros K Kv F b Kb Hm. destruct (ext_majority p b K Kb Hm) as [Kb0 Hm0].
  rewrite ext_supports by done. by apply F.
Qed.

End Follow.
End Extends.
End Votes.

(** ** Adding a unit *)

Section Add.
Context {C : ConsensusContext}.
Implicit Types (s : State) (h b v : Hash) (u : Unit) (p : Panorama).

Lemma added_extends s h u ob s' : addable s h u ob -> wf s -> added s h u ob s' -> extends s s'.
Proof.
  intros A WF D. split; [| |apply D].
  - rewrite (ad_units _ _ _ _ _ D). apply insert_subseteq, A.
  - rewrite (ad_blocks _ _ _ _ _ D). pose proof (block_fresh s h u ob WF A) as Bf. destruct ob; [|done].
    by apply insert_subseteq.
Qed.

Lemma votes_follow_added {E} s h u ob s' r :
  wf s -> small s -> weights_ok s -> wf s' -> small s' -> addable s h u ob -> added s h u ob s' ->
  fork_choice (E:=E) s (u_panorama u) = Ok r ->
  match ob with Some b => u_block u = h /\ Block_parent b = r | None => r = Some (u_block u) end ->
  votes_follow s -> votes_follow s'.
Proof.
  intros WF SM WO WF' SM' A D Hr Hob Hv. pose proof (added_extends s h u ob s' A WF D) as EX.
  intros h' u' Eu'. destruct (added_unit_cases s s' h u ob D h' u' Eu') as [[-> ->]|Eu].
  2: { apply (ext_follows s s' WF SM WF' SM' EX WO); [by eapply unit_cites_known| |by eapply Hv].
       apply (wfu_block _ _ _ (wf_units _ WF _ _ Eu)). }
  pose proof (valid_pan_cites _ _ (au_pan _ _ _ _ A)) as K. intros b Kb' Hm'.
  destruct (ext_majority s s' WF SM WF' SM' EX WO _ b K Kb' Hm') as [Kb Hm].
  destruct (majority_fork_choice s WF SM WO _ K b r Kb Hm Hr) as (x & -> & Hx).
  pose proof Hx as (Kx & Hle & Ha)%(supports_spec s WF SM b x Kb).
  pose proof (au_block _ _ _ _ A) as B. pose proof (ad_blocks _ _ _ _ _ D) as Eb. destruct ob as [blk|].
  - destruct Hob as [-> Hp]. assert (blocks s' !! h = Some blk) as Ebh by (by rewrite Eb, lookup_insert, decide_True).
    pose proof (parent_anc s' WF' SM' h blk Ebh) as Hpa. rewrite Hp in Hpa.
    destruct (decide (0 < ht s' h)) as [Hpos|]; [|done]. symmetry in Hpa.
    destruct (anc_Some s' WF' _ _ _ Hpa ltac:(lia)) as (Kh & _ & _ & Hhx).
    destruct (block_rank s' WF' SM' b Kb') as [_ Hb0].
    assert (ht s' b <= ht s' x) by (rewrite !(ext_ht s s' WF SM EX) by done; lia).
    apply (supports_spec s' WF' SM' b h Kb'). split_and!; [done|lia|].
    rewrite <- (anc_trans s' WF' h (ht s' h - 1) x (ht s' b) Hpa) by lia.
    rewrite (ext_anc s s' WF SM EX), (ext_ht s s' WF SM EX) by done. done.
  - injection Hob as <-. by rewrite (ext_supports s s' WF SM EX).
Qed.

(** A validated unit keeps the votes in order. *)
Lemma votes_follow_add {LR : LeaderRng} {BS : BinarySearch} {E} s sw s' : inv s -> wire_ok (wire_unit_of sw) -> pre_validate_unit s sw = Ok tt ->
  pan_missing_dependency s (w_panorama (wire_unit_of sw)) = None -> validate_unit s sw = Ok tt ->
  Z.of_nat (S (size (units s))) < uint_max 64 -> add_valid_unit (E:=E) s sw = Ok s' ->
  votes_follow s -> votes_follow s' /\ extends s s'.
Proof.
  intros I Wk Pre Dep Val Room Es Hv. pose proof (inv_wf _ I) as WF. pose proof (inv_small _ I) as SM.
  pose proof (inv_weights_ok _ I) as WO. destruct (has_unit s (hash_of sw)) eqn:Hh.
  { unfold add_valid_unit in Es. rewrite Hh in Es. injection Es as <-. split; [done|apply extends_refl]. }
  destruct (inv_add (E:=E) s I sw Wk Pre Dep Val Room) as (s2 & Es2 & I2). rewrite Es in Es2. injection Es2 as <-.
  pose proof (validated s WF SM WO sw Pre Dep Val) as AC.
  destruct (add_valid_unit_new s WF SM WO sw AC Hh Room (E:=E))
    as (u & ob & s3 & Es3 & F & A & D & _ & _ & _ & r & Hr & Hob). rewrite Es in Es3. injection Es3 as <-.
  split; [|by eapply added_extends]. rewrite <- (fw_panorama _ _ F) in Hr.
  eapply votes_follow_added; [done|done|done|apply I2|apply I2|done|done|exact Hr|done|done].
Qed.

(** Changes of other fields do not matter. *)
Lemma votes_follow_same s s' : units s' = units s -> blocks s' = blocks s -> weights s' = weights s ->
  votes_follow s -> votes_follow s'.
Proof.
  intros Eu Eb Ew Hv h u E. rewrite Eu in E. specialize (Hv h u E).
  assert (block_info s' = block_info s) as Ei by (unfold block_info; by rewrite Eb).
  unfold follows, majority_for, support, supports, correct_votes, block_known, anc, ht in *.
  by rewrite Ei, Eu, Ew, Eb.
Qed.

End Add.
