(* ===== verification/HighwayFinality.v ===== *)
(** * Finality detection, rewards and round lengths

    Models node/src/components/consensus/highway_core/finality_detector.rs with
    horizon.rs and rewards.rs, and protocols/highway/round_success_meter.rs.  A
    horizon refers to a state and to the latest units eligible for a summit; here
    they are arguments of its operations.  The clock ([Timestamp::now]) is an
    argument where the code reads it, and logging is left out. *)

From S2P Require Import Prelude Highway HighwayVertex HighwayActive HighwayNode.

Local Open Scope Z_scope.

Section Finality.
Context {C : ConsensusContext}.

(** ** horizon.rs *)

Abbreviation Committee := (list ValidatorIndex).
Abbreviation Latest := (ValidatorMap (option Hash)).

Record Horizon := { sequence_numbers : ValidatorMap (option Z) }.

(** [iter.take_while(f)] *)
Fixpoint take_while_res {E A} (f : A -> res E bool) (l : list A) : res E (list A) :=
  match l with
  | [] => Ok []
  | x :: l => b ← f x; if b : bool then rest ← take_while_res f l; mret (x :: rest) else Ok []
  end.

(** [state.swimlane(start?).take_while(f).last()]: the sequence number of the oldest
    unit in the latest streak of units that satisfy [f]. *)
Definition streak {E} (s : State) (f : Unit -> res E bool) (start : option Hash) : res E (option Z) :=
  match start with
  | None => Ok None
  | Some h =>
      lane ← swimlane s h;
      l ← take_while_res (fun e => f e.2) lane;
      mret ((fun e => seq_number e.2) <$> last l)
  end.

Definition level0 {E} (candidate : Hash) (s : State) (latest : Latest) : res E Horizon :=
  b ← st_block s candidate;
  sns ← map_res (streak s (fun u =>
    a ← find_ancestor_proposal s (u_block u) (height b); mret (bool_decide (a = Some candidate)))) latest;
  mret {| sequence_numbers := sns |}.

Definition can_see {E} (s : State) (hz : Horizon) (u : Unit) (idx : ValidatorIndex) : res E bool :=
  sn ← vm_index (sequence_numbers hz) idx;
  match sn with
  | None => Ok false
  | Some self_sn =>
      if (creator u =? idx)%nat then Ok (self_sn <=? seq_number u)
      else
        o ← vm_index (u_panorama u) idx;
        match obs_correct o with
        | None => Ok false
        | Some vhash => v ← st_unit s vhash; mret (self_sn <=? seq_number v)
        end
  end.

Definition seen_weight {E} (s : State) (hz : Horizon) (u : Unit) (committee : Committee) : res E Weight :=
  seen ← filter_res (can_see s hz u) committee;
  ws ← map_res (weight s) seen;
  Weight_sum ws.

(** [self.seen_weight(self.state.unit(self.latest[idx].unwrap()), committee)] *)
Definition member_weight {E} (s : State) (latest : Latest) (hz : Horizon) (committee : Committee)
    (idx : ValidatorIndex) : res E Weight :=
  o ← vm_index latest idx;
  h ← expect o;
  u ← st_unit s h;
  seen_weight s hz u committee.

(** The loop of [prune_committee]; the second part of the result is a set. *)
Fixpoint prune_loop {E} (fuel : nat) (s : State) (latest : Latest) (hz : Horizon) (quorum : Weight)
    (committee pruned : Committee) : res E (Committee * Committee) :=
  match fuel with
  | O => OutOfFuel
  | S fuel =>
      ws ← map_res (fun idx => w ← member_weight s latest hz committee idx; mret (idx, quorum <=? w)) committee;
      let new_committee := (List.filter (fun e => e.2) ws).*1 in
      let new_pruned := (List.filter (fun e => negb e.2) ws).*1 in
      match new_pruned with
      | [] => Ok (new_committee, pruned)
      | _ :: _ => prune_loop fuel s latest hz quorum new_committee (pruned ++ new_pruned)
      end
  end.
Definition prune_committee {E} (s : State) (latest : Latest) (hz : Horizon) (quorum : Weight)
    (committee : Committee) : res E (Committee * Committee) :=
  prune_loop (S (length committee)) s latest hz quorum committee [].

(** [iter.min()] *)
Definition list_min (l : list Weight) : option Weight :=
  match l with [] => None | w :: l => Some (foldl Z.min w l) end.
Definition committee_quorum {E} (s : State) (latest : Latest) (hz : Horizon) (committee : Committee)
    : res E (option Weight) :=
  ws ← map_res (member_weight s latest hz committee) committee;
  mret (list_min ws).

Definition next_from_committee {E} (s : State) (latest : Latest) (hz : Horizon) (quorum : Weight)
    (committee : Committee) : res E Horizon :=
  firsts ← omap_res (E:=E) (fun idx =>
    o ← vm_index latest idx;
    sn ← streak s (fun u => w ← seen_weight s hz u committee; mret (quorum <=? w)) o;
    mret (option_map (pair idx) sn)) committee;
  sns ← fold_res (fun sns e => vm_set sns e.1 (Some e.2)) (replicate (length latest) None) firsts;
  mret {| sequence_numbers := sns |}.

Definition horizon_next {E} (s : State) (latest : Latest) (quorum : Weight) (hz : Horizon)
    : res E (option Horizon) :=
  '(committee, _) ← prune_committee s latest hz quorum (keys_some (sequence_numbers hz));
  match committee with
  | [] => Ok None
  | _ :: _ => Some <$> next_from_committee s latest hz quorum committee
  end.

(** ** finality_detector.rs *)

Record FinalityDetector := { last_finalized : option Hash; ftt : Weight }.
Definition set_last_finalized (fd : FinalityDetector) h : FinalityDetector :=
  {| last_finalized := h; ftt := ftt fd |}.

Definition FinalityDetector_new {E} (ftt : Weight) : res E FinalityDetector :=
  _ ← rassert (0 <? ftt);
  mret {| last_finalized := None; ftt := ftt |}.

(** The arithmetic is done with 128 bits; the result is cut off to 64. *)
Definition quorum_for_lvl {E} (fd : FinalityDetector) (lvl : nat) (total_w : Weight) : res E Weight :=
  let pow_lvl := 2 ^ Z.of_nat (Nat.min lvl 63) in
  a ← plain_sub pow_lvl 1;
  a ← plain_mul 128 a total_w;
  b ← plain_mul 128 pow_lvl (ftt fd);
  numerator ← plain_add 128 a b;
  d ← plain_mul 128 2 pow_lvl;
  denominator ← plain_sub d 2;
  n ← plain_add 128 numerator denominator;
  n ← plain_sub n 1;
  q ← plain_div n denominator;
  mret (wrap 64 q).

(** [iter::successors(cur, next).take(n).count()] *)
Fixpoint count_levels {E} (n : nat) (s : State) (latest : Latest) (quorum : Weight) (cur : option Horizon)
    : res E nat :=
  match n, cur with
  | O, _ | S _, None => Ok 0%nat
  | S n, Some hz =>
      next ← horizon_next s latest quorum hz;
      k ← count_levels n s latest quorum next;
      mret (S k)
  end.

Definition latest_of (s : State) : Latest := obs_correct <$> panorama s.

Definition find_summit {E} (fd : FinalityDetector) (target_lvl : nat) (candidate : Hash) (s : State)
    : res E nat :=
  total_w ← total_weight s;
  quorum ← quorum_for_lvl fd target_lvl total_w;
  let latest := latest_of s in
  sec0 ← level0 candidate s latest;
  sec1 ← horizon_next s latest quorum sec0;
  count_levels target_lvl s latest quorum sec1.

Definition next_height {E} (fd : FinalityDetector) (s : State) : res E Z :=
  match last_finalized fd with
  | None => Ok 0
  | Some bhash => b ← st_block s bhash; u64_add (height b) 1
  end.

Definition next_candidate {E} (fd : FinalityDetector) (s : State) : res E (option Hash) :=
  fc ← fork_choice s (panorama s);
  match fc with
  | None => Ok None
  | Some fc => h ← next_height fd s; find_ancestor_proposal s fc h
  end.

(** [while target_lvl > 0] *)
Fixpoint summit_loop {E} (fuel : nat) (fd : FinalityDetector) (target_lvl : nat) (candidate : Hash) (s : State)
    : res E bool :=
  match target_lvl, fuel with
  | O, _ => Ok false
  | S _, O => OutOfFuel
  | S _, S fuel =>
      lvl ← find_summit fd target_lvl candidate s;
      if (lvl =? target_lvl)%nat then Ok true else summit_loop fuel fd lvl candidate s
  end.

Definition next_finalized {E} (fd : FinalityDetector) (s : State) : res E (FinalityDetector * option Hash) :=
  c ← next_candidate fd s;
  match c with
  | None => Ok (fd, None)
  | Some candidate =>
      found ← summit_loop 63 fd 63 candidate s;
      mret (if found : bool then (set_last_finalized fd (Some candidate), Some candidate) else (fd, None))
  end.

(** ** rewards.rs *)

Inductive RoundParticipation := Unassigned | No | Yes (h : Hash).

Definition round_participation {E} (s : State) (obs : Observation) (r_id : Z) : res E RoundParticipation :=
  match obs with
  | ObsFaulty => Ok Unassigned
  | ObsNone => Ok No
  | ObsCorrect latest_vh =>
      lane ← swimlane s latest_vh;
      maybe_unit ← find_res (fun e => r ← Unit_round_id e.2; mret (r <=? r_id)) lane;
      mret match maybe_unit with
        | None => No
        | Some (vh, u) =>
            if trailing_zeros r_id <? round_exp u then Unassigned
            else if timestamp u <? r_id then No
            else Yes vh
        end
  end.

(** One step of the loop that collects the participants and the assigned weight. *)
Definition assign {E} (s : State) (r_id : Z) (acc : Weight * Latest) (e : ValidatorIndex * Observation)
    : res E (Weight * Latest) :=
  p ← round_participation s e.2 r_id;
  match p with
  | Unassigned => Ok acc
  | No => w ← weight s e.1; t ← u64_add acc.1 w; mret (t, acc.2)
  | Yes vh => l ← vm_set acc.2 e.1 (Some vh); w ← weight s e.1; t ← u64_add acc.1 w; mret (t, l)
  end.

(** [while let Some(quorum) = horizon.committee_quorum(&committee)] *)
Fixpoint quorum_loop {E} (fuel : nat) (s : State) (latest : Latest) (hz : Horizon) (committee : Committee)
    (max_quorum : ValidatorMap Weight) : res E (ValidatorMap Weight) :=
  match fuel with
  | O => OutOfFuel
  | S fuel =>
      q ← committee_quorum s latest hz committee;
      match q with
      | None => Ok max_quorum
      | Some quorum =>
          quorum1 ← u64_add quorum 1;
          '(new_committee, pruned) ← prune_committee s latest hz quorum1 committee;
          max_quorum ← fold_res (fun m vidx => vm_set m vidx quorum) max_quorum pruned;
          quorum_loop fuel s latest hz new_committee max_quorum
      end
  end.

Definition reward {E} (s : State) (assigned_weight faulty_w quorum w : Weight) : res E Z :=
  total ← total_weight s;
  let finality_factor := if Weight_saturating_add (total / 2) faulty_w <? quorum
    then block_reward (params s) else reduced_block_reward (params s) in
  a ← plain_mul 128 finality_factor quorum;
  a ← plain_div a assigned_weight;
  a ← plain_mul 128 a w;
  a ← plain_div a total;
  mret (wrap 64 a).

Definition compute_rewards_for {E} (s : State) (pan : Panorama) (proposal_h : Hash) : res E (ValidatorMap Z) :=
  proposal_unit ← st_unit s proposal_h;
  r_id ← Unit_round_id proposal_unit;
  '(assigned_weight, latest) ← fold_res (assign s r_id) (0, replicate (length pan) None) (enumerate pan);
  if Weight_is_zero assigned_weight then Ok (replicate (length latest) 0) else
  hz ← level0 proposal_h s latest;
  '(committee, _) ← prune_committee s latest hz 1 (keys_some latest);
  max_quorum ← quorum_loop (S (length committee)) s latest hz committee (replicate (length latest) 0);
  fw ← map_res (weight s) (iter_faulty pan);
  faulty_w ← Weight_sum fw;
  map_res (fun e => reward s assigned_weight faulty_w e.1 e.2) (zip max_quorum (weights s)).

(** The rewards of one proposal added to the ones before. *)
Definition add_rewards {E} (rewards : ValidatorMap Z) (l : ValidatorMap Z) : res E (ValidatorMap Z) :=
  fold_res (fun rewards e =>
    old ← vm_index rewards e.1;
    sum ← expect (checked_add 64 old e.2);
    vm_set rewards e.1 sum) rewards (enumerate l).

Definition compute_rewards {E} (s : State) (bhash : Hash) : res E (ValidatorMap Z) :=
  payout_unit ← st_unit s bhash;
  let pan := u_panorama payout_unit in
  ancestors ← ancestor_hashes s bhash;
  fold_res (fun rewards proposal_hash =>
    l ← compute_rewards_for s pan proposal_hash; add_rewards rewards l) (replicate (length pan) 0) ancestors.

(** ** finality_detector.rs: finalized blocks *)

(** [rewards] is collected into a map from validators; here it is the list of pairs. *)
Record TerminalBlockData := {
  tb_rewards : list (ValidatorId * Z);
  inactive_validators : list ValidatorId;
}.

Record FinalizedBlock := {
  fb_value : ConsensusValue;
  fb_timestamp : Z;
  relative_height : Z;
  equivocators : list ValidatorId;
  terminal_block_data : option TerminalBlockData;
  proposer : ValidatorId;
}.

Definition create_terminal_block_data {E} {VS : ValidatorSecret} (bhash : Hash) (u : Unit) (hw : Highway)
    : res E TerminalBlockData :=
  let to_id vidx := expect (validator_id (validators hw) vidx) in
  let s := state hw in
  rewards ← compute_rewards s bhash;
  rewards ← map_res (fun e => id ← to_id e.1; mret (id, e.2)) (enumerate rewards);
  first ← find_ancestor_proposal s bhash 0;
  first_bhash ← expect first;
  first_unit ← st_unit s first_bhash;
  t ← u64_add (timestamp first_unit) (max_round_length (params s));
  inactive ← if t <=? timestamp u then map_res to_id (iter_none (u_panorama u)) else Ok [];
  mret {| tb_rewards := rewards; inactive_validators := inactive |}.

Definition finalized_block {E} {VS : ValidatorSecret} (hw : Highway) (bhash : Hash) : res E FinalizedBlock :=
  let to_id vidx := expect (validator_id (validators hw) vidx) in
  let s := state hw in
  b ← st_block s bhash;
  u ← st_unit s bhash;
  terminal ← is_terminal_block s bhash;
  data ← if terminal : bool then Some <$> create_terminal_block_data bhash u hw else Ok None;
  eq ← map_res to_id (iter_faulty (u_panorama u));
  p ← to_id (creator u);
  mret {| fb_value := value b; fb_timestamp := timestamp u; relative_height := height b; equivocators := eq;
          terminal_block_data := data; proposer := p |}.

(** The iterator [run] returns, drained: it ends when no further block is finalized. *)
Fixpoint finalize_all {E} {VS : ValidatorSecret} (fuel : nat) (fd : FinalityDetector) (hw : Highway)
    : res E (FinalityDetector * list FinalizedBlock) :=
  match fuel with
  | O => OutOfFuel
  | S fuel =>
      '(fd, next) ← next_finalized fd (state hw);
      match next with
      | None => Ok (fd, [])
      | Some bhash =>
          fb ← finalized_block hw bhash;
          '(fd, rest) ← finalize_all fuel fd hw;
          mret (fd, fb :: rest)
      end
  end.

Inductive FttExceeded := FttExceeded_ (fault_w : Weight).

Definition run {VS : ValidatorSecret} (fd : FinalityDetector) (hw : Highway)
    : res FttExceeded (FinalityDetector * list FinalizedBlock) :=
  let s := state hw in
  fault_w ← faulty_weight s;
  exceeded ← if ftt fd <=? fault_w then Ok true
    else total ← total_weight s; t ← u64_sub total 1; mret (t / 2 <? fault_w);
  _ ← fail_if exceeded (FttExceeded_ fault_w);
  finalize_all (S (size (blocks s))) fd hw.

(** ** round_success_meter.rs *)

Record MeterConfig := {
  num_rounds_to_consider : Z;
  num_rounds_slowdown : Z;
  num_rounds_speedup : Z;
  acceleration_parameter : Z;
  acceleration_ftt : Z * Z;
}.

Definition max_failed_rounds (c : MeterConfig) : Z :=
  saturating_sub (saturating_sub (num_rounds_to_consider c) (num_rounds_slowdown c)) 1.
Definition max_failures_for_acceleration (c : MeterConfig) : Z :=
  saturating_sub (num_rounds_to_consider c) (num_rounds_speedup c).

(** [rounds] has the last round handled at its head. *)
Record RoundSuccessMeter := {
  rounds : list bool;
  current_round_id : Z;
  proposals : list Hash;
  rm_min_round_exp : Z;
  rm_max_round_exp : Z;
  current_round_exp : Z;
  config : MeterConfig;
}.

Definition RoundSuccessMeter_new {E} (round_exp min_round_exp max_round_exp timestamp : Z) (config : MeterConfig)
    : res E RoundSuccessMeter :=
  r ← round_id timestamp round_exp;
  mret {| rounds := []; current_round_id := r; proposals := []; rm_min_round_exp := min_round_exp;
          rm_max_round_exp := max_round_exp; current_round_exp := round_exp; config := config |}.

Definition change_exponent {E} (m : RoundSuccessMeter) (new_exp timestamp : Z) : res E RoundSuccessMeter :=
  r ← round_id timestamp new_exp;
  mret {| rounds := []; current_round_id := r; proposals := []; rm_min_round_exp := rm_min_round_exp m;
          rm_max_round_exp := rm_max_round_exp m; current_round_exp := new_exp; config := config m |}.

Definition check_proposals_success {E} (m : RoundSuccessMeter) (s : State) (proposal_h : Hash) : res E bool :=
  total_w ← total_weight s;
  a ← plain_mul 128 total_w (acceleration_ftt (config m)).1;
  a ← plain_div a (acceleration_ftt (config m)).2;
  fd ← FinalityDetector_new (Z.max (wrap 64 a) 1);
  lvl ← find_summit fd 1 proposal_h s;
  mret (lvl =? 1)%nat.

Definition new_proposal {E} (m : RoundSuccessMeter) (proposal_h : Hash) (timestamp : Z)
    : res E RoundSuccessMeter :=
  r ← round_id timestamp (current_round_exp m);
  mret (if r =? current_round_id m then
    {| rounds := rounds m; current_round_id := current_round_id m; proposals := proposals m ++ [proposal_h];
       rm_min_round_exp := rm_min_round_exp m; rm_max_round_exp := rm_max_round_exp m;
       current_round_exp := current_round_exp m; config := config m |}
  else m).

Definition round_index (r_id round_exp : Z) : Z := if round_exp <? 64 then Z.shiftr r_id round_exp else 0.
Definition count_failures (m : RoundSuccessMeter) : Z := Z.of_nat (length (List.filter negb (rounds m))).
Definition clean_old_rounds (m : RoundSuccessMeter) : RoundSuccessMeter :=
  {| rounds := take (Z.to_nat (num_rounds_to_consider (config m))) (rounds m);
     current_round_id := current_round_id m; proposals := proposals m;
     rm_min_round_exp := rm_min_round_exp m; rm_max_round_exp := rm_max_round_exp m;
     current_round_exp := current_round_exp m; config := config m |}.

Definition new_exponent {E} (m : RoundSuccessMeter) : res E Z :=
  let current_round_index := round_index (current_round_id m) (current_round_exp m) in
  let num_failures := count_failures m in
  let c := config m in
  if (max_failed_rounds c <? num_failures) && (current_round_exp m <? rm_max_round_exp m)
  then Ok (saturating_add 8 (current_round_exp m) 1)
  else
    r ← plain_rem current_round_index (acceleration_parameter c);
    mret (if (r =? 0) && (rm_min_round_exp m <? current_round_exp m)
              && (Z.of_nat (length (rounds m)) =? num_rounds_to_consider c)
              && (num_failures <? max_failures_for_acceleration c)
          then saturating_sub (current_round_exp m) 1
          else current_round_exp m).

Definition calculate_new_exponent {E} (m : RoundSuccessMeter) (now : Z) (s : State)
    : res E (RoundSuccessMeter * Z) :=
  r ← round_id now (current_round_exp m);
  if r <=? current_round_id m then e ← new_exponent m; mret (m, e) else
  let current_round_index := round_index (current_round_id m) (current_round_exp m) in
  let new_round_index := round_index now (current_round_exp m) in
  success ← any_res (check_proposals_success m s) (proposals m);
  let failed_round_count := saturating_sub (saturating_sub new_round_index current_round_index) 1 in
  let round_len := round_len (current_round_exp m) in
  id ← u64_add 0 (saturating_mul 64 round_len new_round_index);
  let m := clean_old_rounds
    {| rounds := replicate (Z.to_nat failed_round_count) false ++ success :: rounds m;
       current_round_id := id; proposals := []; rm_min_round_exp := rm_min_round_exp m;
       rm_max_round_exp := rm_max_round_exp m; current_round_exp := current_round_exp m;
       config := config m |} in
  new_exp ← new_exponent m;
  if new_exp =? current_round_exp m then Ok (m, new_exp)
  else m ← change_exponent m new_exp now; mret (m, new_exp).

Definition next_era {E} (m : RoundSuccessMeter) (timestamp : Z) : res E RoundSuccessMeter :=
  r ← round_id timestamp (current_round_exp m);
  mret {| rounds := rounds m; current_round_id := r; proposals := [];
          rm_min_round_exp := rm_min_round_exp m; rm_max_round_exp := rm_max_round_exp m;
          current_round_exp := current_round_exp m; config := config m |}.

End Finality.

Abbreviation Committee := (list ValidatorIndex).
Abbreviation Latest := (ValidatorMap (option Hash)).
