(* ===== verification/HighwayHorizon.v ===== *)
(** * Horizons and committees

    On well-formed states the searches of the finality detector never panic and
    terminate, and each horizon is what its description says: the start of every
    committee member's latest streak of units that see a quorum of the horizon
    before. *)

From S2P Require Import Prelude Highway HighwaySkip HighwayInv HighwayTally HighwayFork HighwayAdd HighwayLeader HighwayMerge HighwayVotes HighwayVertex HighwayActive HighwayNode HighwayFinality.

Local Open Scope Z_scope.

(** ** The weight of a set of validators *)

Fixpoint wt_from (i : nat) (ws : list Z) (P : nat -> bool) : Z :=
  match ws with [] => 0 | w :: ws => (if P i then w else 0) + wt_from (S i) ws P end.
Definition wt (ws : list Z) (P : nat -> bool) : Z := wt_from 0 ws P.

Section Weights.
Implicit Types (ws : list Z) (P Q R : nat -> bool).

Lemma wt_from_sum i ws P Q R :
  (forall j, (i <= j < i + length ws)%nat -> (if P j then 1 else 0) + (if Q j then 1 else 0) = if R j then 1 else 0) ->
  wt_from i ws P + wt_from i ws Q = wt_from i ws R.
Proof.
  revert i. induction ws as [|w ws IH]; intros i F; cbn; [done|].
  rewrite <- (IH (S i)) by (intros j Hj; apply F; cbn; lia). specialize (F i ltac:(cbn; lia)).
  destruct (P i), (Q i), (R i); lia.
Qed.

(** [P] and [Q] partition [R]. *)
Lemma wt_split ws P Q R : (forall i, (i < length ws)%nat -> P i && Q i = false /\ P i || Q i = R i) ->
  wt ws P + wt ws Q = wt ws R.
Proof.
  intros F. apply wt_from_sum. intros j Hj. destruct (F j) as [F1 F2]; [lia|].
  destruct (P j), (Q j), (R j); cbn in *; done.
Qed.

Lemma wt_from_le i ws P Q : Forall (Z.le 0) ws ->
  (forall j, (i <= j < i + length ws)%nat -> P j = true -> Q j = true) -> wt_from i ws P <= wt_from i ws Q.
Proof.
  intros Hw. revert i. induction Hw as [|w ws Hw _ IH]; intros i F; cbn; [lia|].
  specialize (IH (S i) ltac:(intros j Hj; apply F; cbn; lia)). specialize (F i ltac:(cbn; lia)).
  destruct (P i), (Q i); lia.
Qed.

Lemma wt_le ws P Q : Forall (Z.le 0) ws -> (forall i, (i < length ws)%nat -> P i = true -> Q i = true) ->
  wt ws P <= wt ws Q.
Proof. intros Hw F. apply wt_from_le; [done|]. intros j Hj. apply F. lia. Qed.

Lemma wt_nonneg ws P : Forall (Z.le 0) ws -> 0 <= wt ws P.
Proof. intros Hw. unfold wt. generalize 0%nat. induction Hw as [|w ws Hw _ IH]; intros i; cbn; [lia|]. specialize (IH (S i)). destruct (P i); lia. Qed.

Lemma wt_all ws : wt ws (fun _ => true) = zsum ws.
Proof. unfold wt, zsum. generalize 0%nat. induction ws as [|w ws IH]; intros i; cbn; [done|]. by rewrite IH. Qed.

Lemma wt_ext ws P Q : (forall i, (i < length ws)%nat -> P i = Q i) -> wt ws P = wt ws Q.
Proof.
  intros F. pose proof (wt_split ws P (fun _ => false) Q) as H.
  assert (wt ws (fun _ => false) = 0) as E0.
  { unfold wt. generalize 0%nat. clear. induction ws as [|w ws IH]; intros i; cbn; [done|]. by rewrite IH. }
  rewrite E0, Z.add_0_r in H. apply H. intros i Hi. rewrite (F i Hi). by destruct (Q i).
Qed.

Lemma wt_union ws P Q : Forall (Z.le 0) ws -> wt ws (fun i => P i || Q i) <= wt ws P + wt ws Q.
Proof.
  intros Hw. unfold wt. generalize 0%nat. induction Hw as [|w ws Hw _ IH]; intros i; cbn; [lia|].
  specialize (IH (S i)). destruct (P i), (Q i); cbn; lia.
Qed.

Lemma wt_none ws P : (forall i, (i < length ws)%nat -> P i = false) -> wt ws P = 0.
Proof.
  intros F. rewrite (wt_ext ws P (fun _ => false) F). unfold wt. generalize 0%nat.
  clear. induction ws as [|w ws IH]; intros i; cbn; [done|]. by rewrite IH.
Qed.

Lemma wt_from_single i ws k : wt_from i ws (fun j => bool_decide (j = k)) =
  if decide (i <= k)%nat then default 0 (ws !! (k - i)%nat) else 0.
Proof.
  revert i. induction ws as [|w ws IH]; intros i; cbn.
  - by destruct (decide _); rewrite ?lookup_nil.
  - rewrite IH. case_bool_decide as Hik.
    + subst k. rewrite decide_False by lia. rewrite decide_True by lia. rewrite Nat.sub_diag. cbn. lia.
    + destruct (decide (S i <= k)%nat), (decide (i <= k)%nat); try lia.
      assert ((w :: ws) !! (k - i)%nat = ws !! (k - S i)%nat) as -> by (by replace (k - i)%nat with (S (k - S i)) by lia).
      lia.
Qed.

Lemma wt_single ws k w : ws !! k = Some w -> wt ws (fun j => bool_decide (j = k)) = w.
Proof. intros E. unfold wt. rewrite wt_from_single, decide_True by lia. by rewrite Nat.sub_0_r, E. Qed.

Definition list_wt ws (l : list nat) : Z := zsum ((fun i => default 0 (ws !! i)) <$> l).

Lemma list_wt_eq ws l : NoDup l -> Forall (fun i => (i < length ws)%nat) l ->
  list_wt ws l = wt ws (fun i => bool_decide (i ∈ l)).
Proof.
  induction l as [|k l IH]; intros Hd Hl.
  { rewrite wt_none; [done|]. intros i _. apply bool_decide_eq_false. apply not_elem_of_nil. }
  apply NoDup_cons in Hd as [Hk Hd]. inversion Hl as [|? ? Hkl Hl']; subst.
  destruct (lookup_lt_is_Some_2 ws k Hkl) as [w Ew].
  change (list_wt ws (k :: l)) with (default 0 (ws !! k) + list_wt ws l). rewrite Ew, (IH Hd Hl'). cbn.
  rewrite <- (wt_single ws k w Ew). apply wt_split. intros i _. split.
  - apply andb_false_iff. destruct (decide (i = k)) as [->|]; [right|left]; by apply bool_decide_eq_false.
  - apply eq_bool_prop_intro. rewrite orb_True, !bool_decide_spec. set_solver.
Qed.

End Weights.

(** ** Seeing a horizon *)

Section Horizons.
Context {C : ConsensusContext}.
Variable s : State.
Hypothesis WF : wf s.
Hypothesis SM : small s.
Hypothesis WO : weights_ok s.
Implicit Types (h b : Hash) (u : Unit) (sns : ValidatorMap (option Z)) (l : list ValidatorIndex) (y : ValidatorIndex).

Local Notation n := (length (weights s)).

Lemma weights_nonneg : Forall (Z.le 0) (weights s).
Proof. destruct WO as [Hw _]. eapply Forall_impl; [exact Hw|]. cbn. lia. Qed.

(** Whether a unit sees the entry of [y] in a horizon. *)
Definition cansee sns u y : bool :=
  match sns !! y with
  | Some (Some k) =>
      if (creator u =? y)%nat then k <=? seq_number u
      else match u_panorama u !! y with
        | Some (ObsCorrect v) => match units s !! v with Some uv => k <=? seq_number uv | None => false end
        | _ => false
        end
  | _ => false
  end.
Definition seenw sns l u : Z := list_wt (weights s) (List.filter (cansee sns u) l).

Definition members l : Prop := NoDup l /\ Forall (fun y => (y < n)%nat) l.

Lemma members_filter f l : members l -> members (List.filter f l).
Proof.
  intros [Hd Hl]. split.
  - apply NoDup_ListNoDup, List.NoDup_filter. by apply NoDup_ListNoDup.
  - rewrite Forall_forall in *. intros y Hy. apply list_elem_of_In, filter_In in Hy as [Hy _].
    apply Hl. by apply list_elem_of_In.
Qed.

Lemma can_see_eq {E} sns h u y : length sns = n -> units s !! h = Some u -> (y < n)%nat ->
  can_see (E:=E) s {| sequence_numbers := sns |} u y = Ok (cansee sns u y).
Proof.
  intros Hl Eu Hy. unfold can_see, cansee, vm_index. cbn [sequence_numbers].
  destruct (lookup_lt_is_Some_2 sns y) as [o Eo]; [lia|]. rewrite Eo. cbn. destruct o as [k|]; [|done].
  destruct (creator u =? y)%nat; [done|].
  destruct (lookup_lt_is_Some_2 (u_panorama u) y) as [ob Eob].
  { rewrite (wfu_len _ _ _ (wf_units _ WF _ _ Eu)). done. }
  rewrite Eob. cbn. destruct ob as [|v|]; [done| |done]. cbn.
  destruct (unit_cites_known s WF h u Eu y v Eob) as [uv Ev]. by rewrite (st_unit_known s v uv Ev), Ev.
Qed.

Lemma list_wt_bound l : members l -> 0 <= list_wt (weights s) l <= uint_max 64.
Proof.
  intros [Hd Hl]. rewrite list_wt_eq by done. split; [apply wt_nonneg, weights_nonneg|].
  destruct WO as [_ Ht]. change (foldr Z.add 0 (weights s)) with (zsum (weights s)) in Ht.
  rewrite <- wt_all in Ht. etrans; [|exact Ht]. by apply wt_le; [apply weights_nonneg|].
Qed.

Lemma members_weights {E} l : members l ->
  (ws ← map_res (weight (E:=E) s) l; Weight_sum ws) = Ok (list_wt (weights s) l).
Proof.
  intros M. rewrite (map_res_Ok _ (fun i => default 0 (weights s !! i))).
  - cbn [mbind res_bind]. rewrite Weight_sum_eq; [done| |apply (list_wt_bound l M)].
    apply Forall_fmap, Forall_forall. intros y _. cbn. destruct (weights s !! y) as [w|] eqn:Ew; cbn; [|lia].
    pose proof weights_nonneg as Hn. rewrite Forall_forall in Hn. apply Hn. by eapply list_elem_of_lookup_2.
  - intros y Hy. destruct M as [_ Hl]. rewrite Forall_forall in Hl. specialize (Hl y Hy).
    destruct (lookup_lt_is_Some_2 (weights s) y Hl) as [w Ew]. unfold weight, vm_index. by rewrite Ew.
Qed.

Lemma seen_weight_eq {E} sns h u l : length sns = n -> units s !! h = Some u -> members l ->
  seen_weight (E:=E) s {| sequence_numbers := sns |} u l = Ok (seenw sns l u).
Proof.
  intros Hl Eu M. unfold seen_weight. rewrite (filter_res_Ok _ (cansee sns u)).
  - cbn [mbind res_bind]. by apply members_weights, members_filter.
  - intros y Hy. destruct M as [_ Hm]. rewrite Forall_forall in Hm. eapply can_see_eq; [done|done|by apply Hm].
Qed.

Lemma seenw_mono sns sns' l u u' : members l ->
  (forall y, y ∈ l -> cansee sns u y = true -> cansee sns' u' y = true) -> seenw sns l u <= seenw sns' l u'.
Proof.
  intros M F. unfold seenw. pose proof (members_filter (cansee sns u) l M) as [D1 L1].
  pose proof (members_filter (cansee sns' u') l M) as [D2 L2]. rewrite !list_wt_eq by done.
  apply wt_le; [apply weights_nonneg|]. intros i _. rewrite !bool_decide_eq_true.
  intros Hi%list_elem_of_In%filter_In. destruct Hi as [Hi Hc]. apply list_elem_of_In, filter_In.
  split; [done|]. apply F; [by apply list_elem_of_In|done].
Qed.

Lemma seenw_sub sns l l' u : members l -> members l' -> (forall y, y ∈ l -> y ∈ l') ->
  seenw sns l u <= seenw sns l' u.
Proof.
  intros M M' F. unfold seenw. pose proof (members_filter (cansee sns u) l M) as [D1 L1].
  pose proof (members_filter (cansee sns u) l' M') as [D2 L2]. rewrite !list_wt_eq by done.
  apply wt_le; [apply weights_nonneg|]. intros i _. rewrite !bool_decide_eq_true.
  intros Hi%list_elem_of_In%filter_In. destruct Hi as [Hi Hc]. apply list_elem_of_In, filter_In.
  split; [|done]. apply list_elem_of_In, F. by apply list_elem_of_In.
Qed.

(** ** Streaks *)

(** The start of the longest streak of units with [P] that reaches up to [h]. *)
Definition streak_of (P : Unit -> bool) h (r : option Z) : Prop :=
  match r with
  | None => forall u, units s !! h = Some u -> P u = false
  | Some k =>
      (exists m um, lane_le s m h /\ units s !! m = Some um /\ seq_number um = k) /\
      (forall x ux, lane_le s x h -> units s !! x = Some ux -> k <= seq_number ux -> P ux = true) /\
      (forall k', 0 <= k' ->
         (forall x ux, lane_le s x h -> units s !! x = Some ux -> k' <= seq_number ux -> P ux = true) -> k <= k')
  end.

Lemma take_while_streak {E} (f : Unit -> res E bool) P h (l : list (Hash * Unit)) : lane_list s (Some h) l ->
  (forall x ux, lane_le s x h -> units s !! x = Some ux -> f ux = Ok (P ux)) ->
  exists l' : list (Hash * Unit), take_while_res (fun e => f e.2) l = Ok l' /\ streak_of P h ((fun e => seq_number e.2) <$> last l').
Proof.
  remember (Some h) as oh eqn:Eh. intros Hl. revert h Eh.
  induction Hl as [|h' u l Eu Hl IH]; intros h Eh F; [done|]. injection Eh as ->. cbn [take_while_res snd].
  rewrite (F h u) by (done || apply lane_le_refl). cbn [mbind res_bind]. destruct (P u) eqn:EP.
  2: { exists []. split; [done|]. intros u' Eu'. congruence. }
  destruct (Unit_previous u) as [x|] eqn:Ep.
  - destruct (previous_unit s WF h u x Eu Ep) as (ux & Ex & _).
    destruct (pred_known s WF 1 h u x Eu) as (ux' & Ex' & _ & Hsq).
    { cbn. rewrite (next_of_unit s h u Eu), Ep. done. }
    assert (ux' = ux) as -> by congruence.
    assert (forall z, lane_le s z h <-> z = h \/ lane_le s z x) as Hlane.
    { intros z. rewrite (lane_le_previous s h u z Eu), Ep. split; [intros [|(? & [= <-] & ?)]; auto|].
      intros [|]; [auto|]. right. by exists x. }
    destruct (IH x eq_refl) as (l' & -> & St).
    { intros y uy Ly. apply F. apply Hlane. by right. }
    cbn [mbind res_bind]. exists ((h, u) :: l'). split; [done|].
    destruct (last l') as [[y uy]|] eqn:El.
    + rewrite last_cons, El. cbn [fmap option_fmap option_map] in St |- *.
      destruct St as ((m & um & Lm & Em & Hm) & Hall & Hmax). split_and!.
      * exists m, um. split_and!; [|done|done]. apply Hlane. by right.
      * intros z uz [->|Lz]%Hlane Ez Hk; [congruence|]. by eapply Hall.
      * intros k' Hk' Hall'. apply Hmax; [done|]. intros z uz Lz. apply Hall'. apply Hlane. by right.
    + assert (l' = []) as -> by (by apply last_None). cbn in St |- *. split_and!.
      * exists h, u. split_and!; [apply lane_le_refl|done|done].
      * intros z uz [->|Lz]%Hlane Ez Hk; [congruence|].
        destruct (lane_le_seq s WF x z ux uz Lz Ex Ez) as (_ & ? & _). cbn in *. lia.
      * intros k' Hk' Hall'. destruct (Z.le_gt_cases (seq_number u) k') as [|Hlt]; [done|]. exfalso.
        assert (P ux = true) as Ht.
        { apply (Hall' x ux); [apply Hlane; right; apply lane_le_refl|done|cbn in *; lia]. }
        by rewrite (St ux Ex) in Ht.
  - inversion Hl; subst. cbn [take_while_res mbind res_bind]. exists [(h, u)]. split; [done|]. cbn.
    assert (forall z, lane_le s z h <-> z = h) as Hlane.
    { intros z. rewrite (lane_le_previous s h u z Eu), Ep. split; [intros [|(? & [=] & _)]; auto|auto]. }
    split_and!.
    + exists h, u. split_and!; [apply lane_le_refl|done|done].
    + intros z uz ->%Hlane Ez _. congruence.
    + intros k' Hk' _. pose proof (next_rank (unit_info s) (wf_lanes _ WF) h _ _ (known_info s _ _ Eu)) as Hn.
      rewrite (next_of_unit s _ _ Eu), Ep in Hn. lia.
Qed.

Lemma streak_spec {E} (f : Unit -> res E bool) P h u : units s !! h = Some u ->
  (forall x ux, lane_le s x h -> units s !! x = Some ux -> f ux = Ok (P ux)) ->
  exists r, streak s f (Some h) = Ok r /\ streak_of P h r.
Proof.
  intros Eu F. unfold streak. destruct (swimlane_list s WF (E:=E) h u Eu) as (l & -> & Hl).
  cbn [mbind res_bind]. destruct (take_while_streak f P h l Hl F) as (l' & -> & St).
  cbn [mbind res_bind]. by eexists.
Qed.

Lemma streak_of_unique P h u r r' : units s !! h = Some u -> streak_of P h r -> streak_of P h r' -> r = r'.
Proof.
  intros Eu.
  assert (forall k, streak_of P h (Some k) -> 0 <= k /\ P u = true) as Hs.
  { intros k ((m & um & Lm & Em & <-) & Hall & _). split; [apply (seq_range s WF m um Em)|].
    apply (Hall h u); [apply lane_le_refl|done|]. apply (lane_le_seq s WF h m u um Lm Eu Em). }
  intros S1 S2. destruct r as [k|], r' as [k'|]; [|exfalso..|done].
  - destruct (Hs k S1) as [Hk _], (Hs k' S2) as [Hk' _]. destruct S1 as (_ & A1 & M1), S2 as (_ & A2 & M2).
    f_equal. specialize (M1 k' Hk' A2). specialize (M2 k Hk A1). lia.
  - destruct (Hs k S1) as [_ HP]. by rewrite (S2 u Eu) in HP.
  - destruct (Hs k' S2) as [_ HP]. by rewrite (S1 u Eu) in HP.
Qed.

(** The streak as a pure function. *)
Definition streak_fn (P : Unit -> bool) h : option Z :=
  match streak (E:=Empty_set) s (fun u => Ok (P u)) (Some h) with Ok r => r | _ => None end.

Lemma streak_fn_spec P h u : units s !! h = Some u -> streak_of P h (streak_fn P h).
Proof.
  intros Eu. unfold streak_fn. destruct (streak_spec (E:=Empty_set) (fun u => Ok (P u)) P h u Eu) as (r & -> & St); done.
Qed.

Lemma streak_eq {E} (f : Unit -> res E bool) P h u : units s !! h = Some u ->
  (forall x ux, lane_le s x h -> units s !! x = Some ux -> f ux = Ok (P ux)) ->
  streak s f (Some h) = Ok (streak_fn P h).
Proof.
  intros Eu F. destruct (streak_spec f P h u Eu F) as (r & -> & St). f_equal.
  eapply streak_of_unique; [done|done|by eapply streak_fn_spec].
Qed.

(** ** Committees *)

Section Committees.
Variable latest : Latest.
Hypothesis LL : length latest = n.
Hypothesis LA : forall y h, latest !! y = Some (Some h) -> exists u, units s !! h = Some u /\ creator u = y.

Definition has_latest y : Prop := exists h, latest !! y = Some (Some h).

(** The weight that the latest unit of [y] sees. *)
Definition luw sns l y : Z :=
  match latest !! y with
  | Some (Some h) => match units s !! h with Some u => seenw sns l u | None => 0 end
  | _ => 0
  end.

Lemma member_weight_eq {E} sns l y : length sns = n -> members l -> has_latest y ->
  member_weight (E:=E) s latest {| sequence_numbers := sns |} l y = Ok (luw sns l y).
Proof.
  intros Hl M [h Eh]. destruct (LA y h Eh) as (u & Eu & _). unfold member_weight, luw, vm_index. rewrite Eh. cbn.
  rewrite (st_unit_known s h u Eu), Eu. cbn. by eapply seen_weight_eq.
Qed.

Lemma luw_sub sns l l' y : members l -> members l' -> (forall z, z ∈ l -> z ∈ l') -> luw sns l y <= luw sns l' y.
Proof.
  intros M M' F. unfold luw. destruct (latest !! y) as [[h|]|]; [|lia..]. destruct (units s !! h); [|lia].
  by apply seenw_sub.
Qed.

(** A committee in which everybody sees a quorum. *)
Definition quorate sns (q : Z) l : Prop := forall y, y ∈ l -> q <= luw sns l y.

Lemma filter_fst (g : ValidatorIndex -> bool) l :
  (List.filter (fun e => e.2) ((fun y => (y, g y)) <$> l)).*1 = List.filter g l /\
  (List.filter (fun e => negb e.2) ((fun y => (y, g y)) <$> l)).*1 = List.filter (fun y => negb (g y)) l.
Proof. induction l as [|y l [IH1 IH2]]; [done|]. cbn. destruct (g y); cbn; by rewrite IH1, IH2. Qed.

Lemma filter_partition (g : ValidatorIndex -> bool) l :
  l ≡ₚ List.filter g l ++ List.filter (fun y => negb (g y)) l.
Proof.
  induction l as [|y l IH]; [done|]. cbn. destruct (g y); cbn; [by constructor|].
  rewrite <- Permutation_middle. by constructor.
Qed.

Lemma prune_loop_spec {E} sns q fuel : length sns = n -> forall l pruned, members l -> Forall has_latest l ->
  (length l < fuel)%nat -> exists l' dropped,
    prune_loop (E:=E) fuel s latest {| sequence_numbers := sns |} q l pruned = Ok (l', pruned ++ dropped) /\
    members l' /\ l ≡ₚ l' ++ dropped /\ quorate sns q l' /\
    forall d, members d -> (forall y, y ∈ d -> y ∈ l) -> quorate sns q d -> forall y, y ∈ d -> y ∈ l'.
Proof.
  intros Hl. induction fuel as [|fuel IH]; intros l pruned M La Hf; [lia|]. cbn [prune_loop].
  set (g := fun y => q <=? luw sns l y).
  rewrite (map_res_Ok _ (fun y => (y, g y))).
  2: { intros y Hy. rewrite Forall_forall in La. by rewrite (member_weight_eq sns l y Hl M (La y Hy)). }
  cbn [mbind res_bind]. destruct (filter_fst g l) as [-> ->]. pose proof (filter_partition g l) as Hp.
  destruct (List.filter (fun y => negb (g y)) l) as [|y0 d0] eqn:Ed.
  - rewrite app_nil_r in Hp. exists (List.filter g l), []. rewrite !app_nil_r.
    assert (List.filter g l = l) as Eg.
    { revert Ed. generalize g as f. clear. intros f. induction l as [|y l IH]; [done|]. cbn.
      destruct (f y); [|done]. intros Ed. by rewrite (IH Ed). }
    split_and!; [done|by apply members_filter|done| |].
    + rewrite Eg. intros y Hy. rewrite <- Eg in Hy. apply list_elem_of_In, filter_In in Hy as [_ Hy]. unfold g in Hy. lia.
    + intros d _ Hd _ y Hy. rewrite Eg. by apply Hd.
  - destruct (IH (List.filter g l) (pruned ++ y0 :: d0)) as (l' & dr & -> & M' & Hp' & Q & G).
    + by apply members_filter.
    + rewrite Forall_forall in *. intros y Hy. apply list_elem_of_In, filter_In in Hy as [Hy _].
      apply La. by apply list_elem_of_In.
    + apply Permutation_length in Hp. rewrite length_app in Hp. cbn in Hp. lia.
    + exists l', (y0 :: d0 ++ dr). rewrite <- app_assoc. split_and!; [done|done| |done|].
      * rewrite Hp, Hp' at 1. rewrite <- app_assoc. f_equiv. by rewrite Permutation_app_comm.
      * intros d Md Hd Qd. apply G; [done| |done]. intros y Hy. apply list_elem_of_In, filter_In.
        split; [by apply list_elem_of_In, Hd|]. unfold g. specialize (Qd y Hy).
        pose proof (luw_sub sns d l y Md M Hd). lia.
Qed.

Lemma prune_committee_spec {E} sns q l : length sns = n -> members l -> Forall has_latest l -> exists l' dropped,
    prune_committee (E:=E) s latest {| sequence_numbers := sns |} q l = Ok (l', dropped) /\
    members l' /\ l ≡ₚ l' ++ dropped /\ quorate sns q l' /\
    forall d, members d -> (forall y, y ∈ d -> y ∈ l) -> quorate sns q d -> forall y, y ∈ d -> y ∈ l'.
Proof. intros Hl M La. apply (prune_loop_spec sns q (S (length l)) Hl l []); [done|done|lia]. Qed.

Lemma vm_set_all {E A} (l : list (ValidatorIndex * A)) : forall m : ValidatorMap (option A),
  NoDup l.*1 -> Forall (fun e => (e.1 < length m)%nat) l ->
  exists m', fold_res (E:=E) (fun m e => vm_set m e.1 (Some e.2)) m l = Ok m' /\ length m' = length m /\
    (forall y x, (y, x) ∈ l -> m' !! y = Some (Some x)) /\
    (forall y, y ∉ l.*1 -> m' !! y = m !! y).
Proof.
  induction l as [|[y x] l IH]; intros m Hd Hl; cbn [fold_res].
  { exists m. split_and!; [done|done|set_solver|done]. }
  cbn in Hd. apply NoDup_cons in Hd as [Hy Hd]. inversion Hl as [|? ? Hlt Hl']; subst. cbn in Hlt.
  cbn [fst snd].
  assert (vm_set (E:=E) m y (Some x) = Ok (<[y := Some x]> m)) as ->
    by (unfold vm_set; by rewrite (proj2 (Nat.ltb_lt _ _))).
  cbn [mbind res_bind].
  destruct (IH (<[y:=Some x]> m)) as (m' & -> & Hlen & Hin & Hout); [done|by rewrite length_insert|].
  exists m'. rewrite length_insert in Hlen. split_and!; [done|done| |].
  - intros z v [[= -> ->]|Hz]%elem_of_cons; [|by apply Hin]. rewrite Hout by done.
    by apply list_lookup_insert_eq.
  - intros z Hz. cbn in Hz. rewrite Hout by set_solver. apply list_lookup_insert_ne. set_solver.
Qed.

Lemma next_from_committee_spec {E} sns q l : length sns = n -> members l -> Forall has_latest l ->
  exists sns', next_from_committee (E:=E) s latest {| sequence_numbers := sns |} q l =
      Ok {| sequence_numbers := sns' |} /\ length sns' = n /\
    (forall y h, y ∈ l -> latest !! y = Some (Some h) ->
       exists r, sns' !! y = Some r /\ streak_of (fun u => q <=? seenw sns l u) h r) /\
    (forall y, (y < n)%nat -> y ∉ l -> sns' !! y = Some None).
Proof.
  intros Hl M La. unfold next_from_committee.
  set (P := fun u => q <=? seenw sns l u).
  set (g := fun y => match latest !! y with Some (Some h) => option_map (pair y) (streak_fn P h) | _ => None end).
  rewrite (omap_res_Ok _ g).
  2: { intros y Hy. rewrite Forall_forall in La. destruct (La y Hy) as [h Eh]. destruct (LA y h Eh) as (u & Eu & _).
       unfold g, vm_index. rewrite Eh. cbn [expect mbind res_bind].
       rewrite (streak_eq _ P h u Eu); [done|]. intros x ux _ Ex. rewrite (seen_weight_eq sns x ux l Hl Ex M). done. }
  cbn [mbind res_bind].
  assert (forall y k, (y, k) ∈ omap g l -> y ∈ l) as Hin.
  { intros y k (z & Hz & Hg)%list_elem_of_omap. unfold g in Hg. destruct (latest !! z) as [[h|]|]; [|done..].
    destruct (streak_fn P h); [|done]. by injection Hg as <- <-. }
  destruct M as [Hd Hm]. rewrite Forall_forall in Hm.
  destruct (vm_set_all (E:=E) (omap g l) (replicate (length latest) None)) as (m & -> & Hlen & Hset & Hkeep).
  - assert (forall l0, (omap g l0).*1 `sublist_of` l0) as Hs.
    { induction l0 as [|y l0 IH]; cbn; [done|]. unfold g at 1.
      destruct (latest !! y) as [[h|]|]; [destruct (streak_fn P h)|..]; cbn;
        first [by apply sublist_skip|by apply sublist_cons]. }
    eapply sublist_NoDup; [exact Hd|apply Hs].
  - apply Forall_forall. intros [y k] Hy. cbn. rewrite length_replicate, LL. eapply Hm, Hin, Hy.
  - cbn [mbind res_bind]. exists m. rewrite length_replicate in Hlen. split_and!; [done|lia| |].
    + intros y h Hy Eh. destruct (LA y h Eh) as (u & Eu & _). pose proof (streak_fn_spec P h u Eu) as St.
      exists (streak_fn P h). split; [|done]. destruct (streak_fn P h) as [k|] eqn:Ek.
      * apply Hset. apply list_elem_of_omap. exists y. split; [done|]. unfold g. by rewrite Eh, Ek.
      * rewrite Hkeep; [apply lookup_replicate; split; [done|]; rewrite LL; by apply Hm|].
        intros ([z k] & -> & (z' & Hz' & Hg)%list_elem_of_omap)%list_elem_of_fmap. cbn in *.
        unfold g in Hg. destruct (decide (z' = z)) as [->|Hne]; [by rewrite Eh, Ek in Hg|].
        destruct (latest !! z') as [[h'|]|]; [|done..]. destruct (streak_fn P h'); [|done]. by injection Hg as -> _.
    + intros y Hy Hn. rewrite Hkeep; [apply lookup_replicate; split; [done|lia]|].
      intros ([z k] & -> & Hz)%list_elem_of_fmap. apply Hn. by eapply Hin.
Qed.

Lemma keys_some_spec {A} (m : ValidatorMap (option A)) :
  NoDup (keys_some m) /\ forall y, y ∈ keys_some m <-> exists x, m !! y = Some (Some x).
Proof.
  split.
  - unfold keys_some, iter_some, enumerate.
    enough (forall k, (omap (fun p : nat * option A => match p.2 with Some x => Some (p.1, x) | None => None end)
      (zip (seq k (length m)) m)).*1 `sublist_of` seq k (length m)) as Hs by (eapply sublist_NoDup; [apply NoDup_seq|apply Hs]).
    induction m as [|[x|] m IH]; intros k; cbn; [done|by apply sublist_skip|by apply sublist_cons].
  - intros y. unfold keys_some. rewrite list_elem_of_fmap. split.
    + intros ([z x] & -> & ([z' o] & Hz & Ho)%list_elem_of_omap). cbn in *. destruct o as [x'|]; [|done].
      injection Ho as -> ->. apply elem_of_enumerate in Hz. by exists x.
    + intros [x Hx]. exists (y, x). split; [done|]. apply list_elem_of_omap. exists (y, Some x).
      split; [by apply elem_of_enumerate|done].
Qed.

(** [l] is the next committee after the horizon [sns], and [sns'] its horizon. *)
Record next_level sns (q : Z) l sns' : Prop := {
  nl_members : members l;
  nl_keys y : y ∈ l -> exists k, sns !! y = Some (Some k);
  nl_quorate : quorate sns q l;
  nl_greatest d : members d -> (forall y, y ∈ d -> exists k, sns !! y = Some (Some k)) -> quorate sns q d ->
    forall y, y ∈ d -> y ∈ l;
  nl_len : length sns' = n;
  nl_start y h : y ∈ l -> latest !! y = Some (Some h) ->
    exists r, sns' !! y = Some r /\ streak_of (fun u => q <=? seenw sns l u) h r;
  nl_others y : (y < n)%nat -> y ∉ l -> sns' !! y = Some None;
}.

Lemma horizon_next_spec {E} sns q : length sns = n -> (forall y k, sns !! y = Some (Some k) -> has_latest y) ->
  exists r, horizon_next (E:=E) s latest q {| sequence_numbers := sns |} = Ok r /\
    match r with
    | None => exists sns', next_level sns q [] sns'
    | Some hz' => exists l, l <> [] /\ next_level sns q l (sequence_numbers hz')
    end.
Proof.
  intros Hl Hk. unfold horizon_next. cbn [sequence_numbers]. destruct (keys_some_spec sns) as [Kd Ks].
  destruct (prune_committee_spec (E:=E) sns q (keys_some sns)) as (l & dr & -> & M & Hp & Q & G).
  - done.
  - split; [done|]. apply Forall_forall. intros y [x Hx]%Ks. rewrite <- Hl. by eapply lookup_lt_Some.
  - apply Forall_forall. intros y [x Hx]%Ks. by eapply Hk.
  - cbn [mbind res_bind].
    assert (forall y, y ∈ l -> exists k, sns !! y = Some (Some k)) as Hks.
    { intros y Hy. apply Ks. rewrite Hp. set_solver. }
    assert (forall d, members d -> (forall y, y ∈ d -> exists k, sns !! y = Some (Some k)) -> quorate sns q d ->
      forall y, y ∈ d -> y ∈ l) as G'.
    { intros d Md Hd Qd. apply G; [done| |done]. intros y Hy. by apply Ks, Hd. }
    assert (Forall has_latest l) as La.
    { apply Forall_forall. intros y Hy. destruct (Hks y Hy) as [k Hk']. by eapply Hk. }
    destruct (next_from_committee_spec (E:=E) sns q l Hl M La) as (sns' & Hn & Hlen & Hst & Hoth).
    destruct l as [|y0 l]; [by exists None; eauto using next_level|]. rewrite Hn. cbn. eexists. split; [done|].
    exists (y0 :: l). by split.
Qed.

Lemma next_level_keys sns q l sns' y k : next_level sns q l sns' -> sns' !! y = Some (Some k) -> y ∈ l.
Proof.
  intros N Hy. destruct (decide (y ∈ l)) as [|Hn]; [done|].
  rewrite (nl_others _ _ _ _ N y) in Hy; [done| |done]. rewrite <- (nl_len _ _ _ _ N). by eapply lookup_lt_Some.
Qed.

(** A member's latest unit sees a quorum, so that its entry exists. *)
Lemma next_level_entry sns q l sns' y h : next_level sns q l sns' -> y ∈ l -> latest !! y = Some (Some h) ->
  exists k, sns' !! y = Some (Some k) /\ streak_of (fun u => q <=? seenw sns l u) h (Some k).
Proof.
  intros N Hy Eh. destruct (nl_start _ _ _ _ N y h Hy Eh) as (r & Er & St). destruct r as [k|]; [by exists k|].
  exfalso. destruct (LA y h Eh) as (u & Eu & _). specialize (St u Eu). cbn in St.
  pose proof (nl_quorate _ _ _ _ N y Hy) as Hq. unfold luw in Hq. rewrite Eh, Eu in Hq. lia.
Qed.

(** A horizon that reaches down at least as far. *)
Definition deeper sns sns2 : Prop := forall y k, sns !! y = Some (Some k) ->
  exists k2, sns2 !! y = Some (Some k2) /\ k2 <= k.

Lemma cansee_deeper sns sns2 u y : deeper sns sns2 -> cansee sns u y = true -> cansee sns2 u y = true.
Proof.
  intros D. unfold cansee. destruct (sns !! y) as [[k|]|] eqn:Ek; [|done..].
  destruct (D y k Ek) as (k2 & -> & Hk). destruct (creator u =? y)%nat; [lia|].
  destruct (u_panorama u !! y) as [[|v|]|]; [done| |done|done]. destruct (units s !! v); [lia|done].
Qed.

(** With a smaller quorum and a deeper horizon, the next committee is larger and its
    horizon deeper. *)
Lemma next_level_mono sns sns2 q q2 l l2 sns' sns2' : (forall y k, sns !! y = Some (Some k) -> has_latest y) ->
  deeper sns sns2 -> q2 <= q -> next_level sns q l sns' -> next_level sns2 q2 l2 sns2' ->
  (forall y, y ∈ l -> y ∈ l2) /\ deeper sns' sns2'.
Proof.
  intros Hk D Hq N N2. pose proof (nl_members _ _ _ _ N) as M. pose proof (nl_members _ _ _ _ N2) as M2.
  assert (forall u, seenw sns l u <= seenw sns2 l u) as Hse.
  { intros u. apply seenw_mono; [done|]. intros y _. by apply cansee_deeper. }
  assert (forall y, y ∈ l -> y ∈ l2) as Hsub.
  { apply (nl_greatest _ _ _ _ N2 l M).
    - intros y Hy. destruct (nl_keys _ _ _ _ N y Hy) as [k Hy']. destruct (D y k Hy') as (k2 & ? & _). by exists k2.
    - intros y Hy. pose proof (nl_quorate _ _ _ _ N y Hy) as Q. unfold luw in *.
      destruct (latest !! y) as [[h|]|]; [|lia..]. destruct (units s !! h) as [u|]; [|lia]. specialize (Hse u). lia. }
  split; [done|]. intros y k Hy. pose proof (next_level_keys _ _ _ _ _ _ N Hy) as Hin.
  destruct (nl_keys _ _ _ _ N y Hin) as [k0 Hk0]. destruct (Hk y k0 Hk0) as [h Eh].
  destruct (next_level_entry _ _ _ _ y h N Hin Eh) as (k1 & Hk1 & (m & um & Lm & Em & Hm) & All & _).
  rewrite Hy in Hk1. injection Hk1 as <-.
  destruct (next_level_entry _ _ _ _ y h N2 (Hsub y Hin) Eh) as (k2 & Hk2 & _ & _ & Min).
  exists k2. split; [done|]. apply Min; [rewrite <- Hm; apply (seq_range s WF m um Em)|].
  intros x ux Lx Ex Hx. specialize (All x ux Lx Ex Hx). specialize (Hse ux).
  pose proof (seenw_sub sns2 l l2 ux M M2 Hsub). lia.
Qed.

Lemma level0_spec {E} b : block_known s b ->
  exists sns, level0 (E:=E) b s latest = Ok {| sequence_numbers := sns |} /\ length sns = n /\
    (forall y h, latest !! y = Some (Some h) ->
       exists r, sns !! y = Some r /\ streak_of (fun u => supports s b (u_block u)) h r) /\
    (forall y k, sns !! y = Some (Some k) -> has_latest y).
Proof.
  intros [blk Eb]. unfold level0, st_block, maybe_block. rewrite Eb. cbn [expect mbind res_bind].
  assert (ht s b = height blk) as Hh by (unfold ht, rank_of, block_info; by rewrite Eb).
  set (P := fun u => supports s b (u_block u)).
  set (g := fun o : option Hash => match o with Some h => streak_fn P h | None => None end).
  rewrite (map_res_Ok _ g).
  - cbn [mbind res_bind]. exists (g <$> latest). split_and!; [done|by rewrite length_fmap| |].
    + intros y h Eh. rewrite list_lookup_fmap, Eh. cbn. eexists. split; [done|].
      destruct (LA y h Eh) as (u & Eu & _). by eapply streak_fn_spec.
    + intros y k. rewrite list_lookup_fmap. destruct (latest !! y) as [[h|]|] eqn:Eh; cbn; [|done..].
      intros _. by exists h.
  - intros [h|] Hin; [|done]. apply list_elem_of_lookup in Hin as [y Eh]. destruct (LA y h Eh) as (u & Eu & _).
    cbn [g]. apply (streak_eq _ P h u Eu). intros x ux _ Ex.
    destruct (wfu_block _ _ _ (wf_units _ WF _ _ Ex)) as [bx Ebx].
    rewrite (find_ancestor_proposal_eq s WF SM (u_block ux) bx (height blk) Ebx).
    + cbn. unfold P, supports, anc. by rewrite Hh.
    + apply (height_range s WF SM b blk Eb).
Qed.

End Committees.
End Horizons.
