(* ===== verification/HighwaySummit.v ===== *)
(** * Summits are final

    The safety of finality detection: once a summit for a block was found in one
    state, every later state in which less weight than the fault tolerance
    threshold is known to be faulty has that block in its fork choice.

    A summit consists of levels.  Level 0 has the validators that currently vote
    for the block, and the members of level [j + 1] see a quorum of each other's
    units on level [j].  A member of level [j] whose later unit does not vote for the
    block any more must see faults, and the higher its level, the more of them. *)

From S2P Require Import Prelude Highway HighwaySkip HighwayInv HighwayTally HighwayFork HighwayAdd HighwayLeader HighwayValidate HighwayMerge HighwayVotes HighwayVertex HighwayActive HighwayNode HighwayFinality HighwayHorizon.

Local Open Scope Z_scope.

(** ** The causal order is well-founded *)

Section Past.
Context {C : ConsensusContext}.
Variable s : State.
Hypothesis WF : wf s.
Implicit Types (h x l : Hash) (u : Unit) (p q : Panorama).

Definition obs_rank (o : Observation) : Z :=
  match o with
  | ObsNone => 0
  | ObsCorrect h => match units s !! h with Some u => seq_number u + 1 | None => 0 end
  | ObsFaulty => Z.of_nat (size (units s)) + 1
  end.
Definition prank p : Z := zsum (obs_rank <$> p).

Lemma obs_rank_mono o o' : (forall x, o' = ObsCorrect x -> known s x) -> obs_le s o o' ->
  0 <= obs_rank o <= obs_rank o'.
Proof.
  intros K Ho. destruct o as [|x|], o' as [|x'|]; cbn in *; try done; try lia.
  - destruct (units s !! x') as [u'|] eqn:E'; [|lia]. pose proof (seq_range s WF x' u' E'). lia.
  - destruct (K x' eq_refl) as [u' E']. destruct (lane_le_known s WF _ _ Ho) as [u E]; [by eexists|].
    rewrite E, E'. destruct (lane_le_seq s WF x' x u' u Ho E' E) as (_ & ? & _). pose proof (seq_range s WF x u E). lia.
  - destruct (units s !! x) as [u|] eqn:E; [|lia]. pose proof (seq_range s WF x u E). lia.
Qed.

Lemma prank_mono p q : cites_known s q -> pan_le s p q -> 0 <= prank p <= prank q.
Proof.
  intros K L. unfold prank.
  assert (Forall (fun o => forall x, o = ObsCorrect x -> known s x) q) as Kq.
  { apply Forall_lookup. intros i o Ho x ->. by eapply K. }
  clear K. induction L as [|o o' p q Ho L IH]; [done|]. inversion Kq as [|? ? K Kq']; subst.
  pose proof (obs_rank_mono o o' K Ho). specialize (IH Kq'). unfold zsum in *. cbn. lia.
Qed.

Lemma prank_strict p q i o o' : cites_known s q -> pan_le s p q -> p !! i = Some o -> q !! i = Some o' ->
  obs_rank o < obs_rank o' -> prank p < prank q.
Proof.
  intros K L Hi Hi' Hlt. unfold prank.
  assert (Forall (fun o => forall x, o = ObsCorrect x -> known s x) q) as Kq.
  { apply Forall_lookup. intros j oj Ho x ->. by eapply K. }
  clear K. revert i Hi Hi'. induction L as [|a a' p q Ha L IH]; intros i Hi Hi'; [done|].
  inversion Kq as [|? ? Kh Kq']; subst. pose proof (obs_rank_mono a a' Kh Ha) as Hm.
  assert (zsum (obs_rank <$> p) <= zsum (obs_rank <$> q)) as Hle.
  { clear -L Kq' WF. induction L as [|a a' p q Ha L IH]; [done|]. inversion Kq' as [|? ? Kh Kq2]; subst.
    pose proof (obs_rank_mono a a' Kh Ha). specialize (IH Kq2). unfold zsum in *. cbn. lia. }
  destruct i as [|i]; cbn in Hi, Hi'.
  - injection Hi as ->. injection Hi' as ->. unfold zsum in *. cbn. lia.
  - specialize (IH Kq' i Hi Hi'). unfold zsum in *. cbn. lia.
Qed.

(** What a unit sees has a smaller panorama. *)
Lemma seen_pan_le p x ux l : valid_pan s p -> units s !! x = Some ux ->
  p !! creator ux = Some (ObsCorrect l) -> lane_le s x l -> pan_le s (u_panorama ux) p.
Proof.
  intros V Ex Hl L. destruct (vp_entries _ _ V _ _ Hl) as (ul & El & _ & Hle).
  eapply pan_le_trans; [|exact Hle]. by eapply lane_pan_le.
Qed.

Lemma seen_prank p x ux l : valid_pan s p -> units s !! x = Some ux ->
  p !! creator ux = Some (ObsCorrect l) -> lane_le s x l -> 0 <= prank (u_panorama ux) < prank p.
Proof.
  intros V Ex Hl L. pose proof (seen_pan_le p x ux l V Ex Hl L) as Hle. pose proof (valid_pan_cites _ _ V) as K.
  split; [by eapply prank_mono|]. pose proof (wfu_own _ _ _ (wf_units _ WF _ _ Ex)) as Ho.
  eapply prank_strict; [done|done|exact Ho|exact Hl|]. destruct (K _ _ Hl) as [ul El].
  destruct (lane_le_seq s WF l x ul ux L El Ex) as (_ & Hs & _). pose proof (seq_range s WF x ux Ex) as Hr.
  cbn [obs_rank]. rewrite El. destruct (Unit_previous ux) as [pr|] eqn:Ep; cbn [obs_rank]; [|lia].
  destruct (pred_known s WF 1 x ux pr Ex) as (up & Eup & _ & Hsq).
  { cbn. by rewrite (next_of_unit s x ux Ex), Ep. }
  rewrite Eup. cbn in Hsq. lia.
Qed.

(** ** Votes by weight *)

(** The block a panorama's entry votes for. *)
Definition vote_at p (y : ValidatorIndex) : option Hash :=
  match p !! y with Some (ObsCorrect x) => u_block <$> units s !! x | _ => None end.

Lemma score_wt (P : Hash -> bool) p : length p = length (weights s) ->
  score P (correct_votes s p) =
  wt (weights s) (fun y => match vote_at p y with Some v => P v | None => false end).
Proof.
  unfold correct_votes, wt, vote_at. intros Hl.
  enough (forall ws p i f, length p = length ws ->
    (forall j, f (i + j)%nat = match p !! j with Some (ObsCorrect x) => u_block <$> units s !! x | _ => None end) ->
    score P (omap (fun e => match obs_correct e.1 ≫= (units s !!.) with
                 | Some u => Some (u_block u, e.2) | None => None end) (zip p ws)) =
    wt_from i ws (fun y => match f y with Some v => P v | None => false end)) as G by (by apply G).
  clear p Hl. induction ws as [|w ws IH]; intros p i f Hl Hf; destruct p as [|o p]; try done.
  cbn [zip zip_with omap list_omap wt_from fst snd]. pose proof (Hf 0%nat) as H0. rewrite Nat.add_0_r in H0. rewrite H0.
  rewrite <- (IH p (S i) f); [|cbn in Hl; lia|intros j; replace (S i + j)%nat with (i + S j)%nat by lia; apply (Hf (S j))].
  cbn. destruct o as [|x|]; cbn; [done| |done]. destruct (units s !! x) as [u|]; cbn; [|done].
  by destruct (P (u_block u)).
Qed.

End Past.

(** ** Levels of a summit *)

Section Safety.
Context {C : ConsensusContext}.
Variables s s' : State.
Hypothesis WF : wf s.
Hypothesis SM : small s.
Hypothesis WO : weights_ok s.
Hypothesis WF' : wf s'.
Hypothesis SM' : small s'.
Hypothesis EX : extends s s'.
Hypothesis VF : votes_follow s'.
Implicit Types (h x l m : Hash) (u : Unit) (p : Panorama) (y z : ValidatorIndex) (j : nat).

Local Notation n := (length (weights s)).

Lemma latest_len : length (latest_of s) = n.
Proof. unfold latest_of. rewrite length_fmap. apply (wf_pan_len _ WF). Qed.

Lemma latest_spec y h : latest_of s !! y = Some (Some h) <-> panorama s !! y = Some (ObsCorrect h).
Proof.
  unfold latest_of. rewrite list_lookup_fmap. destruct (panorama s !! y) as [[]|]; cbn; split; congruence.
Qed.

Lemma latest_known y h : latest_of s !! y = Some (Some h) -> exists u, units s !! h = Some u /\ creator u = y.
Proof. rewrite latest_spec. intros Hp. apply (wf_latest _ WF _ _ Hp). Qed.

Lemma lane_of y l x ux : panorama s !! y = Some (ObsCorrect l) -> units s !! x = Some ux -> creator ux = y ->
  lane_le s x l.
Proof. intros Hp Ex Hc. destruct (wf_latest _ WF _ _ Hp) as [_ L]. by eapply L. Qed.

Lemma seen_faulty x ux y : units s !! x = Some ux -> u_panorama ux !! y = Some ObsFaulty ->
  panorama s !! y = Some ObsFaulty.
Proof. intros Ex Hf. apply (wf_faults _ WF). by apply (wfu_faulty _ _ _ (wf_units _ WF _ _ Ex)). Qed.

(** Units of the earlier state follow majorities, too. *)
Lemma old_follows x ux b : units s !! x = Some ux -> block_known s b -> majority_for s (u_panorama ux) b ->
  supports s b (u_block ux) = true.
Proof.
  intros Ex Kb Hm. pose proof (ext_unit s s' EX x ux Ex) as Ex'.
  pose proof (unit_cites_known s WF x ux Ex) as K.
  assert (forall v, v ∈ (correct_votes s (u_panorama ux)).*1 -> block_known s v) as Kv.
  { intros v Hv. eapply votes_ok_known; [|done]. by apply correct_votes_ok. }
  rewrite <- (ext_supports s s' WF SM EX); [|done|apply (wfu_block _ _ _ (wf_units _ WF _ _ Ex))].
  apply (VF x ux Ex'); [by apply (ext_block_known s s' EX)|].
  unfold majority_for in *. rewrite (ext_votes s s' EX) by done.
  replace (support s' _ b) with (support s (correct_votes s (u_panorama ux)) b); [done|].
  apply score_ext. intros v Hv. symmetry. apply (ext_supports s s' WF SM EX); auto.
Qed.

Variable b : Hash.
Hypothesis Kb : block_known s b.
Variables (q : Z) (k : nat).
Variable sn : nat -> ValidatorMap (option Z).
Variable com : nat -> list ValidatorIndex.
Hypothesis L0_len : length (sn 0) = n.
Hypothesis L0 : forall y h, latest_of s !! y = Some (Some h) ->
  exists r, sn 0%nat !! y = Some r /\ streak_of s (fun u => supports s b (u_block u)) h r.
Hypothesis L0_keys : forall y c, sn 0%nat !! y = Some (Some c) -> has_latest (latest_of s) y.
Hypothesis LS : forall j, (j < k)%nat -> next_level s (latest_of s) (sn j) q (com (S j)) (sn (S j)).
Hypothesis Q2 : zsum (weights s) < 2 * q.

(** What units on level [j] do. *)
Definition lvl_pred j u : bool :=
  match j with O => supports s b (u_block u) | S j => q <=? seenw s (sn j) (com (S j)) u end.

Lemma lvl_len j : (j <= k)%nat -> length (sn j) = n.
Proof. destruct j as [|j]; [done|]. intros Hj. apply (nl_len _ _ _ _ _ _ (LS j ltac:(lia))). Qed.

Lemma lvl_down j y c : (j < k)%nat -> sn (S j) !! y = Some (Some c) -> y ∈ com (S j) /\ exists c', sn j !! y = Some (Some c').
Proof.
  intros Hj Hy. pose proof (next_level_keys _ _ _ _ _ _ _ _ (LS j Hj) Hy) as Hin. split; [done|].
  by apply (nl_keys _ _ _ _ _ _ (LS j Hj)).
Qed.

Lemma lvl_latest j : (j <= k)%nat -> forall y c, sn j !! y = Some (Some c) -> exists l, panorama s !! y = Some (ObsCorrect l).
Proof.
  induction j as [|j IH]; intros Hj y c Hy.
  - destruct (L0_keys y c Hy) as [l Hl]. exists l. by apply latest_spec.
  - destruct (lvl_down j y c ltac:(lia) Hy) as (_ & c' & Hc). by eapply (IH ltac:(lia)).
Qed.

Lemma lvl_streak j y c l : (j <= k)%nat -> sn j !! y = Some (Some c) -> panorama s !! y = Some (ObsCorrect l) ->
  streak_of s (lvl_pred j) l (Some c).
Proof.
  intros Hj Hy Hl%latest_spec. destruct j as [|j].
  - destruct (L0 y l Hl) as (r & Hr & St). rewrite Hy in Hr. by injection Hr as <-.
  - destruct (lvl_down j y c ltac:(lia) Hy) as (Hin & _).
    destruct (nl_start _ _ _ _ _ _ (LS j ltac:(lia)) y l Hin Hl) as (r & Hr & St).
    rewrite Hy in Hr. by injection Hr as <-.
Qed.

(** Members of the next committee are on its level. *)
Lemma lvl_entry j y : (j < k)%nat -> y ∈ com (S j) -> exists c, sn (S j) !! y = Some (Some c).
Proof.
  intros Hj Hy. destruct (nl_keys _ _ _ _ _ _ (LS j Hj) y Hy) as [c Hc].
  destruct (lvl_latest j ltac:(lia) y c Hc) as [l Hl].
  destruct (next_level_entry s _ latest_len latest_known _ _ _ _ y l (LS j Hj) Hy) as (c' & Hc' & _);
    [by apply latest_spec|by exists c'].
Qed.

Lemma members_of j : (j < k)%nat -> members s (com (S j)).
Proof. intros Hj. apply (nl_members _ _ _ _ _ _ (LS j Hj)). Qed.

Lemma q_pos : 0 < q.
Proof. pose proof (zsum_nonneg _ (weights_nonneg s WO)). lia. Qed.

(** A unit that sees a quorum sees somebody. *)
Lemma quorum_inhabited sns (cm : list ValidatorIndex) u : q <= seenw s sns cm u -> exists y, y ∈ cm /\ cansee s sns u y = true.
Proof.
  unfold seenw. intros Hq. destruct (List.filter (cansee s sns u) cm) as [|y cm'] eqn:E.
  - cbn in Hq. pose proof q_pos. unfold list_wt, zsum in Hq. cbn in Hq. lia.
  - exists y. assert (In y (List.filter (cansee s sns u) cm)) as Hy by (rewrite E; by left).
    apply filter_In in Hy as [Hy Hc]. split; [by apply list_elem_of_In|done].
Qed.

(** The units seen on a level, as entries of the panorama. *)
Lemma cansee_cases j x ux y : (j <= k)%nat -> units s !! x = Some ux -> cansee s (sn j) ux y = true ->
  exists c, sn j !! y = Some (Some c) /\
    ((creator ux = y /\ c <= seq_number ux) \/
     exists v uv, u_panorama ux !! y = Some (ObsCorrect v) /\ units s !! v = Some uv /\ creator uv = y /\ c <= seq_number uv).
Proof.
  intros Hj Ex. unfold cansee. destruct (sn j !! y) as [[c|]|]; [|done..]. intros Hc. exists c. split; [done|].
  destruct (Nat.eqb_spec (creator ux) y); [left; split; [done|lia]|right].
  destruct (u_panorama ux !! y) as [[|v|]|] eqn:Hp; [done| |done..].
  destruct (wfu_entries _ _ _ (wf_units _ WF _ _ Ex) _ _ Hp) as (uv & Ev & Hcr & _). rewrite Ev in Hc.
  exists v, uv. split_and!; [done..|lia].
Qed.

Lemma cansee_intro j x ux y c v uv : units s !! x = Some ux -> sn j !! y = Some (Some c) ->
  u_panorama ux !! y = Some (ObsCorrect v) -> units s !! v = Some uv -> c <= seq_number uv ->
  cansee s (sn j) ux y = true.
Proof.
  intros Ex Hc Hp Ev Hle. unfold cansee. rewrite Hc. destruct (Nat.eqb_spec (creator ux) y) as [Hy|].
  - pose proof (wfu_own _ _ _ (wf_units _ WF _ _ Ex)) as Ho. rewrite Hy, Hp in Ho.
    destruct (Unit_previous ux) as [pr|] eqn:Ep; [|done]. injection Ho as ->.
    destruct (pred_known s WF 1 x ux pr Ex) as (up & Eup & _ & Hsq).
    { cbn. by rewrite (next_of_unit s x ux Ex), Ep. }
    assert (up = uv) as -> by congruence. cbn in Hsq. lia.
  - rewrite Hp, Ev. lia.
Qed.

(** A unit sees what the units it sees do. *)
Lemma cansee_trans j x ux v uv y : (j <= k)%nat -> units s !! x = Some ux -> units s !! v = Some uv ->
  u_panorama ux !! creator uv = Some (ObsCorrect v) -> cansee s (sn j) uv y = true -> cansee s (sn j) ux y = true.
Proof.
  intros Hj Ex Ev Hp Hc. destruct (cansee_cases j v uv y Hj Ev Hc) as (c & Hy & [[Hcr Hle]|(t & ut & Hpt & Et & Hct & Hle)]).
  - eapply cansee_intro; [done|done| |exact Ev|done]. by rewrite <- Hcr.
  - destruct (wfu_entries _ _ _ (wf_units _ WF _ _ Ex) _ _ Hp) as (uv' & Ev' & _ & L & _).
    assert (uv' = uv) as -> by congruence.
    destruct (lookup_lt_is_Some_2 (u_panorama ux) y) as [o Ho].
    { rewrite (wfu_len _ _ _ (wf_units _ WF _ _ Ex)), <- (lvl_len j Hj). by eapply lookup_lt_Some. }
    pose proof (pan_le_at s _ _ y _ _ L Hpt Ho) as Lo. destruct o as [|t'|]; [done| |].
    + destruct (unit_cites_known s WF x ux Ex y t' Ho) as [ut' Et'].
      destruct (lane_le_seq s WF t' t ut' ut Lo Et' Et) as (_ & Hs & _).
      eapply cansee_intro; [done|done|exact Ho|exact Et'|lia].
    + exfalso. destruct (lvl_latest j Hj y c Hy) as [l Hl]. rewrite (seen_faulty x ux y Ex Ho) in Hl. done.
Qed.

(** A unit on level [j + 1] is on level [j]. *)
Lemma pred_down j y l x ux c : (j < k)%nat -> sn (S j) !! y = Some (Some c) -> panorama s !! y = Some (ObsCorrect l) ->
  lane_le s x l -> units s !! x = Some ux -> c <= seq_number ux -> lvl_pred j ux = true.
Proof.
  intros Hj Hy Hl Lx Ex Hc. destruct (lvl_streak (S j) y c l ltac:(lia) Hy Hl) as (_ & Hall & _).
  specialize (Hall x ux Lx Ex Hc). cbn [lvl_pred] in Hall. apply Z.leb_le in Hall.
  destruct (wf_latest _ WF _ _ Hl) as [(ul & El & Hcl) _].
  destruct (lane_le_seq s WF l x ul ux Lx El Ex) as (Hcx & _ & _). rewrite Hcl in Hcx.
  destruct j as [|j]; cbn [lvl_pred].
  - (* Either the unit is on level 0 itself, or a majority of what it sees votes for the block. *)
    destruct (cansee s (sn 0) ux y) eqn:Ecs.
    + destruct (cansee_cases 0 x ux y ltac:(lia) Ex Ecs) as (c0 & Hc0 & Hcase).
      destruct (lvl_streak 0 y c0 l ltac:(lia) Hc0 Hl) as (_ & Hall0 & _). apply (Hall0 x ux Lx Ex).
      destruct Hcase as [[_ ?]|(v & uv & Hp & Ev & _ & Hle)]; [done|].
      pose proof (cansee_intro 0 x ux y c0 v uv Ex Hc0 Hp Ev Hle) as Hcs. unfold cansee in Hcs.
      rewrite Hc0, (proj2 (Nat.eqb_eq _ _) Hcx) in Hcs. lia.
    + apply (old_follows x ux b Ex Kb). unfold majority_for.
      pose proof (wfu_len _ _ _ (wf_units _ WF _ _ Ex)) as Hlen.
      unfold support. rewrite !score_wt by done.
      assert (seenw s (sn 0) (com 1) ux <= wt (weights s) (fun z : ValidatorIndex => match vote_at s (u_panorama ux) z with
        | Some v => supports s b v | None => false end)) as Hs.
      { unfold seenw. destruct (members_filter s (cansee s (sn 0) ux) (com 1) (members_of 0 Hj)) as [D1 D2].
        rewrite list_wt_eq by done. apply wt_le; [by apply weights_nonneg|]. intros z _.
        rewrite bool_decide_eq_true. intros Hz%list_elem_of_In%filter_In. destruct Hz as [_ Hz].
        destruct (cansee_cases 0 x ux z ltac:(lia) Ex Hz) as (c0 & Hc0 & [[Hcz Hle]|(v & uv & Hp & Ev & Hcv & Hle)]).
        { subst z. rewrite Hcx in Hz. congruence. }
        unfold vote_at. rewrite Hp, Ev. cbn. destruct (lvl_latest 0 ltac:(lia) z c0 Hc0) as [lz Hlz].
        destruct (lvl_streak 0 z c0 lz ltac:(lia) Hc0 Hlz) as (_ & Hall0 & _).
        apply (Hall0 v uv); [by eapply lane_of|done|done]. }
      assert (wt (weights s) (fun z : ValidatorIndex => match vote_at s (u_panorama ux) z with Some v => anyb v | None => false end)
        <= zsum (weights s)) as Ht.
      { rewrite <- wt_all. by apply wt_le; [apply weights_nonneg|]. }
      lia.
  - destruct (quorum_inhabited _ _ _ Hall) as (z & Hz & Hcz).
    destruct (cansee_cases (S j) x ux z ltac:(lia) Ex Hcz) as (cz & Hcz' & Hcase).
    destruct (lvl_latest (S j) ltac:(lia) z cz Hcz') as [lz Hlz].
    destruct (lvl_streak (S j) z cz lz ltac:(lia) Hcz' Hlz) as (_ & Hallz & _).
    destruct Hcase as [[Hcx' Hle]|(v & uv & Hp & Ev & Hcv & Hle)].
    + apply (Hallz x ux); [eapply lane_of; [done|done|congruence]|done|done].
    + pose proof (Hallz v uv ltac:(by eapply lane_of) Ev Hle) as Hv. cbn [lvl_pred] in Hv |- *.
      apply Z.leb_le in Hv. apply Z.leb_le. etrans; [exact Hv|]. apply (seenw_mono s WO); [apply members_of; lia|].
      intros w _ Hw. eapply (cansee_trans j x ux v uv); [lia|done|done|by rewrite Hcv|done].
Qed.

Lemma lvl_mono j y c c' : (j < k)%nat -> sn (S j) !! y = Some (Some c) -> sn j !! y = Some (Some c') -> c' <= c.
Proof.
  intros Hj Hy Hy'. destruct (lvl_latest (S j) ltac:(lia) y c Hy) as [l Hl].
  destruct (lvl_streak j y c' l ltac:(lia) Hy' Hl) as (_ & _ & Hmax). apply Hmax.
  - destruct (lvl_streak (S j) y c l ltac:(lia) Hy Hl) as ((m & um & _ & Em & <-) & _). apply (seq_range s WF m um Em).
  - intros x ux Lx Ex Hc. by eapply pred_down.
Qed.

(** ** Units above a level *)

(** [m] is the unit that puts [y] on level [j]. *)
Definition lev j y m : Prop := exists um l, units s !! m = Some um /\ sn j !! y = Some (Some (seq_number um)) /\
  panorama s !! y = Some (ObsCorrect l) /\ lane_le s m l.

(** [x] is on that level or, in the later state, above it. *)
Definition up j y x : Prop := exists m, lev j y m /\ lane_le s' m x.

Lemma lev_exists j y c : (j <= k)%nat -> sn j !! y = Some (Some c) -> exists m, lev j y m.
Proof.
  intros Hj Hy. destruct (lvl_latest j Hj y c Hy) as [l Hl].
  destruct (lvl_streak j y c l Hj Hy Hl) as ((m & um & Lm & Em & <-) & _). by exists m, um, l.
Qed.

Lemma lev_below j y m c x ux : lev j y m -> sn j !! y = Some (Some c) -> units s !! x = Some ux -> creator ux = y ->
  c <= seq_number ux -> lane_le s m x.
Proof.
  intros (um & l & Em & Hc & Hl & Lm) Hc' Ex Hcr Hle. rewrite Hc in Hc'. injection Hc' as <-.
  pose proof (lane_of y l x ux Hl Ex Hcr) as Lx. destruct (lane_le_total s l m x Lm Lx) as [|L]; [done|].
  destruct (lane_le_seq s WF m x um ux L Em Ex) as (_ & ? & Heq). rewrite (Heq ltac:(lia)). apply lane_le_refl.
Qed.

Lemma lev_down j y m : (j < k)%nat -> lev (S j) y m -> exists m', lev j y m' /\ lane_le s m' m.
Proof.
  intros Hj (um & l & Em & Hc & Hl & Lm). destruct (lvl_down j y _ Hj Hc) as (_ & c' & Hc').
  destruct (lev_exists j y c' ltac:(lia) Hc') as [m' Hm']. exists m'. split; [done|].
  eapply lev_below; [done|done|exact Em| |by eapply lvl_mono].
  destruct (wf_latest _ WF _ _ Hl) as [(ul & El & <-) _]. apply (lane_le_seq s WF l m ul um Lm El Em).
Qed.

Lemma lev_known j y m : lev j y m -> known s m.
Proof. intros (um & _ & Em & _). by exists um. Qed.

Lemma up_down j y x : (j < k)%nat -> up (S j) y x -> up j y x.
Proof.
  intros Hj (m & Hm & L). destruct (lev_down j y m Hj Hm) as (m' & Hm' & L'). exists m'. split; [done|].
  eapply lane_le_trans; [|exact L]. apply (ext_lane s s' WF EX); [by eapply lev_known|done].
Qed.

Lemma up_zero j y x : (j <= k)%nat -> up j y x -> up 0 y x.
Proof. induction j as [|j IH]; [done|]. intros Hj Hu. apply IH; [lia|]. apply up_down; [lia|done]. Qed.

Lemma up_trans j y x x' : up j y x -> lane_le s' x x' -> up j y x'.
Proof. intros (m & Hm & L) L'. exists m. split; [done|]. by eapply lane_le_trans. Qed.

(** Up to the latest unit of the earlier state, units on level 0 vote for the block. *)
Lemma up_votes y x ux l : up 0 y x -> panorama s !! y = Some (ObsCorrect l) -> lane_le s' x l ->
  units s' !! x = Some ux -> supports s' b (u_block ux) = true.
Proof.
  intros (m & (um & l' & Em & Hc & Hl' & Lm) & L) Hl Lx Ex'. rewrite Hl in Hl'. injection Hl' as <-.
  destruct (wf_latest _ WF _ _ Hl) as [(ul & El & Hcl) _].
  assert (known s x) as [ux' Ex]. { eapply (ext_lane_known s s' WF EX); [|exact Lx]. by exists ul. }
  pose proof (ext_unit s s' EX x ux' Ex) as Ex2. rewrite Ex' in Ex2. injection Ex2 as <-.
  destruct (lvl_streak 0 y _ l ltac:(lia) Hc Hl) as (_ & Hall & _).
  apply (ext_lane s s' WF EX) in L; [|by eexists]. apply (ext_lane s s' WF EX) in Lx; [|by exists ul].
  destruct (lane_le_seq s WF x m ux um L Ex Em) as (_ & Hle & _). specialize (Hall x ux Lx Ex Hle). cbn in Hall.
  rewrite (ext_supports s s' WF SM EX); [done|done|apply (wfu_block _ _ _ (wf_units _ WF _ _ Ex))].
Qed.

(** ** The cost of defection *)

(** [x] is on neither side of the latest unit by [y] in the earlier state. *)
Definition off y x : Prop :=
  exists l, panorama s !! y = Some (ObsCorrect l) /\ ~ lane_le s' x l /\ ~ lane_le s' l x.

(** The panorama sees that [y] is faulty, or the defection of an equivocator. *)
Definition exposed p y : Prop :=
  p !! y = Some ObsFaulty \/
  exists l x ux, p !! y = Some (ObsCorrect l) /\ lane_le s' x l /\ units s' !! x = Some ux /\
    supports s' b (u_block ux) = false /\ up 0 y x /\ off y x.

Lemma exposed_mono p p' y : length p = length p' -> pan_le s' p p' -> exposed p y -> exposed p' y.
Proof.
  intros Hlen L He.
  assert (exists o', p' !! y = Some o') as [o' Ho'].
  { apply lookup_lt_is_Some_2. rewrite <- Hlen. destruct He as [He|(l & _ & _ & He & _)]; by eapply lookup_lt_Some. }
  destruct He as [He|(l & x & ux & Hl & Lx & Ex & Hd & Hu & Ho)].
  - left. pose proof (pan_le_at s' _ _ y _ _ L He Ho') as Lo. by destruct o'.
  - pose proof (pan_le_at s' _ _ y _ _ L Hl Ho') as Lo. destruct o' as [|l'|]; [done| |by left].
    right. exists l', x, ux. split_and!; [done| |done..]. by eapply lane_le_trans.
Qed.

Lemma cost_base a w t : 1 <= a -> 0 <= w -> t <= w -> (a - 1) * t <= a * w.
Proof. nia. Qed.

Lemma cost_step a w w' e f t : 1 <= a -> (a - 1) * t <= a * w' -> f <= w' -> w = w' + e -> t <= 2 * e + f ->
  (2 * a - 1) * t <= 2 * a * w.
Proof. nia. Qed.

(** Members of [Q] that a panorama sees voting against the block, and faulty validators. *)
Definition turned p (Q : nat -> bool) y : bool :=
  Q y && match vote_at s' p y with Some v => negb (supports s' b v) | None => false end.
Definition faulty_in p y : bool := bool_decide (p !! y = Some ObsFaulty).

(** Against a quorum that was seen voting for the block, others must have turned. *)
Lemma quorum_turned p Q : length p = n -> cites_known s' p -> ~ majority_for s' p b -> q <= wt (weights s) Q ->
  (forall y, Q y = true -> p !! y = Some ObsFaulty \/ exists w, p !! y = Some (ObsCorrect w)) ->
  2 * q - zsum (weights s) <= 2 * wt (weights s) (turned p Q) + wt (weights s) (faulty_in p).
Proof.
  intros Hlen K Hm Hq HQ. pose proof (weights_nonneg s WO) as Hw. pose proof (ex_weights _ _ EX) as Ew.
  assert (forall y w, p !! y = Some (ObsCorrect w) -> exists v, vote_at s' p y = Some v) as Hv.
  { intros y w Hp. destruct (K y w Hp) as [uw Ew']. exists (u_block uw). unfold vote_at. by rewrite Hp, Ew'. }
  unfold majority_for, support in Hm. rewrite !score_wt, Ew in Hm by (by rewrite Ew).
  set (B := fun y => match vote_at s' p y with Some v => supports s' b v | None => false end) in *.
  set (V := fun y => match vote_at s' p y with Some v => anyb v | None => false end) in *.
  assert (wt (weights s) V + wt (weights s) (faulty_in p) <= zsum (weights s)) as Ht.
  { rewrite (wt_split _ V (faulty_in p) (fun y => V y || faulty_in p y)).
    - rewrite <- wt_all. by apply wt_le.
    - intros y _. split; [|done]. unfold V, faulty_in, vote_at. destruct (p !! y) as [[|w|]|]; try done.
      rewrite (bool_decide_eq_false_2 (Some (ObsCorrect w) = _)) by done. apply andb_false_r. }
  assert (wt (weights s) Q <= wt (weights s) (fun y => B y || (turned p Q y || faulty_in p y))) as Hs.
  { apply wt_le; [done|]. intros y _ Hy. unfold B, turned, faulty_in. rewrite Hy. cbn.
    destruct (HQ y Hy) as [Hp|[w Hp]]; [rewrite (bool_decide_eq_true_2 _ Hp); by rewrite !orb_true_r|].
    destruct (Hv y w Hp) as [v ->]. by destruct (supports s' b v). }
  pose proof (wt_union (weights s) B (fun y => turned p Q y || faulty_in p y) Hw) as H1.
  pose proof (wt_union (weights s) (turned p Q) (faulty_in p) Hw) as H2.
  cbn beta in H1, H2. lia.
Qed.

(** What a unit above level [j + 1] still sees of the quorum. *)
Lemma quorum_entry j y m um x ux z : (j < k)%nat -> lev (S j) y m -> units s !! m = Some um ->
  units s' !! x = Some ux -> creator ux = y -> lane_le s' m x -> m <> x -> cansee s (sn j) um z = true ->
  u_panorama ux !! z = Some ObsFaulty \/ exists w, u_panorama ux !! z = Some (ObsCorrect w) /\ up j z w.
Proof.
  intros Hj Hm Em Ex Hy L Hne Hc. apply (lane_le_previous s' x ux m Ex) in L as L'.
  destruct L' as [|(pr & Ep & Lp)]; [done|]. pose proof (wfu_own _ _ _ (wf_units _ WF' _ _ Ex)) as Ho. rewrite Ep in Ho.
  pose proof Hm as (um' & l & Em' & _ & Hl & Lm). assert (um' = um) as -> by congruence.
  assert (creator um = y) as Hcm.
  { destruct (wf_latest _ WF _ _ Hl) as [(ul & El & <-) _]. apply (lane_le_seq s WF l m ul um Lm El Em). }
  destruct (cansee_cases j m um z ltac:(lia) Em Hc) as (c & Hz & [[Hcz _]|(v & uv & Hp & Ev & Hcv & Hle)]).
  - right. exists pr. rewrite <- Hcz, Hcm, <- Hy. split; [done|]. apply up_down; [done|]. rewrite Hy. by exists m.
  - pose proof (lane_pan_le s' WF' m x um ux L (ext_unit s s' EX m um Em) Ex) as Lpan.
    destruct (lookup_lt_is_Some_2 (u_panorama ux) z) as [o Hoz].
    { rewrite (wfu_len _ _ _ (wf_units _ WF' _ _ Ex)), (ex_weights _ _ EX), <- (lvl_len j ltac:(lia)).
      by eapply lookup_lt_Some. }
    pose proof (pan_le_at s' _ _ z _ _ Lpan Hp Hoz) as Lo. destruct o as [|w|]; [done| |by left].
    right. exists w. split; [done|]. destruct (lev_exists j z c ltac:(lia) Hz) as [m' Hm'].
    exists m'. split; [done|]. eapply lane_le_trans; [|exact Lo]. apply (ext_lane s s' WF EX); [by exists uv|].
    by eapply lev_below.
Qed.

Definition quorum_of j um y : bool := bool_decide (y ∈ com (S j)) && cansee s (sn j) um y.

Lemma quorum_of_wt j y m um : (j < k)%nat -> lev (S j) y m -> units s !! m = Some um ->
  q <= wt (weights s) (quorum_of j um).
Proof.
  intros Hj (um' & l & Em' & Hc & Hl & Lm) Em. assert (um' = um) as -> by congruence.
  destruct (lvl_streak (S j) y _ l ltac:(lia) Hc Hl) as (_ & Hall & _).
  specialize (Hall m um Lm Em ltac:(lia)). cbn [lvl_pred] in Hall. apply Z.leb_le in Hall.
  unfold seenw in Hall. destruct (members_filter s (cansee s (sn j) um) (com (S j)) (members_of j Hj)) as [D1 D2].
  rewrite list_wt_eq in Hall by done. erewrite (wt_ext _ (quorum_of j um)); [exact Hall|].
  intros z _. unfold quorum_of. apply eq_bool_prop_intro. rewrite andb_True, !bool_decide_spec.
  rewrite !list_elem_of_In, filter_In. by rewrite Is_true_true.
Qed.

(** A unit above level [j] that votes against the block. *)
Definition defector j x ux : Prop :=
  units s' !! x = Some ux /\ up j (creator ux) x /\ supports s' b (u_block ux) = false.

(** The weight of the faults the unit sees is at least [(1 - 1/2^j) (2 q - n)]. *)
Definition costs j ux : Prop :=
  forall F : nat -> bool, (forall y, exposed (u_panorama ux) y -> F y = true) ->
  (2 ^ Z.of_nat j - 1) * (2 * q - zsum (weights s)) <= 2 ^ Z.of_nat j * wt (weights s) F.

Section Defection.
Variable j : nat.
Hypothesis Hj : (S j <= k)%nat.
Hypothesis IHj : forall x ux, defector j x ux -> costs j ux.
Variables (x m : Hash) (ux um : Unit).
Hypothesis Ex : units s' !! x = Some ux.
Hypothesis Hd : supports s' b (u_block ux) = false.
Hypothesis Hm : lev (S j) (creator ux) m.
Hypothesis Em : units s !! m = Some um.
Hypothesis Lm : lane_le s' m x.
Hypothesis IHx : forall x' ux', defector (S j) x' ux' -> prank s' (u_panorama ux') < prank s' (u_panorama ux) ->
  costs (S j) ux'.
Variable F : nat -> bool.
Hypothesis HF : forall y, exposed (u_panorama ux) y -> F y = true.
Hypothesis Hgt : 2 ^ Z.of_nat (S j) * wt (weights s) F <
  (2 ^ Z.of_nat (S j) - 1) * (2 * q - zsum (weights s)).

Local Notation p := (u_panorama ux).
Local Notation E := (turned p (quorum_of j um)).

Lemma df_valid : valid_pan s' p.
Proof. apply (unit_pan_valid s' WF' x ux Ex). Qed.

Lemma df_len x' ux' : units s' !! x' = Some ux' -> length (u_panorama ux') = length p.
Proof.
  intros E'. by rewrite (wfu_len _ _ _ (wf_units _ WF' _ _ E')), (wfu_len _ _ _ (wf_units _ WF' _ _ Ex)).
Qed.

Lemma df_latest_known y l : panorama s !! y = Some (ObsCorrect l) -> known s l.
Proof. intros Hl. destruct (wf_latest _ WF _ _ Hl) as [(ul & El & _) _]. by exists ul. Qed.

(** The unit on level [j + 1] itself votes for the block. *)
Lemma df_strict : m <> x.
Proof.
  intros E. pose proof Hm as (um' & lm & _ & _ & Hlm & Lmm). rewrite E in *.
  assert (up 0 (creator ux) x) as H0 by (apply (up_zero (S j)); [done|]; exists x; split; [done|apply lane_le_refl]).
  rewrite (up_votes (creator ux) x ux lm H0 Hlm) in Hd; [done| |done].
  apply (ext_lane s s' WF EX); [by eapply df_latest_known|done].
Qed.

Lemma df_quorum z : quorum_of j um z = true ->
  p !! z = Some ObsFaulty \/ exists w, p !! z = Some (ObsCorrect w) /\ up j z w.
Proof.
  intros [_ Hz]%andb_true_iff. pose proof df_strict.
  by eapply (quorum_entry j (creator ux) m um x ux z); done || lia.
Qed.

Lemma df_turned z : E z = true -> z ∈ com (S j) /\ exists w uw, p !! z = Some (ObsCorrect w) /\
  units s' !! w = Some uw /\ up j z w /\ supports s' b (u_block uw) = false.
Proof.
  intros [Hz Hv]%andb_true_iff. pose proof Hz as [Hin%bool_decide_eq_true _]%andb_true_iff. split; [done|].
  destruct (df_quorum z Hz) as [Hp|(w & Hp & Hu)]; unfold vote_at in Hv; rewrite Hp in Hv; [done|].
  destruct (units s' !! w) as [uw|] eqn:Ew; [|done]. exists w, uw. apply negb_true_iff in Hv. done.
Qed.

(** Nobody turned above level [j + 1]: that would have cost as much. *)
Lemma df_low z w uw : p !! z = Some (ObsCorrect w) -> units s' !! w = Some uw ->
  supports s' b (u_block uw) = false -> ~ up (S j) z w.
Proof.
  intros Hp Ew Hdw Huw. destruct (vp_entries _ _ df_valid _ _ Hp) as (uw' & Ew' & Hcw & Lw).
  assert (uw' = uw) as -> by congruence. subst z.
  destruct (seen_prank s' WF' p w uw w df_valid Ew Hp (lane_le_refl s' w)) as [_ R1].
  pose proof (IHx w uw ltac:(by split_and!) R1 F) as Hc. apply Z.lt_nge in Hgt. apply Hgt, Hc.
  intros y Hy. apply HF. eapply exposed_mono; [by eapply df_len|exact Lw|done].
Qed.

Lemma df_exposed z : E z = true -> F z = true.
Proof.
  intros Hz. destruct (df_turned z Hz) as (Hin & w & uw & Hp & Ew & Hu & Hdw). apply HF. right. exists w, w, uw.
  pose proof (up_zero j z w ltac:(lia) Hu) as Hu0. split_and!; [done|apply lane_le_refl|done..|].
  destruct (lvl_entry j z ltac:(lia) Hin) as [c Hc]. destruct (lvl_latest (S j) Hj z c Hc) as [l Hl].
  exists l. split_and!; [done| |].
  - intros Lw. by rewrite (up_votes z w uw l Hu0 Hl Lw Ew) in Hdw.
  - intros Lw. apply (df_low z w uw Hp Ew Hdw). destruct (lev_exists (S j) z c Hj Hc) as [mz Hmz].
    exists mz. split; [done|]. pose proof Hmz as (umz & l' & _ & _ & Hl' & Lmz). rewrite Hl in Hl'. injection Hl' as <-.
    eapply lane_le_trans; [|exact Lw]. apply (ext_lane s s' WF EX); [by eapply df_latest_known|done].
Qed.

Lemma df_votes : 2 * q - zsum (weights s) <= 2 * wt (weights s) E + wt (weights s) (faulty_in p).
Proof.
  pose proof df_valid as Vp. apply quorum_turned.
  - by rewrite (vp_len _ _ Vp), (ex_weights _ _ EX).
  - by apply valid_pan_cites.
  - intros Hmaj. rewrite (VF x ux Ex b) in Hd; [done|by apply (ext_block_known s s' EX)|exact Hmaj].
  - eapply quorum_of_wt; [lia|done|done].
  - intros z Hz. destruct (df_quorum z Hz) as [|(w & ? & _)]; [by left|right; by exists w].
Qed.

(** The faults apart from those who turned. *)
Definition others z : bool := F z && negb (E z).

Lemma df_split : wt (weights s) others + wt (weights s) E = wt (weights s) F.
Proof.
  apply wt_split. intros z _. unfold others. pose proof (df_exposed z) as H. destruct (F z), (E z); try done.
  by discriminate H.
Qed.

Lemma df_faulty : wt (weights s) (faulty_in p) <= wt (weights s) others.
Proof.
  apply wt_le; [by apply weights_nonneg|]. intros z _ Hz%bool_decide_eq_true. unfold others.
  rewrite HF by (by left). cbn. apply negb_true_iff, not_true_is_false. intros HEz.
  destruct (df_turned z HEz) as (_ & w & uw & Hp & _). congruence.
Qed.

(** A unit that a validator who turned created above level [j] when it turned. *)
Definition turning x1 ux1 : Prop :=
  exists z w, E z = true /\ p !! z = Some (ObsCorrect w) /\ lane_le s' x1 w /\ defector j x1 ux1 /\ creator ux1 = z.

Lemma turning_pan x1 ux1 : turning x1 ux1 -> pan_le s' (u_panorama ux1) p.
Proof.
  intros (z & w & _ & Hp & L1 & (E1 & _) & Hc). eapply seen_pan_le; [apply WF'|apply df_valid|done|by rewrite Hc|done].
Qed.

(** The first of them sees none of the others turn. *)
Lemma first_turning x1 ux1 y : turning x1 ux1 ->
  (forall x2 ux2, turning x2 ux2 -> prank s' (u_panorama ux1) <= prank s' (u_panorama ux2)) ->
  exposed (u_panorama ux1) y -> E y = true -> False.
Proof.
  intros T Hmin Hy HEy. pose proof (turning_pan x1 ux1 T) as L1p. destruct T as (z & w & _ & _ & _ & (E1 & _) & _).
  destruct (df_turned y HEy) as (_ & wy & uwy & Hpy & Ewy & (my & Hmy & Lmy) & _).
  destruct Hy as [Hy|(l & x2 & ux2 & Hl & L2 & E2 & Hd2 & Hu2 & Hoff)].
  { pose proof (pan_le_at s' _ _ y _ _ L1p Hy Hpy) as Lo. done. }
  pose proof (pan_le_at s' _ _ y _ _ L1p Hl Hpy) as Lo. cbn in Lo.
  assert (lane_le s' x2 wy) as L2w by (by eapply lane_le_trans).
  destruct (lane_le_total s' wy my x2 Lmy L2w) as [L3|L3].
  - assert (creator ux2 = y) as Hc2.
    { destruct (vp_entries _ _ df_valid _ _ Hpy) as (u3 & E3 & <- & _). apply (lane_le_seq s' WF' wy x2 u3 ux2 L2w E3 E2). }
    destruct (seen_prank s' WF' (u_panorama ux1) x2 ux2 l (unit_pan_valid s' WF' x1 ux1 E1) E2) as [_ R1];
      [by rewrite Hc2|done|].
    specialize (Hmin x2 ux2). apply Z.lt_nge in R1. apply R1, Hmin. exists y, wy. split_and!; [done..| |done].
    split_and!; [done| |done]. rewrite Hc2. by exists my.
  - destruct Hoff as (ly & Hly & Hn & _). apply Hn. destruct Hmy as (umy & l' & Emy & _ & Hl' & Lmyl).
    rewrite Hly in Hl'. injection Hl' as <-. eapply lane_le_trans; [exact L3|].
    apply (ext_lane s s' WF EX); [by eapply df_latest_known|done].
Qed.

Lemma pow_facts : 1 <= 2 ^ Z.of_nat j /\ 2 ^ Z.of_nat (S j) = 2 * 2 ^ Z.of_nat j.
Proof. pose proof (Z.pow_pos_nonneg 2 (Z.of_nat j)). rewrite Nat2Z.inj_succ, Z.pow_succ_r; lia. Qed.

Lemma no_turning M : forall x1 ux1, Z.to_nat (prank s' (u_panorama ux1)) = M -> ~ turning x1 ux1.
Proof.
  induction M as [M IHM] using lt_wf_ind. intros x1 ux1 HM T. destruct pow_facts as [Hpow Hpow2].
  pose proof T as (z & w & _ & _ & _ & D1 & _).
  assert (forall x2 ux2, turning x2 ux2 -> prank s' (u_panorama ux1) <= prank s' (u_panorama ux2)) as Hmin.
  { intros x2 ux2 T2. pose proof T2 as (_ & _ & _ & _ & _ & (E2 & _) & _).
    destruct (Z.le_gt_cases (prank s' (u_panorama ux1)) (prank s' (u_panorama ux2))) as [|Hlt]; [done|]. exfalso.
    destruct (prank_mono s' WF' (u_panorama ux2) (u_panorama ux2)) as [R0 _];
      [by eapply unit_cites_known|apply pan_le_refl|].
    eapply (IHM (Z.to_nat (prank s' (u_panorama ux2)))); [lia|done|exact T2]. }
  pose proof (IHj x1 ux1 D1 others) as Hcost.
  specialize (Hcost ltac:(intros y Hy; unfold others; rewrite (HF y)
    by (eapply exposed_mono; [eapply df_len, D1|by eapply turning_pan|done]);
    apply negb_true_iff, not_true_is_false; intros HEy; exact (first_turning x1 ux1 y T Hmin Hy HEy))).
  pose proof (cost_step (2 ^ Z.of_nat j) (wt (weights s) F) (wt (weights s) others) (wt (weights s) E)
    (wt (weights s) (faulty_in p)) _ Hpow Hcost df_faulty ltac:(pose proof df_split; lia) df_votes) as Hc.
  rewrite Hpow2 in Hgt. lia.
Qed.

Lemma defection_absurd : False.
Proof.
  destruct pow_facts as [Hpow Hpow2]. pose proof df_votes as Hv. rewrite (wt_none (weights s) E) in Hv.
  - pose proof df_faulty. pose proof df_split as Hs.
    assert (0 <= wt (weights s) E) by (apply wt_nonneg; by apply weights_nonneg).
    assert (0 <= wt (weights s) F) as Hw by (apply wt_nonneg; by apply weights_nonneg).
    pose proof (cost_base (2 ^ Z.of_nat (S j)) (wt (weights s) F) (2 * q - zsum (weights s))
      ltac:(lia) Hw ltac:(lia)). lia.
  - intros z _. apply not_true_is_false. intros Hz.
    destruct (df_turned z Hz) as (_ & w & uw & Hp & Ew & Hu & Hdw).
    destruct (vp_entries _ _ df_valid _ _ Hp) as (uw' & Ew' & Hcw & _). assert (uw' = uw) as -> by congruence.
    eapply (no_turning _ w uw eq_refl). exists z, w. split_and!; [done|done|apply lane_le_refl| |done].
    split_and!; [done|by rewrite Hcw|done].
Qed.

End Defection.

Lemma defect_cost j : (j <= k)%nat -> forall x ux, defector j x ux -> costs j ux.
Proof.
  induction j as [|j IHj]; intros Hj.
  { intros x ux _ F _. pose proof (wt_nonneg (weights s) F (weights_nonneg s WO)). cbn. lia. }
  assert (forall N x ux, Z.to_nat (prank s' (u_panorama ux)) = N -> defector (S j) x ux -> costs (S j) ux) as G;
    [|intros x ux; by apply (G _ x ux eq_refl)].
  induction N as [N IHN] using lt_wf_ind. intros x ux HN (Ex & (m & Hm & Lm) & Hd) F HF.
  destruct (Z.le_gt_cases ((2 ^ Z.of_nat (S j) - 1) * (2 * q - zsum (weights s)))
    (2 ^ Z.of_nat (S j) * wt (weights s) F)) as [|Hgt]; [done|]. exfalso.
  pose proof Hm as (um & _ & Em & _).
  eapply (defection_absurd j Hj (IHj ltac:(lia)) x m ux um Ex Hd Hm Em Lm); [|exact HF|exact Hgt].
  intros x' ux' D' Hlt. eapply (IHN (Z.to_nat (prank s' (u_panorama ux')))); [|done|exact D'].
  destruct (prank_mono s' WF' (u_panorama ux') (u_panorama ux')) as [R0 _];
    [eapply unit_cites_known; [done|apply D']|apply pan_le_refl|]. lia.
Qed.

(** ** The last level *)

(** A validator of whom the later state knows units on two branches is known to be faulty. *)
Lemma exposed_faulty x ux y : units s' !! x = Some ux -> exposed (u_panorama ux) y ->
  faulty_in (panorama s') y = true.
Proof.
  intros Ex [Hf|(l & z & uz & Hl & Lz & Ez & _ & _ & (l0 & Hl0 & Hn1 & Hn2))]; apply bool_decide_eq_true.
  - apply (wf_faults _ WF'). by apply (wfu_faulty _ _ _ (wf_units _ WF' _ _ Ex)).
  - destruct (wf_latest _ WF _ _ Hl0) as [(u0 & E0 & Hc0) _]. pose proof (ext_unit s s' EX l0 u0 E0) as E0'.
    assert (creator uz = y) as Hcz.
    { destruct (wfu_entries _ _ _ (wf_units _ WF' _ _ Ex) _ _ Hl) as (ul & El & <- & _).
      apply (lane_le_seq s' WF' l z ul uz Lz El Ez). }
    destruct (lookup_lt_is_Some_2 (panorama s') y) as [o Ho].
    { rewrite (wf_pan_len _ WF'), (ex_weights _ _ EX), <- (wf_pan_len _ WF). by eapply lookup_lt_Some. }
    pose proof (wf_latest _ WF' _ _ Ho) as Lo. destruct o as [|h|]; [by apply (Lo z uz) in Ez| |done].
    destruct Lo as [_ Lo]. exfalso. destruct (lane_le_total s' h z l0); [by eapply Lo|by eapply Lo|done..].
Qed.

Lemma summit_majority ftt : (1 <= k)%nat -> com k <> [] ->
  wt (weights s) (faulty_in (panorama s')) < ftt ->
  2 ^ Z.of_nat k * ftt <= (2 ^ Z.of_nat k - 1) * (2 * q - zsum (weights s)) ->
  majority_for s' (panorama s') b.
Proof.
  intros Hk Hc Hf Hq. destruct (decide (score anyb (correct_votes s' (panorama s')) <
    2 * support s' (correct_votes s' (panorama s')) b)) as [|Hn]; [done|]. exfalso.
  set (p := panorama s') in *. set (f := wt (weights s) (faulty_in p)) in *.
  assert (1 <= 2 ^ Z.of_nat k) as Hpow by (pose proof (Z.pow_pos_nonneg 2 (Z.of_nat k)); lia).
  assert (exists k', k = S k') as [k' Ek] by (exists (k - 1)%nat; lia). rewrite Ek in Hc.
  destruct (com (S k')) as [|y0 cs] eqn:Ecom; [done|].
  destruct (lvl_entry k' y0 ltac:(lia)) as [c0 Hc0]; [rewrite Ecom; by left|].
  destruct (lev_exists (S k') y0 c0 ltac:(lia) Hc0) as [m Hm]. pose proof Hm as (um & _ & Em & _).
  assert (forall z, quorum_of k' um z = true -> exists l, panorama s !! z = Some (ObsCorrect l) /\
    (p !! z = Some ObsFaulty \/ exists w, p !! z = Some (ObsCorrect w) /\ up (S k') z w)) as HQ.
  { intros z [Hz%bool_decide_eq_true _]%andb_true_iff. destruct (lvl_entry k' z ltac:(lia) Hz) as [c Hcz].
    destruct (lvl_latest (S k') ltac:(lia) z c Hcz) as [l Hl]. exists l. split; [done|].
    destruct (wf_latest _ WF _ _ Hl) as [(ul & El & Hcl) _]. pose proof (ext_unit s s' EX l ul El) as El'.
    destruct (lookup_lt_is_Some_2 p z) as [o Ho].
    { unfold p. rewrite (wf_pan_len _ WF'), (ex_weights _ _ EX), <- (wf_pan_len _ WF). by eapply lookup_lt_Some. }
    pose proof (wf_latest _ WF' _ _ Ho) as Lo. destruct o as [|w|]; [by apply (Lo l ul) in El'| |by left].
    right. exists w. split; [done|]. destruct (lev_exists (S k') z c ltac:(lia) Hcz) as [mz Hmz]. exists mz.
    split; [done|]. destruct Hmz as (umz & l' & _ & _ & Hl' & Lmz). rewrite Hl in Hl'. injection Hl' as <-.
    destruct Lo as [_ Lo]. eapply lane_le_trans; [|by eapply (Lo l ul)]. apply (ext_lane s s' WF EX); [by exists ul|done]. }
  assert (length p = n) as Hlen by (unfold p; by rewrite (wf_pan_len _ WF'), (ex_weights _ _ EX)).
  pose proof (quorum_turned p (quorum_of k' um) Hlen) as Ht.
  specialize (Ht ltac:(intros z w Hw; destruct (wf_latest _ WF' _ _ Hw) as [(u & Eu & _) _]; by exists u) Hn).
  specialize (Ht (quorum_of_wt k' y0 m um ltac:(lia) Hm Em)
    ltac:(intros z Hz; destruct (HQ z Hz) as (_ & _ & [|(w & ? & _)]); [by left|right; by exists w])).
  rewrite (wt_none (weights s) (turned p (quorum_of k' um))) in Ht.
  - fold f in Ht. nia.
  - intros z _. apply not_true_is_false. intros [Hz Hv]%andb_true_iff.
    destruct (HQ z Hz) as (l & Hl & [Hp|(w & Hp & Hu)]); unfold vote_at in Hv; rewrite Hp in Hv; [done|].
    destruct (wf_latest _ WF' _ _ Hp) as [(uw & Ew & Hcw) _]. rewrite Ew in Hv. cbn in Hv. apply negb_true_iff in Hv.
    pose proof (defect_cost (S k') ltac:(lia) w uw ltac:(split_and!; [done|by rewrite Hcw|done]) (faulty_in p)
      ltac:(intros y; by eapply exposed_faulty)) as Hcost.
    rewrite <- Ek in Hcost. fold f in Hcost. nia.
Qed.

End Safety.
