(* ===== verification/HighwayDetector.v ===== *)
(** * The finality detector

    The detector always returns, the quorums it asks for are the ones its fault
    tolerance needs, and the blocks it finalizes are final: no two detectors,
    however long they run, finalize blocks of different branches as long as less
    weight than the threshold is faulty. *)

From S2P Require Import Prelude Highway HighwaySkip HighwayInv HighwayTally HighwayFork HighwayAdd HighwayLeader HighwayValidate HighwayMerge HighwayVotes HighwayVertex HighwayActive HighwayNode HighwayFinality HighwayHorizon HighwaySummit.

Local Open Scope Z_scope.

Section Detector.
Context {C : ConsensusContext}.
Implicit Types (s : State) (fd : FinalityDetector) (h b : Hash).

(** ** Quorums *)

(** The least quorum [q] for which [2^l ftt <= (2^l - 1) (2 q - total)]. *)
Lemma quorum_for_lvl_ok {E} fd lvl total : (1 <= lvl <= 63)%nat -> 0 < ftt fd -> 0 <= total ->
  total + 2 * ftt fd <= 2 * uint_max 64 ->
  exists q, quorum_for_lvl (E:=E) fd lvl total = Ok q /\ q <= uint_max 64 /\
    forall q', q <= q' <-> 2 ^ Z.of_nat lvl * ftt fd <= (2 ^ Z.of_nat lvl - 1) * (2 * q' - total).
Proof.
  intros Hl Hf Ht Hs. unfold quorum_for_lvl. rewrite Nat.min_l by lia.
  assert (2 <= 2 ^ Z.of_nat lvl <= 2 ^ 63) as Hp.
  { split; [change 2 with (2 ^ 1) at 1|]; apply Z.pow_le_mono_r; lia. }
  set (P := 2 ^ Z.of_nat lvl) in *. unfold uint_max in *.
  assert (0 <= (P - 1) * total <= 2 ^ 63 * (2 * (2 ^ 64 - 1))) as B1 by nia.
  assert (0 <= P * ftt fd) as B2 by nia.
  assert ((P - 1) * total + P * ftt fd <= (P - 1) * (2 * (2 ^ 64 - 1))) as B3 by nia.
  assert ((P - 1) * (2 * (2 ^ 64 - 1)) <= (2 ^ 63 - 1) * (2 * (2 ^ 64 - 1))) as B4 by nia.
  unfold plain_sub, plain_mul, plain_add, plain_div, checked_sub, checked_mul, checked_add, checked_div, uint_max.
  repeat (first [rewrite (proj2 (Z.leb_le _ _)) by lia | rewrite (proj2 (Z.eqb_neq _ _)) by lia]; cbn [expect mbind res_bind]).
  set (num := (P - 1) * total + P * ftt fd) in *. set (d := 2 * P - 2).
  assert (0 < d) as Hd by lia.
  assert ((num + d - 1) / d <= 2 ^ 64 - 1) as Hq.
  { apply Z.lt_succ_r, Z.div_lt_upper_bound; [done|]. unfold d. lia. }
  assert (0 <= (num + d - 1) / d) as Hq0 by (apply Z.div_pos; lia).
  exists ((num + d - 1) / d). split.
  { unfold wrap. cbn. f_equal. apply Z.mod_small. lia. }
  split; [lia|]. intros q'. unfold num, d. pose proof (Z.div_mod (num + d - 1) d ltac:(lia)) as Hdm.
  pose proof (Z.mod_pos_bound (num + d - 1) d Hd) as Hm. fold num d. split.
  - intros Hle. assert (num <= d * q') by nia. unfold num, d in *. lia.
  - intros Hle. assert (num <= d * q') by (unfold num, d; lia).
    apply Z.lt_succ_r, Z.div_lt_upper_bound; [done|]. lia.
Qed.
(** ** Summits *)

(** A summit for [b] with [k] levels and quorum [q]: see [HighwaySummit]. *)
Definition summit s b (q : Z) (k : nat) : Prop :=
  exists (sn : nat -> ValidatorMap (option Z)) (com : nat -> list ValidatorIndex),
    length (sn 0%nat) = length (weights s) /\
    (forall y h, latest_of s !! y = Some (Some h) ->
       exists r, sn 0%nat !! y = Some r /\ streak_of s (fun u => supports s b (u_block u)) h r) /\
    (forall y c, sn 0%nat !! y = Some (Some c) -> has_latest (latest_of s) y) /\
    forall j, (j < k)%nat -> next_level s (latest_of s) (sn j) q (com (S j)) (sn (S j)) /\ com (S j) <> [].

Section State.
Variable s : State.
Hypothesis I : inv s.

Let WF : wf s := inv_wf _ I.
Let SM : small s := inv_small _ I.
Let WO : weights_ok s := inv_weights_ok _ I.

Lemma total_weight_eq {E} : total_weight (E:=E) s = Ok (zsum (weights s)).
Proof.
  destruct (inv_static _ I) as [_ Hc _ _ Ht _]. unfold total_weight. rewrite Hc, running_last; [done|].
  intros E0. rewrite E0 in Ht. unfold zsum in Ht. cbn in Ht. lia.
Qed.

Lemma faulty_weight_eq {E} p : length p = length (weights s) ->
  faulty_weight_in (E:=E) s p = Ok (wt (weights s) (faulty_in p)).
Proof.
  intros Hl. pose proof (weights_nonneg s WO) as Hn.
  assert (forall p ws i f, length p = length ws -> (forall j, f (i + j)%nat = bool_decide (p !! j = Some ObsFaulty)) ->
    foldr Z.add 0 (List.filter (fun e => bool_decide (e.1 = ObsFaulty)) (zip p ws)).*2 = wt_from i ws f) as G.
  { clear. induction p as [|o p IH]; intros [|w ws] i f Hl Hf; try done. cbn.
    pose proof (Hf 0%nat) as H0. rewrite Nat.add_0_r in H0. cbn in H0. rewrite H0.
    rewrite <- (IH ws (S i) f); [|cbn in Hl; lia|intros j; replace (S i + j)%nat with (i + S j)%nat by lia; apply (Hf (S j))].
    destruct o; cbn; done. }
  unfold faulty_weight_in. rewrite Weight_sum_eq.
  - f_equal. by apply G.
  - apply Forall_fmap, Forall_forall. intros [o w] Hin. cbn. apply list_elem_of_In, filter_In in Hin as [Hin _].
    apply list_elem_of_In in Hin. rewrite Forall_forall in Hn. apply Hn. by eapply elem_of_zip_r.
  - rewrite (G p (weights s) 0%nat (faulty_in p)); [|done|done]. etrans; [|apply (so_total _ (inv_static _ I))].
    rewrite <- wt_all. by apply wt_le.
Qed.

Lemma count_levels_ok {E} q m : forall sns, length sns = length (weights s) ->
  (forall y c, sns !! y = Some (Some c) -> has_latest (latest_of s) y) ->
  exists k, (cur ← horizon_next (E:=E) s (latest_of s) q {| sequence_numbers := sns |};
             count_levels m s (latest_of s) q cur) = Ok k /\ (k <= m)%nat /\
    exists (sn : nat -> ValidatorMap (option Z)) (com : nat -> list ValidatorIndex), sn 0%nat = sns /\
      forall j, (j < k)%nat -> next_level s (latest_of s) (sn j) q (com (S j)) (sn (S j)) /\ com (S j) <> [].
Proof.
  induction m as [|m IH]; intros sns Hl Hk;
    destruct (horizon_next_spec s WF SM WO (latest_of s) (latest_len s WF) (latest_known s WF) (E:=E) sns q Hl Hk)
      as (r & -> & Hr); cbn [mbind res_bind count_levels].
  - exists 0%nat. split_and!; [done|lia|]. exists (fun _ => sns), (fun _ => []). split; [done|]. lia.
  - destruct r as [[sns']|].
    + destruct Hr as (l & Hne & N). cbn [sequence_numbers] in N.
      destruct (IH sns') as (k & Hc & Hle & sn & com & H0 & HS).
      * apply (nl_len _ _ _ _ _ _ N).
      * intros y c Hy. pose proof (next_level_keys _ _ _ _ _ _ _ _ N Hy) as Hin.
        destruct (nl_keys _ _ _ _ _ _ N y Hin) as [c' Hc']. by eapply Hk.
      * destruct (horizon_next _ _ _ _) as [nx|?| |]; cbn [mbind res_bind] in *; try done. rewrite Hc. cbn.
        exists (S k). split_and!; [done|lia|].
        exists (fun j => match j with O => sns | S j => sn j end), (fun j => match j with S (S j) => com (S j) | _ => l end).
        split; [done|]. intros [|j] Hj; [by rewrite H0|]. apply HS. lia.
    + exists 0%nat. split_and!; [done|lia|]. exists (fun _ => sns), (fun _ => []). split; [done|]. lia.
Qed.

(** No summit with at least this quorum has more levels than are counted. *)
Lemma count_levels_max {E} q m : forall sns k, length sns = length (weights s) ->
  (forall y c, sns !! y = Some (Some c) -> has_latest (latest_of s) y) ->
  (cur ← horizon_next (E:=E) s (latest_of s) q {| sequence_numbers := sns |};
   count_levels m s (latest_of s) q cur) = Ok k ->
  forall q' k' (sn : nat -> ValidatorMap (option Z)) (com : nat -> list ValidatorIndex), q <= q' ->
    (forall y c, sn 0%nat !! y = Some (Some c) -> has_latest (latest_of s) y) -> deeper (sn 0%nat) sns ->
    (forall j, (j < k')%nat -> next_level s (latest_of s) (sn j) q' (com (S j)) (sn (S j)) /\ com (S j) <> []) ->
    (k' <= m)%nat -> (k' <= k)%nat.
Proof.
  induction m as [|m IH]; intros sns k Hl Hk Hc q' k' sn com Hq Hs0 D HS Hm; [lia|].
  destruct k' as [|k']; [lia|]. destruct (HS 0%nat ltac:(lia)) as [N0 Hne].
  destruct (horizon_next_spec s WF SM WO (latest_of s) (latest_len s WF) (latest_known s WF) (E:=E) sns q Hl Hk)
    as (r & Er & Hr). rewrite Er in Hc. cbn [mbind res_bind count_levels] in Hc.
  pose proof (next_level_mono s WF WO (latest_of s) (latest_len s WF) (latest_known s WF)) as Mono.
  destruct r as [[sns']|]; cbn [sequence_numbers] in Hr.
  - destruct Hr as (l & _ & N). destruct (Mono _ _ _ _ _ _ _ _ Hs0 D Hq N0 N) as [_ D'].
    assert (forall sns0 q0 l0 sns0', (forall y c, sns0 !! y = Some (Some c) -> has_latest (latest_of s) y) ->
      next_level s (latest_of s) sns0 q0 l0 sns0' -> forall y c, sns0' !! y = Some (Some c) -> has_latest (latest_of s) y) as Keys.
    { intros sns0 q0 l0 sns0' Hk0 N' y c Hy. pose proof (next_level_keys _ _ _ _ _ _ _ _ N' Hy) as Hin.
      destruct (nl_keys _ _ _ _ _ _ N' y Hin) as [c' Hc']. by eapply Hk0. }
    assert (exists k0, (cur ← horizon_next (E:=E) s (latest_of s) q {| sequence_numbers := sns' |};
      count_levels m s (latest_of s) q cur) = Ok k0 /\ k = S k0) as (k0 & Hc0 & ->).
    { destruct (horizon_next _ _ _ _) as [nx|?| |]; [|done..]. cbn [mbind res_bind] in *.
      destruct (count_levels _ _ _ _ nx) as [k0|?| |]; [|done..]. injection Hc as <-. by exists k0. }
    enough (k' <= k0)%nat by lia.
    apply (IH sns' k0 (nl_len _ _ _ _ _ _ N) (Keys _ _ _ _ Hk N) Hc0 q' k' (fun j => sn (S j)) (fun j => com (S j)));
      [done|by apply (Keys _ _ _ _ Hs0 N0)|done|intros j Hj; apply HS; lia|lia].
  - destruct Hr as [sns' N]. destruct (Mono _ _ _ _ _ _ _ _ Hs0 D Hq N0 N) as [Hsub _].
    destruct (com 1%nat) as [|y l]; [done|]. by specialize (Hsub y ltac:(left)) as ?%elem_of_nil.
Qed.

Section Find.
Variable fd : FinalityDetector.
Hypothesis F0 : 0 < ftt fd.
Hypothesis F1 : zsum (weights s) + 2 * ftt fd <= 2 * uint_max 64.

(** The quorum that a summit of [k] levels needs. *)
Definition enough k (q : Z) : Prop :=
  2 ^ Z.of_nat k * ftt fd <= (2 ^ Z.of_nat k - 1) * (2 * q - zsum (weights s)).

(** Higher summits need smaller quorums. *)
Lemma enough_higher k k' q : (1 <= k <= k')%nat -> enough k q -> enough k' q.
Proof.
  intros Hk Hq. unfold enough in *.
  assert (2 <= 2 ^ Z.of_nat k) as H1 by (change 2 with (2 ^ 1) at 1; apply Z.pow_le_mono_r; lia).
  assert (2 ^ Z.of_nat k <= 2 ^ Z.of_nat k') as H2 by (apply Z.pow_le_mono_r; lia).
  set (P := 2 ^ Z.of_nat k) in *. set (P' := 2 ^ Z.of_nat k') in *. set (d := 2 * q - zsum (weights s)) in *.
  assert (ftt fd <= d) by nia. nia.
Qed.

Lemma summit_deeper b sns (sn : nat -> ValidatorMap (option Z)) :
  (forall y h, latest_of s !! y = Some (Some h) ->
     exists r, sns !! y = Some r /\ streak_of s (fun u => supports s b (u_block u)) h r) ->
  (forall y h, latest_of s !! y = Some (Some h) ->
     exists r, sn 0%nat !! y = Some r /\ streak_of s (fun u => supports s b (u_block u)) h r) ->
  (forall y c, sn 0%nat !! y = Some (Some c) -> has_latest (latest_of s) y) -> deeper (sn 0%nat) sns.
Proof.
  intros H H0 H1 y c Hy. destruct (H1 y c Hy) as [h Eh]. destruct (latest_known s WF y h Eh) as (u & Eu & _).
  destruct (H y h Eh) as (r & Hr & S1). destruct (H0 y h Eh) as (r0 & Hr0 & S0).
  rewrite (streak_of_unique s WF _ h u r r0 Eu S1 S0) in Hr. exists c. split; [congruence|lia].
Qed.

Lemma find_summit_ok {E} k b : (1 <= k <= 63)%nat -> block_known s b ->
  exists c, find_summit (E:=E) fd k b s = Ok c /\ (c <= k)%nat /\
    (c = k -> exists q, enough k q /\ summit s b q k) /\
    forall k' q', (1 <= k' <= k)%nat -> enough k' q' -> summit s b q' k' -> (k' <= c)%nat.
Proof.
  intros Hk Kb. unfold find_summit. rewrite total_weight_eq. cbn [mbind res_bind].
  destruct (quorum_for_lvl_ok (E:=E) fd k (zsum (weights s))) as (q & -> & _ & Hq); [done|done| |done|].
  { pose proof (so_total _ (inv_static _ I)). lia. }
  cbn [mbind res_bind].
  destruct (level0_spec s WF SM (latest_of s) (latest_len s WF) (latest_known s WF) (E:=E) b Kb) as (sns & -> & Hl & H0 & H1).
  cbn [mbind res_bind]. destruct (count_levels_ok (E:=E) q k sns Hl H1) as (c & Hc & Hle & sn & com & E0 & HS).
  exists c. split_and!; [done|done| |].
  - intros ->. exists q. split; [by apply Hq|]. exists sn, com. by rewrite E0.
  - intros k' q' Hk' Hen (sn' & com' & _ & H0' & H1' & HS').
    apply (count_levels_max (E:=E) q k sns c Hl H1 Hc q' k' sn' com'); [|done| |done|lia].
    + apply Hq. by eapply (enough_higher k').
    + by eapply summit_deeper.
Qed.

Lemma summit_loop_ok {E} b fuel : block_known s b -> forall k, (k <= fuel)%nat -> (k <= 63)%nat ->
  exists r, summit_loop (E:=E) fuel fd k b s = Ok r /\
    (r = true <-> exists k' q, (1 <= k' <= k)%nat /\ enough k' q /\ summit s b q k').
Proof.
  intros Kb. induction fuel as [|fuel IH]; intros [|k] Hf Hk; cbn [summit_loop]; [|lia| |].
  1, 2: exists false; split; [done|]; split; [done|]; intros (k' & q & ? & _); lia.
  destruct (find_summit_ok (E:=E) (S k) b ltac:(lia) Kb) as (c & -> & Hle & Hs & Hmax). cbn [mbind res_bind].
  destruct (Nat.eqb_spec c (S k)) as [->|Hne].
  - exists true. split; [done|]. split; [intros _|done]. destruct (Hs eq_refl) as (q & Hq & Hsum).
    exists (S k), q. split_and!; [lia|lia|done|done].
  - destruct (IH c ltac:(lia) ltac:(lia)) as (r & -> & Hr). exists r. split; [done|]. rewrite Hr.
    split; intros (k' & q & Hk' & Hq & Hsum); exists k', q; split_and!; try done; try lia. by eapply Hmax; eauto; lia.
Qed.

End Find.

(** A detector used with this state. *)
Record detector_ok fd : Prop := {
  do_ftt : 0 < ftt fd;
  do_fits : zsum (weights s) + 2 * ftt fd <= 2 * uint_max 64;
  do_last b : last_finalized fd = Some b -> block_known s b;
}.

Definition last_height fd : Z := match last_finalized fd with Some b => ht s b | None => -1 end.

Lemma next_candidate_ok {E} fd : detector_ok fd -> exists c, next_candidate (E:=E) fd s = Ok c /\
  forall b, c = Some b -> block_known s b /\ ht s b = last_height fd + 1 /\
    exists r, fork_choice (E:=E) s (panorama s) = Ok (Some r) /\ supports s b r = true.
Proof.
  intros [_ _ Hl]. unfold next_candidate.
  assert (cites_known s (panorama s)) as K.
  { intros i h Hi. destruct (wf_latest _ WF _ _ Hi) as [(u & Eu & _) _]. by exists u. }
  destruct (fork_choice_spec s WF SM (panorama s) K WO (E:=E)) as (r & Hr & Hs). rewrite Hr. cbn [mbind res_bind].
  destruct r as [r|]; [|by exists None]. destruct Hs as [G _]. destruct (ghost_facts s WF SM _ _ G) as [[br Ebr] _].
  assert (next_height (E:=E) fd s = Ok (last_height fd + 1) /\ 0 <= last_height fd + 1) as [-> Hn].
  { unfold next_height, last_height. destruct (last_finalized fd) as [b|] eqn:El; [|done].
    destruct (Hl b eq_refl) as [blk Eb]. unfold st_block, maybe_block. rewrite Eb. cbn [expect mbind res_bind].
    destruct (height_range s WF SM b blk Eb) as [Hh _]. pose proof (blocks_le_units s WF). unfold small in SM.
    unfold ht, rank_of, block_info. rewrite Eb. cbn [fmap option_fmap option_map fst default from_option id].
    unfold u64_add, plain_add, checked_add. rewrite (proj2 (Z.leb_le _ _)) by lia. split; [done|lia]. }
  cbn [mbind res_bind]. rewrite (find_ancestor_proposal_eq s WF SM r br _ Ebr Hn). eexists. split; [done|].
  intros b Hb. fold (anc s r (last_height fd + 1)) in Hb. destruct (anc_Some s WF _ _ _ Hb Hn) as (Kr & _ & Kb & Hh).
  split_and!; [done|done|]. exists r. split; [done|]. unfold supports. rewrite Hh. by apply bool_decide_eq_true.
Qed.

(** [b] has a summit that tolerates faults up to the detector's threshold. *)
Definition has_summit fd b : Prop := exists k q, (1 <= k <= 63)%nat /\ enough fd k q /\ summit s b q k.

Lemma next_finalized_ok {E} fd : detector_ok fd -> exists c, next_candidate (E:=E) fd s = Ok c /\
  exists r, next_finalized (E:=E) fd s = Ok r /\
  match r.2 with
  | None => r.1 = fd /\ forall b, c = Some b -> ~ has_summit fd b
  | Some b => r.1 = set_last_finalized fd (Some b) /\ c = Some b /\ block_known s b /\ ht s b = last_height fd + 1 /\
      has_summit fd b
  end.
Proof.
  intros D. unfold next_finalized. destruct (next_candidate_ok (E:=E) fd D) as (c & -> & Hc). cbn [mbind res_bind].
  exists c. split; [done|]. destruct c as [b|]; [|by eexists]. destruct (Hc b eq_refl) as (Kb & Hh & _).
  destruct (summit_loop_ok fd (do_ftt _ D) (do_fits _ D) (E:=E) b 63 Kb 63) as (r & -> & Hr); [lia|lia|].
  cbn [mbind res_bind mret res_ret]. eexists. split; [done|]. destruct r; cbn [fst snd].
  - split_and!; [done..|by apply Hr].
  - split; [done|]. intros b' [= <-] Hs. by apply Hr in Hs.
Qed.

End State.
End Detector.
