(* ===== verification/HighwayRewards.v ===== *)
(** * Rewards

    The rewards of an era are defined for every block of a well-formed state, and
    each block pays at most one block reward, in proportion to the weights. *)

From S2P Require Import Prelude Highway HighwaySkip HighwayInv HighwayTally HighwayFork HighwayAdd HighwayLeader HighwayValidate HighwayMerge HighwayVertex HighwayActive HighwayNode HighwayVotes HighwayFinality HighwayHorizon.

Local Open Scope Z_scope.

(** ** Loops over enumerated lists *)

Lemma fold_res_enum {E A B} (f : B -> nat * A -> res E B) (P : nat -> B -> Prop) (l : list A) :
  (forall i x b, l !! i = Some x -> P i b -> exists b', f b (i, x) = Ok b' /\ P (S i) b') ->
  forall b, P 0%nat b -> exists b', fold_res f b (enumerate l) = Ok b' /\ P (length l) b'.
Proof.
  intros F.
  enough (forall l' k b, (forall j, l !! (k + j)%nat = l' !! j) -> P k b ->
    exists b', fold_res f b (zip (seq k (length l')) l') = Ok b' /\ P (k + length l')%nat b') as G.
  { intros b Hb. by apply (G l 0%nat b). }
  induction l' as [|x l' IH]; intros k b Hl Hb; cbn.
  - exists b. by rewrite Nat.add_0_r.
  - destruct (F k x b) as (b' & -> & Hb'); [by rewrite <- (Nat.add_0_r k), Hl|done|]. cbn [mbind res_bind].
    rewrite <- Nat.add_succ_comm. apply IH; [|done]. intros j. rewrite Nat.add_succ_comm. apply (Hl (S j)).
Qed.

(** A loop whose steps succeed as long as an invariant holds. *)
Lemma fold_res_inv {E A B} (f : B -> A -> res E B) (P : B -> Prop) (l : list A) :
  (forall x b, x ∈ l -> P b -> exists b', f b x = Ok b' /\ P b') ->
  forall b, P b -> exists b', fold_res f b l = Ok b' /\ P b'.
Proof.
  induction l as [|x l IH]; intros F b Hb; cbn [fold_res]; [by exists b|].
  destruct (F x b ltac:(left) Hb) as (b' & -> & Hb'). cbn [mbind res_bind]. apply IH; [|done].
  intros y c Hy. apply F. by right.
Qed.

(** ** One reward *)

Section Rewards.
Context {C : ConsensusContext}.
Variable s : State.
Hypothesis I : inv s.
Implicit Types (h b : Hash) (u : Unit) (pan : Panorama) (y : ValidatorIndex).

Let WF : wf s := inv_wf _ I.
Let SM : small s := inv_small _ I.
Let WO : weights_ok s := inv_weights_ok _ I.
Local Notation n := (length (weights s)).
Local Notation total := (zsum (weights s)).

Definition rewards_u64 : Prop := is_uint 64 (block_reward (params s)) /\ is_uint 64 (reduced_block_reward (params s)).

(** The most that all validators together get for a block. *)
Definition max_reward : Z := Z.max (block_reward (params s)) (reduced_block_reward (params s)).

Lemma total_ok {E} : total_weight (E:=E) s = Ok total.
Proof.
  destruct (inv_static _ I) as [_ Hc _ _ Ht _]. unfold total_weight. rewrite Hc, running_last; [done|].
  intros E0. rewrite E0 in Ht. unfold zsum in Ht. cbn in Ht. lia.
Qed.

Lemma reward_ok {E} aw fw q w : rewards_u64 -> 0 < aw <= uint_max 64 -> 0 <= q <= aw -> 0 <= w <= total ->
  exists r, reward (E:=E) s aw fw q w = Ok r /\ 0 <= r /\ total * r <= max_reward * w.
Proof.
  intros [R1 R2] Ha Hq Hw. pose proof (so_total _ (inv_static _ I)) as Ht. unfold is_uint, uint_max in *.
  unfold reward. rewrite total_ok. cbn [mbind res_bind]. cbv zeta. unfold max_reward.
  set (f := if _ <? q then _ else _).
  assert (0 <= f <= Z.max (block_reward (params s)) (reduced_block_reward (params s))) as Hf
    by (unfold f; destruct (_ <? q); lia).
  assert (0 <= Z.max (block_reward (params s)) (reduced_block_reward (params s)) <= 2 ^ 64 - 1) as HM by lia.
  set (M := Z.max _ _) in *. clearbody f M. unfold uint_max in *.
  assert (0 <= f * q <= M * aw) as B1 by nia. assert (M * aw <= (2 ^ 64 - 1) * (2 ^ 64 - 1)) as B2 by (apply Z.mul_le_mono_nonneg; lia).
  assert (0 <= f * q / aw <= M) as B3.
  { split; [apply Z.div_pos; lia|]. apply Z.div_le_upper_bound; lia. }
  assert (0 <= f * q / aw * w <= M * w) as B4 by nia. assert (M * w <= (2 ^ 64 - 1) * (2 ^ 64 - 1)) as B5 by (apply Z.mul_le_mono_nonneg; lia).
  assert (0 <= f * q / aw * w / total <= M) as B6.
  { split; [apply Z.div_pos; lia|]. apply Z.div_le_upper_bound; [lia|]. rewrite (Z.mul_comm total M).
    etrans; [apply B4|]. apply Z.mul_le_mono_nonneg_l; lia. }
  unfold plain_mul, plain_div, checked_mul, checked_div, uint_max.
  repeat (first [rewrite (proj2 (Z.leb_le _ _)) by lia | rewrite (proj2 (Z.eqb_neq _ _)) by lia]; cbn [expect mbind res_bind]).
  eexists. split; [done|]. unfold wrap. rewrite Z.mod_small by lia. split; [lia|].
  etrans; [|apply B4]. apply Z.mul_div_le. lia.
Qed.

(** ** Who took part in a round *)

Lemma participation_ok {E} pan y o r_id : pan !! y = Some o ->
  (forall y h, pan !! y = Some (ObsCorrect h) -> exists u, units s !! h = Some u /\ creator u = y) ->
  exists p, round_participation (E:=E) s o r_id = Ok p /\
    forall h, p = Yes h -> exists u, units s !! h = Some u /\ creator u = y.
Proof.
  intros Hy K. unfold round_participation. destruct o as [|h|]; [by eexists| |by eexists].
  destruct (K y h Hy) as (u & Eu & Hc). destruct (swimlane_list s WF (E:=E) h u Eu) as (l & -> & L).
  cbn [mbind res_bind].
  rewrite (find_res_Ok _ (fun e => timestamp e.2 - timestamp e.2 mod 2 ^ round_exp e.2 <=? r_id)).
  2: { intros [x ux] Hx. apply (lane_list_elem s h l L) in Hx as [_ Ex].
       by rewrite (Unit_round_id_total s I x ux Ex). }
  cbn [mbind res_bind mret res_ret]. eexists. split; [done|]. intros h'.
  destruct (find _ l) as [[x ux]|] eqn:Ef; [|done]. apply find_some in Ef as [Hin%list_elem_of_In _].
  destruct (trailing_zeros r_id <? round_exp ux); [done|]. destruct (timestamp ux <? r_id); [done|]. intros [= <-].
  apply (lane_list_elem s h l L) in Hin as [Lx Ex]. exists ux. split; [done|].
  destruct (lane_le_seq s WF h x u ux Lx Eu Ex) as [-> _]. done.
Qed.

Definition is_yes (l : Latest) y : bool := match l !! y with Some (Some _) => true | _ => false end.

(** After [i] entries of the panorama. *)
Record assigned_ok (i : nat) (acc : Weight * Latest) : Prop := {
  ao_len : length acc.2 = n;
  ao_known y h : acc.2 !! y = Some (Some h) -> exists u, units s !! h = Some u /\ creator u = y;
  ao_before y : is_yes acc.2 y = true -> (y < i)%nat;
  ao_yes : wt (weights s) (is_yes acc.2) <= acc.1;
  ao_bound : acc.1 <= wt (weights s) (fun y => (y <? i)%nat);
}.

Lemma wt_next P i w : weights s !! i = Some w -> P i = false ->
  wt (weights s) (fun y => P y || bool_decide (y = i)) = wt (weights s) P + w.
Proof.
  intros Ew HP. rewrite <- (wt_single (weights s) i w Ew). symmetry. apply wt_split. intros y _. split; [|done].
  case_bool_decide; [subst; by rewrite HP|by rewrite andb_false_r].
Qed.

Lemma assign_ok {E} pan r_id i o acc : length pan = n -> pan !! i = Some o ->
  (forall y h, pan !! y = Some (ObsCorrect h) -> exists u, units s !! h = Some u /\ creator u = y) ->
  assigned_ok i acc -> exists acc', assign (E:=E) s r_id acc (i, o) = Ok acc' /\ assigned_ok (S i) acc'.
Proof.
  intros Hl Hi K [Len Kn Bef Yes Bd]. unfold assign. cbn [fst snd].
  destruct (participation_ok (E:=E) pan i o r_id Hi K) as (p & -> & Hp). cbn [mbind res_bind].
  destruct (lookup_lt_is_Some_2 (weights s) i) as [w Ew]; [rewrite <- Hl; by eapply lookup_lt_Some|].
  pose proof (weights_nonneg s WO) as Hn.
  assert (0 <= w) as Hw by (rewrite Forall_forall in Hn; apply Hn; by eapply list_elem_of_lookup_2).
  assert (wt (weights s) (fun y => (y <? S i)%nat) = wt (weights s) (fun y => (y <? i)%nat) + w) as Hs.
  { rewrite <- (wt_next (fun y => (y <? i)%nat) i w Ew) by apply Nat.ltb_irrefl. apply wt_ext. intros y _.
    apply eq_true_iff_eq. rewrite orb_true_iff, bool_decide_eq_true, !Nat.ltb_lt. lia. }
  assert (acc.1 + w <= uint_max 64) as Hfit.
  { etrans; [|apply (so_total _ (inv_static _ I))]. rewrite <- wt_all.
    pose proof (wt_le (weights s) (fun y => (y <? S i)%nat) (fun _ => true) Hn ltac:(done)). lia. }
  assert (u64_add (E:=E) acc.1 w = Ok (acc.1 + w)) as Hadd.
  { unfold u64_add, plain_add, checked_add. by rewrite (proj2 (Z.leb_le _ _)) by lia. }
  assert (weight (E:=E) s i = Ok w) as Hwt by (unfold weight, vm_index; by rewrite Ew).
  assert (is_yes acc.2 i = false) as Hni by (destruct (is_yes acc.2 i) eqn:Ei; [specialize (Bef i Ei); lia|done]).
  destruct p as [| |vh].
  - exists acc. split; [done|]. split; [done|done|by intros y ?%Bef; apply Nat.lt_lt_succ_r|done|]. rewrite Hs. lia.
  - rewrite Hwt. cbn [mbind res_bind]. rewrite Hadd. eexists. split; [done|].
    split; cbn [fst snd]; [done|done|by intros y ?%Bef; apply Nat.lt_lt_succ_r|lia|rewrite Hs; lia].
  - assert (i < length acc.2)%nat as Hil by (rewrite Len; by eapply lookup_lt_Some).
    assert (vm_set (E:=E) acc.2 i (Some vh) = Ok (<[i := Some vh]> acc.2)) as ->
      by (unfold vm_set; by rewrite (proj2 (Nat.ltb_lt _ _))).
    cbn [mbind res_bind]. rewrite Hwt. cbn [mbind res_bind]. rewrite Hadd. eexists. split; [done|].
    assert (forall y, is_yes (<[i := Some vh]> acc.2) y = is_yes acc.2 y || bool_decide (y = i)) as Hy.
    { intros y. unfold is_yes. case_bool_decide as Hyi; [subst y; by rewrite list_lookup_insert_eq, orb_true_r|].
      by rewrite list_lookup_insert_ne, orb_false_r. }
    split; cbn [fst snd].
    + by rewrite length_insert.
    + intros y h [(<- & [= <-] & _)|[_ Hh]]%list_lookup_insert_Some; [by apply Hp|by apply Kn].
    + intros y. rewrite Hy. case_bool_decide; [lia|]. rewrite orb_false_r. intros H1. specialize (Bef y H1). lia.
    + rewrite (wt_ext _ _ _ (fun y _ => Hy y)), (wt_next _ i w Ew Hni). lia.
    + rewrite Hs. lia.
Qed.

(** ** The quorums of the committees *)

Lemma list_min_spec (l : list Z) : l <> [] -> exists m, list_min l = Some m /\ m ∈ l /\ forall x, x ∈ l -> m <= x.
Proof.
  destruct l as [|w l]; [done|]. intros _. cbn. exists (foldl Z.min w l). split; [done|]. revert w.
  induction l as [|x l IH]; intros w; cbn [foldl].
  - split; [by left|]. intros y ->%list_elem_of_singleton. lia.
  - destruct (IH (Z.min w x)) as [Hin Hle]. split.
    + apply elem_of_cons in Hin as [->|Hin]; [|by right; right]. destruct (Z.min_spec w x) as [[_ ->]|[_ ->]]; set_solver.
    + pose proof (Hle _ ltac:(left)). intros y [->|[->|Hy]%elem_of_cons]%elem_of_cons; [lia|lia|]. apply Hle. by right.
Qed.

Section Round.
Variable latest : Latest.
Hypothesis LL : length latest = n.
Hypothesis LA : forall y h, latest !! y = Some (Some h) -> exists u, units s !! h = Some u /\ creator u = y.
Variable sns : ValidatorMap (option Z).
Hypothesis SL : length sns = n.
Hypothesis room : total < uint_max 64.

(** What members of a committee see is at most the weight of those who took part. *)
Lemma luw_bound l y : members s l -> Forall (has_latest latest) l ->
  0 <= luw s latest sns l y <= wt (weights s) (is_yes latest).
Proof.
  intros M La. pose proof (weights_nonneg s WO) as Hn.
  assert (0 <= wt (weights s) (is_yes latest)) as H0 by (by apply wt_nonneg).
  unfold luw. destruct (latest !! y) as [[h|]|]; [|lia..]. destruct (units s !! h) as [u|]; [|lia].
  pose proof (members_filter s (cansee s sns u) l M) as Mf. unfold seenw. split; [by apply (list_wt_bound s WO)|].
  destruct Mf as [D L]. rewrite list_wt_eq by done. apply wt_le; [done|]. intros i _ Hi%bool_decide_eq_true.
  apply list_elem_of_In, filter_In in Hi as [Hi%list_elem_of_In _]. rewrite Forall_forall in La.
  destruct (La i Hi) as [h' Eh']. unfold is_yes. by rewrite Eh'.
Qed.

Definition quorums_ok (m : ValidatorMap Weight) : Prop :=
  length m = n /\ Forall (fun q => 0 <= q <= wt (weights s) (is_yes latest)) m.

Lemma set_quorums {E} q l m : quorums_ok m -> Forall (fun y => (y < n)%nat) l ->
  0 <= q <= wt (weights s) (is_yes latest) ->
  exists m', fold_res (E:=E) (fun m vidx => vm_set m vidx q) m l = Ok m' /\ quorums_ok m'.
Proof.
  intros Hm Hl Hq. apply fold_res_inv; [|done]. intros y m' Hy [Len Fa]. rewrite Forall_forall in Hl.
  unfold vm_set. rewrite (proj2 (Nat.ltb_lt _ _)) by (rewrite Len; by apply Hl). eexists. split; [done|].
  split; [by rewrite length_insert|by apply Forall_insert].
Qed.

Lemma quorum_loop_ok {E} fuel : forall l m, members s l -> Forall (has_latest latest) l -> quorums_ok m ->
  (length l < fuel)%nat ->
  exists m', quorum_loop (E:=E) fuel s latest {| sequence_numbers := sns |} l m = Ok m' /\ quorums_ok m'.
Proof.
  induction fuel as [|fuel IH]; intros l m M La Hm Hf; [lia|]. cbn [quorum_loop]. unfold committee_quorum.
  rewrite (map_res_Ok _ (luw s latest sns l)).
  2: { intros y Hy. rewrite Forall_forall in La. by apply (member_weight_eq s WF WO latest LA sns l y SL M (La y Hy)). }
  cbn [mbind res_bind mret res_ret]. destruct l as [|y0 l0]; [by exists m|].
  set (l := y0 :: l0) in *. destruct (list_min_spec (luw s latest sns l <$> l)) as (q & -> & Hin & Hle); [done|].
  apply list_elem_of_fmap in Hin as (y & Hq & Hy). pose proof (luw_bound l y M La) as Hb. rewrite <- Hq in Hb.
  assert (q < uint_max 64) as Hlt.
  { pose proof (wt_le (weights s) (is_yes latest) (fun _ => true) (weights_nonneg s WO) ltac:(done)) as Hw.
    rewrite wt_all in Hw. lia. }
  assert (u64_add (E:=E) q 1 = Ok (q + 1)) as ->.
  { unfold u64_add, plain_add, checked_add. by rewrite (proj2 (Z.leb_le _ _)) by lia. }
  cbn [mbind res_bind].
  destruct (prune_committee_spec s WF WO latest LL LA (E:=E) sns (q + 1) l SL M La) as (l' & dr & -> & M' & Hp & Q & _).
  cbn [mbind res_bind].
  assert (Forall (fun z => (z < n)%nat) dr) as Hdr.
  { destruct M as [_ Hl]. rewrite Forall_forall in *. intros z Hz. apply Hl. rewrite Hp. set_solver. }
  destruct (set_quorums (E:=E) q dr m Hm Hdr Hb) as (m' & -> & Hm'). cbn [mbind res_bind].
  apply IH; [done| |done|].
  - rewrite Forall_forall in *. intros z Hz. apply La. rewrite Hp. set_solver.
  - destruct dr as [|d dr]; [|apply Permutation_length in Hp; rewrite length_app, length_cons in Hp; lia].
    rewrite app_nil_r in Hp. exfalso. assert (y ∈ l') as Hy' by (by rewrite <- Hp). specialize (Q y Hy').
    pose proof (luw_sub s WO latest LL sns l' l y M' M ltac:(intros z; by rewrite Hp)). lia.
Qed.

End Round.

(** ** The rewards of one block *)

Lemma filter_members (f : nat * Observation -> bool) pan : length pan = n ->
  members s (List.filter f (enumerate pan)).*1.
Proof.
  intros Hl. split.
  - eapply sublist_NoDup; [apply (NoDup_seq 0 (length pan))|]. unfold enumerate. generalize 0%nat. clear Hl.
    induction pan as [|o pan IH]; intros k; cbn; [done|]. destruct (f _); cbn; [by apply sublist_skip|by apply sublist_cons].
  - apply Forall_forall. intros y ([i o] & -> & H)%list_elem_of_fmap. apply list_elem_of_In, filter_In in H as [H _].
    apply list_elem_of_In, elem_of_enumerate in H. rewrite <- Hl. by eapply lookup_lt_Some.
Qed.

(** Rewards of at most [k] blocks. *)
Definition paid (k : Z) (r : ValidatorMap Z) : Prop := length r = n /\
  forall y x w, r !! y = Some x -> weights s !! y = Some w -> 0 <= x /\ total * x <= k * max_reward * w.

Lemma paid_nothing k : rewards_u64 -> 0 <= k -> paid k (replicate n 0).
Proof.
  intros [R1 R2] Hk. split; [apply length_replicate|]. intros y x w [-> _]%lookup_replicate Ew.
  pose proof (weights_nonneg s WO) as Hn. rewrite Forall_forall in Hn. specialize (Hn w ltac:(by eapply list_elem_of_lookup_2)).
  unfold max_reward, is_uint in *. assert (0 <= k * Z.max (block_reward (params s)) (reduced_block_reward (params s))) by (apply Z.mul_nonneg_nonneg; lia).
  split; [lia|]. rewrite Z.mul_0_r. by apply Z.mul_nonneg_nonneg.
Qed.

Lemma assign_all {E} h u r_id : units s !! h = Some u -> exists aw latest,
  fold_res (E:=E) (assign s r_id) (0, replicate (length (u_panorama u)) None) (enumerate (u_panorama u)) = Ok (aw, latest) /\
  assigned_ok n (aw, latest) /\ aw <= total.
Proof.
  intros Eu. pose proof (wfu_len _ _ _ (wf_units _ WF _ _ Eu)) as Hl. pose proof (weights_nonneg s WO) as Hn.
  assert (forall y h', u_panorama u !! y = Some (ObsCorrect h') -> exists u', units s !! h' = Some u' /\ creator u' = y) as K.
  { intros y h' Hy. destruct (wfu_entries _ _ _ (wf_units _ WF _ _ Eu) y h' Hy) as (u' & ? & ? & _). by exists u'. }
  destruct (fold_res_enum (E:=E) (assign s r_id) assigned_ok (u_panorama u))
    with (b := (0 : Weight, replicate (length (u_panorama u)) (None : option Hash))) as ([aw latest] & Hf & A).
  - intros i o acc Ho. by apply (assign_ok (u_panorama u)).
  - assert (forall y, is_yes (replicate (length (u_panorama u)) None) y = false) as Hno.
    { intros y. unfold is_yes. destruct (replicate _ _ !! y) eqn:Ey; [|done]. by apply lookup_replicate in Ey as [-> _]. }
    split; cbn [fst snd]; [by rewrite length_replicate|by intros y h' [? _]%lookup_replicate|intros y; by rewrite Hno| |by apply wt_nonneg].
    rewrite wt_none; [done|]. intros y _. apply Hno.
  - rewrite Hl in A. exists aw, latest. split_and!; [done|done|]. etrans; [apply (ao_bound _ _ A)|].
    rewrite <- wt_all. by apply wt_le.
Qed.

Lemma rewards_of_quorums {E} aw fw (mq : ValidatorMap Weight) : rewards_u64 -> 0 < aw <= uint_max 64 -> length mq = n ->
  Forall (fun q => 0 <= q <= aw) mq ->
  exists r, map_res (E:=E) (fun e => reward s aw fw e.1 e.2) (zip mq (weights s)) = Ok r /\ paid 1 r.
Proof.
  intros Ru Haw Hml Hmq. pose proof (weights_nonneg s WO) as Hn.
  assert (forall q w, (q, w) ∈ zip mq (weights s) -> exists r, reward (E:=E) s aw fw q w = Ok r /\ 0 <= r /\ total * r <= max_reward * w) as R.
  { intros q w Hin. apply reward_ok; [done|done| |].
    - rewrite Forall_forall in Hmq. apply Hmq. by eapply elem_of_zip_l.
    - apply elem_of_zip_r in Hin. split; [rewrite Forall_forall in Hn; by apply Hn|].
      apply list_elem_of_lookup in Hin as [y Hy]. rewrite <- (wt_single _ _ _ Hy), <- wt_all. by apply wt_le. }
  set (g := fun e : Weight * Weight => match reward (E:=E) s aw fw e.1 e.2 with Ok r => r | _ => 0 end).
  rewrite (map_res_Ok _ g).
  - eexists. split; [done|]. split; [rewrite length_fmap, length_zip; lia|].
    intros y x w Hx Ew. rewrite list_lookup_fmap in Hx. destruct (zip mq (weights s) !! y) as [[q w']|] eqn:Ez; [|done].
    injection Hx as <-. pose proof (R q w' ltac:(by eapply list_elem_of_lookup_2)) as (r & Hr & Hr0 & Hr1).
    apply lookup_zip_Some in Ez as [_ Ez]. assert (w' = w) as -> by congruence. unfold g. cbn [fst snd]. rewrite Hr. lia.
  - intros [q w] Hin. destruct (R q w Hin) as (r & Hr & _). unfold g. cbn [fst snd]. by rewrite Hr.
Qed.

Lemma rewards_for_ok {E} h u b : rewards_u64 -> total < uint_max 64 -> units s !! h = Some u -> block_known s b ->
  exists r, compute_rewards_for (E:=E) s (u_panorama u) b = Ok r /\ paid 1 r.
Proof.
  intros Ru Hroom Eu Kb. destruct (wf_blocks _ WF b Kb) as [ub Eub]. unfold compute_rewards_for.
  rewrite (st_unit_known s b ub Eub). cbn [mbind res_bind]. rewrite (Unit_round_id_total s I b ub Eub). cbn [mbind res_bind].
  pose proof (wfu_len _ _ _ (wf_units _ WF _ _ Eu)) as Hl. pose proof (weights_nonneg s WO) as Hn.
  destruct (assign_all (E:=E) h u (timestamp ub - timestamp ub mod 2 ^ round_exp ub) Eu) as (aw & latest & -> & [Len Kn _ Yes _] & Hat).
  cbn [fst snd] in *. cbn [mbind res_bind]. unfold Weight_is_zero. destruct (Z.eqb_spec aw 0) as [Ha|Ha].
  { eexists. split; [done|]. rewrite Len. by apply paid_nothing. }
  pose proof (wt_nonneg (weights s) (is_yes latest) Hn) as Hyes.
  destruct (level0_spec s WF SM latest Len Kn (E:=E) b Kb) as (sns & -> & Hsl & _ & Hsk). cbn [mbind res_bind].
  destruct (keys_some_spec latest) as [Kd Ks].
  assert (Forall (has_latest latest) (keys_some latest)) as La by (apply Forall_forall; intros y Hy; by apply Ks).
  destruct (prune_committee_spec s WF WO latest Len Kn (E:=E) sns 1 (keys_some latest) Hsl) as (l & dr & -> & M & Hp & _ & _); [|done|].
  { split; [done|]. apply Forall_forall. intros y [x Hx]%Ks. rewrite <- Len. by eapply lookup_lt_Some. }
  cbn [mbind res_bind].
  destruct (quorum_loop_ok latest Len Kn sns Hsl Hroom (E:=E) (S (length l)) l (replicate (length latest) 0) M)
    as (mq & -> & Hml & Hmq); [| |lia|].
  { rewrite Forall_forall in *. intros y Hy. apply La. rewrite Hp. set_solver. }
  { split; [by rewrite length_replicate|]. by apply Forall_replicate. }
  cbn [mbind res_bind].
  pose proof (members_weights s WO (E:=E) _ (filter_members (fun e => obs_is_faulty e.2) (u_panorama u) Hl)) as Hfw.
  change (List.filter _ _).*1 with (iter_faulty (u_panorama u)) in Hfw.
  apply bind_Ok in Hfw as (fws & -> & Hfs). cbn [mbind res_bind]. rewrite Hfs. cbn [mbind res_bind].
  apply rewards_of_quorums; [done|lia|done|]. eapply Forall_impl; [exact Hmq|]. cbn. lia.
Qed.

(** ** The rewards of an era *)

Lemma add_rewards_ok {E} k r l : rewards_u64 -> 0 <= k -> (k + 1) * max_reward <= uint_max 64 -> paid k r -> paid 1 l ->
  exists r', add_rewards (E:=E) r l = Ok r' /\ paid (k + 1) r'.
Proof.
  intros Ru Hk Hfit [Lr Pr] [Ll Pl]. pose proof (weights_nonneg s WO) as Hn.
  assert (0 <= max_reward) as HM by (destruct Ru as [R1 R2]; unfold max_reward, is_uint in *; lia).
  destruct (fold_res_enum (E:=E) (fun rewards e => old ← vm_index rewards e.1;
      sum ← expect (checked_add 64 old e.2); vm_set rewards e.1 sum)
    (fun i r' => length r' = n /\ forall y x w, r' !! y = Some x -> weights s !! y = Some w -> 0 <= x /\
      total * x <= (if (y <? i)%nat then k + 1 else k) * max_reward * w) l) with (b := r) as (r' & Hr' & Lr' & Pr').
  - intros i x r' Hx [Lr' Pr'].
    destruct (lookup_lt_is_Some_2 (weights s) i) as [w Ew]; [rewrite <- Ll; by eapply lookup_lt_Some|].
    destruct (lookup_lt_is_Some_2 r' i) as [old Eo]; [rewrite Lr', <- Ll; by eapply lookup_lt_Some|].
    destruct (Pr' i old w Eo Ew) as [Ho Ho']. rewrite Nat.ltb_irrefl in Ho'. destruct (Pl i x w Hx Ew) as [Hx0 Hx1].
    assert (0 <= w <= total) as Hw.
    { split; [rewrite Forall_forall in Hn; apply Hn; by eapply list_elem_of_lookup_2|].
      rewrite <- (wt_single _ _ _ Ew), <- wt_all. by apply wt_le. }
    assert (total * (old + x) <= (k + 1) * max_reward * w) as Hsum by lia.
    pose proof (so_total _ (inv_static _ I)) as Ht.
    assert (old + x <= uint_max 64) as Hf.
    { apply (Z.mul_le_mono_pos_l _ _ total); [lia|]. etrans; [exact Hsum|]. rewrite (Z.mul_comm total). apply Z.mul_le_mono_nonneg; lia. }
    cbn [fst snd]. unfold vm_index. rewrite Eo. cbn [expect mbind res_bind]. unfold checked_add.
    rewrite (proj2 (Z.leb_le _ _)) by done. cbn [expect mbind res_bind].
    assert (i < length r')%nat as Hi by (by eapply lookup_lt_Some).
    unfold vm_set. rewrite (proj2 (Nat.ltb_lt _ _)) by done. eexists. split; [done|]. split; [by rewrite length_insert|].
    intros y z v [(<- & <- & _)|[Hne Hy]]%list_lookup_insert_Some Ev.
    + rewrite (proj2 (Nat.ltb_lt _ _)) by lia. assert (v = w) as -> by congruence. lia.
    + destruct (Pr' y z v Hy Ev) as [Hz Hz']. split; [done|].
      assert ((y <? S i)%nat = (y <? i)%nat) as -> by (apply eq_true_iff_eq; rewrite !Nat.ltb_lt; lia). done.
  - split; [done|]. intros y x w. by apply Pr.
  - exists r'. split; [exact Hr'|]. split; [done|]. intros y x w Hy Ew. destruct (Pr' y x w Hy Ew) as [Hx Hx'].
    rewrite (proj2 (Nat.ltb_lt _ _)) in Hx'; [done|]. rewrite Ll. by eapply lookup_lt_Some.
Qed.

Lemma block_parent_cases b blk : blocks s !! b = Some blk ->
  match Block_parent blk with
  | Some p => exists pb, blocks s !! p = Some pb /\ height pb = height blk - 1
  | None => height blk = 0
  end.
Proof.
  intros Eb. pose proof (next_rank _ (wf_chains _ WF) b (height blk) (skip_idx blk)) as Hx.
  unfold block_info in Hx at 1. rewrite Eb in Hx. specialize (Hx eq_refl).
  assert (next_of (block_info s) b = head (skip_idx blk)) as Hn by (unfold next_of, block_info; by rewrite Eb).
  rewrite Hn in Hx. unfold Block_parent. destruct (head (skip_idx blk)) as [p|]; [|done].
  destruct Hx as [_ Hr]. unfold rank_of, block_info in Hr. destruct (blocks s !! p) as [pb|]; [|done].
  injection Hr as Hr. by exists pb.
Qed.

Lemma ancestors_ok {E} fuel : forall b blk, blocks s !! b = Some blk -> height blk < Z.of_nat fuel ->
  exists l, ancestors_from (E:=E) fuel s (Some b) = Ok l /\ Z.of_nat (length l) = height blk + 1 /\ Forall (block_known s) l.
Proof.
  induction fuel as [|fuel IH]; intros b blk Eb Hf; pose proof (height_range s WF SM b blk Eb) as Hh; [lia|].
  cbn [ancestors_from]. unfold st_block, maybe_block. rewrite Eb. cbn [expect mbind res_bind].
  pose proof (block_parent_cases b blk Eb) as Hp. destruct (Block_parent blk) as [p|].
  - destruct Hp as (pb & Epb & Hpb). destruct (IH p pb Epb ltac:(lia)) as (l & -> & Hl & Kl).
    eexists. split; [done|]. split; [cbn [length]; lia|]. constructor; [by eexists|done].
  - destruct fuel; (eexists; split; [done|]; split; [cbn [length]; lia|]); (constructor; [by eexists|done]).
Qed.

Lemma ancestor_hashes_ok {E} b blk : blocks s !! b = Some blk -> exists l, ancestor_hashes (E:=E) s b = Ok l /\
  Z.of_nat (length l) = height blk /\ Forall (block_known s) l.
Proof.
  intros Eb. unfold ancestor_hashes, st_block, maybe_block. rewrite Eb. cbn [expect mbind res_bind].
  pose proof (block_parent_cases b blk Eb) as Hp. destruct (Block_parent blk) as [p|].
  - destruct Hp as (pb & Epb & Hpb). pose proof (height_range s WF SM p pb Epb) as Hh.
    destruct (ancestors_ok (E:=E) (S (size (blocks s))) p pb Epb ltac:(lia)) as (l & -> & Hl & Kl).
    exists l. split_and!; [done|lia|done].
  - exists []. split_and!; [done|by rewrite Hp|done].
Qed.

(** The rewards of all ancestors of a block: each of them pays at most one reward,
    and every validator gets at most its share of it. *)
Lemma compute_rewards_ok {E} b blk : rewards_u64 -> total < uint_max 64 -> blocks s !! b = Some blk ->
  height blk * max_reward <= uint_max 64 ->
  exists r, compute_rewards (E:=E) s b = Ok r /\ paid (height blk) r.
Proof.
  intros Ru Hroom Eb Hfit. destruct (wf_blocks _ WF b ltac:(by eexists)) as [u Eu]. unfold compute_rewards.
  rewrite (st_unit_known s b u Eu). cbn [mbind res_bind]. cbv zeta.
  destruct (ancestor_hashes_ok (E:=E) b blk Eb) as (l & -> & Hlen & Kl). cbn [mbind res_bind].
  rewrite (wfu_len _ _ _ (wf_units _ WF _ _ Eu)).
  assert (0 <= max_reward) as HM by (destruct Ru as [R1 R2]; unfold max_reward, is_uint in *; lia).
  enough (forall k r, 0 <= k -> paid k r -> (k + Z.of_nat (length l)) * max_reward <= uint_max 64 -> exists r',
    fold_res (fun rewards h => l ← compute_rewards_for (E:=E) s (u_panorama u) h; add_rewards rewards l) r l = Ok r' /\
    paid (k + Z.of_nat (length l)) r') as G.
  { rewrite <- Hlen. apply (G 0); [done|by apply paid_nothing|by rewrite Z.add_0_l, Hlen]. }
  clear Hlen Eb Hfit. induction Kl as [|h l Kh _ IH]; intros k r Hk Pr Hf; cbn [fold_res length] in *.
  { rewrite Z.add_0_r. by exists r. }
  destruct (rewards_for_ok (E:=E) b u h Ru Hroom Eu Kh) as (r1 & -> & P1). cbn [mbind res_bind].
  destruct (add_rewards_ok (E:=E) k r r1 Ru Hk ltac:(nia) Pr P1) as (r2 & -> & P2). cbn [mbind res_bind].
  replace (k + Z.of_nat (S (length l))) with (k + 1 + Z.of_nat (length l)) in * by lia.
  apply IH; [lia|done|done].
Qed.

Lemma zsum_scaled (T c : Z) (r : list Z) : forall ws, length r = length ws ->
  (forall y x w, r !! y = Some x -> ws !! y = Some w -> T * x <= c * w) -> T * zsum r <= c * zsum ws.
Proof.
  induction r as [|x r IH]; intros [|w ws] Hl H; try done; [unfold zsum; cbn; lia|].
  pose proof (H 0%nat x w eq_refl eq_refl). specialize (IH ws ltac:(cbn in Hl; lia) (fun y => H (S y))).
  unfold zsum in *. cbn [foldr]. lia.
Qed.

(** All that validators get for [k] blocks. *)
Lemma paid_total k r : paid k r -> Forall (Z.le 0) r /\ zsum r <= k * max_reward.
Proof.
  intros [Lr Pr]. pose proof (so_total _ (inv_static _ I)) as Ht. split.
  - apply Forall_lookup. intros y x Hx. destruct (lookup_lt_is_Some_2 (weights s) y) as [w Ew]; [rewrite <- Lr; by eapply lookup_lt_Some|].
    by destruct (Pr y x w Hx Ew).
  - apply (Z.mul_le_mono_pos_l _ _ total); [lia|]. rewrite (Z.mul_comm total (k * max_reward)).
    apply (zsum_scaled total); [done|]. intros y x w Hx Ew. by destruct (Pr y x w Hx Ew).
Qed.

End Rewards.
