(* ===== verification/HighwaySafety.v ===== *)
(** * Finality

    What a node's finality detector promises about the states that the node, or any
    other node of the network, reaches later. *)

From S2P Require Import Prelude Highway HighwaySkip HighwayInv HighwayTally HighwayFork HighwayAdd HighwayLeader HighwayValidate HighwayMerge HighwayVertex HighwayActive HighwayOwn HighwayNode HighwayRun HighwayVotes HighwayFinality HighwayHorizon HighwaySummit HighwayDetector HighwayRewards.

Local Open Scope Z_scope.

Section Safety.
Context {C : ConsensusContext} {VH : VertexHash} {VS : ValidatorSecret} {LR : LeaderRng} {BS : BinarySearch}.
Implicit Types (s : State) (hw : Highway) (fd : FinalityDetector) (b : Hash).

(** ** What nodes do keeps votes with the majority *)

Lemma add_vertex_state hw v now hw' effects : node_ok hw -> vertex_ok v -> room hw ->
  do_pre_validate_vertex hw v = Ok tt -> missing_dependency hw v = None -> do_validate_vertex hw v = Ok tt ->
  add_valid_vertex (E:=VertexError) 1 hw v now = Ok (hw', effects) -> votes_follow (state hw) ->
  votes_follow (state hw') /\ extends (state hw) (state hw').
Proof.
  intros N Wv Rm Pre Dep Val Add VF. pose proof (no_inv _ N) as I. pose proof (no_observer _ N) as Ob.
  assert (forall s', units s' = units (state hw) -> blocks s' = blocks (state hw) -> weights s' = weights (state hw) ->
    votes_follow s' /\ extends (state hw) s') as Same.
  { intros s' Eu Eb Ew. split; [by eapply votes_follow_same|]. split; by rewrite ?Eu, ?Eb. }
  cbn [add_valid_vertex] in Add. destruct (has_vertex hw v); [injection Add as <- _; by apply Same|].
  destruct v as [sw|ev|e|ping].
  - apply map_err_Ok in Val.
    destruct (inv_add (state hw) I sw Wv (pre_validated_unit hw sw Pre) (missing_unit hw sw Dep) (E:=VertexError) Val Rm)
      as (s' & Es' & I').
    destruct (observer_unit (E:=VertexError) (fun _ _ _ => OutOfFuel) hw sw now s' Ob Es') as (eff & Heff).
    rewrite Heff in Add. injection Add as <- _.
    apply (votes_follow_add (E:=VertexError) (state hw) sw s' I Wv); try done; [by apply pre_validated_unit|by apply missing_unit].
  - unfold do_pre_validate_vertex in Pre. apply map_err_Ok in Pre. pose proof (perpetrator_lt hw ev N Pre) as Hp.
    destruct (add_evidence_ok (E:=VertexError) (state hw) ev I Hp) as (s' & f & Es' & Hs').
    unfold hw_add_evidence in Add. rewrite Es' in Add. cbn [mbind res_bind] in Add.
    assert (state hw' = s') as ->.
    { destruct f; [rewrite observer_evidence in Add by done|]; by injection Add as <- _. }
    destruct Hs' as [->|F]; [by apply Same|]. apply Same; [apply F|apply F|apply (ss_weights _ _ (fd_static _ _ _ F))].
  - unfold do_pre_validate_vertex in Pre. apply map_err_Ok in Pre. apply bind_Ok in Pre as ([] & _ & Pre).
    destruct (add_endorsements_core (E:=VertexError) (state hw) e I (no_endorse _ N) (endorsers_lt hw _ _ N Pre))
      as (s' & Es' & Sc & _). unfold hw_add_endorsements in Add. rewrite Es' in Add. injection Add as <- _.
    apply Same; [apply Sc|apply Sc|apply (ss_weights _ _ (sc_static _ _ Sc))].
  - unfold do_pre_validate_vertex in Pre. apply map_err_Ok in Pre. unfold Ping_validate in Pre.
    apply bind_Ok in Pre as ([] & _ & Pre). apply bind_Ok in Pre as (v & Hv%ok_or_Ok & _).
    pose proof (validator_id_lt hw _ v N Hv) as Hlt.
    destruct (add_ping_core (E:=VertexError) (state hw) (p_creator ping) (p_timestamp ping) I Hlt) as (s' & Es' & Sc & _).
    unfold hw_add_ping in Add. rewrite Es' in Add. injection Add as <- _.
    apply Same; [apply Sc|apply Sc|apply (ss_weights _ _ (sc_static _ _ Sc))].
Qed.

Lemma step_state hw hw' : node_ok hw -> step hw hw' -> votes_follow (state hw) ->
  votes_follow (state hw') /\ extends (state hw) (state hw').
Proof.
  intros N [v now hw1 eff Wv Rm Pre Dep Val Add|vid hw1 Hm] VF; [by eapply add_vertex_state|].
  unfold hw_mark_faulty in Hm. destruct (get_index (validators hw) vid) as [idx|] eqn:Ei.
  - destruct (mark_faulty_ok (E:=VertexError) (state hw) idx (no_inv _ N) (no_index _ N _ _ Ei)) as (s' & Es' & F).
    rewrite Es' in Hm. injection Hm as <-. pose proof (ss_weights _ _ (fd_static _ _ _ F)) as Ew.
    split; [eapply votes_follow_same; [apply F|apply F|done|done]|].
    split; cbn; rewrite ?(fd_units _ _ _ F), ?(fd_blocks _ _ _ F); done.
  - injection Hm as <-. split; [done|apply extends_refl].
Qed.

Lemma reachable_follow hw : reachable hw -> votes_follow (state hw).
Proof.
  induction 1 as [iid v ps hw V P Hmin Hmax Hn|hw hw' R VF St].
  - unfold Highway_new in Hn. apply bind_Ok in Hn as (s & Es & Hn). injection Hn as <-.
    unfold State_new in Es. repeat (apply bind_Ok in Es as (? & _ & Es)). injection Es as <-.
    intros h u Hu. cbn in Hu. by rewrite lookup_empty in Hu.
  - by apply (step_state hw hw' (reachable_ok hw R) St VF).
Qed.

(** The states a node goes through only grow. *)
Lemma steps_extend hw hw' : reachable hw -> rtc step hw hw' -> reachable hw' /\ extends (state hw) (state hw').
Proof.
  intros R St. induction St as [hw|hw1 hw2 hw3 St _ IH]; [split; [done|apply extends_refl]|].
  destruct (step_state hw1 hw2 (reachable_ok _ R) St (reachable_follow _ R)) as [_ E12].
  destruct IH as [R3 E23]; [by eapply reach_step|]. split; [done|by eapply extends_trans].
Qed.

(** ** Summits are final *)

(** The weight of the validators that [s] knows to be faulty. *)
Definition faults_of s : Z := wt (weights s) (faulty_in (panorama s)).

Lemma faults_of_code {E} s : inv s -> faulty_weight_in (E:=E) s (panorama s) = Ok (faults_of s).
Proof. intros I. apply faulty_weight_eq; [done|]. apply (wf_pan_len _ (inv_wf _ I)). Qed.

Lemma summit_final {E} fd s s' b k q : inv s -> inv s' -> extends s s' -> votes_follow s' ->
  detector_ok s fd -> block_known s b -> (1 <= k)%nat -> enough s fd k q -> summit s b q k ->
  faults_of s' < ftt fd ->
  exists r, fork_choice (E:=E) s' (panorama s') = Ok (Some r) /\ supports s' b r = true.
Proof.
  intros I I' EX VF D Kb Hk Hq (sn & com & HL & H0 & H1 & HS) Hf. pose proof (do_ftt _ _ D) as F0. unfold enough in Hq.
  assert (2 <= 2 ^ Z.of_nat k) as Hp by (change 2 with (2 ^ 1) at 1; apply Z.pow_le_mono_r; lia).
  assert (cites_known s' (panorama s')) as K.
  { intros i h Hi. destruct (wf_latest _ (inv_wf _ I') _ _ Hi) as [(u & Eu & _) _]. by exists u. }
  assert (majority_for s' (panorama s') b) as M.
  { apply (summit_majority s s' (inv_wf _ I) (inv_small _ I) (inv_weights_ok _ I) (inv_wf _ I') EX VF b Kb q k sn com
      HL H0 H1) with (ftt := ftt fd); [intros j Hj; by apply HS|nia|done| | |exact Hq].
    - destruct k as [|k]; [lia|]. apply (HS k). lia.
    - unfold faults_of in Hf. by rewrite (ex_weights _ _ EX) in Hf. }
  destruct (fork_choice_spec s' (inv_wf _ I') (inv_small _ I') (panorama s') K (inv_weights_ok _ I') (E:=E)) as (r & Hr & _).
  destruct (majority_fork_choice s' (inv_wf _ I') (inv_small _ I') (inv_weights_ok _ I') (panorama s') K (E:=E) b r)
    as (x & -> & Hx); [by eapply ext_block_known|done|done|]. by exists x.
Qed.

Lemma finalized_final {E} fd fd' s s' b : inv s -> inv s' -> extends s s' -> votes_follow s' -> detector_ok s fd ->
  next_finalized (E:=E) fd s = Ok (fd', Some b) -> faults_of s' < ftt fd ->
  block_known s b /\ exists r, fork_choice (E:=E) s' (panorama s') = Ok (Some r) /\ supports s' b r = true.
Proof.
  intros I I' EX VF D Hn Hf. destruct (next_finalized_ok s I (E:=E) fd D) as (c & _ & r & Hr & Hs). rewrite Hn in Hr.
  injection Hr as <-. destruct Hs as (_ & _ & Kb & _ & k & q & Hk & Hq & Hsum).
  split; [done|]. by eapply (summit_final fd s s' b k q); try done; lia.
Qed.

Lemma supports_chain s b1 b2 r : wf s -> small s -> block_known s b1 -> block_known s b2 -> ht s b1 <= ht s b2 ->
  supports s b1 r = true -> supports s b2 r = true -> anc s b2 (ht s b1) = Some b1.
Proof.
  intros WF SM K1 K2 Hh H1%(supports_spec s WF SM b1 r K1) H2%(supports_spec s WF SM b2 r K2).
  destruct H1 as (_ & _ & A1), H2 as (_ & _ & A2). destruct (block_rank s WF SM b1 K1) as [_ Hn].
  by rewrite (anc_trans s WF r _ b2 _ A2).
Qed.

(** ** The blocks a node finalizes *)

(** A node's history with a detector of threshold [t], and the blocks finalized so
    far, the first one first.  The detector may be asked at any time. *)
Inductive finalizes (t : Weight) : Highway -> FinalityDetector -> list Hash -> Prop :=
| fin_new hw fd : reachable hw -> zsum (weights (state hw)) + 2 * t <= 2 * uint_max 64 ->
    FinalityDetector_new (E:=FttExceeded) t = Ok fd -> finalizes t hw fd []
| fin_step hw hw' fd l : finalizes t hw fd l -> step hw hw' -> finalizes t hw' fd l
| fin_next hw fd fd' l b : finalizes t hw fd l ->
    next_finalized (E:=FttExceeded) fd (state hw) = Ok (fd', Some b) -> finalizes t hw fd' (l ++ [b]).

(** Nothing that can still happen removes [b] from the fork choice. *)
Definition final (t : Weight) s b : Prop := forall s', inv s' -> extends s s' -> votes_follow s' -> faults_of s' < t ->
  exists r, fork_choice (E:=FttExceeded) s' (panorama s') = Ok (Some r) /\ supports s' b r = true.

Lemma final_extends t s s' b : extends s s' -> final t s b -> final t s' b.
Proof. intros E F s2 I2 E2. apply F; [done|by eapply extends_trans]. Qed.

Record history_ok (t : Weight) hw fd (l : list Hash) : Prop := {
  ho_reach : reachable hw;
  ho_detector : detector_ok (state hw) fd;
  ho_ftt : ftt fd = t;
  ho_last : last_finalized fd = last l;
  ho_blocks i b : l !! i = Some b -> block_known (state hw) b /\ ht (state hw) b = Z.of_nat i /\ final t (state hw) b;
}.

Lemma detector_extends s s' fd : extends s s' -> detector_ok s fd -> detector_ok s' fd.
Proof.
  intros EX [F0 F1 F2]. split; [done|by rewrite (ex_weights _ _ EX)|].
  intros b Hb. destruct (F2 b Hb) as [blk Eb]. exists blk. by eapply lookup_weaken, (ex_blocks _ _ EX).
Qed.

Lemma history_height t hw fd l : history_ok t hw fd l -> last_height (state hw) fd + 1 = Z.of_nat (length l).
Proof.
  intros H. unfold last_height. rewrite (ho_last _ _ _ _ H). destruct (last l) as [b|] eqn:El.
  - rewrite last_lookup in El. destruct (ho_blocks _ _ _ _ H _ _ El) as (_ & -> & _).
    apply lookup_lt_Some in El. lia.
  - apply last_None in El. by subst l.
Qed.

Lemma history_step t hw hw' fd l : history_ok t hw fd l -> step hw hw' -> history_ok t hw' fd l.
Proof.
  intros [R D Ft La Bl] St. pose proof (reachable_ok _ R) as N.
  destruct (step_state hw hw' N St (reachable_follow _ R)) as [_ EX].
  assert (reachable hw') as R' by (by eapply reach_step). split; [done|by eapply detector_extends|done|done|].
  intros i b Hb. destruct (Bl i b Hb) as (Kb & Hh & Hf).
  pose proof (no_inv _ N) as I. split_and!; [by eapply ext_block_known| |by eapply final_extends].
  by rewrite (ext_ht _ _ (inv_wf _ I) (inv_small _ I) EX b Kb).
Qed.

Lemma history_next t hw fd fd' l b : history_ok t hw fd l ->
  next_finalized (E:=FttExceeded) fd (state hw) = Ok (fd', Some b) -> history_ok t hw fd' (l ++ [b]).
Proof.
  intros H Hn. pose proof H as [R D Ft La Bl]. pose proof (no_inv _ (reachable_ok _ R)) as I.
  destruct (next_finalized_ok (state hw) I (E:=FttExceeded) fd D) as (c & _ & r & Hr & Hs). rewrite Hn in Hr.
  injection Hr as <-. cbn in Hs. destruct Hs as (-> & _ & Kb & Hh & _). split; [done| |done| |].
  - destruct D as [F0 F1 F2]. split; [done|done|]. cbn. by intros b' [= <-].
  - cbn. by rewrite last_snoc.
  - intros i b' [Hi|[Hi Hb]]%lookup_app_Some; [by apply Bl|]. apply list_lookup_singleton_Some in Hb as [Hz <-].
    split_and!; [done|rewrite Hh, (history_height _ _ _ _ H); lia|]. intros s' I' EX VF Hf.
    apply (finalized_final fd (set_last_finalized fd (Some b)) (state hw) s' b); [done..|by rewrite Ft].
Qed.

Lemma finalizes_ok t hw fd l : finalizes t hw fd l -> history_ok t hw fd l.
Proof.
  induction 1 as [hw fd R Hs Hn|hw hw' fd l _ IH St|hw fd fd' l b _ IH Hn].
  - unfold FinalityDetector_new, rassert in Hn. destruct (0 <? t) eqn:Ht; [|done]. injection Hn as <-.
    split; [done|split; cbn; [lia|done|done]|done|done|done].
  - by eapply history_step.
  - by eapply history_next.
Qed.

(** Two histories whose blocks are all known in the state [s]. *)
Lemma histories_agree t1 t2 hw1 hw2 fd1 fd2 l1 l2 s : history_ok t1 hw1 fd1 l1 -> history_ok t2 hw2 fd2 l2 ->
  inv s -> votes_follow s -> extends (state hw1) s -> extends (state hw2) s -> faults_of s < t1 -> faults_of s < t2 ->
  forall i j b1 b2, l1 !! i = Some b1 -> l2 !! j = Some b2 -> (i <= j)%nat -> anc s b2 (Z.of_nat i) = Some b1.
Proof.
  intros H1 H2 I VF E1 E2 F1 F2 i j b1 b2 Hb1 Hb2 Hij.
  destruct (ho_blocks _ _ _ _ H1 _ _ Hb1) as (K1 & Ht1 & Fi1), (ho_blocks _ _ _ _ H2 _ _ Hb2) as (K2 & Ht2 & Fi2).
  pose proof (no_inv _ (reachable_ok _ (ho_reach _ _ _ _ H1))) as I1.
  pose proof (no_inv _ (reachable_ok _ (ho_reach _ _ _ _ H2))) as I2.
  destruct (Fi1 s I E1 VF F1) as (r & Hr & S1). destruct (Fi2 s I E2 VF F2) as (r' & Hr' & S2).
  rewrite Hr in Hr'. injection Hr' as <-.
  pose proof (ext_ht _ _ (inv_wf _ I1) (inv_small _ I1) E1 b1 K1) as X1.
  pose proof (ext_ht _ _ (inv_wf _ I2) (inv_small _ I2) E2 b2 K2) as X2. rewrite <- Ht1, <- X1.
  apply (supports_chain s b1 b2 r (inv_wf _ I) (inv_small _ I)); [by eapply (ext_block_known (state hw1))|
    by eapply (ext_block_known (state hw2))|lia|done|done].
Qed.

(** ** Running the detector *)

(** The amounts of the era fit: rewards and times do not exceed their 64 bits, and
    neither does one more than the total weight. *)
Record era_fits s : Prop := {
  ef_rewards : rewards_u64 s;
  ef_total : zsum (weights s) < uint_max 64;
  ef_paid : Z.of_nat (size (blocks s)) * max_reward s <= uint_max 64;
  ef_times h u : units s !! h = Some u -> timestamp u + max_round_length (params s) <= uint_max 64;
}.

Lemma to_ids_ok {E} hw (l : list ValidatorIndex) : node_ok hw -> Forall (fun y => (y < length (weights (state hw)))%nat) l ->
  exists ids, map_res (E:=E) (fun y => expect (validator_id (validators hw) y)) l = Ok ids.
Proof.
  intros N Hl. induction Hl as [|y l Hy _ [ids IH]]; cbn [map_res]; [by eexists|].
  destruct (lookup_lt_is_Some_2 (vs (validators hw)) y) as [v Ev]; [by rewrite (no_len _ N)|].
  assert (validator_id (validators hw) y = Some (v_id v)) as -> by (unfold validator_id; by rewrite Ev).
  cbn [expect mbind res_bind]. rewrite IH. by eexists.
Qed.

Lemma terminal_data_ok {E} hw b blk u : node_ok hw -> era_fits (state hw) -> blocks (state hw) !! b = Some blk ->
  units (state hw) !! b = Some u -> exists d, create_terminal_block_data (E:=E) b u hw = Ok d.
Proof.
  intros N [Ru Ht Hp Hti] Eb Eu. pose proof (no_inv _ N) as I. pose proof (inv_wf _ I) as WF. pose proof (inv_small _ I) as SM.
  unfold create_terminal_block_data. cbv zeta. destruct (height_range _ WF SM b blk Eb) as [Hh _].
  destruct (compute_rewards_ok _ I (E:=E) b blk Ru Ht Eb) as (r & -> & Lr & _).
  { assert (0 <= max_reward (state hw)) by (destruct Ru as [R1 R2]; unfold max_reward, is_uint in *; lia). nia. }
  cbn [mbind res_bind].
  assert (exists rs, map_res (E:=E) (fun e => id ← expect (validator_id (validators hw) e.1); mret (id, e.2)) (enumerate r) = Ok rs) as [rs ->].
  { assert (Forall (fun e : nat * Z => (e.1 < length (weights (state hw)))%nat) (enumerate r)) as Hl.
    { apply Forall_forall. intros [y x] Hy%elem_of_enumerate. rewrite <- Lr. by eapply lookup_lt_Some. }
    induction Hl as [|[y x] l Hy _ [ids IH]]; cbn [map_res]; [by eexists|].
    destruct (lookup_lt_is_Some_2 (vs (validators hw)) y) as [v Ev]; [by rewrite (no_len _ N)|].
    assert (validator_id (validators hw) y = Some (v_id v)) as Hv by (unfold validator_id; by rewrite Ev).
    cbn [fst snd]. rewrite Hv. cbn [expect mbind res_bind mret res_ret]. rewrite IH. by eexists. }
  cbn [mbind res_bind]. rewrite (find_ancestor_proposal_eq _ WF SM b blk 0 Eb ltac:(lia)). cbn [mbind res_bind].
  destruct (anc_total _ WF SM b 0) as (x & Hx & Kx & _); [by eexists|unfold ht, rank_of, block_info; rewrite Eb; cbn; lia|].
  unfold anc in Hx. rewrite Hx. cbn [expect mbind res_bind]. destruct (wf_blocks _ WF x Kx) as [ux Ex].
  rewrite (st_unit_known _ x ux Ex). cbn [mbind res_bind]. unfold u64_add, plain_add, checked_add.
  rewrite (proj2 (Z.leb_le _ _)) by (by eapply Hti). cbn [expect mbind res_bind].
  destruct (to_ids_ok (E:=E) hw (iter_none (u_panorama u)) N) as [ids Hids].
  { apply (filter_members (state hw) _ (u_panorama u)). apply (wfu_len _ _ _ (wf_units _ WF _ _ Eu)). }
  destruct (_ <=? timestamp u); [rewrite Hids|]; by eexists.
Qed.

Lemma finalized_block_ok {E} hw b : node_ok hw -> era_fits (state hw) -> block_known (state hw) b ->
  exists fb, finalized_block (E:=E) hw b = Ok fb /\ relative_height fb = ht (state hw) b.
Proof.
  intros N F [blk Eb]. pose proof (no_inv _ N) as I. pose proof (inv_wf _ I) as WF. unfold finalized_block. cbv zeta.
  destruct (wf_blocks _ WF b ltac:(by eexists)) as [u Eu]. pose proof (wf_units _ WF _ _ Eu) as Wu.
  unfold st_block, maybe_block. rewrite Eb. cbn [expect mbind res_bind]. rewrite (st_unit_known _ b u Eu). cbn [mbind res_bind].
  destruct (is_terminal_total _ I (E:=E) b) as [term ->]. cbn [mbind res_bind].
  destruct (terminal_data_ok (E:=E) hw b blk u N F Eb Eu) as [d Hd].
  assert (exists od, (if term then Some <$> create_terminal_block_data (E:=E) b u hw else Ok None) = Ok od) as [od ->].
  { destruct term; [rewrite Hd|]; by eexists. }
  cbn [mbind res_bind]. destruct (to_ids_ok (E:=E) hw (iter_faulty (u_panorama u)) N) as [ids ->].
  { apply (filter_members (state hw) _ (u_panorama u)). apply (wfu_len _ _ _ Wu). }
  cbn [mbind res_bind]. unfold validator_id.
  destruct (lookup_lt_is_Some_2 (vs (validators hw)) (creator u)) as [v ->].
  { rewrite (no_len _ N), <- (wfu_len _ _ _ Wu). eapply lookup_lt_Some, (wfu_own _ _ _ Wu). }
  cbn. eexists. split; [done|]. cbn. unfold ht, rank_of, block_info. by rewrite Eb.
Qed.

Lemma history_length t hw fd l : history_ok t hw fd l -> (length l <= size (blocks (state hw)))%nat.
Proof.
  intros H. destruct (last l) as [b|] eqn:El; [|apply last_None in El; subst; cbn; lia].
  rewrite last_lookup in El. destruct (ho_blocks _ _ _ _ H _ _ El) as (Kb & Hh & _).
  pose proof (no_inv _ (reachable_ok _ (ho_reach _ _ _ _ H))) as I.
  pose proof (ht_bound _ (inv_wf _ I) (inv_small _ I) b Kb). lia.
Qed.

Lemma finalize_all_ok t hw fuel : era_fits (state hw) -> forall fd l, finalizes t hw fd l ->
  (size (blocks (state hw)) < fuel + length l)%nat ->
  exists fd' hs bs, finalize_all (E:=FttExceeded) fuel fd hw = Ok (fd', bs) /\ finalizes t hw fd' (l ++ hs) /\
    Forall2 (fun h fb => finalized_block (E:=FttExceeded) hw h = Ok fb /\ relative_height fb = ht (state hw) h) hs bs /\
    next_finalized (E:=FttExceeded) fd' (state hw) = Ok (fd', None).
Proof.
  intros F. induction fuel as [|fuel IH]; intros fd l Hfin Hf; pose proof (finalizes_ok _ _ _ _ Hfin) as H.
  { pose proof (history_length _ _ _ _ H). lia. }
  pose proof (reachable_ok _ (ho_reach _ _ _ _ H)) as N. cbn [finalize_all].
  destruct (next_finalized_ok (state hw) (no_inv _ N) (E:=FttExceeded) fd (ho_detector _ _ _ _ H)) as (c & _ & [fd1 ob] & Hn & Hs).
  rewrite Hn. cbn [mbind res_bind fst snd] in *. destruct ob as [b|].
  - destruct Hs as (-> & _ & Kb & _ & _). destruct (finalized_block_ok (E:=FttExceeded) hw b N F Kb) as (fb & Hfb & Hrh). rewrite Hfb.
    cbn [mbind res_bind]. assert (finalizes t hw (set_last_finalized fd (Some b)) (l ++ [b])) as Hfin'.
    { eapply fin_next; [exact Hfin|]. exact Hn. }
    destruct (IH _ _ Hfin') as (fd' & hs & bs & -> & Hfin2 & Hbs & Hend); [rewrite length_app; cbn; lia|].
    cbn [mbind res_bind]. exists fd', (b :: hs), (fb :: bs). rewrite <- app_assoc in Hfin2.
    split_and!; [done|done|by constructor|done].
  - destruct Hs as [-> _]. exists fd, [], []. rewrite app_nil_r. split_and!; [done|done|constructor|done].
Qed.

End Safety.

(** C1 Nodes agree on what is final.  Take the histories of any two nodes, with
    finality detectors of thresholds [t1] and [t2] that are asked at arbitrary times,
    and any node that knows at least the units the two know.  If the validators which
    that node knows to be faulty have less weight than both thresholds, then the
    sequence of blocks that one of the two nodes finalized is a prefix of the other's. *)
Theorem finality_agreement {C : ConsensusContext} {VH : VertexHash} {VS : ValidatorSecret} {LR : LeaderRng}
    {BS : BinarySearch} (t1 t2 fw : Weight) (hw1 hw2 hw : Highway) (fd1 fd2 : FinalityDetector) (l1 l2 : list Hash) :
  finalizes t1 hw1 fd1 l1 -> finalizes t2 hw2 fd2 l2 -> reachable hw ->
  extends (state hw1) (state hw) -> extends (state hw2) (state hw) ->
  faulty_weight (E:=FttExceeded) (state hw) = Ok fw -> fw < t1 -> fw < t2 ->
  l1 `prefix_of` l2 \/ l2 `prefix_of` l1.
Proof.
  intros H1%finalizes_ok H2%finalizes_ok R E1 E2 Hw F1 F2. pose proof (no_inv _ (reachable_ok _ R)) as I.
  unfold faulty_weight in Hw. rewrite (faults_of_code _ I) in Hw. injection Hw as <-. pose proof (reachable_follow _ R) as VF.
  apply same_prefix. intros i b1 b2 Hb1 Hb2.
  pose proof (histories_agree _ _ _ _ _ _ _ _ _ H1 H2 I VF E1 E2 F1 F2 i i b1 b2 Hb1 Hb2 ltac:(lia)) as A.
    pose proof (histories_agree _ _ _ _ _ _ _ _ _ H2 H2 I VF E2 E2 F2 F2 i i b2 b2 Hb2 Hb2 ltac:(lia)) as B. congruence.
Qed.

(** C8 What is final stays final.  In the history of a node, the [i]-th block it
    finalized has height [i], and at every later time it is the block of that height
    on the chain that the fork choice selects, as long as less than the detector's
    threshold is known to be faulty.  In particular each finalized block is a
    descendant of those finalized before. *)
Theorem finality_persists {C : ConsensusContext} {VH : VertexHash} {VS : ValidatorSecret} {LR : LeaderRng}
    {BS : BinarySearch} (t fw : Weight) (hw hw' : Highway) (fd : FinalityDetector) (l : list Hash) (i : nat) (b : Hash) :
  finalizes t hw fd l -> rtc step hw hw' -> faulty_weight (E:=FttExceeded) (state hw') = Ok fw -> fw < t ->
  l !! i = Some b ->
  exists blk fc, blocks (state hw') !! b = Some blk /\ height blk = Z.of_nat i /\
    fork_choice (E:=FttExceeded) (state hw') (panorama (state hw')) = Ok (Some fc) /\
    find_ancestor_proposal (E:=FttExceeded) (state hw') fc (Z.of_nat i) = Ok (Some b).
Proof.
  intros H%finalizes_ok St Hw F Hb. pose proof (ho_reach _ _ _ _ H) as R. pose proof (no_inv _ (reachable_ok _ R)) as I0.
  destruct (steps_extend hw hw' R St) as [R' EX]. pose proof (no_inv _ (reachable_ok _ R')) as I.
  unfold faulty_weight in Hw. rewrite (faults_of_code _ I) in Hw. injection Hw as <-.
  destruct (ho_blocks _ _ _ _ H i b Hb) as (Kb & Hh & Fi). destruct (Fi _ I EX (reachable_follow _ R') F) as (fc & Hfc & Hs).
  pose proof (ext_block_known _ _ EX b Kb) as Kb'. pose proof (ext_ht _ _ (inv_wf _ I0) (inv_small _ I0) EX b Kb) as Hh'.
  apply (supports_spec _ (inv_wf _ I) (inv_small _ I) b fc Kb') in Hs as ([bf Ef] & _ & Ha).
  destruct Kb' as [blk Eb]. exists blk, fc. split_and!; [done| |done|].
  - rewrite Hh in Hh'. unfold ht, rank_of, block_info in Hh'. rewrite Eb in Hh'. exact Hh'.
  - rewrite (find_ancestor_proposal_eq _ (inv_wf _ I) (inv_small _ I) fc bf (Z.of_nat i) Ef) by lia.
    rewrite Hh', Hh in Ha. by f_equal.
Qed.

(** C14 The detector finds what is final.  Asked for the next finalized block, it always
    returns.  It looks at the block of the next height on the chain that the fork
    choice selects, and answers with this block exactly if there is a summit for it
    with a number of levels and a quorum that the detector's threshold asks for. *)
Theorem detector_complete {C : ConsensusContext} {VH : VertexHash} {VS : ValidatorSecret} {LR : LeaderRng}
    {BS : BinarySearch} (t : Weight) (hw : Highway) (fd : FinalityDetector) (l : list Hash) :
  finalizes t hw fd l ->
  exists c, next_candidate (E:=FttExceeded) fd (state hw) = Ok c /\
    (forall b, c = Some b -> exists fc, fork_choice (E:=FttExceeded) (state hw) (panorama (state hw)) = Ok (Some fc) /\
       find_ancestor_proposal (E:=FttExceeded) (state hw) fc (Z.of_nat (length l)) = Ok (Some b)) /\
    exists fd' r, next_finalized (E:=FttExceeded) fd (state hw) = Ok (fd', r) /\
      forall b, r = Some b <-> c = Some b /\ has_summit (state hw) fd b.
Proof.
  intros H%finalizes_ok. pose proof (no_inv _ (reachable_ok _ (ho_reach _ _ _ _ H))) as I.
  destruct (next_finalized_ok _ I (E:=FttExceeded) fd (ho_detector _ _ _ _ H)) as (c & Hc & [fd' r] & Hr & Hs).
  exists c. split_and!; [done| |].
  - intros b ->. destruct (next_candidate_ok _ I (E:=FttExceeded) fd (ho_detector _ _ _ _ H)) as (c & Hc' & Hb).
    rewrite Hc in Hc'. injection Hc' as <-. destruct (Hb b eq_refl) as (Kb & Hh & fc & Hfc & Hsu). exists fc. split; [done|].
    apply (supports_spec _ (inv_wf _ I) (inv_small _ I) b fc Kb) in Hsu as ([bf Ef] & _ & Ha).
    rewrite Hh, (history_height _ _ _ _ H) in Ha.
    rewrite (find_ancestor_proposal_eq _ (inv_wf _ I) (inv_small _ I) fc bf (Z.of_nat (length l)) Ef) by lia. by f_equal.
  - exists fd', r. split; [done|]. intros b. cbn [fst snd] in Hs. destruct r as [b'|].
    + destruct Hs as (_ & -> & _ & _ & Hsum). split; [by intros [= <-]|by intros [? _]].
    + destruct Hs as [_ Hno]. split; [done|]. intros [-> Hsum]. by destruct (Hno b eq_refl).
Qed.


