(* ===== verification/HighwayEra.v ===== *)
(** * The start of an era

    Models how node/src/components/consensus/protocols/highway.rs sets up a Highway
    instance from the stakes of an era: scaling them down to 64 bits, the validators,
    and the finality threshold.  The protocol parameters are an argument, and so are
    the sets of banned and inactive validators, in any order. *)

From S2P Require Import Prelude Highway HighwaySkip HighwayInv HighwayTally HighwayFork HighwayAdd HighwayLeader HighwayValidate HighwayMerge HighwayVertex HighwayActive HighwayOwn HighwayNode HighwayRun HighwayVotes HighwayFinality HighwayHorizon HighwaySummit HighwayDetector HighwaySafety.

Local Open Scope Z_scope.

Section Era.
Context {C : ConsensusContext} {VS : ValidatorSecret}.

(** [(sum_stakes + U512::from(u64::MAX) - 1) / U512::from(u64::MAX)] *)
Definition scaling_factor {E} (sum_stakes : Z) : res E Z :=
  a ← plain_add 512 sum_stakes (uint_max 64);
  a ← plain_sub a 1;
  plain_div a (uint_max 64).

(** [AsPrimitive::<u64>::as_] takes the lowest 64 bits. *)
Definition scale_stake {E} (factor : Z) (e : ValidatorId * Z) : res E (ValidatorId * Weight) :=
  q ← plain_div e.2 factor;
  mret (e.1, wrap 64 q).

Definition era_threshold {E} (total_weight : Weight) (ftt_fraction : Z * Z) : res E Weight :=
  _ ← rassert (ftt_fraction.1 <? ftt_fraction.2);
  a ← plain_mul 128 total_weight ftt_fraction.1;
  a ← plain_div a ftt_fraction.2;
  mret (wrap 64 a).

(** The last two steps are the calls of the constructors when the protocol instance is
    put together. *)
Definition new_boxed {E} (iid : InstanceId) (validator_stakes : list (ValidatorId * Z)) (faulty inactive : list ValidatorId)
    (ftt_fraction : Z * Z) (params : Params) : res E (Highway * FinalityDetector) :=
  sum_stakes ← fold_res (plain_add 512) 0 validator_stakes.*2;
  _ ← rassert (negb (sum_stakes =? 0));
  factor ← scaling_factor sum_stakes;
  scaled ← map_res (scale_stake factor) validator_stakes;
  validators ← Validators_from_iter scaled;
  validators ← fold_res ban validators faulty;
  validators ← fold_res set_cannot_propose validators inactive;
  let '(validators, ok) := ensure_nonzero_proposing_stake validators in
  _ ← rassert ok;
  ftt ← era_threshold (vs_total_weight validators) ftt_fraction;
  highway ← Highway_new iid validators params;
  fd ← FinalityDetector_new ftt;
  mret (highway, fd).

(** ** Scaling *)

Lemma sum_plain {E} (l : list Z) : Forall (Z.le 0) l -> forall a, 0 <= a -> a + zsum l <= uint_max 512 ->
  fold_res (E:=E) (plain_add 512) a l = Ok (a + zsum l).
Proof.
  unfold zsum. induction 1 as [|x l Hx Hl IH]; intros a Ha Hs; cbn [fold_res foldr] in *; [f_equal; lia|].
  pose proof (zsum_nonneg l Hl) as Hn. unfold zsum in Hn.
  assert (plain_add (E:=E) 512 a x = Ok (a + x)) as -> by (unfold plain_add, checked_add; by rewrite (proj2 (Z.leb_le _ _)) by lia).
  cbn [mbind res_bind]. rewrite IH by lia. f_equal. lia.
Qed.

(** The factor is the quotient rounded up: the scaled sum fits into 64 bits. *)
Lemma scaling_factor_ok {E} sum : 0 < sum -> sum + uint_max 64 <= uint_max 512 ->
  let f := (sum + uint_max 64 - 1) / uint_max 64 in
  scaling_factor (E:=E) sum = Ok f /\ 0 < f /\ sum <= f * uint_max 64.
Proof.
  intros H0 Hs f. unfold f. unfold scaling_factor, plain_add, plain_sub, plain_div, checked_add, checked_sub, checked_div.
  rewrite (proj2 (Z.leb_le _ _)) by done. cbn [expect mbind res_bind].
  assert (0 < uint_max 64) as Hu by done. set (U := uint_max 64) in *.
  rewrite (proj2 (Z.leb_le 1 _)) by lia. cbn [expect mbind res_bind].
  rewrite (proj2 (Z.eqb_neq U 0)) by lia. cbn [expect]. split; [done|].
  pose proof (Z.div_mod (sum + U - 1) U ltac:(lia)). pose proof (Z.mod_pos_bound (sum + U - 1) U Hu). split; nia.
Qed.

Lemma scaled_sum f (l : list Z) : 0 < f -> Forall (Z.le 0) l -> f * zsum ((fun x => x / f) <$> l) <= zsum l.
Proof.
  intros Hf. unfold zsum. induction 1 as [|x l Hx _ IH]; cbn; [lia|]. pose proof (Z.mul_div_le x f Hf). lia.
Qed.

Lemma zsum_elem (l : list Z) x : Forall (Z.le 0) l -> x ∈ l -> x <= zsum l.
Proof.
  unfold zsum. induction 1 as [|y l Hy Hl IH]; [by intros ?%elem_of_nil|]. pose proof (zsum_nonneg l Hl) as Hn. unfold zsum in Hn.
  intros [->|Hx]%elem_of_cons; cbn; [lia|]. specialize (IH Hx). lia.
Qed.

Lemma scale_all {E} f (l : list (ValidatorId * Z)) : 0 < f -> Forall (fun e => f <= e.2) l -> zsum l.*2 <= f * uint_max 64 ->
  exists l', map_res (E:=E) (scale_stake f) l = Ok l' /\ l'.*1 = l.*1 /\ l'.*2 = (fun x => x / f) <$> l.*2 /\
    Forall (fun e => 0 < e.2) l' /\ zsum l'.*2 <= uint_max 64.
Proof.
  intros Hf Hl Hs.
  assert (Forall (Z.le 0) l.*2) as Hn by (apply Forall_fmap; eapply Forall_impl; [exact Hl|cbn; lia]).
  pose proof (scaled_sum f l.*2 Hf Hn) as Hsc. set (g := fun e : ValidatorId * Z => (e.1, e.2 / f)).
  assert (forall e, e ∈ l -> 0 < e.2 / f <= uint_max 64) as Hb.
  { intros e He. rewrite Forall_forall in Hl. specialize (Hl e He). split; [apply Z.div_str_pos; lia|].
    apply Z.div_le_upper_bound; [done|]. etrans; [|exact Hs]. apply zsum_elem; [done|]. apply list_elem_of_fmap. by exists e. }
  exists (g <$> l). split_and!.
  - apply map_res_Ok. intros e He. specialize (Hb e He). unfold scale_stake, plain_div, checked_div.
    rewrite (proj2 (Z.eqb_neq f 0)) by lia. cbn. unfold wrap. rewrite Z.mod_small; [done|]. unfold uint_max in Hb. lia.
  - rewrite <- list_fmap_compose. by apply list_fmap_ext.
  - rewrite <- !list_fmap_compose. by apply list_fmap_ext.
  - apply Forall_fmap, Forall_forall. intros e He. by apply Hb.
  - replace (g <$> l).*2 with ((fun x => x / f) <$> l.*2) by (rewrite <- !list_fmap_compose; by apply list_fmap_ext).
    apply (Z.mul_le_mono_pos_l _ _ f Hf). lia.
Qed.

(** ** Validators *)

Lemma from_iter_total {E} ii v : Forall (fun e => 0 < e.2) ii -> zsum ii.*2 <= uint_max 64 ->
  Validators_from_iter (E:=E) ii = Ok v -> vs_total_weight v = zsum ii.*2.
Proof.
  intros Hp Hs Hv. unfold Validators_from_iter in Hv. cbv zeta in Hv.
  assert (v_weight <$> (Validator_from <$> ii) = ii.*2) as Ew by (rewrite <- list_fmap_compose; by apply list_fmap_ext).
  rewrite total_fold in Hv; [|lia|rewrite Ew; by apply Forall_fmap|rewrite Ew; lia].
  cbn [mbind res_bind] in Hv. injection Hv as <-. cbn. by rewrite Ew.
Qed.

(** Marking validators keeps a validator set good and its total weight. *)
Definition keeps_total (f : Validators -> ValidatorId -> res VertexError Validators) : Prop :=
  forall v vid, validators_ok v -> exists v', f v vid = Ok v' /\ validators_ok v' /\ vs_total_weight v' = vs_total_weight v.

Lemma keeps_fold f l : keeps_total f -> forall v, validators_ok v ->
  exists v', fold_res f v l = Ok v' /\ validators_ok v' /\ vs_total_weight v' = vs_total_weight v.
Proof.
  intros K. induction l as [|vid l IH]; intros v V; cbn [fold_res]; [by exists v|].
  destruct (K v vid V) as (v1 & -> & V1 & E1). cbn [mbind res_bind]. rewrite <- E1. by apply IH.
Qed.

Lemma ban_keeps : keeps_total ban.
Proof.
  intros v vid V. destruct (ban_ok (E:=VertexError) v vid V) as (v' & Hv & V'). exists v'. split_and!; [done|done|].
  unfold ban in Hv. destruct (get_index v vid); [|by injection Hv as <-].
  apply bind_Ok in Hv as (x & _ & Hv). by injection Hv as <-.
Qed.

Lemma set_cannot_propose_keeps : keeps_total set_cannot_propose.
Proof.
  intros v vid V. destruct (set_cannot_propose_ok (E:=VertexError) v vid V) as (v' & Hv & V'). exists v'. split_and!; [done|done|].
  unfold set_cannot_propose in Hv. destruct (get_index v vid); [|by injection Hv as <-].
  apply bind_Ok in Hv as (x & _ & Hv). by injection Hv as <-.
Qed.

Lemma ensure_total v : vs_total_weight (ensure_nonzero_proposing_stake v).1 = vs_total_weight v.
Proof. unfold ensure_nonzero_proposing_stake. by repeat case_match. Qed.

(** A threshold of at most half the weight, and not zero. *)
Lemma era_threshold_ok {E} total num den : 0 <= total <= uint_max 64 -> 0 <= num < 2 ^ 64 -> 2 * num <= den -> 0 < den -> den <= total * num ->
  exists t, era_threshold (E:=E) total (num, den) = Ok t /\ t = total * num / den /\ 0 < t /\ 2 * t <= total.
Proof.
  intros Ht Hn Hh Hd Hp. unfold uint_max in Ht. pose proof (Z.mul_div_le (total * num) den Hd) as Hm.
  assert (0 < total * num / den) as H0 by (apply Z.div_str_pos; lia).
  assert (2 * (total * num / den) <= total) as H1 by nia.
  assert (total * num <= (2 ^ 64 - 1) * (2 ^ 64 - 1)) as H2 by (apply Z.mul_le_mono_nonneg; lia).
  unfold era_threshold, rassert, plain_mul, plain_div, checked_mul, checked_div, uint_max. cbn [fst snd].
  assert (num < den) as Hlt by nia. rewrite (proj2 (Z.ltb_lt _ _)) by done. cbn [mbind res_bind].
  rewrite (proj2 (Z.leb_le _ _)) by lia. cbn [expect mbind res_bind]. rewrite (proj2 (Z.eqb_neq den 0)) by lia.
  cbn [expect mbind res_bind mret res_ret]. eexists. split; [done|]. unfold wrap. rewrite Z.mod_small by lia. done.
Qed.

End Era.

(** C32 An era can be started from any stakes that do not vanish when scaled.  With the
    divisor that the code computes, the scaled stakes sum up to at most the largest
    64-bit number.  If none of them becomes zero, the threshold fraction is at most one
    half and the threshold does not become zero, then setting up the era succeeds, for
    all sets of banned and inactive validators.  The node is in a good initial state,
    and its detector in one in which finality is safe. *)
Theorem era_setup_ok {C : ConsensusContext} {VH : VertexHash} {VS : ValidatorSecret} {LR : LeaderRng} {BS : BinarySearch}
    (iid : InstanceId) (stakes : list (ValidatorId * Z)) (faulty inactive : list ValidatorId) (num den : Z) (params : Params) :
  let sum := zsum stakes.*2 in
  let f := (sum + uint_max 64 - 1) / uint_max 64 in
  let total := zsum ((fun x => x / f) <$> stakes.*2) in
  stakes <> [] -> sum + uint_max 64 <= uint_max 512 -> Forall (fun e => Z.max 1 f <= e.2) stakes ->
  0 <= num < 2 ^ 64 -> 2 * num <= den -> 0 < den -> den <= total * num ->
  0 <= min_round_exp params -> max_round_exp params < 64 ->
  total <= uint_max 64 /\
  exists hw fd, new_boxed (E:=VertexError) iid stakes faulty inactive (num, den) params = Ok (hw, fd) /\
    ftt fd = total * num / den /\ finalizes (ftt fd) hw fd [].
Proof.
  intros sum f total Hne Hs Hst Hn Hh Hd Hp Hmin Hmax.
  assert (Forall (Z.le 1) stakes.*2) as Hpos by (apply Forall_fmap; eapply Forall_impl; [exact Hst|cbn; lia]).
  assert (Forall (Z.le 0) stakes.*2) as Hnn by (eapply Forall_impl; [exact Hpos|cbn; lia]).
  assert (0 < sum) as Hsum.
  { apply (Z.lt_le_trans _ 1); [done|]. destruct stakes as [|e l]; [done|]. inversion Hpos as [|? ? He _]; subst.
    etrans; [exact He|]. apply zsum_elem; [done|left]. }
  destruct (scaling_factor_ok (E:=VertexError) sum Hsum Hs) as (Hf & Hf0 & Hfs). fold f in Hf, Hf0, Hfs.
  destruct (scale_all (E:=VertexError) f stakes Hf0) as (l & Hl & _ & Hl2 & Hlp & Hls); [eapply Forall_impl; [exact Hst|cbn; lia]|done|].
  rewrite Hl2 in Hls. fold total in Hls. split; [done|]. unfold new_boxed.
  assert (0 <= uint_max 64) as HU by done.
  rewrite (sum_plain (E:=VertexError) stakes.*2 Hnn 0) by (fold sum; lia).
  cbn [mbind res_bind]. rewrite Z.add_0_l. fold sum. rewrite (proj2 (Z.eqb_neq sum 0)) by lia. cbn [negb rassert mbind res_bind].
  rewrite Hf. cbn [mbind res_bind]. rewrite Hl. cbn [mbind res_bind].
  destruct (from_iter_ok (E:=VertexError) l) as (v & Hv & V); [|done|by rewrite Hl2|].
  { intros ->. cbn in Hl2. symmetry in Hl2. by do 2 apply fmap_nil_inv in Hl2. }
  pose proof (from_iter_total (E:=VertexError) l v Hlp ltac:(by rewrite Hl2) Hv) as Hvt. rewrite Hl2 in Hvt. fold total in Hvt.
  rewrite Hv. cbn [mbind res_bind].
  destruct (keeps_fold ban faulty ban_keeps v V) as (v1 & -> & V1 & E1). cbn [mbind res_bind].
  destruct (keeps_fold set_cannot_propose inactive set_cannot_propose_keeps v1 V1) as (v2 & -> & V2 & E2). cbn [mbind res_bind].
  destruct (ensure_ok v2 V2) as (Hb & V3 & P3). pose proof (ensure_total v2) as E3.
  destruct (ensure_nonzero_proposing_stake v2) as [v3 b]. cbn [fst snd] in *. subst b. cbn [rassert mbind res_bind].
  rewrite E3, E2, E1, Hvt.
  destruct (era_threshold_ok (E:=VertexError) total num den) as (t & -> & -> & Ht0 & Ht2); [|done..|].
  { split; [|done]. apply zsum_nonneg, Forall_fmap. eapply Forall_impl; [exact Hnn|]. cbn. intros x Hx. by apply Z.div_pos. }
  cbn [mbind res_bind].
  destruct (Highway_new_inv (E:=VertexError) iid v3 params V3 P3 Hmin Hmax) as (hw & Hhw & I & _). rewrite Hhw. cbn [mbind res_bind].
  unfold FinalityDetector_new, rassert. rewrite (proj2 (Z.ltb_lt _ _)) by done. cbn [mbind res_bind mret res_ret].
  do 2 eexists. split; [done|]. cbn [ftt]. split; [done|]. apply fin_new; [by eapply reach_new| |].
  - pose proof (so_total _ (inv_static _ I)). lia.
  - unfold FinalityDetector_new, rassert. by rewrite (proj2 (Z.ltb_lt _ _)).
Qed.
