(* ===== verification/HighwayMeter.v ===== *)
(** * The length of rounds

    The round success meter proposes round exponents within its limits, one step at a
    time, and never panics on well-formed states. *)

From S2P Require Import Prelude Highway HighwaySkip HighwayInv HighwayTally HighwayFork HighwayAdd HighwayLeader HighwayValidate HighwayMerge HighwayVertex HighwayActive HighwayNode HighwayRun HighwayVotes HighwayFinality HighwayHorizon HighwaySummit HighwayDetector.

Local Open Scope Z_scope.

Section Meter.
Context {C : ConsensusContext}.
Variable s : State.
Hypothesis I : inv s.
Implicit Types m : RoundSuccessMeter.

(** A configuration with rounds to consider and an acceleration threshold of at most
    half the weight. *)
Record config_ok (c : MeterConfig) : Prop := {
  co_rounds : 0 <= num_rounds_to_consider c;
  co_parameter : 0 < acceleration_parameter c;
  co_ftt : 0 <= (acceleration_ftt c).1 < 2 ^ 64 /\ 0 < (acceleration_ftt c).2;
  co_half : 2 * (acceleration_ftt c).1 <= (acceleration_ftt c).2;
}.

Record meter_ok m : Prop := {
  mo_config : config_ok (config m);
  mo_exp : 0 <= rm_min_round_exp m <= current_round_exp m /\ current_round_exp m <= rm_max_round_exp m < 64;
  mo_id : is_uint 64 (current_round_id m);
  mo_rounds : Z.of_nat (length (rounds m)) <= num_rounds_to_consider (config m);
  mo_proposals : Forall (block_known s) (proposals m);
}.

Lemma check_proposals_ok {E} m h : meter_ok m -> block_known s h ->
  exists b, check_proposals_success (E:=E) m s h = Ok b.
Proof.
  intros [[_ _ [Hn Hd] Hh] _ _ _ _] Kh. unfold check_proposals_success. rewrite (total_weight_eq s I). cbn [mbind res_bind].
  pose proof (so_total _ (inv_static _ I)) as Ht. destruct (acceleration_ftt (config m)) as [nu de]. cbn [fst snd] in *.
  set (total := zsum (weights s)) in *. unfold uint_max in Ht.
  assert (0 <= total * nu <= (2 ^ 64 - 1) * (2 ^ 64 - 1)) as B1.
  { split; [apply Z.mul_nonneg_nonneg; lia|apply Z.mul_le_mono_nonneg; lia]. }
  assert (0 <= total * nu / de) as B2 by (apply Z.div_pos; lia).
  assert (2 * (total * nu / de) <= total) as B3.
  { pose proof (Z.mul_div_le (total * nu) de Hd). nia. }
  unfold plain_mul, plain_div, checked_mul, checked_div, uint_max.
  rewrite (proj2 (Z.leb_le _ _)) by lia. cbn [expect mbind res_bind].
  rewrite (proj2 (Z.eqb_neq _ _)) by lia. cbn [expect mbind res_bind].
  assert (wrap 64 (total * nu / de) = total * nu / de) as -> by (unfold wrap; apply Z.mod_small; lia).
  unfold FinalityDetector_new, rassert. rewrite (proj2 (Z.ltb_lt _ _)) by lia. cbn [mbind res_bind mret res_ret].
  set (fd := {| last_finalized := None; ftt := _ |}).
  destruct (find_summit_ok s I fd ltac:(cbn; lia) ltac:(cbn; unfold uint_max; fold total; lia) (E:=E) 1 h ltac:(lia) Kh)
    as (c & -> & _). by eexists.
Qed.

Lemma any_check_ok {E} m l : meter_ok m -> Forall (block_known s) l ->
  exists b, any_res (E:=E) (check_proposals_success m s) l = Ok b.
Proof.
  intros M Hl. induction Hl as [|h l Hh _ IH]; cbn [any_res]; [by eexists|].
  destruct (check_proposals_ok (E:=E) m h M Hh) as [[] ->]; [by eexists|done].
Qed.

Lemma new_exponent_ok {E} m : meter_ok m -> exists e, new_exponent (E:=E) m = Ok e /\
  rm_min_round_exp m <= e <= rm_max_round_exp m /\ current_round_exp m - 1 <= e <= current_round_exp m + 1.
Proof.
  intros [[_ Hp _ _] He _ _ _]. unfold new_exponent. cbv zeta. destruct (_ <? count_failures m); cbn [andb].
  - destruct (Z.ltb_spec (current_round_exp m) (rm_max_round_exp m)).
    + eexists. split; [done|]. unfold saturating_add, uint_max. change (2 ^ 8 - 1) with 255. lia.
    + unfold plain_rem. rewrite (proj2 (Z.eqb_neq (acceleration_parameter (config m)) 0)) by lia. cbn [mbind res_bind mret res_ret]. eexists. split; [done|].
      destruct (_ && _) eqn:Ec; [|lia]. rewrite !andb_true_iff in Ec. unfold saturating_sub. lia.
  - unfold plain_rem. rewrite (proj2 (Z.eqb_neq (acceleration_parameter (config m)) 0)) by lia. cbn [mbind res_bind mret res_ret]. eexists. split; [done|].
    destruct (_ && _) eqn:Ec; [|lia]. rewrite !andb_true_iff in Ec. unfold saturating_sub. lia.
Qed.

(** The meter after the rounds up to [now] were recorded. *)
Lemma recorded_ok m l id : meter_ok m -> is_uint 64 id ->
  meter_ok (clean_old_rounds {| rounds := l; current_round_id := id; proposals := [];
    rm_min_round_exp := rm_min_round_exp m; rm_max_round_exp := rm_max_round_exp m;
    current_round_exp := current_round_exp m; config := config m |}).
Proof.
  intros [Co He _ _ _] Hid. split; cbn; [done|done|done| |done]. rewrite length_take. pose proof (co_rounds _ Co). lia.
Qed.

Lemma change_exponent_ok {E} m e now : meter_ok m -> rm_min_round_exp m <= e <= rm_max_round_exp m -> is_uint 64 now ->
  exists m', change_exponent (E:=E) m e now = Ok m' /\ meter_ok m' /\ current_round_exp m' = e /\
    rm_min_round_exp m' = rm_min_round_exp m /\ rm_max_round_exp m' = rm_max_round_exp m.
Proof.
  intros [Co He _ _ _] Hb Hnow. unfold change_exponent. rewrite round_id_eq by (done || lia). cbn. eexists. split; [done|].
  split; [|done]. split; cbn; [done|lia| |apply (co_rounds _ Co)|done]. unfold is_uint in *.
  assert (0 < 2 ^ e) as Hp by (apply Z.pow_pos_nonneg; lia).
  pose proof (Z.mod_pos_bound now (2 ^ e) Hp). pose proof (Z.mod_le now (2 ^ e) ltac:(lia) Hp). lia.
Qed.

End Meter.

(** C33 The round length stays within its limits.  Whenever the meter of a validator is
    asked for the exponent of the round length, at any time, it returns an exponent
    between the smallest and the largest one, which differs by at most one from the
    current one.  It changes its own exponent to the one returned only when a round has
    ended, and stays well-formed: it never keeps more rounds than it considers. *)
Theorem round_exponent_bounds {C : ConsensusContext} {E} (s : State) (m : RoundSuccessMeter) (now : Z) :
  inv s -> meter_ok s m -> is_uint 64 now ->
  exists m' e, calculate_new_exponent (E:=E) m now s = Ok (m', e) /\ meter_ok s m' /\
    rm_min_round_exp m <= e <= rm_max_round_exp m /\ Z.abs (e - current_round_exp m) <= 1 /\
    rm_min_round_exp m' = rm_min_round_exp m /\ rm_max_round_exp m' = rm_max_round_exp m /\
    (m' = m \/ current_round_exp m' = e).
Proof.
  intros I M Hnow. pose proof (mo_exp _ _ M) as He. unfold calculate_new_exponent.
  rewrite round_id_eq by (done || lia). cbn [mbind res_bind]. destruct (_ <=? current_round_id m).
  { destruct (new_exponent_ok s (E:=E) m M) as (e & -> & Hb & Hd). cbn. exists m, e. split_and!; auto; lia. }
  cbv zeta. destruct (any_check_ok s I (E:=E) m (proposals m) M (mo_proposals _ _ M)) as [ok ->]. cbn [mbind res_bind].
  set (id := saturating_mul _ _ _).
  assert (is_uint 64 id) as Hid.
  { unfold id, saturating_mul, is_uint, uint_max, round_len, round_index in *.
    assert (0 <= Z.shiftr now (current_round_exp m)) by (apply Z.shiftr_nonneg; lia).
    destruct (_ <? 64); split; try lia; apply Z.min_glb; try lia; apply Z.mul_nonneg_nonneg; lia. }
  assert (u64_add (E:=E) 0 id = Ok id) as ->.
  { unfold u64_add, plain_add, checked_add. unfold is_uint, uint_max in *. by rewrite (proj2 (Z.leb_le _ _)) by lia. }
  cbn [mbind res_bind]. set (m1 := clean_old_rounds _).
  assert (meter_ok s m1) as M1 by (by apply recorded_ok).
  destruct (new_exponent_ok s (E:=E) m1 M1) as (e & -> & Hb & Hd). cbn [mbind res_bind].
  change (rm_min_round_exp m1) with (rm_min_round_exp m) in Hb. change (rm_max_round_exp m1) with (rm_max_round_exp m) in Hb.
  change (current_round_exp m1) with (current_round_exp m) in *. destruct (Z.eqb_spec e (current_round_exp m)) as [->|Hne].
  - exists m1, (current_round_exp m). split_and!; auto; lia.
  - destruct (change_exponent_ok s (E:=E) m1 e now M1 Hb Hnow) as (m' & -> & M' & Hc & Hmin & Hmax). cbn.
    exists m', e. split_and!; auto; lia.
Qed.

Lemma count_rounds (l : list bool) : (length (List.filter id l) + length (List.filter negb l) = length l)%nat.
Proof. induction l as [|[] l IH]; cbn; lia. Qed.

(** With exactly [num_rounds_speedup] successful rounds among the ones considered, the
    meter does not speed up: it takes one more. *)
Theorem speedup_needs_one_more {C : ConsensusContext} {E} (m : RoundSuccessMeter) :
  Z.of_nat (length (rounds m)) = num_rounds_to_consider (config m) ->
  0 <= num_rounds_slowdown (config m) < num_rounds_speedup (config m) ->
  Z.of_nat (length (List.filter id (rounds m))) = num_rounds_speedup (config m) ->
  0 < acceleration_parameter (config m) -> new_exponent (E:=E) m = Ok (current_round_exp m).
Proof.
  intros Hl Hsl Hs Hp. pose proof (count_rounds (rounds m)) as Hc. unfold new_exponent, count_failures, plain_rem. cbv zeta.
  unfold max_failed_rounds, max_failures_for_acceleration, saturating_sub.
  rewrite (proj2 (Z.ltb_ge (Z.max _ 0) _)) by lia. cbn [andb].
  rewrite (proj2 (Z.eqb_neq (acceleration_parameter (config m)) 0)) by lia. cbn [mbind res_bind mret res_ret].
  rewrite (proj2 (Z.ltb_ge (Z.of_nat (length (List.filter negb _))) _)) by lia. by rewrite andb_false_r.
Qed.
