(* ===== verification/HighwaySample.v ===== *)
(** * Highway on concrete instances

    A concrete [Context], small eras and protocol states, on which the theorems
    about Highway are applied, and runs in which the code misbehaves. *)

From Stdlib Require Import Sorting.Sorted.
From S2P Require Import Prelude Highway HighwayInv HighwayTally HighwayFork HighwayAdd HighwayLeader HighwayValidate HighwayMerge HighwayVertex HighwayActive HighwayOwn HighwayNode HighwayRun HighwayEvidence HighwayVotes HighwayFinality HighwayHorizon HighwayDetector HighwayRewards HighwaySafety HighwayEra HighwayMeter.

Local Open Scope Z_scope.

(** ** The context: numbers for everything; a signature is the sum of key and hash *)

#[export] Instance sample_context : ConsensusContext := {|
  Hash := Z; ConsensusValue := Z; Signature := Z; InstanceId := Z; ValidatorId := Z;
  verify_signature h v sig := sig =? h + v;
|}.

#[export] Instance sample_hashes : VertexHash := {|
  hash_wire_unit w := 4 * w_timestamp w + Z.of_nat (w_creator w);
  hash_endorsement h v := h + Z.of_nat v;
  hash_ping v t iid := t + Z.of_nat v;
|}.
#[export] Instance sample_secrets : ValidatorSecret := {| Secret := Z; sign k h := h + k |}.

Definition sample_draw (upper seed : Z) : Z := seed mod upper.
Lemma sample_draw_spec upper seed : 0 < upper -> 0 <= sample_draw upper seed < upper.
Proof. apply Z.mod_pos_bound. Qed.
#[export] Instance sample_rng : LeaderRng := {| gen_range_spec := sample_draw_spec |}.

Fixpoint sample_search (l : list Z) (x : Z) : nat + nat :=
  match l with
  | [] => inr 0%nat
  | y :: l =>
      if x =? y then inl 0%nat else if x <? y then inr 0%nat else
      match sample_search l x with inl i => inl (S i) | inr i => inr (S i) end
  end.
Lemma sample_search_found l x i : StronglySorted Z.le l -> sample_search l x = inl i -> l !! i = Some x.
Proof.
  intros _. revert i. induction l as [|y l IH]; intros i; cbn; [done|].
  destruct (x =? y) eqn:Exy; [intros [= <-]; cbn; f_equal; lia|]. destruct (x <? y); [done|].
  destruct (sample_search l x) as [j|j]; [|done]. intros [= <-]. by apply IH.
Qed.
Lemma sample_search_missing l x i : StronglySorted Z.le l -> sample_search l x = inr i ->
  (i <= length l)%nat /\
  (forall j y, l !! j = Some y -> (j < i)%nat -> y < x) /\
  (forall j y, l !! j = Some y -> (i <= j)%nat -> x < y).
Proof.
  intros Hs. revert i. induction Hs as [|y l Hs IH Hy]; intros i; cbn; [intros [= <-]; by split_and!; [lia|..]|].
  destruct (x =? y) eqn:Exy; [done|]. destruct (x <? y) eqn:Elt.
  - intros [= <-]. split_and!; [lia|intros; lia|]. intros [|j] z Hj _; cbn in Hj; [injection Hj as <-; lia|].
    rewrite Forall_forall in Hy. specialize (Hy z (list_elem_of_lookup_2 _ _ _ Hj)). lia.
  - destruct (sample_search l x) as [j|j]; [done|]. intros [= <-]. destruct (IH j eq_refl) as (H1 & H2 & H3).
    split_and!; [lia| |].
    + intros [|k] z Hk Hlt; cbn in Hk; [injection Hk as <-; lia|]. eapply H2; [done|lia].
    + intros [|k] z Hk Hle; [lia|]. eapply H3; [exact Hk|lia].
Qed.
#[export] Instance sample_binary_search : BinarySearch := {|
  slice_binary_search_found := sample_search_found;
  slice_binary_search_missing := sample_search_missing;
|}.

(** ** An era of two validators *)

Definition sample_params : Params := {|
  seed := 0; block_reward := 100; reduced_block_reward := 10; min_round_exp := 4; max_round_exp := 10;
  init_round_exp := 4; end_height := 10; start_timestamp := 16; end_timestamp := 16;
  endorsement_evidence_limit := 5;
|}.

Definition no_state : State := {|
  params := sample_params; weights := []; cumulative_w := []; cumulative_w_leaders := []; units := ∅;
  blocks := ∅; faults := ∅; can_propose := []; panorama := []; endorsements := ∅;
  incomplete_endorsements := ∅; pings := [];
|}.
Definition state_of (m : res UnitError State) : State := match m with Ok s => s | _ => no_state end.

Definition sample_unit (c : ValidatorIndex) (pan : Panorama) (value : option Z) (sn t : Z) : SignedWireUnit :=
  SignedWireUnit_new (HashedWireUnit_new
    {| w_panorama := pan; w_creator := c; w_instance_id := 1; w_value := value; w_seq_number := sn;
       w_timestamp := t; w_round_exp := 4; w_endorsed := ∅ |}) (Z.of_nat c + 1).

(** The leader of the round at 16 proposes, the other validator confirms. *)
Definition unit_a : SignedWireUnit := sample_unit 0 [ObsNone; ObsNone] (Some 5) 0 16.
Definition unit_b : SignedWireUnit := sample_unit 1 [ObsCorrect 64; ObsNone] None 0 20.

Definition state_0 : State := state_of (State_new [3; 4] sample_params [] []).
Definition state_1 : State := state_of (add_valid_unit state_0 unit_a).
Definition state_2 : State := state_of (add_valid_unit state_1 unit_b).

Lemma state_0_inv : inv state_0.
Proof.
  destruct (State_new_ok (E:=UnitError) [3; 4] sample_params [] []) as (s & Es & WF & St & Ew & Eu & Ep & _).
  1: repeat constructor; lia.
  1: vm_compute; congruence.
  1-2: constructor.

  { exists 0%nat, 3. split_and!; [done|lia|apply not_elem_of_nil]. }
  unfold state_0. rewrite Es. cbn [state_of]. split; [done| |done| |rewrite Ew; repeat constructor; lia].
  - unfold small. rewrite Eu, map_size_empty. done.
  - split; rewrite ?Ep, ?Eu; [by vm_compute| |]; intros; by rewrite lookup_empty in *.
Qed.

Lemma state_1_inv : inv state_1.
Proof.
  destruct (inv_add state_0 state_0_inv unit_a) with (E:=UnitError) as (s & Es & I).
  1-5: vm_compute; by repeat split.
  unfold state_1. by rewrite Es.
Qed.

Lemma state_2_inv : inv state_2.
Proof.
  destruct (inv_add state_1 state_1_inv unit_b) with (E:=UnitError) as (s & Es & I).
  1-5: vm_compute; by repeat split.
  unfold state_2. by rewrite Es.
Qed.

(** The fork choice of the confirmed proposal. *)
Lemma fork_choice_ghost_witness :
  exists r, fork_choice (E:=UnitError) state_2 (panorama state_2) = Ok r /\
    match r with
    | None => correct_votes state_2 (panorama state_2) = []
    | Some b => is_fork_choice state_2 (correct_votes state_2 (panorama state_2)) b /\
        forall b', is_fork_choice state_2 (correct_votes state_2 (panorama state_2)) b' -> b' = b
    end.
Proof.
  apply fork_choice_ghost.
  - apply (inv_wf _ state_2_inv).
  - apply (inv_small _ state_2_inv).
  - apply (inv_weights_ok _ state_2_inv).
  - intros idx h Hh. destruct (vp_entries _ _ (proj1 (state_pan_citable state_2 (inv_wf _ state_2_inv))) idx h Hh)
      as (u & Hu & _). by exists u.
Defined.

Lemma leader_drawn_witness :
  exists i w, leader (E:=UnitError) state_0 32 = Ok i /\ can_propose state_0 !! i = Some true /\
    weights state_0 !! i = Some w /\ 0 < w /\
    (owns (weights state_0) (first_draw state_0 32) i \/
     exists j, owns (weights state_0) (first_draw state_0 32) j /\ can_propose state_0 !! j = Some false /\
       owns (leader_weights state_0) (second_draw state_0 32) i).
Proof. apply leader_drawn. apply (inv_static _ state_0_inv). Defined.

(** The same era with the second validator excluded from proposing. *)
Definition state_0x : State := state_of (State_new [3; 4] sample_params [] [1%nat]).
Lemma state_0x_static : static_ok state_0x.
Proof.
  destruct (State_new_ok (E:=UnitError) [3; 4] sample_params [] [1%nat]) as (s & Es & _ & St & _).
  1: repeat constructor; lia.
  1: vm_compute; congruence.
  1-2: repeat constructor.
  { exists 0%nat, 3. split_and!; [done|lia|set_solver]. }
  unfold state_0x. by rewrite Es.
Qed.

Lemma leader_slots_kept_witness :
  leader (E:=UnitError) state_0 16 = Ok 0%nat /\ leader (E:=UnitError) state_0x 16 = Ok 0%nat.
Proof.
  apply leader_slots_kept.
  - apply (inv_static _ state_0_inv).
  - apply state_0x_static.
  - by vm_compute.
  - by vm_compute.
  - exists 3. by vm_compute.
  - by vm_compute.
  - by vm_compute.
Defined.

Lemma merge_least_upper_bound_witness :
  exists r, merge (E:=UnitError) state_2 (panorama state_2) (panorama state_2) = Ok r /\ citable state_2 r /\
    pan_le state_2 (panorama state_2) r /\ pan_le state_2 (panorama state_2) r /\
    forall t, pan_le state_2 (panorama state_2) t -> pan_le state_2 (panorama state_2) t -> pan_le state_2 r t.
Proof.
  apply merge_least_upper_bound.
  - apply (inv_wf _ state_2_inv).
  - apply (inv_small _ state_2_inv).
  - apply state_pan_citable, (inv_wf _ state_2_inv).
  - apply state_pan_citable, (inv_wf _ state_2_inv).
Defined.

(** *** An active validator *)

(** The second validator, in a round of length 16. *)
Definition sample_validator (idx : ValidatorIndex) : ActiveValidator := {|
  vidx := idx; secret := (Z.of_nat idx + 1) : Secret; next_round_exp := 4; next_timer := 16;
  next_proposal := None; unit_file := None; own_last_unit := None; target_ftt := 1; paused := false;
|}.


(** *** An observer *)

Definition era_validators : Validators :=
  match Validators_from_iter (E:=UnitError) [(1, 3); (2, 4)] with
  | Ok v => v
  | _ => {| index_by_id := ∅; vs := []; vs_total_weight := 0 |}
  end.
Definition observer_0 : Highway :=
  {| instance_id := 1; validators := era_validators; state := state_0; active_validator := None |}.

Lemma observer_0_reachable : reachable observer_0.
Proof.
  apply (reach_new (C:=sample_context) 1 era_validators sample_params).
  - unfold era_validators. destruct (from_iter_ok (C:=sample_context) (E:=UnitError) [(1, 3); (2, 4)]) as (v & -> & V); [done| | |done].
    + repeat constructor; cbn; lia.
    + vm_compute. congruence.
  - exists 0%nat, (Validator_from (C:=sample_context) (1, 3)). by vm_compute.
  - cbn. lia.
  - cbn. lia.
  - by vm_compute.
Qed.

Lemma observer_never_panics_witness :
  safe (do_pre_validate_vertex observer_0 (VUnit unit_a)) /\ safe (do_validate_vertex observer_0 (VUnit unit_a)) /\
  exists hw' effects, add_valid_vertex (E:=VertexError) 1 observer_0 (VUnit unit_a) 17 = Ok (hw', effects) /\
    reachable hw'.
Proof.
  destruct (observer_never_panics observer_0 (VUnit unit_a) 17 observer_0_reachable) as [H1 H2].
  - vm_compute. repeat split; congruence.
  - by vm_compute.
  - split; [by apply H1|]. destruct H2 as [H2 H3]; [by vm_compute|by vm_compute|]. split; [exact H2|].
    apply H3. by vm_compute.
Defined.

Lemma era_start_ok_witness :
  exists v v' hw,
    (v ← Validators_from_iter (C:=sample_context) (E:=UnitError) [(1, 3); (2, 4)]; v ← fold_res ban v [1; 2];
     fold_res set_cannot_propose v [2]) = Ok v /\
    ensure_nonzero_proposing_stake v = (v', true) /\ has_proposer v' /\
    Highway_new (E:=UnitError) 1 v' sample_params = Ok hw /\ inv (state hw).
Proof.
  apply era_start_ok.
  - done.
  - repeat constructor; cbn; lia.
  - vm_compute. congruence.
  - cbn. lia.
  - cbn. lia.
Defined.

(** *** A finalized block *)

(** The first validator confirms its proposal after the other one did. *)
Definition unit_c : SignedWireUnit := sample_unit 0 [ObsCorrect 64; ObsCorrect 81] None 1 24.

Definition observe (hw : Highway) (u : SignedWireUnit) : Highway :=
  match add_valid_vertex (E:=VertexError) 1 hw (VUnit u) 25 with Ok (hw', _) => hw' | _ => hw end.
Definition observer_1 : Highway := observe observer_0 unit_a.
Definition observer_2 : Highway := observe observer_1 unit_b.
Definition observer_3 : Highway := observe observer_2 unit_c.

Definition detector_0 : FinalityDetector := {| last_finalized := None; ftt := 1 |}.
Definition detector_1 : FinalityDetector := {| last_finalized := Some 64; ftt := 1 |}.

Lemma observe_step hw u : vertex_ok (VUnit u) -> room hw ->
  do_pre_validate_vertex hw (VUnit u) = Ok tt -> missing_dependency hw (VUnit u) = None ->
  do_validate_vertex hw (VUnit u) = Ok tt ->
  is_ok (add_valid_vertex (E:=VertexError) 1 hw (VUnit u) 25) = true -> step hw (observe hw u).
Proof.
  intros V R P D W A. unfold observe. destruct (add_valid_vertex 1 hw (VUnit u) 25) as [[hw' effects]|?| |] eqn:Ea; [|done..].
  by eapply (step_vertex hw (VUnit u) 25).
Qed.

Lemma observer_1_step : step observer_0 observer_1.
Proof. apply observe_step; [vm_compute; by repeat split|by vm_compute..]. Qed.
Lemma observer_2_step : step observer_1 observer_2.
Proof. apply observe_step; [vm_compute; by repeat split|by vm_compute..]. Qed.
Lemma observer_3_step : step observer_2 observer_3.
Proof. apply observe_step; [vm_compute; by repeat split|by vm_compute..]. Qed.

Lemma observer_3_finalizes : finalizes 1 observer_3 detector_1 [64].
Proof.
  apply (fin_next (C:=sample_context) 1 observer_3 detector_0 detector_1 [] 64); [|by vm_compute].
  eapply fin_step, observer_3_step. eapply fin_step, observer_2_step. eapply fin_step, observer_1_step.
  apply fin_new; [apply observer_0_reachable|by vm_compute|by vm_compute].
Qed.

(** The second validator confirms twice with the same sequence number. *)
Definition unit_b2 : SignedWireUnit := sample_unit 1 [ObsCorrect 64; ObsNone] None 0 21.
Definition observer_2e : Highway := observe observer_2 unit_b2.
Lemma observer_2e_step : step observer_2 observer_2e.
Proof. apply observe_step; [vm_compute; by repeat split|by vm_compute..]. Qed.


(** The leader of the next round proposes a second block. *)
Definition unit_d : SignedWireUnit := sample_unit 1 [ObsCorrect 96; ObsCorrect 81] (Some 6) 1 48.
Definition observer_4 : Highway := observe observer_3 unit_d.
Lemma observer_4_step : step observer_3 observer_4.
Proof. apply observe_step; [vm_compute; by repeat split|by vm_compute..]. Qed.

(** Another node, with a higher threshold. *)
Definition detector_2 : FinalityDetector := {| last_finalized := None; ftt := 2 |}.
Definition detector_3 : FinalityDetector := {| last_finalized := Some 64; ftt := 2 |}.
Lemma observer_4_finalizes : finalizes 2 observer_4 detector_3 [64].
Proof.
  apply (fin_next (C:=sample_context) 2 observer_4 detector_2 _ [] 64); [|by vm_compute].
  eapply fin_step, observer_4_step. eapply fin_step, observer_3_step. eapply fin_step, observer_2_step.
  eapply fin_step, observer_1_step. apply fin_new; [apply observer_0_reachable|by vm_compute|by vm_compute].
Qed.
Lemma observer_4_reachable : reachable observer_4.
Proof.
  eapply reach_step, observer_4_step. eapply reach_step, observer_3_step. eapply reach_step, observer_2_step.
  eapply reach_step, observer_1_step. apply observer_0_reachable.
Qed.

Lemma finality_agreement_witness : [64] `prefix_of` [64] \/ [64] `prefix_of` [64].
Proof.
  apply (finality_agreement (C:=sample_context) 1 2 0 observer_3 observer_4 observer_4 detector_1
    detector_3 [64] [64]).
  - apply observer_3_finalizes.
  - apply observer_4_finalizes.
  - apply observer_4_reachable.
  - apply (step_state observer_3 observer_4).
    + apply reachable_ok. eapply reach_step, observer_3_step. eapply reach_step, observer_2_step.
      eapply reach_step, observer_1_step. apply observer_0_reachable.
    + apply observer_4_step.
    + apply reachable_follow. eapply reach_step, observer_3_step. eapply reach_step, observer_2_step.
      eapply reach_step, observer_1_step. apply observer_0_reachable.
  - apply extends_refl.
  - by vm_compute.
  - lia.
  - lia.
Defined.

Lemma finality_persists_witness :
  exists blk fc, blocks (state observer_4) !! (64 : Hash) = Some blk /\ height blk = 0 /\
    fork_choice (E:=FttExceeded) (state observer_4) (panorama (state observer_4)) = Ok (Some fc) /\
    find_ancestor_proposal (E:=FttExceeded) (state observer_4) fc 0 = Ok (Some (64 : Hash)).
Proof.
  apply (finality_persists (C:=sample_context) 1 0 observer_3 observer_4 detector_1 [64] 0 64).
  - apply observer_3_finalizes.
  - apply rtc_once, observer_4_step.
  - by vm_compute.
  - lia.
  - done.
Defined.

Lemma detector_complete_witness :
  exists c, next_candidate (E:=FttExceeded) detector_1 (state observer_3) = Ok c /\
    (forall b, c = Some b -> exists fc, fork_choice (E:=FttExceeded) (state observer_3) (panorama (state observer_3)) = Ok (Some fc) /\
       find_ancestor_proposal (E:=FttExceeded) (state observer_3) fc (Z.of_nat (length [64])) = Ok (Some b)) /\
    exists fd' r, next_finalized (E:=FttExceeded) detector_1 (state observer_3) = Ok (fd', r) /\
      forall b, r = Some b <-> c = Some b /\ has_summit (state observer_3) detector_1 b.
Proof. apply (detector_complete (C:=sample_context) 1 observer_3 detector_1 [64]), observer_3_finalizes. Defined.

Lemma observer_3_fits : era_fits (state observer_3).
Proof.
  split.
  - by vm_compute.
  - by vm_compute.
  - by vm_compute.
  - intros h u Hu. revert h u Hu.
    apply (bool_decide_unpack (map_Forall (fun _ u => timestamp u + max_round_length (params (state observer_3)) <= uint_max 64)
      (units (state observer_3)))). by vm_compute.
Qed.


Definition block_d : Block := {| height := 1; value := 6; skip_idx := [64] |}.

Definition sample_meter : RoundSuccessMeter := {|
  rounds := [false]; current_round_id := 16; proposals := [64]; rm_min_round_exp := 4; rm_max_round_exp := 10;
  current_round_exp := 4;
  config := {| num_rounds_to_consider := 40; num_rounds_slowdown := 10; num_rounds_speedup := 32;
               acceleration_parameter := 40; acceleration_ftt := (1, 100) |};
|}.

Lemma round_exponent_bounds_witness :
  exists m' e, calculate_new_exponent (E:=UnitError) sample_meter 40 state_2 = Ok (m', e) /\ meter_ok state_2 m' /\
    4 <= e <= 10 /\ Z.abs (e - 4) <= 1 /\ rm_min_round_exp m' = 4 /\ rm_max_round_exp m' = 10 /\
    (m' = sample_meter \/ current_round_exp m' = e).
Proof.
  apply (round_exponent_bounds (C:=sample_context) state_2 sample_meter 40 state_2_inv).
  - split; cbn; [split; cbn; lia|lia|by vm_compute|lia|]. repeat constructor. by eexists; vm_compute.
  - by vm_compute.
Defined.

(** Stakes of which the sum has 66 bits are divided by three. *)
Lemma era_setup_ok_witness :
  15372286728091293013 <= uint_max 64 /\
  exists hw fd, new_boxed (C:=sample_context) (E:=VertexError) 1 [(1, 2 ^ 64); (2, 3 * 2 ^ 63)] [2] [1] (1, 3) sample_params = Ok (hw, fd) /\
    ftt fd = 15372286728091293013 * 1 / 3 /\ finalizes (ftt fd) hw fd [].
Proof.
  apply (era_setup_ok (C:=sample_context) 1 [(1, 2 ^ 64); (2, 3 * 2 ^ 63)] [2] [1] 1 3 sample_params).
  - done.
  - by vm_compute.
  - repeat constructor; by vm_compute.
  - lia.
  - lia.
  - lia.
  - by vm_compute.
  - cbn. lia.
  - cbn. lia.
Defined.

(** ** Misbehaviour *)

(** The checks a unit from the network passes before it is added, in order. *)
Definition accept (s : State) (u : SignedWireUnit) : res UnitError State :=
  _ ← pre_validate_unit s u;
  match pan_missing_dependency s (w_panorama (wire_unit_of u)) with
  | Some _ => Panic
  | None => _ ← validate_unit s u; add_valid_unit s u
  end.

(** An era with a validator of weight zero, as scaling down the stakes can produce it. *)
Definition zero_state : State := state_of (State_new [9; 4; 0] sample_params [] []).
Definition zero_units : list SignedWireUnit :=
  [sample_unit 0 [ObsNone; ObsNone; ObsNone] (Some 5) 0 16;
   sample_unit 1 [ObsCorrect 64; ObsNone; ObsNone] (Some 6) 0 48;
   sample_unit 1 [ObsCorrect 64; ObsCorrect 193; ObsNone] (Some 7) 1 64;
   sample_unit 2 [ObsCorrect 64; ObsCorrect 257; ObsNone] None 0 65;
   sample_unit 1 [ObsCorrect 64; ObsNone; ObsNone] None 0 66].
Definition zero_state_5 : State := state_of (fold_res accept zero_state zero_units).
Definition zero_rest : Tallies := [(2, {| tally_max := (0, 257); votes := [(257, 0)] |})].
Definition zero_votes : Tallies := (0, {| tally_max := (9, 64); votes := [(64, 9)] |}) :: zero_rest.

(** C39 The fork choice does not terminate when only validators of weight zero voted for
    a block at least two levels above a decided one: here a validator with less than
    a third of the weight built two blocks and equivocated, and one without weight
    voted for the second block.  No number of rounds is enough for the loop. *)
Theorem fork_choice_zero_weight_loops :
  is_ok (fold_res accept zero_state zero_units) = true /\
  (entries ← omap_res (to_entry zero_state_5) (zip (panorama zero_state_5) (weights zero_state_5));
   Tallies_from_iter (E:=UnitError) entries) = Ok zero_votes /\
  forall fuel, fork_choice_loop (E:=UnitError) fuel zero_state_5 zero_votes = OutOfFuel.
Proof.
  split; [by vm_compute|]. split; [by vm_compute|].
  assert (forall fuel, fork_choice_loop (E:=UnitError) fuel zero_state_5 zero_rest = OutOfFuel) as Hr.
  { induction fuel as [|fuel IH]; [done|]. cbn [fork_choice_loop].
    assert (find_decided (E:=UnitError) zero_state_5 zero_rest = Ok (Some (0, 64))) as -> by (by vm_compute).
    cbn [mbind res_bind].
    assert (Tallies_filter_descendants (E:=UnitError) zero_state_5 zero_rest 0 64 = Ok zero_rest) as -> by (by vm_compute).
    exact IH. }
  intros [|fuel]; [done|]. cbn [fork_choice_loop].
  assert (find_decided (E:=UnitError) zero_state_5 zero_votes = Ok (Some (1, 193))) as -> by (by vm_compute).
  cbn [mbind res_bind].
  assert (Tallies_filter_descendants (E:=UnitError) zero_state_5 zero_votes 1 193 = Ok zero_rest) as -> by (by vm_compute).
  apply Hr.
Qed.

(** A unit whose panorama has no entry for its creator, in evidence about endorsements. *)
Definition short_evidence : Evidence :=
  ConflictingEndorsements
    {| se_unit := hash_of unit_a; se_creator := 0; se_signature := 0 |} unit_a
    {| se_unit := 64; se_creator := 0; se_signature := 0 |} (sample_unit 0 [] None 0 16)
    [sample_unit 0 [] None 0 16].


(** A validator alone in its era is asked for a block in a round of length 16, and
    its round length is doubled before the block arrives. *)
Definition lone_state : State := state_of (State_new [10] sample_params [] []).
Definition late_proposal : res UnitError (list Effect) :=
  '(av, effects) ← handle_timer (sample_validator 0) 48 lone_state 1;
  match effects with
  | [ScheduleTimer _; RequestNewBlock context] =>
      '(_, effects) ← propose (set_round_exp av 5) 7 context lone_state 1; mret effects
  | _ => Panic
  end.

(** A proposal can be made invalid by a change of the round length.  It has the
    new round length, for which its timestamp is not the
    start of a round: every other node rejects it. *)
Theorem proposal_after_round_change_rejected :
  exists u, late_proposal = Ok [NewVertex (VUnit u)] /\ validate_unit lone_state u = Err (NonLeaderBlock 0).
Proof. eexists. split; [by vm_compute|by vm_compute]. Qed.

(** A detector whose threshold is three fifths of the largest possible total weight. *)
Definition high_threshold : FinalityDetector := {| last_finalized := None; ftt := 11068046444225730969 |}.

(** Quorums can be cut off.  The set-up of an era accepts a threshold of three fifths
    of the largest possible total weight, but the quorum for it does not fit into 64
    bits: it becomes less than a ninth of the total weight. *)
Theorem quorum_cut_off :
  era_threshold (E:=UnitError) (uint_max 64) (3, 5) = Ok (ftt high_threshold) /\
  exists q, quorum_for_lvl (E:=UnitError) high_threshold 1 (uint_max 64) = Ok q /\ 9 * q < uint_max 64.
Proof. split; [by vm_compute|]. eexists. split; [by vm_compute|by vm_compute]. Qed.

(** A validator with the largest weight, alone in its era, builds on its own block. *)
Definition heavy_state : State := state_of (State_new [uint_max 64] sample_params [] []).
Definition heavy_units : list SignedWireUnit :=
  [sample_unit 0 [ObsNone] (Some 5) 0 16; sample_unit 0 [ObsCorrect 64] None 1 24; sample_unit 0 [ObsCorrect 96] (Some 6) 2 32].
Definition heavy_state_3 : State := state_of (fold_res accept heavy_state heavy_units).

(** The rewards of its first block then overflow: the quorum of its committee is the
    largest weight, and the next larger quorum does not exist. *)
Theorem rewards_overflow :
  is_ok (fold_res accept heavy_state heavy_units) = true /\
  compute_rewards (E:=UnitError) heavy_state_3 128 = Panic.
Proof. split; [by vm_compute|by vm_compute]. Qed.

Definition speedup_meter : RoundSuccessMeter := {|
  rounds := replicate 32 true ++ replicate 8 false; current_round_id := 640; proposals := []; rm_min_round_exp := 3;
  rm_max_round_exp := 10; current_round_exp := 4; config := config sample_meter;
|}.
Lemma speedup_needs_one_more_witness : new_exponent (E:=UnitError) speedup_meter = Ok 4.
Proof. apply (speedup_needs_one_more (C:=sample_context) speedup_meter); by vm_compute. Defined.

(** Scaling down stakes can leave a validator without weight, and setting up the era
    succeeds nevertheless. *)
Theorem scaled_weight_zero :
  match new_boxed (C:=sample_context) (E:=UnitError) 1 [(1, 1); (2, 2 ^ 65)] [] [] (1, 3) sample_params with
  | Ok (hw, _) => weights (state hw) = [0; 12297829382473034410]
  | _ => False
  end.
Proof. by vm_compute. Qed.
